(* ===== verification/_CoqProject ===== *)
-Q . S2P
Prelude.v
RustStd.v
FileSys.v
FileSysFacts.v
Nar.v
PathInfo.v
Instances.v
Store.v
Calendar.v
AllowList.v
HandleId.v
ProxyIo.v
ProxyHandler.v
ProxySafety.v
Manifest.v
Generations.v
TopoSort.v
Activate.v
Switch.v
Profiles.v
ManifestInstances.v
GenDelete.v
GenSwitch.v
ActivatePlan.v
ProfileSwap.v
ProfileContents.v
ConfigFiles.v
NarExtract.v
NarFacts.v
ManifestRemoval.v
SchemeHandles.v
ProfileScheme.v
ProfileFacts.v
ProfileSessions.v
ProfileDirents.v
ProfileDisk.v
StoreResolve.v
StoreExtract.v
Stored.v
StoredFacts.v
CacheSource.v
Install.v
InstallFacts.v
RebuildConfig.v
RebuildFacts.v
NarDump.v
Fetchers.v
FetchFacts.v
LocalBuild.v
BuildOrder.v
BuildFacts.v
BuildDemo.v
EvalSources.v
EvalSourcesFacts.v
DirectCache.v
Channels.v
FlakeLock.v
FlakeFacts.v
Rebuild.v
BuildCommands.v
Upgrade.v
RunHistory.v
RebuildRun.v
Bytes.v
IoWorker.v
IoWorkerFacts.v
Fuse.v
FuseSession.v
VirtioFs.v
VirtioFacts.v
VirtioTransfer.v
Gdb.v
GdbFacts.v
Igc.v
IgcFacts.v
Iroh.v
IrohFacts.v
ElfPalign.v
NetSetup.v
