(* ===== verification/Prelude.v ===== *)
(** * nix-redox: a verification library of the snix store, sandbox and system logic

    nix-redox builds the Redox operating system with Nix.  Its own Rust program is [snix]
    ([src/snix-redox/src]): a store with garbage collection, a build sandbox, system
    generations with activation, and two scheme daemons that serve the store and the
    profiles as file systems.  Beside it are drivers, a daemon and tools of their own: the
    virtio-fs and Ethernet drivers, the iroh daemon, the GDB stub, the network setup and a
    rewriter of ELF headers.  The library models these programs as executable definitions
    and proves what they promise.

    ** The parts, and where they are

    - The ground.  [Prelude]: results, the state-and-error monad [SR], machine integers.
      [RustStd]: strings, [Path], ordered maps as Rust's standard library has them.
      [Bytes]: byte strings by position, and integers in them.
      [FileSys]: the file system as [std::fs] presents it - a tree with links, each call
      with the ways it fails, and the trees the disk goes through, so that a crash can be
      stated; [FileSysFacts] reasons about it with [run_in I s s']: every tree between two
      states satisfies [I].  [Instances], [ManifestInstances]: concrete stand-ins for the
      external interfaces, on which the witnesses evaluate.
    - The store ([store.rs], [pathinfo.rs], [nar.rs]).  [PathInfo]: the database, one JSON
      file per path.  [Store]: closures, GC roots, the live set and the sweep.  [Nar],
      [NarExtract], [NarFacts]: file manifests and the extraction of archives.
    - The build sandbox ([build_proxy/]).  [AllowList]: what a derivation may touch.
      [ProxyIo]: the requests to the I/O worker as a tree of questions, and the open flags.
      [ProxyHandler]: every operation of the scheme; [HandleId]: the numbering of handles,
      shared with the daemons.  [ProxySafety]: sessions of a builder, and confinement, for
      any worker.  [IoWorker]: the worker itself, its requests as programs of system calls
      over a kernel that answers anything; [IoWorkerFacts]: what the worker owns and gives
      back in the sessions of the handler.
    - Generations ([system.rs]).  [Calendar]: timestamps.  [Manifest]: the manifest's data.
      [Generations]: scanning, numbering, deletion, GC roots.  [Switch]: switch, rollback,
      activation at boot.  [GenDelete], [GenSwitch]: their theorems.
    - Activation ([activate.rs]).  [TopoSort]: the order of the scripts.  [Activate]: the
      plan and everything it does to the disk, called by [Switch].  [ActivatePlan],
      [ProfileSwap], [ProfileContents], [ConfigFiles]: their theorems.
    - The profile daemon ([profiled/]).  [SchemeHandles]: handles and listings, also of the
      store daemon, over the interfaces [LazyHandle] and [DirentBuffer].  [Profiles]:
      mappings, union listings, persistence, commands.  [ProfileScheme]: the requests.
      [ProfileFacts], [ProfileSessions], [ProfileDirents], [ProfileDisk]: their theorems.
    - The store daemon ([stored/]).  [StoreResolve]: the paths of requests.
      [StoreExtract]: lazy extraction, over [NarExtract]; [ManifestRemoval]: taking one
      back by its manifest.  [Stored]: memory, manifest lookups and requests.
      [StoredFacts]: their theorems.
    - Installation ([install.rs], [cache_source.rs], [local_cache.rs], [cache.rs]).
      [CacheSource]: local and remote caches.  [Install]: fetching, links, the profile
      manifest, dependencies, over [PathInfo], [Store] and [NarExtract].  [InstallFacts]:
      their theorems.  [DirectCache]: fetching from a server without an index.
    - Building ([local_build.rs], [sandbox.rs], [fetchers.rs], [eval.rs]).  [NarDump]: NAR
      hashes and the scan for references.  [Fetchers]: downloads and tar archives.
      [LocalBuild]: the build order, one derivation with its environment, confinement,
      outputs and registration; the builder is a parameter that may do anything to the
      disk.  [EvalSources]: the sources an evaluation imports, written into the store.
      [FetchFacts], [BuildOrder], [BuildFacts], [EvalSourcesFacts]: their theorems;
      [BuildDemo]: two derivations, built.
    - Rebuilding ([rebuild.rs], [bridge.rs], [channel.rs], [flake.rs], [bridge_build.rs],
      the upgrade of [system.rs]).  [RebuildConfig]: the parsed configuration, the route and
      the merge.  [Rebuild]: the four routes to a new generation - a merge, packages built
      from source, a system built natively, a request to the host - over [LocalBuild],
      [Install] and [Switch].  [Channels], [Upgrade]: the manifest of a server.
      [FlakeLock]: locked inputs.  [BuildCommands]: a build from a flake, and one asked of
      the host.  [RebuildFacts], [FlakeFacts], [RunHistory], [RebuildRun]: their theorems.
    - The virtio-fs driver ([nix/pkgs/system/virtio-fsd]).  [Fuse]: the messages, structures
      as bytes through the class [Wire].  [FuseSession]: the exchange and the operations of a
      session, against a device that is any function.  [VirtioFs]: path resolution, handles
      and requests of the scheme.  [VirtioFacts], [VirtioTransfer]: their theorems, and a
      host with a file.
    - The Ethernet driver ([nix/pkgs/system/igcd]).  [Igc]: the rings of descriptors, their
      buffers, and the requests, beside a device that changes the shared memory as it likes.
      [IgcFacts]: a history of the driver as a relation, and its theorem.
    - The iroh daemon ([irohd/]).  [Iroh]: connections, queues of messages, handles and the
      control file; [IrohFacts]: its theorem.
    - The GDB stub ([gdbstub/]).  [Gdb]: packets, registers, breakpoints, over the files of
      the [proc:] scheme; [GdbFacts]: its theorems.
    - Tools.  [ElfPalign]: the rewrite of ELF headers on the host
      ([nix/pkgs/host/fix-elf-palign]).  [NetSetup]: the network commands ([netcfg-setup/]).

    A definition has the name of the Rust item it translates; a loop body or a closure that
    is a definition of its own says whose it is.  State is passed explicitly: a handler is a
    function from the component's record to an answer and the new record.  [Result] is
    [result], a panic is [Panics] (the release profile aborts), a request that never
    returns is [None].

    ** What the theorems show

    - The store (C1, C6, C7, C12, C27): closures are exactly reachability; the sweep keeps
      what live roots reach and deletes the rest; system gc keeps the current system, and a
      recursive installation survives it.
    - Generations (C2, C3, C20, C22): a switch publishes last; a rebuild or an upgrade makes
      one switch at most, to a manifest it has approved; deletion respects the protected
      generations.
    - Building (C4, C11, C13-C16, C25): the order and the single run of builders; what is
      registered; the NAR hash is the archive's; sources appear whole; how a builder is
      confined; references are exact.
    - The sandbox (C5, C32): a session of any length, of paths without [..], writes and
      makes names only where that is allowed, and reads and moves only what can be read;
      the worker closes and unmaps what it was given, and nothing else.
    - Activation (C9, C23, C24): the profile swap in every tree a crash can leave; the
      script order; config files.
    - Configurations (C21, C33): a parsed configuration merges; texts pasted into Nix
      expressions are read back.
    - Fetching (C10, C17-C19, C38): archives are extracted faithfully and verified, by the
      daemon and by an installation; inputs of flakes; what a failed extraction leaves.
    - The profile and store daemons (C8, C26, C34, C35, C39): crash safety of the mappings,
      which are a replay of the commands; an open file is a snapshot; paged listings as
      clients see them; the places requests can name.
    - The other programs (C28-C31, C36, C37): the handles of the host are released and a
      transfer is one of the file; frames stay in order from the reset of the device on; each
      peer's messages are a queue; breakpoints are the only bytes a debugger adds; every program header has an alignment.
    - C40: timestamps are read back as they were written.

    Other theorems stand beside the code they are about, among them
    [ActivatePlan.plan_empty_iff], [ActivatePlan.parse_mode_string_octal],
    [Store.gc_broken_root_collected], [Calendar.timestamp_month_overflow_panics],
    [ProxySafety.dotdot_rename_escapes], [AllowList.root_token_reads_everything],
    [ProxySafety.mmap_bypasses_write_check], [ProxySafety.rename_source_unchecked],
    [IoWorkerFacts.WorkerDemo.unnamed_stays_open],
    [ProfileSessions.open_last_installed], [ProfileDirents.root_listing_loses_entries],
    [StoreResolve.ResolveDemo.request_panics], [StoredFacts.open_serves_registered],
    [StoredFacts.StoredDemo.double_slash_serves_host_file], [BuildFacts.nothing_to_build],
    [BuildDemo.BuildDemo.failed_is_reused], [RebuildFacts.merged_packages],
    [RebuildFacts.noticed_changes], [RebuildRun.RouteDemo.stale_answer],
    [FetchFacts.tar_confined], [FetchFacts.TarDemo.archives_escape],
    [Channels.channel_confined], [Channels.update_spec],
    [FlakeFacts.resolve_follows_spec], [FlakeFacts.FlakeDemo.interrupted_is_trusted],
    [BuildCommands.bridge_build_delivers], [IgcFacts.IgcDemo.full_ring_hangs],
    [GdbFacts.registers_roundtrip], [GdbFacts.GdbDemo.write_at_breakpoint_lost],
    [IrohFacts.IrohDemo.rest_is_lost], [NetSetup.odd_netmasks].

    ** Bounds and fuel

    [Store.closure_fuel] is one round for each reference of the paths that can be reached,
    and two; C12 shows the loop never runs out.  [HandleId.alloc_fuel] is the number of
    open handles and two ([HandleId.alloc_id_fresh]).
    [FileSys.walk] spends fuel on links only, [link_max] of them as the system does
    ([ELOOP]).  [create_dir_all] recurses at most once per component.  Kahn's loop has one
    round per script.  [Install.fetch_loop] needs one round for each reference of the
    paths a package can reach ([InstallFacts.recursive_install_closes]).  The depth-first
    sort takes the number of known derivations for the depth (C13), the hash of a path the
    longest path the system accepts, the scan of an import the nodes it has.
    [FlakeLock.follows_fuel] is the number of chains of the lock file and two; a chain that
    is still going then goes round for ever ([FlakeFacts.resolve_follows_spec]).  The bridge
    polls as often as its timeout allows.  A transfer of virtio-fs has a round for each
    chunk; C29 says how many are enough, and that a host which negotiates chunks of no size
    keeps it going for ever.  A reader of directory entries has the bytes it reads.  igcd
    needs 257 looks for a free descriptor at most, unless the ring is full (C30).
    The worker's loops take their fuel as an argument, since a kernel may interrupt a read
    or list a directory for ever; C32 says which kernels let every request end and what is
    enough.  The other recursions are structural.
    [u32] and [u64] wrap where the code's do; sizes in a [usize] are [Z].

    ** Parameters

    Code outside the repository is a class argument with documented laws, and has an
    instance in the examples: nix-compat's store path hash ([StorePathLib]) and archive
    reader, decoders and digest ([NarCodec]), serde_json ([InfoJson], [ManifestJson],
    [SystemJson], [ProfileJson], [StoreJson], [InstallJson], [ConfigJson], [IrohJson],
    [PeersJson]), the scheme library's buffers and numbers ([DirentBuffer], [InodeBuffer],
    [SyscallAbi], [StatFlag], [FileMode]), the metadata parser and the answers of cache
    servers ([CacheLib]), blake3, the shell, the clock; the NAR writer and the reference
    scanner ([NarWriter], [ReferenceScanner]), derivations and their output paths
    ([BuildLib]), the kernel's namespaces ([Platform]), downloads and tar ([FetchLib]), the
    evaluator ([RebuildLib]), channels' servers ([ChannelLib]), lock files and git
    ([FlakeLib]), the answers of the host to a build ([BridgeBuildLib]), the daemons an
    installation tells ([Daemons]), the iroh network ([Endpoint]), the files of schemes
    ([ProcScheme], [NetFiles]), physical memory and the Ethernet device ([Physical],
    [Device]).  How the system fails is a parameter too ([FsLimits], [IoFaults],
    [GenFaults], [TreeFaults]), so that theorems hold for every pattern of failures.  The
    worker of [ProxySafety] is any answering policy, the kernel of [IoWorker] any function
    of the calls so far, a builder any function on the disk, the host of the bridge and the
    device of virtio-fs any too.

    ** Not modelled

    Printing and progress messages; argument parsing ([main.rs]); commands that only print.
    Sockets, threads, namespaces, PCI start-up, and the main loops of schemes and drivers:
    kernel interfaces; each request is atomic, as the single-threaded loops make it.  The
    launch of a traced process and the self-test of the stub are system calls in a row.
    The life cycle of the build proxy is threads and file descriptors; the pool of the
    daemons' reads is not used by them.  The calls through a root descriptor ([raw_openat]
    and the like) repeat those of [std::fs] and are modelled as these, but where the source
    does something else with one: the removal of a failed extraction, and the errors of the
    cache ([StoreExtract], [ManifestRemoval]).
    The evaluator and the fetching it does by itself call other crates, and so do
    [vendor.rs] (a command for developers, which runs cargo and copies, counts and links the
    directories of crates), [hash-manifest] (JSON and BLAKE3) and [redb-demo] (a
    database); [boot-log-sink] copies what it reads.
    Vendored and patched crates and Nix files are not part of the program's own code. *)

From stdpp Require Export base gmap strings list sorting numbers pretty.
From Stdlib Require Export Ascii ZArith Lia.

#[global] Arguments String.append !_ _ / : simpl nomatch.
#[global] Arguments String.prefix !_ !_ / : simpl nomatch.

#[global] Arguments ascii_dec : simpl never.

(** ** Fallible computations

    [Result<A, E>] of the source.  The bind is the [?] operator. *)
Inductive result (E A : Type) : Type :=
  | Ok (a : A)
  | Err (e : E).
Arguments Ok {E A} a.
Arguments Err {E A} e.

#[export] Instance result_ret E : MRet (result E) := λ A a, Ok a.
#[export] Instance result_bind E : MBind (result E) := λ A B f m,
  match m with Ok a => f a | Err e => Err e end.
#[export] Instance result_fmap E : FMap (result E) := λ A B f m,
  match m with Ok a => Ok (f a) | Err e => Err e end.

#[export] Instance result_eq_dec {E A} `{EqDecision E, EqDecision A} :
  EqDecision (result E A).
Proof. solve_decision. Defined.

Definition is_ok {E A} (r : result E A) : bool :=
  match r with Ok _ => true | Err _ => false end.

(** [Option::ok_or] *)
Definition ok_or {E A} (e : E) (o : option A) : result E A :=
  match o with Some a => Ok a | None => Err e end.

(** A call that may also abort the process: the release profile builds with
    [panic = "abort"], so a panic ends the daemon. *)
Inductive outcome (A : Type) : Type :=
  | Returns (a : A)
  | Panics.
Arguments Returns {A} a.
Arguments Panics {A}.

(** Stateful fallible computations: a [Result] and the state it leaves, also on error *)
Definition SR (S E A : Type) : Type := S → result E A * S.

#[export] Instance SR_ret S E : MRet (SR S E) := λ A a s, (Ok a, s).
#[export] Instance SR_bind S E : MBind (SR S E) := λ A B f m s,
  match m s with
  | (Ok a, s') => f a s'
  | (Err e, s') => (Err e, s')
  end.

Definition sr_get {S E} : SR S E S := λ s, (Ok s, s).
Definition sr_put {S E} (s : S) : SR S E unit := λ _, (Ok tt, s).
Definition sr_lift {S E A} (r : result E A) : SR S E A := λ s, (r, s).

(** [if let Err(e) = m { warn }]: the error is dropped, the state it left is kept *)
Definition sr_warn {S E} (m : SR S E unit) : SR S E unit := λ s, (Ok tt, (m s).2).

Lemma sr_bind_ok {S E A B} (m : SR S E A) (f : A → SR S E B) s b s2 :
  (m ≫= f) s = (Ok b, s2) → ∃ a s1, m s = (Ok a, s1) ∧ f a s1 = (Ok b, s2).
Proof. unfold mbind, SR_bind. destruct (m s) as [[a|e] s1]; [eauto|discriminate]. Qed.

(** ** Machine integers

    [u32], [u64] and [usize] (64-bit targets) are [Z] in their range; arithmetic
    wraps, since the release profile sets no [overflow-checks]. *)
Open Scope Z_scope.

Definition u32_max : Z := 2^32 - 1.
Definition u64_max : Z := 2^64 - 1.
Definition usize_max : Z := 2^64 - 1.
Definition wrap32 (z : Z) : Z := z `mod` 2^32.
Definition wrap64 (z : Z) : Z := z `mod` 2^64.
Definition u32 (z : Z) : Prop := 0 ≤ z ≤ u32_max.
Definition u64 (z : Z) : Prop := 0 ≤ z ≤ u64_max.

Lemma wrap64_small z : u64 z → wrap64 z = z.
Proof. unfold u64, u64_max, wrap64. intros. apply Z.mod_small. lia. Qed.

Lemma wrap32_small z : u32 z → wrap32 z = z.
Proof. unfold u32, u32_max, wrap32. intros. apply Z.mod_small. lia. Qed.

Lemma wrap64_range z : u64 (wrap64 z).
Proof. unfold u64, u64_max, wrap64. pose proof (Z.mod_pos_bound z (2^64)). lia. Qed.

(** Wrapping sums may be wrapped once, at the end. *)
Lemma wrap64_add_l a b : wrap64 (wrap64 a + b) = wrap64 (a + b).
Proof. unfold wrap64. apply Zplus_mod_idemp_l. Qed.

(** Sums of integers over a list *)
Definition sum_Z {A} (f : A → Z) (l : list A) : Z := foldr (λ a acc, f a + acc) 0 l.

Lemma sum_Z_perm {A} (f : A → Z) l1 l2 : l1 ≡ₚ l2 → sum_Z f l1 = sum_Z f l2.
Proof. induction 1; simpl; lia. Qed.

Lemma sum_Z_ext {A} (f g : A → Z) l : (∀ x, x ∈ l → f x = g x) → sum_Z f l = sum_Z g l.
Proof.
  induction l as [|x l IH]; intros Hf; [done|]. simpl. rewrite (Hf x) by left.
  rewrite IH; [done|]. intros y Hy. apply Hf. by right.
Qed.

Close Scope Z_scope.

(** ** The development's tactics and hint database *)
Create HintDb snix discriminated.

(** Case split on the scrutinee of a match in a hypothesis or in the goal. *)
Ltac split_match :=
  match goal with
  | H : context [match ?x with _ => _ end] |- _ =>
      let E := fresh "E" in destruct x eqn:E
  | |- context [match ?x with _ => _ end] =>
      let E := fresh "E" in destruct x eqn:E
  end.

(** Invert a monadic bind that returned [Ok]. *)
Lemma result_bind_ok {E A B} (m : result E A) (f : A → result E B) b :
  m ≫= f = Ok b → ∃ a, m = Ok a ∧ f a = Ok b.
Proof. destruct m; [eauto | discriminate]. Qed.

Ltac inv_ok :=
  repeat match goal with
  | H : (_ ≫= _) = Ok _ |- _ =>
      let a := fresh "a" in let E := fresh "E" in
      apply result_bind_ok in H as (a & E & H)
  | H : Ok _ = Ok _ |- _ => injection H as H; subst
  | H : Err _ = Ok _ |- _ => discriminate H
  end.
