(* ===== verification/RustStd.v ===== *)
(** * The parts of Rust's standard library the modelled code uses

    [Str]: the operations on [&str] (byte strings, cut at ASCII characters).
    [Path]: [std::path::Path] as the list of its components: two paths are equal
    when their components are, [starts_with] and [strip_prefix] work on whole
    components, [join] with an absolute path replaces the base.
    [BTree]: iteration of a [BTreeMap]/[BTreeSet] keyed by strings, in key order. *)

From S2P Require Import Prelude.

Module Str.

(** [s.starts_with(p)] *)
Definition starts_with (p s : string) : bool := String.prefix p s.

(** [s.strip_prefix(p)] *)
Fixpoint strip_prefix (p s : string) : option string :=
  match p, s with
  | EmptyString, _ => Some s
  | String a p', String b s' => if decide (a = b) then strip_prefix p' s' else None
  | String _ _, EmptyString => None
  end.

(** [s.trim_start_matches(c)] *)
Fixpoint trim_start_matches (c : ascii) (s : string) : string :=
  match s with
  | String a s' => if decide (a = c) then trim_start_matches c s' else s
  | EmptyString => EmptyString
  end.

(** [s.trim_end_matches(c)] *)
Fixpoint trim_end_matches (c : ascii) (s : string) : string :=
  match s with
  | EmptyString => EmptyString
  | String a s' =>
      match trim_end_matches c s' with
      | EmptyString => if decide (a = c) then EmptyString else String a EmptyString
      | t => String a t
      end
  end.

(** [s.trim_matches(c)] *)
Definition trim_matches (c : ascii) (s : string) : string :=
  trim_end_matches c (trim_start_matches c s).

(** [match s.find(c) { Some(pos) => Some((&s[..pos], &s[pos + 1..])), None => None }] *)
Fixpoint split_once (c : ascii) (s : string) : option (string * string) :=
  match s with
  | EmptyString => None
  | String a s' =>
      if decide (a = c) then Some (EmptyString, s')
      else prod_map (String a) id <$> split_once c s'
  end.

(** [s.contains(pat)] *)
Fixpoint contains (pat s : string) : bool :=
  starts_with pat s ||
  match s with EmptyString => false | String _ s' => contains pat s' end.

(** [s.contains(c)] for a character *)
Fixpoint contains_char (c : ascii) (s : string) : bool :=
  match s with
  | EmptyString => false
  | String a s' => bool_decide (a = c) || contains_char c s'
  end.

(** [s.ends_with(suf)] *)
Fixpoint ends_with (suf s : string) : bool :=
  bool_decide (s = suf) ||
  match s with EmptyString => false | String _ s' => ends_with suf s' end.

(** [s.split(c)]: always at least one piece *)
Fixpoint split (c : ascii) (s : string) : list string :=
  match s with
  | EmptyString => [EmptyString]
  | String a s' =>
      if decide (a = c) then EmptyString :: split c s'
      else match split c s' with
           | p :: ps => String a p :: ps
           | [] => [String a EmptyString]
           end
  end.

(** [v.join(sep)] *)
Fixpoint join (sep : string) (l : list string) : string :=
  match l with
  | [] => ""
  | [x] => x
  | x :: l' => x +:+ sep +:+ join sep l'
  end.

(** [s.trim_matches(|c| ...)] for a class of ASCII characters *)
Fixpoint trim_start_class (p : ascii → bool) (s : string) : string :=
  match s with
  | String a s' => if p a then trim_start_class p s' else s
  | EmptyString => EmptyString
  end.

Fixpoint trim_end_class (p : ascii → bool) (s : string) : string :=
  match s with
  | EmptyString => EmptyString
  | String a s' =>
      match trim_end_class p s' with
      | EmptyString => if p a then EmptyString else String a EmptyString
      | t => String a t
      end
  end.

Definition trim_class (p : ascii → bool) (s : string) : string :=
  trim_end_class p (trim_start_class p s).

Definition byte (a : ascii) : N := N_of_ascii a.

(** The number of bytes of the Unicode white space character at the head of [s]; 0
    when there is none.  UTF-8 text never contains one of these sequences off a
    character boundary. *)
Definition white_space (s : string) : nat :=
  match s with
  | EmptyString => 0
  | String a s' =>
      if decide (byte a ∈ [9; 10; 11; 12; 13; 32]%N) then 1
      else match s' with
           | EmptyString => 0
           | String b s'' =>
               if decide (byte a = 194%N ∧ byte b ∈ [133; 160]%N) then 2
               else match s'' with
                    | EmptyString => 0
                    | String c _ =>
                        if decide ((byte a, byte b, byte c) ∈
                             [(225,154,128); (226,128,128); (226,128,129); (226,128,130);
                              (226,128,131); (226,128,132); (226,128,133); (226,128,134);
                              (226,128,135); (226,128,136); (226,128,137); (226,128,138);
                              (226,128,168); (226,128,169); (226,128,175); (226,129,159);
                              (227,128,128)]%N) then 3
                        else 0
                    end
           end
  end.

(** [s.split_whitespace()]: [skip] bytes of a separator are still to be dropped, [cur]
    is the token being read *)
Fixpoint split_ws (skip : nat) (cur : string) (s : string) : list string :=
  let flush := if decide (cur = "") then [] else [cur] in
  match s with
  | EmptyString => flush
  | String a s' =>
      match skip with
      | S k => split_ws k cur s'
      | O => match white_space s with
             | S k => flush ++ split_ws k "" s'
             | O => split_ws 0 (cur +:+ String a "") s'
             end
      end
  end.

Definition split_whitespace (s : string) : list string := split_ws 0 "" s.

(** [s.trim()]: Unicode white space at both ends *)
Fixpoint trim_start_ws (skip : nat) (s : string) : string :=
  match s with
  | EmptyString => EmptyString
  | String _ s' =>
      match skip with
      | S k => trim_start_ws k s'
      | O => match white_space s with S k => trim_start_ws k s' | O => s end
      end
  end.

Fixpoint all_ws (skip : nat) (s : string) : bool :=
  match s with
  | EmptyString => true
  | String _ s' =>
      match skip with
      | S k => all_ws k s'
      | O => match white_space s with S k => all_ws k s' | O => false end
      end
  end.

Fixpoint trim_end_ws (s : string) : string :=
  if all_ws 0 s then EmptyString
  else match s with EmptyString => EmptyString | String a s' => String a (trim_end_ws s') end.

Definition trim (s : string) : string := trim_end_ws (trim_start_ws 0 s).

(** [s.strip_suffix(suffix)] *)
Definition strip_suffix (suffix s : string) : option string :=
  if ends_with suffix s then Some (String.substring 0 (String.length s - String.length suffix) s) else None.

(** [s.lines()]: a carriage return goes with the line feed after it *)
Definition strip_cr (s : string) : string := default s (strip_suffix (String "013" "") s).

Definition lines (s : string) : list string :=
  let l := split "010"%char s in
  (strip_cr <$> removelast l) ++ match last l with None | Some "" => [] | Some rest => [rest] end.

(** [std::str::from_utf8(bytes).is_ok()]: [more] continuation bytes are due, the next
    one within [lo..hi] *)
Fixpoint utf8_from (more : nat) (lo hi : N) (s : string) : bool :=
  match s with
  | EmptyString => bool_decide (more = 0)
  | String a s' =>
      let b := byte a in
      match more with
      | S k => bool_decide (lo ≤ b ≤ hi)%N && utf8_from k 128 191 s'
      | O =>
          if decide (b < 128)%N then utf8_from 0 128 191 s'
          else if decide (194 ≤ b ≤ 223)%N then utf8_from 1 128 191 s'
          else if decide (b = 224)%N then utf8_from 2 160 191 s'
          else if decide (b = 237)%N then utf8_from 2 128 159 s'
          else if decide (225 ≤ b ≤ 239)%N then utf8_from 2 128 191 s'
          else if decide (b = 240)%N then utf8_from 3 144 191 s'
          else if decide (241 ≤ b ≤ 243)%N then utf8_from 3 128 191 s'
          else if decide (b = 244)%N then utf8_from 3 128 143 s'
          else false
      end
  end.

Definition utf8_valid (s : string) : bool := utf8_from 0 128 191 s.

(** [char::REPLACEMENT_CHARACTER] in UTF-8 *)
Definition replacement : string := String "239" (String "191" (String "189" "")).

(** What the first byte of a character asks for: how many continuation bytes, and the
    range of the next one *)
Definition lead (b : N) : option (nat * N * N) :=
  if decide (b < 128)%N then Some (0, 128%N, 191%N)
  else if decide (194 ≤ b ≤ 223)%N then Some (1, 128%N, 191%N)
  else if decide (b = 224)%N then Some (2, 160%N, 191%N)
  else if decide (b = 237)%N then Some (2, 128%N, 159%N)
  else if decide (225 ≤ b ≤ 239)%N then Some (2, 128%N, 191%N)
  else if decide (b = 240)%N then Some (3, 144%N, 191%N)
  else if decide (241 ≤ b ≤ 243)%N then Some (3, 128%N, 191%N)
  else if decide (b = 244)%N then Some (3, 128%N, 143%N)
  else None.

(** [String::from_utf8_lossy]: the longest start of a character that breaks off becomes
    one replacement character; [pend] is the character being read *)
Fixpoint lossy_from (pend : string) (more : nat) (lo hi : N) (s : string) : string :=
  match s with
  | EmptyString => if decide (more = 0) then "" else replacement
  | String a s' =>
      let start (_ : unit) :=
        match lead (byte a) with
        | None => replacement +:+ lossy_from "" 0 128 191 s'
        | Some (0, _, _) => String a (lossy_from "" 0 128 191 s')
        | Some (k, lo', hi') => lossy_from (String a "") k lo' hi' s'
        end in
      match more with
      | O => start tt
      | S k =>
          if decide (lo ≤ byte a ≤ hi)%N then
            match k with
            | O => pend +:+ String a (lossy_from "" 0 128 191 s')
            | _ => lossy_from (pend +:+ String a "") k 128 191 s'
            end
          else replacement +:+ start tt
      end
  end.

Definition from_utf8_lossy (s : string) : string := lossy_from "" 0 128 191 s.

(** *** Lemmas *)

Lemma app_nil_r s : s +:+ "" = s.
Proof. induction s as [|a s IH]; simpl; [done|by rewrite IH]. Qed.

Lemma app_assoc s1 s2 s3 : (s1 +:+ s2) +:+ s3 = s1 +:+ s2 +:+ s3.
Proof. induction s1 as [|a s IH]; simpl; [done|by rewrite IH]. Qed.

Lemma starts_with_spec p s : starts_with p s = true ↔ ∃ t, s = p +:+ t.
Proof.
  revert s. induction p as [|a p IH]; intros s.
  - split; [intros _; by exists s | destruct s; done].
  - destruct s as [|b s]; simpl.
    + split; [done | intros [t Ht]; discriminate].
    + destruct (ascii_dec a b) as [->|Hn].
      * rewrite IH. split; intros [t Ht]; exists t; simplify_eq/=; done.
      * split; [done | intros [t Ht]; simplify_eq].
Qed.

Lemma starts_with_app p t : starts_with p (p +:+ t) = true.
Proof. apply starts_with_spec. by exists t. Qed.

Lemma ends_with_app suf s : ends_with suf (s +:+ suf) = true.
Proof.
  assert (Hunf : ∀ t, ends_with suf t = bool_decide (t = suf) ||
    match t with EmptyString => false | String _ t' => ends_with suf t' end) by by intros [].
  induction s as [|a s IH]; rewrite Hunf; simpl.
  - by rewrite bool_decide_eq_true_2.
  - by rewrite IH, orb_true_r.
Qed.

Lemma app_inj_r suf s1 s2 : s1 +:+ suf = s2 +:+ suf → s1 = s2.
Proof.
  assert (Hlen : ∀ s t, String.length (s +:+ t) = (String.length s + String.length t)%nat).
  { induction s as [|a s IH]; intros; simpl; [done|by rewrite IH]. }
  revert s2. induction s1 as [|a s1 IH]; intros [|b s2] H; simpl in *; try done.
  - apply (f_equal String.length) in H. simpl in H. rewrite Hlen in H. lia.
  - apply (f_equal String.length) in H. simpl in H. rewrite Hlen in H. lia.
  - injection H as -> H. f_equal. by apply IH.
Qed.

Lemma strip_prefix_Some p s t : strip_prefix p s = Some t ↔ s = p +:+ t.
Proof.
  revert s. induction p as [|a p IH]; intros s; simpl.
  - split; intros; simplify_eq; done.
  - destruct s as [|b s]; [done|].
    destruct (decide (a = b)) as [->|]; [rewrite (IH s); clear IH|clear IH]; naive_solver.
Qed.

Lemma strip_prefix_app p t : strip_prefix p (p +:+ t) = Some t.
Proof. by apply strip_prefix_Some. Qed.

Lemma contains_char_app c s1 s2 :
  contains_char c (s1 +:+ s2) = contains_char c s1 || contains_char c s2.
Proof. induction s1 as [|a s IH]; simpl; [done|]. rewrite IH. by rewrite orb_assoc. Qed.

Lemma split_once_Some c s a b :
  split_once c s = Some (a, b) ↔ s = a +:+ String c b ∧ contains_char c a = false.
Proof.
  revert a b. induction s as [|x s IH]; intros a b; simpl.
  - split; [done|]. intros [H _]. by destruct a.
  - case_decide as Hx; subst.
    + split.
      * intros ?; simplify_eq. done.
      * intros [Hs Ha]. destruct a as [|y a]; simplify_eq/=; [done|].
        by rewrite bool_decide_eq_true_2 in Ha.
    + split.
      * intros H. destruct (split_once c s) as [[a' b']|]; [|done]. injection H as <- <-.
        destruct (IH a' b') as [H1 _]. destruct (H1 eq_refl) as [-> Ha].
        split; [done|]. simpl. by rewrite bool_decide_eq_false_2.
      * intros [Hs Ha]. destruct a as [|y a]; simplify_eq/=.
        apply orb_false_iff in Ha as [_ Ha].
        by rewrite (proj2 (IH a b) (conj eq_refl Ha)).
Qed.

Lemma split_once_None c s : split_once c s = None ↔ contains_char c s = false.
Proof.
  induction s as [|x s IH]; simpl; [done|].
  case_decide as Hx; subst.
  - by rewrite bool_decide_eq_true_2.
  - rewrite bool_decide_eq_false_2 by done. simpl. rewrite <- IH.
    by destruct (split_once c s).
Qed.

Lemma split_whitespace_ex :
  split_whitespace ("  a bc" +:+ String "010" ("d" +:+ String "194" (String "160" "e ")))
  = ["a"; "bc"; "d"; "e"].
Proof. reflexivity. Qed.

Lemma trim_ex : trim ("  12 3" +:+ String "010" "") = "12 3" ∧ trim "   " = "".
Proof. done. Qed.

Lemma utf8_ex :
  utf8_valid (String "195" (String "169" "x")) = true
  ∧ utf8_valid (String "195" "x") = false ∧ utf8_valid (String "237" (String "160" (String "128" ""))) = false.
Proof. done. Qed.

Lemma split_ne_nil c s : split c s ≠ [].
Proof. destruct s; simpl; [done|]. case_decide; [done|]. by destruct (split c s). Qed.

Lemma split_no_char c s : Forall (λ p, contains_char c p = false) (split c s).
Proof.
  induction s as [|a s IH]; simpl; [by repeat constructor|].
  case_decide; [by constructor|].
  destruct (split c s) as [|p ps]; simpl; inversion IH; subst.
  - constructor; [|done]. simpl. by rewrite bool_decide_eq_false_2.
  - constructor; [|done]. simpl. by rewrite bool_decide_eq_false_2.
Qed.

Lemma split_no_sep c s : contains_char c s = false → split c s = [s].
Proof.
  induction s as [|a s IH]; simpl; [done|]. intros [Ha Hs]%orb_false_iff.
  apply bool_decide_eq_false in Ha. rewrite decide_False by done.
  by rewrite IH.
Qed.

Lemma split_cons c p s : contains_char c p = false → split c (p +:+ String c s) = p :: split c s.
Proof.
  induction p as [|a p IH]; simpl; intros Hp.
  - by rewrite decide_True.
  - apply orb_false_iff in Hp as [Ha Hp]. apply bool_decide_eq_false in Ha.
    rewrite decide_False by done. by rewrite IH.
Qed.

Lemma split_app c u v : split c (u +:+ String c v) = split c u ++ split c v.
Proof.
  induction u as [|a u IH]; simpl; [by rewrite decide_True|].
  case_decide; [by rewrite IH|]. rewrite IH.
  pose proof (split_ne_nil c u). by destruct (split c u).
Qed.

Lemma lines_ex :
  lines ("a" +:+ String "013" (String "010" ("b" +:+ String "013" ""))) = ["a"; "b" +:+ String "013" ""]
  ∧ lines ("a" +:+ String "010" "") = ["a"] ∧ lines "" = [].
Proof. done. Qed.

Lemma lines_cons u v : lines (u +:+ String "010" v) = (strip_cr <$> split "010" u) ++ lines v.
Proof.
  unfold lines. rewrite split_app. pose proof (split_ne_nil "010" v) as Hv.
  destruct (split "010" v) as [|l y _] using rev_ind; [done|].
  rewrite (assoc_L (++)), !removelast_last, !last_snoc, fmap_app. by rewrite <- (assoc_L (++)).
Qed.

Lemma split_trim_start c s x : x ∈ split c (trim_start_matches c s) → x ∈ split c s.
Proof.
  induction s as [|a s IH]; simpl; [done|]. case_decide as Ha.
  - intros. right. by apply IH.
  - simpl. by rewrite decide_False.
Qed.

Lemma trim_end_cases c s :
  trim_end_matches c s = s ∨ ∃ v, s = trim_end_matches c s +:+ String c v.
Proof.
  induction s as [|a s IH]; simpl; [by left|].
  destruct (trim_end_matches c s) as [|b t] eqn:E.
  - case_decide as Ha; subst; [right; by exists s|].
    destruct IH as [<-|[v ->]]; [by left|]. right. by exists v.
  - destruct IH as [<-|[v ->]]; [by left|]. right. by exists v.
Qed.

Lemma split_trim_end c s x : x ∈ split c (trim_end_matches c s) → x ∈ split c s.
Proof.
  intros Hx. destruct (trim_end_cases c s) as [<-|[v ->]]; [done|].
  rewrite split_app. apply elem_of_app. by left.
Qed.

Lemma split_trim c s x : x ∈ split c (trim_matches c s) → x ∈ split c s.
Proof. intros Hx. by apply split_trim_start, split_trim_end. Qed.

Lemma trim_end_matches_no c s : contains_char c s = false → trim_end_matches c s = s.
Proof.
  induction s as [|a s IH]; simpl; [done|]. intros [Ha Hs]%orb_false_iff.
  apply bool_decide_eq_false in Ha. rewrite IH by done.
  destruct s; [by rewrite decide_False | done].
Qed.

Lemma trim_end_matches_one c s :
  contains_char c s = false → trim_end_matches c (s +:+ String c "") = s.
Proof.
  induction s as [|a s IH]; simpl; intros Hs.
  - by rewrite decide_True.
  - apply orb_false_iff in Hs as [Ha Hs]. apply bool_decide_eq_false in Ha.
    rewrite IH by done. destruct s; [by rewrite decide_False | done].
Qed.

Lemma trim_start_matches_head c s : starts_with (String c "") (trim_start_matches c s) = false.
Proof.
  induction s as [|a s IH]; simpl; [done|].
  case_decide; [done|]. simpl. by destruct (ascii_dec c a); [congruence|].
Qed.

(** A trailing match is really trimmed: the result does not end with [c]. *)
Lemma trim_end_matches_last c s t : trim_end_matches c s ≠ t +:+ String c "".
Proof.
  revert t. induction s as [|a s IH]; intros t; simpl; [by destruct t|].
  destruct (trim_end_matches c s) as [|b u] eqn:E.
  - case_decide; [by destruct t|]. intros Ht. destruct t as [|x t]; simplify_eq/=. by destruct t.
  - intros Ht. destruct t as [|x t]; simplify_eq/=. by eapply IH.
Qed.

Lemma starts_with_trim_end c d s t :
  c ≠ d → trim_end_matches c s = String d t → ∃ u, s = String d u.
Proof.
  destruct s as [|a s]; simpl; [done|]. intros Hn.
  destruct (trim_end_matches c s); [case_decide|]; intros; simplify_eq; eauto.
Qed.

(** *** Text of visible ASCII characters and spaces *)
Definition graphic (a : ascii) : bool := bool_decide (33 ≤ byte a ≤ 126)%N.

Fixpoint all_chars (p : ascii → bool) (s : string) : bool :=
  match s with EmptyString => true | String a s' => p a && all_chars p s' end.

Lemma all_chars_app p s t : all_chars p (s +:+ t) = all_chars p s && all_chars p t.
Proof. induction s as [|a s IH]; simpl; [done|]. by rewrite IH, andb_assoc. Qed.

Lemma white_space_graphic a s : graphic a = true → white_space (String a s) = 0.
Proof.
  intros Hg%bool_decide_eq_true. unfold white_space.
  rewrite decide_False by (rewrite !elem_of_cons, elem_of_nil; lia).
  destruct s as [|b s]; [done|]. rewrite decide_False by (intros [? _]; lia).
  destruct s as [|c s]; [done|]. rewrite decide_False; [done|].
  intros Hin. assert (Ha : byte a ∈ [225; 226; 227]%N).
  { assert (Hf : (λ x : N * N * N, x.1.1 ∈ [225; 226; 227]%N) (byte a, byte b, byte c)); [|exact Hf].
    revert Hin. generalize (byte a, byte b, byte c). apply Forall_forall.
    repeat constructor; simpl; set_solver. }
  rewrite !elem_of_cons, elem_of_nil in Ha. lia.
Qed.

Lemma white_space_space s : white_space (String " " s) = 1.
Proof. reflexivity. Qed.

Lemma split_ws_word cur w s :
  all_chars graphic w = true → split_ws 0 cur (w +:+ s) = split_ws 0 (cur +:+ w) s.
Proof.
  revert cur. induction w as [|a w IH]; intros cur; simpl all_chars.
  - by rewrite app_nil_r.
  - intros [Ha Hw]%andb_true_iff. cbn [String.append split_ws].
    change (String a (w +:+ s)) with (String a (w +:+ s)).
    rewrite white_space_graphic by done. rewrite IH by done.
    by rewrite app_assoc.
Qed.

Lemma split_ws_space cur s :
  split_ws 0 cur (String " " s) = (if decide (cur = "") then [] else [cur]) ++ split_ws 0 "" s.
Proof. reflexivity. Qed.

Lemma split_whitespace_join ws :
  Forall (λ w, w ≠ "" ∧ all_chars graphic w = true) ws → split_whitespace (join " " ws) = ws.
Proof.
  unfold split_whitespace. induction 1 as [|w ws [Hne Hw] Hws IH]; [done|].
  destruct ws as [|w' ws].
  - simpl join. rewrite <- (app_nil_r w) at 1. rewrite split_ws_word by done. simpl.
    by rewrite decide_False.
  - change (join " " (w :: w' :: ws)) with (w +:+ String " " (join " " (w' :: ws))).
    rewrite split_ws_word, split_ws_space, IH by done. simpl. by rewrite decide_False.
Qed.

Definition printable (a : ascii) : bool := graphic a || bool_decide (a = " "%char).

Lemma all_ws_last s a : all_chars printable s = true → graphic a = true → all_ws 0 (s +:+ String a "") = false.
Proof.
  intros Hs Ha. induction s as [|b s IH]; cbn [String.append all_ws].
  - by rewrite white_space_graphic.
  - simpl in Hs. apply andb_true_iff in Hs as [Hb Hs]. unfold printable in Hb.
    destruct (graphic b) eqn:E; [by rewrite white_space_graphic|].
    apply bool_decide_eq_true in Hb as ->. rewrite white_space_space. by apply IH.
Qed.

Lemma trim_end_ws_last s a :
  all_chars printable s = true → graphic a = true →
  trim_end_ws (s +:+ String a "") = s +:+ String a "".
Proof.
  intros Hs Ha. induction s as [|b s IH].
  - cbn [String.append trim_end_ws]. change (String a "") with ("" +:+ String a "") at 1.
    by rewrite all_ws_last.
  - change (String b s +:+ String a "") with (String b (s +:+ String a "")) at 1.
    cbn [trim_end_ws]. change (String b (s +:+ String a "")) with (String b s +:+ String a "") at 1.
    rewrite all_ws_last by done. simpl in Hs. apply andb_true_iff in Hs as [_ Hs]. by rewrite IH.
Qed.

(** Printable text that starts and ends with a visible character is not trimmed. *)
Lemma trim_visible s a b t u :
  s = String a t → s = u +:+ String b "" →
  graphic a = true → graphic b = true → all_chars printable u = true → trim s = s.
Proof.
  intros Hs Hu Ha Hb Hp. unfold trim.
  assert (Hst : trim_start_ws 0 s = s)
    by (rewrite Hs; cbn [trim_start_ws]; by rewrite white_space_graphic).
  rewrite Hst, Hu. by apply trim_end_ws_last.
Qed.

Lemma all_chars_impl (p q : ascii → bool) s :
  (∀ a, p a = true → q a = true) → all_chars p s = true → all_chars q s = true.
Proof.
  intros Hpq. induction s as [|a s IH]; simpl; [done|].
  intros [? ?]%andb_true_iff. apply andb_true_iff. auto.
Qed.

Lemma snoc_cases s : s = "" ∨ ∃ t a, s = t +:+ String a "".
Proof.
  induction s as [|a s IH]; [by left|right]. destruct IH as [->|(t & b & ->)].
  - by exists "", a.
  - by exists (String a t), b.
Qed.

Lemma utf8_from_0 lo hi a s :
  utf8_from 0 lo hi (String a s)
  = match lead (byte a) with Some (k, lo', hi') => utf8_from k lo' hi' s | None => false end.
Proof. simpl. unfold lead. repeat case_decide; try done. Qed.

Lemma lossy_from_valid s : ∀ pend more lo hi,
  (more = 0 → pend = "") → utf8_from more lo hi s = true → lossy_from pend more lo hi s = pend +:+ s.
Proof.
  induction s as [|a s IH]; intros pend more lo hi Hp Hv.
  - simpl in Hv. apply bool_decide_eq_true in Hv as ->. by rewrite Hp.
  - destruct more as [|k].
    + rewrite (Hp eq_refl). rewrite utf8_from_0 in Hv. cbn [lossy_from].
      destruct (lead (byte a)) as [[[[|k] lo'] hi']|] eqn:El; [| |done].
      * rewrite (IH "" 0); [done|done|]. unfold lead in El. repeat case_decide; simplify_eq; done.
      * by rewrite IH.
    + simpl in Hv. apply andb_true_iff in Hv as [Hb Hv]. apply bool_decide_eq_true in Hb.
      cbn [lossy_from]. rewrite decide_True by done. destruct k as [|k].
      * by rewrite IH.
      * rewrite IH by done. by rewrite app_assoc.
Qed.

(** Text that is UTF-8 is read as it is. *)
Lemma from_utf8_lossy_valid s : utf8_valid s = true → from_utf8_lossy s = s.
Proof. intros Hv. unfold from_utf8_lossy. by rewrite lossy_from_valid. Qed.

Lemma from_utf8_lossy_ex :
  from_utf8_lossy ("a" +:+ String "240" (String "144" "b")) = "a" +:+ replacement +:+ "b"
  ∧ from_utf8_lossy (String "192" (String "128" "")) = replacement +:+ replacement.
Proof. done. Qed.

End Str.

(** [std::path::Component] on Unix: there is no prefix component. *)
Inductive component : Type :=
  | RootDir
  | CurDir
  | ParentDir
  | Normal (s : string).

#[export] Instance component_eq_dec : EqDecision component.
Proof. solve_decision. Defined.

#[export] Instance component_countable : Countable component.
Proof.
  refine (inj_countable'
    (λ c, match c with
          | RootDir => inl 0 | CurDir => inl 1 | ParentDir => inl 2 | Normal s => inr s
          end)
    (λ x, match x with
          | inl 0 => RootDir | inl 1 => CurDir | inl _ => ParentDir | inr s => Normal s
          end) _).
  by intros [].
Defined.

(** A path is its list of components. *)
Abbreviation path := (list component).

Module Path.

(** One piece between separators; [.] survives only at the head of a relative path. *)
Definition piece_component (lead : bool) (s : string) : option component :=
  if decide (s = "") then None
  else if decide (s = ".") then (if lead then Some CurDir else None)
  else if decide (s = "..") then Some ParentDir
  else Some (Normal s).

(** [Path::new(s).components()] *)
Definition components (s : string) : path :=
  match Str.split "/" s with
  | [] => []
  | p :: ps =>
      (if Str.starts_with "/" s then [RootDir] else option_list (piece_component true p))
        ++ omap (piece_component false) ps
  end.

Definition is_absolute (p : path) : bool :=
  match p with RootDir :: _ => true | _ => false end.

(** [base.join(p)] *)
Definition join (base p : path) : path :=
  if is_absolute p then p
  else match base with
       | [] => p
       | _ => base ++ match p with CurDir :: p' => p' | _ => p end
       end.

(** [p.parent()] *)
Definition parent (p : path) : option path :=
  match last p with
  | None | Some RootDir => None
  | Some _ => Some (removelast p)
  end.

(** [PathBuf::pop] *)
Definition pop (p : path) : path := default p (parent p).

(** [p.file_name()] *)
Definition file_name (p : path) : option string :=
  match last p with Some (Normal s) => Some s | _ => None end.

(** [p.starts_with(base)] *)
Definition starts_with (p base : path) : bool := bool_decide (base `prefix_of` p).

(** [p.strip_prefix(base).ok()] *)
Definition strip_prefix (p base : path) : option path :=
  if decide (base `prefix_of` p) then Some (drop (length base) p) else None.

Definition comp_str (c : component) : string :=
  match c with RootDir => "/" | CurDir => "." | ParentDir => ".." | Normal s => s end.

(** [p.to_string_lossy()] of a path assembled from components *)
Definition to_string (p : path) : string :=
  match p with
  | RootDir :: q => "/" +:+ Str.join "/" (comp_str <$> q)
  | _ => Str.join "/" (comp_str <$> p)
  end.

(** *** Paths that [components] can produce *)
Definition wf_name (s : string) : Prop :=
  s ≠ "" ∧ s ≠ "." ∧ s ≠ ".." ∧ Str.contains_char "/" s = false.

Definition inner (c : component) : Prop :=
  match c with ParentDir => True | Normal s => wf_name s | _ => False end.

Definition wf (p : path) : Prop :=
  match p with
  | [] => True
  | c :: q => (match c with RootDir | CurDir => True | _ => inner c end) ∧ Forall inner q
  end.

Lemma Forall_inner_wf q : Forall inner q → wf q.
Proof. destruct 1 as [|[] q]; simpl; naive_solver. Qed.

Lemma wf_app p q : wf p → Forall inner q → wf (p ++ q).
Proof.
  destruct p as [|c p]; simpl; [intros _; apply Forall_inner_wf|].
  intros [? ?] ?. split; [done|]. by apply Forall_app.
Qed.

Lemma piece_inner s c :
  Str.contains_char "/" s = false → piece_component false s = Some c → inner c.
Proof.
  unfold piece_component, wf_name. intros Hs.
  repeat case_decide; intros; simplify_eq; simpl; [done|]. by split_and!.
Qed.

Lemma pieces_inner ps :
  Forall (λ p, Str.contains_char "/" p = false) ps →
  Forall inner (omap (piece_component false) ps).
Proof.
  induction 1 as [|p ps Hp _ IH]; simpl; [done|].
  destruct (piece_component false p) eqn:E; [|done].
  constructor; [by eapply piece_inner | done].
Qed.

Lemma components_wf s : wf (components s).
Proof.
  unfold components. pose proof (Str.split_no_char "/" s) as Hs.
  destruct (Str.split "/" s) as [|p ps]; [done|]. inversion Hs as [|? ? Hp Hps]; subst.
  apply wf_app; [|by apply pieces_inner].
  destruct (Str.starts_with "/" s); [by split|].
  unfold piece_component, option_list.
  repeat case_decide; simpl; try done; split_and!; try done.
Qed.

(** Text without a [..] piece *)
Lemma pieces_normal ps :
  ".." ∉ ps → Forall (λ c, ∃ s, c = Normal s) (omap (piece_component false) ps).
Proof.
  induction ps as [|p ps IH]; simpl; [done|]. intros [Hp Hps]%not_elem_of_cons.
  unfold piece_component at 1. repeat case_decide; try (by apply IH); [by subst|].
  constructor; [by eexists|by apply IH].
Qed.

Lemma components_slash s :
  components (String "/" s) = RootDir :: omap (piece_component false) (Str.split "/" s).
Proof.
  unfold components. rewrite (Str.split_cons "/" "" s eq_refl : Str.split "/" (String "/" s) = _).
  by rewrite (Str.starts_with_app "/" s : Str.starts_with "/" (String "/" s) = _).
Qed.

Lemma parent_wf p q : wf p → parent p = Some q → wf q.
Proof.
  unfold parent. intros Hp Hq.
  destruct p as [|c p _] using rev_ind; [done|].
  rewrite last_snoc in Hq. rewrite removelast_last in Hq.
  assert (q = p) as -> by (destruct c; by simplify_eq).
  destruct p; simpl in *; [done|]. destruct Hp as [? Hf].
  by apply Forall_app in Hf as [? _].
Qed.

Lemma path_starts_with_spec p base : starts_with p base = true ↔ base `prefix_of` p.
Proof. apply bool_decide_eq_true. Qed.

Lemma path_strip_prefix_spec p base q : strip_prefix p base = Some q ↔ p = base ++ q.
Proof.
  unfold strip_prefix. case_decide as H.
  - destruct H as [k ->]. rewrite drop_app_length. naive_solver.
  - split; [done|]. intros ->. exfalso. apply H. by eexists.
Qed.

(** Printing and parsing again. *)
Lemma split_join_inner l :
  l ≠ [] → Forall (λ s, Str.contains_char "/" s = false) l →
  Str.split "/" (Str.join "/" l) = l.
Proof.
  induction l as [|x l IH]; [done|]. intros _ Hf. inversion Hf as [|? ? Hx Hl]; subst.
  destruct l as [|y l].
  - simpl. by apply Str.split_no_sep.
  - change (Str.join "/" (x :: y :: l)) with (x +:+ String "/" (Str.join "/" (y :: l))).
    rewrite Str.split_cons by done. by rewrite IH.
Qed.

Lemma inner_str c : inner c →
  Str.contains_char "/" (comp_str c) = false ∧ piece_component false (comp_str c) = Some c.
Proof.
  destruct c; simpl; try done. intros (?&?&?&?). split; [done|].
  unfold piece_component. by rewrite !decide_False.
Qed.

Lemma inner_strs q : Forall inner q →
  Forall (λ s, Str.contains_char "/" s = false) (comp_str <$> q) ∧
  omap (piece_component false) (comp_str <$> q) = q.
Proof.
  induction 1 as [|c q Hc _ [IH1 IH2]]; [done|].
  apply inner_str in Hc as [H1 H2]. split; [by constructor|]. simpl. rewrite H2. by f_equal.
Qed.

Lemma wf_name_no_slash s : wf_name s → Str.starts_with "/" s = false.
Proof.
  intros (Hs&_&_&Hc). destruct s as [|a s]; [done|]. simpl in *.
  apply orb_false_iff in Hc as [Ha _]. apply bool_decide_eq_false in Ha.
  unfold Str.starts_with. simpl. by destruct (ascii_dec "/" a); subst.
Qed.

(** [Path::new(p.to_string_lossy()).components()] gives [p] back. *)
Lemma components_to_string p : wf p → components (to_string p) = p.
Proof.
  destruct p as [|c q]; [done|]. intros [Hc Hq].
  destruct (inner_strs q Hq) as [Hns Hom].
  destruct (decide (c = RootDir)) as [->|Hr].
  - change (to_string (RootDir :: q)) with ("" +:+ String "/" (Str.join "/" (comp_str <$> q))).
    unfold components. rewrite Str.split_cons by done. destruct q as [|d q]; [done|].
    rewrite split_join_inner; [|done|done]. rewrite Hom.
    change ("" +:+ String "/" ?s) with ("/" +:+ s). by rewrite Str.starts_with_app.
  - assert (Hto : to_string (c :: q) = Str.join "/" (comp_str <$> c :: q)) by by destruct c.
    rewrite Hto. unfold components.
    assert (Str.contains_char "/" (comp_str c) = false
            ∧ option_list (piece_component true (comp_str c)) = [c]
            ∧ Str.starts_with "/" (Str.join "/" (comp_str <$> c :: q)) = false) as (H1&H2&H3).
    { destruct c as [| | |s]; try done.
      - split_and!; try done. by destruct q.
      - split_and!; try done. by destruct q.
      - destruct Hc as (Hs1&Hs2&Hs3&Hs4). split_and!; [done| |].
        + unfold piece_component. simpl. by rewrite !decide_False.
        + pose proof (wf_name_no_slash s ltac:(done)) as Hsl.
          apply not_true_iff_false in Hsl.
          apply not_true_iff_false. contradict Hsl. apply Str.starts_with_spec in Hsl as [t Ht].
          apply Str.starts_with_spec. destruct s as [|a s]; [done|].
          exists s. by destruct q; simplify_eq/=. }
    rewrite split_join_inner; [|done|by constructor].
    rewrite H3. cbn [fmap list_fmap]. rewrite H2. cbn [app]. by f_equal.
Qed.

End Path.

(** ** Ordered iteration of [BTreeMap<String, V>] and [BTreeSet<String>] *)
Module BTree.

Definition key_le {V} (x y : string * V) : Prop := String.le x.1 y.1.

#[export] Instance key_le_dec {V} : RelDecision (@key_le V).
Proof. intros x y. unfold key_le. apply _. Defined.
#[export] Instance key_le_total {V} : Total (@key_le V).
Proof. intros x y. unfold key_le. apply (total String.le). Qed.
#[export] Instance key_le_trans {V} : Transitive (@key_le V).
Proof. intros x y z. unfold key_le. apply transitivity. Qed.

(** [m.iter()] *)
Definition to_list {V} (m : gmap string V) : list (string * V) :=
  merge_sort key_le (map_to_list m).
(** [m.keys()], [m.into_values()] *)
Definition keys {V} (m : gmap string V) : list string := (to_list m).*1.
Definition values {V} (m : gmap string V) : list V := (to_list m).*2.
(** [s.iter()] of a [BTreeSet] *)
Definition set_to_list (s : gset string) : list string := merge_sort String.le (elements s).

Section lemmas.
Context {V : Type}.
Implicit Types (m : gmap string V) (s : gset string).

Lemma to_list_perm m : to_list m ≡ₚ map_to_list m.
Proof. apply merge_sort_Permutation. Qed.

Lemma elem_of_to_list m k v : (k, v) ∈ to_list m ↔ m !! k = Some v.
Proof. rewrite to_list_perm. apply elem_of_map_to_list. Qed.

Lemma elem_of_keys m k : k ∈ keys m ↔ is_Some (m !! k).
Proof.
  unfold keys. rewrite list_elem_of_fmap. split.
  - intros [[k' v] [-> H]]. apply elem_of_to_list in H. by exists v.
  - intros [v Hv]. exists (k, v). split; [done|]. by apply elem_of_to_list.
Qed.

Lemma elem_of_values m v : v ∈ values m ↔ ∃ k, m !! k = Some v.
Proof.
  unfold values. rewrite list_elem_of_fmap. split.
  - intros [[k' v'] [-> H]]. apply elem_of_to_list in H. by exists k'.
  - intros [k Hk]. exists (k, v). split; [done|]. by apply elem_of_to_list.
Qed.

Lemma NoDup_keys m : NoDup (keys m).
Proof. unfold keys. rewrite to_list_perm. apply NoDup_fst_map_to_list. Qed.

Lemma keys_sorted m : StronglySorted String.le (keys m).
Proof.
  unfold keys. apply (StronglySorted_fmap fst (@key_le V) String.le); [done|].
  apply StronglySorted_merge_sort; apply _.
Qed.

Lemma elem_of_set_to_list s x : x ∈ set_to_list s ↔ x ∈ s.
Proof. unfold set_to_list. rewrite merge_sort_Permutation. apply elem_of_elements. Qed.

Lemma NoDup_set_to_list s : NoDup (set_to_list s).
Proof. unfold set_to_list. rewrite merge_sort_Permutation. apply NoDup_elements. Qed.

Lemma length_set_to_list s : length (set_to_list s) = size s.
Proof. unfold set_to_list. by rewrite merge_sort_Permutation. Qed.
End lemmas.

End BTree.
