(* ===== verification/FileSys.v ===== *)
(** * The filesystem, as [std::fs] presents it

    A tree of files, symbolic links and directories, with path resolution through links,
    and the calls of [std::fs] the activation code makes.  The state keeps the trees the
    disk has gone through, one for each system call that changes it, so that what a crash
    leaves behind can be stated. *)

From S2P Require Import Prelude RustStd.

Open Scope Z_scope.

Inductive node : Type :=
  | File (contents : string) (mode : Z)
  | Link (target : string)
  | Dir (mode : Z).

#[export] Instance node_eq_dec : EqDecision node.
Proof. solve_decision. Defined.

(** The keys are absolute paths of normal components; the root is always there. *)
Abbreviation tree := (gmap path node).

Inductive io_error : Type :=
  | NotFound
  | AlreadyExists
  | NotADirectory
  | IsADirectory
  | DirectoryNotEmpty
  | TooManyLinks
  | NameTooLong
  | InvalidInput
  | OtherError (what : string).

#[export] Instance io_error_eq_dec : EqDecision io_error.
Proof. solve_decision. Defined.

Inductive fsop : Type :=
  | OpMkdir | OpUnlink | OpRename | OpSymlink | OpChmod | OpReadDir | OpStat | OpRead | OpWrite.

(** Limits of the system, and how it may refuse a call: an error for a call on a path; for
    a write, what it leaves; for [remove_dir_all], the nodes it does not reach. *)
Class FsLimits : Type := {
  link_max : nat;
  path_max : Z;
  fs_cwd : path;
  default_file_mode : Z;
  default_dir_mode : Z;
  fs_fault : fsop → path → option io_error;
  write_leaves : path → option string;
  rmtree_fault : path → option (path → bool);
}.

(** The tree now, and the trees before it, the newest first *)
Record fsys : Type := mkFsys { fs_tree : tree; fs_past : list tree }.

Definition F (A : Type) : Type := SR fsys io_error A.
#[export] Instance F_ret : MRet F := SR_ret fsys io_error.
#[export] Instance F_bind : MBind F := SR_bind fsys io_error.

Section FileSys.
Context `{FL : FsLimits}.

Definition node_at (t : tree) (p : path) : option node :=
  if decide (p = [RootDir]) then Some (Dir default_dir_mode) else t !! p.

(** ** Resolution

    [cur] is the part already resolved, [todo] the components still to walk; a link is
    replaced by its target, [fuel] times at most ([ELOOP]).  The last component need not
    exist. *)
Fixpoint walk (fuel : nat) (t : tree) (follow : bool) : path → path → result io_error path :=
  fix go (cur todo : path) {struct todo} : result io_error path :=
    match todo with
    | [] => Ok cur
    | RootDir :: rest => go [RootDir] rest
    | CurDir :: rest => go cur rest
    | ParentDir :: rest => go (Path.pop cur) rest
    | Normal n :: rest =>
        let p := cur ++ [Normal n] in
        match t !! p with
        | Some (Dir _) => go p rest
        | Some (Link target) =>
            if bool_decide (rest = []) && negb follow then Ok p
            else match fuel with
                 | O => Err TooManyLinks
                 | S fuel' => walk fuel' t follow cur (Path.components target ++ rest)
                 end
        | Some (File _ _) => if decide (rest = []) then Ok p else Err NotADirectory
        | None => if decide (rest = []) then Ok p else Err NotFound
        end
    end.

Definition resolve (t : tree) (follow : bool) (p : path) : result io_error path :=
  if decide (path_max < Z.of_nat (String.length (Path.to_string p))) then Err NameTooLong
  else walk link_max t follow fs_cwd p.

(** ** Reading *)
Definition stat_with (follow : bool) (t : tree) (p : path) : result io_error (path * node) :=
  match fs_fault OpStat p with
  | Some e => Err e
  | None => q ← resolve t follow p; n ← ok_or NotFound (node_at t q); Ok (q, n)
  end.

(** [fs::metadata], [fs::symlink_metadata] *)
Definition metadata (t : tree) (p : path) : result io_error node := snd <$> stat_with true t p.
Definition symlink_metadata (t : tree) (p : path) : result io_error node := snd <$> stat_with false t p.

Definition path_exists (t : tree) (p : path) : bool := is_ok (metadata t p).
Definition is_dir (t : tree) (p : path) : bool :=
  match metadata t p with Ok (Dir _) => true | _ => false end.
Definition is_symlink (t : tree) (p : path) : bool :=
  match symlink_metadata t p with Ok (Link _) => true | _ => false end.

Definition is_file_node (n : node) : bool := match n with File _ _ => true | _ => false end.

(** [fs::read_link]; the target is a [PathBuf], compared by components *)
Definition read_link (t : tree) (p : path) : result io_error string :=
  match symlink_metadata t p with
  | Ok (Link target) => Ok target
  | Ok _ => Err InvalidInput
  | Err e => Err e
  end.

Definition child_name (dir p : path) : option string :=
  match Path.strip_prefix p dir with Some [Normal n] => Some n | _ => None end.

(** The entries of a directory with their own types, links not followed.  The order of
    [read_dir] is unspecified; the model lists them by name. *)
Definition children (t : tree) (dir : path) : list (string * node) :=
  BTree.to_list (list_to_map (omap (λ e, n ← child_name dir e.1; Some (n, e.2)) (map_to_list t)) : gmap string node).

Definition read_dir (t : tree) (p : path) : result io_error (list (string * node)) :=
  match fs_fault OpReadDir p with
  | Some e => Err e
  | None =>
      q ← resolve t true p;
      match node_at t q with
      | Some (Dir _) => Ok (children t q)
      | Some _ => Err NotADirectory
      | None => Err NotFound
      end
  end.

(** [File::open] and reading to the end *)
Definition read_file (t : tree) (p : path) : result io_error string :=
  match fs_fault OpRead p with
  | Some e => Err e
  | None =>
      q ← resolve t true p;
      match node_at t q with
      | Some (File contents _) => Ok contents
      | Some _ => Err IsADirectory
      | None => Err NotFound
      end
  end.

(** ** Changing *)
Definition get_tree : F tree := λ s, (Ok (fs_tree s), s).
Definition put_tree (t : tree) : F unit := λ s, (Ok tt, mkFsys t (fs_tree s :: fs_past s)).
Definition fail {A} (e : io_error) : F A := λ s, (Err e, s).
Definition lift {A} (r : result io_error A) : F A := λ s, (r, s).

Definition check_fault (op : fsop) (p : path) : F unit :=
  match fs_fault op p with Some e => fail e | None => mret tt end.

Definition mkdir (p : path) : F unit :=
  check_fault OpMkdir p ;;
  t ← get_tree;
  q ← lift (resolve t false p);
  match node_at t q with
  | Some _ => fail AlreadyExists
  | None => put_tree (<[q := Dir default_dir_mode]> t)
  end.

Definition catch {A} (m : F A) (h : io_error → F A) : F A := λ s,
  match m s with
  | (Ok a, s') => (Ok a, s')
  | (Err e, s') => h e s'
  end.

(** The [Result] of a call, for a [match] *)
Definition attempt {A} (m : F A) : F (result io_error A) := λ s, let '(r, s') := m s in (Ok r, s').

(** [let _ = m] *)
Definition ignore (m : F unit) : F unit := catch m (λ _, mret tt).

Definition mkdir_or_dir (p : path) (e : io_error) : F unit :=
  t ← get_tree; if is_dir t p then mret tt else fail e.

(** [fs::create_dir_all]: the recursion goes to the parent, [n] is the length of the path *)
Fixpoint create_dir_all_loop (n : nat) (p : path) : F unit :=
  if decide (p = []) then mret tt
  else catch (mkdir p) (λ e,
    if decide (e = NotFound) then
      match n, Path.parent p with
      | S n', Some q => create_dir_all_loop n' q ;; catch (mkdir p) (mkdir_or_dir p)
      | _, _ => fail (OtherError "failed to create whole tree")
      end
    else mkdir_or_dir p e).

Definition create_dir_all (p : path) : F unit := create_dir_all_loop (length p) p.

(** [fs::remove_file] *)
Definition remove_file (p : path) : F unit :=
  check_fault OpUnlink p ;;
  t ← get_tree;
  q ← lift (resolve t false p);
  match node_at t q with
  | None => fail NotFound
  | Some (Dir _) => fail IsADirectory
  | Some _ => put_tree (base.delete q t)
  end.

Definition below (q : path) (e : path * node) : Prop := q `prefix_of` e.1.
#[export] Instance below_dec q e : Decision (below q e).
Proof. unfold below. apply _. Defined.

(** [fs::remove_dir_all]; on a link it removes the link *)
Definition remove_dir_all (p : path) : F unit :=
  check_fault OpUnlink p ;;
  t ← get_tree;
  q ← lift (resolve t false p);
  match node_at t q with
  | None => fail NotFound
  | Some (Link _) => put_tree (base.delete q t)
  | Some (File _ _) => fail NotADirectory
  | Some (Dir _) =>
      match rmtree_fault q with
      | None => put_tree (filter (λ e, ¬ below q e) t)
      | Some keep =>
          put_tree (filter (λ e, ¬ below q e ∨ e.1 = q ∨ keep e.1 = true) t) ;;
          fail (OtherError "remove_dir_all")
      end
  end.

(** The subtree at [a] moved to [b] *)
Definition move_entry (a b : path) (e : path * node) : option (path * node) :=
  r ← Path.strip_prefix e.1 a; Some (b ++ r, e.2).

Definition without (q : path) (t : tree) : tree := filter (λ e, ¬ below q e) t.

Definition move_tree (a b : path) (t : tree) : tree :=
  (list_to_map (omap (move_entry a b) (map_to_list t)) : tree) ∪ without b (without a t).

Definition dir_empty (t : tree) (q : path) : bool := bool_decide (children t q = []).

(** [rename(2)] *)
Definition rename (a b : path) : F unit :=
  check_fault OpRename a ;;
  t ← get_tree;
  qa ← lift (resolve t false a);
  qb ← lift (resolve t false b);
  match node_at t qa with
  | None => fail NotFound
  | Some na =>
      if decide (qa = qb) then mret tt
      else if decide (qa `prefix_of` qb) then fail InvalidInput
      else match na, node_at t qb with
           | Dir _, Some (Dir _) =>
               if dir_empty t qb then put_tree (move_tree qa qb t) else fail DirectoryNotEmpty
           | Dir _, Some _ => fail NotADirectory
           | _, Some (Dir _) => fail IsADirectory
           | _, _ => put_tree (move_tree qa qb t)
           end
  end.

(** [std::os::unix::fs::symlink(target, p)] *)
Definition symlink (target : string) (p : path) : F unit :=
  check_fault OpSymlink p ;;
  t ← get_tree;
  q ← lift (resolve t false p);
  match node_at t q with
  | Some _ => fail AlreadyExists
  | None => put_tree (<[q := Link target]> t)
  end.

(** [fs::write]: the file is created or truncated, then written; a write that fails leaves
    a part of the text *)
Definition write_file (p : path) (contents : string) : F unit :=
  check_fault OpWrite p ;;
  t ← get_tree;
  q ← lift (resolve t true p);
  match node_at t q with
  | Some (Dir _) => fail IsADirectory
  | n =>
      let mode := match n with Some (File _ m) => m | _ => default_file_mode end in
      put_tree (<[q := File "" mode]> t) ;;
      match write_leaves q with
      | Some part => put_tree (<[q := File part mode]> t) ;; fail (OtherError "write")
      | None => put_tree (<[q := File contents mode]> t)
      end
  end.

(** [fs::set_permissions] *)
Definition set_permissions (p : path) (mode : Z) : F unit :=
  check_fault OpChmod p ;;
  t ← get_tree;
  q ← lift (resolve t true p);
  match node_at t q with
  | None => fail NotFound
  | Some (File contents _) => put_tree (<[q := File contents mode]> t)
  | Some (Dir _) => put_tree (if decide (q = [RootDir]) then t else <[q := Dir mode]> t)
  | Some (Link _) => fail TooManyLinks
  end.

(** [fs::copy]: the contents, then the permissions of the source *)
Definition copy (src dst : path) : F unit :=
  t ← get_tree;
  contents ← lift (read_file t src);
  n ← lift (metadata t src);
  write_file dst contents ;;
  match n with
  | File _ mode => set_permissions dst mode
  | _ => fail InvalidInput
  end.

End FileSys.
