(* ===== verification/FileSysFacts.v ===== *)
(** * Reasoning about the filesystem

    What the calls of [FileSys] do at paths whose directories are not links, and a triple
    that bounds every tree a computation goes through. *)

From S2P Require Import Prelude RustStd FileSys.

Open Scope Z_scope.

Section facts.
Context `{FL : FsLimits}.

(** ** Paths that resolve to themselves *)
Definition abs_path (p : path) : Prop := ∃ ns, p = RootDir :: (Normal <$> ns).

(** Absolute, with no link among the directories above it *)
Definition plain (t : tree) (p : path) : Prop :=
  abs_path p ∧ ∀ q, q `prefix_of` p → q ≠ p → (1 < length q)%nat → ∀ target, t !! q ≠ Some (Link target).

Definition not_link (t : tree) (p : path) : Prop := ∀ target, t !! p ≠ Some (Link target).

Lemma walk_normal fuel t follow cur n rest :
  walk fuel t follow cur (Normal n :: rest) =
    let p := cur ++ [Normal n] in
    match t !! p with
    | Some (Dir _) => walk fuel t follow p rest
    | Some (Link target) =>
        if bool_decide (rest = []) && negb follow then Ok p
        else match fuel with
             | O => Err TooManyLinks
             | S fuel' => walk fuel' t follow cur (Path.components target ++ rest)
             end
    | Some (File _ _) => if decide (rest = []) then Ok p else Err NotADirectory
    | None => if decide (rest = []) then Ok p else Err NotFound
    end.
Proof. by destruct fuel. Qed.

Lemma walk_root fuel t follow cur rest :
  walk fuel t follow cur (RootDir :: rest) = walk fuel t follow [RootDir] rest.
Proof. by destruct fuel. Qed.

Lemma walk_nil fuel t follow cur : walk fuel t follow cur [] = Ok cur.
Proof. by destruct fuel. Qed.

Lemma walk_plain fuel t follow ns cur :
  (∀ q, q `prefix_of` cur ++ (Normal <$> ns) → q ≠ cur ++ (Normal <$> ns) →
     (length cur < length q)%nat → not_link t q) →
  (follow = true → not_link t (cur ++ (Normal <$> ns))) →
  walk fuel t follow cur (Normal <$> ns) = Ok (cur ++ (Normal <$> ns))
  ∨ ∃ e, walk fuel t follow cur (Normal <$> ns) = Err e.
Proof.
  revert cur. induction ns as [|n ns IH]; intros cur Hq Hf; simpl fmap in *.
  - rewrite walk_nil, app_nil_r. by left.
  - rewrite walk_normal. cbv zeta.
    assert (E' : cur ++ Normal n :: (Normal <$> ns) = (cur ++ [Normal n]) ++ (Normal <$> ns))
      by by rewrite <- app_assoc.
    change (list_fmap _ _ Normal ns) with (Normal <$> ns) in *. rewrite E' in Hq, Hf |- *.
    destruct (t !! (cur ++ [Normal n])) as [[c m|target|m]|] eqn:E.
    + destruct ns; [left; by rewrite app_nil_r|right; by eexists].
    + destruct ns as [|n' ns].
      * change (Normal <$> []) with (@nil component) in *. rewrite app_nil_r in *.
        destruct follow; [by destruct (Hf eq_refl target)|left; by rewrite app_nil_r].
      * exfalso. apply (Hq (cur ++ [Normal n])) with target; [by apply prefix_app_r|..|done].
        -- intros Heq. apply (f_equal length) in Heq. rewrite !length_app in Heq. simpl in Heq. lia.
        -- rewrite length_app. simpl. lia.
    + apply IH; [|done]. intros q H1 H2 H3. apply Hq; [done|done|]. rewrite length_app in H3. simpl in H3. lia.
    + destruct ns; [left; by rewrite app_nil_r|right; by eexists].
Qed.

(** When the ancestors are directories the walk succeeds. *)
Definition dir_at (t : tree) (p : path) : Prop := ∃ m, t !! p = Some (Dir m).

Lemma walk_dirs fuel t ns cur :
  (∀ q, q `prefix_of` cur ++ (Normal <$> ns) → q ≠ cur ++ (Normal <$> ns) →
     (length cur < length q)%nat → dir_at t q) →
  walk fuel t false cur (Normal <$> ns) = Ok (cur ++ (Normal <$> ns)).
Proof.
  revert cur. induction ns as [|n ns IH]; intros cur Hq; simpl fmap in *.
  - by rewrite walk_nil, app_nil_r.
  - rewrite walk_normal. cbv zeta.
    assert (E' : cur ++ Normal n :: (Normal <$> ns) = (cur ++ [Normal n]) ++ (Normal <$> ns))
      by by rewrite <- app_assoc.
    change (list_fmap _ _ Normal ns) with (Normal <$> ns) in *. rewrite E' in Hq |- *.
    destruct ns as [|n' ns].
    + change (Normal <$> []) with (@nil component). rewrite walk_nil, app_nil_r.
      by destruct (t !! (cur ++ [Normal n])) as [[]|].
    + destruct (Hq (cur ++ [Normal n])) as [m Hm].
      * by apply prefix_app_r.
      * intros Heq. apply (f_equal length) in Heq. rewrite !length_app in Heq. simpl in Heq. lia.
      * rewrite length_app. simpl. lia.
      * rewrite Hm. apply IH. intros q H1 H2 H3. apply Hq; [done|done|].
        rewrite length_app in H3. simpl in H3. lia.
Qed.

(** A path that resolved once resolves again where its ancestors are directories. *)
Lemma resolve_again t t' follow p x :
  resolve t follow p = Ok x → abs_path p → Forall (dir_at t') ((λ i, take i p) <$> seq 2 (length p - 2)) →
  resolve t' false p = Ok p.
Proof.
  unfold resolve. case_decide; [done|]. intros _ [ns ->] Hf. rewrite walk_root.
  apply (walk_dirs _ _ ns [RootDir]). intros q [k Hk] Hne Hl. rewrite Forall_forall in Hf. apply Hf.
  change ([RootDir] ++ (Normal <$> ns)) with (RootDir :: (Normal <$> ns)) in *. rewrite Hk in *.
  apply list_elem_of_fmap. exists (length q). split; [by rewrite take_app_length|].
  apply elem_of_seq. rewrite length_app. destruct k; [by rewrite app_nil_r in Hne|simpl in *; lia].
Qed.

Lemma resolve_plain t follow p :
  plain t p → (follow = true → not_link t p) →
  resolve t follow p = Ok p ∨ ∃ e, resolve t follow p = Err e.
Proof.
  intros [[ns ->] Hq] Hf. unfold resolve. case_decide; [right; by eexists|].
  rewrite walk_root. by apply (walk_plain _ _ _ ns [RootDir]).
Qed.

Lemma plain_prefix t p q : plain t p → abs_path q → q `prefix_of` p → plain t q.
Proof.
  intros [_ Hp] Hq Hpre. split; [done|]. intros r Hr Hne Hl. apply Hp; [by etrans| |done].
  intros ->. apply Hne. destruct Hr as [k1 ->], Hpre as [k2 H2].
  rewrite <- app_assoc in H2. apply (f_equal length) in H2. rewrite !length_app in H2.
  destruct k1; [by rewrite app_nil_r|simpl in H2; lia].
Qed.

(** The directories above a path, from the second one on *)
Definition ancestors (p : path) : list path := (λ i, take i p) <$> seq 2 (length p - 2).

Lemma plain_ancestors t p : abs_path p → Forall (not_link t) (ancestors p) → plain t p.
Proof.
  intros Ha Hf. split; [done|]. intros q [k ->] Hne Hl. rewrite Forall_forall in Hf. apply (Hf q).
  unfold ancestors. apply list_elem_of_fmap. exists (length q). split; [by rewrite take_app_length|].
  apply elem_of_seq. rewrite length_app. destruct k; [by rewrite app_nil_r in Hne|simpl; lia].
Qed.

Lemma plain_agree t t' p :
  plain t p → (∀ q, q `prefix_of` p → q ≠ p → (1 < length q)%nat → not_link t q → not_link t' q) →
  plain t' p.
Proof.
  intros [Ha Hp] H. split; [done|]. intros q Hq Hne Hl. apply H; [done..|].
  intros target. by apply Hp.
Qed.

(** ** What a call may do *)
Definition push (t : tree) (s : fsys) : fsys := mkFsys t (fs_tree s :: fs_past s).

Lemma check_fault_inv op p s r s' : check_fault op p s = (r, s') → s' = s ∧ (r = Ok tt ∨ ∃ e, r = Err e).
Proof.
  unfold check_fault. destruct (fs_fault op p); intros [= <- <-]; eauto.
Qed.

(** A call that fails leaves the tree; one that returns pushed the tree [t'] *)
Definition changes_to (s : fsys) {A} (r : result io_error A) (s' : fsys) (R : tree → Prop) : Prop :=
  (s' = s ∧ ∃ e, r = Err e) ∨ ∃ t', R t' ∧ s' = push t' s.

Lemma node_at_plain t p n : node_at t p = Some n → p ≠ [RootDir] → t !! p = Some n.
Proof. unfold node_at. by case_decide. Qed.

Lemma node_at_None t p : node_at t p = None → t !! p = None ∧ p ≠ [RootDir].
Proof. unfold node_at. by case_decide. Qed.

End facts.

(** The checks every call starts with: the fault oracle, then the resolution of its path *)
Ltac fs_start H :=
  unfold mbind, F_bind, SR_bind, check_fault, get_tree, lift in H;
  try (destruct (fs_fault _ _); [injection H as <- <-; by left; eauto|]);
  unfold mret, F_ret, SR_ret in H; simpl in H.

Section calls.
Context `{FL : FsLimits}.

Lemma mkdir_inv p s r s' :
  plain (fs_tree s) p → mkdir p s = (r, s') →
  (s' = s ∧ ∃ e, r = Err e)
  ∨ (r = Ok tt ∧ fs_tree s !! p = None ∧ p ≠ [RootDir]
     ∧ s' = push (<[p := Dir default_dir_mode]> (fs_tree s)) s).
Proof.
  intros Hp H. unfold mkdir in H. fs_start H.
  destruct (resolve_plain _ false _ Hp ltac:(done)) as [Hr|[e Hr]]; rewrite Hr in H;
    [|injection H as <- <-; left; eauto].
  destruct (node_at (fs_tree s) p) eqn:En; [injection H as <- <-; left; eauto|].
  injection H as <- <-. right. apply node_at_None in En as [En Hroot]. done.
Qed.

Lemma remove_file_inv p s r s' :
  plain (fs_tree s) p → remove_file p s = (r, s') →
  (s' = s ∧ ∃ e, r = Err e)
  ∨ (r = Ok tt ∧ (∃ n, fs_tree s !! p = Some n) ∧ s' = push (base.delete p (fs_tree s)) s).
Proof.
  intros Hp H. unfold remove_file in H. fs_start H.
  destruct (resolve_plain _ false _ Hp ltac:(done)) as [Hr|[e Hr]]; rewrite Hr in H;
    [|injection H as <- <-; left; eauto].
  destruct (node_at (fs_tree s) p) as [[c m|l|m]|] eqn:En; try (injection H as <- <-; left; by eauto).
  - right. injection H as <- <-. unfold node_at in En. case_decide; [done|]. eauto.
  - right. injection H as <- <-. unfold node_at in En. case_decide; [done|]. eauto.
Qed.

Lemma symlink_inv target p s r s' :
  plain (fs_tree s) p → symlink target p s = (r, s') →
  (s' = s ∧ ∃ e, r = Err e)
  ∨ (r = Ok tt ∧ fs_tree s !! p = None ∧ s' = push (<[p := Link target]> (fs_tree s)) s).
Proof.
  intros Hp H. unfold symlink in H. fs_start H.
  destruct (resolve_plain _ false _ Hp ltac:(done)) as [Hr|[e Hr]]; rewrite Hr in H;
    [|injection H as <- <-; left; eauto].
  destruct (node_at (fs_tree s) p) eqn:En; [injection H as <- <-; left; eauto|].
  injection H as <- <-. right. apply node_at_None in En as [En _]. done.
Qed.

(** Nothing outside [p] changes; on success nothing is left below it. *)
Lemma remove_dir_all_inv p s r s' :
  plain (fs_tree s) p → remove_dir_all p s = (r, s') →
  (s' = s ∧ ∃ e, r = Err e)
  ∨ ∃ t', s' = push t' s ∧ (∀ k, ¬ p `prefix_of` k → t' !! k = fs_tree s !! k)
      ∧ (∀ k, t' !! k = fs_tree s !! k ∨ t' !! k = None)
      ∧ (r = Ok tt → t' !! p = None).
Proof.
  intros Hp H. unfold remove_dir_all in H. fs_start H.
  destruct (resolve_plain _ false _ Hp ltac:(done)) as [Hr|[e Hr]]; rewrite Hr in H;
    [|injection H as <- <-; left; eauto].
  assert (Hfilter : ∀ (P : path * node → Prop) `{!∀ x, Decision (P x)} k,
    (filter P (fs_tree s) : tree) !! k = fs_tree s !! k ∨ (filter P (fs_tree s) : tree) !! k = None).
  { intros P ? k. rewrite map_lookup_filter. destruct (fs_tree s !! k) as [n|]; [|by left].
    simpl. case_guard; eauto. }
  assert (Hkeep : ∀ (P : path * node → Prop) `{!∀ x, Decision (P x)} k,
    (∀ n, P (k, n)) → (filter P (fs_tree s) : tree) !! k = fs_tree s !! k).
  { intros P ? k Hk. rewrite map_lookup_filter. destruct (fs_tree s !! k) as [n|]; [|done].
    simpl. case_guard as Hg; [done|]. exfalso. apply Hg, Hk. }
  destruct (node_at (fs_tree s) p) as [[c m|l|m]|] eqn:En; try (injection H as <- <-; left; by eauto).
  - injection H as <- <-. right. eexists; split_and!; [done| | |].
    + intros k Hk. rewrite lookup_delete_ne; [done|]. by intros ->.
    + intros k. destruct (decide (p = k)) as [->|]; [rewrite lookup_delete_eq; by right|].
      rewrite lookup_delete_ne by done. by left.
    + intros _. apply lookup_delete_eq.
  - destruct (rmtree_fault p) as [keep|] eqn:Ek.
    + injection H as <- <-. right. eexists; split_and!; [done| | |done].
      * intros k Hk. apply Hkeep. intros n. left. exact Hk.
      * apply Hfilter.
    + injection H as <- <-. right. eexists; split_and!; [done| | |].
      * intros k Hk. apply Hkeep. intros n. exact Hk.
      * apply Hfilter.
      * intros _. rewrite map_lookup_filter. destruct (fs_tree s !! p) as [n|]; [|done].
        simpl. case_guard as Hg; [|done]. exfalso. apply Hg. unfold below. done.
Qed.

Lemma set_permissions_inv p mode s r s' :
  plain (fs_tree s) p → not_link (fs_tree s) p → set_permissions p mode s = (r, s') →
  (s' = s ∧ ∃ e, r = Err e)
  ∨ (r = Ok tt ∧ ∃ t', s' = push t' s ∧ (∀ k, k ≠ p → t' !! k = fs_tree s !! k)
      ∧ ((∃ c m, fs_tree s !! p = Some (File c m) ∧ t' !! p = Some (File c mode))
         ∨ (∃ m, node_at (fs_tree s) p = Some (Dir m) ∧ (t' !! p = fs_tree s !! p ∨ t' !! p = Some (Dir mode))))).
Proof.
  intros Hp Hl H. unfold set_permissions in H. fs_start H.
  destruct (resolve_plain _ true _ Hp ltac:(done)) as [Hr|[e Hr]]; rewrite Hr in H;
    [|injection H as <- <-; left; eauto].
  destruct (node_at (fs_tree s) p) as [[c m|l|m]|] eqn:En; try (injection H as <- <-; left; by eauto);
    injection H as <- <-; right; (split; [done|]); eexists; (split; [done|]).
  - split; [intros k Hk; by rewrite lookup_insert_ne|]. left. exists c, m.
    rewrite lookup_insert_eq. split; [|done]. unfold node_at in En. by case_decide.
  - split; [intros k Hk; case_decide; [done|]; by rewrite lookup_insert_ne|]. right. exists m. split; [done|].
    case_decide; [by left|right]. apply lookup_insert_eq.
Qed.

(** The file is cut to nothing first, then gets its text or, on a failure, a part of it. *)
Lemma write_file_inv p contents s r s' :
  plain (fs_tree s) p → not_link (fs_tree s) p → write_file p contents s = (r, s') →
  (s' = s ∧ ∃ e, r = Err e)
  ∨ ∃ mode text,
      s' = push (<[p := File text mode]> (fs_tree s)) (push (<[p := File "" mode]> (fs_tree s)) s)
      ∧ (r = Ok tt → text = contents).
Proof.
  intros Hp Hl H. unfold write_file in H. fs_start H.
  destruct (resolve_plain _ true _ Hp ltac:(done)) as [Hr|[e Hr]]; rewrite Hr in H;
    [|injection H as <- <-; left; eauto].
  destruct (node_at (fs_tree s) p) as [[c m|l|m]|]; try (injection H as <- <-; left; by eauto);
    (destruct (write_leaves p) as [part|]; injection H as <- <-; right;
     [eexists _, part; split; [reflexivity|done]|eexists _, contents; split; [reflexivity|done]]).
Qed.

(** ** [rename] *)
Lemma NoDup_omap_inj {A B} (f : A → option B) l :
  (∀ x y z, f x = Some z → f y = Some z → x = y) → NoDup l → NoDup (omap f l).
Proof.
  intros Hf. induction 1 as [|x l Hx Hnd IH]; simpl; [constructor|].
  destruct (f x) as [z|] eqn:E; [|done]. constructor; [|done].
  intros (y & Hy & Ey)%list_elem_of_omap. by rewrite (Hf x y z E Ey) in Hx.
Qed.

Lemma elem_of_moved (a c : path) (t : tree) k n :
  (k, n) ∈ omap (move_entry a c) (map_to_list t) ↔ ∃ r, k = c ++ r ∧ t !! (a ++ r) = Some n.
Proof.
  rewrite list_elem_of_omap. unfold move_entry. split.
  - intros ([k' n'] & Hin & He). simpl in He.
    destruct (Path.strip_prefix k' a) as [r|] eqn:Er; [|done]. simpl in He. injection He as <- <-.
    apply Path.path_strip_prefix_spec in Er as ->. exists r. split; [done|]. by apply elem_of_map_to_list.
  - intros (r & -> & Ht). exists (a ++ r, n). split; [by apply elem_of_map_to_list|]. simpl.
    by rewrite (proj2 (Path.path_strip_prefix_spec _ _ _) eq_refl).
Qed.

Lemma NoDup_moved (a c : path) (t : tree) : NoDup (omap (move_entry a c) (map_to_list t)).*1.
Proof.
  replace (omap (move_entry a c) (map_to_list t)).*1
    with (omap (λ k, (c ++.) <$> Path.strip_prefix k a) (map_to_list t).*1).
  - apply NoDup_omap_inj; [|apply NoDup_fst_map_to_list].
    intros x y z Hx Hy.
    destruct (Path.strip_prefix x a) as [r|] eqn:Ex; [|done]. destruct (Path.strip_prefix y a) as [r'|] eqn:Ey; [|done].
    apply Path.path_strip_prefix_spec in Ex as ->, Ey as ->. simpl in *. simplify_eq. done.
  - induction (map_to_list t) as [|[k n] l IH]; [done|]. simpl. unfold move_entry at 1. simpl.
    destruct (Path.strip_prefix k a); simpl; [f_equal|]; exact IH.
Qed.

(** What [rename] makes of a tree *)
Lemma move_tree_lookup (a c : path) (t : tree) k :
  move_tree a c t !! k =
    if decide (c `prefix_of` k) then t !! (a ++ drop (length c) k)
    else if decide (a `prefix_of` k) then None else t !! k.
Proof.
  unfold move_tree.
  assert (Hm : ∀ r, (list_to_map (omap (move_entry a c) (map_to_list t)) : tree) !! (c ++ r) = t !! (a ++ r)).
  { intros r. apply option_eq. intros n. rewrite <- elem_of_list_to_map by apply NoDup_moved.
    rewrite elem_of_moved. split; [intros (r' & Hr%app_inv_head & Ht); by subst|eauto]. }
  destruct (decide (c `prefix_of` k)) as [[r ->]|Hc].
  - rewrite drop_app_length, lookup_union_l; [apply Hm|].
    apply map_lookup_filter_None. right. intros n _ Hb. apply Hb. by exists r.
  - rewrite lookup_union_r.
    + unfold without.
      destruct (decide (a `prefix_of` k)) as [Ha|Ha].
      * apply map_lookup_filter_None. left. apply map_lookup_filter_None. right.
        intros n _ Hb. by apply Hb.
      * apply option_eq. intros n. rewrite !map_lookup_filter_Some. unfold below. simpl. tauto.
    + apply not_elem_of_list_to_map. intros ([k' n] & -> & Hin)%list_elem_of_fmap.
      apply elem_of_moved in Hin as (r & Hr & _). simpl in *. apply Hc. subst. by exists r.
Qed.

Lemma rename_inv a c s r s' :
  plain (fs_tree s) a → plain (fs_tree s) c → a ≠ c → rename a c s = (r, s') →
  (s' = s ∧ ∃ e, r = Err e)
  ∨ (r = Ok tt ∧ is_Some (fs_tree s !! a) ∧ ¬ a `prefix_of` c ∧ s' = push (move_tree a c (fs_tree s)) s
     ∧ resolve (fs_tree s) false a = Ok a ∧ resolve (fs_tree s) false c = Ok c).
Proof.
  intros Ha Hb Hab H. unfold rename in H. fs_start H.
  destruct (resolve_plain _ false _ Ha ltac:(done)) as [Hr|[e Hr]]; rewrite Hr in H;
    [|injection H as <- <-; left; eauto].
  destruct (resolve_plain _ false _ Hb ltac:(done)) as [Hr2|[e Hr2]]; rewrite Hr2 in H;
    [|injection H as <- <-; left; eauto].
  destruct (node_at (fs_tree s) a) as [na|] eqn:Ena; [|injection H as <- <-; left; eauto].
  rewrite decide_False in H by done. case_decide as Hpre; [injection H as <- <-; left; eauto|].
  assert (Hsome : is_Some (fs_tree s !! a)).
  { unfold node_at in Ena. case_decide as Hroot; [|by eexists]. exfalso. apply Hpre.
    subst. destruct Hb as [[ns ->] _]. by exists (Normal <$> ns). }
  destruct na, (node_at (fs_tree s) c) as [[]|];
    repeat case_match; try (injection H as <- <-; left; by eauto);
    injection H as <- <-; right; split_and!; eauto.
Qed.

Lemma rename_succeeds a c s :
  fs_fault OpRename a = None → resolve (fs_tree s) false a = Ok a → resolve (fs_tree s) false c = Ok c →
  is_Some (fs_tree s !! a) → fs_tree s !! c = None → a ≠ [RootDir] → c ≠ [RootDir] →
  a ≠ c → ¬ a `prefix_of` c →
  rename a c s = (Ok tt, push (move_tree a c (fs_tree s)) s).
Proof.
  intros Hf Ha Hc [n Hn] Hnone Hra Hrc Hne Hpre. unfold rename, check_fault. rewrite Hf.
  unfold mbind, F_bind, SR_bind, get_tree, lift, mret, F_ret, SR_ret. simpl. rewrite Ha, Hc.
  unfold node_at. rewrite !decide_False by done. rewrite Hn, Hnone. rewrite !decide_False by done. by destruct n.
Qed.

End calls.

(** ** Every tree a computation goes through *)
Definition run_in (I : tree → Prop) (s s' : fsys) : Prop :=
  ∃ l, fs_tree s' :: fs_past s' = l ++ fs_tree s :: fs_past s ∧ Forall I l.

(** The computation goes through trees of [I] only, when it starts in one. *)
Definition stays {A : Type} (I : tree → Prop) (m : F A) : Prop :=
  ∀ s r s', I (fs_tree s) → m s = (r, s') → run_in I s s'.

Section stays.
Context `{FL : FsLimits}.
Implicit Types (I J : tree → Prop).

Lemma run_in_refl I s : run_in I s s.
Proof. by exists []. Qed.

Lemma run_in_push I s t : I t → run_in I s (push t s).
Proof. intros Ht. exists [t]. split; [done|by constructor]. Qed.

Lemma run_in_trans I s1 s2 s3 : run_in I s1 s2 → run_in I s2 s3 → run_in I s1 s3.
Proof.
  intros (l1 & E1 & H1) (l2 & E2 & H2). exists (l2 ++ l1). rewrite E2, E1, app_assoc.
  split; [done|]. by apply Forall_app.
Qed.

Lemma run_in_last I s s' : run_in I s s' → I (fs_tree s) → I (fs_tree s').
Proof.
  intros (l & E & Hl) Hs. destruct l as [|t l]; simpl in E; injection E as -> _; [done|].
  by inversion Hl.
Qed.

Lemma run_in_mono I J s s' : (∀ t, I t → J t) → run_in I s s' → run_in J s s'.
Proof. intros HIJ (l & E & Hl). exists l. split; [done|]. by eapply Forall_impl. Qed.

Lemma stays_ret {A : Type} I (a : A) : stays I (mret a : F A).
Proof. intros s r s' _ [= <- <-]. apply run_in_refl. Qed.

Lemma stays_fail {A : Type} I e : stays I (fail e : F A).
Proof. intros s r s' _ [= <- <-]. apply run_in_refl. Qed.

Lemma stays_lift {A : Type} I (x : result io_error A) : stays I (lift x).
Proof. intros s r s' _ [= <- <-]. apply run_in_refl. Qed.

Lemma stays_bind {A B : Type} I (m : F A) (f : A → F B) :
  stays I m → (∀ a, stays I (f a)) → stays I (m ≫= f).
Proof.
  intros Hm Hf s r s' Hs. unfold mbind, F_bind, SR_bind.
  destruct (m s) as [[a|e] s1] eqn:E.
  - intros H. pose proof (Hm _ _ _ Hs E) as H1. eapply run_in_trans; [exact H1|].
    eapply Hf; [|exact H]. by eapply run_in_last.
  - intros [= <- <-]. by eapply Hm.
Qed.

(** Reading the tree: what follows may use that it is one of [I] *)
Lemma stays_get {A : Type} I (f : tree → F A) :
  (∀ t, I t → stays I (f t)) → stays I (get_tree ≫= f).
Proof. intros Hf s r s' Hs H. by eapply (Hf (fs_tree s)). Qed.

Lemma stays_catch {A : Type} I (m : F A) (h : io_error → F A) :
  stays I m → (∀ e, stays I (h e)) → stays I (catch m h).
Proof.
  intros Hm Hh s r s' Hs. unfold catch. destruct (m s) as [[a|e] s1] eqn:E.
  - intros [= <- <-]. by eapply Hm.
  - intros H. pose proof (Hm _ _ _ Hs E) as H1. eapply run_in_trans; [exact H1|].
    eapply Hh; [|exact H]. by eapply run_in_last.
Qed.

Lemma stays_ignore I (m : F unit) : stays I m → stays I (ignore m).
Proof. intros Hm. apply stays_catch; [done|]. intros e. apply stays_ret. Qed.

Lemma stays_attempt {A : Type} I (m : F A) : stays I m → stays I (attempt m).
Proof.
  intros Hm s r s' Hs. unfold attempt. destruct (m s) as [x s1] eqn:E.
  intros [= <- <-]. by eapply Hm.
Qed.

(** ** The calls *)
Lemma stays_mkdir I p :
  (∀ t, I t → plain t p) → (∀ t m, I t → p ≠ [RootDir] → t !! p = None → I (<[p := Dir m]> t)) → stays I (mkdir p).
Proof.
  intros Hp HI s r s' Hs H. apply mkdir_inv in H as [[-> _]|(_ & Hn & Hroot & ->)]; [apply run_in_refl| |by apply Hp].
  apply run_in_push. by apply HI.
Qed.

Lemma stays_mkdir_or_dir I p e : stays I (mkdir_or_dir p e).
Proof.
  apply stays_get. intros t _. destruct (is_dir t p); [apply stays_ret|apply stays_fail].
Qed.

Lemma parent_snoc ns n :
  Path.parent (RootDir :: (Normal <$> ns ++ [n])) = Some (RootDir :: (Normal <$> ns)).
Proof.
  assert (E : RootDir :: (Normal <$> ns ++ [n]) = (RootDir :: (Normal <$> ns)) ++ [Normal n])
    by by rewrite fmap_app.
  unfold Path.parent. by rewrite E, last_snoc, removelast_last.
Qed.

Lemma stays_create_dir_all I p :
  (∀ t q, I t → q `prefix_of` p → abs_path q → plain t q) → abs_path p →
  (∀ t q m, I t → q `prefix_of` p → abs_path q → q ≠ [RootDir] → t !! q = None → I (<[q := Dir m]> t)) →
  stays I (create_dir_all p).
Proof.
  intros Hp Ha HI. unfold create_dir_all.
  assert (Hgen : ∀ n q, q `prefix_of` p → abs_path q → stays I (create_dir_all_loop n q));
    [|by apply Hgen].
  assert (Hmk : ∀ q, q `prefix_of` p → abs_path q → stays I (mkdir q)).
  { intros q Hq Hqa. apply stays_mkdir; [intros t Ht; by apply Hp|]. intros t m Ht Hr Hn. by apply HI. }
  induction n as [|n IH]; intros q Hq Hqa; cbn [create_dir_all_loop]; (case_decide; [apply stays_ret|]);
    (apply stays_catch; [by apply Hmk|]); intros e; (case_decide; [|apply stays_mkdir_or_dir]).
  - apply stays_fail.
  - destruct (Path.parent q) as [q'|] eqn:Eq; [|apply stays_fail].
    assert (Hq' : q' `prefix_of` q ∧ abs_path q').
    { destruct Hqa as [ns ->]. destruct ns as [|n' ns' _] using rev_ind; [done|].
      rewrite parent_snoc in Eq. injection Eq as <-. split; [|by exists ns'].
      exists [Normal n']. by rewrite fmap_app. }
    destruct Hq' as [Hpre Habs]. apply stays_bind.
    + apply IH; [by etrans|done].
    + intros _. apply stays_catch; [by apply Hmk|]. intros e'. apply stays_mkdir_or_dir.
Qed.

(** The tree lost nodes below [p], and nothing else *)
Definition shrinks (p : path) (t t' : tree) : Prop :=
  (∀ k, ¬ p `prefix_of` k → t' !! k = t !! k) ∧ ∀ k, t' !! k = t !! k ∨ t' !! k = None.

Lemma shrinks_delete p t : shrinks p t (base.delete p t).
Proof.
  split.
  - intros k Hk. rewrite lookup_delete_ne; [done|]. by intros ->.
  - intros k. destruct (decide (p = k)) as [->|]; [rewrite lookup_delete_eq; by right|].
    rewrite lookup_delete_ne by done. by left.
Qed.

Lemma stays_remove_file I p :
  (∀ t, I t → plain t p) → (∀ t t', I t → shrinks p t t' → I t') → stays I (remove_file p).
Proof.
  intros Hp HI s r s' Hs H. apply remove_file_inv in H as [[-> _]|(_ & _ & ->)]; [apply run_in_refl| |by apply Hp].
  apply run_in_push. eapply HI; [done|]. apply shrinks_delete.
Qed.

Lemma stays_remove_dir_all I p :
  (∀ t, I t → plain t p) → (∀ t t', I t → shrinks p t t' → I t') → stays I (remove_dir_all p).
Proof.
  intros Hp HI s r s' Hs H.
  apply remove_dir_all_inv in H as [[-> _]|(t' & -> & H1 & H2 & _)]; [apply run_in_refl| |by apply Hp].
  apply run_in_push. eapply HI; [done|]. by split.
Qed.

Lemma stays_symlink I target p :
  (∀ t, I t → plain t p) → (∀ t, I t → t !! p = None → I (<[p := Link target]> t)) →
  stays I (symlink target p).
Proof.
  intros Hp HI s r s' Hs H. apply symlink_inv in H as [[-> _]|(_ & Hn & ->)]; [apply run_in_refl| |by apply Hp].
  apply run_in_push. by apply HI.
Qed.

Lemma stays_set_permissions I p mode :
  (∀ t, I t → plain t p ∧ not_link t p) →
  (∀ t t', I t → (∀ k, k ≠ p → t' !! k = t !! k) →
     (∃ c m, t !! p = Some (File c m) ∧ t' !! p = Some (File c mode))
     ∨ (∃ m, node_at t p = Some (Dir m) ∧ (t' !! p = t !! p ∨ t' !! p = Some (Dir mode))) → I t') →
  stays I (set_permissions p mode).
Proof.
  intros Hp HI s r s' Hs H. pose proof (Hp _ Hs) as [Hp1 Hp2].
  apply set_permissions_inv in H as [[-> _]|(_ & t' & -> & Hk & Hc)]; [apply run_in_refl| |done|done].
  apply run_in_push. by eapply HI.
Qed.

Lemma stays_write_file I p contents :
  (∀ t, I t → plain t p ∧ not_link t p) →
  (∀ t text mode, I t → I (<[p := File text mode]> t)) →
  stays I (write_file p contents).
Proof.
  intros Hp HI s r s' Hs H. pose proof (Hp _ Hs) as [Hp1 Hp2].
  apply write_file_inv in H as [[-> _]|(mode & text & -> & _)]; [apply run_in_refl| |done|done].
  eapply run_in_trans; apply run_in_push; by apply HI.
Qed.

Lemma stays_rename I a c :
  (∀ t, I t → plain t a ∧ plain t c) → a ≠ c →
  (∀ t, I t → ¬ a `prefix_of` c → I (move_tree a c t)) → stays I (rename a c).
Proof.
  intros Hp Hac HI s r s' Hs H. pose proof (Hp _ Hs) as [Hp1 Hp2].
  apply rename_inv in H as [[-> _]|(_ & _ & Hpre & -> & _)]; [apply run_in_refl| |done..].
  apply run_in_push. by apply HI.
Qed.

Lemma stays_if {A : Type} I (b : bool) (m1 m2 : F A) : stays I m1 → stays I m2 → stays I (if b then m1 else m2).
Proof. by destruct b. Qed.

Lemma stays_mono {A : Type} I J (m : F A) :
  (∀ t, I t → J t) → (∀ t, J t → I t) → stays I m → stays J m.
Proof. intros HIJ HJI Hm s r s' Hs H. eapply run_in_mono; [exact HIJ|]. eapply Hm; [by apply HJI|exact H]. Qed.

End stays.

#[export] Hint Resolve stays_ret stays_fail stays_lift stays_if stays_ignore stays_mkdir_or_dir
  run_in_refl : snix.

(** ** Reading a directory that did not change *)
Section agree.
Context `{FL : FsLimits}.

Lemma walk_agree fuel t t' follow ns cur :
  (∀ q, q `prefix_of` cur ++ (Normal <$> ns) → (length cur < length q)%nat → t' !! q = t !! q) →
  (∀ q, q `prefix_of` cur ++ (Normal <$> ns) → (length cur < length q)%nat → not_link t q) →
  walk fuel t' follow cur (Normal <$> ns) = walk fuel t follow cur (Normal <$> ns).
Proof.
  revert cur. induction ns as [|n ns IH]; intros cur Ha Hl; [by rewrite !walk_nil|].
  change (Normal <$> n :: ns) with (Normal n :: (Normal <$> ns)) in *. rewrite !walk_normal. cbv zeta.
  assert (E' : cur ++ Normal n :: (Normal <$> ns) = (cur ++ [Normal n]) ++ (Normal <$> ns))
    by by rewrite <- app_assoc.
  rewrite E' in Ha, Hl.
  assert (Hlen : (length cur < length (cur ++ [Normal n]))%nat) by (rewrite length_app; simpl; lia).
  rewrite Ha by (done || by apply prefix_app_r).
  destruct (t !! (cur ++ [Normal n])) as [[c m|target|m]|] eqn:E; try done.
  - destruct (Hl (cur ++ [Normal n]) ltac:(by apply prefix_app_r) Hlen target E).
  - apply IH; intros q Hq Hlq; [apply Ha|apply Hl]; (done || lia).
Qed.

Lemma resolve_agree t t' follow p :
  abs_path p → (∀ q, q `prefix_of` p → t' !! q = t !! q) →
  (∀ q, q `prefix_of` p → (1 < length q)%nat → not_link t q) →
  resolve t' follow p = resolve t follow p.
Proof.
  intros [ns ->] Ha Hl. unfold resolve. case_decide; [done|]. rewrite !walk_root.
  apply walk_agree; intros q Hq Hlq; [by apply Ha|by apply Hl].
Qed.

Lemma child_name_Some dir k n : child_name dir k = Some n ↔ k = dir ++ [Normal n].
Proof.
  unfold child_name. split.
  - destruct (Path.strip_prefix k dir) as [[|[| | |m] [|? ?]]|] eqn:E; try done.
    intros [= ->]. by apply Path.path_strip_prefix_spec in E.
  - intros ->. by rewrite (proj2 (Path.path_strip_prefix_spec _ _ _) eq_refl).
Qed.

Definition children_map (t : tree) (dir : path) : gmap string node :=
  list_to_map (omap (λ e, n ← child_name dir e.1; Some (n, e.2)) (map_to_list t)).

Lemma elem_of_children (t : tree) dir n (x : node) :
  (n, x) ∈ omap (λ e, n ← child_name dir e.1; Some (n, e.2)) (map_to_list t)
  ↔ t !! (dir ++ [Normal n]) = Some x.
Proof.
  rewrite list_elem_of_omap. split.
  - intros ([k y] & Hin & He). simpl in He. destruct (child_name dir k) as [m|] eqn:E; [|done].
    simpl in He. injection He as -> ->. apply child_name_Some in E as ->. by apply elem_of_map_to_list.
  - intros Ht. exists (dir ++ [Normal n], x). split; [by apply elem_of_map_to_list|]. simpl.
    by rewrite (proj2 (child_name_Some _ _ _) eq_refl).
Qed.

Lemma children_map_lookup (t : tree) dir n : children_map t dir !! n = t !! (dir ++ [Normal n]).
Proof.
  apply option_eq. intros x. unfold children_map. rewrite <- elem_of_list_to_map; [apply elem_of_children|].
  replace ((omap (λ e, n ← child_name dir e.1; Some (n, e.2)) (map_to_list t)).*1)
    with (omap (child_name dir) (map_to_list t).*1).
  - apply NoDup_omap_inj; [|apply NoDup_fst_map_to_list].
    intros k1 k2 m Hx%child_name_Some Hy%child_name_Some. congruence.
  - induction (map_to_list t) as [|[k y] l IH]; [done|]. simpl.
    destruct (child_name dir k); simpl; [f_equal|]; exact IH.
Qed.

Lemma children_agree (t t' : tree) dir :
  (∀ n, t' !! (dir ++ [Normal n]) = t !! (dir ++ [Normal n])) → children t' dir = children t dir.
Proof.
  intros Ha. unfold children. fold (children_map t' dir) (children_map t dir). f_equal.
  apply map_eq. intros n. by rewrite !children_map_lookup.
Qed.

(** ** Paths below real directories resolve *)
Lemma walk_dirs_follow fuel t follow ns cur :
  (∀ q, q `prefix_of` cur ++ (Normal <$> ns) → q ≠ cur ++ (Normal <$> ns) →
     (length cur < length q)%nat → dir_at t q) →
  not_link t (cur ++ (Normal <$> ns)) →
  walk fuel t follow cur (Normal <$> ns) = Ok (cur ++ (Normal <$> ns)).
Proof.
  intros Hd Hl. destruct (walk_plain fuel t follow ns cur) as [H|[e He]]; [|done|done|].
  - intros q H1 H2 H3 target. destruct (Hd q H1 H2 H3) as [m Hm]. congruence.
  - pose proof (walk_dirs fuel t ns cur Hd) as Hf. destruct follow; [|congruence]. exfalso.
    revert cur Hd Hl He Hf. induction ns as [|n ns IH]; intros cur Hd Hl He Hf; [by rewrite walk_nil in He|].
    change (Normal <$> n :: ns) with (Normal n :: (Normal <$> ns)) in *. rewrite walk_normal in He, Hf. cbv zeta in He, Hf.
    assert (E' : cur ++ Normal n :: (Normal <$> ns) = (cur ++ [Normal n]) ++ (Normal <$> ns))
      by by rewrite <- app_assoc.
    rewrite E' in Hd, Hl, Hf. destruct (t !! (cur ++ [Normal n])) as [[c m|target|m]|] eqn:E.
    + congruence.
    + destruct ns as [|n' ns].
      * apply (Hl target). by rewrite app_nil_r.
      * destruct (Hd (cur ++ [Normal n])) as [m Hm]; [by apply prefix_app_r|..|congruence].
        -- intros Heq. apply (f_equal length) in Heq. rewrite !length_app in Heq. simpl in Heq. lia.
        -- rewrite length_app. simpl. lia.
    + apply (IH (cur ++ [Normal n])); [|done..]. intros q H1 H2 H3. apply Hd; [done|done|].
      rewrite length_app in H3. simpl in H3. lia.
    + congruence.
Qed.

(** A path the system accepts *)
Definition short (p : path) : Prop := Z.of_nat (String.length (Path.to_string p)) ≤ path_max.

Lemma resolve_dirs t follow p :
  abs_path p → Forall (dir_at t) (ancestors p) → not_link t p → short p → resolve t follow p = Ok p.
Proof.
  intros [ns ->] Hd Hl Hs. unfold resolve. rewrite decide_False by (unfold short in Hs; lia). rewrite walk_root.
  apply (walk_dirs_follow _ _ _ ns [RootDir]); [|done]. intros q [k Hk] Hne Hlen.
  change ([RootDir] ++ (Normal <$> ns)) with (RootDir :: (Normal <$> ns)) in *. rewrite Hk in *.
  rewrite Forall_forall in Hd. apply Hd. unfold ancestors. apply list_elem_of_fmap. exists (length q).
  split; [by rewrite take_app_length|]. apply elem_of_seq. rewrite length_app.
  destruct k; [by rewrite app_nil_r in Hne|simpl in *; lia].
Qed.

Lemma dir_at_not_link t p : dir_at t p → not_link t p.
Proof. intros [m Hm] target. congruence. Qed.

Lemma plain_dirs t p : abs_path p → Forall (dir_at t) (ancestors p) → plain t p.
Proof.
  intros Ha Hd. apply plain_ancestors; [done|]. eapply Forall_impl; [exact Hd|]. apply dir_at_not_link.
Qed.

(** A child of a directory *)
Lemma ancestors_snoc p n : (2 ≤ length p)%nat → ancestors (p ++ [Normal n]) = ancestors p ++ [p].
Proof.
  intros Hp. unfold ancestors. rewrite length_app. simpl.
  replace (length p + 1 - 2)%nat with (S (length p - 2)) by lia. rewrite seq_S, fmap_app. simpl. f_equal.
  - apply list_fmap_ext. intros i x Hx. apply lookup_seq in Hx as [-> Hi]. rewrite take_app_le by lia. done.
  - f_equal. rewrite take_app_le by lia. by rewrite take_ge by lia.
Qed.

(** ** Entries of a directory *)
Lemma parent_abs_snoc (dir : path) name : abs_path dir → Path.parent (dir ++ [Normal name]) = Some dir.
Proof.
  intros [ns ->].
  assert (E : (RootDir :: (Normal <$> ns)) ++ [Normal name] = RootDir :: (Normal <$> ns ++ [name]))
    by by rewrite fmap_app.
  by rewrite E, parent_snoc.
Qed.

Lemma snoc_apart (dir : path) n m : n ≠ m → ¬ (dir ++ [Normal n]) `prefix_of` (dir ++ [Normal m]).
Proof. intros Hne [k Hk]. rewrite <- app_assoc in Hk. apply app_inv_head in Hk. simpl in Hk. congruence. Qed.

Lemma snoc_not_above (dir : path) n q : q `prefix_of` dir → q ≠ dir ++ [Normal n].
Proof. intros [k ->] Hq. apply (f_equal length) in Hq. rewrite !length_app in Hq. simpl in Hq. lia. Qed.

Lemma prefix_snoc_inv (q dir : path) x : q `prefix_of` dir ++ [x] → q = dir ++ [x] ∨ q `prefix_of` dir.
Proof.
  intros [k Hk]. destruct k as [|y k _] using rev_ind; [left; by rewrite app_nil_r in Hk|right].
  rewrite app_assoc in Hk. apply app_inj_tail in Hk as [-> _]. by exists k.
Qed.

Lemma plain_snoc t (dir : path) n : plain t dir → not_link t dir → plain t (dir ++ [Normal n]).
Proof.
  intros [[ns ->] Hp] Hl. split; [exists (ns ++ [n]); by rewrite fmap_app|].
  intros q Hq Hne Hlen. apply prefix_snoc_inv in Hq as [->|Hq]; [done|].
  destruct (decide (q = RootDir :: (Normal <$> ns))) as [->|Hne']; [done|]. by apply Hp.
Qed.

Lemma tmp_not_root (dir : path) n : dir ++ [Normal n] ≠ [RootDir].
Proof. destruct dir as [|c [|]]; done. Qed.

Lemma plain_insert t p q n : plain t q → ¬ p `prefix_of` q ∨ (∀ target, n ≠ Link target) → plain (<[p := n]> t) q.
Proof.
  intros Hq Hor. eapply plain_agree; [exact Hq|]. intros x Hx _ _ Hl target.
  destruct (decide (p = x)) as [->|Hne]; [|by rewrite lookup_insert_ne].
  rewrite lookup_insert_eq. destruct Hor as [Hn|Hn]; [done|]. intros [= ->]. by apply (Hn target).
Qed.

Lemma not_link_insert t p q n : not_link t q → (∀ target, n ≠ Link target) → not_link (<[p := n]> t) q.
Proof.
  intros Hq Hn target. destruct (decide (p = q)) as [->|Hne]; [|by rewrite lookup_insert_ne].
  rewrite lookup_insert_eq. intros [= ->]. by apply (Hn target).
Qed.

(** ** Making directories *)
(** Some directories were made on the way to [dir]. *)
Definition dirs_made (dir : path) (base t : tree) : Prop :=
  ∀ k, t !! k = base !! k ∨ (base !! k = None ∧ k `prefix_of` dir ∧ dir_at t k).

Lemma dirs_made_not_link dir base t p : dirs_made dir base t → not_link base p → not_link t p.
Proof.
  intros Hd Hl target. destruct (Hd p) as [->|(_ & _ & [m ->])]; [apply Hl|done].
Qed.

Lemma dirs_made_plain dir base t p : dirs_made dir base t → plain base p → plain t p.
Proof. intros Hd Hp. eapply plain_agree; [done|]. intros q _ _ _. by eapply dirs_made_not_link. Qed.

Lemma stays_dirs_made dir base : plain base dir → stays (dirs_made dir base) (create_dir_all dir).
Proof.
  intros Hp. apply stays_create_dir_all.
  - intros t q Ht Hq Ha. eapply plain_prefix; [|done|exact Hq]. by eapply dirs_made_plain.
  - apply Hp.
  - intros t q m Ht Hq _ _ Hn k. destruct (decide (q = k)) as [->|Hne].
    + right. destruct (Ht k) as [Hk|(_ & _ & [m' Hk])]; [|congruence].
      rewrite Hn in Hk. split; [done|]. split; [done|]. exists m. apply lookup_insert_eq.
    + unfold dir_at. rewrite lookup_insert_ne by done. apply Ht.
Qed.

Lemma dirs_made_dst dir name base t :
  dirs_made dir base t → t !! (dir ++ [Normal name]) = base !! (dir ++ [Normal name]).
Proof.
  intros Ht. destruct (Ht (dir ++ [Normal name])) as [Hk|(_ & Hpre & _)]; [done|].
  by destruct (snoc_not_above dir name _ Hpre).
Qed.


Lemma dirs_made_dir_at dir base t p : dirs_made dir base t → dir_at base p → dir_at t p.
Proof. intros Hd [m Hm]. destruct (Hd p) as [E|(Hn & _)]; [exists m; congruence|congruence]. Qed.

(** Where a path with no link above it resolves, the directories above it are there. *)
Lemma walk_ok_dirs fuel t follow ns cur x :
  walk fuel t follow cur (Normal <$> ns) = Ok x →
  (∀ q, q `prefix_of` cur ++ (Normal <$> ns) → q ≠ cur ++ (Normal <$> ns) →
     (length cur < length q)%nat → not_link t q) →
  ∀ q, q `prefix_of` cur ++ (Normal <$> ns) → q ≠ cur ++ (Normal <$> ns) →
     (length cur < length q)%nat → dir_at t q.
Proof.
  revert cur. induction ns as [|n ns IH]; intros cur Hw Hl q Hq Hne Hlen.
  - exfalso. destruct Hq as [k Hk]. apply (f_equal length) in Hk. rewrite !length_app in Hk. simpl in Hk. lia.
  - change (Normal <$> n :: ns) with (Normal n :: (Normal <$> ns)) in *. rewrite walk_normal in Hw. cbv zeta in Hw.
    assert (E' : cur ++ Normal n :: (Normal <$> ns) = (cur ++ [Normal n]) ++ (Normal <$> ns))
      by by rewrite <- app_assoc.
    rewrite E' in Hl, Hq, Hne.
    assert (Hfirst : ns ≠ [] → cur ++ [Normal n] ≠ (cur ++ [Normal n]) ++ (Normal <$> ns)).
    { intros Hns Heq. apply (f_equal length) in Heq. rewrite !length_app in Heq. destruct ns; [done|]. simpl in Heq. lia. }
    assert (Hns : ns ≠ []).
    { intros ->. change (Normal <$> []) with (@nil component) in *. rewrite app_nil_r in *.
      destruct Hq as [k Hk]. apply (f_equal length) in Hk as Hlk. rewrite !length_app in Hlk. simpl in Hlk.
      destruct k as [|? k]; [|simpl in Hlk; lia]. rewrite app_nil_r in Hk. by apply Hne. }
    assert (Hcur : (length cur < length (cur ++ [Normal n]))%nat) by (rewrite length_app; simpl; lia).
    destruct (t !! (cur ++ [Normal n])) as [[c m|target|m]|] eqn:E.
    + by destruct ns.
    + exfalso. apply (Hl (cur ++ [Normal n])) with target; [by apply prefix_app_r|by apply Hfirst|done|done].
    + destruct (decide (q = cur ++ [Normal n])) as [->|Hqn]; [by exists m|].
      apply (IH _ Hw); [|done|done|].
      * intros r H1 H2 H3. apply Hl; [done|done|]. rewrite length_app in H3. simpl in H3. lia.
      * destruct Hq as [k Hk]. apply (f_equal (take (length q))) in Hk as Ht. rewrite take_app_length in Ht.
        destruct (decide (length q ≤ length cur + 1)%nat); [|rewrite length_app; simpl; lia].
        exfalso. apply Hqn. rewrite <- Ht. rewrite take_app_le by (rewrite length_app; simpl; lia).
        apply take_ge. rewrite length_app. simpl. lia.
    + by destruct ns.
Qed.

Lemma resolve_ok_dirs t follow p x : plain t p → resolve t follow p = Ok x → Forall (dir_at t) (ancestors p).
Proof.
  intros [[ns ->] Hl] Hr. unfold resolve in Hr. case_decide; [done|]. rewrite walk_root in Hr.
  apply Forall_forall. intros q Hq. unfold ancestors in Hq. apply list_elem_of_fmap in Hq as (i & -> & Hi).
  apply elem_of_seq in Hi. apply (walk_ok_dirs _ _ _ ns [RootDir] _ Hr).
  - intros r H1 H2 H3 target. by apply (Hl r).
  - change ([RootDir] ++ (Normal <$> ns)) with (RootDir :: (Normal <$> ns)). by apply prefix_take.
  - change ([RootDir] ++ (Normal <$> ns)) with (RootDir :: (Normal <$> ns)). intros Heq.
    apply (f_equal length) in Heq. rewrite length_take in Heq. simpl length in *. lia.
  - rewrite length_take. simpl length in *. lia.
Qed.

End agree.
