(* ===== verification/Nar.v ===== *)
(** * File manifests ([nar.rs])

    The entry that extraction records for each file, and that the daemons serve listings
    from; extraction itself is in [NarExtract]. *)

From S2P Require Import Prelude RustStd.

(** [ManifestEntry] *)
Record ManifestEntry : Type := mkManifestEntry {
  me_path : string;
  me_entry_type : string;
  me_size : Z;
  me_executable : bool;
}.

#[export] Instance ManifestEntry_eq_dec : EqDecision ManifestEntry.
Proof. solve_decision. Defined.
