(* ===== verification/PathInfo.v ===== *)
(** * [pathinfo.rs]: the JSON metadata database of the store

    One file [{hash}.json] per registered store path.  The directory is a finite
    map from file names to contents; a file may be unreadable, a write may fail
    before or after truncating the file. *)

From S2P Require Import Prelude RustStd Nar.

(** [PathInfo] *)
Record PathInfo : Type := mkPathInfo {
  store_path : string;
  nar_hash : string;
  nar_size : Z;
  references : list string;
  deriver : option string;
  registration_time : string;
  signatures : list string;
  files : list ManifestEntry;
}.

#[export] Instance PathInfo_eq_dec : EqDecision PathInfo.
Proof. solve_decision. Defined.

(** [PathInfoError]; the payload is the path or file named in the message *)
Inductive PathInfoError : Type :=
  | InvalidPath (s : string)
  | Io (s : string)
  | Corrupt (s : string).

#[export] Instance PathInfoError_eq_dec : EqDecision PathInfoError.
Proof. solve_decision. Defined.

(** ** Code outside the repository

    [sp_hash p] is [nixbase32::encode(StorePath::from_absolute_path(p)?.digest())] of
    nix-compat; the JSON functions are serde_json's on [PathInfo] and on manifests. *)
Class StorePathLib : Type := { sp_hash : string → option string }.

Class InfoJson : Type := {
  info_to_json : PathInfo → string;
  info_from_json : string → option PathInfo;
  info_json_roundtrip : ∀ i, info_from_json (info_to_json i) = Some i;
}.

Class ManifestJson : Type := {
  manifest_to_json : list ManifestEntry → string;
  manifest_from_json : string → option (list ManifestEntry);
  manifest_json_roundtrip : ∀ m, manifest_from_json (manifest_to_json m) = Some m;
}.

(** How the filesystem may refuse an operation on a file. *)
Inductive write_fault : Type :=
  | OpenFails
  | WritesOnly (partial : string).

Class IoFaults : Type := {
  write_faults : string → option write_fault;
  remove_fails : string → bool;
  read_dir_fails : string → bool;
}.

(** ** The directory *)
Inductive dbfile : Type :=
  | Text (s : string)
  | Unreadable.

Abbreviation directory := (gmap string dbfile).

(** [std::fs::write] into a directory *)
Definition fs_write `{IoFaults} (d : directory) (file contents : string)
    : result PathInfoError unit * directory :=
  match write_faults file with
  | None => (Ok (), <[file := Text contents]> d)
  | Some OpenFails => (Err (Io file), d)
  | Some (WritesOnly s) => (Err (Io file), <[file := Text s]> d)
  end.

Section PathInfoDb.
Context `{SPL : StorePathLib, IJ : InfoJson, MJ : ManifestJson, IOF : IoFaults}.
Implicit Types (db : directory).

(** [store_path_hash] *)
Definition store_path_hash (p : string) : result PathInfoError string :=
  ok_or (InvalidPath p) (sp_hash p).

(** [PathInfoDb::info_file] *)
Definition info_file (p : string) : result PathInfoError string :=
  hash ← store_path_hash p; Ok (hash +:+ ".json").

(** [PathInfoDb::get] *)
Definition get db (p : string) : result PathInfoError (option PathInfo) :=
  file ← info_file p;
  match db !! file with
  | None => Ok None
  | Some Unreadable => Err (Io file)
  | Some (Text content) => Some <$> ok_or (Corrupt file) (info_from_json content)
  end.

(** [PathInfoDb::register] *)
Definition register db (info : PathInfo) : result PathInfoError unit * directory :=
  match info_file (store_path info) with
  | Err e => (Err e, db)
  | Ok file => fs_write db file (info_to_json info)
  end.

(** [PathInfoDb::save_manifest] and [load_manifest], on the manifests directory *)
Definition save_manifest (dir : directory) (p : string) (m : list ManifestEntry)
    : result PathInfoError unit * directory :=
  match store_path_hash p with
  | Err e => (Err e, dir)
  | Ok hash => fs_write dir (hash +:+ ".manifest.json") (manifest_to_json m)
  end.

Definition load_manifest (dir : directory) (p : string)
    : result PathInfoError (option (list ManifestEntry)) :=
  hash ← store_path_hash p;
  let file := hash +:+ ".manifest.json" in
  match dir !! file with
  | None => Ok None
  | Some Unreadable => Err (Io file)
  | Some (Text content) => Some <$> ok_or (Corrupt file) (manifest_from_json content)
  end.

(** [PathInfoDb::is_registered] *)
Definition is_registered db (p : string) : bool :=
  match info_file p with
  | Ok file => bool_decide (is_Some (db !! file))
  | Err _ => false
  end.

(** [PathInfoDb::delete] *)
Definition delete db (p : string) : result PathInfoError unit * directory :=
  match info_file p with
  | Err e => (Err e, db)
  | Ok file =>
      match db !! file with
      | None => (Ok (), db)
      | Some _ => if remove_fails file then (Err (Io file), db)
                  else (Ok (), base.delete file db)
      end
  end.

(** [PathInfoDb::list_paths]: the loop over the directory, then the sort *)
Fixpoint scan_paths (entries : list (string * dbfile)) : result PathInfoError (list string) :=
  match entries with
  | [] => Ok []
  | (name, f) :: rest =>
      if negb (Str.ends_with ".json" name) then scan_paths rest
      else match f with
           | Unreadable => Err (Io name)
           | Text content =>
               tail ← scan_paths rest;
               Ok (match info_from_json content with
                   | Some info => store_path info :: tail
                   | None => tail
                   end)
           end
  end.

Definition list_paths db : result PathInfoError (list string) :=
  if read_dir_fails "pathinfo" then Err (Io "reading dir")
  else merge_sort String.le <$> scan_paths (BTree.to_list db).

(** [PathInfoDb::all_paths_set] *)
Definition all_paths_set db : result PathInfoError (gset string) :=
  list_to_set <$> list_paths db.

(** ** Well-formedness: every parsable [.json] file is filed under its own hash. *)
Definition db_wf db : Prop :=
  ∀ name content info,
    db !! name = Some (Text content) → Str.ends_with ".json" name = true →
    info_from_json content = Some info →
    info_file (store_path info) = Ok name.

(** *** Lemmas *)
Lemma info_file_json p file : info_file p = Ok file → Str.ends_with ".json" file = true.
Proof.
  unfold info_file. intros. inv_ok. apply Str.ends_with_app.
Qed.

Lemma get_Some db p info :
  get db p = Ok (Some info) ↔
  ∃ file content, info_file p = Ok file ∧ db !! file = Some (Text content)
                  ∧ info_from_json content = Some info.
Proof.
  unfold get. split.
  - intros Hg. inv_ok. destruct (db !! a) as [[content|]|] eqn:Hl; simplify_eq/=.
    destruct (info_from_json content) eqn:Hj; simplify_eq/=. eauto.
  - intros (file & content & -> & Hl & Hj). simpl. by rewrite Hl, Hj.
Qed.

Lemma get_registered db p info : get db p = Ok (Some info) → is_registered db p = true.
Proof.
  intros (file & content & Hf & Hl & _)%get_Some. unfold is_registered. rewrite Hf.
  apply bool_decide_eq_true_2. by rewrite Hl.
Qed.

Lemma elem_of_scan_paths entries l p :
  scan_paths entries = Ok l →
  p ∈ l ↔ ∃ name content info,
    (name, Text content) ∈ entries ∧ Str.ends_with ".json" name = true
    ∧ info_from_json content = Some info ∧ store_path info = p.
Proof.
  revert l. induction entries as [|[name f] rest IH]; intros l Hl; simpl in Hl.
  { simplify_eq. split; [by intros ?%elem_of_nil|]. by intros (?&?&?&?%elem_of_nil&_). }
  assert (Hskip : ∀ l', (scan_paths rest = Ok l') →
    (∀ content info, f = Text content → info_from_json content = Some info →
       Str.ends_with ".json" name = true → False) →
    p ∈ l' ↔ ∃ n content info, (n, Text content) ∈ (name, f) :: rest
      ∧ Str.ends_with ".json" n = true ∧ info_from_json content = Some info
      ∧ store_path info = p).
  { intros l' Hl' Hno. rewrite (IH l' Hl'). split.
    - intros (n & c & i & ? & ?). exists n, c, i. split; [by right|done].
    - intros (n & c & i & [?|?]%elem_of_cons & Hn & Hj & ?); [simplify_eq; exfalso; by eapply Hno|].
      by exists n, c, i. }
  destruct (Str.ends_with ".json" name) eqn:Hn; simpl in Hl; [|by apply Hskip].
  destruct f as [content|]; [|done]. inv_ok.
  destruct (info_from_json content) as [info|] eqn:Hj; [|apply Hskip; [done|by intros; simplify_eq]].
  rewrite elem_of_cons, (IH a E). split.
  - intros [->|(n & c & i & ? & ?)].
    + exists name, content, info. split_and!; [by left|done..].
    + exists n, c, i. split; [by right|done].
  - intros (n & c & i & [?|?]%elem_of_cons & ? & ? & ?); simplify_eq; [by left|].
    right. by exists n, c, i.
Qed.

Lemma elem_of_list_paths db l p :
  list_paths db = Ok l →
  p ∈ l ↔ ∃ name content info,
    db !! name = Some (Text content) ∧ Str.ends_with ".json" name = true
    ∧ info_from_json content = Some info ∧ store_path info = p.
Proof.
  unfold list_paths. destruct (read_dir_fails _); [done|].
  destruct (scan_paths _) as [l0|] eqn:Hs; [|done]. intros; simplify_eq/=.
  rewrite merge_sort_Permutation, (elem_of_scan_paths _ _ _ Hs).
  by setoid_rewrite BTree.elem_of_to_list.
Qed.

(** In a well-formed database the listed paths are exactly those [get] finds. *)
Lemma elem_of_list_paths_wf db l p :
  db_wf db → list_paths db = Ok l →
  p ∈ l ↔ ∃ info, get db p = Ok (Some info) ∧ store_path info = p.
Proof.
  intros Hwf Hl. rewrite (elem_of_list_paths _ _ _ Hl). split.
  - intros (name & content & info & Hd & Hn & Hj & <-). exists info. split; [|done].
    apply get_Some. exists name, content. split_and!; [by eapply Hwf|done..].
  - intros (info & (file & content & Hf & Hd & Hj)%get_Some & <-).
    exists file, content, info. split_and!; try done. by eapply info_file_json.
Qed.

Lemma register_wf db info r db' :
  register db info = (r, db') →
  (∀ file s, write_faults file = Some (WritesOnly s) → info_from_json s = None) →
  db_wf db → db_wf db'.
Proof.
  unfold register, fs_write. intros Hr Hpart Hwf.
  destruct (info_file (store_path info)) as [file|] eqn:Hf; simplify_eq; [|done].
  intros name content i Hd Hn Hj.
  destruct (write_faults file) as [[|s]|] eqn:Hw; simplify_eq; [by eapply Hwf|..].
  all: apply lookup_insert_Some in Hd as [[<- Hc]|[_ Hd]]; [|by eapply Hwf].
  all: simplify_eq.
  - by rewrite (Hpart _ _ Hw) in Hj.
  - rewrite info_json_roundtrip in Hj. by simplify_eq.
Qed.

Lemma delete_subset db p r db' : delete db p = (r, db') → db' ⊆ db.
Proof.
  unfold delete. intros. repeat case_match; simplify_eq; try done. apply delete_subseteq.
Qed.

Lemma db_wf_subset db db' : db' ⊆ db → db_wf db → db_wf db'.
Proof. intros Hs Hwf name content info Hd. eapply Hwf. by eapply lookup_weaken. Qed.

(** [db_wf] can be checked on a concrete database. *)
Definition db_wf_check db : bool :=
  forallb (λ kv, match kv.2 with
                 | Text content =>
                     negb (Str.ends_with ".json" kv.1) ||
                     match info_from_json content with
                     | Some info => bool_decide (info_file (store_path info) = Ok kv.1)
                     | None => true
                     end
                 | Unreadable => true
                 end) (map_to_list db).

Lemma db_wf_check_sound db : db_wf_check db = true → db_wf db.
Proof.
  unfold db_wf_check. rewrite forallb_forall. intros Hf name content info Hd Hn Hj.
  specialize (Hf (name, Text content)). simpl in Hf. rewrite Hn, Hj in Hf. simpl in Hf.
  eapply bool_decide_eq_true, Hf. by apply list_elem_of_In, elem_of_map_to_list.
Qed.

End PathInfoDb.
