(* ===== verification/Instances.v ===== *)
(** * Concrete instances of the external interfaces

    Small executable stand-ins for nix-compat, serde_json and the fault model, on
    which the theorems' witnesses evaluate. *)

From S2P Require Import Prelude RustStd Nar PathInfo.

(** The part of a store path between [/nix/store/] and the first dash. *)
#[export] Instance demo_store_path_lib : StorePathLib := {|
  sp_hash p := rest ← Str.strip_prefix "/nix/store/" p; fst <$> Str.split_once "-" rest;
|}.

(** Text as a string of bits of the [Countable] encoding: a bijective stand-in for JSON. *)
Fixpoint pos_bits (p : positive) : string :=
  match p with
  | xH => ""
  | xO p => String "0" (pos_bits p)
  | xI p => String "1" (pos_bits p)
  end.

Fixpoint bits_pos (s : string) : option positive :=
  match s with
  | EmptyString => Some xH
  | String a s =>
      if decide (a = "0"%char) then xO <$> bits_pos s
      else if decide (a = "1"%char) then xI <$> bits_pos s
      else None
  end.

Lemma bits_pos_bits p : bits_pos (pos_bits p) = Some p.
Proof. induction p; simpl; rewrite ?IHp; done. Qed.

Definition demo_print {A} `{Countable A} (a : A) : string := pos_bits (encode a).
Definition demo_parse {A} `{Countable A} (s : string) : option A := bits_pos s ≫= decode.

Lemma demo_parse_print {A} `{Countable A} (a : A) : demo_parse (demo_print a) = Some a.
Proof. unfold demo_parse, demo_print. rewrite bits_pos_bits. apply decode_encode. Qed.

#[export] Instance ManifestEntry_countable : Countable ManifestEntry.
Proof.
  refine (inj_countable'
    (λ e, (me_path e, me_entry_type e, me_size e, me_executable e))
    (λ '(a, b, c, d), mkManifestEntry a b c d) _). by intros [].
Defined.

#[export] Instance PathInfo_countable : Countable PathInfo.
Proof.
  refine (inj_countable'
    (λ i, (store_path i, nar_hash i, nar_size i, references i,
           (deriver i, registration_time i, signatures i, files i)))
    (λ '(a, b, c, d, (e, f, g, h)), mkPathInfo a b c d e f g h) _). by intros [].
Defined.

#[export] Instance demo_info_json : InfoJson := {|
  info_to_json := demo_print;
  info_from_json := demo_parse;
  info_json_roundtrip := demo_parse_print;
|}.

#[export] Instance demo_manifest_json : ManifestJson := {|
  manifest_to_json := demo_print;
  manifest_from_json := demo_parse;
  manifest_json_roundtrip := demo_parse_print;
|}.

(** A filesystem on which nothing fails. *)
#[export] Instance demo_no_faults : IoFaults := {|
  write_faults _ := None;
  remove_fails _ := false;
  read_dir_fails _ := false;
|}.
