(* ===== verification/Store.v ===== *)
(** * [store.rs]: closures, GC roots and garbage collection

    The disk state of the component: the pathinfo directory ([PathInfo.v]), the
    gcroots directory and the trees under the store. *)

From S2P Require Import Prelude RustStd Nar PathInfo Instances.

(** ** State *)

(** An entry of [/nix/var/snix/gcroots]: a symlink, a plain file or a directory. *)
Inductive root_entry : Type :=
  | RLink (target : string)
  | RFile
  | RDir.

(** [GcRoot] *)
Record GcRoot : Type := mkGcRoot { gr_name : string; gr_target : string }.

(** What is found at a store path; a link carries what following it leads to
    ([None] when it dangles). *)
Inductive fnode : Type :=
  | FFile (len : Z)
  | FDir (children : list (string * fnode))
  | FLink (dest : option fnode).

Record disk : Type := mkDisk {
  d_db : directory;
  d_roots : gmap string root_entry;
  d_store : gmap string fnode;
}.

(** [Closure] *)
Record Closure : Type := mkClosure {
  c_paths : gset string;
  c_total_nar_size : Z;
}.

(** [GcStats] *)
Record GcStats : Type := mkGcStats {
  paths_deleted : Z;
  bytes_freed : Z;
  paths_kept : Z;
}.

(** The [Box<dyn Error>] values these functions return *)
Inductive StoreError : Type :=
  | NotRegistered (p : string)
  | DbError (e : PathInfoError)
  | InvalidStorePath (p : string)
  | RootNotFound (name : string)
  | RootIo (name : string)
  | TreeIo (p : string).

#[export] Instance StoreError_eq_dec : EqDecision StoreError.
Proof. solve_decision. Defined.

(** What a failing [remove_dir_all]/[remove_file] on a store path leaves behind. *)
Class TreeFaults : Type := { tree_remove_leaves : string → option fnode }.

Section Store.
Context `{SPL : StorePathLib, IJ : InfoJson, MJ : ManifestJson, IOF : IoFaults, TF : TreeFaults}.
Implicit Types (db : directory) (d : disk).

(** ** Closure computation *)

(** The [while let Some(path) = queue.pop_front()] loop of [compute_closure];
    [None] stands for running out of fuel. *)
Fixpoint closure_loop (fuel : nat) db (visited : gset string) (queue : list string)
    (total : Z) : option (result StoreError Closure) :=
  match fuel with
  | O => None
  | S fuel' =>
      match queue with
      | [] => Some (Ok (mkClosure visited total))
      | path :: queue' =>
          if decide (path ∈ visited) then closure_loop fuel' db visited queue' total
          else match get db path with
               | Err e => Some (Err (DbError e))
               | Ok None => Some (Err (NotRegistered path))
               | Ok (Some info) =>
                   let visited' := {[path]} ∪ visited in
                   closure_loop fuel' db visited'
                     (queue' ++ filter (λ r, r ∉ visited') (references info))
                     (wrap64 (total + nar_size info))
               end
      end
  end.

(** The references recorded for a path, and every reference string of the database. *)
Definition refs db (p : string) : list string :=
  match get db p with Ok (Some info) => references info | _ => [] end.

Definition file_refs (f : dbfile) : list string :=
  match f with
  | Text content => match info_from_json content with Some i => references i | None => [] end
  | Unreadable => []
  end.

Definition universe db (root : string) : gset string :=
  {[root]} ∪ list_to_set (map_to_list db ≫= λ kv, file_refs kv.2).

Definition weight db (X : gset string) : nat :=
  sum_list_with (λ p, length (refs db p)) (elements X).

(** One iteration per queue entry: the root, and each reference of each visited path. *)
Definition closure_fuel db (root : string) : nat := S (S (weight db (universe db root))).

(** [compute_closure] *)
Definition compute_closure db (root : string) : option (result StoreError Closure) :=
  closure_loop (closure_fuel db root) db ∅ [root] 0.

(** *** Specification: reachability through references *)
Definition edge db (p q : string) : Prop := q ∈ refs db p.
Definition reaches db : string → string → Prop := rtc (edge db).

Definition complete db (p : string) : Prop := ∃ info, get db p = Ok (Some info).

Definition size_of db (p : string) : Z :=
  match get db p with Ok (Some info) => nar_size info | _ => 0 end.

Definition total_size db (X : gset string) : Z := sum_Z (size_of db) (elements X).

(** *** Termination of the loop *)
Lemma refs_in_universe db root p q : q ∈ refs db p → q ∈ universe db root.
Proof.
  unfold refs, universe. intros Hq.
  destruct (get db p) as [[info|]|] eqn:Hg; try by apply elem_of_nil in Hq.
  apply get_Some in Hg as (file & content & _ & Hl & Hj).
  apply elem_of_union. right. apply elem_of_list_to_set, list_elem_of_bind.
  exists (file, Text content). split; [simpl; by rewrite Hj|]. by apply elem_of_map_to_list.
Qed.

Lemma weight_remove db X p :
  p ∈ X → weight db X = length (refs db p) + weight db (X ∖ {[p]}).
Proof.
  intros Hp. unfold weight.
  rewrite (union_difference_singleton_L p X Hp) at 1.
  rewrite elements_union_singleton by set_solver. done.
Qed.

Lemma weight_visit db U visited p :
  p ∈ U → p ∉ visited →
  weight db (U ∖ visited) = length (refs db p) + weight db (U ∖ ({[p]} ∪ visited)).
Proof.
  intros Hu Hv. rewrite (weight_remove db (U ∖ visited) p) by set_solver.
  f_equal. unfold weight. replace (U ∖ visited ∖ {[p]}) with (U ∖ ({[p]} ∪ visited)); set_solver.
Qed.

Lemma closure_loop_total fuel db root visited queue total :
  (∀ q, q ∈ queue → q ∈ universe db root) →
  weight db (universe db root ∖ visited) + length queue < fuel →
  is_Some (closure_loop fuel db visited queue total).
Proof.
  revert visited queue total. induction fuel as [|fuel IH]; intros visited queue total HU Hf; [lia|].
  simpl. destruct queue as [|p queue]; [by eexists|]. simpl in Hf.
  assert (Hp : p ∈ universe db root) by (apply HU; by left).
  case_decide as Hv.
  { apply IH; [intros; apply HU; by right | lia]. }
  destruct (get db p) as [[info|]|] eqn:Hg; try by eexists.
  assert (Hr : refs db p = references info) by (unfold refs; by rewrite Hg).
  apply IH.
  - intros q [Hq|Hq]%elem_of_app; [apply HU; by right|].
    apply list_elem_of_filter in Hq as [_ Hq]. apply (refs_in_universe _ _ p). by rewrite Hr.
  - rewrite (weight_visit db _ visited p Hp Hv) in Hf. rewrite Hr in Hf.
    rewrite length_app.
    pose proof (length_filter (λ r, r ∉ {[p]} ∪ visited) (references info)). lia.
Qed.

Lemma compute_closure_total db root : is_Some (compute_closure db root).
Proof.
  apply (closure_loop_total _ db root).
  - intros q ->%list_elem_of_singleton. unfold universe. set_solver.
  - unfold closure_fuel. simpl.
    assert (weight db (universe db root ∖ ∅) = weight db (universe db root)) as ->; [|lia].
    f_equal. set_solver.
Qed.

(** *** Correctness of the loop *)

Lemma total_size_visit db X p info :
  p ∉ X → get db p = Ok (Some info) →
  total_size db ({[p]} ∪ X) = (nar_size info + total_size db X)%Z.
Proof.
  intros Hp Hg. unfold total_size.
  rewrite (sum_Z_perm _ _ _ (elements_union_singleton X p Hp)).
  simpl. unfold size_of at 1. by rewrite Hg.
Qed.

(** What the loop maintains: visited and queued paths are reachable, visited paths
    have metadata, and their references are visited or queued. *)
Record loop_inv db (root : string) (visited : gset string) (queue : list string) (total : Z)
    : Prop := {
  inv_visited : ∀ p, p ∈ visited → reaches db root p ∧ complete db p;
  inv_queue : ∀ p, p ∈ queue → reaches db root p;
  inv_closed : ∀ p q, p ∈ visited → edge db p q → q ∈ visited ∨ q ∈ queue;
  inv_root : root ∈ visited ∨ root ∈ queue;
  inv_total : total = wrap64 (total_size db visited);
}.

Lemma loop_inv_init db root : loop_inv db root ∅ [root] 0.
Proof.
  split.
  - intros p Hp. set_solver.
  - intros p ->%list_elem_of_singleton. apply rtc_refl.
  - intros p q Hp. set_solver.
  - right. by left.
  - done.
Qed.

Lemma loop_inv_skip db root visited p queue total :
  p ∈ visited → loop_inv db root visited (p :: queue) total →
  loop_inv db root visited queue total.
Proof.
  intros Hp [Hv Hq Hc Hr Ht]. split; try done.
  - intros q ?. apply Hq. by right.
  - intros a b Ha Hab. destruct (Hc a b Ha Hab) as [|[->|]%elem_of_cons]; auto.
  - destruct Hr as [|[->|]%elem_of_cons]; auto.
Qed.

Lemma loop_inv_visit db root visited p queue total info :
  p ∉ visited → get db p = Ok (Some info) →
  loop_inv db root visited (p :: queue) total →
  loop_inv db root ({[p]} ∪ visited)
    (queue ++ filter (λ r, r ∉ {[p]} ∪ visited) (references info))
    (wrap64 (total + nar_size info)).
Proof.
  intros Hp Hg [Hv Hq Hc Hr Ht].
  assert (Hrefs : refs db p = references info) by (unfold refs; by rewrite Hg).
  assert (Hreach : reaches db root p) by (apply Hq; by left).
  split.
  - intros q [->%elem_of_singleton|Hq']%elem_of_union; [|by apply Hv].
    split; [done|by eexists].
  - intros q [Hq'|Hq']%elem_of_app; [apply Hq; by right|].
    apply list_elem_of_filter in Hq' as [_ Hq']. eapply rtc_r; [done|].
    unfold edge. by rewrite Hrefs.
  - intros a b Ha Hab.
    destruct (decide (b ∈ {[p]} ∪ visited)) as [|Hb]; [by left|right].
    apply elem_of_app. apply elem_of_union in Ha as [->%elem_of_singleton|Ha].
    + right. apply list_elem_of_filter. split; [done|]. unfold edge in Hab. by rewrite <- Hrefs.
    + left. destruct (Hc a b Ha Hab) as [?|[->|]%elem_of_cons]; [set_solver|set_solver|done].
  - rewrite elem_of_union, elem_of_app, elem_of_singleton.
    destruct Hr as [|[->|]%elem_of_cons]; auto.
  - subst total. rewrite wrap64_add_l. f_equal. rewrite (total_size_visit _ _ _ _ Hp Hg). lia.
Qed.

(** What a finished run says. *)
Definition closure_result db (root : string) (r : result StoreError Closure) : Prop :=
  match r with
  | Ok c =>
      (∀ q, q ∈ c_paths c ↔ reaches db root q)
      ∧ (∀ q, reaches db root q → complete db q)
      ∧ c_total_nar_size c = wrap64 (total_size db (c_paths c))
  | Err e =>
      ∃ q, reaches db root q ∧
        ((get db q = Ok None ∧ e = NotRegistered q)
         ∨ ∃ e', get db q = Err e' ∧ e = DbError e')
  end.

Lemma closure_loop_sound fuel db root visited queue total r :
  loop_inv db root visited queue total →
  closure_loop fuel db visited queue total = Some r → closure_result db root r.
Proof.
  revert visited queue total. induction fuel as [|fuel IH]; intros visited queue total Hinv; [done|].
  simpl. destruct queue as [|p queue].
  - intros ?; simplify_eq/=. destruct Hinv as [Hv Hq Hc Hr Ht].
    assert (Hall : ∀ q, reaches db root q → q ∈ visited).
    { apply rtc_ind_r.
      - by destruct Hr as [|?%elem_of_nil].
      - intros a b _ Hab Ha. by destruct (Hc a b Ha Hab) as [|?%elem_of_nil]. }
    split_and!; [|intros q Hq'; by apply Hv, Hall|done]. intros q. split; [apply Hv|apply Hall].
  - case_decide as Hp.
    + apply IH. by eapply loop_inv_skip.
    + destruct (get db p) as [[info|]|e] eqn:Hg.
      * apply IH. by apply loop_inv_visit.
      * intros ?; simplify_eq/=. exists p. split; [apply (inv_queue _ _ _ _ _ Hinv); by left|auto].
      * intros ?; simplify_eq/=. exists p.
        split; [apply (inv_queue _ _ _ _ _ Hinv); by left|right; eauto].
Qed.

(** The closure computation on every branch. *)
Lemma compute_closure_result db root :
  ∃ r, compute_closure db root = Some r ∧ closure_result db root r.
Proof.
  destruct (compute_closure_total db root) as [r Hr]. exists r. split; [done|].
  by eapply closure_loop_sound, Hr; apply loop_inv_init.
Qed.

Lemma compute_closure_complete db root :
  (∀ q, reaches db root q → complete db q) →
  ∃ c, compute_closure db root = Some (Ok c) ∧ ∀ q, q ∈ c_paths c ↔ reaches db root q.
Proof.
  intros Hall. destruct (compute_closure_result db root) as ([c|e] & -> & Hres).
  - exists c. split; [done|]. apply Hres.
  - destruct Hres as (q & Hq & Hbad). destruct (Hall q Hq) as [info Hi].
    rewrite Hi in Hbad. naive_solver.
Qed.

Lemma compute_closure_Ok db root c :
  compute_closure db root = Some (Ok c) →
  (∀ q, q ∈ c_paths c ↔ reaches db root q) ∧ (∀ q, reaches db root q → complete db q).
Proof.
  intros Hc. destruct (compute_closure_result db root) as (r & Hr & Hres).
  rewrite Hc in Hr. injection Hr as <-. by destruct Hres as (?&?&_).
Qed.

(** ** GC roots *)

(** [GcRoots::add_root] (names are single path components) *)
Definition add_root (roots : gmap string root_entry) (name p : string)
    : result StoreError unit * gmap string root_entry :=
  match sp_hash p with
  | None => (Err (InvalidStorePath p), roots)
  | Some _ =>
      let link := match write_faults name with
                  | Some _ => λ rs, (Err (RootIo name), rs)
                  | None => λ rs, (Ok (), <[name := RLink p]> rs)
                  end in
      match roots !! name with
      | None => link roots
      | Some RDir => (Err (RootIo name), roots)
      | Some _ => if remove_fails name then (Err (RootIo name), roots)
                  else link (base.delete name roots)
      end
  end.

(** [GcRoots::remove_root] *)
Definition remove_root (roots : gmap string root_entry) (name : string)
    : result StoreError unit * gmap string root_entry :=
  match roots !! name with
  | None => (Err (RootNotFound name), roots)
  | Some RDir => (Err (RootIo name), roots)
  | Some _ => if remove_fails name then (Err (RootIo name), roots)
              else (Ok (), base.delete name roots)
  end.

(** [GcRoots::list_roots] *)
Definition list_roots (roots : gmap string root_entry) : result StoreError (list GcRoot) :=
  if read_dir_fails "gcroots" then Err (RootIo "gcroots")
  else Ok (omap (λ kv, match kv.2 with RLink t => Some (mkGcRoot kv.1 t) | _ => None end)
                (BTree.to_list roots)).

(** The body of the loop of [GcRoots::compute_live_set] *)
Definition live_of db (r : GcRoot) : gset string :=
  if negb (is_registered db (gr_target r)) then ∅
  else match compute_closure db (gr_target r) with
       | Some (Ok c) => c_paths c
       | _ => ∅
       end.

(** [GcRoots::compute_live_set] *)
Definition compute_live_set db (roots : gmap string root_entry) : result StoreError (gset string) :=
  rs ← list_roots roots; Ok (foldl (λ live r, live ∪ live_of db r) ∅ rs).

(** ** Garbage collection *)

(** [Path::exists] and [path_size] *)
Fixpoint fnode_exists (n : fnode) : bool :=
  match n with
  | FLink None => false
  | FLink (Some n') => fnode_exists n'
  | _ => true
  end.

Fixpoint path_size (n : fnode) : Z :=
  match n with
  | FFile len => len
  | FDir children =>
      (fix go (l : list (string * fnode)) (total : Z) : Z :=
         match l with
         | [] => total
         | (_, c) :: l' => go l' (wrap64 (total + path_size c))
         end) children 0%Z
  | FLink None => 0%Z
  | FLink (Some n') => path_size n'
  end.

Definition store_size (store : gmap string fnode) (p : string) : Z :=
  match store !! p with Some n => path_size n | None => 0%Z end.

(** The tree at [p] is removed when [p] exists; then the metadata. *)
Definition remove_tree (store : gmap string fnode) (p : string)
    : result StoreError unit * gmap string fnode :=
  match store !! p with
  | Some n =>
      if fnode_exists n then
        match tree_remove_leaves p with
        | Some rest => (Err (TreeIo p), <[p := rest]> store)
        | None => (Ok (), base.delete p store)
        end
      else (Ok (), store)
  | None => (Ok (), store)
  end.

Definition gc_one d (p : string) : result StoreError unit * disk :=
  match remove_tree (d_store d) p with
  | (Err e, store) => (Err e, mkDisk (d_db d) (d_roots d) store)
  | (Ok _, store) =>
      match delete (d_db d) p with
      | (Err e, db) => (Err (DbError e), mkDisk db (d_roots d) store)
      | (Ok _, db) => (Ok (), mkDisk db (d_roots d) store)
      end
  end.

Definition count_deleted (stats : GcStats) (size : Z) : GcStats :=
  mkGcStats (wrap32 (paths_deleted stats + 1)) (wrap64 (bytes_freed stats + size))
            (paths_kept stats).

(** The [for path in &dead_set] loop *)
Fixpoint gc_loop (dry_run : bool) d (dead : list string) (stats : GcStats)
    : result StoreError GcStats * disk :=
  match dead with
  | [] => (Ok stats, d)
  | p :: dead' =>
      let size := store_size (d_store d) p in
      if dry_run then gc_loop dry_run d dead' (count_deleted stats size)
      else match gc_one d p with
           | (Err e, d') => (Err e, d')
           | (Ok _, d') => gc_loop dry_run d' dead' (count_deleted stats size)
           end
  end.

(** [garbage_collect] *)
Definition garbage_collect d (dry_run : bool) : result StoreError GcStats * disk :=
  match all_paths_set (d_db d) with
  | Err e => (Err (DbError e), d)
  | Ok all_paths =>
      match compute_live_set (d_db d) (d_roots d) with
      | Err e => (Err e, d)
      | Ok live =>
          let dead := all_paths ∖ live in
          let stats := mkGcStats 0 0 (wrap32 (Z.of_nat (size live))) in
          if decide (dead = ∅) then (Ok stats, d)
          else gc_loop dry_run d (BTree.set_to_list dead) stats
      end
  end.

(** *** Live set *)
Lemma elem_of_list_roots roots rs r :
  list_roots roots = Ok rs → r ∈ rs ↔ roots !! gr_name r = Some (RLink (gr_target r)).
Proof.
  unfold list_roots. destruct (read_dir_fails _); [done|]. intros; simplify_eq.
  rewrite list_elem_of_omap. split.
  - intros ([k e] & Hin & He). apply BTree.elem_of_to_list in Hin. simpl in He.
    destruct e; simplify_eq. done.
  - intros Hr. exists (gr_name r, RLink (gr_target r)). split; [by apply BTree.elem_of_to_list|].
    by destruct r.
Qed.

Lemma elem_of_foldl_union {A} (f : A → gset string) l acc x :
  x ∈ foldl (λ live r, live ∪ f r) acc l ↔ x ∈ acc ∨ ∃ r, r ∈ l ∧ x ∈ f r.
Proof.
  revert acc. induction l as [|r l IH]; intros acc; simpl.
  - split; [auto|]. intros [|(?&?%elem_of_nil&_)]; done.
  - rewrite IH, elem_of_union. setoid_rewrite elem_of_cons. naive_solver.
Qed.

Lemma elem_of_live_of db r x :
  x ∈ live_of db r ↔
  is_registered db (gr_target r) = true
  ∧ ∃ c, compute_closure db (gr_target r) = Some (Ok c) ∧ x ∈ c_paths c.
Proof.
  unfold live_of. destruct (is_registered db (gr_target r)); simpl; [|set_solver].
  destruct (compute_closure db (gr_target r)) as [[c|]|]; set_solver.
Qed.

Lemma elem_of_live_set db roots live x :
  compute_live_set db roots = Ok live →
  x ∈ live ↔ ∃ name t c, roots !! name = Some (RLink t)
                         ∧ compute_closure db t = Some (Ok c) ∧ x ∈ c_paths c.
Proof.
  unfold compute_live_set. intros Hl. inv_ok.
  rewrite elem_of_foldl_union. setoid_rewrite elem_of_live_of. split.
  - intros [?|([n t] & Hr & _ & c & Hc & Hx)]; [set_solver|]. exists n, t, c.
    apply (elem_of_list_roots _ _ _ E) in Hr. done.
  - intros (n & t & c & Hr & Hc & Hx). right. exists (mkGcRoot n t).
    split; [by apply (elem_of_list_roots _ _ _ E)|]. split; [|by exists c].
    destruct (compute_closure_Ok _ _ _ Hc) as [_ Hall].
    destruct (Hall t) as [info Hi]; [apply rtc_refl|]. by eapply get_registered.
Qed.

(** Paths with an intact closure in a smaller database had it before. *)
Lemma get_weaken db db' p info : db' ⊆ db → get db' p = Ok (Some info) → get db p = Ok (Some info).
Proof.
  rewrite !get_Some. intros Hs (file & content & Hf & Hl & Hj).
  exists file, content. split_and!; try done. by eapply lookup_weaken.
Qed.

Lemma closure_agree db db' root c :
  (∀ q, reaches db root q → get db' q = get db q) →
  compute_closure db root = Some (Ok c) →
  ∃ c', compute_closure db' root = Some (Ok c') ∧ c_paths c' = c_paths c.
Proof.
  intros Hag Hc. destruct (compute_closure_Ok _ _ _ Hc) as [Hp Hall].
  assert (Hre : ∀ q, reaches db' root q → reaches db root q).
  { apply rtc_ind_r; [apply rtc_refl|]. intros a b _ Hab Ha.
    eapply rtc_r; [done|]. unfold edge, refs in *. by rewrite <- (Hag a Ha). }
  assert (Hre' : ∀ q, reaches db root q → reaches db' root q).
  { apply rtc_ind_r; [apply rtc_refl|]. intros a b Ha Hab Ha'.
    eapply rtc_r; [done|]. unfold edge, refs in *. by rewrite (Hag a Ha). }
  destruct (compute_closure_complete db' root) as (c' & Hc' & Hp').
  { intros q Hq. destruct (Hall q (Hre q Hq)) as [info Hi]. exists info.
    by rewrite (Hag q (Hre q Hq)). }
  exists c'. split; [done|]. apply set_eq. intros q. rewrite Hp, Hp'. naive_solver.
Qed.

Lemma closure_shrink db db' root c' :
  db' ⊆ db → compute_closure db' root = Some (Ok c') →
  ∃ c, compute_closure db root = Some (Ok c) ∧ c_paths c = c_paths c'.
Proof.
  intros Hs Hc'. destruct (compute_closure_Ok _ _ _ Hc') as [_ Hall].
  apply (closure_agree db'); [|done]. intros q Hq.
  destruct (Hall q Hq) as [info Hi]. rewrite Hi. by eapply get_weaken.
Qed.

(** The digest of a store path identifies it among the live paths: what is filed
    under a live path is that path's own record. *)
Definition db_canonical db (roots : gmap string root_entry) : Prop :=
  ∀ live q info, compute_live_set db roots = Ok live → q ∈ live →
    get db q = Ok (Some info) → store_path info = q.

Definition db_canonical_check db (roots : gmap string root_entry) : bool :=
  match compute_live_set db roots with
  | Ok live => forallb (λ q, match get db q with
                             | Ok (Some info) => bool_decide (store_path info = q)
                             | _ => true
                             end) (elements live)
  | Err _ => true
  end.

Lemma db_canonical_check_sound db roots :
  db_canonical_check db roots = true → db_canonical db roots.
Proof.
  unfold db_canonical_check. intros Hc live q info Hl Hq Hg. rewrite Hl, forallb_forall in Hc.
  specialize (Hc q). rewrite Hg in Hc. eapply bool_decide_eq_true, Hc.
  by apply list_elem_of_In, elem_of_elements.
Qed.

(** *** What the sweep changes *)
Definition keeps d d' (q : string) : Prop :=
  get (d_db d') q = get (d_db d) q ∧ d_store d' !! q = d_store d !! q.

(** Two store paths that neither coincide nor share their metadata file. *)
Definition apart (p q : string) : Prop :=
  p ≠ q ∧ ∀ file, info_file p = Ok file → info_file q ≠ Ok file.

Lemma get_other_file db file q :
  info_file q ≠ Ok file → get (base.delete file db) q = get db q.
Proof.
  unfold get. intros Hf. destruct (info_file q) as [file'|]; simpl; [|done].
  by rewrite lookup_delete_ne by congruence.
Qed.

Lemma delete_other db p r db' q :
  delete db p = (r, db') → (∀ file, info_file p = Ok file → info_file q ≠ Ok file) →
  get db' q = get db q.
Proof.
  unfold delete. intros Hd Hf. repeat case_match; simplify_eq; try done.
  apply get_other_file. by apply Hf.
Qed.

Lemma remove_tree_other store p r store' q :
  remove_tree store p = (r, store') → p ≠ q → store' !! q = store !! q.
Proof.
  unfold remove_tree. intros Hr Hq. repeat case_match; simplify_eq; try done;
    [by rewrite lookup_insert_ne | by rewrite lookup_delete_ne].
Qed.

Lemma gc_one_other d p r d' q : gc_one d p = (r, d') → apart p q → keeps d d' q.
Proof.
  unfold gc_one, keeps. intros Hg [Hne Hf].
  destruct (remove_tree (d_store d) p) as [[] store] eqn:Hr.
  - destruct (delete (d_db d) p) as [[] db'] eqn:Hd; simplify_eq/=;
      by split; [eapply delete_other | eapply remove_tree_other].
  - simplify_eq/=. split; [done|]. by eapply remove_tree_other.
Qed.

Lemma gc_one_frame d p r d' :
  gc_one d p = (r, d') → d_db d' ⊆ d_db d ∧ d_roots d' = d_roots d.
Proof.
  unfold gc_one. intros Hg.
  destruct (remove_tree (d_store d) p) as [[] store] eqn:Hr; simplify_eq/=; [|done].
  destruct (delete (d_db d) p) as [[] db'] eqn:Hd; simplify_eq/=;
    (split; [by eapply delete_subset|done]).
Qed.

Lemma gc_one_gone d p d' file :
  gc_one d p = (Ok (), d') → info_file p = Ok file → d_db d' !! file = None.
Proof.
  unfold gc_one, delete. intros Hg Hf.
  destruct (remove_tree (d_store d) p) as [[] store] eqn:Hr; [|done].
  rewrite Hf in Hg. destruct (d_db d !! file) eqn:Hl; simplify_eq/=; [|done].
  destruct (remove_fails file); simplify_eq/=. by rewrite lookup_delete_eq.
Qed.

Lemma gc_loop_other d dead stats r d' q :
  gc_loop false d dead stats = (r, d') → (∀ p, p ∈ dead → apart p q) → keeps d d' q.
Proof.
  revert d stats. induction dead as [|p dead IH]; intros d stats; simpl.
  - intros; by simplify_eq.
  - intros Hg Hap. destruct (gc_one d p) as [[] d1] eqn:H1; simplify_eq.
    + apply IH in Hg as [Hg1 Hg2]; [|intros; apply Hap; by right].
      destruct (gc_one_other _ _ _ _ q H1) as [H2 H3]; [apply Hap; by left|].
      split; congruence.
    + eapply gc_one_other; [done|]. apply Hap. by left.
Qed.

Lemma gc_loop_frame d dead stats r d' :
  gc_loop false d dead stats = (r, d') → d_db d' ⊆ d_db d ∧ d_roots d' = d_roots d.
Proof.
  revert d stats. induction dead as [|p dead IH]; intros d stats; simpl.
  - intros; by simplify_eq.
  - intros Hg. destruct (gc_one d p) as [[] d1] eqn:H1; simplify_eq; [|by eapply gc_one_frame].
    apply IH in Hg as [Hg1 Hg2]. apply gc_one_frame in H1 as [H2 H3].
    split; [by etrans|congruence].
Qed.

Lemma gc_loop_gone d dead stats stats' d' p file :
  gc_loop false d dead stats = (Ok stats', d') → p ∈ dead → info_file p = Ok file →
  d_db d' !! file = None.
Proof.
  revert d stats. induction dead as [|p' dead IH]; intros d stats Hg Hp Hf; simpl in Hg.
  { by apply elem_of_nil in Hp. }
  destruct (gc_one d p') as [[[]|] d1] eqn:H1; [|done].
  apply elem_of_cons in Hp as [->|Hp]; [|by eapply IH].
  apply gc_loop_frame in Hg as [Hsub _].
  pose proof (gc_one_gone _ _ _ _ H1 Hf) as Hn. by eapply lookup_weaken_None.
Qed.

(** A sweep either did nothing or ran the loop over the dead set. *)
Lemma garbage_collect_cases d dry r d' :
  garbage_collect d dry = (r, d') →
  (d' = d ∧ ∃ e, r = Err e) ∨
  ∃ all live, all_paths_set (d_db d) = Ok all
    ∧ compute_live_set (d_db d) (d_roots d) = Ok live
    ∧ gc_loop dry d (BTree.set_to_list (all ∖ live))
        (mkGcStats 0 0 (wrap32 (Z.of_nat (size live)))) = (r, d').
Proof.
  unfold garbage_collect. intros Hg.
  destruct (all_paths_set (d_db d)) as [all|]; [|left; naive_solver].
  destruct (compute_live_set (d_db d) (d_roots d)) as [live|]; [|left; naive_solver].
  right. exists all, live. split_and!; [done..|].
  case_decide as He; [|done]. rewrite He. by simplify_eq/=.
Qed.

Lemma elem_of_all_paths db all p :
  db_wf db → all_paths_set db = Ok all →
  p ∈ all ↔ ∃ info, get db p = Ok (Some info) ∧ store_path info = p.
Proof.
  unfold all_paths_set. intros Hwf Ha.
  destruct (list_paths db) as [l|] eqn:Hl; simplify_eq/=.
  rewrite elem_of_list_to_set. by apply elem_of_list_paths_wf.
Qed.

Lemma live_complete db roots live q :
  compute_live_set db roots = Ok live → q ∈ live → complete db q.
Proof.
  intros Hl Hq. apply (elem_of_live_set _ _ _ _ Hl) in Hq as (n & t & c & _ & Hc & Hq).
  destruct (compute_closure_Ok _ _ _ Hc) as [Hp Hall]. by apply Hall, Hp.
Qed.

Lemma dead_apart_live d all live p q :
  db_wf (d_db d) → db_canonical (d_db d) (d_roots d) →
  all_paths_set (d_db d) = Ok all → compute_live_set (d_db d) (d_roots d) = Ok live →
  p ∈ all ∖ live → q ∈ live → apart p q.
Proof.
  intros Hwf Hcan Ha Hl [Hp Hnl]%elem_of_difference Hq.
  destruct (live_complete _ _ _ _ Hl Hq) as [iq Hiq].
  apply (elem_of_all_paths _ _ _ Hwf Ha) in Hp as (ip & Hip & Hsp).
  split; [by intros ->|]. intros file Hfp Hfq.
  apply get_Some in Hip as (f1 & c1 & E1 & L1 & J1).
  pose proof Hiq as Hiq'. apply get_Some in Hiq' as (f2 & c2 & E2 & L2 & J2).
  simplify_eq. apply (Hcan live q iq Hl Hq) in Hiq. congruence.
Qed.

(** The sweep leaves every live path as it was, also when it stops with an error. *)
Lemma gc_keeps_live d r d' live q :
  db_wf (d_db d) → db_canonical (d_db d) (d_roots d) →
  compute_live_set (d_db d) (d_roots d) = Ok live →
  garbage_collect d false = (r, d') → q ∈ live → keeps d d' q.
Proof.
  intros Hwf Hcan Hl Hg Hq.
  apply garbage_collect_cases in Hg as [[-> _]|(all & live' & Ha & Hl' & Hg)]; [done|].
  rewrite Hl in Hl'. injection Hl' as <-.
  eapply gc_loop_other; [done|]. intros p Hp. apply BTree.elem_of_set_to_list in Hp.
  by eapply dead_apart_live.
Qed.

Lemma gc_frame d r d' :
  garbage_collect d false = (r, d') → d_db d' ⊆ d_db d ∧ d_roots d' = d_roots d.
Proof.
  intros [[-> _]|(all & live & _ & _ & Hg)]%garbage_collect_cases; [done|].
  by eapply gc_loop_frame.
Qed.

(** After a successful sweep every registered path is live. *)
Lemma gc_only_live d stats d' live p info :
  db_wf (d_db d) → compute_live_set (d_db d) (d_roots d) = Ok live →
  garbage_collect d false = (Ok stats, d') →
  get (d_db d') p = Ok (Some info) → store_path info = p → p ∈ live.
Proof.
  intros Hwf Hl Hg Hp Hsp. pose proof (gc_frame _ _ _ Hg) as [Hsub _].
  apply garbage_collect_cases in Hg as [[_ [? ?]]|(all & live' & Ha & Hl' & Hg)]; [done|].
  rewrite Hl in Hl'. injection Hl' as <-.
  destruct (decide (p ∈ live)) as [|Hn]; [done|exfalso].
  assert (Hall : p ∈ all).
  { apply (elem_of_all_paths _ _ _ Hwf Ha). exists info. split; [by eapply get_weaken|done]. }
  apply get_Some in Hp as (file & content & Hf & Hd & _).
  assert (d_db d' !! file = None) as Hnone; [|by rewrite Hnone in Hd].
  eapply gc_loop_gone; [done| |done]. apply BTree.elem_of_set_to_list. set_solver.
Qed.

(** The live set of the swept disk is the one of the disk before. *)
Lemma gc_live_set d r d' live :
  db_wf (d_db d) → db_canonical (d_db d) (d_roots d) →
  compute_live_set (d_db d) (d_roots d) = Ok live →
  garbage_collect d false = (r, d') →
  compute_live_set (d_db d') (d_roots d') = Ok live.
Proof.
  intros Hwf Hcan Hl Hg. pose proof (gc_frame _ _ _ Hg) as [Hsub Hroots].
  assert (Hok : ∃ live', compute_live_set (d_db d') (d_roots d') = Ok live').
  { unfold compute_live_set in *. rewrite Hroots. inv_ok. rewrite E. by eexists. }
  destruct Hok as [live' Hl']. rewrite Hl'. f_equal. apply set_eq. intros x.
  rewrite (elem_of_live_set _ _ _ _ Hl), (elem_of_live_set _ _ _ _ Hl').
  split; intros (n & t & c & Hr & Hc & Hx).
  - destruct (closure_shrink _ _ _ _ Hsub Hc) as (c0 & Hc0 & Heq).
    exists n, t, c0. split_and!; [by rewrite <- Hroots|done|by rewrite Heq].
  - destruct (closure_agree (d_db d) (d_db d') t c) as (c0 & Hc0 & Heq); [|done|].
    + intros q Hq. refine (proj1 (gc_keeps_live d r d' live q Hwf Hcan Hl Hg _)).
      apply (elem_of_live_set _ _ _ _ Hl). exists n, t, c. split_and!; [done..|].
      by apply (compute_closure_Ok _ _ _ Hc).
    + exists n, t, c0. split_and!; [by rewrite Hroots|done|by rewrite Heq].
Qed.

(** A directory listing that succeeded still does after files were removed. *)
Lemma scan_paths_ok entries :
  (∃ l, scan_paths entries = Ok l) ↔
  ∀ name, (name, Unreadable) ∈ entries → Str.ends_with ".json" name = false.
Proof.
  induction entries as [|[n f] rest IH]; simpl.
  - split; [|by eexists]. intros _ name ?%elem_of_nil. done.
  - transitivity ((Str.ends_with ".json" n = true → f ≠ Unreadable)
                  ∧ ∃ l, scan_paths rest = Ok l).
    + destruct (Str.ends_with ".json" n); simpl; [|naive_solver].
      destruct f as [c|]; [|naive_solver].
      destruct (scan_paths rest); simpl; naive_solver.
    + rewrite IH. split.
      * intros [Hn Hr] name [?|?]%elem_of_cons; simplify_eq; [|by apply Hr].
        destruct (Str.ends_with _ _); naive_solver.
      * intros Hr. split; [|intros; apply Hr; by right].
        intros Hn ->. rewrite (Hr n) in Hn; [done|by left].
Qed.

Lemma all_paths_subset db db' all :
  db' ⊆ db → all_paths_set db = Ok all → ∃ all', all_paths_set db' = Ok all'.
Proof.
  unfold all_paths_set, list_paths. intros Hs Ha.
  destruct (read_dir_fails _); [done|].
  destruct (scan_paths (BTree.to_list db)) as [l|] eqn:Hl; [|done].
  destruct (proj2 (scan_paths_ok (BTree.to_list db'))) as [l' ->]; [|by eexists].
  intros name Hn. apply BTree.elem_of_to_list in Hn.
  apply (proj1 (scan_paths_ok (BTree.to_list db)) (ex_intro _ l Hl)).
  apply BTree.elem_of_to_list. by eapply lookup_weaken.
Qed.

Lemma gc_loop_dry d dead stats : ∃ stats', gc_loop true d dead stats = (Ok stats', d).
Proof. revert stats. induction dead as [|p dead IH]; intros stats; simpl; [by eexists|apply IH]. Qed.

(** Removing one tree does not change the size of another. *)
Lemma gc_loop_dry_agrees d dead stats stats' d0 d' :
  NoDup dead → (∀ p, p ∈ dead → d_store d !! p = d_store d0 !! p) →
  gc_loop false d dead stats = (Ok stats', d') →
  gc_loop true d0 dead stats = (Ok stats', d0).
Proof.
  revert d stats. induction dead as [|p dead IH]; intros d stats Hnd Hag Hg; simpl in *.
  { by simplify_eq. }
  inversion Hnd as [|? ? Hnin Hnd']; subst.
  destruct (gc_one d p) as [[[]|] d1] eqn:H1; [|done].
  unfold store_size in *. rewrite <- (Hag p) by left.
  eapply IH; [done| |done]. intros q Hq. rewrite <- (Hag q) by by right.
  unfold gc_one in H1.
  destruct (remove_tree (d_store d) p) as [[] store] eqn:Hr; [|done].
  destruct (delete (d_db d) p) as [[] db'] eqn:Hd; simplify_eq/=.
  eapply remove_tree_other; [done|]. by intros ->.
Qed.

(** ** Theorems *)

(** C12. [compute_closure] always returns (its loop ends within [closure_fuel]
    iterations).  On success the result is exactly the set of paths reachable
    through references, all of them registered and readable, with the 64-bit
    wrapped sum of their NAR sizes.  It fails exactly with the error of a
    reachable path whose metadata is missing, unreadable or corrupt. *)
Theorem compute_closure_spec db root :
  ∃ r, compute_closure db root = Some r ∧ closure_result db root r.
Proof. apply compute_closure_result. Qed.

(** C1. GC safety: whatever the sweep does, also when it stops half-way with an
    I/O error, every path reachable from a root whose closure is intact keeps its
    metadata and its tree. *)
Theorem gc_safety d r d' name target c q :
  db_wf (d_db d) → db_canonical (d_db d) (d_roots d) →
  d_roots d !! name = Some (RLink target) →
  compute_closure (d_db d) target = Some (Ok c) →
  reaches (d_db d) target q →
  garbage_collect d false = (r, d') →
  get (d_db d') q = get (d_db d) q ∧ d_store d' !! q = d_store d !! q.
Proof.
  intros Hwf Hcan Hroot Hc Hq Hg.
  pose proof Hg as [[-> _]|(all & live & Ha & Hl & _)]%garbage_collect_cases; [done|].
  eapply gc_keeps_live; try done. apply (elem_of_live_set _ _ _ _ Hl).
  exists name, target, c. split_and!; [done..|]. by apply (compute_closure_Ok _ _ _ Hc).
Qed.

(** C27. GC completeness and idempotence: after a successful sweep the registered
    paths are exactly the live ones, and sweeping again deletes nothing and
    changes nothing. *)
Theorem gc_complete_idempotent d stats d' live :
  db_wf (d_db d) → db_canonical (d_db d) (d_roots d) →
  compute_live_set (d_db d) (d_roots d) = Ok live →
  garbage_collect d false = (Ok stats, d') →
  all_paths_set (d_db d') = Ok live ∧
  garbage_collect d' false = (Ok (mkGcStats 0 0 (paths_kept stats)), d').
Proof.
  intros Hwf Hcan Hl Hg. pose proof (gc_frame _ _ _ Hg) as [Hsub _].
  pose proof (gc_live_set _ _ _ _ Hwf Hcan Hl Hg) as Hl'.
  pose proof Hg as Hcases.
  apply garbage_collect_cases in Hcases as [[_ [? ?]]|(all & live0 & Ha & Hl0 & Hloop)]; [done|].
  rewrite Hl in Hl0. injection Hl0 as <-.
  destruct (all_paths_subset _ _ _ Hsub Ha) as [all' Ha'].
  assert (Heq : all' = live).
  { apply set_eq. intros p.
    rewrite (elem_of_all_paths _ _ _ (db_wf_subset _ _ Hsub Hwf) Ha'). split.
    - intros (info & Hi & Hs). by eapply gc_only_live.
    - intros Hp. destruct (live_complete _ _ _ _ Hl' Hp) as [info Hi]. exists info.
      split; [done|]. eapply Hcan; [done|done|by eapply get_weaken]. }
  subst all'. split; [done|]. unfold garbage_collect. rewrite Ha', Hl'.
  rewrite decide_True by set_solver. do 3 f_equal.
  clear -Hloop. revert Hloop. generalize (BTree.set_to_list (all ∖ live)) as dead. intros dead.
  assert (Hk : ∀ d dead s s' d', gc_loop false d dead s = (Ok s', d') → paths_kept s' = paths_kept s).
  { intros d0 dead0. revert d0. induction dead0 as [|p dead0 IH]; intros d0 s s' d0' Hd; simpl in Hd.
    - by simplify_eq.
    - destruct (gc_one d0 p) as [[] ?]; [|done]. by apply IH in Hd. }
  intros Hd. by rewrite (Hk _ _ _ _ _ Hd).
Qed.

(** A dry run touches nothing and, when the real run succeeds, reports exactly
    the statistics of the real run. *)
Theorem gc_dry_run_predicts d stats d' :
  garbage_collect d false = (Ok stats, d') → garbage_collect d true = (Ok stats, d).
Proof.
  unfold garbage_collect. destruct (all_paths_set (d_db d)) as [all|]; [|done].
  destruct (compute_live_set (d_db d) (d_roots d)) as [live|]; [|done].
  case_decide; [by intros; simplify_eq|]. intros Hg.
  eapply gc_loop_dry_agrees; [apply BTree.NoDup_set_to_list|done|done].
Qed.

(** A root whose closure is broken protects nothing: when the closure of a
    root's target fails (one reference somewhere below it is not registered), the
    sweep removes the target itself, unless another root reaches it. *)
Theorem gc_broken_root_collected d stats d' name target info e :
  db_wf (d_db d) →
  d_roots d !! name = Some (RLink target) →
  get (d_db d) target = Ok (Some info) → store_path info = target →
  compute_closure (d_db d) target = Some (Err e) →
  (∀ n t c, d_roots d !! n = Some (RLink t) → compute_closure (d_db d) t = Some (Ok c) →
     target ∉ c_paths c) →
  garbage_collect d false = (Ok stats, d') →
  is_registered (d_db d') target = false.
Proof.
  intros Hwf _ Hi Hs _ Hno Hg.
  apply garbage_collect_cases in Hg as [[_ [? ?]]|(all & live & Ha & Hl & Hg)]; [done|].
  assert (Hdead : target ∈ all ∖ live).
  { apply elem_of_difference. split; [apply (elem_of_all_paths _ _ _ Hwf Ha); by exists info|].
    rewrite (elem_of_live_set _ _ _ _ Hl). intros (n & t & c & Hn & Hc & Hin). by eapply Hno. }
  apply get_Some in Hi as (file & content & Hf & Hd & _). unfold is_registered. rewrite Hf.
  apply bool_decide_eq_false_2. rewrite <- eq_None_not_Some.
  eapply gc_loop_gone; [done| |done]. by apply BTree.elem_of_set_to_list.
Qed.

End Store.

(** ** Witnesses: a store with an application, its library and an orphan *)
Module StoreDemo.

#[export] Instance no_tree_faults : TreeFaults := {| tree_remove_leaves _ := None |}.

Definition info (p : string) (size : Z) (rs : list string) : PathInfo :=
  mkPathInfo p "sha256:00" size rs None "2026-01-01T00:00:00Z" [] [].

Definition app := "/nix/store/aaa-app".
Definition lib := "/nix/store/bbb-lib".
Definition orphan := "/nix/store/ccc-orphan".
Definition broken := "/nix/store/ddd-broken".

Definition put (db : directory) (i : PathInfo) : directory := snd (register db i).

Definition db : directory :=
  foldl put ∅ [info app 100 [lib; app]; info lib 40 []; info orphan 7 [lib];
               info broken 3 ["/nix/store/eee-missing"]].

Definition d : disk := mkDisk db
  {["app" := RLink app; "broken" := RLink broken]}
  {[app := FDir [("bin", FFile 9)]; lib := FFile 40; orphan := FFile 7; broken := FFile 3]}.

Lemma gc_safety_witness :
  get (d_db (snd (garbage_collect d false))) lib = get (d_db d) lib
  ∧ d_store (snd (garbage_collect d false)) !! lib = d_store d !! lib.
Proof.
  eapply (gc_safety d (fst (garbage_collect d false)) _ "app" app (mkClosure {[app; lib]} 140) lib).
  - apply db_wf_check_sound. vm_compute. reflexivity.
  - apply db_canonical_check_sound. vm_compute. reflexivity.
  - vm_compute. reflexivity.
  - vm_compute. reflexivity.
  - apply rtc_once. unfold edge. apply list_elem_of_In. vm_compute. left. reflexivity.
  - vm_compute. reflexivity.
Defined.

Lemma gc_complete_idempotent_witness :
  all_paths_set (d_db (snd (garbage_collect d false))) = Ok {[app; lib]}.
Proof.
  eapply (gc_complete_idempotent d (mkGcStats 2 10 2) _ {[app; lib]}).
  - apply db_wf_check_sound. vm_compute. reflexivity.
  - apply db_canonical_check_sound. vm_compute. reflexivity.
  - vm_compute. reflexivity.
  - vm_compute. reflexivity.
Defined.

Lemma gc_dry_run_predicts_witness : garbage_collect d true = (Ok (mkGcStats 2 10 2), d).
Proof.
  apply (gc_dry_run_predicts d _ (snd (garbage_collect d false))). vm_compute. reflexivity.
Defined.

Lemma gc_broken_root_collected_witness :
  is_registered (d_db (snd (garbage_collect d false))) broken = false.
Proof.
  eapply (gc_broken_root_collected d (mkGcStats 2 10 2) _ "broken" broken _
            (NotRegistered "/nix/store/eee-missing")).
  - apply db_wf_check_sound. vm_compute. reflexivity.
  - vm_compute. reflexivity.
  - vm_compute. reflexivity.
  - vm_compute. reflexivity.
  - vm_compute. reflexivity.
  - intros n t c Hn Hc.
    assert (Hnt : (n, RLink t) ∈ map_to_list (d_roots d)) by by apply elem_of_map_to_list.
    apply list_elem_of_In in Hnt. vm_compute in Hnt.
    repeat destruct Hnt as [Hnt|Hnt]; try done; injection Hnt as <- <-; vm_compute in Hc;
      [|discriminate]; injection Hc as <-; refine (bool_decide_eq_false_1 _ _); vm_compute; reflexivity.
  - vm_compute. reflexivity.
Defined.

End StoreDemo.
