(* ===== verification/Calendar.v ===== *)
(** * Timestamps: [current_timestamp], [days_to_date], [parse_timestamp_to_epoch]

    The generation metadata stores ISO 8601 strings.  They are written with Howard
    Hinnant's day-to-civil-date algorithm ([system.rs], the same code again in
    [pathinfo.rs]) and read back with a loop over years and months. *)

From Stdlib Require Import DecimalString DecimalN DecimalFacts NArith.
From S2P Require Import Prelude RustStd.

Open Scope Z_scope.

(** ** Decimal text *)

(** [{n}], and [{n:0w$}]: at least [w] digits, padded with zeros *)
Definition dec (n : Z) : string := NilZero.string_of_uint (N.to_uint (Z.to_N n)).

Fixpoint zeros (k : nat) (s : string) : string :=
  match k with O => s | S k' => String "0" (zeros k' s) end.

Definition pad (w : nat) (n : Z) : string := zeros (w - String.length (dec n)) (dec n).

(** [s.parse::<uN>()]: an optional [+], then digits, at most [max] *)
Definition parse_uint (max : Z) (s : string) : option Z :=
  let digits := match s with String a s' => if decide (a = "+"%char) then s' else s
                           | EmptyString => s end in
  u ← NilZero.uint_of_string digits;
  let n := Z.of_N (N.of_uint u) in
  if decide (n ≤ max) then Some n else None.

(** ** [days_to_date] *)
Definition days_to_date (days : Z) : Z * Z * Z :=
  let z := days + 719468 in
  let era := z / 146097 in
  let doe := z - era * 146097 in
  let yoe := (doe - doe / 1460 + doe / 36524 - doe / 146096) / 365 in
  let y := yoe + era * 400 in
  let doy := doe - (365 * yoe + yoe / 4 - yoe / 100) in
  let mp := (5 * doy + 2) / 153 in
  let d := doy - (153 * mp + 2) / 5 + 1 in
  let m := if decide (mp < 10) then mp + 3 else mp - 9 in
  let y := if decide (m ≤ 2) then y + 1 else y in
  (y, m, d).

(** ** [current_timestamp]: [secs] is the clock, [None] when it is before the epoch *)
Definition current_timestamp (now : option Z) : string :=
  match now with
  | None => ""
  | Some secs =>
      let days := secs / 86400 in
      let remaining := secs `mod` 86400 in
      let hours := remaining / 3600 in
      let minutes := (remaining `mod` 3600) / 60 in
      let seconds := remaining `mod` 60 in
      let '(year, month, day) := days_to_date days in
      pad 4 year +:+ "-" +:+ pad 2 month +:+ "-" +:+ pad 2 day +:+ "T" +:+
      pad 2 hours +:+ ":" +:+ pad 2 minutes +:+ ":" +:+ pad 2 seconds +:+ "Z"
  end.

(** ** [parse_timestamp_to_epoch] *)
Definition is_leap_year (y : Z) : bool :=
  (bool_decide (y `mod` 4 = 0) && negb (bool_decide (y `mod` 100 = 0)))
  || bool_decide (y `mod` 400 = 0).

(** [for y in 1970..year { total_days += ... }] *)
Fixpoint year_loop (n : nat) (y total : Z) : Z :=
  match n with
  | O => total
  | S n' => year_loop n' (y + 1) (total + (if is_leap_year y then 366 else 365))
  end.

Definition days_in_month : list Z := [0; 31; 28; 31; 30; 31; 30; 31; 31; 30; 31; 30; 31].

(** [for m in 1..month { total_days += days_in_month[m]; ... }]: indexing past the
    table panics *)
Fixpoint month_loop (n : nat) (m year total : Z) : outcome Z :=
  match n with
  | O => Returns total
  | S n' =>
      match days_in_month !! Z.to_nat m with
      | None => Panics
      | Some dm =>
          month_loop n' (m + 1) year
            (total + dm + (if decide (m = 2 ∧ is_leap_year year = true) then 1 else 0))
      end
  end.

(** The arithmetic after the fields are parsed *)
Definition fields_to_epoch (year month day hour minute second : Z) : outcome Z :=
  match month_loop (Z.to_nat (month - 1)) 1 year (year_loop (Z.to_nat (year - 1970)) 1970 0) with
  | Panics => Panics
  | Returns total =>
      let total_days := wrap64 (total + day - 1) in
      Returns (wrap64 (total_days * 86400 + hour * 3600 + minute * 60 + second))
  end.

Definition parse_or_0 (s : string) : Z := default 0 (parse_uint u64_max s).

Definition parse_timestamp_to_epoch (ts : string) : outcome Z :=
  if decide (String.length ts < 19)%nat then Returns 0
  else match Str.split "T" ts with
       | [date; time] =>
           let time_str := Str.trim_end_matches "Z" time in
           match Str.split "-" date, Str.split ":" time_str with
           | [y; mo; d], [h; mi; s] =>
               fields_to_epoch (parse_or_0 y) (parse_or_0 mo) (parse_or_0 d)
                               (parse_or_0 h) (parse_or_0 mi) (parse_or_0 s)
           | _, _ => Returns 0
           end
       | _ => Returns 0
       end.

(** ** The civil calendar, as a reference *)

(** Days before January 1 of year [y], counted from January 1 of year 0 *)
Definition year_start (y : Z) : Z := 365 * y + (y + 3) / 4 - (y + 99) / 100 + (y + 399) / 400.

Definition month_length (y m : Z) : Z :=
  if decide (m = 2) then (if is_leap_year y then 29 else 28)
  else if decide (m ∈ [4; 6; 9; 11]) then 30 else 31.

(** Days before the first of month [m] in year [y] *)
Definition month_start (y m : Z) : Z :=
  nth (Z.to_nat m) [0; 0; 31; 59; 90; 120; 151; 181; 212; 243; 273; 304; 334] 0
  + (if decide (2 < m ∧ is_leap_year y = true) then 1 else 0).

(** Days since 1970-01-01 *)
Definition civil_to_days (y m d : Z) : Z :=
  year_start y - year_start 1970 + month_start y m + d - 1.

Definition valid_date (y m d : Z) : bool :=
  bool_decide (1 ≤ m ≤ 12) && bool_decide (1 ≤ d ≤ month_length y m).

(** *** The loops compute the calendar *)
Ltac Zify.zify_post_hook ::= Z.to_euclidean_division_equations.

Lemma leap_spec y :
  is_leap_year y = true ↔ (y `mod` 4 = 0 ∧ y `mod` 100 ≠ 0) ∨ y `mod` 400 = 0.
Proof.
  unfold is_leap_year.
  rewrite orb_true_iff, andb_true_iff, negb_true_iff, !bool_decide_eq_true, bool_decide_eq_false.
  done.
Qed.

(** [(y + n - 1) / n] steps up after each multiple of [n]. *)
Lemma ceil_div_step n y :
  n = 4 ∨ n = 100 ∨ n = 400 →
  (y + 1 + (n - 1)) / n = (y + (n - 1)) / n + (if decide (y `mod` n = 0) then 1 else 0).
Proof. intros [-> |[-> | ->]]; case_decide; lia. Qed.

Lemma mod_400_100 y : y `mod` 400 = 0 → y `mod` 100 = 0.
Proof. lia. Qed.

Lemma mod_100_4 y : y `mod` 100 = 0 → y `mod` 4 = 0.
Proof. lia. Qed.

Lemma year_start_succ y :
  year_start (y + 1) = year_start y + (if is_leap_year y then 366 else 365).
Proof.
  unfold year_start.
  pose proof (ceil_div_step 4 y ltac:(auto)) as H4.
  pose proof (ceil_div_step 100 y ltac:(auto)) as H100.
  pose proof (ceil_div_step 400 y ltac:(auto)) as H400.
  change (4 - 1) with 3 in H4. change (100 - 1) with 99 in H100. change (400 - 1) with 399 in H400.
  rewrite H4, H100, H400. clear H4 H100 H400.
  pose proof (mod_400_100 y). pose proof (mod_100_4 y).
  destruct (is_leap_year y) eqn:E.
  - apply leap_spec in E. repeat case_decide; try lia; naive_solver.
  - apply not_true_iff_false in E. rewrite leap_spec in E.
    repeat case_decide; try lia; naive_solver.
Qed.

Lemma year_loop_spec n y total :
  year_loop n y total = total + year_start (y + Z.of_nat n) - year_start y.
Proof.
  revert y total. induction n as [|n IH]; intros y total; simpl year_loop.
  - rewrite Z.add_0_r. lia.
  - rewrite IH. replace (y + Z.of_nat (S n)) with (y + 1 + Z.of_nat n) by lia.
    rewrite (year_start_succ y). lia.
Qed.

Lemma month_cases m : 1 ≤ m ≤ 12 → m ∈ seqZ 1 12.
Proof. intros. apply elem_of_seqZ. lia. Qed.

Ltac month_split H :=
  apply month_cases in H;
  repeat (apply elem_of_cons in H as [->|H]); [..|by apply not_elem_of_nil in H].

Lemma month_length_table y m :
  1 ≤ m ≤ 12 →
  ∃ dm, days_in_month !! Z.to_nat m = Some dm
        ∧ dm + (if decide (m = 2 ∧ is_leap_year y = true) then 1 else 0) = month_length y m.
Proof.
  intros Hm. month_split Hm; unfold month_length;
    (eexists; split; [reflexivity|]); by destruct (is_leap_year y).
Qed.

Lemma month_start_succ y m :
  1 ≤ m ≤ 11 → month_start y (m + 1) = month_start y m + month_length y m.
Proof.
  intros Hm. assert (Hm' : 1 ≤ m ≤ 12) by lia. revert Hm.
  month_split Hm'; intros Hm; try lia; unfold month_start, month_length;
    by destruct (is_leap_year y).
Qed.

Lemma month_end_year y m :
  1 ≤ m ≤ 12 → month_start y m + month_length y m ≤ if is_leap_year y then 366 else 365.
Proof.
  intros Hm. unfold month_start, month_length.
  month_split Hm; destruct (is_leap_year y); vm_compute; discriminate.
Qed.

Lemma month_loop_from n m y total :
  1 ≤ m → m + Z.of_nat n ≤ 12 →
  month_loop n m y total = Returns (total + month_start y (m + Z.of_nat n) - month_start y m).
Proof.
  revert m total. induction n as [|n IH]; intros m total Hm Hn.
  - simpl. rewrite Z.add_0_r. f_equal. lia.
  - destruct (month_length_table y m) as (dm & Hdm & Hlen); [lia|].
    cbn [month_loop]. rewrite Hdm, IH by lia.
    replace (m + Z.of_nat (S n)) with (m + 1 + Z.of_nat n) by lia.
    rewrite (month_start_succ y m) by lia. f_equal. lia.
Qed.

Lemma month_loop_spec y m total :
  1 ≤ m ≤ 12 → month_loop (Z.to_nat (m - 1)) 1 y total = Returns (total + month_start y m).
Proof.
  intros Hm. rewrite month_loop_from by lia.
  replace (1 + Z.of_nat (Z.to_nat (m - 1))) with m by lia.
  f_equal. change (month_start y 1) with 0. lia.
Qed.

(** Past December the loop reaches the end of the table. *)
Lemma month_loop_panics n m y total :
  1 ≤ m ≤ 13 → 13 < m + Z.of_nat n → month_loop n m y total = Panics.
Proof.
  revert m total. induction n as [|n IH]; intros m total Hm Hn; [lia|].
  cbn [month_loop]. destruct (decide (m = 13)) as [->|]; [done|].
  destruct (month_length_table y m) as (dm & -> & _); [lia|]. apply IH; lia.
Qed.

Lemma fields_to_epoch_civil y m d h mi s :
  1970 ≤ y → valid_date y m d = true →
  u64 (civil_to_days y m d) →
  fields_to_epoch y m d h mi s
  = Returns (wrap64 (civil_to_days y m d * 86400 + h * 3600 + mi * 60 + s)).
Proof.
  unfold valid_date. rewrite andb_true_iff, !bool_decide_eq_true. intros Hy [Hm Hd] Hu.
  unfold fields_to_epoch. rewrite month_loop_spec by done. rewrite year_loop_spec.
  replace (1970 + Z.of_nat (Z.to_nat (y - 1970))) with y by lia.
  replace (0 + year_start y - year_start 1970 + month_start y m + d - 1)
    with (civil_to_days y m d) by (unfold civil_to_days; lia).
  by rewrite (wrap64_small (civil_to_days y m d)).
Qed.

(** *** [days_to_date] inverts the calendar *)

(** The calendar has period 400 years = 146097 days. *)
Lemma leap_period y e : is_leap_year (y + e * 400) = is_leap_year y.
Proof.
  apply eq_true_iff_eq. rewrite !leap_spec.
  replace ((y + e * 400) `mod` 4) with (y `mod` 4) by lia.
  replace ((y + e * 400) `mod` 100) with (y `mod` 100) by lia.
  by rewrite Z.mod_add by lia.
Qed.

Lemma year_start_period y e : year_start (y + e * 400) = year_start y + e * 146097.
Proof. unfold year_start. lia. Qed.

(** The algorithm counts years from March 1: [march_days k] is the first day of the
    [k]-th such year of the era, [doy_ok] the month table it encodes. *)
Definition march_days (k : Z) : Z := 365 * k + k / 4 - k / 100 + k / 400.

Definition yoe_num (doe : Z) : Z := doe - doe / 1460 + doe / 36524 - doe / 146096.

Definition month_of (mp : Z) : Z := if decide (mp < 10) then mp + 3 else mp - 9.

Definition doy_ok (doy : Z) : bool :=
  let mp := (5 * doy + 2) / 153 in
  let d := doy - (153 * mp + 2) / 5 + 1 in
  let m := month_of mp in
  bool_decide (1 ≤ m ≤ 12) && bool_decide (1 ≤ d)
  && (if decide (3 ≤ m)
      then bool_decide (d ≤ month_length 1 m) && bool_decide (month_start 1 m + d = doy + 60)
      else bool_decide (month_start 1 m + d = doy - 305)
           && bool_decide (d ≤ month_length (if decide (doy = 365) then 4 else 1) m)).

Lemma seqZ_check (P : Z → bool) a n k :
  forallb P (seqZ a n) = true → a ≤ k < a + n → P k = true.
Proof. intros Hc Hk. rewrite forallb_forall in Hc. apply Hc, list_elem_of_In, elem_of_seqZ. lia. Qed.

Lemma doy_all_ok doy : 0 ≤ doy < 366 → doy_ok doy = true.
Proof. apply (seqZ_check _ 0 366). vm_compute. reflexivity. Qed.

Definition year_ok (k : Z) : bool :=
  bool_decide (yoe_num (march_days k) / 365 = k)
  && bool_decide (yoe_num (march_days (k + 1) - 1) / 365 = k).

Lemma year_all_ok k : 0 ≤ k < 400 → year_ok k = true.
Proof. apply (seqZ_check _ 0 400). vm_compute. reflexivity. Qed.

Lemma yoe_num_step a : 0 ≤ a → yoe_num a ≤ yoe_num (a + 1).
Proof. unfold yoe_num. lia. Qed.

Lemma yoe_num_mono a b : 0 ≤ a ≤ b → yoe_num a ≤ yoe_num b.
Proof.
  intros [Ha Hb]. replace b with (a + Z.of_nat (Z.to_nat (b - a))) by lia.
  induction (Z.to_nat (b - a)) as [|n IH]; [rewrite Z.add_0_r; lia|].
  etrans; [exact IH|].
  replace (a + Z.of_nat (S n)) with (a + Z.of_nat n + 1) by lia. apply yoe_num_step. lia.
Qed.

Lemma march_year_exists n doe :
  0 ≤ doe < march_days (Z.of_nat n) →
  ∃ k, 0 ≤ k < Z.of_nat n ∧ march_days k ≤ doe < march_days (k + 1).
Proof.
  induction n as [|n IH]; [change (march_days (Z.of_nat 0)) with 0; lia|]. intros Hd.
  destruct (decide (doe < march_days (Z.of_nat n))) as [Hl|Hl].
  - destruct IH as (k & Hk & Hb); [lia|]. exists k. split; [lia|done].
  - exists (Z.of_nat n). replace (Z.of_nat n + 1) with (Z.of_nat (S n)) by lia. lia.
Qed.

(** Year of era and day of year, as the algorithm computes them *)
Lemma yoe_spec doe :
  0 ≤ doe < 146097 →
  ∃ k, 0 ≤ k < 400 ∧ march_days k ≤ doe < march_days (k + 1) ∧ yoe_num doe / 365 = k.
Proof.
  intros Hd. destruct (march_year_exists 400 doe) as (k & Hk & Hb); [done|].
  change (Z.of_nat 400) with 400 in Hk. exists k. split_and!; try lia.
  pose proof (year_all_ok k Hk) as Hok. unfold year_ok in Hok.
  rewrite andb_true_iff, !bool_decide_eq_true in Hok. destruct Hok as [H1 H2].
  assert (Hm : 0 ≤ march_days k) by (unfold march_days; lia).
  pose proof (yoe_num_mono (march_days k) doe ltac:(lia)) as M1.
  pose proof (yoe_num_mono doe (march_days (k + 1) - 1) ltac:(lia)) as M2.
  apply (Z.div_le_mono _ _ 365) in M1; [|lia]. apply (Z.div_le_mono _ _ 365) in M2; lia.
Qed.

Lemma march_days_year_start k : march_days k + 60 = year_start k + month_start k 3.
Proof.
  unfold march_days, year_start. pose proof (leap_spec k) as Hl.
  change (month_start k 3) with
    (59 + (if decide (2 < 3 ∧ is_leap_year k = true) then 1 else 0)).
  case_decide as Hc.
  - destruct Hc as [_ Hc%Hl]. clear Hl. lia.
  - assert (Hn : ¬ is_leap_year k = true) by (intros ?; apply Hc; split; [lia|done]).
    rewrite Hl in Hn. clear Hl Hc. lia.
Qed.

Lemma march_days_next k : march_days k + 366 = year_start (k + 1).
Proof. unfold march_days, year_start. lia. Qed.

Lemma march_days_succ k :
  march_days (k + 1) = march_days k + (if is_leap_year (k + 1) then 366 else 365).
Proof.
  unfold march_days. pose proof (leap_spec (k + 1)) as Hl.
  destruct (is_leap_year (k + 1)).
  - destruct Hl as [Hl _]. specialize (Hl eq_refl). lia.
  - assert (Hn : ¬ (((k + 1) `mod` 4 = 0 ∧ (k + 1) `mod` 100 ≠ 0) ∨ (k + 1) `mod` 400 = 0))
      by (intros H%Hl; done). clear Hl. lia.
Qed.

(** One day of the first era *)
Definition day_ok (doe : Z) : Prop :=
  let '(y, m, d) := days_to_date (doe - 719468) in
  0 ≤ y ∧ valid_date y m d = true ∧ year_start y + month_start y m + d - 1 = doe + 60.

Lemma month_length_other y1 y2 m : m ≠ 2 → month_length y1 m = month_length y2 m.
Proof. intros. unfold month_length. by rewrite !(decide_False (P := m = 2)). Qed.

Lemma month_start_late y m :
  3 ≤ m → month_start y m = month_start 1 m + (month_start y 3 - 59).
Proof.
  intros Hm. unfold month_start. rewrite (decide_ext (2 < m ∧ _) (2 < 3 ∧ is_leap_year y = true))
    by (split; intros [_ ?]; split; (lia || done)).
  rewrite (decide_False (P := 2 < m ∧ is_leap_year 1 = true)) by (intros [_ ?]; discriminate).
  simpl (nth (Z.to_nat 3) _ _). lia.
Qed.

Lemma month_start_early y1 y2 m : ¬ 3 ≤ m → month_start y1 m = month_start y2 m.
Proof. intros Hm. unfold month_start. rewrite !(decide_False (P := 2 < m ∧ _)) by (intros [? _]; lia). done. Qed.

Lemma era_day_ok doe : 0 ≤ doe < 146097 → day_ok doe.
Proof.
  intros Hd. destruct (yoe_spec doe Hd) as (k & Hk & Hb & Hy).
  unfold day_ok, days_to_date.
  replace (doe - 719468 + 719468) with doe by lia.
  replace (doe / 146097) with 0 by lia.
  rewrite Z.mul_0_l, Z.sub_0_r, Z.mul_0_l. fold (yoe_num doe). rewrite Hy, Z.add_0_r.
  assert (Hmd : 365 * k + k / 4 - k / 100 = march_days k) by (unfold march_days; lia).
  rewrite Hmd. set (doy := doe - march_days k).
  pose proof (march_days_succ k) as Hs.
  assert (Hdoy : 0 ≤ doy < 366) by (unfold doy; destruct (is_leap_year (k + 1)); lia).
  pose proof (doy_all_ok doy Hdoy) as Hok. unfold doy_ok in Hok. fold (month_of ((5 * doy + 2) / 153)).
  revert Hok. generalize ((5 * doy + 2) / 153). intros mp.
  generalize (month_of mp) (doy - (153 * mp + 2) / 5 + 1). intros m d.
  rewrite !andb_true_iff, !bool_decide_eq_true. intros [[Hm Hd1] Hrest].
  case_decide as H3.
  - rewrite andb_true_iff, !bool_decide_eq_true in Hrest. destruct Hrest as [Hl Hst].
    rewrite decide_False by lia. split_and!; [lia| |].
    + unfold valid_date. rewrite andb_true_iff, !bool_decide_eq_true.
      rewrite (month_length_other k 1) by lia. lia.
    + pose proof (march_days_year_start k). rewrite (month_start_late k m) by done. lia.
  - rewrite andb_true_iff, !bool_decide_eq_true in Hrest. destruct Hrest as [Hst Hl].
    rewrite decide_True by lia. pose proof (march_days_next k).
    rewrite (month_start_early (k + 1) 1 m) by lia. split_and!; [lia| |lia].
    unfold valid_date. rewrite andb_true_iff, !bool_decide_eq_true. split; [done|].
    split; [done|]. revert Hl. unfold month_length. case_decide; [|done]. intros Hl.
    destruct (is_leap_year (k + 1)) eqn:El.
    + case_decide; [exact Hl|]. change (d ≤ 28) in Hl. lia.
    + rewrite decide_False in Hl by lia. exact Hl.
Qed.

(** Shifting by whole eras shifts the year by multiples of 400. *)
Lemma days_to_date_era doe e :
  0 ≤ doe < 146097 →
  days_to_date (doe + e * 146097 - 719468)
  = (let '(y, m, d) := days_to_date (doe - 719468) in (y + e * 400, m, d)).
Proof.
  intros Hd. unfold days_to_date.
  replace (doe + e * 146097 - 719468 + 719468) with (doe + e * 146097) by lia.
  replace (doe - 719468 + 719468) with doe by lia.
  replace ((doe + e * 146097) / 146097) with e by lia.
  replace (doe / 146097) with 0 by lia.
  replace (doe + e * 146097 - e * 146097) with doe by lia.
  rewrite Z.mul_0_l, Z.sub_0_r, Z.mul_0_l, Z.add_0_r.
  generalize ((doe - doe / 1460 + doe / 36524 - doe / 146096) / 365). intros yoe.
  generalize ((5 * (doe - (365 * yoe + yoe / 4 - yoe / 100)) + 2) / 153). intros mp.
  clear. destruct (decide (mp < 10)); case_decide;
    apply (f_equal (λ z, (z, _, _))); lia.
Qed.

Lemma days_to_date_civil days y m d :
  0 ≤ days → days_to_date days = (y, m, d) →
  1970 ≤ y ∧ valid_date y m d = true ∧ civil_to_days y m d = days.
Proof.
  intros Hd Hdate.
  set (e := (days + 719468) / 146097). set (doe := (days + 719468) `mod` 146097).
  assert (Hdoe : 0 ≤ doe < 146097) by (unfold doe; lia).
  assert (He : days = doe + e * 146097 - 719468) by (unfold doe, e; lia).
  rewrite He, days_to_date_era in Hdate by done.
  pose proof (era_day_ok doe Hdoe) as Hok. unfold day_ok in Hok.
  destruct (days_to_date (doe - 719468)) as [[y0 m0] d0]. simplify_eq.
  destruct Hok as (Hy0 & Hv & Hs).
  assert (Hms : month_start (y0 + e * 400) m = month_start y0 m)
    by (unfold month_start; by rewrite leap_period).
  assert (Hv' : valid_date (y0 + e * 400) m d = true)
    by (unfold valid_date, month_length in *; by rewrite leap_period).
  assert (Hc : civil_to_days (y0 + e * 400) m d = days).
  { unfold civil_to_days. rewrite year_start_period, Hms, He.
    change (year_start 1970) with 719528. lia. }
  split_and!; [|done|lia].
  destruct (decide (1970 ≤ y0 + e * 400)) as [|Hn]; [done|exfalso].
  (* a date before 1970 would lie before day 0 *)
  clear Hs. unfold valid_date in Hv'. rewrite andb_true_iff, !bool_decide_eq_true in Hv'.
  destruct Hv' as [Hm Hdd].
  revert Hc Hdd. unfold civil_to_days. generalize (y0 + e * 400) Hn. clear -Hd Hm.
  intros y Hy. assert (Hms : month_start y m + month_length y m ≤ year_start (y + 1) - year_start y).
  { rewrite year_start_succ. pose proof (month_end_year y m Hm). lia. }
  assert (year_start (y + 1) ≤ year_start 1970); [|lia].
  unfold year_start. lia.
Qed.

(** *** Printing and reading the fields *)
Lemma dec_uint_no_char c u :
  (c ∉ ["0"; "1"; "2"; "3"; "4"; "5"; "6"; "7"; "8"; "9"]%char) →
  Str.contains_char c (NilEmpty.string_of_uint u) = false.
Proof.
  intros Hc. induction u; cbn [NilEmpty.string_of_uint Str.contains_char]; rewrite ?IHu; try done.
  all: rewrite bool_decide_eq_false_2; [done|]; intros <-; apply Hc; set_solver.
Qed.

Lemma to_uint_nonnil n : N.to_uint n ≠ Decimal.Nil.
Proof. destruct n as [|p]; [done|]. apply DecimalPos.Unsigned.to_uint_nonnil. Qed.

Lemma dec_nil_empty n : dec n = NilEmpty.string_of_uint (N.to_uint (Z.to_N n)).
Proof.
  unfold dec, NilZero.string_of_uint. pose proof (to_uint_nonnil (Z.to_N n)).
  by destruct (N.to_uint (Z.to_N n)).
Qed.

Lemma zeros_no_char c k s :
  c ≠ "0"%char → Str.contains_char c s = false → Str.contains_char c (zeros k s) = false.
Proof.
  intros Hc Hs. induction k as [|k IH]; [done|]. cbn [zeros Str.contains_char]. rewrite IH.
  by rewrite bool_decide_eq_false_2.
Qed.

Lemma pad_no_char c w n :
  (c ∉ ["0"; "1"; "2"; "3"; "4"; "5"; "6"; "7"; "8"; "9"]%char) →
  Str.contains_char c (pad w n) = false.
Proof.
  intros Hc. unfold pad. apply zeros_no_char; [set_solver|].
  rewrite dec_nil_empty. by apply dec_uint_no_char.
Qed.

Lemma length_zeros k s : String.length (zeros k s) = (k + String.length s)%nat.
Proof. induction k as [|k IH]; [done|]. cbn [zeros String.length]. by rewrite IH. Qed.

Lemma length_pad w n : (w ≤ String.length (pad w n))%nat.
Proof. unfold pad. rewrite length_zeros. lia. Qed.

Lemma uint_of_zeros k s u :
  NilZero.uint_of_string s = Some u →
  NilZero.uint_of_string (zeros k s) = Some (Nat.iter k Decimal.D0 u).
Proof.
  assert (He : ∀ t v, NilZero.uint_of_string t = Some v → NilEmpty.uint_of_string t = Some v)
    by (intros [|??] ?; [done|by simpl]).
  intros Hs. induction k as [|k IH]; [done|].
  cbn [zeros Nat.iter]. unfold NilZero.uint_of_string. cbn [NilEmpty.uint_of_string].
  by rewrite (He _ _ IH).
Qed.

Lemma of_uint_zeros k u : N.of_uint (Nat.iter k Decimal.D0 u) = N.of_uint u.
Proof. induction k as [|k IH]; [done|]. exact IH. Qed.

Lemma parse_pad max w n : 0 ≤ n ≤ max → parse_uint max (pad w n) = Some n.
Proof.
  intros Hn. unfold parse_uint.
  assert (Hp : pad w n = match pad w n with
    String a s' => if decide (a = "+"%char) then s' else pad w n | EmptyString => pad w n end).
  { pose proof (pad_no_char "+" w n ltac:(set_solver)) as Hc. destruct (pad w n) as [|a s]; [done|].
    cbn [Str.contains_char] in Hc. apply orb_false_iff in Hc as [Hc%bool_decide_eq_false _].
    by rewrite decide_False. }
  rewrite <- Hp. unfold pad.
  rewrite (uint_of_zeros _ _ (N.to_uint (Z.to_N n))).
  2:{ unfold dec. apply NilZero.usu, to_uint_nonnil. }
  cbn [mbind option_bind]. rewrite of_uint_zeros, DecimalN.Unsigned.of_to, Z2N.id by lia.
  by rewrite decide_True by lia.
Qed.

Lemma parse_or_0_pad w n : u64 n → parse_or_0 (pad w n) = n.
Proof. intros Hn. unfold parse_or_0. by rewrite parse_pad. Qed.

(** [a c b], split at the separator *)
Lemma split_three c x y z :
  Str.contains_char c x = false → Str.contains_char c y = false → Str.contains_char c z = false →
  Str.split c (x +:+ String c (y +:+ String c z)) = [x; y; z].
Proof. intros. by rewrite !Str.split_cons, Str.split_no_sep. Qed.

(** The text [current_timestamp] writes for given fields reads back as these fields. *)
Lemma parse_formatted y m d h mi s :
  u64 y → u64 m → u64 d → u64 h → u64 mi → u64 s →
  parse_timestamp_to_epoch
    (pad 4 y +:+ "-" +:+ pad 2 m +:+ "-" +:+ pad 2 d +:+ "T" +:+
     pad 2 h +:+ ":" +:+ pad 2 mi +:+ ":" +:+ pad 2 s +:+ "Z")
  = fields_to_epoch y m d h mi s.
Proof.
  intros. unfold parse_timestamp_to_epoch.
  assert (Hlen : ∀ a b, String.length (a +:+ b) = (String.length a + String.length b)%nat).
  { intros a b. induction a as [|? ? IH]; [done|]. cbn. by rewrite IH. }
  rewrite decide_False.
  2:{ rewrite !Hlen. pose proof (length_pad 4 y). pose proof (length_pad 2 m).
      pose proof (length_pad 2 d). pose proof (length_pad 2 h). pose proof (length_pad 2 mi).
      pose proof (length_pad 2 s). simpl. lia. }
  set (date := pad 4 y +:+ String "-" (pad 2 m +:+ String "-" (pad 2 d))).
  set (time := pad 2 h +:+ String ":" (pad 2 mi +:+ String ":" (pad 2 s))).
  assert (Heq : pad 4 y +:+ "-" +:+ pad 2 m +:+ "-" +:+ pad 2 d +:+ "T" +:+
     pad 2 h +:+ ":" +:+ pad 2 mi +:+ ":" +:+ pad 2 s +:+ "Z"
     = date +:+ String "T" (time +:+ "Z")).
  { unfold date, time. do 6 (rewrite ?Str.app_assoc; cbn [String.append]). reflexivity. }
  rewrite Heq.
  assert (HT : Str.contains_char "T" date = false).
  { unfold date. repeat (rewrite Str.contains_char_app; cbn [Str.contains_char]).
    rewrite !pad_no_char by set_solver. done. }
  assert (HT' : Str.contains_char "T" (time +:+ "Z") = false).
  { unfold time. repeat (rewrite Str.contains_char_app; cbn [Str.contains_char]).
    rewrite !pad_no_char by set_solver. done. }
  assert (HZ : Str.contains_char "Z" time = false).
  { unfold time. repeat (rewrite Str.contains_char_app; cbn [Str.contains_char]).
    rewrite !pad_no_char by set_solver. done. }
  rewrite Str.split_cons, Str.split_no_sep by done.
  rewrite Str.trim_end_matches_one by done.
  unfold date, time. rewrite !split_three by (apply pad_no_char; set_solver).
  by rewrite !parse_or_0_pad.
Qed.

Lemma valid_date_range y m d : valid_date y m d = true → 1 ≤ m ≤ 12 ∧ 1 ≤ d ≤ 31.
Proof.
  unfold valid_date, month_length. rewrite andb_true_iff, !bool_decide_eq_true.
  intros [? ?]. split; [done|].
  destruct (is_leap_year y); repeat case_decide; lia.
Qed.

Lemma month_start_nonneg y m : 0 ≤ month_start y m.
Proof.
  unfold month_start. apply Z.add_nonneg_nonneg; [|case_decide; lia].
  destruct (nth_in_or_default (Z.to_nat m)
    [0; 0; 31; 59; 90; 120; 151; 181; 212; 243; 273; 304; 334] 0) as [Hin| ->]; [|lia].
  revert Hin. generalize (nth (Z.to_nat m)
    [0; 0; 31; 59; 90; 120; 151; 181; 212; 243; 273; 304; 334] 0). simpl. intros z Hz.
  clear m. repeat destruct Hz as [<-|Hz]; try lia.
Qed.

(** A year is at least 365 days long, so a day number bounds its year. *)
Lemma year_start_ge y :
  1970 ≤ y → ∀ m d, 1 ≤ d → valid_date y m d = true → y - 1970 ≤ civil_to_days y m d.
Proof.
  intros Hy m d Hd Hv. unfold civil_to_days. pose proof (month_start_nonneg y m).
  assert (y - 1970 ≤ year_start y - year_start 1970); [|lia].
  change (year_start 1970) with 719528. unfold year_start. lia.
Qed.

(** ** Theorems *)

(** C40. Reading a generation's timestamp gives back the second it was written at:
    for every clock value, [parse_timestamp_to_epoch] inverts [current_timestamp],
    across leap years and centuries, without wrapping and without indexing past the
    month table. *)
Theorem timestamp_roundtrip secs :
  u64 secs → parse_timestamp_to_epoch (current_timestamp (Some secs)) = Returns secs.
Proof.
  intros Hs. unfold current_timestamp.
  destruct (days_to_date (secs / 86400)) as [[y m] d] eqn:Ed.
  assert (Hd0 : 0 ≤ secs / 86400) by (destruct Hs; apply Z.div_pos; lia).
  destruct (days_to_date_civil _ _ _ _ Hd0 Ed) as (Hy & Hv & Hc).
  pose proof (valid_date_range _ _ _ Hv) as [Hm Hd].
  assert (Hdays : u64 (civil_to_days y m d)) by (rewrite Hc; unfold u64, u64_max in *; lia).
  assert (Hyb : y ≤ u64_max).
  { pose proof (year_start_ge y Hy m d ltac:(lia) Hv) as Hge. unfold u64, u64_max in *. lia. }
  rewrite parse_formatted by (unfold u64, u64_max in *; lia).
  rewrite fields_to_epoch_civil by done. rewrite Hc.
  f_equal. rewrite wrap64_small; unfold u64, u64_max in *; lia.
Qed.

Lemma timestamp_roundtrip_witness :
  u64 951827696 ∧
  current_timestamp (Some 951827696) = "2000-02-29T12:34:56Z" ∧
  parse_timestamp_to_epoch (current_timestamp (Some 951827696)) = Returns 951827696.
Proof.
  assert (H : u64 951827696) by (split; vm_compute; discriminate).
  split; [exact H|]. split; [vm_compute; reflexivity | exact (timestamp_roundtrip _ H)].
Defined.

(** The documented contract, 0 on a parse failure, does not hold for the month:
    in any text of the right shape a month number above 13 indexes past the month
    table, and the process aborts. *)
Theorem timestamp_month_overflow_panics date y mo d time h mi s :
  (19 ≤ String.length (date +:+ String "T" time))%nat →
  Str.contains_char "T" date = false → Str.contains_char "T" time = false →
  Str.split "-" date = [y; mo; d] →
  Str.split ":" (Str.trim_end_matches "Z" time) = [h; mi; s] →
  13 < parse_or_0 mo →
  parse_timestamp_to_epoch (date +:+ String "T" time) = Panics.
Proof.
  intros Hlen HT1 HT2 Hd Ht Hmo. unfold parse_timestamp_to_epoch. rewrite decide_False by lia.
  rewrite Str.split_cons, Str.split_no_sep by done. rewrite Hd, Ht.
  unfold fields_to_epoch. rewrite month_loop_panics; [done|lia|lia].
Qed.

Lemma timestamp_month_overflow_panics_witness :
  parse_timestamp_to_epoch "2026-14-01T00:00:00Z" = Panics.
Proof.
  apply (timestamp_month_overflow_panics "2026-14-01" "2026" "14" "01" "00:00:00Z" "00" "00" "00");
    vm_compute; try reflexivity; lia.
Defined.
