(* ===== verification/AllowList.v ===== *)
(** * The allow-list of the build sandbox: [build_proxy/allow_list.rs]

    [AllowList] and its prefix check, the lexical cleaning of paths, and the list that
    [build_allow_list] derives from a derivation.  A [HashSet<PathBuf>] is a [gset] of
    paths; the check only asks whether some entry matches, so the iteration order of the
    source does not matter. *)

From S2P Require Import Prelude RustStd.

Inductive Permission : Type :=
  | Denied
  | ReadOnly
  | ReadWrite.

#[export] Instance Permission_eq_dec : EqDecision Permission.
Proof. solve_decision. Defined.

Record AllowList : Type := mkAllowList {
  read_only : gset path;
  read_write : gset path;
}.

Module Allow.

(** ** [clean_path]: logical resolution of [.] and [..] *)
Definition clean_step (result : path) (c : component) : path :=
  match c with
  | ParentDir => Path.pop result
  | CurDir => result
  | c => Path.join result [c]
  end.

Definition clean_path (p : path) : path := foldl clean_step [] p.

Definition path_matches_prefix (p prefix : path) : bool :=
  let clean := clean_path p in
  bool_decide (clean = prefix) || Path.starts_with clean prefix.

Definition new : AllowList := mkAllowList ∅ ∅.

Definition check (l : AllowList) (p : path) : Permission :=
  if existsb (path_matches_prefix p) (elements (read_write l)) then ReadWrite
  else if existsb (path_matches_prefix p) (elements (read_only l)) then ReadOnly
  else Denied.

Definition can_read (l : AllowList) (p : path) : bool := bool_decide (check l p ≠ Denied).
Definition can_write (l : AllowList) (p : path) : bool := bool_decide (check l p = ReadWrite).

Definition all_prefixes (l : AllowList) : list path :=
  elements (read_only l) ++ elements (read_write l).

Definition normalize_path (s : string) : path :=
  let trimmed := Str.trim_end_matches "/" s in
  if decide (trimmed = "") then [RootDir] else Path.components trimmed.

Definition insert_ro (p : path) (l : AllowList) : AllowList :=
  mkAllowList ({[p]} ∪ read_only l) (read_write l).
Definition insert_rw (p : path) (l : AllowList) : AllowList :=
  mkAllowList (read_only l) ({[p]} ∪ read_write l).

(** ** [build_allow_list] *)

Definition SYSTEM_READ_ONLY_PATHS : list string :=
  ["/nix/system/profile"; "/nix/store"; "/usr/lib"; "/usr/src"; "/lib"; "/etc"; "/bin";
   "/usr/bin"].

Definition cc_wrapper_files : list string :=
  ["/tmp/.cc-wrapper-raw-args"; "/tmp/.cc-wrapper-stderr"; "/tmp/.cc-wrapper-shared-cmd";
   "/tmp/.cc-wrapper-last-err"].

(** The characters [add_arg_paths] trims from a token *)
Definition is_delim (c : ascii) : bool :=
  bool_decide (N_of_ascii c ∈ [39; 34; 59; 40; 41; 91; 93; 123; 125; 44]%N).

Definition add_token (l : AllowList) (token : string) : AllowList :=
  let trimmed := Str.trim_class is_delim token in
  if negb (Str.starts_with "/" trimmed) then l
  else
    let l := insert_ro (normalize_path trimmed) l in
    if Str.starts_with "/usr/src/" trimmed then
      let p := Path.components trimmed in
      let looks_like_file :=
        match Path.file_name p with Some name => Str.contains_char "." name | None => false end in
      if looks_like_file then
        match Path.parent p with
        | Some parent => insert_ro (normalize_path (Path.to_string parent)) l
        | None => l
        end
      else l
    else l.

Definition add_arg_paths (l : AllowList) (arg : string) : AllowList :=
  foldl add_token l (Str.split_whitespace arg).

Definition insert_all_ro (l : AllowList) (ps : list string) : AllowList :=
  foldl (λ l p, insert_ro (normalize_path p) l) l ps.
Definition insert_all_rw (l : AllowList) (ps : list string) : AllowList :=
  foldl (λ l p, insert_rw (normalize_path p) l) l ps.

(** The derivation is [nix_compat]'s: store paths are abstract, only their absolute
    text is used. *)
Class StorePathText (SP : Type) := to_absolute_path : SP → string.

Section build.
Context {SP : Type} {SPT : StorePathText SP}.

(** The fields of [Derivation] the list is built from *)
Record Derivation : Type := mkDerivation {
  builder : string;
  arguments : list string;
  environment : list (string * string);
  input_sources : list SP;
  input_derivations : list (SP * list string);
  outputs : list (string * option SP);
}.

(** [KnownPaths::get_drv_by_drvpath] *)
Variable get_drv_by_drvpath : SP → option Derivation.

Definition env_path (kv : string * string) : option string :=
  let '(key, val) := kv in
  if decide (key = "out") then None
  else if Str.utf8_valid val && Str.starts_with "/" val && negb (Str.contains_char " " val)
  then Some val else None.

(** [input_drv.outputs.get(output_name)] and its path *)
Definition output_path (drv : Derivation) (name : string) : option string :=
  match list_find (λ o, o.1 = name) (outputs drv) with
  | Some (_, (_, Some sp)) => Some (to_absolute_path sp)
  | _ => None
  end.

Definition input_outputs (input : SP * list string) : list string :=
  match get_drv_by_drvpath input.1 with
  | Some drv => omap (output_path drv) input.2
  | None => []
  end.

Definition build_allow_list (drv : Derivation) (output_dir tmp_dir : string) : AllowList :=
  let l := insert_all_rw new
    ([output_dir; tmp_dir] ++ cc_wrapper_files ++ ["/dev/null"; "/dev/zero"; "/dev/tty"]) in
  let l := insert_all_ro l (["/dev/urandom"; "/dev/random"] ++ SYSTEM_READ_ONLY_PATHS) in
  let l := if decide (builder drv = "") then l else insert_ro (normalize_path (builder drv)) l in
  let l := foldl add_arg_paths l (arguments drv) in
  let l := insert_all_ro l (omap env_path (environment drv)) in
  let l := insert_all_ro l (to_absolute_path <$> input_sources drv) in
  insert_all_ro l (input_derivations drv ≫= input_outputs).

End build.

(** ** Cleaning *)

(** A path that names its place directly: no [.] and no [..] *)
Definition is_plain (c : component) : bool :=
  match c with RootDir | Normal _ => true | CurDir | ParentDir => false end.

Definition plain (p : path) : bool := forallb is_plain p.

Lemma plain_app p q : plain (p ++ q) = plain p && plain q.
Proof. apply forallb_app. Qed.

Lemma plain_removelast p : plain p = true → plain (removelast p) = true.
Proof.
  destruct p as [|c p _] using rev_ind; [done|]. rewrite removelast_last, plain_app.
  by intros [? _]%andb_true_iff.
Qed.

Lemma plain_pop p : plain p = true → plain (Path.pop p) = true.
Proof.
  intros Hp. unfold Path.pop, Path.parent. destruct (last p) as [[]|]; simpl; try done;
    by apply plain_removelast.
Qed.

Lemma plain_clean_step p c : plain p = true → plain (clean_step p c) = true.
Proof.
  intros Hp. destruct c; simpl; [done|done|by apply plain_pop|].
  unfold Path.join. simpl. destruct p as [|d p]; [done|]. rewrite plain_app. by rewrite Hp.
Qed.

Lemma clean_plain p : plain (clean_path p) = true.
Proof.
  unfold clean_path. assert (H : plain [] = true) by done. revert H. generalize ([] : path).
  induction p as [|c p IH]; intros acc Hacc; [done|]. apply IH. by apply plain_clean_step.
Qed.

Lemma clean_path_app p q : clean_path (p ++ q) = foldl clean_step (clean_path p) q.
Proof. apply foldl_app. Qed.

(** Components that only descend *)
Lemma foldl_normal acc q :
  acc ≠ [] → Forall (λ c, ∃ s, c = Normal s) q → foldl clean_step acc q = acc ++ q.
Proof.
  intros Ha Hq. revert acc Ha. induction Hq as [|c q [s ->] _ IH]; intros acc Ha; simpl.
  - by rewrite app_nil_r.
  - unfold Path.join. simpl. destruct acc as [|d acc]; [done|].
    rewrite IH by done. by rewrite <- app_assoc.
Qed.

(** A path [components] produced, without [.] and [..], is its own cleaning. *)
Lemma wf_plain_cases p :
  Path.wf p → plain p = true →
  p = [] ∨ (∃ q, p = RootDir :: q ∧ Forall (λ c, ∃ s, c = Normal s) q)
  ∨ (∃ s q, p = Normal s :: q ∧ Forall (λ c, ∃ s, c = Normal s) q).
Proof.
  destruct p as [|c q]; [by left|]. intros [Hc Hq] Hp. simpl in Hp.
  apply andb_true_iff in Hp as [Hpc Hpq].
  assert (Hn : Forall (λ c, ∃ s, c = Normal s) q).
  { clear Hc Hpc. induction Hq as [|d q Hd _ IH]; [done|]. simpl in Hpq.
    apply andb_true_iff in Hpq as [Hd' Hpq]. constructor; [|by apply IH].
    destruct d; simpl in *; try done. by eexists. }
  destruct c; try done; eauto 6.
Qed.

Lemma clean_of_plain p : Path.wf p → plain p = true → clean_path p = p.
Proof.
  intros Hw Hp. destruct (wf_plain_cases p Hw Hp) as [->|[(q & -> & Hq)|(s & q & -> & Hq)]];
    [done| |]; unfold clean_path; simpl; unfold Path.join; simpl; by rewrite foldl_normal.
Qed.

(** Cleaning keeps a path well formed, so it is idempotent. *)
Lemma wf_pop p : Path.wf p → Path.wf (Path.pop p).
Proof.
  intros Hp. unfold Path.pop. destruct (Path.parent p) eqn:E; [|done]. simpl.
  by eapply Path.parent_wf.
Qed.

Lemma wf_clean_fold acc q :
  Path.wf acc → Forall Path.inner q → Path.wf (foldl clean_step acc q).
Proof.
  intros Ha Hq. revert acc Ha. induction Hq as [|c q Hc _ IH]; intros acc Ha; [done|].
  simpl. apply IH. destruct c; try done; simpl.
  - by apply wf_pop.
  - unfold Path.join. simpl. destruct acc as [|d acc]; [by split|].
    apply Path.wf_app; [done|]. by constructor.
Qed.

Lemma wf_clean p : Path.wf p → Path.wf (clean_path p).
Proof.
  destruct p as [|c q]; [done|]. intros [Hc Hq]. unfold clean_path. simpl.
  apply wf_clean_fold; [|done]. by destruct c.
Qed.

Lemma clean_path_idemp p : Path.wf p → clean_path (clean_path p) = clean_path p.
Proof. intros. apply clean_of_plain; [by apply wf_clean | apply clean_plain]. Qed.

(** ** The check *)
Lemma matches_spec p e : path_matches_prefix p e = true ↔ e `prefix_of` clean_path p.
Proof.
  unfold path_matches_prefix. rewrite orb_true_iff, bool_decide_eq_true, Path.path_starts_with_spec.
  split; [intros [-> |?]; done | by right].
Qed.

Lemma exists_matches_spec (p : path) (s : gset path) :
  existsb (path_matches_prefix p) (elements s) = true ↔ ∃ e, e ∈ s ∧ e `prefix_of` clean_path p.
Proof.
  rewrite existsb_exists. split; intros (e & He & Hm); exists e.
  - apply list_elem_of_In, elem_of_elements in He. by apply matches_spec in Hm.
  - split; [by apply list_elem_of_In, elem_of_elements | by apply matches_spec].
Qed.

Definition covered (s : gset path) (p : path) : Prop := ∃ e, e ∈ s ∧ e `prefix_of` p.

Lemma check_rw l p : check l p = ReadWrite ↔ covered (read_write l) (clean_path p).
Proof.
  unfold check, covered. rewrite <- exists_matches_spec.
  destruct (existsb _ (elements (read_write l))); [done|].
  split; [by destruct (existsb _ _)|done].
Qed.

Lemma check_ro l p :
  check l p = ReadOnly ↔
  ¬ covered (read_write l) (clean_path p) ∧ covered (read_only l) (clean_path p).
Proof.
  unfold check, covered. rewrite <- !exists_matches_spec, not_true_iff_false.
  destruct (existsb _ (elements (read_write l))); [naive_solver|].
  destruct (existsb _ _); naive_solver.
Qed.

Lemma check_denied l p :
  check l p = Denied ↔
  ¬ covered (read_write l) (clean_path p) ∧ ¬ covered (read_only l) (clean_path p).
Proof.
  unfold check, covered. rewrite <- !exists_matches_spec, !not_true_iff_false.
  destruct (existsb _ (elements (read_write l))); [naive_solver|].
  destruct (existsb _ _); naive_solver.
Qed.

Lemma can_write_spec l p : can_write l p = true ↔ check l p = ReadWrite.
Proof. apply bool_decide_eq_true. Qed.

Lemma can_read_spec l p : can_read l p = true ↔ check l p ≠ Denied.
Proof. apply bool_decide_eq_true. Qed.

(** Below a writable path everything is writable. *)
Lemma check_rw_extend l p q :
  check l p = ReadWrite → clean_path p ≠ [] →
  Forall (λ c, ∃ s, c = Normal s) q → check l (p ++ q) = ReadWrite.
Proof.
  rewrite !check_rw. intros (e & He & Hpre) Hne Hq. exists e. split; [done|].
  rewrite clean_path_app, foldl_normal by done. by apply prefix_app_r.
Qed.

(** ** What [build_allow_list] grants *)
Section grants.
Context {SP : Type} {SPT : StorePathText SP}.

Lemma add_token_rw l t : read_write (add_token l t) = read_write l.
Proof. unfold add_token. by repeat split_match. Qed.

Lemma add_arg_paths_rw l a : read_write (add_arg_paths l a) = read_write l.
Proof.
  unfold add_arg_paths. revert l. induction (Str.split_whitespace a) as [|t ts IH]; intros l; [done|].
  simpl. by rewrite IH, add_token_rw.
Qed.

Lemma foldl_arg_paths_rw l args : read_write (foldl add_arg_paths l args) = read_write l.
Proof.
  revert l. induction args as [|a args IH]; intros l; [done|]. simpl.
  by rewrite IH, add_arg_paths_rw.
Qed.

Lemma insert_all_ro_rw l ps : read_write (insert_all_ro l ps) = read_write l.
Proof. unfold insert_all_ro. revert l. induction ps as [|p ps IH]; intros l; [done|]. simpl. by rewrite IH. Qed.

Lemma insert_all_ro_ro l ps :
  read_only (insert_all_ro l ps) = list_to_set (normalize_path <$> ps) ∪ read_only l.
Proof.
  unfold insert_all_ro. revert l. induction ps as [|p ps IH]; intros l; simpl; [set_solver|].
  rewrite IH. simpl. set_solver.
Qed.

Lemma insert_all_rw_rw l ps :
  read_write (insert_all_rw l ps) = list_to_set (normalize_path <$> ps) ∪ read_write l.
Proof.
  unfold insert_all_rw. revert l. induction ps as [|p ps IH]; intros l; simpl; [set_solver|].
  rewrite IH. simpl. set_solver.
Qed.

Lemma insert_all_rw_ro l ps : read_only (insert_all_rw l ps) = read_only l.
Proof. unfold insert_all_rw. revert l. induction ps as [|p ps IH]; intros l; [done|]. simpl. by rewrite IH. Qed.

Lemma add_token_ro l t : read_only l ⊆ read_only (add_token l t).
Proof. unfold add_token. repeat split_match; simpl; set_solver. Qed.

Lemma foldl_arg_paths_ro l args : read_only l ⊆ read_only (foldl add_arg_paths l args).
Proof.
  revert l. induction args as [|a args IH]; intros l; [done|]. simpl. etrans; [|apply IH].
  unfold add_arg_paths. clear IH. revert l.
  induction (Str.split_whitespace a) as [|t ts IH]; intros l; [done|]. simpl.
  etrans; [apply add_token_ro | apply IH].
Qed.

Lemma add_arg_paths_mono l a : read_only l ⊆ read_only (add_arg_paths l a).
Proof.
  unfold add_arg_paths. revert l. induction (Str.split_whitespace a) as [|t ts IH]; intros l; [done|].
  simpl. etrans; [apply add_token_ro | apply IH].
Qed.

Lemma add_arg_paths_elem (e : path) l a t :
  t ∈ Str.split_whitespace a → (∀ l, e ∈ read_only (add_token l t)) →
  e ∈ read_only (add_arg_paths l a).
Proof.
  intros Ht He. unfold add_arg_paths. revert l Ht.
  induction (Str.split_whitespace a) as [|u us IH]; intros l Ht; [by apply not_elem_of_nil in Ht|].
  simpl. apply elem_of_cons in Ht as [<-|Ht]; [|by apply IH].
  clear IH. specialize (He l). revert He. generalize (add_token l t). clear l.
  induction us as [|u us IH]; intros l He; [done|]. simpl. apply IH. by apply add_token_ro.
Qed.

Lemma foldl_arg_paths_elem (e : path) l args a :
  a ∈ args → (∀ l, e ∈ read_only (add_arg_paths l a)) →
  e ∈ read_only (foldl add_arg_paths l args).
Proof.
  intros Ha He. revert l. induction args as [|b args IH]; intros l; [by apply not_elem_of_nil in Ha|].
  simpl. apply elem_of_cons in Ha as [<-|Ha]; [|by apply IH].
  eapply foldl_arg_paths_ro. apply He.
Qed.

(** An absolute path stays absolute when it is cleaned. *)
Lemma root_prefix q : [RootDir] `prefix_of` clean_path (RootDir :: q).
Proof.
  unfold clean_path. simpl. change (Path.join [] [RootDir]) with [RootDir].
  assert (H : [RootDir] `prefix_of` [RootDir]) by done. revert H.
  generalize [RootDir] at 2 4. induction q as [|c q IH]; intros acc Ha; [done|].
  simpl. apply IH. destruct Ha as [acc' ->]. destruct c; simpl.
  - by exists [].
  - by exists acc'.
  - unfold Path.pop, Path.parent. destruct acc' as [|d acc'] using rev_ind; [by exists []|].
    rewrite app_comm_cons. rewrite last_snoc, removelast_last. destruct d; simpl; eauto.
    all: try by exists acc'. by exists (acc' ++ [RootDir]).
  - by exists (acc' ++ [Normal s]).
Qed.

End grants.

End Allow.

(** ** Theorems *)
Section theorems.
Context {SP : Type} {SPT : Allow.StorePathText SP}.
Variable get_drv_by_drvpath : SP → option (@Allow.Derivation SP).

(** The nine places a builder may write *)
Definition writable_roots (output_dir tmp_dir : string) : list string :=
  [output_dir; tmp_dir] ++ Allow.cc_wrapper_files ++ ["/dev/null"; "/dev/zero"; "/dev/tty"].

(** The input paths a builder must be able to read *)
Definition readable_inputs (drv : @Allow.Derivation SP) : list string :=
  (Allow.to_absolute_path <$> Allow.input_sources drv)
  ++ (Allow.input_derivations drv ≫= Allow.input_outputs get_drv_by_drvpath).

Lemma build_rw drv out tmp :
  read_write (Allow.build_allow_list get_drv_by_drvpath drv out tmp)
  = list_to_set (Allow.normalize_path <$> writable_roots out tmp).
Proof.
  unfold Allow.build_allow_list. rewrite !Allow.insert_all_ro_rw, Allow.foldl_arg_paths_rw.
  assert (Hif : ∀ l, read_write (if decide (Allow.builder drv = "") then l
    else Allow.insert_ro (Allow.normalize_path (Allow.builder drv)) l) = read_write l)
    by (intros; by case_decide).
  rewrite Hif, Allow.insert_all_ro_rw, Allow.insert_all_rw_rw. simpl. set_solver.
Qed.

Lemma build_ro drv out tmp s :
  s ∈ readable_inputs drv →
  Allow.normalize_path s ∈ read_only (Allow.build_allow_list get_drv_by_drvpath drv out tmp).
Proof.
  unfold Allow.build_allow_list, readable_inputs. intros [Hs|Hs]%elem_of_app;
    rewrite !Allow.insert_all_ro_ro; apply (list_elem_of_fmap_2 Allow.normalize_path) in Hs;
    apply (elem_of_list_to_set (C := gset path)) in Hs; set_solver.
Qed.

Lemma covered_roots ss (t : path) :
  Allow.covered (list_to_set (Allow.normalize_path <$> ss)) t
  ↔ ∃ s, s ∈ ss ∧ Allow.normalize_path s `prefix_of` t.
Proof.
  unfold Allow.covered. split.
  - intros (e & He & Hp). apply elem_of_list_to_set, list_elem_of_fmap in He as (s & -> & Hs). eauto.
  - intros (s & Hs & Hp). exists (Allow.normalize_path s). split; [|done].
    apply elem_of_list_to_set. by apply list_elem_of_fmap_2.
Qed.

End theorems.

(** The sandbox decides by the lexical target of a path: for every text, the check
    gives the verdict of the target, which holds no [..]; the target is writable exactly
    when it lies under a read-write entry, readable exactly when it lies under some
    entry, and denied otherwise. *)
Theorem allow_check_lexical l s :
  let p := Path.components s in
  let t := Allow.clean_path p in
  Allow.plain t = true ∧ Allow.check l t = Allow.check l p
  ∧ (Allow.can_write l p = true ↔ Allow.covered (read_write l) t)
  ∧ (Allow.can_read l p = true ↔ Allow.covered (read_write l) t ∨ Allow.covered (read_only l) t).
Proof.
  intros p t. pose proof (Allow.clean_path_idemp p (Path.components_wf s)) as Hi.
  split_and!.
  - apply Allow.clean_plain.
  - unfold t, Allow.check, Allow.path_matches_prefix. by rewrite Hi.
  - rewrite Allow.can_write_spec. apply Allow.check_rw.
  - rewrite Allow.can_read_spec.
    destruct (Allow.check l p) eqn:E.
    + apply Allow.check_denied in E. naive_solver.
    + apply Allow.check_ro in E. naive_solver.
    + apply Allow.check_rw in E. naive_solver.
Qed.

(** Whatever a derivation's arguments, environment and inputs say, a builder can
    write exactly under its output directory, its temporary directory, the four log
    files of the compiler wrapper and the three devices; and it can read everything
    under its input sources and under the resolved outputs of its input derivations. *)
Theorem build_allow_list_grants {SP} `{Allow.StorePathText SP} get_drv drv out tmp p :
  let l := Allow.build_allow_list get_drv drv out tmp in
  (Allow.can_write l p = true
   ↔ ∃ root, root ∈ writable_roots out tmp ∧ Allow.normalize_path root `prefix_of` Allow.clean_path p)
  ∧ ((∃ input, input ∈ readable_inputs get_drv drv
       ∧ Allow.normalize_path input `prefix_of` Allow.clean_path p) → Allow.can_read l p = true).
Proof.
  intros l. split.
  - rewrite Allow.can_write_spec, Allow.check_rw. unfold l. rewrite build_rw. apply covered_roots.
  - intros (s & Hs & Hp). rewrite Allow.can_read_spec. intros Hd.
    apply Allow.check_denied in Hd as [_ Hd]. apply Hd.
    exists (Allow.normalize_path s). split; [by apply build_ro|done].
Qed.

(** One token of a builder argument that trims to [/] (as in [cd /; make], or
    [find / -name x]) puts the root directory on the list: the builder can read every
    absolute path of the host. *)
Theorem root_token_reads_everything {SP} `{Allow.StorePathText SP} get_drv drv out tmp arg token q :
  arg ∈ Allow.arguments drv → token ∈ Str.split_whitespace arg →
  Str.trim_class Allow.is_delim token = "/" →
  Allow.can_read (Allow.build_allow_list get_drv drv out tmp) (RootDir :: q) = true.
Proof.
  intros Ha Ht Htrim. rewrite Allow.can_read_spec. intros [_ Hd]%Allow.check_denied.
  apply Hd. exists [RootDir]. split; [|by apply Allow.root_prefix].
  unfold Allow.build_allow_list. rewrite !Allow.insert_all_ro_ro.
  do 3 apply elem_of_union_r. eapply Allow.foldl_arg_paths_elem; [done|].
  intros l. eapply Allow.add_arg_paths_elem; [done|]. intros l'.
  unfold Allow.add_token. rewrite Htrim. simpl. set_solver.
Qed.

Module AllowDemo.

#[local] Instance text_is_path : Allow.StorePathText string := λ s, s.

Definition drv : Allow.Derivation :=
  Allow.mkDerivation "/nix/store/bash/bin/bash" ["-c"; "cd /; make"] [("out", "/nix/store/out")]
    ["/data/src"] [("/nix/store/dep.drv", ["out"])] [].

Definition dep : Allow.Derivation :=
  Allow.mkDerivation "" [] [] [] [] [("out", Some "/opt/dep")].

Definition get_drv (p : string) : option Allow.Derivation :=
  if decide (p = "/nix/store/dep.drv") then Some dep else None.

Lemma root_token_reads_everything_witness :
  Allow.can_read (Allow.build_allow_list get_drv drv "/nix/store/out" "/tmp/b")
    (Path.components "/root/secret") = true.
Proof.
  change (Path.components "/root/secret") with (RootDir :: [Normal "root"; Normal "secret"]).
  apply (root_token_reads_everything get_drv drv _ _ "cd /; make" "/;"); vm_compute; set_solver.
Defined.

Lemma build_allow_list_grants_witness :
  Allow.can_write (Allow.build_allow_list get_drv drv "/nix/store/out" "/tmp/b")
    (Path.components "/nix/store/out/../other/f") = false
  ∧ Allow.can_write (Allow.build_allow_list get_drv drv "/nix/store/out" "/tmp/b")
      (Path.components "/nix/store/dep/../out/f") = true
  ∧ Allow.can_read (Allow.build_allow_list get_drv dep "/nix/store/out" "/tmp/b")
      (Path.components "/nix/store/out/../../../root/f") = false.
Proof.
  split; [vm_compute; reflexivity|]. split; [|vm_compute; reflexivity].
  apply (build_allow_list_grants get_drv drv "/nix/store/out" "/tmp/b").
  exists "/nix/store/out". split; [set_solver|].
  exists [Normal "f"]. vm_compute. reflexivity.
Defined.

End AllowDemo.
