(* ===== verification/HandleId.v ===== *)
(** * Handle numbers

    The scheme daemons of the repository number their open handles with the same loop
    ([alloc_id] of [stored/handles.rs], [profiled/handles.rs], [build_proxy/handler.rs]
    and [virtio-fsd/src/scheme.rs]): count up, wrap before the range the kernel reserves
    for error codes, skip numbers in use. *)

From S2P Require Import Prelude.

Open Scope Z_scope.

Definition MAX_HANDLE_ID : Z := usize_max - 4096.

Section alloc.
Context {H : Type}.
Implicit Types (handles : gmap Z H).

(** One round of the loop: the candidate and the advanced counter *)
Definition advance (next_id : Z) : Z :=
  if decide (MAX_HANDLE_ID ≤ next_id) then 1 else next_id + 1.

Definition usable handles (id : Z) : bool :=
  bool_decide (1 ≤ id ≤ MAX_HANDLE_ID) && bool_decide (handles !! id = None).

(** The loop, [None] when [fuel] rounds do not end it *)
Fixpoint alloc_loop (fuel : nat) handles (next_id : Z) : option (Z * Z) :=
  match fuel with
  | O => None
  | S fuel' =>
      let id := next_id in
      let next_id := advance next_id in
      if usable handles id then Some (id, next_id) else alloc_loop fuel' handles next_id
  end.

(** Enough rounds: one per handle that can be in the way, one for a counter outside
    the range, one to succeed *)
Definition alloc_fuel handles : nat := S (S (size handles)).

Lemma usable_spec handles id :
  usable handles id = true ↔ 1 ≤ id ≤ MAX_HANDLE_ID ∧ handles !! id = None.
Proof. unfold usable. by rewrite andb_true_iff, !bool_decide_eq_true. Qed.

Lemma alloc_loop_sound fuel handles next id next' :
  alloc_loop fuel handles next = Some (id, next') →
  1 ≤ id ≤ MAX_HANDLE_ID ∧ handles !! id = None ∧ 1 ≤ next' ≤ MAX_HANDLE_ID.
Proof.
  revert next. induction fuel as [|fuel IH]; intros next; simpl; [done|].
  destruct (usable handles next) eqn:E; [|apply IH].
  intros [= <- <-]. apply usable_spec in E as [? ?]. split_and!; try done; try lia;
    unfold advance; case_decide; unfold MAX_HANDLE_ID, usize_max in *; lia.
Qed.

(** Where the counter stands after [k] rounds, starting inside the range *)
Lemma iter_advance k n :
  1 ≤ n ≤ MAX_HANDLE_ID →
  Nat.iter k advance n = (n - 1 + Z.of_nat k) `mod` MAX_HANDLE_ID + 1.
Proof.
  intros Hn. induction k as [|k IH]; simpl.
  - rewrite Z.mod_small; unfold MAX_HANDLE_ID, usize_max in *; lia.
  - rewrite IH. unfold advance.
    assert (HM : 0 < MAX_HANDLE_ID) by (unfold MAX_HANDLE_ID, usize_max; lia).
    replace (n - 1 + Z.of_nat (S k)) with (n - 1 + Z.of_nat k + 1) by lia.
    generalize (n - 1 + Z.of_nat k). intros a. revert HM. generalize MAX_HANDLE_ID. intros M HM.
    pose proof (Z.mod_pos_bound a M HM).
    rewrite (Z.add_mod a 1) by lia. case_decide as Hc.
    + assert (Ha : a `mod` M = M - 1) by lia. rewrite Ha.
      destruct (decide (M = 1)) as [->|]; [by rewrite Z.mod_1_r|].
      rewrite (Z.mod_small 1) by lia. replace (M - 1 + 1) with M by lia.
      rewrite Z.mod_same by lia. done.
    + rewrite (Z.mod_small 1 M) by lia. by rewrite (Z.mod_small (a `mod` M + 1)) by lia.
Qed.

Lemma alloc_loop_fail fuel handles n :
  alloc_loop fuel handles n = None →
  ∀ k, (k < fuel)%nat → usable handles (Nat.iter k advance n) = false.
Proof.
  revert n. induction fuel as [|fuel IH]; intros n; simpl; [lia|].
  destruct (usable handles n) eqn:E; [done|]. intros Hl [|k] Hk; [done|].
  rewrite Nat.iter_succ_r. apply IH; [done|lia].
Qed.

(** The loop ends: among the next [size handles + 1] numbers one is free. *)
Lemma alloc_loop_in_range handles n fuel :
  1 ≤ n ≤ MAX_HANDLE_ID → Z.of_nat (size handles) < MAX_HANDLE_ID →
  (size handles < fuel)%nat → is_Some (alloc_loop fuel handles n).
Proof.
  intros Hn Hsz Hf. destruct (alloc_loop fuel handles n) eqn:E; [by eexists|exfalso].
  pose proof (alloc_loop_fail _ _ _ E) as Hu.
  set (ids := (λ k, Nat.iter k advance n) <$> seq 0 (S (size handles))).
  assert (HM : 0 < MAX_HANDLE_ID) by (unfold MAX_HANDLE_ID, usize_max; lia).
  assert (Hnd : NoDup ids).
  { apply NoDup_fmap_2_strong; [|apply NoDup_seq].
    intros i j Hi Hj Hij. apply elem_of_seq in Hi, Hj. rewrite !iter_advance in Hij by done.
    assert (Hm : (n - 1 + Z.of_nat i) `mod` MAX_HANDLE_ID = (n - 1 + Z.of_nat j) `mod` MAX_HANDLE_ID)
      by lia. clear Hij Hu E. revert Hm Hn HM Hsz Hi Hj. generalize MAX_HANDLE_ID. intros M ??????.
    assert (Hd : (n - 1 + Z.of_nat i - (n - 1 + Z.of_nat j)) `mod` M = 0)
      by (rewrite Zminus_mod, Hm, Z.sub_diag; apply Z.mod_0_l; lia).
    apply Z.mod_divide in Hd as [q Hq]; [|lia].
    assert (q = 0) by nia. lia. }
  assert (Hsub : ids ⊆+ elements (dom handles)).
  { apply NoDup_submseteq; [done|]. intros x Hx. apply list_elem_of_fmap in Hx as (k & -> & Hk).
    apply elem_of_seq in Hk. apply elem_of_elements, elem_of_dom.
    specialize (Hu k ltac:(lia)). apply not_true_iff_false in Hu. rewrite usable_spec in Hu.
    destruct (handles !! Nat.iter k advance n) eqn:El; [by eexists|]. exfalso. apply Hu.
    split; [|done]. rewrite iter_advance by done.
    pose proof (Z.mod_pos_bound (n - 1 + Z.of_nat k) MAX_HANDLE_ID HM). lia. }
  apply submseteq_length in Hsub. unfold ids in Hsub.
  rewrite length_fmap, length_seq in Hsub. change (length (elements (dom handles))) with (size (dom handles)) in Hsub.
  rewrite size_dom in Hsub. lia.
Qed.

(** For any counter the loop ends within its fuel. *)
Lemma alloc_loop_total handles next :
  u64 next → Z.of_nat (size handles) < MAX_HANDLE_ID →
  is_Some (alloc_loop (alloc_fuel handles) handles next).
Proof.
  intros Hu Hs. unfold alloc_fuel. cbn [alloc_loop].
  destruct (usable handles next) eqn:E; [by eexists|].
  destruct (decide (1 ≤ next ≤ MAX_HANDLE_ID)) as [Hin|Hout].
  - assert (Ha : is_Some (alloc_loop (S (S (size handles))) handles next))
      by (apply alloc_loop_in_range; [done|done|lia]).
    cbn [alloc_loop] in Ha. by rewrite E in Ha.
  - apply (alloc_loop_in_range handles (advance next) (S (size handles))); [|done|lia].
    unfold u64, advance, MAX_HANDLE_ID, u64_max, usize_max in *. case_decide; lia.
Qed.

End alloc.

(** Whatever the counter holds and whatever handles are open (fewer than the
    numbers there are), the allocation loop ends, within [size handles + 2] rounds; it
    returns a number that no open handle has, outside the range of error codes, and
    leaves the counter in range. *)
Theorem alloc_id_fresh {H} (handles : gmap Z H) next :
  u64 next → Z.of_nat (size handles) < MAX_HANDLE_ID →
  ∃ id next', alloc_loop (alloc_fuel handles) handles next = Some (id, next')
    ∧ 1 ≤ id ≤ MAX_HANDLE_ID ∧ handles !! id = None ∧ 1 ≤ next' ≤ MAX_HANDLE_ID.
Proof.
  intros Hn Hs. destruct (alloc_loop_total handles next Hn Hs) as [[id next'] E].
  exists id, next'. split; [done|]. by apply alloc_loop_sound in E.
Qed.

Lemma alloc_id_fresh_witness :
  let handles : gmap Z unit := {[ MAX_HANDLE_ID := (); 1 := (); 2 := () ]} in
  alloc_loop (alloc_fuel handles) handles MAX_HANDLE_ID = Some (3, 4)
  ∧ ∃ id next', alloc_loop (alloc_fuel handles) handles MAX_HANDLE_ID = Some (id, next')
      ∧ 1 ≤ id ≤ MAX_HANDLE_ID ∧ handles !! id = None ∧ 1 ≤ next' ≤ MAX_HANDLE_ID.
Proof.
  intros handles. split; [vm_compute; reflexivity|].
  apply (alloc_id_fresh handles MAX_HANDLE_ID);
    [split; vm_compute; discriminate | vm_compute; reflexivity].
Defined.
