(* ===== verification/ProxyIo.v ===== *)
(** * The build proxy's side of the I/O worker, and its open flags

    [build_proxy/io_worker.rs] performs every real file operation on its own thread; the
    scheme handler only sends it requests and waits for the answers.  [IoRequest] lists
    the requests, each indexed by the type of its answer, and a handler operation is a
    tree of requests ([prog]): what it asks next depends on the answers.  A property of
    an operation is proved for every answer the worker can give. *)

From S2P Require Import Prelude RustStd.

Open Scope Z_scope.

(** The errors the schemes make or compare, and the others *)
Inductive errno : Set :=
  | EACCES | EBADF | EIO | EISDIR | ENOENT | ENOTDIR | EOPNOTSUPP | EEXIST
  | EPERM | ENOMEM | EBUSY | EINVAL | ENOSPC | ERANGE | ENAMETOOLONG | ENOSYS | ENOTEMPTY | ELOOP
  | EOther (code : Z).

Record Stat : Set := mkStat {
  st_mode : Z; st_size : Z; st_nlink : Z; st_uid : Z; st_gid : Z;
  st_atime : Z; st_mtime : Z; st_ctime : Z; st_blksize : Z; st_blocks : Z;
  st_dev : Z; st_ino : Z;
}.

Inductive DirentKind : Set :=
  | KindUnspecified | KindDirectory | KindRegular | KindSymlink | KindOther (raw : Z).

Record OpenPathResult : Set := mkOpenPathResult { stat : Stat; resolved_path : path }.
Record WriteResult : Set := mkWriteResult { bytes_written : Z; end_offset : Z }.
Record MmapResult : Set := mkMmapResult { token : Z; base_addr : Z }.

Inductive IoRequest : Set → Type :=
  | OpenPath (p : path) (flags : Z) : IoRequest (result errno OpenPathResult)
  | EnsureDirTree (p : path) : IoRequest (result errno unit)
  | ReadAt (p : path) (offset len : Z) (symlink : bool) : IoRequest (result errno string)
  | WriteAt (p : path) (offset : Z) (append symlink : bool) (data : string)
      : IoRequest (result errno WriteResult)
  | StatPath (p : path) (directory : bool) : IoRequest (result errno Stat)
  | ChmodPath (p : path) (directory : bool) (new_mode : Z) : IoRequest (result errno unit)
  | TruncatePath (p : path) (len : Z) (symlink : bool) : IoRequest (result errno unit)
  | ReadDir (p : path) : IoRequest (result errno (list (string * DirentKind)))
  | ResolvePath (p : path) : IoRequest (result errno path)
  | RenamePath (old_path new_path : path) : IoRequest (result errno unit)
  | LinkPath (old_path new_path : path) : IoRequest (result errno unit)
  | UnlinkPath (p : path) (directory : bool) : IoRequest (result errno unit)
  | MmapPath (p : path) (offset size flags : Z) : IoRequest (result errno MmapResult)
  | MunmapToken (token : Z) : IoRequest (result errno unit).

(** ** Programs that talk to the worker

    [Hang] is a loop of the handler that does not end. *)
Inductive prog (A : Type) : Type :=
  | Ret (a : A)
  | Req {X : Set} (r : IoRequest X) (k : X → prog A)
  | Hang.
Arguments Ret {A} a.
Arguments Req {A X} r k.
Arguments Hang {A}.

Fixpoint prog_bind {A B} (m : prog A) (f : A → prog B) : prog B :=
  match m with
  | Ret a => f a
  | Req r k => Req r (λ x, prog_bind (k x) f)
  | Hang => Hang
  end.

(** Every request satisfies [ok] whatever the answers to the earlier ones, as long as
    they satisfy [ans]; the operation ends, and its result satisfies [post]. *)
Fixpoint wp {A} (ok : ∀ X, IoRequest X → Prop) (ans : ∀ X, IoRequest X → X → Prop)
    (m : prog A) (post : A → Prop) : Prop :=
  match m with
  | Ret a => post a
  | Req r k => ok _ r ∧ ∀ x, ans _ r x → wp ok ans (k x) post
  | Hang => False
  end.

Lemma wp_bind {A B} ok ans (m : prog A) (f : A → prog B) post :
  wp ok ans m (λ a, wp ok ans (f a) post) → wp ok ans (prog_bind m f) post.
Proof.
  induction m as [a|X r k IH|]; simpl; [done| |done].
  intros [Hr Hk]. split; [done|]. intros x Hx. by apply IH, Hk.
Qed.

Lemma wp_mono {A} ok ans (m : prog A) (P Q : A → Prop) :
  (∀ a, P a → Q a) → wp ok ans m P → wp ok ans m Q.
Proof.
  intros HPQ. induction m as [a|X r k IH|]; simpl; [apply HPQ| |done].
  intros [Hr Hk]. split; [done|]. intros x Hx. by apply IH, Hk.
Qed.

(** A worker with state [W], and the run of a program against it, with the requests made *)
Section run.
Context {W : Type}.
Variable worker : ∀ X, IoRequest X → W → X * W.

Fixpoint run {A} (m : prog A) (w : W) : option (A * W * list {X & IoRequest X}) :=
  match m with
  | Ret a => Some (a, w, [])
  | Req r k =>
      let '(x, w') := worker _ r w in
      '(a, w'', trace) ← run (k x) w';
      Some (a, w'', existT _ r :: trace)
  | Hang => None
  end.

(** What [wp] promises holds of every run against a worker whose answers are allowed. *)
Lemma wp_run {A} (ok : ∀ X, IoRequest X → Prop) (ans : ∀ X, IoRequest X → X → Prop)
    (m : prog A) (post : A → Prop) :
  (∀ X (r : IoRequest X) w, ans X r (worker X r w).1) →
  wp ok ans m post → ∀ w, ∃ a w' trace,
    run m w = Some (a, w', trace) ∧ post a ∧ Forall (λ r, ok _ (projT2 r)) trace.
Proof.
  intros Hw. induction m as [a|X r k IH|]; simpl; [| |done].
  - intros Hp w. exists a, w, []. done.
  - intros [Hr Hk] w. pose proof (Hw X r w) as Ha. destruct (worker X r w) as [x w1].
    destruct (IH x (Hk x Ha) w1) as (a & w' & trace & Hrun & Hp & Hf).
    rewrite Hrun. simpl. exists a, w', (existT X r :: trace). split_and!; try done. by constructor.
Qed.
End run.

(** ** Open flags

    The values [translate_open_flags] documents; the remaining constants of the system
    call interface are parameters. *)
Definition O_RDONLY : Z := 0x00010000.
Definition O_WRONLY : Z := 0x00020000.
Definition O_RDWR : Z := 0x00030000.
Definition O_APPEND : Z := 0x00080000.
Definition O_CREAT : Z := 0x02000000.
Definition O_TRUNC : Z := 0x04000000.
Definition O_EXCL : Z := 0x08000000.
Definition O_DIRECTORY : Z := 0x10000000.
Definition O_ACCMODE : Z := 0x00030000.

Class SyscallAbi := {
  O_SYMLINK : Z;
  MODE_PERM : Z;
  MODE_DIR : Z;
  AT_REMOVEDIR : Z;
  PAGE_SIZE : Z;
  F_DUPFD : Z; F_DUPFD_CLOEXEC : Z; F_GETFD : Z; F_SETFD : Z; F_GETFL : Z; F_SETFL : Z;
  EVENT_READ : Z; EVENT_WRITE : Z;
  PROT_WRITE : Z; PROT_EXEC : Z; MAP_SHARED : Z;
}.

(** The documented values of redox_syscall 0.7 *)
Definition redox_abi : SyscallAbi := {|
  O_SYMLINK := 0x40000000; MODE_PERM := 0x0FFF; MODE_DIR := 0x4000; AT_REMOVEDIR := 0x200;
  PAGE_SIZE := 4096; F_DUPFD := 0; F_GETFD := 1; F_SETFD := 2; F_GETFL := 3; F_SETFL := 4;
  F_DUPFD_CLOEXEC := 1030; EVENT_READ := 1; EVENT_WRITE := 2;
  PROT_WRITE := 0x20000; PROT_EXEC := 0x10000; MAP_SHARED := 0x1 |}.

Record OpenFlags : Type := mkOpenFlags {
  of_read : bool; of_write : bool; of_create : bool; of_truncate : bool;
  of_exclusive : bool; of_append : bool; of_directory : bool; of_symlink : bool;
  of_mode_perm : Z;
}.

Section flags.
Context {ABI : SyscallAbi}.

(** [raw & bit != 0] *)
Definition has (raw bit : Z) : bool := negb (Z.land raw bit =? 0).

Definition translate_open_flags (raw : Z) : OpenFlags :=
  let mode := Z.land raw O_ACCMODE in
  {| of_read := (mode =? O_RDONLY) || (mode =? O_RDWR);
     of_write := (mode =? O_WRONLY) || (mode =? O_RDWR);
     of_create := has raw O_CREAT;
     of_truncate := has raw O_TRUNC;
     of_exclusive := has raw O_EXCL;
     of_append := has raw O_APPEND;
     of_directory := has raw O_DIRECTORY;
     of_symlink := has raw O_SYMLINK;
     of_mode_perm := Z.land raw MODE_PERM |}.

Definition wants_write (f : OpenFlags) : bool := of_write f || of_create f || of_truncate f.

(** [if b { f |= bit; }] *)
Definition or_if (b : bool) (bit f : Z) : Z := if b then Z.lor f bit else f.

Definition to_real_flags (o : OpenFlags) : Z :=
  let f := if of_write o then (if of_symlink o then O_WRONLY else O_RDWR) else O_RDONLY in
  let f := or_if (of_create o) O_CREAT f in
  let f := or_if (of_truncate o) O_TRUNC f in
  let f := or_if (of_exclusive o) O_EXCL f in
  let f := or_if (of_append o) O_APPEND f in
  let f := or_if (of_directory o) O_DIRECTORY f in
  let f := or_if (of_symlink o) O_SYMLINK f in
  Z.lor f (of_mode_perm o).

(** ** How the worker maps a file: [worker_mmap_path], [is_mutable_path] *)
Definition IMMUTABLE : list string :=
  ["/nix/store"; "/nix/system/profile"; "/usr/lib"; "/usr/src"; "/usr/bin"; "/usr/share";
   "/lib"; "/bin"; "/etc"; "/dev"].

Definition is_mutable_path (p : path) : bool :=
  let s := Path.to_string p in
  negb (existsb (λ prefix, bool_decide (s = prefix) || Str.starts_with (prefix +:+ "/") s) IMMUTABLE).

(** [flags.contains(f)] *)
Definition contains (flags f : Z) : bool := Z.land flags f =? f.

Inductive MmapPlan : Type :=
  | PrivateCopy
  | FileBacked (open_flags : Z).

Definition worker_mmap_plan (p : path) (flags : Z) : MmapPlan :=
  let file_backed := contains flags PROT_EXEC || (contains flags MAP_SHARED && contains flags PROT_WRITE) in
  if is_mutable_path p && negb file_backed then PrivateCopy
  else FileBacked (if contains flags PROT_WRITE then O_RDWR else O_RDONLY).

(** The bits of the two parameters do not meet the documented flags. *)
Definition DOCUMENTED : Z :=
  Z.lor O_ACCMODE (Z.lor O_APPEND (Z.lor O_CREAT (Z.lor O_TRUNC (Z.lor O_EXCL O_DIRECTORY)))).

Definition abi_disjoint : Prop :=
  (∃ k, 0 ≤ k ∧ O_SYMLINK = Z.shiftl 1 k ∧ Z.testbit DOCUMENTED k = false
        ∧ Z.testbit MODE_PERM k = false)
  ∧ Z.land MODE_PERM DOCUMENTED = 0.

(** Single-bit flags *)
Lemma has_bit raw k : 0 ≤ k → has raw (Z.shiftl 1 k) = Z.testbit raw k.
Proof.
  intros Hk. unfold has. rewrite Z.shiftl_1_l, Z.land_comm.
  destruct (Z.testbit raw k) eqn:E.
  - apply negb_true_iff, Z.eqb_neq. intros H0.
    assert (Ht : Z.testbit (Z.land (2^k) raw) k = false) by (rewrite H0; apply Z.bits_0).
    rewrite Z.land_spec, Z.pow2_bits_true, E in Ht by done. done.
  - apply negb_false_iff, Z.eqb_eq. apply Z.bits_inj'. intros n Hn.
    rewrite Z.land_spec, Z.bits_0. destruct (decide (n = k)) as [->|].
    + by rewrite E, andb_false_r.
    + by rewrite Z.pow2_bits_false by lia.
Qed.

Lemma testbit_or_if b bit f n :
  Z.testbit (or_if b bit f) n = Z.testbit f n || (b && Z.testbit bit n).
Proof. unfold or_if. destruct b; [by rewrite Z.lor_spec | by rewrite orb_false_r]. Qed.

Lemma testbit_shiftl1 k n : 0 ≤ k → Z.testbit (Z.shiftl 1 k) n = bool_decide (n = k).
Proof.
  intros Hk. rewrite Z.shiftl_1_l. case_bool_decide; subst.
  - by apply Z.pow2_bits_true.
  - by apply Z.pow2_bits_false.
Qed.

Lemma accmode_spec raw :
  let mode := Z.land raw O_ACCMODE in
  ((mode =? O_WRONLY) || (mode =? O_RDWR) = Z.testbit raw 17)
  ∧ ((mode =? O_RDONLY) || (mode =? O_RDWR) = Z.testbit raw 16).
Proof.
  intros mode.
  assert (Hm : mode = Z.lor (if Z.testbit raw 16 then O_RDONLY else 0)
                            (if Z.testbit raw 17 then O_WRONLY else 0)).
  { apply Z.bits_inj'. intros n Hn. unfold mode. rewrite Z.land_spec, Z.lor_spec.
    change O_ACCMODE with (Z.lor (Z.shiftl 1 16) (Z.shiftl 1 17)).
    change O_RDONLY with (Z.shiftl 1 16). change O_WRONLY with (Z.shiftl 1 17).
    rewrite Z.lor_spec, !testbit_shiftl1 by lia.
    destruct (decide (n = 16)) as [->|]; [|destruct (decide (n = 17)) as [->|]].
    - destruct (Z.testbit raw 16), (Z.testbit raw 17); reflexivity.
    - destruct (Z.testbit raw 16), (Z.testbit raw 17); reflexivity.
    - rewrite !bool_decide_eq_false_2 by done. rewrite andb_false_r.
      destruct (Z.testbit raw 16), (Z.testbit raw 17);
        rewrite ?testbit_shiftl1, ?Z.bits_0, ?bool_decide_eq_false_2 by lia; done. }
  rewrite Hm. destruct (Z.testbit raw 16), (Z.testbit raw 17); split; reflexivity.
Qed.

(** The documented flags as a set of bit numbers *)
Lemma documented_bits n :
  Z.testbit (Z.ldiff DOCUMENTED O_RDONLY) n = bool_decide (n ∈ [17; 19; 25; 26; 27; 28]).
Proof.
  destruct (decide (0 ≤ n)) as [Hn|Hn].
  2:{ rewrite Z.testbit_neg_r by lia. symmetry. apply bool_decide_eq_false_2.
      rewrite !elem_of_cons, elem_of_nil. lia. }
  change (Z.ldiff DOCUMENTED O_RDONLY) with
    (Z.lor (Z.shiftl 1 17) (Z.lor (Z.shiftl 1 19) (Z.lor (Z.shiftl 1 25)
       (Z.lor (Z.shiftl 1 26) (Z.lor (Z.shiftl 1 27) (Z.shiftl 1 28)))))).
  rewrite !Z.lor_spec, !testbit_shiftl1 by lia.
  apply eq_true_iff_eq. rewrite !orb_true_iff, !bool_decide_eq_true, !elem_of_cons, elem_of_nil. lia.
Qed.

Lemma access_bits raw n :
  n ≠ 16 →
  Z.testbit (if (Z.land raw O_ACCMODE =? O_WRONLY) || (Z.land raw O_ACCMODE =? O_RDWR)
             then (if has raw O_SYMLINK then O_WRONLY else O_RDWR) else O_RDONLY) n
  = Z.testbit raw 17 && bool_decide (n = 17).
Proof.
  intros Hn. destruct (accmode_spec raw) as [-> _].
  change O_RDWR with (Z.lor (Z.shiftl 1 16) (Z.shiftl 1 17)).
  change O_RDONLY with (Z.shiftl 1 16). change O_WRONLY with (Z.shiftl 1 17).
  destruct (Z.testbit raw 17), (has raw O_SYMLINK);
    rewrite ?Z.lor_spec, !testbit_shiftl1 by lia; rewrite ?(bool_decide_eq_false_2 (n = 16)) by done;
    done.
Qed.

(** The flags of the real open, bit by bit, the read bit aside *)
Lemma real_bits raw k n :
  0 ≤ k → O_SYMLINK = Z.shiftl 1 k → n ≠ 16 →
  Z.testbit (to_real_flags (translate_open_flags raw)) n
  = Z.testbit raw n
    && (Z.testbit (Z.ldiff DOCUMENTED O_RDONLY) n || bool_decide (n = k) || Z.testbit MODE_PERM n).
Proof.
  intros Hk Hsym Hn. unfold to_real_flags, translate_open_flags.
  cbn [of_write of_symlink of_create of_truncate of_exclusive of_append of_directory of_mode_perm].
  rewrite Z.lor_spec, !testbit_or_if, access_bits, Z.land_spec by done.
  rewrite Hsym, documented_bits.
  change O_CREAT with (Z.shiftl 1 25). change O_TRUNC with (Z.shiftl 1 26).
  change O_EXCL with (Z.shiftl 1 27). change O_APPEND with (Z.shiftl 1 19).
  change O_DIRECTORY with (Z.shiftl 1 28).
  rewrite !has_bit, !testbit_shiftl1 by lia.
  apply eq_true_iff_eq.
  rewrite !orb_true_iff, !andb_true_iff, !orb_true_iff, !bool_decide_eq_true, !elem_of_cons, elem_of_nil.
  naive_solver.
Qed.

(** Flags that want no write open nothing for writing. *)
Lemma real_no_write raw :
  abi_disjoint → wants_write (translate_open_flags raw) = false →
  Z.land (to_real_flags (translate_open_flags raw)) (Z.lor O_WRONLY (Z.lor O_CREAT O_TRUNC)) = 0.
Proof.
  intros [(k & Hk & Hsym & _ & _) _]. unfold wants_write. rewrite !orb_false_iff. intros [[Hw Hc] Ht].
  cbn in Hw, Hc, Ht. destruct (accmode_spec raw) as [Hacc _]. rewrite Hacc in Hw.
  change O_CREAT with (Z.shiftl 1 25) in Hc. change O_TRUNC with (Z.shiftl 1 26) in Ht.
  rewrite has_bit in Hc, Ht by lia.
  apply Z.bits_inj'. intros n Hn. rewrite Z.land_spec, Z.bits_0, !Z.lor_spec.
  change O_WRONLY with (Z.shiftl 1 17). change O_CREAT with (Z.shiftl 1 25).
  change O_TRUNC with (Z.shiftl 1 26). rewrite !testbit_shiftl1 by lia.
  destruct (decide (n = 16)) as [->|Hne]; [by rewrite andb_false_r|].
  rewrite (real_bits raw k n) by done.
  repeat case_bool_decide; subst; rewrite ?Hw, ?Hc, ?Ht, ?andb_false_r; done.
Qed.

End flags.

(** The flags the proxy opens a real file with ask for what the builder asked for
    and no more: bit by bit they agree with the raw flags on write, create, truncate,
    exclusive, append, directory, symlink and the permission bits; every other bit is
    cleared, except that a read bit is added to opens that do not write a symlink.  In
    particular, flags that want no write open nothing for writing. *)
Theorem open_flags_exact `{SyscallAbi} raw :
  abi_disjoint →
  let o := translate_open_flags raw in
  let real := to_real_flags o in
  let kept := Z.lor (Z.lor (Z.ldiff DOCUMENTED O_RDONLY) O_SYMLINK) MODE_PERM in
  Z.ldiff real O_RDONLY = Z.land raw kept
  ∧ (wants_write o = false → Z.land real (Z.lor O_WRONLY (Z.lor O_CREAT O_TRUNC)) = 0).
Proof.
  intros Habi o real kept. pose proof Habi as [(k & Hk & Hsym & Hkd & Hkp) Hperm].
  assert (H16 : Z.testbit MODE_PERM 16 = false).
  { assert (Ht : Z.testbit (Z.land MODE_PERM DOCUMENTED) 16 = false) by (rewrite Hperm; apply Z.bits_0).
    by rewrite Z.land_spec, andb_true_r in Ht. }
  assert (Hexact : Z.ldiff real O_RDONLY = Z.land raw kept).
  { apply Z.bits_inj'. intros n Hn. unfold kept. rewrite Z.ldiff_spec, Z.land_spec, !Z.lor_spec.
    rewrite Hsym, testbit_shiftl1 by done.
    change O_RDONLY with (Z.shiftl 1 16) at 1. rewrite testbit_shiftl1 by lia.
    destruct (decide (n = 16)) as [->|Hne].
    - rewrite bool_decide_eq_true_2, andb_false_r, H16, bool_decide_eq_false_2 by
        (done || (intros <-; discriminate)). by rewrite documented_bits, andb_false_r.
    - rewrite bool_decide_eq_false_2, andb_true_r by done. by apply real_bits. }
  split; [done|]. by apply real_no_write.
Qed.

Lemma open_flags_exact_witness :
  @abi_disjoint redox_abi
  ∧ @translate_open_flags redox_abi 0x0A0201B4 = mkOpenFlags false true true false true false false false 0x1B4
  ∧ Z.ldiff (@to_real_flags redox_abi (@translate_open_flags redox_abi 0x0A0201B4)) O_RDONLY = 0x0A0201B4.
Proof.
  assert (Ha : @abi_disjoint redox_abi) by (split; [exists 30; repeat split; lia|reflexivity]).
  split; [exact Ha|]. split; [reflexivity|].
  exact (proj1 (@open_flags_exact redox_abi 0x0A0201B4 Ha)).
Defined.
