(* ===== verification/ProxyHandler.v ===== *)
(** * The scheme handler of the build sandbox: [build_proxy/handler.rs]

    [BuildFsHandler] keeps the open handles, the active memory maps and the handle
    counter; each operation of [SchemeSync] is a definition over that state that talks to
    the I/O worker ([ProxyIo]).  Log lines are not modelled. *)

From S2P Require Import Prelude RustStd AllowList HandleId ProxyIo.

Open Scope Z_scope.

Record FileHandle : Type := mkFileHandle {
  fh_real_path : path;
  fh_scheme_path : string;
  fh_writable : bool;
  fh_append : bool;
  fh_symlink : bool;
  fh_size : Z;
  fh_mode : Z;
}.

Record DirHandle : Type := mkDirHandle { dh_real_path : path; dh_scheme_path : string }.

Inductive ProxyHandle : Type :=
  | HFile (fh : FileHandle)
  | HDir (dh : DirHandle).

(** [ActiveMapKey]: handle, offset, size *)
Abbreviation ActiveMapKey := (Z * Z * Z)%type.

Record BuildFsHandler : Type := mkHandler {
  allow_list : AllowList;
  handles : gmap Z ProxyHandle;
  active_mmaps : gmap ActiveMapKey (list Z);
  next_id : Z;
}.

Definition set_handles (hs : gmap Z ProxyHandle) (h : BuildFsHandler) : BuildFsHandler :=
  mkHandler (allow_list h) hs (active_mmaps h) (next_id h).
Definition set_mmaps (ms : gmap ActiveMapKey (list Z)) (h : BuildFsHandler) : BuildFsHandler :=
  mkHandler (allow_list h) (handles h) ms (next_id h).
Definition set_next_id (n : Z) (h : BuildFsHandler) : BuildFsHandler :=
  mkHandler (allow_list h) (handles h) (active_mmaps h) n.

(** ** The handler monad: state, [?], requests *)
Definition M (A : Type) : Type := BuildFsHandler → prog (result errno A * BuildFsHandler).

#[export] Instance M_ret : MRet M := λ A a h, Ret (Ok a, h).
#[export] Instance M_bind : MBind M := λ A B f m h,
  prog_bind (m h) (λ rh, match rh with
                         | (Ok a, h') => f a h'
                         | (Err e, h') => Ret (Err e, h')
                         end).

Definition get : M BuildFsHandler := λ h, Ret (Ok h, h).
Definition modify (f : BuildFsHandler → BuildFsHandler) : M unit := λ h, Ret (Ok tt, f h).
Definition throw {A} (e : errno) : M A := λ h, Ret (Err e, h).
Definition lift {A} (r : result errno A) : M A := λ h, Ret (r, h).

(** [self.io_worker.request(..)], the answer as it comes *)
Definition ask {X : Set} (r : IoRequest X) : M X := λ h, Req r (λ x, Ret (Ok x, h)).

(** [self.io_worker.request(..)?] *)
Definition ask_ok {A : Set} (r : IoRequest (result errno A)) : M A := ask r ≫= lift.

Definition insert_handle (id : Z) (ph : ProxyHandle) : M unit :=
  modify (λ h, set_handles (<[id := ph]> (handles h)) h).

Module Handler.

Definition new (al : AllowList) : BuildFsHandler := mkHandler al ∅ ∅ 1.

Definition root_handle : ProxyHandle := HDir (mkDirHandle [RootDir] "").

Definition install_root_handle (id : Z) (h : BuildFsHandler) : BuildFsHandler :=
  set_handles (<[id := root_handle]> (handles h)) h.

Definition alloc_id : M Z := λ h,
  match alloc_loop (alloc_fuel (handles h)) (handles h) (next_id h) with
  | Some (id, next) => Ret (Ok id, set_next_id next h)
  | None => Hang
  end.

Definition dup_handle (old_id : Z) : M Z :=
  new_id ← alloc_id;
  h ← get;
  match handles h !! old_id with
  | Some ph => insert_handle new_id ph ;; mret new_id
  | None => throw EBADF
  end.

(** ** Paths *)
Definition resolve_path (scheme_path : string) : path :=
  Path.components ("/" +:+ Str.trim_start_matches "/" scheme_path).

Definition resolve_open_path (h : BuildFsHandler) (dirfd : Z) (p : string)
    : result errno (path * string) :=
  let clean := Str.trim_matches "/" p in
  if Str.starts_with "/" p || bool_decide (dirfd = 0) then Ok (resolve_path clean, clean)
  else match handles h !! dirfd with
       | Some (HDir dh) =>
           let real_path :=
             if decide (clean = "") then dh_real_path dh
             else Path.join (dh_real_path dh) (Path.components clean) in
           let scheme_path :=
             if decide (dh_scheme_path dh = "") then clean
             else if decide (clean = "") then dh_scheme_path dh
             else Str.trim_matches "/" (dh_scheme_path dh) +:+ "/" +:+ clean in
           Ok (real_path, scheme_path)
       | Some (HFile _) => Err ENOTDIR
       | None => Err EBADF
       end.

Definition check_with_symlink_resolution (h : BuildFsHandler) (p : path) : Permission :=
  Allow.check (allow_list h) p.

Definition is_ancestor_of_allowed (h : BuildFsHandler) (p : path) : bool :=
  existsb (λ prefix, Path.starts_with prefix p && bool_decide (prefix ≠ p))
          (Allow.all_prefixes (allow_list h)).

Definition is_entry_visible (h : BuildFsHandler) (child : path) : bool :=
  Allow.can_read (allow_list h) child
  || existsb (λ prefix, Path.starts_with prefix child) (Allow.all_prefixes (allow_list h)).

(** [rest.as_os_str().is_empty()] *)
Definition rejoin (rest new_root : path) : path :=
  match rest with [] => new_root | _ => Path.join new_root rest end.

Definition rewrite_path_prefix (p old_root new_root : path) : option path :=
  rest ← Path.strip_prefix p old_root; Some (rejoin rest new_root).

Definition rewrite_scheme_prefix (p : string) (old_root new_root : path) : option string :=
  rest ← Path.strip_prefix (Path.components p) old_root;
  Some (Path.to_string (rejoin rest new_root)).

Definition rewrite_handle (old_real new_real : path) (old_scheme new_scheme : path)
    (ph : ProxyHandle) : ProxyHandle :=
  match ph with
  | HFile fh =>
      HFile (mkFileHandle
        (default (fh_real_path fh) (rewrite_path_prefix (fh_real_path fh) old_real new_real))
        (default (fh_scheme_path fh) (rewrite_scheme_prefix (fh_scheme_path fh) old_scheme new_scheme))
        (fh_writable fh) (fh_append fh) (fh_symlink fh) (fh_size fh) (fh_mode fh))
  | HDir dh =>
      HDir (mkDirHandle
        (default (dh_real_path dh) (rewrite_path_prefix (dh_real_path dh) old_real new_real))
        (default (dh_scheme_path dh) (rewrite_scheme_prefix (dh_scheme_path dh) old_scheme new_scheme)))
  end.

Definition rewrite_open_handle_paths (old_real new_real : path) (old_scheme new_scheme : string)
    (h : BuildFsHandler) : BuildFsHandler :=
  set_handles
    (rewrite_handle old_real new_real (Path.components old_scheme) (Path.components new_scheme)
       <$> handles h) h.

(** ** Opening, unlinking, duplicating *)
Section ops.
Context {ABI : SyscallAbi}.

Definition scheme_root : M Z :=
  id ← alloc_id; insert_handle id root_handle ;; mret id.

(** The permission [openat] acts on: an ancestor of an allowed path may be opened for
    reading *)
Definition effective_perm (h : BuildFsHandler) (abs_path : path) (oflags : OpenFlags) : Permission :=
  let perm := check_with_symlink_resolution h abs_path in
  if decide (perm = Denied ∧ wants_write oflags = false)
  then if is_ancestor_of_allowed h abs_path then ReadOnly else Denied
  else perm.

Definition open_directory (id : Z) (abs_path : path) (scheme_path : string)
    (oflags : OpenFlags) (perm : Permission) : M Z :=
  (if decide (of_create oflags = true ∧ perm = ReadWrite)
   then ask_ok (EnsureDirTree abs_path) else mret tt) ;;
  opened ← ask (OpenPath abs_path (Z.lor O_RDONLY O_DIRECTORY));
  match opened with
  | Err _ => throw ENOTDIR
  | Ok o => insert_handle id (HDir (mkDirHandle (resolved_path o) scheme_path)) ;; mret id
  end.

Definition open_file (id : Z) (abs_path : path) (scheme_path : string)
    (oflags : OpenFlags) (perm : Permission) : M Z :=
  (if decide (of_create oflags = true ∧ perm = ReadWrite)
   then match Path.parent abs_path with
        | Some parent => ask_ok (EnsureDirTree parent)
        | None => mret tt
        end
   else mret tt) ;;
  opened ← ask_ok (OpenPath abs_path (to_real_flags oflags));
  (if has (st_mode (stat opened)) MODE_DIR
   then insert_handle id (HDir (mkDirHandle (resolved_path opened) scheme_path))
   else insert_handle id
          (HFile (mkFileHandle (resolved_path opened) scheme_path (wants_write oflags)
                    (of_append oflags) (of_symlink oflags) (st_size (stat opened))
                    (st_mode (stat opened))))) ;;
  mret id.

Definition openat (dirfd : Z) (p : string) (flags : Z) : M Z :=
  h ← get;
  '(abs_path, scheme_path) ← lift (resolve_open_path h dirfd p);
  let oflags := translate_open_flags flags in
  let perm := check_with_symlink_resolution h abs_path in
  let effective := effective_perm h abs_path oflags in
  if decide (effective = Denied) then throw EACCES
  else if decide (wants_write oflags = true ∧ effective ≠ ReadWrite) then throw EACCES
  else
    id ← alloc_id;
    if of_directory oflags then open_directory id abs_path scheme_path oflags perm
    else open_file id abs_path scheme_path oflags perm.

Definition unlinkat (fd : Z) (p : string) (flags : Z) : M unit :=
  h ← get;
  '(abs_path, _) ← lift (resolve_open_path h fd p);
  if decide (check_with_symlink_resolution h abs_path ≠ ReadWrite) then throw EACCES
  else ask_ok (UnlinkPath abs_path (has flags AT_REMOVEDIR)).

Definition dup (old_id : Z) : M Z := dup_handle old_id.

(** ** Data *)
(** The bytes copied to the caller's buffer; their number is the return value *)
Definition read (id : Z) (buf_len : nat) (offset : Z) : M string :=
  h ← get;
  match handles h !! id with
  | Some (HFile fh) =>
      data ← ask_ok (ReadAt (fh_real_path fh) offset (Z.of_nat buf_len) (fh_symlink fh));
      mret (String.substring 0 (String.length data `min` buf_len) data)
  | Some (HDir _) => throw EISDIR
  | None => throw EBADF
  end.

Definition set_fh_size (size : Z) (fh : FileHandle) : FileHandle :=
  mkFileHandle (fh_real_path fh) (fh_scheme_path fh) (fh_writable fh) (fh_append fh)
    (fh_symlink fh) size (fh_mode fh).

Definition write (id : Z) (buf : string) (offset : Z) : M Z :=
  h ← get;
  match handles h !! id with
  | Some (HFile fh) =>
      if negb (fh_writable fh) then throw EACCES
      else
        result ← ask_ok (WriteAt (fh_real_path fh) offset (fh_append fh) (fh_symlink fh) buf);
        (if decide (fh_size fh < end_offset result)
         then insert_handle id (HFile (set_fh_size (end_offset result) fh)) else mret tt) ;;
        mret (bytes_written result)
  | Some (HDir _) => throw EISDIR
  | None => throw EBADF
  end.

Definition fsize (id : Z) : M Z :=
  h ← get;
  match handles h !! id with
  | Some (HFile fh) => mret (fh_size fh)
  | Some (HDir _) => mret 0
  | None => throw EBADF
  end.

(** The bytes copied to the caller's buffer *)
Definition fpath (id : Z) (buf_len : nat) : M string :=
  h ← get;
  scheme_path ← match handles h !! id with
                | Some (HFile fh) => mret (fh_scheme_path fh)
                | Some (HDir dh) => mret (dh_scheme_path dh)
                | None => throw EBADF
                end;
  let full := if decide (scheme_path = "") then "file:/"
              else "file:/" +:+ Str.trim_start_matches "/" scheme_path in
  mret (String.substring 0 (String.length full `min` buf_len) full).

Definition ftruncate (id : Z) (len : Z) : M unit :=
  h ← get;
  match handles h !! id with
  | Some (HFile fh) =>
      if negb (fh_writable fh) then throw EACCES
      else
        ask_ok (TruncatePath (fh_real_path fh) len (fh_symlink fh)) ;;
        if decide (len < fh_size fh) then insert_handle id (HFile (set_fh_size len fh)) else mret tt
  | Some (HDir _) => throw EISDIR
  | None => throw EBADF
  end.

(** ** Names *)
Definition flink (id : Z) (p : string) : M Z :=
  h ← get;
  let target_path := resolve_path p in
  if decide (check_with_symlink_resolution h target_path ≠ ReadWrite) then throw EACCES
  else
    old_path ← match handles h !! id with
               | Some (HFile fh) => mret (fh_real_path fh)
               | Some (HDir _) => throw EISDIR
               | None => throw EBADF
               end;
    ask_ok (LinkPath old_path target_path) ;; mret 0.

Definition frename (id : Z) (p : string) : M Z :=
  h ← get;
  let target_path := resolve_path p in
  if decide (check_with_symlink_resolution h target_path ≠ ReadWrite) then throw EACCES
  else
    '(old_path, old_scheme_path) ←
      match handles h !! id with
      | Some (HFile fh) => mret (fh_real_path fh, fh_scheme_path fh)
      | Some (HDir dh) => mret (dh_real_path dh, dh_scheme_path dh)
      | None => throw EBADF
      end;
    ask_ok (RenamePath old_path target_path) ;;
    modify (rewrite_open_handle_paths old_path target_path old_scheme_path (Str.trim_matches "/" p)) ;;
    mret 0.

(** ** Attributes *)
Definition file_stat (fh : FileHandle) (real : Stat) : Stat :=
  mkStat (st_mode real) (fh_size fh) (st_nlink real) (st_uid real) (st_gid real) (st_atime real)
    (st_mtime real) (st_ctime real) (st_blksize real) (st_blocks real) (st_dev real) (st_ino real).

(** [buf] is the caller's structure: fields that are not assigned keep their value *)
Definition fstat (id : Z) (buf : Stat) : M Stat :=
  h ← get;
  match handles h !! id with
  | Some (HFile fh) =>
      r ← ask (StatPath (fh_real_path fh) false);
      match r with
      | Ok real =>
          let size := if decide (fh_size fh < st_size real) then st_size real else fh_size fh in
          let fh' := mkFileHandle (fh_real_path fh) (fh_scheme_path fh) (fh_writable fh)
                       (fh_append fh) (fh_symlink fh) size (st_mode real) in
          insert_handle id (HFile fh') ;; mret (file_stat fh' real)
      | Err _ =>
          mret (mkStat (fh_mode fh `mod` 2^16) (fh_size fh) 1 (st_uid buf) (st_gid buf) (st_atime buf)
                  (st_mtime buf) (st_ctime buf) (st_blksize buf) (st_blocks buf) (st_dev buf) (st_ino buf))
      end
  | Some (HDir dh) =>
      r ← ask (StatPath (dh_real_path dh) true);
      let '(mode, size, nlink, dev, ino) :=
        match r with
        | Ok real => (st_mode real, st_size real, st_nlink real, st_dev real, st_ino real)
        | Err _ => (0x416D, 0, 2, st_dev buf, st_ino buf)
        end in
      mret (mkStat mode size nlink (st_uid buf) (st_gid buf) (st_atime buf) (st_mtime buf)
              (st_ctime buf) (st_blksize buf) (st_blocks buf) dev ino)
  | None => throw EBADF
  end.

Definition fchmod (id new_mode : Z) : M unit :=
  h ← get;
  match handles h !! id with
  | Some (HFile fh) =>
      if negb (Allow.can_write (allow_list h) (fh_real_path fh)) then throw EACCES
      else ask_ok (ChmodPath (fh_real_path fh) false new_mode)
  | Some (HDir dh) =>
      if negb (Allow.can_write (allow_list h) (dh_real_path dh)) then throw EACCES
      else ask_ok (ChmodPath (dh_real_path dh) true new_mode)
  | None => throw EBADF
  end.

(** [f_bsize], [f_blocks], [f_bfree], [f_bavail] *)
Definition fstatvfs (id : Z) : M (Z * Z * Z * Z) :=
  h ← get;
  match handles h !! id with
  | Some _ => mret (4096, 0, 0, 0)
  | None => throw EBADF
  end.

Definition futimens (id : Z) : M unit :=
  h ← get;
  match handles h !! id with Some _ => mret tt | None => throw EBADF end.

Definition fcntl (id cmd arg : Z) : M Z :=
  if decide (cmd = F_DUPFD ∨ cmd = F_DUPFD_CLOEXEC) then dup_handle id
  else if decide (cmd = F_GETFL) then
    h ← get;
    match handles h !! id with
    | Some (HFile fh) =>
        mret (or_if (fh_append fh) O_APPEND (if fh_writable fh then O_RDWR else O_RDONLY))
    | Some (HDir _) => mret (Z.lor O_RDONLY O_DIRECTORY)
    | None => throw EBADF
    end
  else if decide (cmd = F_SETFL) then
    h ← get;
    match handles h !! id with
    | Some (HFile fh) =>
        insert_handle id (HFile (mkFileHandle (fh_real_path fh) (fh_scheme_path fh) (fh_writable fh)
          (has arg O_APPEND) (fh_symlink fh) (fh_size fh) (fh_mode fh))) ;; mret 0
    | Some (HDir _) => mret 0
    | None => throw EBADF
    end
  else if decide (cmd = F_GETFD ∨ cmd = F_SETFD ∨ cmd = 6 ∨ cmd = 7) then mret 0
  else throw EOPNOTSUPP.

Definition fevent (id : Z) : M Z :=
  h ← get;
  match handles h !! id with
  | Some (HFile fh) => mret (or_if (fh_writable fh) EVENT_WRITE EVENT_READ)
  | Some (HDir _) => mret EVENT_READ
  | None => throw EBADF
  end.

(** ** Listings *)
(** [read_dir(..).unwrap_or_default()], collected into a [HashMap]: the last entry of a
    name wins *)
Definition kind_map (real : list (string * DirentKind)) : gmap string DirentKind :=
  foldl (λ m e, <[e.1 := e.2]> m) ∅ real.

Definition allowed_children (h : BuildFsHandler) (dir_path : path) : list string :=
  omap (λ prefix, rest ← Path.strip_prefix prefix dir_path;
                  match rest with first :: _ => Some (Path.comp_str first) | [] => None end)
       (Allow.all_prefixes (allow_list h)).

Definition visible_names (h : BuildFsHandler) (dir_path : path) (real : list (string * DirentKind))
    : gset string :=
  list_to_set (allowed_children h dir_path)
  ∪ list_to_set (filter (λ name, is_entry_visible h (Path.join dir_path (Path.components name)) = true)
                        real.*1).

Definition list_visible_children (dir_path : path) : M (list (string * DirentKind)) :=
  h ← get;
  r ← ask (ReadDir dir_path);
  let real := match r with Ok es => es | Err _ => [] end in
  mret ((λ n, (n, default KindDirectory (kind_map real !! n)))
          <$> BTree.set_to_list (visible_names h dir_path real)).

(** [DirentBuf] is the scheme library's: [entry] fails when the buffer is full *)
Section getdents.
Context {Buf : Type}.
Variable entry : Buf → Z → string → DirentKind → option Buf.

Fixpoint push_entries (buf : Buf) (i : Z) (es : list (string * DirentKind)) : Buf :=
  match es with
  | [] => buf
  | (name, kind) :: es' =>
      match entry buf (i + 1) name kind with
      | Some buf' => push_entries buf' (i + 1) es'
      | None => buf
      end
  end.

Definition getdents (id : Z) (buf : Buf) (opaque_offset : Z) : M Buf :=
  h ← get;
  dir_path ← match handles h !! id with
             | Some (HDir dh) => mret (dh_real_path dh)
             | Some (HFile _) => throw ENOTDIR
             | None => throw EBADF
             end;
  entries ← (if Allow.can_read (allow_list h) dir_path then ask_ok (ReadDir dir_path)
             else list_visible_children dir_path);
  mret (push_entries buf opaque_offset (drop (Z.to_nat opaque_offset) entries)).
End getdents.

(** ** Memory maps *)
Definition page_span (size : Z) : Z := wrap64 ((size + PAGE_SIZE - 1) / PAGE_SIZE * PAGE_SIZE).

Definition mmap_prep (id offset size flags : Z) : M Z :=
  h ← get;
  real_path ← match handles h !! id with
              | Some (HFile fh) => mret (fh_real_path fh)
              | Some (HDir _) => throw EISDIR
              | None => throw EBADF
              end;
  m ← ask_ok (MmapPath real_path offset size flags);
  let key := (id, offset, page_span size) in
  modify (λ h, set_mmaps
    (<[key := default [] (active_mmaps h !! key) ++ [token m]]> (active_mmaps h)) h) ;;
  mret (base_addr m).

(** [tokens.pop()], the entry removed when that was the last one *)
Definition pop_token (key : ActiveMapKey) : M (option Z) :=
  h ← get;
  match active_mmaps h !! key with
  | None => mret None
  | Some tokens =>
      match last tokens with
      | None => mret None
      | Some t =>
          let rest := removelast tokens in
          modify (set_mmaps (match rest with
                             | [] => delete key (active_mmaps h)
                             | _ => <[key := rest]> (active_mmaps h)
                             end)) ;; mret (Some t)
      end
  end.

(** The token of some mapping of the handle, when the range does not match.  The hash
    map's order is unspecified; the order of the model stands for any. *)
Definition find_mapping (h : BuildFsHandler) (id : Z) : option ActiveMapKey :=
  snd <$> list_find (λ key, key.1.1 = id) ((map_to_list (active_mmaps h)).*1).

Definition munmap (id offset size : Z) : M unit :=
  h ← get;
  let key := (id, offset, size) in
  let victim := match active_mmaps h !! key with
                | Some _ => Some key
                | None => find_mapping h id
                end in
  match victim with
  | None => mret tt
  | Some key =>
      t ← pop_token key;
      match t with
      | None => mret tt
      | Some t => ask (MunmapToken t) ;; mret tt
      end
  end.

(** [for token in tokens { let _ = munmap_token(token); }] *)
Fixpoint unmap_all (tokens : list Z) : M unit :=
  match tokens with
  | [] => mret tt
  | t :: ts => ask (MunmapToken t) ;; unmap_all ts
  end.

Definition on_close (id : Z) : M unit :=
  modify (λ h, set_handles (delete id (handles h)) h) ;;
  h ← get;
  let mine := map_to_list (filter (λ kv, kv.1.1.1 = id) (active_mmaps h)) in
  modify (set_mmaps (filter (λ kv, kv.1.1.1 ≠ id) (active_mmaps h))) ;;
  unmap_all (mine ≫= snd).

End ops.

End Handler.
