(* ===== verification/ProxySafety.v ===== *)
(** * Confinement of the build sandbox

    Every sequence of scheme operations a builder can issue, run against a worker that
    resolves paths in place, only changes what the allow-list lets it write - and the
    operations for which that fails. *)

From S2P Require Import Prelude RustStd AllowList HandleId ProxyIo ProxyHandler.

Open Scope Z_scope.

(** ** Absolute paths without [.] and [..] *)
Definition normals (q : path) : Prop := Forall (λ c, ∃ s, c = Normal s) q.
Definition abs_plain (p : path) : Prop := ∃ q, p = RootDir :: q ∧ normals q.

Lemma abs_plain_clean p : abs_plain p → Allow.clean_path p = p.
Proof.
  intros (q & -> & Hq). unfold Allow.clean_path. simpl. unfold Path.join. simpl.
  by rewrite Allow.foldl_normal.
Qed.

Lemma root_abs_plain : abs_plain [RootDir].
Proof. exists []. split; [done|constructor]. Qed.

Lemma abs_plain_app p q : abs_plain p → normals q → abs_plain (p ++ q).
Proof. intros (p' & -> & Hp) Hq. exists (p' ++ q). split; [done|]. by apply Forall_app. Qed.

(** A request path without a [..] piece *)
Definition no_dotdot (s : string) : Prop := ".." ∉ Str.split "/" s.

#[export] Instance no_dotdot_dec s : Decision (no_dotdot s).
Proof. unfold no_dotdot. apply _. Defined.

Lemma resolve_abs_plain s : no_dotdot s → abs_plain (Handler.resolve_path s).
Proof.
  intros Hs. unfold Handler.resolve_path. change ("/" +:+ ?t) with (String "/" t).
  rewrite Path.components_slash. eexists. split; [done|]. apply Path.pieces_normal.
  intros Hin. apply Hs. by apply Str.split_trim_start.
Qed.

Lemma join_abs_plain base s :
  abs_plain base → no_dotdot s → abs_plain (Path.join base (Path.components s)).
Proof.
  intros Hb Hs. destruct Hb as (q & -> & Hq). unfold Path.components.
  destruct (Str.split "/" s) as [|p ps] eqn:E; [by destruct (Str.split_ne_nil "/" s)|].
  unfold no_dotdot in Hs. rewrite E in Hs. apply not_elem_of_cons in Hs as [Hp Hps].
  pose proof (Path.pieces_normal ps Hps) as Hn.
  destruct (Str.starts_with "/" s); [by eexists|].
  unfold Path.piece_component at 1. unfold Path.join, option_list.
  repeat case_decide; subst; try done; simpl.
  - assert (Hf : Path.is_absolute (omap (Path.piece_component false) ps) = false)
      by (destruct Hn as [|? ? [? ->]]; done).
    rewrite Hf. destruct Hn as [|? ? [? ->] Hn]; (eexists; split; [done|]).
    + by rewrite app_nil_r.
    + apply Forall_app. split; [done|]. constructor; [by eexists|done].
  - eexists. split; [done|]. by apply Forall_app.
  - eexists. split; [done|]. apply Forall_app. split; [done|]. constructor; [by eexists|done].
Qed.

Section safety.
Context {ABI : SyscallAbi}.
Hypothesis Habi : abi_disjoint.
Variable al : AllowList.

Definition writable (p : path) : Prop := Allow.check al p = ReadWrite.

(** Readable, or an ancestor of an allowed path, which may be opened for navigation *)
Definition reachable (p : path) : Prop :=
  Allow.check al p ≠ Denied
  ∨ ∃ prefix, prefix ∈ Allow.all_prefixes al ∧ p `prefix_of` prefix ∧ prefix ≠ p.

(** What a handle may name: the root directory, given to the builder at the start, or what
    it could open *)
Definition navigable (p : path) : Prop := p = [RootDir] ∨ reachable p.

Definition WRITE_BITS : Z := Z.lor O_WRONLY (Z.lor O_CREAT O_TRUNC).

(** What a request may touch.  Directories are made along a writable path or along the
    parent of one; what is moved or linked, looked at, listed or mapped is something the
    builder could open.  The handler asks for no path to be resolved. *)
Definition confined (X : Set) (r : IoRequest X) : Prop :=
  match r with
  | OpenPath p flags => reachable p ∧ (Z.land flags WRITE_BITS ≠ 0 → writable p)
  | EnsureDirTree p => writable p ∨ ∃ child, Path.parent child = Some p ∧ writable child
  | ReadAt p _ _ _ => reachable p
  | WriteAt p _ _ _ _ | ChmodPath p _ _ | TruncatePath p _ _ | UnlinkPath p _ => writable p
  | RenamePath old_path new_path => navigable old_path ∧ writable new_path
  | LinkPath old_path new_path => reachable old_path ∧ writable new_path
  | StatPath p _ | ReadDir p => navigable p
  | MmapPath p _ _ _ => reachable p
  | ResolvePath _ => False
  | MunmapToken _ => True
  end.

(** The worker opened the file the path names, not the target of a symbolic link. *)
Definition in_place (X : Set) (r : IoRequest X) : X → Prop :=
  match r in IoRequest X return X → Prop with
  | OpenPath p _ => λ a, match a with Ok o => resolved_path o = Allow.clean_path p | Err _ => True end
  | _ => λ _, True
  end.

Definition handle_ok (ph : ProxyHandle) : Prop :=
  match ph with
  | HFile fh => abs_plain (fh_real_path fh) ∧ reachable (fh_real_path fh)
                ∧ (fh_writable fh = true → writable (fh_real_path fh))
  | HDir dh => abs_plain (dh_real_path dh) ∧ navigable (dh_real_path dh)
  end.

(** The invariant, with at most [n] handles open *)
Record Inv (n : nat) (h : BuildFsHandler) : Prop := mkInv {
  inv_al : allow_list h = al;
  inv_next : u64 (next_id h);
  inv_size : (size (handles h) ≤ n)%nat;
  inv_handles : map_Forall (λ _, handle_ok) (handles h);
}.

Lemma root_handle_ok : handle_ok Handler.root_handle.
Proof. split; [apply root_abs_plain|by left]. Qed.

Lemma Inv_S n h : Inv n h → Inv (S n) h.
Proof. intros []. constructor; try done. lia. Qed.

Lemma Inv_insert n h id ph :
  Inv n h → handle_ok ph → Inv (S n) (set_handles (<[id := ph]> (handles h)) h).
Proof.
  intros [Ha Hn Hs Hh] Hok. constructor; simpl; try done.
  - rewrite map_size_insert. destruct (handles h !! id); simpl; lia.
  - by apply map_Forall_insert_2.
Qed.

Lemma Inv_mmaps n h ms : Inv n h → Inv n (set_mmaps ms h).
Proof. by intros []; constructor. Qed.

Lemma Inv_delete n h id : Inv n h → Inv n (set_handles (delete id (handles h)) h).
Proof.
  intros [Ha Hn Hs Hh]. constructor; simpl; try done.
  - rewrite map_size_delete. destruct (handles h !! id); simpl; lia.
  - by apply map_Forall_delete.
Qed.

Lemma Inv_lookup n h id ph : Inv n h → handles h !! id = Some ph → handle_ok ph.
Proof. intros [_ _ _ Hh] Hl. by apply (Hh id). Qed.

(** ** Weakest preconditions of handler operations *)
Definition Mwp {A} (m : M A) (h : BuildFsHandler) (Q : result errno A → BuildFsHandler → Prop) : Prop :=
  wp confined in_place (m h) (λ rh, Q rh.1 rh.2).

Lemma Mwp_bind {A B} (m : M A) (f : A → M B) h Q :
  Mwp m h (λ r h', match r with Ok a => Mwp (f a) h' Q | Err e => Q (Err e) h' end) →
  Mwp (m ≫= f) h Q.
Proof.
  intros Hm. apply wp_bind. eapply wp_mono; [|exact Hm].
  intros [[a|e] h']; simpl; done.
Qed.

Lemma Mwp_mono {A} (m : M A) h (P Q : result errno A → BuildFsHandler → Prop) :
  (∀ r h', P r h' → Q r h') → Mwp m h P → Mwp m h Q.
Proof. intros HPQ. apply wp_mono. intros []. apply HPQ. Qed.

Lemma Mwp_alloc n h (Q : result errno Z → BuildFsHandler → Prop) :
  Inv n h → Z.of_nat n < MAX_HANDLE_ID →
  (∀ id next, 1 ≤ id ≤ MAX_HANDLE_ID → handles h !! id = None → Inv n (set_next_id next h) →
              Q (Ok id) (set_next_id next h)) →
  Mwp Handler.alloc_id h Q.
Proof.
  intros HI Hn HQ. unfold Mwp, Handler.alloc_id.
  destruct (alloc_loop_total (handles h) (next_id h)) as [[id next] E].
  { apply HI. } { pose proof (inv_size _ _ HI). lia. }
  rewrite E. simpl. apply alloc_loop_sound in E as (Hid & Hfree & Hnext).
  apply HQ; [done|done|]. destruct HI. constructor; try done. simpl.
  unfold u64, MAX_HANDLE_ID, u64_max, usize_max in *. lia.
Qed.

(** What an operation must satisfy: confined requests, the invariant kept. *)
Definition keeps {A} (n : nat) (m : M A) (h : BuildFsHandler) : Prop :=
  Mwp m h (λ _ h', Inv (S n) h').

Ltac op_start :=
  unfold keeps, Mwp, Handler.dup, mbind, M_bind, get, lift, ask_ok, ask, mret, M_ret, throw,
    modify, insert_handle in *; simpl.

Lemma keeps_get {A} n (f : BuildFsHandler → M A) h : keeps n (f h) h → keeps n (get ≫= f) h.
Proof. done. Qed.

Lemma keeps_lift {A B} n (r : result errno B) (f : B → M A) h :
  Inv n h → (∀ b, r = Ok b → keeps n (f b) h) → keeps n (lift r ≫= f) h.
Proof.
  intros HI Hf. apply Mwp_bind. destruct r; [by apply Hf | by apply Inv_S].
Qed.

Lemma in_place_resolved p o :
  abs_plain p → resolved_path o = Allow.clean_path p → abs_plain (resolved_path o) ∧ resolved_path o = p.
Proof. intros Hp ->. by rewrite (abs_plain_clean p Hp). Qed.

Lemma ancestor_reachable h p :
  allow_list h = al → Handler.is_ancestor_of_allowed h p = true → reachable p.
Proof.
  intros Ha. unfold Handler.is_ancestor_of_allowed. rewrite existsb_exists, Ha.
  intros (prefix & Hin & [Hp Hne]%andb_true_iff). right. exists prefix.
  apply bool_decide_eq_true in Hne. apply Path.path_starts_with_spec in Hp.
  apply list_elem_of_In in Hin. done.
Qed.

Lemma writable_reachable p : writable p → reachable p.
Proof. unfold writable, reachable. intros ->. by left. Qed.

(** *** Opening *)
Lemma resolve_open_abs_plain n h dirfd p abs scheme :
  Inv n h → no_dotdot p → Handler.resolve_open_path h dirfd p = Ok (abs, scheme) → abs_plain abs.
Proof.
  intros HI Hp. unfold Handler.resolve_open_path.
  assert (Hc : no_dotdot (Str.trim_matches "/" p)) by (intros Hin; apply Hp; by apply Str.split_trim).
  destruct (Str.starts_with "/" p || bool_decide (dirfd = 0)).
  - intros [= <- _]. by apply resolve_abs_plain.
  - destruct (handles h !! dirfd) as [[fh|dh]|] eqn:El; try done. intros [= <- _].
    destruct (Inv_lookup _ _ _ _ HI El) as [Hd _].
    case_decide; [done|]. by apply join_abs_plain.
Qed.

(** The permission [openat] acts on *)
Lemma effective_reachable h abs oflags :
  allow_list h = al → Handler.effective_perm h abs oflags ≠ Denied → reachable abs.
Proof.
  intros Ha. unfold Handler.effective_perm, Handler.check_with_symlink_resolution. rewrite Ha.
  case_decide as Hd.
  - destruct (Handler.is_ancestor_of_allowed h abs) eqn:E; [|done]. intros _.
    by eapply ancestor_reachable.
  - intros Hp. by left.
Qed.

Lemma effective_writable h abs oflags :
  allow_list h = al → wants_write oflags = true →
  Handler.effective_perm h abs oflags = ReadWrite → writable abs.
Proof.
  intros Ha Hw. unfold Handler.effective_perm, Handler.check_with_symlink_resolution.
  rewrite decide_False by (rewrite Hw; naive_solver). by rewrite Ha.
Qed.

Lemma keeps_open_directory n h id abs scheme oflags :
  Inv n h → abs_plain abs → reachable abs →
  keeps n (Handler.open_directory id abs scheme oflags (Allow.check al abs)) h.
Proof.
  intros HI Habs Hr. unfold Handler.open_directory. op_start. case_decide as Hc; simpl.
  - destruct Hc as [_ Hc]. split; [by left|]. intros [[]|e] _; simpl; [|by apply Inv_S].
    split; [split; [done|by intros Hz; destruct Hz]|].
    intros [o|e] Ho; simpl; [|by apply Inv_S].
    apply Inv_insert; [done|]. simpl. destruct (in_place_resolved abs o Habs Ho) as [? ->].
    by split; [|right].
  - split; [split; [done|by intros Hz; destruct Hz]|].
    intros [o|e] Ho; simpl; [|by apply Inv_S].
    apply Inv_insert; [done|]. simpl. destruct (in_place_resolved abs o Habs Ho) as [? ->].
    by split; [|right].
Qed.

Lemma keeps_open_file n h id abs scheme raw :
  Inv n h → abs_plain abs → reachable abs →
  (wants_write (translate_open_flags raw) = true → writable abs) →
  keeps n (Handler.open_file id abs scheme (translate_open_flags raw) (Allow.check al abs)) h.
Proof.
  intros HI Habs Hr Hw. unfold Handler.open_file. unfold keeps.
  apply Mwp_bind.
  eapply (Mwp_mono _ _ (λ _ h', h' = h)).
  - intros r h' ->. destruct r; [|by apply Inv_S]. op_start.
    split.
    + split; [done|]. intros Hb. apply Hw.
      destruct (wants_write (translate_open_flags raw)) eqn:E; [done|].
      exfalso. apply Hb. by apply real_no_write.
    + intros [o|e] Ho; simpl; [|by apply Inv_S].
      destruct (in_place_resolved abs o Habs Ho) as [Hp Heq].
      rewrite Heq. destruct (has _ _); simpl; (apply Inv_insert; [done|]); simpl; [|done].
      by split; [|right].
  - case_decide as Hc; [|done]. destruct (Path.parent abs) as [parent|] eqn:Ep; [|done].
    destruct Hc as [_ Hc]. op_start. split; [right; by exists abs|]. by intros [[]|e] _.
Qed.

Lemma keeps_openat n h dirfd p flags :
  Inv n h → Z.of_nat n < MAX_HANDLE_ID → no_dotdot p → keeps n (Handler.openat dirfd p flags) h.
Proof.
  intros HI Hn Hp. unfold Handler.openat.
  apply keeps_get, keeps_lift; [done|]. intros [abs scheme] Er.
  pose proof (resolve_open_abs_plain _ _ _ _ _ _ HI Hp Er) as Habs.
  pose proof (inv_al _ _ HI) as Ha.
  cbv zeta beta iota. case_decide as Hd; [by apply Inv_S|].
  pose proof (effective_reachable _ _ _ Ha Hd) as Hr.
  case_decide as Hw; [by apply Inv_S|].
  assert (Hwr : wants_write (translate_open_flags flags) = true → writable abs).
  { intros Hww. eapply effective_writable; [done|done|].
    destruct (decide (Handler.effective_perm h abs (translate_open_flags flags) = ReadWrite)); [done|].
    exfalso. by apply Hw. }
  apply Mwp_bind, (Mwp_alloc n); [done|done|]. intros id next _ _ HI'.
  unfold Handler.check_with_symlink_resolution. rewrite Ha.
  destruct (of_directory _); [by apply keeps_open_directory | by apply keeps_open_file].
Qed.

Lemma keeps_insert_new n h ph :
  Inv n h → Z.of_nat n < MAX_HANDLE_ID → handle_ok ph →
  keeps n (id ← Handler.alloc_id; insert_handle id ph ;; mret id) h.
Proof.
  intros HI Hn Hok. apply Mwp_bind, (Mwp_alloc n); [done|done|]. intros id next _ _ HI'.
  by apply Inv_insert.
Qed.

Lemma keeps_dup n h id : Inv n h → Z.of_nat n < MAX_HANDLE_ID → keeps n (Handler.dup_handle id) h.
Proof.
  intros HI Hn. apply Mwp_bind, (Mwp_alloc n); [done|done|]. intros new next _ _ HI'.
  op_start. destruct (handles h !! id) as [ph|] eqn:E; simpl; [|by apply Inv_S].
  apply (Inv_insert n (set_next_id next h)); [done|]. by eapply Inv_lookup.
Qed.

(** *** The other operations *)
Lemma keeps_unlinkat n h fd p flags : Inv n h → keeps n (Handler.unlinkat fd p flags) h.
Proof.
  intros HI. apply keeps_get, keeps_lift; [done|]. intros [abs scheme] Er.
  unfold Handler.check_with_symlink_resolution. rewrite (inv_al _ _ HI).
  case_decide as Hd; [by apply Inv_S|]. op_start.
  split; [exact Hd|]. intros [[]|e] _; by apply Inv_S.
Qed.

(** Case analysis on the handle an operation names. *)
Ltac on_handle HI :=
  apply keeps_get;
  match goal with |- context [handles ?h !! ?id] =>
    let E := fresh "El" in destruct (handles h !! id) as [[fh|dh]|] eqn:E;
    [pose proof (Inv_lookup _ _ _ _ HI E) as Hok; simpl in Hok
    |pose proof (Inv_lookup _ _ _ _ HI E) as Hok; simpl in Hok|];
    try by apply Inv_S
  end.

Lemma keeps_read n h id len offset : Inv n h → keeps n (Handler.read id len offset) h.
Proof.
  intros HI. on_handle HI. op_start. split; [apply Hok|]. intros [d|e] _; by apply Inv_S.
Qed.

Lemma keeps_write n h id buf offset : Inv n h → keeps n (Handler.write id buf offset) h.
Proof.
  intros HI. on_handle HI. destruct (fh_writable fh) eqn:Ew; [|by apply Inv_S]. op_start.
  destruct Hok as (Hp & Hr & Hw). split; [by apply Hw|]. intros [w|e] _; simpl; [|by apply Inv_S].
  case_decide; simpl; [|by apply Inv_S]. apply Inv_insert; [done|]. split_and!; [done|done|]. intros _. by apply Hw.
Qed.

Lemma keeps_fsize n h id : Inv n h → keeps n (Handler.fsize id) h.
Proof. intros HI. by on_handle HI. Qed.

Lemma keeps_fpath n h id len : Inv n h → keeps n (Handler.fpath id len) h.
Proof. intros HI. by on_handle HI. Qed.

Lemma keeps_ftruncate n h id len : Inv n h → keeps n (Handler.ftruncate id len) h.
Proof.
  intros HI. on_handle HI. destruct (fh_writable fh) eqn:Ew; [|by apply Inv_S]. op_start.
  destruct Hok as (Hp & Hr & Hw). split; [by apply Hw|]. intros [w|e] _; simpl; [|by apply Inv_S].
  case_decide; simpl; [|by apply Inv_S]. apply Inv_insert; [done|]. split_and!; [done|done|]. intros _. by apply Hw.
Qed.

Lemma writable_target h p :
  allow_list h = al → Handler.check_with_symlink_resolution h (Handler.resolve_path p) = ReadWrite →
  writable (Handler.resolve_path p).
Proof. unfold Handler.check_with_symlink_resolution, writable. by intros ->. Qed.

Lemma keeps_flink n h id p : Inv n h → keeps n (Handler.flink id p) h.
Proof.
  intros HI. apply keeps_get. cbv zeta. case_decide as Hd; [by apply Inv_S|].
  apply writable_target in Hd; [|apply HI].
  destruct (handles h !! id) as [[fh|dh]|] eqn:El; op_start; try by apply Inv_S.
  destruct (Inv_lookup _ _ _ _ HI El) as (_ & Hr & _).
  split; [done|]. intros [[]|e] _; by apply Inv_S.
Qed.

(** Moving a handle below a writable target keeps it inside the list. *)
Lemma rewrite_handle_ok old target old_scheme new_scheme ph :
  abs_plain old → abs_plain target → writable target → handle_ok ph →
  handle_ok (Handler.rewrite_handle old target old_scheme new_scheme ph).
Proof.
  intros Ho Ht Hw.
  assert (Hr : ∀ p, abs_plain p → ∀ p', Handler.rewrite_path_prefix p old target = Some p' →
                    abs_plain p' ∧ writable p').
  { intros p Hp p'. unfold Handler.rewrite_path_prefix.
    destruct (Path.strip_prefix p old) as [rest|] eqn:E; simpl; [|done]. intros [= <-].
    apply Path.path_strip_prefix_spec in E. destruct Ho as (o & -> & Ho).
    destruct Hp as (q & -> & Hq). simplify_eq/=. apply Forall_app in Hq as [_ Hrest].
    unfold Handler.rejoin. destruct Hrest as [|c rest [s ->] Hrest]; [done|].
    unfold Path.join. destruct Ht as (t & -> & Ht). simpl.
    assert (Hn : normals (Normal s :: rest)) by (constructor; [by eexists|done]).
    split; [eexists; split; [done|by apply Forall_app]|].
    unfold writable. change (RootDir :: t ++ Normal s :: rest) with ((RootDir :: t) ++ Normal s :: rest).
    apply Allow.check_rw_extend; [done| |done].
    rewrite abs_plain_clean by (by exists t). done. }
  destruct ph as [fh|dh]; simpl.
  - intros (Hp & Hreach & Hfw).
    destruct (Handler.rewrite_path_prefix (fh_real_path fh) old target) as [p'|] eqn:E; simpl; [|done].
    destruct (Hr _ Hp _ E) as [? ?]. split_and!; [done|by apply writable_reachable|done].
  - intros [Hp Hnav].
    destruct (Handler.rewrite_path_prefix (dh_real_path dh) old target) as [p'|] eqn:E; simpl; [|done].
    destruct (Hr _ Hp _ E). split; [done|right]. by apply writable_reachable.
Qed.

Lemma Inv_rewrite n h old target old_scheme new_scheme :
  abs_plain old → abs_plain target → writable target → Inv n h →
  Inv n (Handler.rewrite_open_handle_paths old target old_scheme new_scheme h).
Proof.
  intros Ho Ht Hw [Ha Hn Hs Hh]. constructor; simpl; try done.
  - by rewrite map_size_fmap.
  - intros id ph. rewrite lookup_fmap. intros (ph' & Hl & ->)%fmap_Some.
    apply rewrite_handle_ok; try done. by apply (Hh id).
Qed.

Lemma keeps_frename n h id p : Inv n h → no_dotdot p → keeps n (Handler.frename id p) h.
Proof.
  intros HI Hp. apply keeps_get. cbv zeta. case_decide as Hd; [by apply Inv_S|].
  apply writable_target in Hd; [|apply HI]. pose proof (resolve_abs_plain p Hp) as Ht.
  destruct (handles h !! id) as [ph|] eqn:El; [|by apply Inv_S].
  pose proof (Inv_lookup _ _ _ _ HI El) as Hok.
  destruct ph as [fh|dh]; op_start; (split; [split; [|done]|]);
    try (by apply Hok); try (right; by apply Hok);
    intros [[]|e] _; simpl; try (by apply Inv_S); apply Inv_S, Inv_rewrite; try done; apply Hok.
Qed.

Lemma keeps_fstat n h id buf : Inv n h → keeps n (Handler.fstat id buf) h.
Proof.
  intros HI. on_handle HI; op_start;
    (split; [by (apply Hok || (right; apply Hok))|]); intros [r|e] _; simpl; try (by apply Inv_S).
  by apply Inv_insert.
Qed.

Lemma can_write_writable h p :
  allow_list h = al → Allow.can_write (allow_list h) p = true → writable p.
Proof. intros ->. apply Allow.can_write_spec. Qed.

Lemma keeps_fchmod n h id mode : Inv n h → keeps n (Handler.fchmod id mode) h.
Proof.
  intros HI. pose proof (inv_al _ _ HI) as Ha.
  on_handle HI; (destruct (Allow.can_write (allow_list h) _) eqn:Ew; [|by apply Inv_S]); op_start;
    (split; [by eapply can_write_writable|]); intros [[]|e] _; by apply Inv_S.
Qed.

Lemma keeps_fstatvfs n h id : Inv n h → keeps n (Handler.fstatvfs id) h.
Proof. intros HI. by on_handle HI. Qed.

Lemma keeps_futimens n h id : Inv n h → keeps n (Handler.futimens id) h.
Proof. intros HI. by on_handle HI. Qed.

Lemma keeps_fevent n h id : Inv n h → keeps n (Handler.fevent id) h.
Proof. intros HI. by on_handle HI. Qed.

Lemma keeps_fcntl n h id cmd arg :
  Inv n h → Z.of_nat n < MAX_HANDLE_ID → keeps n (Handler.fcntl id cmd arg) h.
Proof.
  intros HI Hn. unfold Handler.fcntl. case_decide; [by apply keeps_dup|].
  case_decide; [by on_handle HI|].
  case_decide; [on_handle HI; apply Inv_insert; done|].
  case_decide; by apply Inv_S.
Qed.

Lemma keeps_getdents {Buf} entry n h id (buf : Buf) offset :
  Inv n h → keeps n (Handler.getdents entry id buf offset) h.
Proof.
  intros HI. on_handle HI. op_start.
  destruct (Allow.can_read (allow_list h) (dh_real_path dh)); simpl;
    (split; [apply Hok|]); intros [es|e] _; by apply Inv_S.
Qed.

Lemma keeps_mmap n h id offset size flags : Inv n h → keeps n (Handler.mmap_prep id offset size flags) h.
Proof.
  intros HI. on_handle HI. op_start. split; [apply Hok|].
  intros [m|e] _; simpl; [|by apply Inv_S]. by apply Inv_S, Inv_mmaps.
Qed.

Lemma keeps_munmap n h id offset size : Inv n h → keeps n (Handler.munmap id offset size) h.
Proof.
  intros HI. apply keeps_get. cbv zeta. generalize (match active_mmaps h !! (id, offset, size) with
    | Some _ => Some (id, offset, size) | None => Handler.find_mapping h id end).
  intros [key|]; [|by apply Inv_S]. unfold Handler.pop_token. op_start.
  destruct (active_mmaps h !! key) as [ts|]; simpl; [|by apply Inv_S].
  destruct (last ts); simpl; [|by apply Inv_S]. split; [done|]. intros _ _.
  by apply Inv_S, Inv_mmaps.
Qed.

Lemma Mwp_unmap_all ts h (Q : result errno unit → BuildFsHandler → Prop) :
  Q (Ok tt) h → Mwp (Handler.unmap_all ts) h Q.
Proof.
  intros HQ. induction ts as [|t ts IH]; [done|]. op_start. split; [done|]. intros _ _. exact IH.
Qed.

Lemma keeps_modify {A} n f (g : M A) h : keeps n g (f h) → keeps n (modify f ;; g) h.
Proof. done. Qed.

Lemma keeps_close n h id : Inv n h → keeps n (Handler.on_close id) h.
Proof.
  intros HI. apply keeps_modify, keeps_get. cbv zeta. apply keeps_modify, Mwp_unmap_all.
  by apply Inv_S, Inv_mmaps, Inv_delete.
Qed.

End safety.

(** ** Sequences of operations *)
Inductive Op : Type :=
  | OpRoot
  | OpOpenat (dirfd : Z) (p : string) (flags : Z)
  | OpUnlinkat (fd : Z) (p : string) (flags : Z)
  | OpDup (id : Z)
  | OpRead (id : Z) (buf_len : nat) (offset : Z)
  | OpWrite (id : Z) (buf : string) (offset : Z)
  | OpFsize (id : Z)
  | OpFpath (id : Z) (buf_len : nat)
  | OpFlink (id : Z) (p : string)
  | OpFrename (id : Z) (p : string)
  | OpFstat (id : Z) (buf : Stat)
  | OpGetdents (id : Z) (room : nat) (offset : Z)
  | OpFchmod (id mode : Z)
  | OpFtruncate (id len : Z)
  | OpFstatvfs (id : Z)
  | OpFutimens (id : Z)
  | OpMmapPrep (id offset size flags : Z)
  | OpMunmap (id offset size : Z)
  | OpFcntl (id cmd arg : Z)
  | OpFevent (id : Z)
  | OpClose (id : Z).

(** A buffer that holds a number of entries *)
Definition take_entry (b : nat * list string) (_ : Z) (name : string) (_ : DirentKind)
    : option (nat * list string) :=
  match b with (S k, l) => Some (k, l ++ [name]) | (O, _) => None end.

Section sequences.
Context {ABI : SyscallAbi}.

Definition exec (op : Op) : M unit :=
  match op with
  | OpRoot => Handler.scheme_root ;; mret tt
  | OpOpenat dirfd p flags => Handler.openat dirfd p flags ;; mret tt
  | OpUnlinkat fd p flags => Handler.unlinkat fd p flags
  | OpDup id => Handler.dup id ;; mret tt
  | OpRead id n offset => Handler.read id n offset ;; mret tt
  | OpWrite id buf offset => Handler.write id buf offset ;; mret tt
  | OpFsize id => Handler.fsize id ;; mret tt
  | OpFpath id n => Handler.fpath id n ;; mret tt
  | OpFlink id p => Handler.flink id p ;; mret tt
  | OpFrename id p => Handler.frename id p ;; mret tt
  | OpFstat id buf => Handler.fstat id buf ;; mret tt
  | OpGetdents id room offset => Handler.getdents take_entry id (room, []) offset ;; mret tt
  | OpFchmod id mode => Handler.fchmod id mode
  | OpFtruncate id len => Handler.ftruncate id len
  | OpFstatvfs id => Handler.fstatvfs id ;; mret tt
  | OpFutimens id => Handler.futimens id
  | OpMmapPrep id offset size flags => Handler.mmap_prep id offset size flags ;; mret tt
  | OpMunmap id offset size => Handler.munmap id offset size
  | OpFcntl id cmd arg => Handler.fcntl id cmd arg ;; mret tt
  | OpFevent id => Handler.fevent id ;; mret tt
  | OpClose id => Handler.on_close id
  end.

(** One operation after the other, whether they succeed or not *)
Fixpoint exec_all (ops : list Op) (h : BuildFsHandler) : prog BuildFsHandler :=
  match ops with
  | [] => Ret h
  | op :: ops' => prog_bind (exec op h) (λ rh, exec_all ops' rh.2)
  end.

Definition op_no_dotdot (op : Op) : bool :=
  match op with
  | OpOpenat _ p _ | OpFrename _ p => bool_decide (no_dotdot p)
  | _ => true
  end.

Variable al : AllowList.
Hypothesis Habi : abi_disjoint.

Lemma keeps_drop {A} n (m : M A) h : keeps al n m h → keeps al n (m ;; mret tt) h.
Proof. intros Hm. apply Mwp_bind. eapply Mwp_mono; [|exact Hm]. by intros [a|e] h'. Qed.

Lemma keeps_exec n op h :
  Inv al n h → Z.of_nat n < MAX_HANDLE_ID → op_no_dotdot op = true → keeps al n (exec op) h.
Proof.
  intros HI Hn Hop. destruct op; simpl in *; try apply bool_decide_eq_true in Hop;
    try apply keeps_drop.
  - apply keeps_insert_new; [done|done|]. apply root_handle_ok.
  - by apply keeps_openat.
  - by apply keeps_unlinkat.
  - by apply keeps_dup.
  - by apply keeps_read.
  - by apply keeps_write.
  - by apply keeps_fsize.
  - by apply keeps_fpath.
  - by apply keeps_flink.
  - by apply keeps_frename.
  - by apply keeps_fstat.
  - by apply keeps_getdents.
  - by apply keeps_fchmod.
  - by apply keeps_ftruncate.
  - by apply keeps_fstatvfs.
  - by apply keeps_futimens.
  - by apply keeps_mmap.
  - by apply keeps_munmap.
  - by apply keeps_fcntl.
  - by apply keeps_fevent.
  - by apply keeps_close.
Qed.

Lemma keeps_exec_all ops n h :
  Inv al n h → Z.of_nat (n + length ops) < MAX_HANDLE_ID → forallb op_no_dotdot ops = true →
  wp (confined al) in_place (exec_all ops h) (Inv al (n + length ops)).
Proof.
  revert n h. induction ops as [|op ops IH]; intros n h HI Hn Hops; simpl in *.
  - by rewrite Nat.add_0_r.
  - apply andb_true_iff in Hops as [Hop Hops]. apply wp_bind.
    eapply wp_mono; [|apply keeps_exec; [done|lia|done]].
    intros [r h'] HI'. simpl in *. replace (n + S (length ops))%nat with (S n + length ops)%nat by lia.
    apply IH; [done| |done]. lia.
Qed.

Lemma Inv_start id : Inv al 1 (Handler.install_root_handle id (Handler.new al)).
Proof.
  apply (Inv_insert al 0); [|apply root_handle_ok].
  constructor; simpl; [done|done|by rewrite map_size_empty|apply map_Forall_empty].
Qed.

End sequences.

(** C5. Confinement.  Start the proxy with its root handle and run any sequence of
    builder operations whose paths hold no [..], against any worker that opens files in
    place.  The run ends; every file opened for writing, written, truncated, changed in
    mode or unlinked lies under a read-write entry, so does every new name a rename or a
    link makes, and directories are only made along a writable path.  What is read, mapped
    or linked is readable or an ancestor of an allowed path; what is moved, looked at or
    listed is that or the root directory.  The thing moved or mapped need not be writable
    ([rename_source_unchecked], [mmap_bypasses_write_check]). *)
Theorem proxy_confinement `{SyscallAbi} {W} (worker : ∀ X : Set, IoRequest X → W → X * W)
    al id ops w :
  abi_disjoint →
  (∀ X (r : IoRequest X) w, in_place X r (worker X r w).1) →
  forallb op_no_dotdot ops = true →
  Z.of_nat (S (length ops)) < MAX_HANDLE_ID →
  ∃ h' w' trace,
    run worker (exec_all ops (Handler.install_root_handle id (Handler.new al))) w = Some (h', w', trace)
    ∧ Forall (λ r, confined al _ (projT2 r)) trace.
Proof.
  intros Habi Hw Hops Hlen.
  destruct (wp_run worker (confined al) in_place
    (exec_all ops (Handler.install_root_handle id (Handler.new al))) (Inv al (1 + length ops)) Hw) with (w := w)
    as (h' & w' & trace & Hrun & _ & Hf); [|by exists h', w', trace].
  apply keeps_exec_all; try done. apply Inv_start.
Qed.

(** What a directory that is not itself readable shows (the root, [/nix], [/tmp]):
    in strict order and without repetition, exactly the first steps towards the
    allow-list's entries and the real entries that are readable or lead to one; an entry
    has the kind the disk reports, a directory where the disk has none. *)
Theorem listing_shows_visible {W} (worker : ∀ X : Set, IoRequest X → W → X * W) h dir w :
  let answer := worker _ (ReadDir dir) w in
  let real := match answer.1 with Ok es => es | Err _ => [] end in
  ∃ es,
    run worker (Handler.list_visible_children dir h) w
      = Some ((Ok es, h), answer.2, [existT _ (ReadDir dir)])
    ∧ StronglySorted String.le es.*1 ∧ NoDup es.*1
    ∧ (∀ n, n ∈ es.*1 ↔
         (∃ prefix first rest, prefix ∈ Allow.all_prefixes (allow_list h)
            ∧ prefix = dir ++ first :: rest ∧ n = Path.comp_str first)
         ∨ (n ∈ real.*1
            ∧ Handler.is_entry_visible h (Path.join dir (Path.components n)) = true))
    ∧ (∀ n k, (n, k) ∈ es → k = default KindDirectory (Handler.kind_map real !! n)).
Proof.
  intros answer real.
  set (names := BTree.set_to_list (Handler.visible_names h dir real)).
  exists ((λ n, (n, default KindDirectory (Handler.kind_map real !! n))) <$> names).
  assert (Hfst : ((λ n, (n, default KindDirectory (Handler.kind_map real !! n))) <$> names).*1 = names).
  { rewrite <- list_fmap_compose. apply list_fmap_id. }
  rewrite Hfst. split_and!.
  - unfold Handler.list_visible_children, mbind, M_bind, get, ask. simpl. fold answer.
    unfold names, real. by destruct answer.
  - unfold names, BTree.set_to_list. apply StronglySorted_merge_sort; apply _.
  - apply BTree.NoDup_set_to_list.
  - intros n. unfold names. rewrite BTree.elem_of_set_to_list. unfold Handler.visible_names.
    rewrite elem_of_union, !elem_of_list_to_set, list_elem_of_filter. f_equiv; [|naive_solver].
    unfold Handler.allowed_children. rewrite list_elem_of_omap. split.
    + intros (prefix & Hin & Hs). destruct (Path.strip_prefix prefix dir) as [rest|] eqn:E; [|done].
      simpl in Hs. apply Path.path_strip_prefix_spec in E. destruct rest as [|first rest]; [done|].
      simplify_eq. by exists (dir ++ first :: rest), first, rest.
    + intros (prefix & first & rest & Hin & -> & ->). eexists. split; [done|].
      assert (Hs : Path.strip_prefix (dir ++ first :: rest) dir = Some (first :: rest))
        by by apply Path.path_strip_prefix_spec. by rewrite Hs.
  - intros n k (n' & [= -> ->] & _)%list_elem_of_fmap. done.
Qed.

(** ** Where confinement fails *)
Definition run_op {ABI : SyscallAbi} {W} (worker : ∀ X : Set, IoRequest X → W → X * W)
    (op : Op) (h : BuildFsHandler) (w : W) : option (list {X & IoRequest X}) :=
  snd <$> run worker (exec op h) w.

(** Memory maps bypass the write check.  Through a handle on a read-only path
    [write] and [ftruncate] are refused before the worker hears of them; a shared
    writable map is not: the proxy passes it on, and the worker opens the read-only file
    for reading and writing and maps the file itself. *)
Theorem mmap_bypasses_write_check `{SyscallAbi} {W} (worker : ∀ X : Set, IoRequest X → W → X * W)
    h id fh offset size flags w :
  handles h !! id = Some (HFile fh) → fh_writable fh = false →
  Allow.check (allow_list h) (fh_real_path fh) = ReadOnly →
  contains flags MAP_SHARED = true → contains flags PROT_WRITE = true →
  (∀ buf, run_op worker (OpWrite id buf offset) h w = Some [])
  ∧ run_op worker (OpFtruncate id size) h w = Some []
  ∧ run_op worker (OpMmapPrep id offset size flags) h w
    = Some [existT _ (MmapPath (fh_real_path fh) offset size flags)]
  ∧ worker_mmap_plan (fh_real_path fh) flags = FileBacked O_RDWR.
Proof.
  intros Hid Hw Hro Hsh Hpw.
  unfold run_op, exec, Handler.write, Handler.ftruncate, Handler.mmap_prep, mbind, M_bind, get; simpl.
  rewrite Hid. simpl. rewrite Hw. split_and!; [done|done| |].
  - unfold ask. simpl. by destruct (worker _ _ w) as [[m|e] w'].
  - unfold worker_mmap_plan. rewrite Hsh, Hpw. by rewrite orb_true_r, andb_false_r.
Qed.

(** Renaming and linking check only the new name.  Through any file handle, the
    ones opened for reading a read-only input included, [frename] and [flink] to a
    writable name make the worker move or link the input itself. *)
Theorem rename_source_unchecked `{SyscallAbi} {W} (worker : ∀ X : Set, IoRequest X → W → X * W)
    h id fh p w :
  handles h !! id = Some (HFile fh) →
  Allow.check (allow_list h) (fh_real_path fh) = ReadOnly →
  Allow.check (allow_list h) (Handler.resolve_path p) = ReadWrite →
  run_op worker (OpFrename id p) h w
    = Some [existT _ (RenamePath (fh_real_path fh) (Handler.resolve_path p))]
  ∧ run_op worker (OpFlink id p) h w
    = Some [existT _ (LinkPath (fh_real_path fh) (Handler.resolve_path p))].
Proof.
  intros Hid Hro Hrw.
  unfold run_op, exec, Handler.frename, Handler.flink, mbind, M_bind, get; simpl.
  unfold Handler.check_with_symlink_resolution. rewrite Hrw. simpl. rewrite Hid. simpl.
  unfold ask. simpl. split; by destruct (worker _ _ w) as [[[]|e] w'].
Qed.

(** ** Concrete instances *)
Module ProxyDemo.

#[local] Existing Instance redox_abi.

Definition file_stat : Stat := mkStat 0x81A4 7 1 0 0 0 0 0 4096 1 1 5.

(** A worker that grants everything and opens files in place, as the real one does below
    [/nix/store], where it returns the path it was given. *)
Definition worker (X : Set) (r : IoRequest X) (w : unit) : X * unit :=
  (match r in IoRequest X return X with
   | OpenPath p _ => Ok (mkOpenPathResult file_stat p)
   | EnsureDirTree _ => Ok tt
   | ReadAt _ _ _ _ => Ok "content"
   | WriteAt _ offset _ _ data => Ok (mkWriteResult (Z.of_nat (String.length data)) (offset + Z.of_nat (String.length data)))
   | StatPath _ _ => Ok file_stat
   | ChmodPath _ _ _ | TruncatePath _ _ _ => Ok tt
   | ReadDir _ => Ok [("store", KindDirectory); ("secret", KindRegular)]
   | ResolvePath p => Ok p
   | RenamePath _ _ | LinkPath _ _ | UnlinkPath _ _ => Ok tt
   | MmapPath _ _ _ _ => Ok (mkMmapResult 1 4096)
   | MunmapToken _ => Ok tt
   end, w).

(** The same, resolving the path it opens *)
Definition resolving_worker (X : Set) (r : IoRequest X) (w : unit) : X * unit :=
  (match r in IoRequest X return X → X with
   | OpenPath p _ => λ _, Ok (mkOpenPathResult file_stat (Allow.clean_path p))
   | _ => id
   end (worker X r w).1, w).

Definition al : AllowList :=
  mkAllowList {[ Path.components "/nix/store" ]}
    {[ Path.components "/nix/store/out"; Path.components "/tmp/b" ]}.

Definition start : BuildFsHandler := Handler.install_root_handle 0 (Handler.new al).

Definition ops : list Op :=
  [OpOpenat 0 "/nix/store/out/bin/x" 0x02020000; OpWrite 1 "data" 0; OpOpenat 0 "/nix/store/dep" 0x10000;
   OpRead 2 16 0; OpWrite 2 "data" 0; OpFrename 1 "/tmp/b/y"; OpFchmod 1 0x1FF; OpClose 1].

Lemma resolving_in_place X (r : IoRequest X) w : in_place X r (resolving_worker X r w).1.
Proof. by destruct r. Defined.

Lemma proxy_confinement_witness :
  ∃ h' w' trace, run resolving_worker (exec_all ops start) () = Some (h', w', trace)
    ∧ Forall (λ r, confined al _ (projT2 r)) trace.
Proof.
  apply (proxy_confinement resolving_worker al 0 ops ()).
  - split; [exists 30; repeat split; lia|reflexivity].
  - apply resolving_in_place.
  - vm_compute. reflexivity.
  - vm_compute. reflexivity.
Defined.

(** A handle on an input, opened for reading *)
Definition input : FileHandle :=
  mkFileHandle (Path.components "/nix/store/dep/lib.so") "nix/store/dep/lib.so" false false false 7 0x81A4.

Definition with_input : BuildFsHandler := set_handles {[ 1 := HFile input ]} start.

Lemma mmap_bypasses_write_check_witness :
  worker_mmap_plan (fh_real_path input) 0x20001 = FileBacked O_RDWR.
Proof.
  apply (mmap_bypasses_write_check worker with_input 1 input 0 4096 0x20001 ());
    vm_compute; reflexivity.
Defined.

Lemma rename_source_unchecked_witness :
  run_op worker (OpFrename 1 "/nix/store/out/lib.so") with_input ()
  = Some [existT _ (RenamePath (Path.components "/nix/store/dep/lib.so")
                               (Path.components "/nix/store/out/lib.so"))].
Proof.
  apply (rename_source_unchecked worker with_input 1 input "/nix/store/out/lib.so" ());
    vm_compute; reflexivity.
Defined.

Definition write_target (r : {X & IoRequest X}) : option path :=
  match projT2 r with WriteAt p _ _ _ _ => Some p | _ => None end.

End ProxyDemo.

(** A path that keeps its [..] escapes through a rename.  The builder opens
    [$out/d1/d2/../../victim/f] for writing (lexically below [$out]) and renames the
    directory [$out/d1/d2] one level up; the proxy rewrites the prefix of the open
    handle's path, whose [..] now leave [$out]: the next write goes to a path of the
    read-only store. *)
Theorem dotdot_rename_escapes :
  let ops := [OpOpenat 0 "/nix/store/out/d1/d2/../../victim/f" 0x20000;
              OpOpenat 0 "/nix/store/out/d1/d2" 0x10010000;
              OpFrename 2 "/nix/store/out/e"; OpWrite 1 "data" 0] in
  ∃ h trace,
    @run unit ProxyDemo.worker _ (@exec_all redox_abi ops ProxyDemo.start) () = Some (h, (), trace)
    ∧ omap ProxyDemo.write_target trace
      = [Path.components "/nix/store/out/e/../../victim/f"]
    ∧ Allow.clean_path (Path.components "/nix/store/out/e/../../victim/f")
      = Path.components "/nix/store/victim/f"
    ∧ Allow.check ProxyDemo.al (Path.components "/nix/store/out/e/../../victim/f") = ReadOnly.
Proof.
  eexists _, _. split; [vm_compute; reflexivity|].
  split; [vm_compute; reflexivity|]. split; vm_compute; reflexivity.
Qed.
