(* ===== verification/Manifest.v ===== *)
(** * The system manifest: the data of [system.rs]

    [/etc/redox-system/manifest.json] and its copies in the generation directories.  A
    [BTreeMap<String, T>] is a [gmap string T]; [u32] and [u64] fields are integers.
    Field names carry the type's initials where the source uses a name twice. *)

From S2P Require Import Prelude RustStd.

Record GenerationInfo : Type := mkGenerationInfo {
  gi_id : Z;
  gi_build_hash : string;
  gi_description : string;
  gi_timestamp : string;
}.

Record GenerationMetadata : Type := mkGenerationMetadata {
  gm_id : Z;
  gm_description : string;
  gm_timestamp : string;
}.

Record SystemInfo : Type := mkSystemInfo {
  redox_system_version : string;
  target : string;
  profile : string;
  hostname : string;
  timezone : string;
}.

Record BootConfig : Type := mkBootConfig {
  disk_size_mb : Z;
  esp_size_mb : Z;
  boot_proof : bool;
}.

Record BootComponents : Type := mkBootComponents {
  kernel : option string;
  initfs : option string;
  bootloader : option string;
}.

Record HardwareConfig : Type := mkHardwareConfig {
  storage_drivers : list string;
  network_drivers : list string;
  graphics_drivers : list string;
  audio_drivers : list string;
  usb_enabled : bool;
}.

Record NetworkingConfig : Type := mkNetworkingConfig {
  net_enabled : bool;
  net_mode : string;
  net_dns : list string;
}.

Record GraphicsConfig : Type := mkGraphicsConfig {
  gfx_enabled : bool;
  gfx_resolution : string;
}.

Record SecurityConfig : Type := mkSecurityConfig {
  protect_kernel_schemes : bool;
  require_passwords : bool;
  allow_remote_root : bool;
}.

Record LoggingConfig : Type := mkLoggingConfig {
  log_level : string;
  kernel_log_level : string;
  log_to_file : bool;
  max_log_size_mb : Z;
}.

Record PowerConfig : Type := mkPowerConfig {
  acpi_enabled : bool;
  power_action : string;
  reboot_on_panic : bool;
}.

Record Configuration : Type := mkConfiguration {
  cfg_boot : BootConfig;
  cfg_hardware : HardwareConfig;
  cfg_networking : NetworkingConfig;
  cfg_graphics : GraphicsConfig;
  cfg_security : SecurityConfig;
  cfg_logging : LoggingConfig;
  cfg_power : PowerConfig;
}.

Record Package : Type := mkPackage {
  pkg_name : string;
  pkg_version : string;
  pkg_store_path : string;
}.

Record Drivers : Type := mkDrivers {
  drv_all : list string;
  drv_initfs : list string;
  drv_core : list string;
}.

Record User : Type := mkUser {
  user_uid : Z;
  user_gid : Z;
  user_home : string;
  user_shell : string;
}.

Record Group : Type := mkGroup {
  group_gid : Z;
  group_members : list string;
}.

Record ServiceInfo : Type := mkServiceInfo {
  svc_description : string;
  svc_command : string;
  svc_type : string;
  svc_args : string;
  svc_wanted_by : string;
  svc_environment : gmap string string;
  svc_after : list string;
}.

Record Services : Type := mkServices {
  declared : gmap string ServiceInfo;
  init_scripts : list string;
  startup_script : string;
}.

Record ActivationScript : Type := mkActivationScript {
  as_name : string;
  as_deps : list string;
}.

Record FileInfo : Type := mkFileInfo {
  fi_blake3 : string;
  fi_size : Z;
  fi_mode : string;
  fi_text : option string;
}.

Record Manifest : Type := mkManifest {
  manifest_version : Z;
  m_system : SystemInfo;
  m_generation : GenerationInfo;
  m_boot : option BootComponents;
  m_configuration : Configuration;
  m_packages : list Package;
  m_drivers : Drivers;
  m_users : gmap string User;
  m_groups : gmap string Group;
  m_services : Services;
  m_activation_scripts : list ActivationScript;
  m_files : gmap string FileInfo;
  m_system_profile : string;
  m_toplevel : option string;
  m_etc_source : option string;
}.

#[export] Instance GenerationInfo_eq_dec : EqDecision GenerationInfo.
Proof. solve_decision. Defined.
#[export] Instance SystemInfo_eq_dec : EqDecision SystemInfo.
Proof. solve_decision. Defined.
#[export] Instance BootConfig_eq_dec : EqDecision BootConfig.
Proof. solve_decision. Defined.
#[export] Instance BootComponents_eq_dec : EqDecision BootComponents.
Proof. solve_decision. Defined.
#[export] Instance HardwareConfig_eq_dec : EqDecision HardwareConfig.
Proof. solve_decision. Defined.
#[export] Instance NetworkingConfig_eq_dec : EqDecision NetworkingConfig.
Proof. solve_decision. Defined.
#[export] Instance GraphicsConfig_eq_dec : EqDecision GraphicsConfig.
Proof. solve_decision. Defined.
#[export] Instance SecurityConfig_eq_dec : EqDecision SecurityConfig.
Proof. solve_decision. Defined.
#[export] Instance LoggingConfig_eq_dec : EqDecision LoggingConfig.
Proof. solve_decision. Defined.
#[export] Instance PowerConfig_eq_dec : EqDecision PowerConfig.
Proof. solve_decision. Defined.
#[export] Instance Configuration_eq_dec : EqDecision Configuration.
Proof. solve_decision. Defined.
#[export] Instance Package_eq_dec : EqDecision Package.
Proof. solve_decision. Defined.
#[export] Instance Drivers_eq_dec : EqDecision Drivers.
Proof. solve_decision. Defined.
#[export] Instance User_eq_dec : EqDecision User.
Proof. solve_decision. Defined.
#[export] Instance Group_eq_dec : EqDecision Group.
Proof. solve_decision. Defined.
#[export] Instance ServiceInfo_eq_dec : EqDecision ServiceInfo.
Proof. solve_decision. Defined.
#[export] Instance Services_eq_dec : EqDecision Services.
Proof. solve_decision. Defined.
#[export] Instance ActivationScript_eq_dec : EqDecision ActivationScript.
Proof. solve_decision. Defined.
#[export] Instance FileInfo_eq_dec : EqDecision FileInfo.
Proof. solve_decision. Defined.
#[export] Instance Manifest_eq_dec : EqDecision Manifest.
Proof. solve_decision. Defined.

Definition set_generation (g : GenerationInfo) (m : Manifest) : Manifest :=
  mkManifest (manifest_version m) (m_system m) g (m_boot m) (m_configuration m) (m_packages m)
    (m_drivers m) (m_users m) (m_groups m) (m_services m) (m_activation_scripts m) (m_files m)
    (m_system_profile m) (m_toplevel m) (m_etc_source m).

Definition set_files (fs : gmap string FileInfo) (m : Manifest) : Manifest :=
  mkManifest (manifest_version m) (m_system m) (m_generation m) (m_boot m) (m_configuration m)
    (m_packages m) (m_drivers m) (m_users m) (m_groups m) (m_services m) (m_activation_scripts m)
    fs (m_system_profile m) (m_toplevel m) (m_etc_source m).

Definition gen_id (m : Manifest) : Z := gi_id (m_generation m).

(** serde_json on manifests and on generation metadata *)
Class SystemJson : Type := {
  system_to_json : Manifest → string;
  system_from_json : string → option Manifest;
  system_json_roundtrip : ∀ m, system_from_json (system_to_json m) = Some m;
  metadata_to_json : GenerationMetadata → string;
}.

Lemma set_generation_same m : set_generation (m_generation m) m = m.
Proof. by destruct m. Qed.

Lemma set_generation_twice g g' m : set_generation g (set_generation g' m) = set_generation g m.
Proof. done. Qed.
