(* ===== verification/Generations.v ===== *)
(** * Generations: [system.rs]

    The generations directory, the garbage-collection roots of generations and their
    deletion.  The state is what [system.rs] and [activate.rs] read and write: the
    generations directory, the current manifest, the [current] link, the boot default,
    the store ([Store.disk], with its GC roots) and the rest of the filesystem
    ([FileSys.fsys]), where activation works.  Switching is in [Switch.v]. *)

From S2P Require Import Prelude RustStd FileSys Nar PathInfo Store Calendar Manifest.

Open Scope Z_scope.

(** ** State *)

(** A directory of the generations directory *)
Record GenEntry : Type := mkGenEntry {
  ge_manifest : option dbfile;
  ge_metadata : option dbfile;
}.

Record Sys : Type := mkSys {
  s_gens : option (gmap string GenEntry);
  s_manifest : option dbfile;
  s_link : option string;
  s_boot : option dbfile;
  s_disk : disk;
  s_fs : fsys;
}.

Definition set_gens g s := mkSys g (s_manifest s) (s_link s) (s_boot s) (s_disk s) (s_fs s).
Definition set_manifest m s := mkSys (s_gens s) m (s_link s) (s_boot s) (s_disk s) (s_fs s).
Definition set_link l s := mkSys (s_gens s) (s_manifest s) l (s_boot s) (s_disk s) (s_fs s).
Definition set_boot b s := mkSys (s_gens s) (s_manifest s) (s_link s) b (s_disk s) (s_fs s).
Definition set_disk d s := mkSys (s_gens s) (s_manifest s) (s_link s) (s_boot s) d (s_fs s).
Definition set_fs fs s := mkSys (s_gens s) (s_manifest s) (s_link s) (s_boot s) (s_disk s) fs.
Definition set_roots r s :=
  set_disk (mkDisk (d_db (s_disk s)) r (d_store (s_disk s))) s.

Inductive GenError : Type :=
  | ManifestNotFound
  | ManifestIo
  | ManifestBad
  | GenIoError (what : string)
  | GenNotFound (id : Z) (available : list Z)
  | NoGenerations
  | SnapshotUnreadable (file : string)
  | SnapshotModified (file : string)
  | BadBootDefault
  | BadSelector (s : string)
  | ActivationFailed (e : string)
  | RootsError (e : StoreError)
  | Panicked.

Definition G (A : Type) : Type := SR Sys GenError A.
#[export] Instance G_ret : MRet G := SR_ret Sys GenError.
#[export] Instance G_bind : MBind G := SR_bind Sys GenError.

(** How the filesystem may refuse: creating or writing a generation's files, the other
    files by name, the removal of a generation's directory, a scan. *)
Inductive link_fault : Type :=
  | LinkUntouched
  | LinkRemoved.

Class GenFaults : Type := {
  gen_mkdir_fails : string → bool;
  gen_write_fault : string → string → option write_fault;
  sys_write_fault : string → option write_fault;
  link_faults : option link_fault;
  gen_remove_leaves : string → option GenEntry;
  gen_scan_fails : bool;
}.

(** ** Manifests *)
Section Generations.
Context `{SPL : StorePathLib, IJ : InfoJson, MJ : ManifestJson, IOF : IoFaults, TF : TreeFaults,
          SJ : SystemJson, GF : GenFaults}.

(** The clock, as [current_timestamp] and the age selector read it *)
Variable now : option Z.

(** [load_manifest_from] on the file found at the path *)
Definition load_manifest_from (f : option dbfile) : result GenError Manifest :=
  match f with
  | None => Err ManifestNotFound
  | Some Unreadable => Err ManifestIo
  | Some (Text content) => ok_or ManifestBad (system_from_json content)
  end.

(** [fs::write] *)
Definition write_with (fault : option write_fault) (contents : string) (f : option dbfile)
    : bool * option dbfile :=
  match fault with
  | None => (true, Some (Text contents))
  | Some OpenFails => (false, f)
  | Some (WritesOnly part) => (false, Some (Text part))
  end.

Definition GENERATIONS_DIR : string := "/etc/redox-system/generations".
Definition CURRENT_GENERATION_LINK : string := "/nix/system/current".

Definition current_generation_link_path (gen_dir : string) : path :=
  let dir := Path.components gen_dir in
  let link := Path.components CURRENT_GENERATION_LINK in
  if decide (dir = Path.components GENERATIONS_DIR) then link
  else Path.join (default (default (Path.components "/nix/system") (Path.parent link)) (Path.parent dir))
                 [Normal "current"].

(** ** Scanning *)
Record Generation : Type := mkGeneration { g_id : Z; g_manifest : Manifest }.

Definition scan_entry (e : string * GenEntry) : option Generation :=
  id ← parse_uint u32_max e.1;
  f ← ge_manifest e.2;
  match load_manifest_from (Some f) with
  | Ok m => Some (mkGeneration id m)
  | Err _ => None
  end.

Definition id_le (g1 g2 : Generation) : Prop := g_id g1 ≤ g_id g2.
#[local] Instance id_le_dec : RelDecision id_le.
Proof. intros g1 g2. unfold id_le. apply _. Defined.

(** The order of [read_dir] is unspecified: that of the model stands for any. *)
Definition scan_generations (s : Sys) : result GenError (list Generation) :=
  match s_gens s with
  | None => Ok []
  | Some dir => if gen_scan_fails then Err (GenIoError "generations")
                else Ok (merge_sort id_le (omap scan_entry (map_to_list dir)))
  end.

Definition max_id (l : list Z) : Z := foldr Z.max 0 l.

Definition next_generation_id (s : Sys) (current : Manifest) : Z :=
  let gens := match scan_generations s with Ok gens => gens | Err _ => [] end in
  wrap32 (Z.max (max_id (g_id <$> gens)) (gen_id current) + 1).

Definition find_generation (id : Z) (gens : list Generation) : option Generation :=
  snd <$> list_find (λ g, g_id g = id) gens.

Definition not_found (id : Z) (gens : list Generation) : GenError := GenNotFound id (g_id <$> gens).

(** ** Writing *)
Definition put_gen_file (name file contents : string) : G unit := λ s,
  match s_gens s with
  | None => (Err (GenIoError name), s)
  | Some dir =>
      match dir !! name with
      | None => (Err (GenIoError name), s)
      | Some e =>
          let f := if decide (file = "manifest.json") then ge_manifest e else ge_metadata e in
          let '(ok, f') := write_with (gen_write_fault name file) contents f in
          let e' := if decide (file = "manifest.json") then mkGenEntry f' (ge_metadata e)
                    else mkGenEntry (ge_manifest e) f' in
          (if ok then Ok tt else Err (GenIoError name), set_gens (Some (<[name := e']> dir)) s)
      end
  end.

(** [fs::create_dir_all(dir.join(name))] *)
Definition make_gen_dir (name : string) : G unit := λ s,
  if gen_mkdir_fails name then (Err (GenIoError name), s)
  else
    let dir := default ∅ (s_gens s) in
    (Ok tt, set_gens (Some (match dir !! name with
                            | Some _ => dir
                            | None => <[name := mkGenEntry None None]> dir
                            end)) s).

Definition write_generation_metadata (name : string) (info : GenerationInfo) : G unit :=
  put_gen_file name "metadata.json"
    (metadata_to_json (mkGenerationMetadata (gi_id info) (gi_description info) (gi_timestamp info))).

(** The directory, the manifest and the metadata of a generation *)
Definition save_generation (m : Manifest) : G unit :=
  let name := dec (gen_id m) in
  make_gen_dir name ;;
  put_gen_file name "manifest.json" (system_to_json m) ;;
  write_generation_metadata name (m_generation m).

Definition write_manifest (m : Manifest) : G unit := λ s,
  let '(ok, f) := write_with (sys_write_fault "manifest.json") (system_to_json m) (s_manifest s) in
  (if ok then Ok tt else Err (GenIoError "manifest.json"), set_manifest f s).

(** The link is removed before it is made again. *)
Definition update_current_generation_link (generation_id : Z) : G unit := λ s,
  match link_faults with
  | None => (Ok tt, set_link (Some (dec generation_id)) s)
  | Some LinkUntouched => (Err (GenIoError "current"), s)
  | Some LinkRemoved => (Err (GenIoError "current"), set_link None s)
  end.

Definition write_boot_default (generation_id : Z) : G unit := λ s,
  let '(ok, f) := write_with (sys_write_fault "boot-default") (dec generation_id +:+ String "010" "")
                    (s_boot s) in
  (if ok then Ok tt else Err (GenIoError "boot-default"), set_boot f s).

Definition read_boot_default (s : Sys) : result GenError (option Z) :=
  match s_boot s with
  | None => Ok None
  | Some Unreadable => Err (GenIoError "boot-default")
  | Some (Text raw) =>
      let content := Str.trim raw in
      if decide (content = "") then Ok None
      else Some <$> ok_or BadBootDefault (parse_uint u32_max content)
  end.

(** ** GC roots of generations *)
Abbreviation roots_map := (gmap string root_entry).

Definition root_name (gen_id : Z) (name : string) : string := "gen-" +:+ dec gen_id +:+ "-" +:+ name.

(** One root, counted when it could be added *)
Definition try_add_root (acc : Z * roots_map) (name target : string) : Z * roots_map :=
  match add_root acc.2 name target with
  | (Ok _, roots) => (acc.1 + 1, roots)
  | (Err _, roots) => (acc.1, roots)
  end.

Definition add_generation_gc_roots (roots : roots_map) (gen_id : Z) (packages : list Package)
    : Z * roots_map :=
  foldl (λ acc pkg,
    if decide (pkg_store_path pkg = "") then acc
    else try_add_root acc (root_name gen_id (pkg_name pkg)) (pkg_store_path pkg))
    (0, roots) packages.

(** ["/nix/store/abc-kernel/boot/kernel"] to ["/nix/store/abc-kernel"] *)
Definition extract_store_dir (p : string) : string :=
  match Str.strip_prefix "/nix/store/" p with
  | Some rest => match Str.split_once "/" rest with
                 | Some (name, _) => "/nix/store/" +:+ name
                 | None => p
                 end
  | None => p
  end.

Definition add_boot_gc_roots (roots : roots_map) (gen_id : Z) (boot : option BootComponents)
    : Z * roots_map :=
  match boot with
  | None => (0, roots)
  | Some b =>
      foldl (λ acc np,
        match np.2 with
        | None => acc
        | Some p => try_add_root acc (root_name gen_id np.1) (extract_store_dir p)
        end) (0, roots)
        [("boot-kernel", kernel b); ("boot-initfs", initfs b); ("boot-bootloader", bootloader b)]
  end.

Definition add_system_gc_roots (roots : roots_map) (m : Manifest) : Z * roots_map :=
  foldl (λ acc np,
    match np.2 with
    | None => acc
    | Some p => try_add_root acc (root_name (gen_id m) np.1) p
    end) (0, roots) [("toplevel", m_toplevel m); ("etc-source", m_etc_source m)].

Definition remove_roots (names : list string) (roots : roots_map) : roots_map :=
  foldl (λ roots name, (remove_root roots name).2) roots names.

(** The number counts attempts: a removal that fails counts too. *)
Definition remove_generation_gc_roots (roots : roots_map) (gen_id : Z) : Z * roots_map :=
  match list_roots roots with
  | Err _ => (0, roots)
  | Ok rs =>
      let mine := filter (λ n, Str.starts_with (root_name gen_id "") n = true) (gr_name <$> rs) in
      (Z.of_nat (length mine), remove_roots mine roots)
  end.

Definition s_roots (s : Sys) : roots_map := d_roots (s_disk s).

Definition migrate_gc_roots_if_needed : G unit :=
  s ← sr_get;
  roots ← sr_lift (match list_roots (s_roots s) with Ok rs => Ok rs | Err e => Err (RootsError e) end);
  let old_roots := filter (λ n, Str.starts_with "system-" n = true) (gr_name <$> roots) in
  if decide (old_roots = []) then mret tt
  else
    gens ← sr_lift (scan_generations s);
    let roots := foldl (λ roots g, (add_generation_gc_roots roots (g_id g) (m_packages (g_manifest g))).2)
                   (s_roots s) gens in
    sr_put (set_roots (remove_roots old_roots roots) s).

Definition update_system_gc_roots (m : Manifest) : G unit :=
  migrate_gc_roots_if_needed ;;
  s ← sr_get;
  let roots := (add_generation_gc_roots (s_roots s) (gen_id m) (m_packages m)).2 in
  let roots := (add_boot_gc_roots roots (gen_id m) (m_boot m)).2 in
  let roots := (add_system_gc_roots roots m).2 in
  sr_put (set_roots roots s).

(** ** Deletion *)
Inductive GenerationSelector : Type :=
  | Ids (ids : list Z)
  | KeepLast (n : Z)
  | OlderThanDays (days : Z)
  | Old.

(** [s.strip_suffix(c)] *)
Fixpoint strip_suffix_char (c : ascii) (s : string) : option string :=
  match s with
  | EmptyString => None
  | String a EmptyString => if decide (a = c) then Some EmptyString else None
  | String a s' => String a <$> strip_suffix_char c s'
  end.

Definition parse_ids (s : string) : option (list Z) :=
  mapM (parse_uint u32_max) (Str.split_whitespace s).

Definition parse_generation_selector (input : string) : result GenError GenerationSelector :=
  let trimmed := Str.trim input in
  if decide (trimmed = "old") then Ok Old
  else match Str.strip_prefix "+" trimmed with
  | Some n =>
      count ← ok_or (BadSelector trimmed) (parse_uint u32_max n);
      if decide (count = 0) then Err (BadSelector trimmed) else Ok (KeepLast count)
  | None =>
      match strip_suffix_char "d" trimmed with
      | Some n => OlderThanDays <$> ok_or (BadSelector trimmed) (parse_uint u32_max n)
      | None =>
          match parse_ids trimmed with
          | Some ((_ :: _) as ids) => Ok (Ids ids)
          | _ => Err (BadSelector trimmed)
          end
      end
  end.

Record DeleteGenerationsStats : Type := mkDeleteStats {
  generations_deleted : Z;
  roots_removed : Z;
  deleted_ids : list Z;
  protected_ids : list Z;
}.

(** [gen_epoch < cutoff] for each unprotected generation; a panic of the parser aborts *)
Fixpoint older_than (cutoff : Z) (protected : gset Z) (gens : list Generation) : outcome (list Z) :=
  match gens with
  | [] => Returns []
  | g :: gens' =>
      if decide (g_id g ∈ protected) then older_than cutoff protected gens'
      else match parse_timestamp_to_epoch (gi_timestamp (m_generation (g_manifest g))) with
           | Panics => Panics
           | Returns epoch =>
               match older_than cutoff protected gens' with
               | Panics => Panics
               | Returns ids => Returns (if decide (epoch < cutoff) then g_id g :: ids else ids)
               end
           end
  end.

Definition to_delete (sel : GenerationSelector) (protected : gset Z) (gens : list Generation)
    : result GenError (list Z) :=
  match sel with
  | Ids ids => Ok (filter (.∉ protected) ids)
  | KeepLast n =>
      let sorted_ids := merge_sort Z.le (g_id <$> gens) in
      Ok (filter (.∉ protected) (take (length sorted_ids - Z.to_nat n) sorted_ids))
  | OlderThanDays days =>
      let cutoff := Z.max 0 (default 0 now - days * 86400) in
      match older_than cutoff protected gens with
      | Returns ids => Ok ids
      | Panics => Err Panicked
      end
  | Old => Ok (filter (.∉ protected) (g_id <$> gens))
  end.

(** [fs::remove_dir_all(dir.join(id))] when it exists *)
Definition remove_gen_dir (id : Z) : G unit := λ s,
  match s_gens s with
  | None => (Ok tt, s)
  | Some dir =>
      match dir !! dec id with
      | None => (Ok tt, s)
      | Some _ =>
          match gen_remove_leaves (dec id) with
          | Some e => (Err (GenIoError (dec id)), set_gens (Some (<[dec id := e]> dir)) s)
          | None => (Ok tt, set_gens (Some (base.delete (dec id) dir)) s)
          end
      end
  end.

Fixpoint delete_loop (dry_run : bool) (ids : list Z) (stats : DeleteGenerationsStats)
    : G DeleteGenerationsStats :=
  match ids with
  | [] => mret stats
  | id :: ids' =>
      removed ← (if dry_run then mret 0
                 else
                   s ← sr_get;
                   let '(n, roots) := remove_generation_gc_roots (s_roots s) id in
                   sr_put (set_roots roots s) ;; remove_gen_dir id ;; mret n);
      delete_loop dry_run ids'
        (mkDeleteStats (wrap32 (generations_deleted stats + 1)) (wrap32 (roots_removed stats + removed))
           (deleted_ids stats ++ [id]) (protected_ids stats))
  end.

Definition protected_set (current_id : Z) (boot_default : option Z) : gset Z :=
  {[ current_id ]} ∪ match boot_default with Some bd => {[ bd ]} | None => ∅ end.

Definition delete_generations (selector : string) (dry_run : bool) : G DeleteGenerationsStats :=
  s ← sr_get;
  current ← sr_lift (load_manifest_from (s_manifest s));
  boot_default_id ← sr_lift (read_boot_default s);
  gens ← sr_lift (scan_generations s);
  parsed ← sr_lift (parse_generation_selector selector);
  let protected := protected_set (gen_id current) boot_default_id in
  ids ← sr_lift (to_delete parsed protected gens);
  let skipped := match parsed with Ids l => filter (.∈ protected) l | _ => [] end in
  delete_loop dry_run ids (mkDeleteStats 0 0 [] skipped).

(** ** [system_gc]: prune, then sweep ([store::run_gc]) *)
Definition run_gc (dry_run : bool) : G GcStats := λ s,
  match list_roots (s_roots s) with
  | Err e => (Err (RootsError e), s)
  | Ok _ =>
      match garbage_collect (s_disk s) dry_run with
      | (Ok stats, d) => (Ok stats, set_disk d s)
      | (Err e, d) => (Err (RootsError e), set_disk d s)
      end
  end.

Definition gc_selector (keep : option Z) : string :=
  match keep with Some n => "+" +:+ dec n | None => "old" end.

Definition system_gc (keep : option Z) (dry_run : bool) : G unit :=
  delete_generations (gc_selector keep) dry_run ;; run_gc dry_run ;; mret tt.

End Generations.
