(* ===== verification/TopoSort.v ===== *)
(** * The order of the activation scripts: [topo_sort] of [activate.rs]

    Kahn's algorithm over the scripts' names.  A [HashMap] is a [gmap]; the one place
    where its iteration order would show is sorted by the source, except in the text of
    the cycle error, which is the list of names in any order. *)

From S2P Require Import Prelude RustStd Manifest.

Open Scope Z_scope.

Inductive TopoError : Type :=
  | UnknownDep (script dep : string)
  | DependencyCycle (in_cycle : list string)
  | TopoPanicked.

(** [in_degree] and [dependents] while the scripts are read *)
Record Graph : Type := mkGraph {
  in_degree : gmap string Z;
  dependents : gmap string (list string);
}.

Definition add_dep (name : string) (g : Graph) (dep : string) : Graph :=
  mkGraph (<[name := wrap64 (default 0 (in_degree g !! name) + 1)]> (in_degree g))
          (<[dep := default [] (dependents g !! dep) ++ [name]]> (dependents g)).

Definition add_script (g : Graph) (s : ActivationScript) : Graph :=
  foldl (add_dep (as_name s))
    (mkGraph (<[as_name s := default 0 (in_degree g !! as_name s)]> (in_degree g)) (dependents g))
    (as_deps s).

Definition build_graph (scripts : list ActivationScript) : Graph :=
  foldl add_script (mkGraph ∅ ∅) scripts.

(** The first dependency, in the scripts' order, that no script has as its name *)
Definition unknown_dep (scripts : list ActivationScript) : option (string * string) :=
  let names : gset string := list_to_set (as_name <$> scripts) in
  head (filter (λ e, e.2 ∉ names) (scripts ≫= λ s, (λ d, (as_name s, d)) <$> as_deps s)).

(** The dependents of a node that was taken: their degrees drop, and those that reach
    zero are ready.  [None] is the panic of [get_mut(dep).unwrap()]. *)
Fixpoint release (deg : gmap string Z) (deps : list string) (next : list string)
    : option (gmap string Z * list string) :=
  match deps with
  | [] => Some (deg, next)
  | dep :: deps' =>
      match deg !! dep with
      | None => None
      | Some d =>
          let d' := wrap64 (d - 1) in
          release (<[dep := d']> deg) deps' (if decide (d' = 0) then next ++ [dep] else next)
      end
  end.

(** [while let Some(name) = queue.pop_front()]; [None] when the fuel is used up *)
Fixpoint kahn (fuel : nat) (deps : gmap string (list string)) (deg : gmap string Z)
    (queue order : list string) : option (result TopoError (gmap string Z * list string)) :=
  match fuel, queue with
  | _, [] => Some (Ok (deg, order))
  | O, _ => None
  | S fuel', name :: queue' =>
      match release deg (default [] (deps !! name)) [] with
      | None => Some (Err TopoPanicked)
      | Some (deg', next) =>
          kahn fuel' deps deg' (queue' ++ merge_sort String.le next) (order ++ [name])
      end
  end.

Definition topo_sort (scripts : list ActivationScript) : option (result TopoError (list string)) :=
  if decide (scripts = []) then Some (Ok [])
  else match unknown_dep scripts with
  | Some (s, d) => Some (Err (UnknownDep s d))
  | None =>
      let g := build_graph scripts in
      let zero_deg := merge_sort String.le (filter (λ e, e.2 = 0) (map_to_list (in_degree g))).*1 in
      match kahn (S (length scripts)) (dependents g) (in_degree g) zero_deg [] with
      | None => None
      | Some (Err e) => Some (Err e)
      | Some (Ok (deg, order)) =>
          if decide (length order = length scripts) then Some (Ok order)
          else Some (Err (DependencyCycle (BTree.to_list (filter (λ e, 0 < e.2) deg)).*1))
      end
  end.

(** ** The graph that is built *)

(** A dependency and the script that has it, once for each time it is written *)
Abbreviation edge := (string * string)%type.

Definition edges (scripts : list ActivationScript) : list edge :=
  scripts ≫= λ s, (λ d, (d, as_name s)) <$> as_deps s.

Definition degree (n : string) (es : list edge) : Z := Z.of_nat (length (filter (λ e, e.2 = n) es)).
Definition targets (d : string) (es : list edge) : list string := (filter (λ e, e.1 = d) es).*2.

Record graph_of (g : Graph) (names : list string) (es : list edge) : Prop := mkGraphOf {
  go_degree : ∀ n, in_degree g !! n = if decide (n ∈ names) then Some (degree n es) else None;
  go_targets : ∀ d, default [] (dependents g !! d) = targets d es;
}.

Lemma degree_app n es es' : degree n (es ++ es') = degree n es + degree n es'.
Proof. unfold degree. rewrite filter_app, length_app. lia. Qed.

Lemma degree_le n es : 0 ≤ degree n es ≤ Z.of_nat (length es).
Proof. unfold degree. pose proof (length_filter (λ e : edge, e.2 = n) es). lia. Qed.

Lemma degree_one n e : degree n [e] = if decide (e.2 = n) then 1 else 0.
Proof. unfold degree. rewrite filter_cons, filter_nil. by destruct (decide (e.2 = n)). Qed.

Lemma degree_pos n es : 0 < degree n es ↔ ∃ d, (d, n) ∈ es.
Proof.
  unfold degree. split.
  - destruct (filter (λ e : edge, e.2 = n) es) as [|[d m] l] eqn:E; simpl; [lia|]. intros _. exists d.
    assert (H : (d, m) ∈ filter (λ e : edge, e.2 = n) es) by (rewrite E; left).
    apply list_elem_of_filter in H as [Hm H]. simpl in Hm. by subst.
  - intros [d Hd]. assert (H : (d, n) ∈ filter (λ e : edge, e.2 = n) es)
      by by apply list_elem_of_filter.
    destruct (filter _ es); [by apply not_elem_of_nil in H|simpl; lia].
Qed.

Lemma targets_app d es es' : targets d (es ++ es') = targets d es ++ targets d es'.
Proof. unfold targets. by rewrite filter_app, fmap_app. Qed.

Lemma elem_of_targets d n es : n ∈ targets d es ↔ (d, n) ∈ es.
Proof.
  unfold targets. rewrite list_elem_of_fmap. setoid_rewrite list_elem_of_filter. split.
  - intros ([d' n'] & -> & <- & H). done.
  - intros H. by exists (d, n).
Qed.

Lemma add_dep_graph g names es name dep :
  graph_of g names es → name ∈ names → Z.of_nat (length (es ++ [(dep, name)])) ≤ u64_max →
  graph_of (add_dep name g dep) names (es ++ [(dep, name)]).
Proof.
  intros [Hd Ht] Hn Hb. constructor; simpl.
  - intros n. rewrite degree_app, degree_one. simpl. pose proof (degree_le name es).
    rewrite length_app in Hb. simpl in Hb.
    destruct (decide (name = n)) as [->|Hne].
    + rewrite lookup_insert_eq, Hd. rewrite !decide_True by done. simpl.
      rewrite wrap64_small; [done|unfold u64; lia].
    + rewrite lookup_insert_ne, Hd by done. case_decide; [f_equal; lia|done].
  - intros d. rewrite targets_app. destruct (decide (dep = d)) as [->|Hne].
    + rewrite lookup_insert_eq. simpl. rewrite Ht. f_equal. unfold targets.
      rewrite filter_cons_True by done. done.
    + rewrite lookup_insert_ne, Ht by done. unfold targets.
      rewrite filter_cons_False by done. by rewrite filter_nil, app_nil_r.
Qed.

Lemma add_deps_graph deps g names es name :
  graph_of g names es → name ∈ names →
  Z.of_nat (length (es ++ ((λ d, (d, name)) <$> deps))) ≤ u64_max →
  graph_of (foldl (add_dep name) g deps) names (es ++ ((λ d, (d, name)) <$> deps)).
Proof.
  revert g es. induction deps as [|d deps IH]; intros g es Hg Hn Hb; simpl.
  - by rewrite app_nil_r.
  - rewrite cons_middle, app_assoc. apply IH; [|done|by rewrite <- app_assoc].
    apply add_dep_graph; [done|done|]. simpl in Hb. rewrite !length_app in *. simpl in *. lia.
Qed.

Lemma add_script_graph g names es s :
  graph_of g names es → (∀ e, e ∈ es → e.2 ∈ names) →
  Z.of_nat (length (es ++ ((λ d, (d, as_name s)) <$> as_deps s))) ≤ u64_max →
  graph_of (add_script g s) (names ++ [as_name s]) (es ++ ((λ d, (d, as_name s)) <$> as_deps s)).
Proof.
  intros [Hd Ht] Hes Hb. unfold add_script. apply add_deps_graph; [|set_solver|done].
  constructor; simpl; [|done]. intros n. destruct (decide (as_name s = n)) as [Heq|Hne].
  - subst n. rewrite lookup_insert_eq, Hd.
    destruct (decide (as_name s ∈ names ++ [as_name s])) as [_|[]]; [|set_solver]. f_equal.
    destruct (decide (as_name s ∈ names)) as [|Hin]; [done|]. simpl. symmetry.
    destruct (decide (0 < degree (as_name s) es)) as [Hp|]; [|pose proof (degree_le (as_name s) es); lia].
    apply degree_pos in Hp as [d Hd']. by apply Hes in Hd'.
  - rewrite lookup_insert_ne, Hd by done. destruct (decide (n ∈ names)).
    + rewrite decide_True; [done|set_solver].
    + rewrite decide_False; [done|set_solver].
Qed.

Lemma elem_of_edges scripts d n :
  (d, n) ∈ edges scripts ↔ ∃ s, s ∈ scripts ∧ as_name s = n ∧ d ∈ as_deps s.
Proof.
  unfold edges. rewrite list_elem_of_bind. split.
  - intros (s & (d' & [= -> ->] & Hd)%list_elem_of_fmap & Hs). eauto.
  - intros (s & Hs & <- & Hd). exists s. split; [|done]. by apply (list_elem_of_fmap_2 (λ d, (d, as_name s))).
Qed.

Lemma build_graph_of scripts :
  Z.of_nat (length (edges scripts)) ≤ u64_max →
  graph_of (build_graph scripts) (as_name <$> scripts) (edges scripts).
Proof.
  unfold build_graph. induction scripts as [|s scripts IH] using rev_ind; intros Hb.
  - constructor; [|done]. intros n. done.
  - unfold edges in *. rewrite bind_app in *. simpl in *. rewrite app_nil_r in *.
    rewrite foldl_snoc, fmap_app. apply add_script_graph; [apply IH| |done].
    + rewrite length_app in Hb. lia.
    + intros [d n] He. apply (elem_of_edges scripts) in He as (s' & Hs' & <- & _). simpl.
      by apply list_elem_of_fmap_2.
Qed.

(** ** The loop *)
Section loop.
Context (names : list string) (es : list edge).
Hypothesis Hes : ∀ d n, (d, n) ∈ es → d ∈ names ∧ n ∈ names.
Hypothesis Hbound : Z.of_nat (length es) ≤ u64_max.

(** The edges whose source is still to come *)
Definition pending (order : list string) (n : string) : Z :=
  degree n (filter (λ e, e.1 ∉ order) es).

Lemma pending_nonneg order n : 0 ≤ pending order n.
Proof. apply degree_le. Qed.

Lemma pending_pos order n : 0 < pending order n ↔ ∃ d, (d, n) ∈ es ∧ d ∉ order.
Proof.
  clear Hes Hbound. unfold pending. rewrite degree_pos. setoid_rewrite list_elem_of_filter. simpl. naive_solver.
Qed.

Definition count (n : string) (l : list string) : Z := Z.of_nat (length (filter (.= n) l)).

Lemma count_cons n x l : count n (x :: l) = (if decide (x = n) then 1 else 0) + count n l.
Proof. unfold count. rewrite filter_cons. case_decide; simpl length; lia. Qed.

Lemma count_pos n l : 0 < count n l ↔ n ∈ l.
Proof.
  unfold count. induction l as [|x l IH]; [split; [done|by intros ?%not_elem_of_nil]|].
  rewrite filter_cons, elem_of_cons, <- IH. destruct (decide (x = n)) as [->|].
  - simpl length. split; [by left|lia].
  - split; [by right|]. by intros [->|].
Qed.

Lemma count_nonneg n l : 0 ≤ count n l.
Proof. unfold count. lia. Qed.

(** Taking a node releases one edge for each time the target is listed *)
Lemma pending_snoc order name n :
  name ∉ order → pending order n = pending (order ++ [name]) n + count n (targets name es).
Proof.
  intros Hn. unfold pending, targets, degree, count. clear Hes Hbound.
  induction es as [|[d m] l IH]; [done|]. rewrite !filter_cons. cbn [fst snd].
  destruct (decide (d = name)) as [->|Hd].
  - rewrite (decide_True (P := name ∉ order)) by done.
    rewrite (decide_False (P := name ∉ order ++ [name])) by set_solver.
    rewrite fmap_cons, !filter_cons. cbn [fst snd].
    destruct (decide (m = n)); cbn [length]; lia.
  - destruct (decide (d ∉ order)).
    + rewrite (decide_True (P := d ∉ order ++ [name])) by set_solver.
      rewrite !filter_cons. cbn [fst snd]. destruct (decide (m = n)); cbn [length]; lia.
    + rewrite (decide_False (P := d ∉ order ++ [name])) by set_solver. done.
Qed.

(** [release] lowers each degree by the times the node is listed, and collects once those
    that reach zero *)
Lemma release_spec (base : string → Z) l deg next :
  (∀ n, 0 ≤ base n) → (∀ n, base n + count n l ≤ u64_max) → (∀ n, n ∈ l → n ∈ names) →
  (∀ n, deg !! n = if decide (n ∈ names) then Some (base n + count n l) else None) →
  ∃ deg' ready, release deg l next = Some (deg', next ++ ready)
    ∧ (∀ n, deg' !! n = if decide (n ∈ names) then Some (base n) else None)
    ∧ NoDup ready ∧ (∀ n, n ∈ ready ↔ n ∈ l ∧ base n = 0).
Proof.
  clear Hes Hbound. intros Hpos. revert deg next.
  induction l as [|x l IH]; intros deg next Hb Hl Hdeg.
  - exists deg, []. rewrite app_nil_r. split_and!; [done| |constructor|set_solver].
    intros n. rewrite Hdeg. case_decide; [|done]. unfold count. simpl. f_equal. lia.
  - simpl. rewrite Hdeg, decide_True by (apply Hl; left).
    pose proof (count_nonneg x l). pose proof (Hpos x). pose proof (Hb x) as Hbx.
    rewrite count_cons, decide_True in Hbx |- * by done.
    replace (base x + (1 + count x l) - 1) with (base x + count x l) by lia.
    rewrite wrap64_small by (unfold u64; lia).
    edestruct (IH (<[x:=base x + count x l]> deg)
      (if decide (base x + count x l = 0) then next ++ [x] else next))
      as (deg' & ready & Hr & Hdeg' & Hnd & Hin).
    + intros n. specialize (Hb n). rewrite count_cons in Hb. case_decide; lia.
    + intros n Hn. apply Hl. by right.
    + intros n. destruct (decide (x = n)) as [<-|Hne].
      * rewrite lookup_insert_eq. rewrite decide_True; [done|apply Hl; left].
      * rewrite lookup_insert_ne, Hdeg by done. rewrite count_cons, (decide_False (P := x = n)) by done.
        case_decide; [f_equal; lia|done].
    + destruct (decide (base x + count x l = 0)) as [Hz|Hz].
      * exists deg', (x :: ready). split_and!; [etrans; [exact Hr|by rewrite <- app_assoc]|done| |].
        -- constructor; [|done]. rewrite Hin. intros [Hx _]. apply count_pos in Hx. lia.
        -- intros n. rewrite !elem_of_cons, Hin. split; [|naive_solver].
           intros [->|[? ?]]; [split; [by left|lia]|by split; [right|]].
      * exists deg', ready. split_and!; [exact Hr|done|done|].
        intros n. rewrite Hin, elem_of_cons. split; [naive_solver|].
        intros [[->|?] Hbn]; [|done]. split; [|done]. apply count_pos. lia.
Qed.

(** Every node comes after all the sources of its edges *)
Definition ordered (order : list string) : Prop :=
  ∀ before n after, order = before ++ n :: after → ∀ d, (d, n) ∈ es → d ∈ before.

Record kahn_inv (deg : gmap string Z) (queue order : list string) : Prop := mkKahnInv {
  ki_nodup : NoDup (order ++ queue);
  ki_names : ∀ n, n ∈ order ++ queue → n ∈ names;
  ki_degree : ∀ n, deg !! n = if decide (n ∈ names) then Some (pending order n) else None;
  ki_ready : ∀ n, n ∈ names → n ∈ order ++ queue ↔ pending order n = 0;
  ki_ordered : ordered order;
}.

Lemma ordered_snoc order n :
  ordered order → (∀ d, (d, n) ∈ es → d ∈ order) → ordered (order ++ [n]).
Proof.
  intros Ho Hn before m after Heq d Hd.
  destruct after as [|y after _] using rev_ind.
  - apply app_inj_tail in Heq as [-> ->]. by apply Hn.
  - rewrite app_comm_cons, app_assoc in Heq. apply app_inj_tail in Heq as [-> _].
    by eapply Ho.
Qed.

Lemma kahn_step deg name queue order (deps : gmap string (list string)) :
  (∀ d, default [] (deps !! d) = targets d es) →
  kahn_inv deg (name :: queue) order →
  ∃ deg' next, release deg (default [] (deps !! name)) [] = Some (deg', next)
    ∧ kahn_inv deg' (queue ++ merge_sort String.le next) (order ++ [name]).
Proof.
  intros Hdeps [Hnd Hnames Hdeg Hready Hord].
  assert (Hno : name ∉ order) by (apply NoDup_app in Hnd as (_ & Hd & _); intros H; apply (Hd _ H); left).
  assert (Hp0 : pending order name = 0) by (apply Hready; [apply Hnames|]; set_solver).
  destruct (release_spec (pending (order ++ [name])) (targets name es) deg [])
    as (deg' & ready & Hr & Hdeg' & Hnr & Hin).
  - apply pending_nonneg.
  - intros n. rewrite <- pending_snoc by done. unfold pending.
    pose proof (degree_le n (filter (λ e, e.1 ∉ order) es)).
    pose proof (length_filter (λ e : edge, e.1 ∉ order) es). lia.
  - intros n Hn. apply elem_of_targets, Hes in Hn. tauto.
  - intros n. rewrite Hdeg. by rewrite (pending_snoc order name n Hno).
  - exists deg', ready. rewrite Hdeps. split; [exact Hr|].
    assert (Hnew : ∀ n, n ∈ ready → n ∉ order ++ name :: queue).
    { intros n [Hn Hpn]%Hin Hin'. pose proof (Hnames _ Hin'). apply Hready in Hin'; [|done].
      apply count_pos in Hn. rewrite (pending_snoc _ name) in Hin' by done. lia. }
    assert (Heq : ∀ n, n ∈ (order ++ [name]) ++ queue ++ merge_sort String.le ready
                       ↔ n ∈ order ++ name :: queue ∨ n ∈ ready).
    { intros n. assert (Hms : n ∈ merge_sort String.le ready ↔ n ∈ ready)
        by by rewrite (merge_sort_Permutation String.le ready).
      set_solver. }
    constructor.
    + rewrite <- app_assoc. simpl. rewrite (app_comm_cons queue), app_assoc. apply NoDup_app.
      split; [done|]. split; [|by rewrite (merge_sort_Permutation String.le ready)].
      intros n Hn1 Hn2. rewrite (merge_sort_Permutation String.le ready) in Hn2. by apply (Hnew n).
    + intros n [Hn|Hn]%Heq; [by apply Hnames|]. apply Hin in Hn as [Hn _].
      apply elem_of_targets, Hes in Hn. tauto.
    + done.
    + intros n Hn. rewrite Heq, Hready, Hin, (pending_snoc _ name) by done.
      pose proof (pending_nonneg (order ++ [name]) n). pose proof (count_nonneg n (targets name es)).
      rewrite <- count_pos. lia.
    + apply ordered_snoc; [done|]. intros d Hd.
      destruct (decide (d ∈ order)) as [|Hnd']; [done|exfalso].
      assert (0 < pending order name); [apply pending_pos; eauto|lia].
Qed.

(** The loop ends within as many rounds as there are names *)
Lemma kahn_spec fuel (deps : gmap string (list string)) deg queue order :
  (∀ d, default [] (deps !! d) = targets d es) →
  kahn_inv deg queue order → (length names ≤ length order + fuel)%nat →
  ∃ deg' order', kahn fuel deps deg queue order = Some (Ok (deg', order')) ∧ kahn_inv deg' [] order'.
Proof.
  intros Hdeps. revert deg queue order. induction fuel as [|fuel IH]; intros deg queue order Hinv Hfuel.
  - destruct queue as [|name queue]; [by exists deg, order|exfalso].
    destruct Hinv as [Hnd Hnames _ _ _].
    assert (length (order ++ name :: queue) ≤ length names)%nat by (apply submseteq_length, NoDup_submseteq; done).
    rewrite length_app in *. simpl in *. lia.
  - destruct queue as [|name queue]; [by exists deg, order|].
    destruct (kahn_step _ _ _ _ _ Hdeps Hinv) as (deg' & next & Hr & Hinv').
    simpl. rewrite Hr. apply IH; [done|]. rewrite length_app. simpl. lia.
Qed.

End loop.

(** ** The whole function *)
Section topo_sort.
Context (scripts : list ActivationScript).
Hypothesis Hbound : Z.of_nat (length (edges scripts)) ≤ u64_max.

Lemma unknown_dep_None :
  unknown_dep scripts = None → ∀ d n, (d, n) ∈ edges scripts → d ∈ as_name <$> scripts ∧ n ∈ as_name <$> scripts.
Proof.
  clear Hbound. unfold unknown_dep. intros Hu d n (s & Hs & <- & Hd)%elem_of_edges.
  split; [|by apply list_elem_of_fmap_2].
  destruct (decide (d ∈ as_name <$> scripts)) as [|Hno]; [done|exfalso].
  apply head_None in Hu.
  assert (Hin : (as_name s, d) ∈ (scripts ≫= λ s, (λ d, (as_name s, d)) <$> as_deps s)).
  { apply list_elem_of_bind. exists s. split; [|done]. by apply (list_elem_of_fmap_2 (λ d, (as_name s, d))). }
  assert (Hf : (as_name s, d) ∈ (@nil (string * string))); [|by apply not_elem_of_nil in Hf].
  rewrite <- Hu. apply list_elem_of_filter. split; [|done]. simpl. by rewrite elem_of_list_to_set.
Qed.

Lemma unknown_dep_Some n d :
  unknown_dep scripts = Some (n, d) → (d, n) ∈ edges scripts ∧ d ∉ as_name <$> scripts.
Proof.
  clear Hbound. unfold unknown_dep. intros Hu. apply head_Some_elem_of in Hu.
  apply list_elem_of_filter in Hu as [Hd Hin]. simpl in Hd. rewrite elem_of_list_to_set in Hd.
  split; [|done]. apply list_elem_of_bind in Hin as (s & (d' & [= -> ->] & Hd')%list_elem_of_fmap & Hs).
  apply elem_of_edges. eauto.
Qed.

Definition ready_first (g : Graph) : list string :=
  merge_sort String.le (filter (λ e, e.2 = 0) (map_to_list (in_degree g))).*1.

Lemma kahn_inv_init g :
  graph_of g (as_name <$> scripts) (edges scripts) →
  kahn_inv (as_name <$> scripts) (edges scripts) (in_degree g) (ready_first g) [].
Proof.
  clear Hbound. intros [Hd _].
  assert (Hp : ∀ n, pending (edges scripts) [] n = degree n (edges scripts)).
  { intros n. unfold pending. f_equal. clear Hd. induction (edges scripts) as [|e l IH]; [done|].
    rewrite filter_cons_True by set_solver. by rewrite IH. }
  assert (Hin : ∀ n, n ∈ ready_first g ↔ n ∈ as_name <$> scripts ∧ degree n (edges scripts) = 0).
  { intros n. unfold ready_first. rewrite (merge_sort_Permutation String.le).
    rewrite list_elem_of_fmap. setoid_rewrite list_elem_of_filter. split.
    - intros ([m z] & -> & Hz & Hm). simpl in *. subst z. apply elem_of_map_to_list in Hm.
      rewrite Hd in Hm. destruct (decide (m ∈ as_name <$> scripts)); [|done]. split; [done|congruence].
    - intros [Hn Hz]. exists (n, 0). split_and!; [done..|]. apply elem_of_map_to_list.
      rewrite Hd, decide_True by done. by rewrite Hz. }
  constructor; simpl.
  - unfold ready_first. rewrite (merge_sort_Permutation String.le).
    pose proof (NoDup_fst_map_to_list (in_degree g)) as Hnd.
    eapply sublist_NoDup; [exact Hnd|]. apply fmap_sublist, sublist_filter.
  - intros n Hn. apply Hin in Hn. tauto.
  - intros n. by rewrite Hp.
  - intros n Hn. rewrite Hin, Hp. tauto.
  - intros before n after Heq. by destruct before.
Qed.

(** What [topo_sort] answers on a list whose dependencies are known *)
Lemma topo_sort_known :
  unknown_dep scripts = None → scripts ≠ [] →
  ∃ deg order, kahn_inv (as_name <$> scripts) (edges scripts) deg [] order
    ∧ topo_sort scripts = Some (if decide (length order = length scripts) then Ok order
        else Err (DependencyCycle (BTree.to_list (filter (λ e, 0 < e.2) deg)).*1)).
Proof.
  intros Hu Hne. pose proof (build_graph_of _ Hbound) as Hg.
  destruct (kahn_spec (as_name <$> scripts) (edges scripts) (unknown_dep_None Hu) Hbound
    (S (length scripts)) (dependents (build_graph scripts)) (in_degree (build_graph scripts))
    (ready_first (build_graph scripts)) []) as (deg & order & Hk & Hinv).
  - apply Hg.
  - by apply kahn_inv_init.
  - rewrite length_fmap. simpl. lia.
  - exists deg, order. split; [done|]. unfold topo_sort. rewrite decide_False, Hu by done.
    unfold ready_first in Hk. rewrite Hk. by case_decide.
Qed.

(** The nodes of the cycle error *)
Lemma stuck_nodes deg order :
  kahn_inv (as_name <$> scripts) (edges scripts) deg [] order →
  ∀ n, n ∈ (BTree.to_list (filter (λ e, 0 < e.2) deg)).*1 ↔ n ∈ as_name <$> scripts ∧ n ∉ order.
Proof.
  intros [Hnd Hnames Hdeg Hready _] n. change ((BTree.to_list ?m).*1) with (BTree.keys m).
  rewrite BTree.elem_of_keys. setoid_rewrite app_nil_r in Hready.
  pose proof (pending_nonneg (edges scripts) order n) as Hp. split.
  - intros [z [Hz Hpos]%map_lookup_filter_Some]. simpl in Hpos. rewrite Hdeg in Hz.
    destruct (decide (n ∈ as_name <$> scripts)) as [Hn|]; [|done]. injection Hz as <-.
    split; [done|]. specialize (Hready n Hn). intros Ho. apply Hready in Ho. lia.
  - intros [Hn Ho]. exists (pending (edges scripts) order n). apply map_lookup_filter_Some. simpl.
    rewrite Hdeg, decide_True by done. split; [done|].
    specialize (Hready n Hn).
    destruct (decide (pending (edges scripts) order n = 0)) as [Hz|]; [|lia].
    by apply Hready in Hz.
Qed.

End topo_sort.

(** C23. [topo_sort] always answers.  On success the order is a permutation of the
    scripts' names, which are distinct, in which every script comes after each script it
    depends on.  An unknown-dependency error names a script and a dependency of it that no
    script bears.  The cycle error is given only when every dependency is known and no
    order exists: either two scripts have the same name, or the scripts it names are a
    non-empty set each of which depends on one of the set.  It never panics. *)
Theorem topo_sort_spec scripts :
  Z.of_nat (length (edges scripts)) ≤ u64_max →
  let names := as_name <$> scripts in
  match topo_sort scripts with
  | None | Some (Err TopoPanicked) => False
  | Some (Ok order) =>
      (order ≡ₚ names) ∧ NoDup names ∧
      ∀ s d, s ∈ scripts → d ∈ as_deps s →
        ∃ before after, order = before ++ as_name s :: after ∧ d ∈ before
  | Some (Err (UnknownDep n d)) =>
      (d ∉ names) ∧ ∃ s, s ∈ scripts ∧ as_name s = n ∧ d ∈ as_deps s
  | Some (Err (DependencyCycle c)) =>
      (∀ s d, s ∈ scripts → d ∈ as_deps s → d ∈ names)
      ∧ (NoDup names → c ≠ [])
      ∧ ∀ n, n ∈ c → ∃ s d, s ∈ scripts ∧ as_name s = n ∧ d ∈ as_deps s ∧ d ∈ c
  end.
Proof.
  intros Hb names. destruct (decide (scripts = [])) as [->|Hne].
  { simpl. split_and!; [done|constructor|]. by intros s d ?%not_elem_of_nil. }
  destruct (unknown_dep scripts) as [[n d]|] eqn:Hu.
  { unfold topo_sort. rewrite decide_False, Hu by done.
    apply unknown_dep_Some in Hu as [(s & Hs & <- & Hd)%elem_of_edges Hno]. eauto. }
  pose proof (unknown_dep_None _ Hu) as Hes.
  destruct (topo_sort_known _ Hb Hu Hne) as (deg & order & Hinv & ->).
  pose proof (stuck_nodes _ _ _ Hinv) as Hstuck. destruct Hinv as [Hnd Hnames Hdeg Hready Hord].
  rewrite app_nil_r in Hnd. setoid_rewrite app_nil_r in Hnames. setoid_rewrite app_nil_r in Hready.
  fold names in Hnames, Hready, Hes, Hstuck.
  assert (Hlen : length names = length scripts) by apply length_fmap. case_decide as Hl.
  - assert (Hperm : order ≡ₚ names).
    { apply submseteq_length_Permutation; [by apply NoDup_submseteq|lia]. }
    split; [done|]. split; [by rewrite <- Hperm|]. intros s d Hs Hd.
    assert (Hin : as_name s ∈ order) by (rewrite Hperm; by apply list_elem_of_fmap_2).
    apply list_elem_of_split in Hin as (before & after & ->). exists before, after. split; [done|].
    apply (Hord before (as_name s) after eq_refl). apply elem_of_edges. eauto.
  - split_and!.
    + intros s d Hs Hd. apply (Hes d (as_name s)). apply elem_of_edges. eauto.
    + intros Hnn Hc. apply Hl. rewrite <- Hlen. apply Permutation_length.
      apply NoDup_Permutation; [done|done|]. intros n. split; [apply Hnames|].
      intros Hn. destruct (decide (n ∈ order)) as [|Hno]; [done|exfalso].
      apply (not_elem_of_nil n). rewrite <- Hc. by apply Hstuck.
    + intros n [Hn Hno]%Hstuck.
      assert (Hp : 0 < pending (edges scripts) order n).
      { pose proof (pending_nonneg (edges scripts) order n).
        destruct (decide (pending (edges scripts) order n = 0)) as [Hz|]; [|lia].
        by apply Hready in Hz. }
      apply pending_pos in Hp as (d & Hd & Hdo). pose proof (Hes _ _ Hd) as [Hdn _].
      apply elem_of_edges in Hd as (s & Hs & <- & Hsd). exists s, d. split_and!; [done..|].
      by apply Hstuck.
Qed.

Module TopoDemo.

Definition users : ActivationScript := mkActivationScript "users" ["etc"].
Definition etc : ActivationScript := mkActivationScript "etc" [].
Definition boot : ActivationScript := mkActivationScript "boot" ["users"; "etc"].

Lemma topo_sort_spec_witness :
  topo_sort [boot; users; etc] = Some (Ok ["etc"; "users"; "boot"])
  ∧ NoDup ["boot"; "users"; "etc"].
Proof.
  split; [vm_compute; reflexivity|].
  pose proof (topo_sort_spec [boot; users; etc] ltac:(vm_compute; discriminate)) as H.
  assert (E : topo_sort [boot; users; etc] = Some (Ok ["etc"; "users"; "boot"]))
    by (vm_compute; reflexivity).
  rewrite E in H. exact (proj1 (proj2 H)).
Defined.

(** Two scripts of one name are reported as a cycle that names no script. *)
Example duplicate_script_reported_as_cycle :
  topo_sort [etc; etc] = Some (Err (DependencyCycle [])).
Proof. vm_compute. reflexivity. Qed.

Example cycle_reported :
  topo_sort [mkActivationScript "a" ["b"]; mkActivationScript "b" ["a"]; etc]
  = Some (Err (DependencyCycle ["a"; "b"])).
Proof. vm_compute. reflexivity. Qed.

End TopoDemo.
