(* ===== verification/Activate.v ===== *)
(** * Activation: [activate.rs]

    The plan (a diff of two manifests) and its execution: the profile swap, the
    configuration files, [/etc/static], the boot files, the GC roots, the
    [/run/current-system] link and the activation scripts.  The parts that work on files
    are computations on [FileSys.fsys]; failures become warnings. *)

From S2P Require Import Prelude RustStd FileSys Nar PathInfo Store Calendar Manifest Generations TopoSort.

Open Scope Z_scope.

(** ** The plan *)
Record PackageChange : Type := mkPackageChange {
  pc_name : string;
  pc_old_version : string;
  pc_new_version : string;
  pc_old_store_path : string;
  pc_new_store_path : string;
}.

Record ConfigChange : Type := mkConfigChange {
  cc_path : string;
  cc_old_hash : string;
  cc_new_hash : string;
}.

Record ServiceChange : Type := mkServiceChange {
  sc_name : string;
  sc_type : string;
  sc_description : string;
}.

Record ActivationPlan : Type := mkActivationPlan {
  packages_added : list string;
  packages_removed : list string;
  packages_changed : list PackageChange;
  config_files_added : list string;
  config_files_removed : list string;
  config_files_changed : list ConfigChange;
  services_added : list ServiceChange;
  services_removed : list ServiceChange;
  services_changed : list ServiceChange;
  profile_needs_rebuild : bool;
  profile_binary_count : Z;
  users_added : list string;
  users_removed : list string;
  users_changed : list string;
  activation_scripts : list string;
}.

(** The three loops every diff consists of: the new keys the old map lacks, the keys of
    both whose values differ, the old keys the new map lacks, each in key order. *)
Definition diff_added {V W} (f : string → V → W) (old new : gmap string V) : list W :=
  omap (λ kv, match old !! kv.1 with None => Some (f kv.1 kv.2) | Some _ => None end)
    (BTree.to_list new).

Definition diff_changed {V W} (differs : V → V → bool) (f : string → V → V → W)
    (old new : gmap string V) : list W :=
  omap (λ kv, match old !! kv.1 with
              | Some o => if differs o kv.2 then Some (f kv.1 o kv.2) else None
              | None => None
              end) (BTree.to_list new).

Definition diff_removed {V W} (f : string → V → W) (old new : gmap string V) : list W :=
  diff_added f new old.

Definition differ {A} `{EqDecision A} (x y : A) : bool := negb (bool_decide (x = y)).

(** [packages.iter().map(|p| (name, p)).collect::<BTreeMap>()]: the last of a name stays *)
Definition packages_by_name (ps : list Package) : gmap string Package :=
  foldl (λ m p, <[pkg_name p := p]> m) ∅ ps.

Definition package_differs (o n : Package) : bool :=
  differ (pkg_version o) (pkg_version n) || differ (pkg_store_path o) (pkg_store_path n).

Definition diff_config_files (old new : gmap string FileInfo)
    : list string * list string * list ConfigChange :=
  (diff_added (λ p _, p) old new,
   diff_removed (λ p _, p) old new,
   diff_changed (λ o n, differ (fi_blake3 o) (fi_blake3 n))
     (λ p o n, mkConfigChange p (fi_blake3 o) (fi_blake3 n)) old new).

Definition service_change (name : string) (s : ServiceInfo) : ServiceChange :=
  mkServiceChange name (svc_type s) (svc_description s).

Definition diff_declared_services (old new : gmap string ServiceInfo)
    : list ServiceChange * list ServiceChange * list ServiceChange :=
  (diff_added service_change old new,
   diff_removed service_change old new,
   diff_changed differ (λ name _ n, service_change name n) old new).

Definition user_differs (o n : User) : bool :=
  differ (user_uid o) (user_uid n) || differ (user_gid o) (user_gid n)
  || differ (user_home o) (user_home n) || differ (user_shell o) (user_shell n).

Definition diff_users (old new : gmap string User) : list string * list string * list string :=
  (diff_added (λ n _, n) old new,
   diff_removed (λ n _, n) old new,
   diff_changed user_differs (λ name _ _, name) old new).

(** What the activation calls of [std] and of the [blake3] crate: [/bin/sh] on a script,
    which may do anything to the files, and the hash of a text *)
Inductive script_result : Type :=
  | NotStarted (e : io_error)
  | Exited (success : bool) (code : option Z).

Section Activate.
Context `{FL : FsLimits}.

Definition bin_of (store_path : string) : path := Path.join (Path.components store_path) [Normal "bin"].

Fixpoint count_profile_binaries (t : tree) (packages : list Package) : Z :=
  match packages with
  | [] => 0
  | pkg :: packages' =>
      let here :=
        if decide (pkg_store_path pkg = "") then 0
        else if is_dir t (bin_of (pkg_store_path pkg)) then
          match read_dir t (bin_of (pkg_store_path pkg)) with
          | Ok es => Z.of_nat (length (filter (λ e, is_file_node e.2 = true) es))
          | Err _ => 0
          end
        else 0 in
      wrap32 (wrap32 here + count_profile_binaries t packages')
  end.

(** [topo_sort(..).unwrap_or_default()] *)
Definition scripts_in_order (scripts : list ActivationScript) : list string :=
  match topo_sort scripts with Some (Ok order) => order | _ => [] end.

Definition is_nil {A} (l : list A) : bool := match l with [] => true | _ => false end.

Definition plan (t : tree) (old new : Manifest) : ActivationPlan :=
  let old_pkgs := packages_by_name (m_packages old) in
  let new_pkgs := packages_by_name (m_packages new) in
  let added := diff_added (λ n _, n) old_pkgs new_pkgs in
  let removed := diff_removed (λ n _, n) old_pkgs new_pkgs in
  let changed := diff_changed package_differs
    (λ n o p, mkPackageChange n (pkg_version o) (pkg_version p) (pkg_store_path o) (pkg_store_path p))
    old_pkgs new_pkgs in
  let '(c_added, c_removed, c_changed) := diff_config_files (m_files old) (m_files new) in
  let '(s_added, s_removed, s_changed) :=
    diff_declared_services (declared (m_services old)) (declared (m_services new)) in
  let '(u_added, u_removed, u_changed) := diff_users (m_users old) (m_users new) in
  mkActivationPlan added removed changed c_added c_removed c_changed s_added s_removed s_changed
    (negb (is_nil added) || negb (is_nil removed) || negb (is_nil changed))
    (count_profile_binaries t (m_packages new))
    u_added u_removed u_changed (scripts_in_order (m_activation_scripts new)).

Definition plan_is_empty (p : ActivationPlan) : bool :=
  is_nil (packages_added p) && is_nil (packages_removed p) && is_nil (packages_changed p)
  && is_nil (config_files_added p) && is_nil (config_files_removed p) && is_nil (config_files_changed p)
  && is_nil (services_added p) && is_nil (services_removed p) && is_nil (services_changed p)
  && is_nil (users_added p) && is_nil (users_removed p) && is_nil (users_changed p)
  && is_nil (activation_scripts p).

Definition boot_components_changed (old new : Manifest) : bool :=
  match m_boot old, m_boot new with
  | Some o, Some n => differ o n
  | None, Some _ | Some _, None => true
  | None, None => false
  end.

Definition has_boot_config_changed (old new : Manifest) : bool :=
  let oh := cfg_hardware (m_configuration old) in
  let nh := cfg_hardware (m_configuration new) in
  differ (drv_initfs (m_drivers old)) (drv_initfs (m_drivers new))
  || differ (storage_drivers oh) (storage_drivers nh)
  || differ (network_drivers oh) (network_drivers nh)
  || differ (graphics_drivers oh) (graphics_drivers nh)
  || differ (audio_drivers oh) (audio_drivers nh)
  || differ (usb_enabled oh) (usb_enabled nh)
  || differ (disk_size_mb (cfg_boot (m_configuration old))) (disk_size_mb (cfg_boot (m_configuration new)))
  || differ (init_scripts (m_services old)) (init_scripts (m_services new))
  || boot_components_changed old new.

(** ** The profile *)
Definition abs (s : string) : path := Path.components s.

Definition SYSTEM_PROFILE_BIN : path := Eval vm_compute in abs "/nix/system/profile/bin".
Definition STAGING_DIR : path := Eval vm_compute in abs "/nix/system/.profile-staging".

(** [p.with_file_name(name)] *)
Definition with_file_name (name : string) (p : path) : path :=
  default p (Path.parent p) ++ [Normal name].

Definition cleanup_path (p : path) : F unit :=
  t ← get_tree;
  if is_dir t p then ignore (remove_dir_all p)
  else if path_exists t p || is_ok (symlink_metadata t p) then ignore (remove_file p)
  else mret tt.

(** One binary: the last package that provides a name wins *)
Definition link_binary (bin_dir pkg_bin : path) (name : string) : F unit :=
  let link_path := Path.join bin_dir [Normal name] in
  t ← get_tree;
  (if is_ok (symlink_metadata t link_path) then remove_file link_path else mret tt) ;;
  symlink (Path.to_string (Path.join pkg_bin [Normal name])) link_path.

Fixpoint link_binaries (bin_dir pkg_bin : path) (es : list (string * node)) (count : Z) : F Z :=
  match es with
  | [] => mret count
  | (name, n) :: es' =>
      if is_file_node n then
        link_binary bin_dir pkg_bin name ;;
        link_binaries bin_dir pkg_bin es' (wrap32 (count + 1))
      else link_binaries bin_dir pkg_bin es' count
  end.

Fixpoint populate_profile_dir (bin_dir : path) (packages : list Package) (count : Z) : F Z :=
  match packages with
  | [] => mret count
  | pkg :: packages' =>
      if decide (pkg_store_path pkg = "") then populate_profile_dir bin_dir packages' count
      else
        let pkg_bin := bin_of (pkg_store_path pkg) in
        t ← get_tree;
        if is_dir t pkg_bin then
          es ← lift (read_dir t pkg_bin);
          count ← link_binaries bin_dir pkg_bin es count;
          populate_profile_dir bin_dir packages' count
        else populate_profile_dir bin_dir packages' count
  end.

(** The two renames that put [bin.new] in the place of [bin] *)
Definition swap_profile (profile_bin bin_new bin_old : path) (count : Z) : F Z :=
  t ← get_tree;
  had_old ← (if path_exists t profile_bin || is_ok (symlink_metadata t profile_bin) then
               ignore (set_permissions (default profile_bin (Path.parent profile_bin)) 493) ;;
               rename profile_bin bin_old ;; mret true
             else mret false);
  swapped ← attempt (rename bin_new profile_bin);
  match swapped with
  | Ok _ =>
      (if (had_old : bool) then cleanup_path bin_old else mret tt) ;;
      cleanup_path STAGING_DIR ;; mret count
  | Err e =>
      (if (had_old : bool) then ignore (rename bin_old profile_bin) else mret tt) ;;
      cleanup_path bin_new ;; cleanup_path STAGING_DIR ;; fail e
  end.

(** [staging_bin], [profile_bin_new] and [profile_bin_old] of [atomic_profile_swap] *)
Definition STAGING_BIN : path := Eval vm_compute in Path.join STAGING_DIR [Normal "bin"].
Definition BIN_NEW : path := Eval vm_compute in with_file_name "bin.new" SYSTEM_PROFILE_BIN.
Definition BIN_OLD : path := Eval vm_compute in with_file_name "bin.old" SYSTEM_PROFILE_BIN.

Definition atomic_profile_swap (packages : list Package) : F Z :=
  cleanup_path STAGING_BIN ;; cleanup_path BIN_NEW ;; cleanup_path BIN_OLD ;;
  create_dir_all STAGING_BIN ;;
  count ← populate_profile_dir STAGING_BIN packages 0;
  rename STAGING_BIN BIN_NEW ;;
  create_dir_all (default [] (Path.parent SYSTEM_PROFILE_BIN)) ;;
  swap_profile SYSTEM_PROFILE_BIN BIN_NEW BIN_OLD count.

(** [fallback_profile_rebuild]: the links of the profile are removed, then made again *)
Fixpoint remove_links (dir : path) (es : list (string * node)) : F unit :=
  match es with
  | [] => mret tt
  | (name, _) :: es' =>
      t ← get_tree;
      n ← lift (symlink_metadata t (dir ++ [Normal name]));
      (match n with Link _ => remove_file (dir ++ [Normal name]) | _ => mret tt end) ;;
      remove_links dir es'
  end.

Definition fallback_profile_rebuild (packages : list Package) : F Z :=
  t ← get_tree;
  (if path_exists t SYSTEM_PROFILE_BIN then
     ignore (set_permissions SYSTEM_PROFILE_BIN 493) ;;
     t ← get_tree;
     es ← lift (read_dir t SYSTEM_PROFILE_BIN);
     remove_links SYSTEM_PROFILE_BIN es
   else create_dir_all SYSTEM_PROFILE_BIN) ;;
  populate_profile_dir SYSTEM_PROFILE_BIN packages 0.

(** ** Managed files *)
Definition octal_digit (a : ascii) : option Z :=
  if bool_decide (48 ≤ Str.byte a ≤ 55)%N then Some (Z.of_N (Str.byte a) - 48) else None.

Fixpoint from_octal (acc : Z) (s : string) : option Z :=
  match s with
  | EmptyString => Some acc
  | String a s' => d ← octal_digit a; from_octal (acc * 8 + d) s'
  end.

(** [s.strip_prefix(p).unwrap_or(s)] *)
Definition without_prefix (p s : string) : string := default s (Str.strip_prefix p s).

(** The last bound of the source, [0o7777], holds for any four octal digits. *)
Definition parse_mode_string (mode : string) : result io_error Z :=
  let trimmed := without_prefix "0o" (Str.trim mode) in
  let trimmed := match Str.strip_prefix "0" trimmed with
                 | Some rest => if decide (rest = "") then trimmed else rest
                 | None => trimmed
                 end in
  if decide (trimmed = "" ∨ (4 < String.length trimmed)%nat) then Err InvalidInput
  else match from_octal 0 trimmed with
  | None => Err InvalidInput
  | Some parsed => if decide (4095 < parsed) then Err InvalidInput else Ok parsed
  end.

Definition is_normal (c : component) : bool := match c with Normal _ => true | _ => false end.

Definition validate_managed_relative_path (p : string) : result io_error path :=
  let relative := Path.components p in
  if forallb is_normal relative then
    if decide (relative = []) then Err InvalidInput else Ok relative
  else Err InvalidInput.

Definition managed_file_path_at (root : path) (p : string) : result io_error path :=
  Path.join root <$> validate_managed_relative_path p.

(** A link in the way of a file is removed, so that the write does not go through it. *)
Definition write_through (full_path : path) (contents : string) : F unit :=
  (match Path.parent full_path with Some parent => create_dir_all parent | None => mret tt end) ;;
  t ← get_tree;
  (if is_symlink t full_path then remove_file full_path else mret tt) ;;
  write_file full_path contents.

Definition write_inline_config_file_at (root : path) (p : string) (info : FileInfo) : F unit :=
  full_path ← lift (managed_file_path_at root p);
  write_through full_path (default "" (fi_text info)) ;;
  mode ← lift (parse_mode_string (fi_mode info));
  set_permissions full_path mode.

Definition write_manifest_derived_file_at (root : path) (p contents : string) : F unit :=
  write_through (Path.join root (Path.components (without_prefix "/" p))) contents.

(** ** Warnings *)
Inductive warning : Type :=
  | AtomicSwapFailed (e : io_error)
  | ProfileRebuildFailed (e : io_error)
  | InvalidConfigPath (p : string)
  | WriteFailed (p : string) (e : io_error)
  | NotOnDisk (p : string)
  | RemoveFailed (p : string) (e : io_error)
  | NeedsUpdate (p : string)
  | BootFileMissing (file src : string)
  | BootCopyFailed (active : bool) (file src dst : string) (e : io_error)
  | EtcStaticFailed (e : io_error)
  | GcRootsFailed (e : GenError)
  | CurrentSystemFailed (e : io_error)
  | ScriptsSkipped (e : TopoError)
  | ScriptMissing (name : string)
  | ScriptFailed (name : string) (code : Z)
  | ScriptNotRun (name : string) (e : io_error).

(** A step that cannot fail: it counts, warns and changes files *)
Definition W (A : Type) : Type := fsys * list warning → A * (fsys * list warning).
#[export] Instance W_ret : MRet W := λ A a s, (a, s).
#[export] Instance W_bind : MBind W := λ A B f m s, let '(a, s') := m s in f a s'.

Definition warn (w : warning) : W unit := λ s, (tt, (s.1, s.2 ++ [w])).
Definition try {A} (m : F A) : W (result io_error A) := λ s, let '(r, f) := m s.1 in (r, (f, s.2)).
Definition peek : W tree := λ s, (fs_tree s.1, s).

(** [match m { Ok(()) => updated += 1, Err(e) => warnings.push(..) }] *)
Definition counted (m : F unit) (w : io_error → warning) (updated : Z) : W Z :=
  r ← try m;
  match r with
  | Ok _ => mret (wrap32 (updated + 1))
  | Err e => warn (w e) ;; mret updated
  end.

Fixpoint W_fold {A B} (f : B → A → W A) (l : list B) (a : A) : W A :=
  match l with
  | [] => mret a
  | x :: l' => a' ← f x a; W_fold f l' a'
  end.

Section config.
Variable blake3_hex : string → string.

Definition hash_file_if_exists (t : tree) (p : path) : option string :=
  match read_file t p with Ok contents => Some (blake3_hex contents) | Err _ => None end.

(** The inline text a manifest has for a file *)
Definition inline_info (files : gmap string FileInfo) (p : string) : option FileInfo :=
  info ← files !! p; match fi_text info with Some _ => Some info | None => None end.

Definition add_config_file (root : path) (files : gmap string FileInfo) (p : string) (updated : Z) : W Z :=
  match managed_file_path_at root p with
  | Err _ => warn (InvalidConfigPath p) ;; mret updated
  | Ok full_path =>
      match inline_info files p with
      | Some info => counted (write_inline_config_file_at root p info) (WriteFailed p) updated
      | None =>
          t ← peek;
          (if path_exists t full_path then mret tt else warn (NotOnDisk p)) ;; mret updated
      end
  end.

Definition remove_config_file (root : path) (p : string) (updated : Z) : W Z :=
  match managed_file_path_at root p with
  | Err _ => warn (InvalidConfigPath p) ;; mret updated
  | Ok full_path =>
      t ← peek;
      if path_exists t full_path then counted (remove_file full_path) (RemoveFailed p) updated
      else mret updated
  end.

Definition change_config_file (root : path) (files : gmap string FileInfo) (change : ConfigChange)
    (updated : Z) : W Z :=
  match managed_file_path_at root (cc_path change) with
  | Err _ => warn (InvalidConfigPath (cc_path change)) ;; mret updated
  | Ok full_path =>
      match inline_info files (cc_path change) with
      | Some info =>
          counted (write_inline_config_file_at root (cc_path change) info) (WriteFailed (cc_path change)) updated
      | None =>
          t ← peek;
          if path_exists t full_path then
            (if decide (hash_file_if_exists t full_path = Some (cc_new_hash change)) then mret tt
             else warn (NeedsUpdate (cc_path change))) ;;
            mret (wrap32 (updated + 1))
          else mret updated
      end
  end.

Definition update_config_files_at (root : path) (added removed : list string)
    (changed : list ConfigChange) (new_files : gmap string FileInfo) : W Z :=
  updated ← W_fold (add_config_file root new_files) added 0;
  updated ← W_fold (remove_config_file root) removed updated;
  W_fold (change_config_file root new_files) changed updated.

End config.

Definition derived_file (root : path) (p contents : string) (changed : bool) (count : Z) : W Z :=
  if changed then counted (write_manifest_derived_file_at root p contents) (WriteFailed p) count
  else mret count.

Definition newline : string := String "010" "".

Definition write_manifest_derived_files_at (root : path) (old new : Manifest) : W Z :=
  let so := m_system old in
  let sn := m_system new in
  let dns_old := net_dns (cfg_networking (m_configuration old)) in
  let dns_new := net_dns (cfg_networking (m_configuration new)) in
  count ← derived_file root "/etc/hostname" (hostname sn) (differ (hostname so) (hostname sn)) 0;
  count ← derived_file root "/etc/timezone" (timezone sn) (differ (timezone so) (timezone sn)) count;
  derived_file root "/etc/net/dns" (Str.join newline dns_new) (differ dns_old dns_new) count.

(** ** Boot files *)
Definition BOOT_DIR : string := "/boot".
Definition ACTIVE_BOOT_DIR : string := "/usr/lib/boot".

(** [file_stem]: the name up to its last dot; a leading dot does not count *)
Definition file_stem (name : string) : string :=
  match rev (Str.split "." name) with
  | _ :: (x :: xs) as stem => let s := Str.join "." (rev (x :: xs)) in if decide (s = "") then name else s
  | _ => name
  end.

(** [p.with_extension(ext)] *)
Definition with_extension (ext : string) (p : path) : path :=
  match Path.file_name p with
  | None => p
  | Some name => with_file_name (file_stem name +:+ "." +:+ ext) p
  end.

Definition copy_boot_file (src dst : path) : F unit :=
  t ← get_tree;
  if path_exists t src then
    let tmp := with_extension "tmp" dst in
    (match Path.parent dst with Some parent => create_dir_all parent | None => mret tt end) ;;
    copy src tmp ;;
    rename tmp dst
  else fail (OtherError "file not found").

Definition boot_dst (dir file_name : string) : string := dir +:+ "/" +:+ file_name.

Fixpoint copy_compatibility (src file_name active_boot_dir : string) (dirs : list string) : W unit :=
  match dirs with
  | [] => mret tt
  | dir :: dirs' =>
      (if decide (dir = active_boot_dir) then mret tt
       else
         r ← try (copy_boot_file (abs src) (abs (boot_dst dir file_name)));
         match r with
         | Ok _ => mret tt
         | Err e => warn (BootCopyFailed false file_name src (boot_dst dir file_name) e)
         end) ;;
      copy_compatibility src file_name active_boot_dir dirs'
  end.

Definition copy_boot_component (src file_name active_boot_dir : string) (compat : list string) : W bool :=
  t ← peek;
  if path_exists t (abs src) then
    let active_dst := boot_dst active_boot_dir file_name in
    r ← try (copy_boot_file (abs src) (abs active_dst));
    active_copied ← match r with
                    | Ok _ => mret true
                    | Err e => warn (BootCopyFailed true file_name src active_dst e) ;; mret false
                    end;
    copy_compatibility src file_name active_boot_dir compat ;;
    mret (active_copied : bool)
  else warn (BootFileMissing file_name src) ;; mret false.

(** One boot file of the new manifest: copied when the old one names another *)
Definition update_boot_component (get : BootComponents → option string) (old_boot : option BootComponents)
    (new_boot : BootComponents) (file_name active : string) (compat : list string) : W bool :=
  match get new_boot with
  | None => mret false
  | Some src =>
      let changed := match old_boot with
                     | None => true
                     | Some ob => negb (bool_decide (get ob = Some src))
                     end in
      if changed then copy_boot_component src file_name active compat else mret false
  end.

Definition update_boot_components_at (old new : Manifest) (active : string) (compat : list string) : W bool :=
  match m_boot new with
  | None => mret false
  | Some new_boot =>
      k ← update_boot_component kernel (m_boot old) new_boot "kernel" active compat;
      i ← update_boot_component initfs (m_boot old) new_boot "initfs" active compat;
      mret ((k : bool) || (i : bool))
  end.

(** ** [/etc/static]

    The recursion over directories is as deep as a path may be long: [read_dir] refuses a
    path longer than [path_max], so that the depth [path_max] is enough. *)
Definition etc_entry (recurse : path → path → path → F unit) (src_dir etc_dir static_base : path)
    (name : string) : F unit :=
  let src_path := Path.join src_dir [Normal name] in
  let etc_path := Path.join etc_dir [Normal name] in
  let static_path := Path.join static_base [Normal name] in
  t ← get_tree;
  if is_dir t src_path then create_dir_all etc_path ;; recurse src_path etc_path static_path
  else
    match read_link t etc_path with
    | Ok target =>
        if decide (abs target = static_path) then mret tt
        else ignore (remove_file etc_path) ;; symlink (Path.to_string static_path) etc_path
    | Err _ =>
        (if path_exists t etc_path then ignore (remove_file etc_path) else mret tt) ;;
        symlink (Path.to_string static_path) etc_path
    end.

Fixpoint F_iter {A} (f : A → F unit) (l : list A) : F unit :=
  match l with
  | [] => mret tt
  | x :: l' => f x ;; F_iter f l'
  end.

Fixpoint create_etc_symlinks (depth : nat) (src_dir etc_dir static_base : path) : F unit :=
  match depth with
  | O => fail NameTooLong
  | S depth' =>
      t ← get_tree;
      es ← lift (read_dir t src_dir);
      F_iter (etc_entry (create_etc_symlinks depth') src_dir etc_dir static_base) es.*1
  end.

Fixpoint clean_stale_etc_symlinks (depth : nat) (dir : path) (static_prefix : string) : F unit :=
  match depth with
  | O => mret tt
  | S depth' =>
      t ← get_tree;
      match read_dir t dir with
      | Err _ => mret tt
      | Ok es =>
          F_iter (λ name,
            let p := Path.join dir [Normal name] in
            t ← get_tree;
            if is_dir t p && negb (is_symlink t p) then
              if decide (name = "static") then mret tt
              else clean_stale_etc_symlinks depth' p static_prefix
            else if is_symlink t p then
              match read_link t p with
              | Ok target =>
                  if Str.starts_with static_prefix target && negb (path_exists t (abs target))
                  then ignore (remove_file p) else mret tt
              | Err _ => mret tt
              end
            else mret tt) es.*1
      end
  end.

Definition max_depth : nat := S (Z.to_nat path_max).

Definition setup_etc_static (etc_source : string) : F unit :=
  t ← get_tree;
  if path_exists t (abs etc_source) then
    let etc_static := abs "/etc/static" in
    (if is_ok (symlink_metadata t etc_static)
     then catch (remove_file etc_static) (λ _, remove_dir_all etc_static) else mret tt) ;;
    symlink etc_source etc_static ;;
    t ← get_tree;
    let etc_subdir := Path.join (abs etc_source) [Normal "etc"] in
    (if is_dir t etc_subdir
     then create_etc_symlinks max_depth etc_subdir (abs "/etc") (abs "/etc/static/etc") else mret tt) ;;
    clean_stale_etc_symlinks max_depth (abs "/etc") "/etc/static/"
  else fail (OtherError "etc source not found").

(** ** [/run/current-system] *)
Definition replace_link (target : string) (p : path) : F unit :=
  t ← get_tree;
  (if is_ok (symlink_metadata t p) then remove_file p else mret tt) ;;
  symlink target p.

Definition update_current_system_link (toplevel : string) : F unit :=
  create_dir_all (abs "/run") ;;
  replace_link toplevel (abs "/run/current-system") ;;
  create_dir_all (abs "/nix/var/nix/gcroots") ;;
  replace_link "/run/current-system" (abs "/nix/var/nix/gcroots/current-system").

(** ** Scripts *)
Section scripts.
Variable run_sh : path → fsys → script_result * fsys.

(** [Command::new("/bin/sh").arg(script).output()] *)
Definition exec_script (script : path) : W script_result := λ s,
  let '(r, f) := run_sh script s.1 in (r, (f, s.2)).

Definition run_script (scripts_dir : string) (name : string) (count : Z) : W Z :=
  let script_path := Path.join (abs scripts_dir) (abs name) in
  t ← peek;
  if path_exists t script_path then
    r ← exec_script script_path;
    match r with
    | Exited true _ => mret (wrap32 (count + 1))
    | Exited false code => warn (ScriptFailed name (default (-1) code)) ;; mret count
    | NotStarted e => warn (ScriptNotRun name e) ;; mret count
    end
  else warn (ScriptMissing name) ;; mret count.

Definition run_activation_scripts_at (scripts : list ActivationScript) (scripts_dir : string) : W Z :=
  if decide (scripts = []) then mret 0
  else match topo_sort scripts with
  | Some (Ok ordered) => W_fold (run_script scripts_dir) ordered 0
  | Some (Err e) => warn (ScriptsSkipped e) ;; mret 0
  | None => mret 0
  end.

End scripts.

End Activate.

(** ** The whole activation *)
Record ActivationResult : Type := mkActivationResult {
  binaries_linked : Z;
  config_files_updated : Z;
  ar_warnings : list warning;
  reboot_recommended : bool;
}.

Definition ACTIVATION_SCRIPTS_DIR : string := "/etc/redox-system/activation.d".

Section whole.
Context `{SPL : StorePathLib, IJ : InfoJson, MJ : ManifestJson, IOF : IoFaults, TF : TreeFaults,
          SJ : SystemJson, GF : GenFaults, FL : FsLimits}.
Variable blake3_hex : string → string.
Variable run_sh : path → fsys → script_result * fsys.

(** The profile, with the fallback in place *)
Definition rebuild_profile (packages : list Package) : W Z :=
  r ← try (atomic_profile_swap packages);
  match r with
  | Ok count => mret count
  | Err e =>
      warn (AtomicSwapFailed e) ;;
      r2 ← try (fallback_profile_rebuild packages);
      match r2 with
      | Ok count => mret count
      | Err e2 => warn (ProfileRebuildFailed e2) ;; mret 0
      end
  end.

Definition or_warn (m : F unit) (w : io_error → warning) : W unit :=
  r ← try m;
  match r with Ok _ => mret tt | Err e => warn (w e) end.

(** The steps before the GC roots, on the files *)
Definition activate_files (p : ActivationPlan) (old new : Manifest) : W (Z * Z * bool) :=
  let root := [RootDir] in
  linked ← rebuild_profile (m_packages new);
  updated ← update_config_files_at blake3_hex root (config_files_added p) (config_files_removed p)
              (config_files_changed p) (m_files new);
  (match m_etc_source new with
   | Some etc_source => or_warn (setup_etc_static etc_source) EtcStaticFailed
   | None => mret tt
   end) ;;
  derived ← write_manifest_derived_files_at root old new;
  boot_updated ← update_boot_components_at old new ACTIVE_BOOT_DIR [BOOT_DIR];
  mret (linked, wrap32 (updated + derived), (boot_updated : bool)).

(** The steps after the GC roots *)
Definition activate_finish (new : Manifest) : W Z :=
  or_warn (update_current_system_link (default "/etc/redox-system" (m_toplevel new)))
    CurrentSystemFailed ;;
  run_activation_scripts_at run_sh (m_activation_scripts new) ACTIVATION_SCRIPTS_DIR.

Definition activate (old new : Manifest) (dry_run : bool) : G ActivationResult := λ s,
  let p := plan (fs_tree (s_fs s)) old new in
  if dry_run then (Ok (mkActivationResult 0 0 [] false), s)
  else
    let '((linked, updated, boot_updated), (f1, w1)) := activate_files p old new (s_fs s, []) in
    let '(roots, s2) := update_system_gc_roots new (set_fs f1 s) in
    let w2 := match roots with Ok _ => w1 | Err e => w1 ++ [GcRootsFailed e] end in
    let '(_, (f3, w3)) := activate_finish new (s_fs s2, w2) in
    let reboot := boot_updated || negb (is_nil (services_added p)) || negb (is_nil (services_removed p))
                  || has_boot_config_changed old new in
    (Ok (mkActivationResult linked updated w3 reboot), set_fs f3 s2).

End whole.
