(* ===== verification/Switch.v ===== *)
(** * Switching generations: [switch], [rollback] and their like in [system.rs]

    The handlers that activate a manifest and publish it. *)

From S2P Require Import Prelude RustStd FileSys Nar PathInfo Store Calendar Manifest Generations Activate.

Open Scope Z_scope.

Section switching.
Context `{SPL : StorePathLib, IJ : InfoJson, MJ : ManifestJson, IOF : IoFaults, TF : TreeFaults,
          SJ : SystemJson, GF : GenFaults, FL : FsLimits}.
(** The clock, the hash and the shell *)
Variable now : option Z.
Variable blake3_hex : string → string.
Variable run_sh : path → fsys → script_result * fsys.

Definition needs_snapshot (p : string) (info : FileInfo) : bool :=
  bool_decide (fi_text info = None)
  && (Str.starts_with "usr/lib/init.d/" p || bool_decide (p = "startup.sh")).

(** [fs::read_to_string] *)
Definition read_to_string (t : tree) (p : path) : option string :=
  match read_file t p with
  | Ok text => if Str.utf8_valid text then Some text else None
  | Err _ => None
  end.

Definition snapshot_file (t : tree) (acc : gmap string FileInfo * bool) (e : string * FileInfo)
    : result GenError (gmap string FileInfo * bool) :=
  let '(p, info) := e in
  if negb (needs_snapshot p info) then Ok acc
  else match read_to_string t (Path.join [RootDir] (Path.components p)) with
       | None => Err (SnapshotUnreadable p)
       | Some text =>
           if decide (blake3_hex text = fi_blake3 info)
           then Ok (<[p := mkFileInfo (fi_blake3 info) (fi_size info) (fi_mode info) (Some text)]> acc.1, true)
           else Err (SnapshotModified p)
       end.

Fixpoint snapshot_loop (t : tree) (acc : gmap string FileInfo * bool) (es : list (string * FileInfo))
    : result GenError (gmap string FileInfo * bool) :=
  match es with
  | [] => Ok acc
  | e :: es' => acc' ← snapshot_file t acc e; snapshot_loop t acc' es'
  end.

Definition snapshot_root_files (t : tree) (m : Manifest) : result GenError (Manifest * bool) :=
  '(fs, changed) ← snapshot_loop t (m_files m, false) (BTree.to_list (m_files m));
  Ok (set_files fs m, changed).

Definition gen_exists (s : Sys) (id : Z) : bool :=
  match s_gens s with Some dir => bool_decide (is_Some (dir !! dec id)) | None => false end.

Definition stamp (id : Z) (description : string) (m : Manifest) : Manifest :=
  set_generation (mkGenerationInfo id (gi_build_hash (m_generation m)) description
                    (current_timestamp now)) m.

(** The manifest, the link and the boot default, once activation has returned *)
Definition publish (m : Manifest) : G unit :=
  write_manifest m ;;
  update_current_generation_link (gen_id m) ;;
  sr_warn (write_boot_default (gen_id m)).

Definition switch (new_file : option dbfile) (description : option string) (dry_run : bool) : G unit :=
  s ← sr_get;
  current ← sr_lift (load_manifest_from (s_manifest s));
  new_manifest ← sr_lift (load_manifest_from new_file);
  let next_id := next_generation_id s current in
  let new_manifest :=
    stamp next_id (default (gi_description (m_generation new_manifest)) description) new_manifest in
  if dry_run then activate blake3_hex run_sh current new_manifest true ;; mret tt
  else
    '(current, enriched) ← sr_lift (snapshot_root_files (fs_tree (s_fs s)) current);
    (if negb (gen_exists s (gen_id current)) || enriched then save_generation current else mret tt) ;;
    sr_warn (update_system_gc_roots current) ;;
    save_generation new_manifest ;;
    activate blake3_hex run_sh current new_manifest false ;;
    publish new_manifest.

Definition switch_generation (target_id : Z) : G unit :=
  s ← sr_get;
  current ← sr_lift (load_manifest_from (s_manifest s));
  gens ← sr_lift (scan_generations s);
  target ← sr_lift (ok_or (not_found target_id gens) (find_generation target_id gens));
  if decide (g_id target = gen_id current) then mret tt
  else
    activate blake3_hex run_sh current (g_manifest target) false ;;
    write_manifest (g_manifest target) ;;
    update_current_generation_link (g_id target).

(** The target of a rollback: the one asked for, the newest before the current one, or
    the newest *)
Definition rollback_target (target_id : option Z) (current : Manifest) (gens : list Generation)
    : result GenError Generation :=
  match target_id with
  | Some id => ok_or (not_found id gens) (find_generation id gens)
  | None =>
      ok_or NoGenerations
        (match list_find (λ g, g_id g < gen_id current) (reverse gens) with
         | Some (_, g) => Some g
         | None => last gens
         end)
  end.

Definition rollback (target_id : option Z) : G unit :=
  s ← sr_get;
  current ← sr_lift (load_manifest_from (s_manifest s));
  gens ← sr_lift (scan_generations s);
  (if decide (gens = []) then sr_lift (Err NoGenerations) else mret tt) ;;
  target ← sr_lift (rollback_target target_id current gens);
  if decide (g_id target = gen_id current) then mret tt
  else
    (if negb (gen_exists s (gen_id current)) then save_generation current else mret tt) ;;
    s ← sr_get;
    let next_id := next_generation_id s current in
    let rolled_back :=
      stamp next_id ("rollback to generation " +:+ dec (g_id target)) (g_manifest target) in
    save_generation rolled_back ;;
    activate blake3_hex run_sh current rolled_back false ;;
    publish rolled_back.

(** [activate_cmd] *)
Definition activate_cmd (target_file : option dbfile) (dry_run : bool) : G unit :=
  s ← sr_get;
  current ← sr_lift (load_manifest_from (s_manifest s));
  target ← sr_lift (load_manifest_from target_file);
  activate blake3_hex run_sh current target dry_run ;; mret tt.

Definition activate_boot (generation_id : Z) : G unit :=
  s ← sr_get;
  current ← sr_lift (load_manifest_from (s_manifest s));
  if decide (gen_id current = generation_id) then mret tt
  else
    gens ← sr_lift (scan_generations s);
    target ← sr_lift (ok_or (not_found generation_id gens) (find_generation generation_id gens));
    activate blake3_hex run_sh current (g_manifest target) false ;;
    write_manifest (g_manifest target).

Definition boot_cmd (generation_id : option Z) : G (option Z) :=
  s ← sr_get;
  match generation_id with
  | Some id =>
      gens ← sr_lift (scan_generations s);
      (if existsb (λ g, bool_decide (g_id g = id)) gens then mret tt
       else sr_lift (Err (not_found id gens))) ;;
      write_boot_default id ;; mret None
  | None => sr_lift (read_boot_default s)
  end.

End switching.
