(* ===== verification/Profiles.v ===== *)
(** * Profiles ([profiled/mapping.rs])

    A profile is a list of installed packages in installation order; the daemon keeps all
    profiles in memory and writes each to its [mapping.json]. *)

From S2P Require Import Prelude RustStd FileSys Nar.

Open Scope Z_scope.

Record ProfileEntry : Type := mkProfileEntry {
  pe_name : string;
  pe_store_path : string;
  pe_installed_at : Z;
}.

Record ProfileMapping : Type := mkProfileMapping {
  pm_version : Z;
  packages : list ProfileEntry;
}.

Record ResolvedFile : Type := mkResolvedFile {
  package_name : string;
  rf_store_path : string;
  full_path : path;
}.

Record UnionEntry : Type := mkUnionEntry {
  ue_name : string;
  ue_is_dir : bool;
  ue_is_symlink : bool;
  from_package : string;
}.

(** A command written to a profile's [.control] *)
Record ControlCommand : Type := mkControlCommand {
  cmd_action : string;
  cmd_name : string;
  cmd_store_path : option string;
  cmd_files : list ManifestEntry;
}.

#[export] Instance ProfileEntry_eq_dec : EqDecision ProfileEntry.
Proof. solve_decision. Defined.
#[export] Instance ProfileMapping_eq_dec : EqDecision ProfileMapping.
Proof. solve_decision. Defined.
#[export] Instance UnionEntry_eq_dec : EqDecision UnionEntry.
Proof. solve_decision. Defined.
#[export] Instance ControlCommand_eq_dec : EqDecision ControlCommand.
Proof. solve_decision. Defined.

(** [serde_json] at the types the daemon reads and writes; of the manifest of
    [snix install] only each package's key and store path are used. *)
Class ProfileJson : Type := {
  pj_print : ProfileMapping → string;
  pj_parse : string → option ProfileMapping;
  pj_print_listing : option ProfileMapping → string;
  pj_parse_install : string → option (gmap string string);
  pj_parse_command : string → option ControlCommand;
}.

(** Documented behaviour: what is printed is UTF-8 and reads back. *)
Class ProfileJsonLaws `{PJ : ProfileJson} : Prop := {
  pj_parse_print m : pj_parse (pj_print m) = Some m;
  pj_print_utf8 m : Str.utf8_valid (pj_print m) = true;
}.

Inductive ProfileError : Type :=
  | ProfileIo (e : io_error)
  | ProfileBadUtf8 (p : path)
  | ProfileBadJson (what : string)
  | ProfileNotFound (profile : string)
  | MissingStorePath
  | UnknownAction (action : string).

(** ** One mapping *)
Module Mapping.

Definition add (now : Z) (name store_path : string) (m : ProfileMapping) : ProfileMapping :=
  mkProfileMapping (pm_version m)
    (filter (λ p, pe_name p ≠ name) (packages m) ++ [mkProfileEntry name store_path now]).

Definition remove (name : string) (m : ProfileMapping) : bool * ProfileMapping :=
  let kept := filter (λ p, pe_name p ≠ name) (packages m) in
  (bool_decide (length kept < length (packages m))%nat, mkProfileMapping (pm_version m) kept).

Definition get (name : string) (m : ProfileMapping) : option ProfileEntry :=
  snd <$> list_find (λ p, pe_name p = name) (packages m).

(** The last package installed that has the file *)
Definition resolve_path `{FsLimits} (t : tree) (subpath : string) (m : ProfileMapping) : option ResolvedFile :=
  let full entry := Path.join (Path.components (pe_store_path entry)) (Path.components subpath) in
  (λ '(_, entry), mkResolvedFile (pe_name entry) (pe_store_path entry) (full entry)) <$>
    list_find (λ entry, path_exists t (full entry) = true) (rev (packages m)).

Definition ue_le (x y : UnionEntry) : Prop := String.le (ue_name x) (ue_name y).
#[export] Instance ue_le_dec x y : Decision (ue_le x y).
Proof. unfold ue_le. apply _. Defined.

Definition sorted_entries (seen : gmap string UnionEntry) : list UnionEntry :=
  merge_sort ue_le (BTree.values seen).

(** [dir_entry] of a package's directory, put into the listing *)
Definition see (package : string) (seen : gmap string UnionEntry) (e : string * node) : gmap string UnionEntry :=
  let name := Str.from_utf8_lossy e.1 in
  <[name := mkUnionEntry name (match e.2 with Dir _ => true | _ => false end)
                              (match e.2 with Link _ => true | _ => false end) package]> seen.

Definition list_union `{FsLimits} (t : tree) (subpath : string) (m : ProfileMapping) : list UnionEntry :=
  sorted_entries (foldl (λ seen entry,
    let dir := Path.join (Path.components (pe_store_path entry)) (Path.components subpath) in
    if is_dir t dir then
      match read_dir t dir with
      | Ok es => foldl (see (pe_name entry)) seen es
      | Err _ => seen
      end
    else seen) ∅ (packages m)).

Definition listing_prefix (subpath : string) : string :=
  if decide (subpath = "") then "" else Str.trim_end_matches "/" subpath +:+ "/".

(** One manifest entry of a package, put into the listing of the directory [prefix] *)
Definition see_manifest (prefix package : string) (seen : gmap string UnionEntry) (m : ManifestEntry)
    : gmap string UnionEntry :=
  match (if decide (prefix = "") then Some (me_path m) else Str.strip_prefix prefix (me_path m)) with
  | None => seen
  | Some rel =>
      match Str.split_once "/" rel with
      | Some (dir_name, _) =>
          match seen !! dir_name with
          | Some _ => seen
          | None => <[dir_name := mkUnionEntry dir_name true false package]> seen
          end
      | None =>
          if decide (rel = "") then seen
          else <[rel := mkUnionEntry rel (bool_decide (me_entry_type m = "dir"))
                          (bool_decide (me_entry_type m = "symlink")) package]> seen
      end
  end.

Definition see_package (manifests : gmap string (list ManifestEntry)) (prefix : string)
    (seen : gmap string UnionEntry) (entry : ProfileEntry) : gmap string UnionEntry :=
  match manifests !! pe_store_path entry with
  | Some manifest => foldl (see_manifest prefix (pe_name entry)) seen manifest
  | None => seen
  end.

Definition list_union_from_manifests (subpath : string) (manifests : gmap string (list ManifestEntry))
    (m : ProfileMapping) : list UnionEntry :=
  sorted_entries (foldl (see_package manifests (listing_prefix subpath)) ∅ (packages m)).

End Mapping.

(** ** All profiles *)

(** The daemon's profiles, and the disk they are written to *)
Record ProfileStore : Type := mkProfileStore {
  profiles : gmap string ProfileMapping;
  profiles_dir : string;
  ps_fs : fsys;
}.

Definition PS (A : Type) : Type := SR ProfileStore ProfileError A.
#[export] Instance PS_ret : MRet PS := SR_ret ProfileStore ProfileError.
#[export] Instance PS_bind : MBind PS := SR_bind ProfileStore ProfileError.

Definition set_profiles (p : gmap string ProfileMapping) (s : ProfileStore) : ProfileStore :=
  mkProfileStore p (profiles_dir s) (ps_fs s).

(** A call on the disk *)
Definition on_disk {A} (m : F A) : PS A := λ s,
  let '(r, f) := m (ps_fs s) in
  (match r with Ok a => Ok a | Err e => Err (ProfileIo e) end,
   mkProfileStore (profiles s) (profiles_dir s) f).

Section profiles.
Context `{FL : FsLimits, PJ : ProfileJson}.

Definition profile_dir (dir name : string) : path := Path.join (Path.components dir) (Path.components name).
Definition mapping_path (dir : path) : path := Path.join dir [Normal "mapping.json"].
Definition tmp_mapping_path (dir : path) : path := Path.join dir [Normal "mapping.json.tmp"].

(** [fs::read_to_string] *)
Definition read_text (t : tree) (p : path) : result ProfileError string :=
  match read_file t p with
  | Ok text => if Str.utf8_valid text then Ok text else Err (ProfileBadUtf8 p)
  | Err e => Err (ProfileIo e)
  end.

Definition persist (profile : string) : PS unit :=
  s ← sr_get;
  mapping ← sr_lift (ok_or (ProfileNotFound profile) (profiles s !! profile));
  let dir := profile_dir (profiles_dir s) profile in
  on_disk (create_dir_all dir) ;;
  on_disk (write_file (tmp_mapping_path dir) (pj_print mapping)) ;;
  on_disk (rename (tmp_mapping_path dir) (mapping_path dir)).

(** [clock] is the time at which the entry of a package is made *)
Definition bootstrap_from_manifest (clock : string → Z) (t : tree) (manifest_path : path)
    : result ProfileError ProfileMapping :=
  content ← read_text t manifest_path;
  manifest ← ok_or (ProfileBadJson "manifest.json") (pj_parse_install content);
  Ok (mkProfileMapping 1 ((λ '(key, store_path), mkProfileEntry key store_path (clock key)) <$> BTree.to_list manifest)).

(** One entry of the profiles directory *)
Definition load_entry (clock : string → Z) (t : tree) (dir : path) (acc : gmap string ProfileMapping)
    (e : string * node) : result ProfileError (gmap string ProfileMapping) :=
  match e.2 with
  | Dir _ =>
      let name := Str.from_utf8_lossy e.1 in
      let entry := Path.join dir [Normal e.1] in
      if path_exists t (mapping_path entry) then
        content ← read_text t (mapping_path entry);
        mapping ← ok_or (ProfileBadJson "mapping.json") (pj_parse content);
        Ok (<[name := mapping]> acc)
      else
        let manifest_path := Path.join entry [Normal "manifest.json"] in
        if path_exists t manifest_path then
          match bootstrap_from_manifest clock t manifest_path with
          | Ok mapping => Ok (<[name := mapping]> acc)
          | Err _ => Ok acc
          end
        else Ok acc
  | _ => Ok acc
  end.

Fixpoint load_entries (clock : string → Z) (t : tree) (dir : path) (acc : gmap string ProfileMapping)
    (es : list (string * node)) : result ProfileError (gmap string ProfileMapping) :=
  match es with
  | [] => Ok acc
  | e :: es' => acc ← load_entry clock t dir acc e; load_entries clock t dir acc es'
  end.

Fixpoint persist_missing (names : list string) : PS unit :=
  match names with
  | [] => mret tt
  | name :: names' =>
      s ← sr_get;
      (if path_exists (fs_tree (ps_fs s)) (mapping_path (profile_dir (profiles_dir s) name))
       then mret tt else sr_warn (persist name)) ;;
      persist_missing names'
  end.

(** [ProfileStore::load]: what it returns, and the disk it leaves *)
Definition load (clock : string → Z) (dir : string) (f : fsys) : result ProfileError ProfileStore * fsys :=
  let t := fs_tree f in
  let d := Path.components dir in
  let read := if is_dir t d then
                match read_dir t d with
                | Ok es => load_entries clock t d ∅ es
                | Err e => Err (ProfileIo e)
                end
              else Ok ∅ in
  match read with
  | Err e => (Err e, f)
  | Ok profiles =>
      let s := (persist_missing (BTree.keys profiles) (mkProfileStore profiles dir f)).2 in
      (Ok s, ps_fs s)
  end.

Definition get_or_create (name : string) (s : ProfileStore) : ProfileMapping :=
  default (mkProfileMapping 1 []) (profiles s !! name).

Definition list_profiles (s : ProfileStore) : list string := BTree.keys (profiles s).

Definition add_package (now : Z) (profile name store_path : string) : PS unit :=
  s ← sr_get;
  sr_put (set_profiles (<[profile := Mapping.add now name store_path (get_or_create profile s)]> (profiles s)) s) ;;
  persist profile.

Definition remove_package (profile name : string) : PS bool :=
  s ← sr_get;
  match profiles s !! profile with
  | Some mapping =>
      let '(removed, mapping') := Mapping.remove name mapping in
      sr_put (set_profiles (<[profile := mapping']> (profiles s)) s) ;;
      (if removed then persist profile else mret tt) ;;
      mret (removed : bool)
  | None => mret false
  end.

(** The message of a command, and the file manifest an [add] brings *)
Definition process_control (now : Z) (profile command_json : string)
    : PS (string * option (string * list ManifestEntry)) :=
  cmd ← sr_lift (ok_or (ProfileBadJson "command") (pj_parse_command command_json));
  if decide (cmd_action cmd = "add") then
    store_path ← sr_lift (ok_or MissingStorePath (cmd_store_path cmd));
    add_package now profile (cmd_name cmd) store_path ;;
    mret ("added " +:+ cmd_name cmd +:+ " to profile " +:+ profile,
          match cmd_files cmd with [] => None | files => Some (store_path, files) end)
  else if decide (cmd_action cmd = "remove") then
    removed ← remove_package profile (cmd_name cmd);
    mret ((if removed : bool then "removed " +:+ cmd_name cmd +:+ " from profile " +:+ profile
           else cmd_name cmd +:+ " not found in profile " +:+ profile), None)
  else if decide (cmd_action cmd = "list") then
    s ← sr_get; mret (pj_print_listing (profiles s !! profile), None)
  else sr_lift (Err (UnknownAction (cmd_action cmd))).

End profiles.
