(* ===== verification/ManifestInstances.v ===== *)
(** * Concrete instances for manifests

    A stand-in for serde_json on manifests: the bits of a countable encoding.  A record
    is encoded as the list of its encoded fields, so that nesting stays cheap. *)

From S2P Require Import Prelude RustStd FileSys Calendar Manifest Instances Generations.

Definition fields_countable {A} `{EqDecision A} (to : A → list positive)
    (from : list positive → option A) (H : ∀ a, from (to a) = Some a) : Countable A.
Proof.
  refine {| encode a := encode (to a); decode p := decode p ≫= from |}.
  intros a. rewrite decode_encode. apply H.
Defined.

#[export] Instance GenerationInfo_countable : Countable GenerationInfo.
Proof.
  refine (fields_countable
    (λ r, [encode (gi_id r); encode (gi_build_hash r); encode (gi_description r);
           encode (gi_timestamp r)])
    (λ l, match l with
          | [p0; p1; p2; p3] =>
              x0 ← decode p0; x1 ← decode p1; x2 ← decode p2; x3 ← decode p3;
              Some (mkGenerationInfo x0 x1 x2 x3)
          | _ => None
          end) _).
  intros []. cbn [mbind option_bind]. rewrite !decode_encode. reflexivity.
Defined.
#[export] Instance GenerationMetadata_eq_dec : EqDecision GenerationMetadata.
Proof. solve_decision. Defined.
#[export] Instance GenerationMetadata_countable : Countable GenerationMetadata.
Proof.
  refine (fields_countable
    (λ r, [encode (gm_id r); encode (gm_description r); encode (gm_timestamp r)])
    (λ l, match l with
          | [p0; p1; p2] =>
              x0 ← decode p0; x1 ← decode p1; x2 ← decode p2;
              Some (mkGenerationMetadata x0 x1 x2)
          | _ => None
          end) _).
  intros []. cbn [mbind option_bind]. rewrite !decode_encode. reflexivity.
Defined.
#[export] Instance SystemInfo_countable : Countable SystemInfo.
Proof.
  refine (fields_countable
    (λ r, [encode (redox_system_version r); encode (target r); encode (profile r);
           encode (hostname r); encode (timezone r)])
    (λ l, match l with
          | [p0; p1; p2; p3; p4] =>
              x0 ← decode p0; x1 ← decode p1; x2 ← decode p2; x3 ← decode p3; x4 ← decode p4;
              Some (mkSystemInfo x0 x1 x2 x3 x4)
          | _ => None
          end) _).
  intros []. cbn [mbind option_bind]. rewrite !decode_encode. reflexivity.
Defined.
#[export] Instance BootConfig_countable : Countable BootConfig.
Proof.
  refine (fields_countable
    (λ r, [encode (disk_size_mb r); encode (esp_size_mb r); encode (boot_proof r)])
    (λ l, match l with
          | [p0; p1; p2] =>
              x0 ← decode p0; x1 ← decode p1; x2 ← decode p2;
              Some (mkBootConfig x0 x1 x2)
          | _ => None
          end) _).
  intros []. cbn [mbind option_bind]. rewrite !decode_encode. reflexivity.
Defined.
#[export] Instance BootComponents_countable : Countable BootComponents.
Proof.
  refine (fields_countable
    (λ r, [encode (kernel r); encode (initfs r); encode (bootloader r)])
    (λ l, match l with
          | [p0; p1; p2] =>
              x0 ← decode p0; x1 ← decode p1; x2 ← decode p2;
              Some (mkBootComponents x0 x1 x2)
          | _ => None
          end) _).
  intros []. cbn [mbind option_bind]. rewrite !decode_encode. reflexivity.
Defined.
#[export] Instance HardwareConfig_countable : Countable HardwareConfig.
Proof.
  refine (fields_countable
    (λ r, [encode (storage_drivers r); encode (network_drivers r); encode (graphics_drivers r);
           encode (audio_drivers r); encode (usb_enabled r)])
    (λ l, match l with
          | [p0; p1; p2; p3; p4] =>
              x0 ← decode p0; x1 ← decode p1; x2 ← decode p2; x3 ← decode p3; x4 ← decode p4;
              Some (mkHardwareConfig x0 x1 x2 x3 x4)
          | _ => None
          end) _).
  intros []. cbn [mbind option_bind]. rewrite !decode_encode. reflexivity.
Defined.
#[export] Instance NetworkingConfig_countable : Countable NetworkingConfig.
Proof.
  refine (fields_countable
    (λ r, [encode (net_enabled r); encode (net_mode r); encode (net_dns r)])
    (λ l, match l with
          | [p0; p1; p2] =>
              x0 ← decode p0; x1 ← decode p1; x2 ← decode p2;
              Some (mkNetworkingConfig x0 x1 x2)
          | _ => None
          end) _).
  intros []. cbn [mbind option_bind]. rewrite !decode_encode. reflexivity.
Defined.
#[export] Instance GraphicsConfig_countable : Countable GraphicsConfig.
Proof.
  refine (fields_countable
    (λ r, [encode (gfx_enabled r); encode (gfx_resolution r)])
    (λ l, match l with
          | [p0; p1] =>
              x0 ← decode p0; x1 ← decode p1;
              Some (mkGraphicsConfig x0 x1)
          | _ => None
          end) _).
  intros []. cbn [mbind option_bind]. rewrite !decode_encode. reflexivity.
Defined.
#[export] Instance SecurityConfig_countable : Countable SecurityConfig.
Proof.
  refine (fields_countable
    (λ r, [encode (protect_kernel_schemes r); encode (require_passwords r);
           encode (allow_remote_root r)])
    (λ l, match l with
          | [p0; p1; p2] =>
              x0 ← decode p0; x1 ← decode p1; x2 ← decode p2;
              Some (mkSecurityConfig x0 x1 x2)
          | _ => None
          end) _).
  intros []. cbn [mbind option_bind]. rewrite !decode_encode. reflexivity.
Defined.
#[export] Instance LoggingConfig_countable : Countable LoggingConfig.
Proof.
  refine (fields_countable
    (λ r, [encode (log_level r); encode (kernel_log_level r); encode (log_to_file r);
           encode (max_log_size_mb r)])
    (λ l, match l with
          | [p0; p1; p2; p3] =>
              x0 ← decode p0; x1 ← decode p1; x2 ← decode p2; x3 ← decode p3;
              Some (mkLoggingConfig x0 x1 x2 x3)
          | _ => None
          end) _).
  intros []. cbn [mbind option_bind]. rewrite !decode_encode. reflexivity.
Defined.
#[export] Instance PowerConfig_countable : Countable PowerConfig.
Proof.
  refine (fields_countable
    (λ r, [encode (acpi_enabled r); encode (power_action r); encode (reboot_on_panic r)])
    (λ l, match l with
          | [p0; p1; p2] =>
              x0 ← decode p0; x1 ← decode p1; x2 ← decode p2;
              Some (mkPowerConfig x0 x1 x2)
          | _ => None
          end) _).
  intros []. cbn [mbind option_bind]. rewrite !decode_encode. reflexivity.
Defined.
#[export] Instance Configuration_countable : Countable Configuration.
Proof.
  refine (fields_countable
    (λ r, [encode (cfg_boot r); encode (cfg_hardware r); encode (cfg_networking r);
           encode (cfg_graphics r); encode (cfg_security r); encode (cfg_logging r);
           encode (cfg_power r)])
    (λ l, match l with
          | [p0; p1; p2; p3; p4; p5; p6] =>
              x0 ← decode p0; x1 ← decode p1; x2 ← decode p2; x3 ← decode p3; x4 ← decode p4;
              x5 ← decode p5; x6 ← decode p6;
              Some (mkConfiguration x0 x1 x2 x3 x4 x5 x6)
          | _ => None
          end) _).
  intros []. cbn [mbind option_bind]. rewrite !decode_encode. reflexivity.
Defined.
#[export] Instance Package_countable : Countable Package.
Proof.
  refine (fields_countable
    (λ r, [encode (pkg_name r); encode (pkg_version r); encode (pkg_store_path r)])
    (λ l, match l with
          | [p0; p1; p2] =>
              x0 ← decode p0; x1 ← decode p1; x2 ← decode p2;
              Some (mkPackage x0 x1 x2)
          | _ => None
          end) _).
  intros []. cbn [mbind option_bind]. rewrite !decode_encode. reflexivity.
Defined.
#[export] Instance Drivers_countable : Countable Drivers.
Proof.
  refine (fields_countable
    (λ r, [encode (drv_all r); encode (drv_initfs r); encode (drv_core r)])
    (λ l, match l with
          | [p0; p1; p2] =>
              x0 ← decode p0; x1 ← decode p1; x2 ← decode p2;
              Some (mkDrivers x0 x1 x2)
          | _ => None
          end) _).
  intros []. cbn [mbind option_bind]. rewrite !decode_encode. reflexivity.
Defined.
#[export] Instance User_countable : Countable User.
Proof.
  refine (fields_countable
    (λ r, [encode (user_uid r); encode (user_gid r); encode (user_home r);
           encode (user_shell r)])
    (λ l, match l with
          | [p0; p1; p2; p3] =>
              x0 ← decode p0; x1 ← decode p1; x2 ← decode p2; x3 ← decode p3;
              Some (mkUser x0 x1 x2 x3)
          | _ => None
          end) _).
  intros []. cbn [mbind option_bind]. rewrite !decode_encode. reflexivity.
Defined.
#[export] Instance Group_countable : Countable Group.
Proof.
  refine (fields_countable
    (λ r, [encode (group_gid r); encode (group_members r)])
    (λ l, match l with
          | [p0; p1] =>
              x0 ← decode p0; x1 ← decode p1;
              Some (mkGroup x0 x1)
          | _ => None
          end) _).
  intros []. cbn [mbind option_bind]. rewrite !decode_encode. reflexivity.
Defined.
#[export] Instance ServiceInfo_countable : Countable ServiceInfo.
Proof.
  refine (fields_countable
    (λ r, [encode (svc_description r); encode (svc_command r); encode (svc_type r);
           encode (svc_args r); encode (svc_wanted_by r); encode (svc_environment r);
           encode (svc_after r)])
    (λ l, match l with
          | [p0; p1; p2; p3; p4; p5; p6] =>
              x0 ← decode p0; x1 ← decode p1; x2 ← decode p2; x3 ← decode p3; x4 ← decode p4;
              x5 ← decode p5; x6 ← decode p6;
              Some (mkServiceInfo x0 x1 x2 x3 x4 x5 x6)
          | _ => None
          end) _).
  intros []. cbn [mbind option_bind]. rewrite !decode_encode. reflexivity.
Defined.
#[export] Instance Services_countable : Countable Services.
Proof.
  refine (fields_countable
    (λ r, [encode (declared r); encode (init_scripts r); encode (startup_script r)])
    (λ l, match l with
          | [p0; p1; p2] =>
              x0 ← decode p0; x1 ← decode p1; x2 ← decode p2;
              Some (mkServices x0 x1 x2)
          | _ => None
          end) _).
  intros []. cbn [mbind option_bind]. rewrite !decode_encode. reflexivity.
Defined.
#[export] Instance ActivationScript_countable : Countable ActivationScript.
Proof.
  refine (fields_countable
    (λ r, [encode (as_name r); encode (as_deps r)])
    (λ l, match l with
          | [p0; p1] =>
              x0 ← decode p0; x1 ← decode p1;
              Some (mkActivationScript x0 x1)
          | _ => None
          end) _).
  intros []. cbn [mbind option_bind]. rewrite !decode_encode. reflexivity.
Defined.
#[export] Instance FileInfo_countable : Countable FileInfo.
Proof.
  refine (fields_countable
    (λ r, [encode (fi_blake3 r); encode (fi_size r); encode (fi_mode r); encode (fi_text r)])
    (λ l, match l with
          | [p0; p1; p2; p3] =>
              x0 ← decode p0; x1 ← decode p1; x2 ← decode p2; x3 ← decode p3;
              Some (mkFileInfo x0 x1 x2 x3)
          | _ => None
          end) _).
  intros []. cbn [mbind option_bind]. rewrite !decode_encode. reflexivity.
Defined.
#[export] Instance Manifest_countable : Countable Manifest.
Proof.
  refine (fields_countable
    (λ r, [encode (manifest_version r); encode (m_system r); encode (m_generation r);
           encode (m_boot r); encode (m_configuration r); encode (m_packages r);
           encode (m_drivers r); encode (m_users r); encode (m_groups r);
           encode (m_services r); encode (m_activation_scripts r); encode (m_files r);
           encode (m_system_profile r); encode (m_toplevel r); encode (m_etc_source r)])
    (λ l, match l with
          | [p0; p1; p2; p3; p4; p5; p6; p7; p8; p9; p10; p11; p12; p13; p14] =>
              x0 ← decode p0; x1 ← decode p1; x2 ← decode p2; x3 ← decode p3; x4 ← decode p4;
              x5 ← decode p5; x6 ← decode p6; x7 ← decode p7; x8 ← decode p8; x9 ← decode p9;
              x10 ← decode p10; x11 ← decode p11; x12 ← decode p12; x13 ← decode p13;
              x14 ← decode p14;
              Some (mkManifest x0 x1 x2 x3 x4 x5 x6 x7 x8 x9 x10 x11 x12 x13 x14)
          | _ => None
          end) _).
  intros []. cbn [mbind option_bind]. rewrite !decode_encode. reflexivity.
Defined.

#[export] Instance demo_system_json : SystemJson := {|
  system_to_json := demo_print;
  system_from_json := demo_parse;
  system_json_roundtrip := demo_parse_print;
  metadata_to_json := demo_print;
|}.

(** Nothing fails. *)
#[export] Instance demo_no_gen_faults : GenFaults := {|
  gen_mkdir_fails _ := false;
  gen_write_fault _ _ := None;
  sys_write_fault _ := None;
  link_faults := None;
  gen_remove_leaves _ := None;
  gen_scan_fails := false;
|}.

Definition demo_manifest (id : Z) (timestamp description : string) (pkgs : list Package) : Manifest :=
  mkManifest 4 (mkSystemInfo "0.9" "x86_64-unknown-redox" "default" "redox" "UTC")
    (mkGenerationInfo id "" description timestamp) None
    (mkConfiguration (mkBootConfig 512 64 false) (mkHardwareConfig [] [] [] [] false)
      (mkNetworkingConfig true "dhcp" ["1.1.1.1"]) (mkGraphicsConfig false "")
      (mkSecurityConfig true true false) (mkLoggingConfig "info" "info" false 1)
      (mkPowerConfig true "off" true))
    pkgs (mkDrivers [] [] []) ∅ ∅ (mkServices ∅ [] "") [] ∅ "" None None.

Lemma demo_json_ex :
  system_from_json (system_to_json (demo_manifest 3 "" "x" [mkPackage "ion" "1.0" "/nix/store/aaa-app"]))
  = Some (demo_manifest 3 "" "x" [mkPackage "ion" "1.0" "/nix/store/aaa-app"]).
Proof. vm_compute. reflexivity. Qed.

(** A system whose calls are refused only for the reasons the model itself has *)
#[export] Instance demo_fs_limits : FsLimits := {
  link_max := 40;
  path_max := 4096;
  fs_cwd := [RootDir];
  default_file_mode := 420;
  default_dir_mode := 493;
  fs_fault := λ _ _, None;
  write_leaves := λ _, None;
  rmtree_fault := λ _, None;
}.

(** ** The JSON of the profile daemon *)
From S2P Require Import Nar Profiles.

#[export] Instance ProfileEntry_countable : Countable ProfileEntry.
Proof.
  refine (inj_countable' (λ e, (pe_name e, pe_store_path e, pe_installed_at e))
    (λ '(a, b, c), mkProfileEntry a b c) _). by intros [].
Defined.

#[export] Instance ProfileMapping_countable : Countable ProfileMapping.
Proof.
  refine (inj_countable' (λ m, (pm_version m, packages m)) (λ '(a, b), mkProfileMapping a b) _). by intros [].
Defined.

#[export] Instance ControlCommand_countable : Countable ControlCommand.
Proof.
  refine (inj_countable' (λ c, (cmd_action c, cmd_name c, cmd_store_path c, cmd_files c))
    (λ '(a, b, c, d), mkControlCommand a b c d) _). by intros [].
Defined.

#[export] Instance demo_profile_json : ProfileJson := {|
  pj_print := demo_print;
  pj_parse := demo_parse;
  pj_print_listing := demo_print;
  pj_parse_install := demo_parse;
  pj_parse_command := demo_parse;
|}.

Lemma pos_bits_utf8 p : Str.utf8_valid (pos_bits p) = true.
Proof. unfold Str.utf8_valid. induction p; done. Qed.

#[export] Instance demo_profile_json_laws : ProfileJsonLaws.
Proof. constructor; intros m; [apply demo_parse_print|apply pos_bits_utf8]. Qed.
