(* ===== verification/GenDelete.v ===== *)
(** * Deleting generations

    Deletion never touches a protected generation, deletes what its selector says, and
    the pruning followed by a store sweep keeps the current system. *)

From S2P Require Import Prelude RustStd FileSys Nar PathInfo Instances Store Calendar Manifest Generations ManifestInstances.

Open Scope Z_scope.

(** ** Numbers as names *)
Lemma pad_0 n : pad 0 n = dec n.
Proof. done. Qed.

Lemma parse_dec max n : 0 ≤ n ≤ max → parse_uint max (dec n) = Some n.
Proof. intros. rewrite <- pad_0. by apply parse_pad. Qed.

Lemma dec_inj m n : 0 ≤ m → 0 ≤ n → dec m = dec n → m = n.
Proof.
  intros Hm Hn He. pose proof (parse_dec (Z.max m n) m ltac:(lia)) as H1.
  rewrite He, parse_dec in H1 by lia. congruence.
Qed.

Lemma dec_no_char c n :
  (c ∉ ["0"; "1"; "2"; "3"; "4"; "5"; "6"; "7"; "8"; "9"]%char) → Str.contains_char c (dec n) = false.
Proof. intros. rewrite <- pad_0. by apply pad_no_char. Qed.

Lemma parse_uint_range max s n : parse_uint max s = Some n → 0 ≤ n ≤ max.
Proof.
  unfold parse_uint. destruct (DecimalString.NilZero.uint_of_string _); simpl; [|done].
  case_decide; intros; simplify_eq. lia.
Qed.

(** Names of different generations' roots do not meet. *)
Lemma root_name_app k x : root_name k x = "gen-" +:+ (dec k +:+ String "-" x).
Proof. done. Qed.

Lemma root_name_apart k p x :
  0 ≤ k → 0 ≤ p → Str.starts_with (root_name k "") (root_name p x) = true → k = p.
Proof.
  intros Hk Hp Hs. apply Str.starts_with_spec in Hs as [t Ht].
  rewrite !root_name_app in Ht.
  assert (He : dec p +:+ String "-" x = dec k +:+ String "-" t).
  { revert Ht. rewrite !Str.app_assoc. simpl. intros Ht. by simplify_eq. }
  apply dec_inj; [done|done|].
  assert (H1 : Str.split_once "-" (dec p +:+ String "-" x) = Some (dec p, x))
    by (apply Str.split_once_Some; split; [done|apply dec_no_char; set_solver]).
  rewrite He in H1.
  assert (H2 : Str.split_once "-" (dec k +:+ String "-" t) = Some (dec k, t))
    by (apply Str.split_once_Some; split; [done|apply dec_no_char; set_solver]).
  congruence.
Qed.

Section delete.
Context `{SPL : StorePathLib, IJ : InfoJson, MJ : ManifestJson, IOF : IoFaults, TF : TreeFaults,
          SJ : SystemJson, GF : GenFaults}.
Variable now : option Z.

(** ** Frames *)
Lemma remove_root_other roots name name' :
  name ≠ name' → (remove_root roots name).2 !! name' = roots !! name'.
Proof.
  intros Hn. unfold remove_root. destruct (roots !! name) as [[]|]; simpl; try done;
    destruct (remove_fails name); simpl; try done; by rewrite lookup_delete_ne.
Qed.

Lemma remove_roots_other names roots name :
  name ∉ names → remove_roots names roots !! name = roots !! name.
Proof.
  unfold remove_roots. revert roots. induction names as [|n names IH]; intros roots Hn; [done|].
  apply not_elem_of_cons in Hn as [Hn Hns]. simpl. rewrite IH by done.
  by apply remove_root_other.
Qed.

Lemma remove_generation_other roots k p x :
  0 ≤ k → 0 ≤ p → k ≠ p →
  (remove_generation_gc_roots roots k).2 !! root_name p x = roots !! root_name p x.
Proof.
  intros Hk Hp Hne. unfold remove_generation_gc_roots. destruct (list_roots roots); simpl; [|done].
  apply remove_roots_other. rewrite list_elem_of_filter. intros [Hs _]. apply Hne.
  by eapply root_name_apart.
Qed.

(** What a deletion leaves alone whatever it deletes *)
Record same_frame (s s' : Sys) : Prop := mkSame {
  sf_manifest : s_manifest s' = s_manifest s;
  sf_link : s_link s' = s_link s;
  sf_boot : s_boot s' = s_boot s;
  sf_db : d_db (s_disk s') = d_db (s_disk s);
  sf_store : d_store (s_disk s') = d_store (s_disk s);
}.

Definition entry (s : Sys) (name : string) : option GenEntry := s_gens s ≫= λ dir, dir !! name.

(** What a deletion leaves alone for one generation *)
Definition kept (s s' : Sys) (id : Z) : Prop :=
  entry s' (dec id) = entry s (dec id)
  ∧ ∀ x, s_roots s' !! root_name id x = s_roots s !! root_name id x.

Lemma same_refl s : same_frame s s.
Proof. by constructor. Qed.

Lemma same_trans s1 s2 s3 : same_frame s1 s2 → same_frame s2 s3 → same_frame s1 s3.
Proof. intros [] []. constructor; congruence. Qed.

Lemma kept_trans s1 s2 s3 id : kept s1 s2 id → kept s2 s3 id → kept s1 s3 id.
Proof. intros [H1 H2] [H3 H4]. split; [congruence|]. intros x. by rewrite H4. Qed.

Lemma remove_gen_dir_frame id s r s' :
  remove_gen_dir id s = (r, s') →
  same_frame s s' ∧ s_disk s' = s_disk s
  ∧ (∀ name, name ≠ dec id → entry s' name = entry s name)
  ∧ (is_ok r = true → entry s' (dec id) = None).
Proof.
  unfold remove_gen_dir, entry. destruct (s_gens s) as [dir|] eqn:Eg.
  2:{ intros [= <- <-]. rewrite Eg. by split_and!. }
  destruct (dir !! dec id) eqn:Ed.
  2:{ intros [= <- <-]. rewrite Eg. simpl. split_and!; try done. }
  destruct (gen_remove_leaves (dec id)); intros [= <- <-]; simpl;
    (split_and!; [done|done| |]); try done.
  - intros name Hn. by rewrite lookup_insert_ne.
  - intros name Hn. by rewrite lookup_delete_ne.
  - intros _. by rewrite lookup_delete_eq.
Qed.

(** One round of the loop *)
Definition delete_one (id : Z) : G Z :=
  s ← sr_get;
  let '(n, roots) := remove_generation_gc_roots (s_roots s) id in
  sr_put (set_roots roots s) ;; remove_gen_dir id ;; mret n.

Lemma delete_one_frame id s r s' :
  delete_one id s = (r, s') →
  same_frame s s'
  ∧ (∀ p, 0 ≤ id → 0 ≤ p → p ≠ id → kept s s' p)
  ∧ (∀ name, name ≠ dec id → entry s' name = entry s name)
  ∧ (is_ok r = true → entry s' (dec id) = None).
Proof.
  unfold delete_one, mbind, G_bind, SR_bind, sr_get, sr_put, mret, G_ret, SR_ret.
  destruct (remove_generation_gc_roots (s_roots s) id) as [n roots] eqn:Er.
  destruct (remove_gen_dir id (set_roots roots s)) as [r1 s1] eqn:Ed. intros Hr.
  assert (Hs : s1 = s') by (destruct r1; congruence). subst s1.
  apply remove_gen_dir_frame in Ed as (Hf & Hd & Hn & Hok).
  assert (Hf' : same_frame s s') by (destruct Hf; constructor; simpl in *; congruence).
  split; [done|]. split; [|split; [done|]].
  - intros p Hid Hp Hne. split.
    + apply Hn. intros He. by apply Hne, dec_inj.
    + intros x. unfold s_roots. rewrite Hd. simpl.
      change roots with (n, roots).2. rewrite <- Er. by apply remove_generation_other.
  - intros Hokr. apply Hok. destruct r1; [done|]. injection Hr as <-. done.
Qed.

Lemma delete_loop_step dry id ids stats :
  delete_loop dry (id :: ids) stats
  = (removed ← (if dry then mret 0 else delete_one id);
     delete_loop dry ids
       (mkDeleteStats (wrap32 (generations_deleted stats + 1)) (wrap32 (roots_removed stats + removed))
          (deleted_ids stats ++ [id]) (protected_ids stats))).
Proof. done. Qed.

Lemma delete_loop_dry ids stats s : ∃ stats', delete_loop true ids stats s = (Ok stats', s).
Proof.
  revert stats. induction ids as [|id ids IH]; intros stats; [by eexists|].
  rewrite delete_loop_step. apply IH.
Qed.

Lemma delete_loop_ids dry ids stats s stats' s' :
  delete_loop dry ids stats s = (Ok stats', s') → deleted_ids stats' = deleted_ids stats ++ ids.
Proof.
  revert stats s. induction ids as [|id ids IH]; intros stats s.
  - intros [= <- _]. by rewrite app_nil_r.
  - rewrite delete_loop_step. intros (n & s1 & _ & H)%sr_bind_ok.
    apply IH in H. rewrite H. simpl. by rewrite <- app_assoc.
Qed.

Lemma delete_loop_frame ids stats s r s' :
  delete_loop false ids stats s = (r, s') →
  same_frame s s'
  ∧ (∀ p, 0 ≤ p → p ∉ ids → Forall (λ id, 0 ≤ id) ids → kept s s' p)
  ∧ (∀ name, name ∉ dec <$> ids → entry s' name = entry s name)
  ∧ (is_ok r = true → ∀ id, id ∈ ids → entry s' (dec id) = None).
Proof.
  revert stats s. induction ids as [|id ids IH]; intros stats s.
  - intros [= <- <-]. split_and!; try done. intros _ id Hid. by apply not_elem_of_nil in Hid.
  - rewrite delete_loop_step. unfold mbind, G_bind, SR_bind.
    destruct (delete_one id s) as [[n|e] s1] eqn:E1.
    2:{ intros [= <- <-]. apply delete_one_frame in E1 as (Hf & Hk & Hn & _). split_and!; try done.
        - intros p Hp Hnin Hall. apply not_elem_of_cons in Hnin as [Hne _].
          apply Forall_cons in Hall as [Hid _]. by apply Hk.
        - intros name [Hne _]%not_elem_of_cons. by apply Hn. }
    intros H2. apply IH in H2 as (Hf2 & Hk2 & Hn2 & Hok2).
    apply delete_one_frame in E1 as (Hf1 & Hk1 & Hn1 & Hok1). split_and!.
    + by eapply same_trans.
    + intros p Hp Hnin Hall. apply not_elem_of_cons in Hnin as [Hne Hnin].
      apply Forall_cons in Hall as [Hid Hall]. eapply kept_trans; [by apply Hk1 | by apply Hk2].
    + intros name [Hne Hnin]%not_elem_of_cons. rewrite Hn2 by done. by apply Hn1.
    + intros Hok id' [->|Hin]%elem_of_cons.
      * destruct (decide (dec id ∈ dec <$> ids)) as [Hin|Hnin].
        -- apply list_elem_of_fmap in Hin as (j & He & Hj). rewrite He. by apply Hok2.
        -- rewrite Hn2 by done. by apply Hok1.
      * by apply Hok2.
Qed.

(** ** What is selected *)
Lemma elem_of_scan s gens g :
  scan_generations s = Ok gens → g ∈ gens → 0 ≤ g_id g ≤ u32_max.
Proof.
  unfold scan_generations. destruct (s_gens s) as [dir|].
  2:{ intros [= <-] Hg. by apply not_elem_of_nil in Hg. }
  destruct gen_scan_fails; [done|]. intros [= <-].
  rewrite merge_sort_Permutation, list_elem_of_omap. intros ([name e] & _ & Hs).
  unfold scan_entry in Hs. cbn [fst snd] in Hs.
  destruct (parse_uint u32_max name) eqn:E; [|done]. cbv [mbind option_bind] in Hs.
  destruct (ge_manifest e) as [f|]; [|done].
  destruct (load_manifest_from (Some f)); simplify_eq. simpl. by eapply parse_uint_range.
Qed.

Lemma older_than_spec cutoff protected gens ids id :
  older_than cutoff protected gens = Returns ids → id ∈ ids →
  (id ∉ protected) ∧ ∃ g, g ∈ gens ∧ g_id g = id.
Proof.
  revert ids. induction gens as [|g gens IH]; intros ids; simpl.
  - intros [= <-] Hin. by apply not_elem_of_nil in Hin.
  - case_decide as Hp.
    + intros Ho Hin. destruct (IH _ Ho Hin) as (? & g' & ? & ?). split; [done|].
      exists g'. split; [by right|done].
    + destruct (parse_timestamp_to_epoch _); [|done]. destruct (older_than cutoff protected gens); [|done].
      intros [= <-] Hin. assert (Hc : id = g_id g ∨ id ∈ a0) by (case_decide; set_solver).
      destruct Hc as [->|Hin']; [split; [done|]; exists g; split; [by left|done]|].
      destruct (IH _ eq_refl Hin') as (? & g' & ? & ?). split; [done|]. exists g'. split; [by right|done].
Qed.

Definition selector_nonneg (sel : GenerationSelector) : Prop :=
  match sel with Ids ids => Forall (λ id, 0 ≤ id) ids | _ => True end.

Lemma parse_ids_nonneg s ids : parse_ids s = Some ids → Forall (λ id, 0 ≤ id) ids.
Proof.
  unfold parse_ids. intros Hm. apply mapM_Some in Hm.
  induction Hm as [|x y l k Hx _ IH]; constructor; [|done].
  apply parse_uint_range in Hx. lia.
Qed.

Lemma parse_selector_nonneg input sel :
  parse_generation_selector input = Ok sel → selector_nonneg sel.
Proof.
  unfold parse_generation_selector. case_decide; [intros; by simplify_eq|].
  destruct (Str.strip_prefix _ _).
  { destruct (parse_uint _ _); simpl; [|done]. case_decide; intros; by simplify_eq. }
  destruct (strip_suffix_char _ _).
  { destruct (parse_uint _ _); simpl; intros; by simplify_eq. }
  destruct (parse_ids _) as [[|i ids]|] eqn:E; [done| |done].
  intros [= <-]. by eapply parse_ids_nonneg.
Qed.

Lemma to_delete_spec sel protected s gens ids :
  scan_generations s = Ok gens → selector_nonneg sel →
  to_delete now sel protected gens = Ok ids →
  Forall (λ id, 0 ≤ id) ids ∧ ∀ id, id ∈ protected → id ∉ ids.
Proof.
  intros Hs Hsel. unfold to_delete.
  assert (Hg : ∀ id, id ∈ g_id <$> gens → 0 ≤ id).
  { intros id (g & -> & Hg)%list_elem_of_fmap. by eapply elem_of_scan. }
  destruct sel as [l|n|days|].
  - intros [= <-]. split.
    + apply Forall_forall. intros id [_ Hin]%list_elem_of_filter.
      simpl in Hsel. rewrite Forall_forall in Hsel. by apply Hsel.
    + intros id Hp [Hn _]%list_elem_of_filter. done.
  - intros [= <-]. split.
    + apply Forall_forall. intros id [_ Hin]%list_elem_of_filter. apply Hg.
      apply elem_of_take in Hin as (i & Hi & _). apply list_elem_of_lookup_2 in Hi.
      by rewrite merge_sort_Permutation in Hi.
    + intros id Hp [Hn _]%list_elem_of_filter. done.
  - destruct (older_than _ protected gens) eqn:E; [|done]. intros [= <-]. split.
    + apply Forall_forall. intros id Hin.
      destruct (older_than_spec _ _ _ _ _ E Hin) as (_ & g & Hgin & <-). by eapply elem_of_scan.
    + intros id Hp Hin. by destruct (older_than_spec _ _ _ _ _ E Hin).
  - intros [= <-]. split.
    + apply Forall_forall. intros id [_ Hin]%list_elem_of_filter. by apply Hg.
    + intros id Hp [Hn _]%list_elem_of_filter. done.
Qed.

(** The run of [delete_generations] up to its loop *)
Lemma delete_generations_inv selector dry s r s' current bd :
  load_manifest_from (s_manifest s) = Ok current → read_boot_default s = Ok bd →
  delete_generations now selector dry s = (r, s') →
  (s' = s ∧ is_ok r = false)
  ∨ ∃ gens sel ids stats,
      scan_generations s = Ok gens ∧ parse_generation_selector selector = Ok sel
      ∧ to_delete now sel (protected_set (gen_id current) bd) gens = Ok ids
      ∧ deleted_ids stats = []
      ∧ delete_loop dry ids stats s = (r, s').
Proof.
  intros Hm Hb. unfold delete_generations, mbind, G_bind, SR_bind, sr_get, sr_lift.
  rewrite Hm, Hb. destruct (scan_generations s) as [gens|e] eqn:Es; [|intros [= <- <-]; by left].
  destruct (parse_generation_selector selector) as [sel|e] eqn:Ep; [|intros [= <- <-]; by left].
  destruct (to_delete now sel _ gens) as [ids|e] eqn:Et; [|intros [= <- <-]; by left].
  intros Hl. right. eexists gens, sel, ids, _.
  do 3 (split; [done|]). split; [|exact Hl]. done.
Qed.

End delete.

(** ** Selectors as text *)
Lemma dec_graphic n : Str.all_chars Str.graphic (dec n) = true.
Proof.
  rewrite dec_nil_empty. induction (N.to_uint (Z.to_N n)); simpl; rewrite ?IHu; done.
Qed.

Lemma dec_nonempty n : dec n ≠ "".
Proof.
  rewrite dec_nil_empty. pose proof (to_uint_nonnil (Z.to_N n)).
  by destruct (N.to_uint (Z.to_N n)).
Qed.

Lemma dec_no d c n :
  (c ∉ ["0"; "1"; "2"; "3"; "4"; "5"; "6"; "7"; "8"; "9"]%char) → dec n ≠ String c d.
Proof.
  intros Hc He. pose proof (dec_no_char c n Hc) as Hn. rewrite He in Hn. simpl in Hn.
  by rewrite bool_decide_eq_true_2 in Hn.
Qed.

(** The text of a selector *)
Definition show_selector (sel : GenerationSelector) : string :=
  match sel with
  | Ids ids => Str.join " " (dec <$> ids)
  | KeepLast n => "+" +:+ dec n
  | OlderThanDays n => dec n +:+ "d"
  | Old => "old"
  end.

Definition valid_selector (sel : GenerationSelector) : Prop :=
  match sel with
  | Ids ids => ids ≠ [] ∧ Forall (λ id, 0 ≤ id ≤ u32_max) ids
  | KeepLast n => 1 ≤ n ≤ u32_max
  | OlderThanDays n => 0 ≤ n ≤ u32_max
  | Old => True
  end.

Definition digit (a : ascii) : bool :=
  bool_decide (a ∈ ["0"; "1"; "2"; "3"; "4"; "5"; "6"; "7"; "8"; "9"]%char).

Lemma dec_digits n : Str.all_chars digit (dec n) = true.
Proof. rewrite dec_nil_empty. induction (N.to_uint (Z.to_N n)); simpl; rewrite ?IHu; done. Qed.

Definition digit_or_space (a : ascii) : bool := digit a || bool_decide (a = " "%char).

Lemma digit_graphic a : digit a = true → Str.graphic a = true.
Proof.
  intros Hd%bool_decide_eq_true. rewrite !elem_of_cons, elem_of_nil in Hd.
  naive_solver.
Qed.

Lemma join_dec_chars ids : Str.all_chars digit_or_space (Str.join " " (dec <$> ids)) = true.
Proof.
  assert (Hd : ∀ n, Str.all_chars digit_or_space (dec n) = true).
  { intros n. eapply Str.all_chars_impl, dec_digits. intros a Ha. unfold digit_or_space. by rewrite Ha. }
  induction ids as [|id ids IH]; [done|]. destruct ids as [|id' ids]; [apply Hd|].
  change (Str.join " " (dec <$> id :: id' :: ids))
    with (dec id +:+ String " " (Str.join " " (dec <$> id' :: ids))).
  rewrite Str.all_chars_app, Hd. simpl. exact IH.
Qed.

Lemma dec_head n : ∃ a t, dec n = String a t ∧ digit a = true.
Proof.
  pose proof (dec_nonempty n). pose proof (dec_digits n) as Hd.
  destruct (dec n) as [|a t]; [done|]. simpl in Hd. apply andb_true_iff in Hd as [Ha _]. eauto.
Qed.

Lemma dec_last n : ∃ u a, dec n = u +:+ String a "" ∧ digit a = true.
Proof.
  pose proof (dec_nonempty n). pose proof (dec_digits n) as Hd.
  destruct (Str.snoc_cases (dec n)) as [?|(u & a & He)]; [done|].
  rewrite He, Str.all_chars_app in Hd. apply andb_true_iff in Hd as [_ Ha]. simpl in Ha.
  rewrite andb_true_r in Ha. eauto.
Qed.

Lemma join_dec_head id ids : ∃ a t, Str.join " " (dec <$> id :: ids) = String a t ∧ digit a = true.
Proof.
  destruct (dec_head id) as (a & t & He & Ha). destruct ids as [|id' ids].
  - simpl. eauto.
  - change (Str.join " " (dec <$> id :: id' :: ids))
      with (dec id +:+ String " " (Str.join " " (dec <$> id' :: ids))).
    rewrite He. simpl. eauto.
Qed.

Lemma join_dec_last id ids :
  ∃ u a, Str.join " " (dec <$> id :: ids) = u +:+ String a "" ∧ digit a = true.
Proof.
  revert id. induction ids as [|id' ids IH]; intros id.
  - simpl. apply dec_last.
  - destruct (IH id') as (u & a & He & Ha).
    change (Str.join " " (dec <$> id :: id' :: ids))
      with (dec id +:+ String " " (Str.join " " (dec <$> id' :: ids))).
    rewrite He. exists (dec id +:+ String " " u), a. by rewrite Str.app_assoc.
Qed.

(** A text of digits and spaces is none of the other selectors. *)
Lemma strip_suffix_digits s :
  Str.all_chars digit_or_space s = true → strip_suffix_char "d" s = None.
Proof.
  induction s as [|a s IH]; [done|]. cbn [Str.all_chars strip_suffix_char].
  intros [Ha Hs]%andb_true_iff. destruct s as [|b s].
  - rewrite decide_False; [done|]. intros ->. done.
  - by rewrite IH.
Qed.

Lemma strip_suffix_snoc c s : strip_suffix_char c (s +:+ String c "") = Some s.
Proof.
  induction s as [|a s IH].
  - simpl. by rewrite decide_True.
  - cbn [String.append strip_suffix_char]. rewrite IH. by destruct s.
Qed.

Lemma mapM_dec ids :
  Forall (λ id, 0 ≤ id ≤ u32_max) ids → mapM (parse_uint u32_max) (dec <$> ids) = Some ids.
Proof.
  intros Hids. apply mapM_Some, Forall2_fmap_l, Forall_Forall2_diag.
  eapply Forall_impl; [exact Hids|]. intros id Hid. by apply parse_dec.
Qed.

Lemma strip_plus_digit a t : digit a = true → Str.strip_prefix "+" (String a t) = None.
Proof. intros Ha. simpl. rewrite decide_False; [done|]. by intros <-. Qed.

Lemma parse_show_keep n : 1 ≤ n ≤ u32_max → parse_generation_selector ("+" +:+ dec n) = Ok (KeepLast n).
Proof.
  intros Hn. destruct (dec_last n) as (u & b & Hu & Hb).
  assert (Htrim : Str.trim ("+" +:+ dec n) = "+" +:+ dec n).
  { eapply (Str.trim_visible _ "+" b (dec n) (String "+" u)); try done.
    - by rewrite Hu.
    - by apply digit_graphic.
    - pose proof (dec_graphic n) as Hg. rewrite Hu, Str.all_chars_app in Hg.
      apply andb_true_iff in Hg as [Hg _]. simpl. eapply Str.all_chars_impl, Hg.
      intros a Ha. unfold Str.printable. by rewrite Ha. }
  unfold parse_generation_selector. rewrite Htrim. rewrite decide_False by done.
  rewrite Str.strip_prefix_app. rewrite parse_dec by lia. simpl. by rewrite decide_False by lia.
Qed.

Lemma parse_show_ids id ids :
  Forall (λ id, 0 ≤ id ≤ u32_max) (id :: ids) →
  parse_generation_selector (Str.join " " (dec <$> id :: ids)) = Ok (Ids (id :: ids)).
Proof.
  intros Hids. destruct (join_dec_head id ids) as (a & t & Ht & Ha).
  destruct (join_dec_last id ids) as (u & b & Hu & Hb).
  pose proof (join_dec_chars (id :: ids)) as Hch.
  set (s := Str.join " " (dec <$> id :: ids)) in *.
  assert (Htrim : Str.trim s = s).
  { eapply (Str.trim_visible s a b t u); try done; try by apply digit_graphic.
    rewrite Hu, Str.all_chars_app in Hch. apply andb_true_iff in Hch as [Hch _].
    eapply Str.all_chars_impl, Hch. intros x [Hx|Hx]%orb_true_iff; unfold Str.printable.
    - by rewrite (digit_graphic x Hx).
    - by rewrite Hx, orb_true_r. }
  unfold parse_generation_selector. rewrite Htrim.
  rewrite decide_False by (rewrite Ht; intros [= ->]; done).
  rewrite Ht at 1. rewrite strip_plus_digit by done. rewrite strip_suffix_digits by done.
  unfold parse_ids, s. rewrite Str.split_whitespace_join.
  - by rewrite (mapM_dec (id :: ids)).
  - apply Forall_fmap, Forall_forall. intros k _. split; [apply dec_nonempty | apply dec_graphic].
Qed.

Lemma parse_show_days n :
  0 ≤ n ≤ u32_max → parse_generation_selector (dec n +:+ "d") = Ok (OlderThanDays n).
Proof.
  intros Hn. destruct (dec_head n) as (a & t & Ht & Ha).
  assert (Htrim : Str.trim (dec n +:+ "d") = dec n +:+ "d").
  { eapply (Str.trim_visible _ a "d" (t +:+ "d") (dec n)); try done.
    - by rewrite Ht.
    - by apply digit_graphic.
    - eapply Str.all_chars_impl, dec_graphic. intros x Hx. unfold Str.printable. by rewrite Hx. }
  unfold parse_generation_selector. rewrite Htrim. rewrite decide_False by (rewrite Ht; intros [= -> _]; done).
  rewrite Ht at 1. cbn [String.append]. rewrite strip_plus_digit by done.
  rewrite strip_suffix_snoc. by rewrite parse_dec.
Qed.

(** ** The newest generations *)
Lemma take_smallest (l : list Z) n x :
  StronglySorted Z.le l → NoDup l →
  x ∈ take (length l - n) l ↔ x ∈ l ∧ (n ≤ length (filter (Z.lt x) l))%nat.
Proof.
  induction 1 as [|a l Hs IH Ha]; intros Hnd; [simpl; split; [by intros ?%not_elem_of_nil|intros [? _]; done]|].
  apply NoDup_cons in Hnd as [Hna Hnd]. specialize (IH Hnd).
  assert (Hlt : ∀ y, y ∈ l → a < y).
  { intros y Hy. rewrite Forall_forall in Ha. specialize (Ha y Hy).
    assert (a ≠ y) by (intros ->; done). lia. }
  assert (Hfa : filter (Z.lt a) l = l).
  { clear -Hlt. induction l as [|y l IHl]; [done|]. rewrite filter_cons_True by (apply Hlt; by left).
    f_equal. apply IHl. intros z Hz. apply Hlt. by right. }
  simpl length. destruct (decide (n ≤ length l)%nat) as [Hn|Hn].
  - replace (S (length l) - n)%nat with (S (length l - n)) by lia. cbn [take].
    rewrite elem_of_cons, IH. destruct (decide (x = a)) as [->|Hxa].
    + rewrite filter_cons_False by lia. rewrite Hfa. split; [intros _; split; [by left|done]|by left].
    + split.
      * intros [?|[Hx Hc]]; [done|]. split; [by right|].
        rewrite filter_cons_False; [done|]. specialize (Hlt x Hx). lia.
      * intros [Hx Hc]. right. apply elem_of_cons in Hx as [?|Hx]; [done|]. split; [done|].
        rewrite filter_cons_False in Hc; [done|]. specialize (Hlt x Hx). lia.
  - replace (S (length l) - n)%nat with O by lia. cbn [take].
    split; [by intros ?%not_elem_of_nil|]. intros [Hx Hc]. exfalso.
    assert (Hle : (length (filter (Z.lt x) (a :: l)) ≤ length l)%nat); [|lia].
    apply elem_of_cons in Hx as [->|Hx].
    + rewrite filter_cons_False by lia. apply length_filter.
    + rewrite filter_cons_False by (specialize (Hlt x Hx); lia). apply length_filter.
Qed.

Section theorems.
Context `{SPL : StorePathLib, IJ : InfoJson, MJ : ManifestJson, IOF : IoFaults, TF : TreeFaults,
          SJ : SystemJson, GF : GenFaults}.
Variable now : option Z.

Lemma protected_nonneg current bd s id :
  0 ≤ gen_id current → read_boot_default s = Ok bd → id ∈ protected_set (gen_id current) bd → 0 ≤ id.
Proof.
  intros Hc Hb. unfold protected_set. rewrite elem_of_union, elem_of_singleton. intros [->|Hin]; [done|].
  destruct bd as [bd|]; [|by apply not_elem_of_empty in Hin].
  apply elem_of_singleton in Hin as ->. unfold read_boot_default in Hb.
  destruct (s_boot s) as [[raw|]|]; try done. case_decide; [done|].
  destruct (parse_uint u32_max _) eqn:E; simpl in Hb; [|done]. injection Hb as ->.
  apply parse_uint_range in E. lia.
Qed.

(** The frame of a deletion, from which the theorems follow *)
Lemma delete_generations_frame selector s r s' current bd :
  load_manifest_from (s_manifest s) = Ok current → read_boot_default s = Ok bd →
  0 ≤ gen_id current →
  delete_generations now selector false s = (r, s') →
  same_frame s s' ∧ ∀ id, id ∈ protected_set (gen_id current) bd → kept s s' id.
Proof.
  intros Hm Hb Hc Hd. destruct (delete_generations_inv now _ _ _ _ _ _ _ Hm Hb Hd)
    as [[-> _]|(gens & sel & ids & stats & Hs & Hp & Ht & _ & Hl)].
  - split; [by constructor|]. intros id _. by split.
  - destruct (to_delete_spec now _ _ _ _ _ Hs (parse_selector_nonneg _ _ Hp) Ht) as [Hnn Hni].
    destruct (delete_loop_frame _ _ _ _ _ Hl) as (Hf & Hk & _ & _). split; [done|].
    intros id Hid. apply Hk; [by eapply protected_nonneg|by apply Hni|done].
Qed.

(** Deletion only takes roots away. *)
Definition roots_sub (r' r : gmap string root_entry) : Prop := ∀ n e, r' !! n = Some e → r !! n = Some e.

Lemma remove_roots_sub names roots : roots_sub (remove_roots names roots) roots.
Proof.
  unfold remove_roots. revert roots. induction names as [|n names IH]; intros roots m e He; [done|].
  simpl in He. apply IH in He. revert He. unfold remove_root.
  destruct (roots !! n) as [[]|] eqn:E; simpl; try done;
    destruct (remove_fails n); simpl; try done; by intros [_ ?]%lookup_delete_Some.
Qed.

Lemma delete_one_sub id s : roots_sub (s_roots (delete_one id s).2) (s_roots s).
Proof.
  unfold delete_one, mbind, G_bind, SR_bind, sr_get, sr_put, mret, G_ret, SR_ret.
  destruct (remove_generation_gc_roots (s_roots s) id) as [n roots] eqn:Er.
  destruct (remove_gen_dir id (set_roots roots s)) as [r1 s1] eqn:Ed.
  apply remove_gen_dir_frame in Ed as (_ & Hd & _).
  assert (Hs : s_roots s1 = roots) by (unfold s_roots; by rewrite Hd). clear Hd.
  assert (Hsub : roots_sub roots (s_roots s)).
  { unfold remove_generation_gc_roots in Er.
    destruct (list_roots (s_roots s)); injection Er as _ <-; [apply remove_roots_sub|by intros ??]. }
  destruct r1; simpl; by rewrite Hs.
Qed.

Lemma delete_loop_sub ids stats s : roots_sub (s_roots (delete_loop false ids stats s).2) (s_roots s).
Proof.
  revert stats s. induction ids as [|id ids IH]; intros stats s; [by intros ??|].
  rewrite delete_loop_step. unfold mbind, G_bind, SR_bind.
  pose proof (delete_one_sub id s) as H1. destruct (delete_one id s) as [[n|e] s1]; [|done].
  intros m e He. apply H1. by eapply IH.
Qed.

Lemma delete_generations_sub selector s r s' current bd :
  load_manifest_from (s_manifest s) = Ok current → read_boot_default s = Ok bd →
  delete_generations now selector false s = (r, s') → roots_sub (s_roots s') (s_roots s).
Proof.
  intros Hm Hb Hd. destruct (delete_generations_inv now _ _ _ _ _ _ _ Hm Hb Hd)
    as [[-> _]|(gens & sel & ids & stats & _ & _ & _ & _ & Hl)]; [by intros ??|].
  pose proof (delete_loop_sub ids stats s) as Hsub. by rewrite Hl in Hsub.
Qed.

Lemma live_set_roots_sub db roots roots' live :
  roots_sub roots' roots → compute_live_set db roots = Ok live →
  ∃ live', compute_live_set db roots' = Ok live' ∧ live' ⊆ live.
Proof.
  intros Hsub Hl.
  assert (Hok : ∃ live', compute_live_set db roots' = Ok live').
  { unfold compute_live_set, list_roots in *. destruct (read_dir_fails "gcroots"); [done|].
    simpl. by eexists. }
  destruct Hok as [live' Hl']. exists live'. split; [done|]. intros x.
  rewrite (elem_of_live_set _ _ _ _ Hl), (elem_of_live_set _ _ _ _ Hl').
  intros (n & t & c & Hr & Hc & Hx). exists n, t, c. split_and!; [by apply Hsub|done|done].
Qed.

Lemma canonical_roots_sub db roots roots' :
  roots_sub roots' roots → db_canonical db roots → db_canonical db roots'.
Proof.
  intros Hsub Hcan live' q info Hl' Hq Hg.
  destruct (compute_live_set db roots) as [live|e] eqn:El.
  - destruct (live_set_roots_sub _ _ _ _ Hsub El) as (l & Hl & Hll). rewrite Hl' in Hl.
    injection Hl as <-. eapply Hcan; [done| |done]. by apply Hll.
  - exfalso. unfold compute_live_set, list_roots in El, Hl'.
    destruct (read_dir_fails "gcroots"); [done|]. done.
Qed.

(** C20. Deleting generations never touches a protected one.  Whatever the selector
    says, whether the deletion succeeds, stops with an error, or is a dry run, the
    current generation and the boot default keep their directory and all their GC
    roots; the current manifest, the [current] link, the boot default and the store are
    left alone; a dry run changes nothing at all. *)
Theorem delete_generations_protects selector dry s r s' current bd :
  load_manifest_from (s_manifest s) = Ok current → read_boot_default s = Ok bd →
  0 ≤ gen_id current →
  delete_generations now selector dry s = (r, s') →
  same_frame s s'
  ∧ (dry = true → s' = s)
  ∧ ∀ id, id ∈ protected_set (gen_id current) bd →
      entry s' (dec id) = entry s (dec id)
      ∧ ∀ pkg, s_roots s' !! root_name id pkg = s_roots s !! root_name id pkg.
Proof.
  intros Hm Hb Hc Hd. destruct dry.
  - assert (Hs : s' = s); [|subst; split; [by constructor|done]].
    destruct (delete_generations_inv now _ _ _ _ _ _ _ Hm Hb Hd)
      as [[-> _]|(gens & sel & ids & stats & _ & _ & _ & _ & Hl)]; [done|].
    destruct (delete_loop_dry ids stats s) as [? E]. congruence.
  - destruct (delete_generations_frame _ _ _ _ _ _ Hm Hb Hc Hd) as [Hf Hk]. done.
Qed.

(** [+N] keeps the [N] newest.  When the scanned generations have distinct numbers,
    a successful [delete-generations +N] deletes exactly those generations that are
    neither current nor boot default and are followed by at least [N] newer ones; their
    directories are gone, every other directory is as before. *)
Theorem keep_last_exact n s stats s' current bd gens :
  load_manifest_from (s_manifest s) = Ok current → read_boot_default s = Ok bd →
  scan_generations s = Ok gens → NoDup (g_id <$> gens) → 1 ≤ n ≤ u32_max →
  delete_generations now ("+" +:+ dec n) false s = (Ok stats, s') →
  (∀ id, id ∈ deleted_ids stats ↔
     id ∈ g_id <$> gens ∧ (id ∉ protected_set (gen_id current) bd)
     ∧ (Z.to_nat n ≤ length (filter (Z.lt id) (g_id <$> gens)))%nat)
  ∧ (∀ id, id ∈ deleted_ids stats → entry s' (dec id) = None)
  ∧ (∀ name, name ∉ dec <$> deleted_ids stats → entry s' name = entry s name).
Proof.
  intros Hm Hb Hs Hnd Hn Hd.
  destruct (delete_generations_inv now _ _ _ _ _ _ _ Hm Hb Hd)
    as [[_ ?]|(gens' & sel & ids & stats0 & Hs' & Hp & Ht & Hz & Hl)]; [done|].
  rewrite Hs in Hs'. injection Hs' as <-. rewrite parse_show_keep in Hp by done. injection Hp as <-.
  pose proof (delete_loop_ids _ _ _ _ _ _ Hl) as Hids. rewrite Hz in Hids. simpl in Hids.
  destruct (delete_loop_frame _ _ _ _ _ Hl) as (_ & _ & Hother & Hgone).
  rewrite Hids. split_and!; [|by apply Hgone|done].
  intros id. simpl in Ht. injection Ht as <-. rewrite list_elem_of_filter.
  set (l := merge_sort Z.le (g_id <$> gens)).
  assert (Hperm : l ≡ₚ g_id <$> gens) by apply merge_sort_Permutation.
  rewrite take_smallest.
  - rewrite Hperm. tauto.
  - apply StronglySorted_merge_sort; apply _.
  - by rewrite Hperm.
Qed.

(** Selectors survive printing: every valid selector is read back from its text,
    [old], [+N], [Nd] or the numbers separated by spaces. *)
Theorem selector_roundtrip sel :
  valid_selector sel → parse_generation_selector (show_selector sel) = Ok sel.
Proof.
  destruct sel as [ids|n|days|]; simpl.
  - intros [Hne Hids]. destruct ids as [|id ids]; [done|]. by apply parse_show_ids.
  - apply parse_show_keep.
  - apply parse_show_days.
  - reflexivity.
Qed.

(** C7. [snix system gc] keeps the current system.  After pruning generations and
    sweeping the store, also when either step stops with an error, the current generation
    and the boot default keep their GC roots, and every path reachable from such a root
    whose closure is intact keeps its metadata and its tree. *)
Theorem system_gc_keeps_current keep s r s' current bd id pkg target c q :
  db_wf (d_db (s_disk s)) → db_canonical (d_db (s_disk s)) (s_roots s) →
  load_manifest_from (s_manifest s) = Ok current → read_boot_default s = Ok bd →
  0 ≤ gen_id current → id ∈ protected_set (gen_id current) bd →
  s_roots s !! root_name id pkg = Some (RLink target) →
  compute_closure (d_db (s_disk s)) target = Some (Ok c) →
  reaches (d_db (s_disk s)) target q →
  system_gc now keep false s = (r, s') →
  s_roots s' !! root_name id pkg = Some (RLink target)
  ∧ get (d_db (s_disk s')) q = get (d_db (s_disk s)) q
  ∧ d_store (s_disk s') !! q = d_store (s_disk s) !! q.
Proof.
  intros Hwf Hcan Hm Hb Hc Hid Hroot Hclos Hq. unfold system_gc, mbind, G_bind, SR_bind.
  destruct (delete_generations now (gc_selector keep) false s) as [r1 s1] eqn:Ed.
  destruct (delete_generations_frame _ _ _ _ _ _ Hm Hb Hc Ed) as [[_ _ _ Hdb Hst] Hk].
  destruct (Hk id Hid) as [_ Hk1]. specialize (Hk1 pkg).
  pose proof (delete_generations_sub _ _ _ _ _ _ Hm Hb Ed) as Hsub.
  assert (Hs1 : s_roots s1 !! root_name id pkg = Some (RLink target)) by (rewrite Hk1; exact Hroot).
  destruct r1 as [st|e]; [|by intros [= <- <-]; rewrite Hdb, Hst].
  unfold run_gc. destruct (list_roots (s_roots s1)); [|by intros [= <- <-]; rewrite Hdb, Hst].
  destruct (garbage_collect (s_disk s1) false) as [r2 d2] eqn:Eg. intros Hr.
  assert (Hs' : s' = set_disk d2 s1) by (destruct r2; unfold mret, G_ret, SR_ret in Hr; simpl in Hr; congruence). subst s'. simpl.
  destruct (gc_frame _ _ _ Eg) as [_ Hroots2]. unfold s_roots at 1. simpl. rewrite Hroots2.
  split; [exact Hs1|]. rewrite <- Hdb in Hwf, Hcan, Hclos, Hq. rewrite <- Hdb, <- Hst.
  pose proof (canonical_roots_sub _ _ _ Hsub Hcan) as Hcan1.
  pose proof Eg as [[-> _]|(all & live & Ha & Hl & _)]%garbage_collect_cases; [done|].
  eapply gc_keeps_live; try done. apply (elem_of_live_set _ _ _ _ Hl).
  exists (root_name id pkg), target, c. split_and!; [done..|]. by apply (compute_closure_Ok _ _ _ Hclos).
Qed.

End theorems.

(** ** Witnesses: five generations, the current one and a boot default *)
Module GenDemo.

#[export] Existing Instance StoreDemo.no_tree_faults.

Definition app_pkg : Package := mkPackage "app" "1.0" StoreDemo.app.
Definition old_pkg : Package := mkPackage "old" "0.1" StoreDemo.orphan.

Definition gen (id : Z) (pkgs : list Package) : Manifest :=
  demo_manifest id "2026-02-19T10:00:00Z" ("generation " +:+ dec id) pkgs.

Definition gen_entry (m : Manifest) : GenEntry :=
  mkGenEntry (Some (Text (system_to_json m))) None.

Definition gens_dir : gmap string GenEntry :=
  {[ "1" := gen_entry (gen 1 [old_pkg]); "2" := gen_entry (gen 2 [app_pkg]);
     "3" := gen_entry (gen 3 [old_pkg]); "5" := gen_entry (gen 5 [app_pkg]);
     "notes" := mkGenEntry None None ]}.

Definition roots : gmap string root_entry :=
  {[ "gen-1-old" := RLink StoreDemo.orphan; "gen-3-old" := RLink StoreDemo.orphan;
     "gen-5-app" := RLink StoreDemo.app ]}.

Definition sys : Sys :=
  mkSys (Some gens_dir) (Some (Text (system_to_json (gen 5 [app_pkg])))) (Some "5")
    (Some (Text ("2" +:+ String "010" "")))
    (mkDisk (d_db StoreDemo.d) roots (d_store StoreDemo.d)) (mkFsys ∅ []).

Definition current : Manifest := gen 5 [app_pkg].

Lemma delete_generations_protects_witness :
  let s' := (delete_generations None "1 2 3 5" false sys).2 in
  entry s' "2" = entry sys "2" ∧ entry s' "5" = entry sys "5" ∧ entry s' "1" = None.
Proof.
  destruct (delete_generations_protects None "1 2 3 5" false sys
    (delete_generations None "1 2 3 5" false sys).1 (delete_generations None "1 2 3 5" false sys).2
    current (Some 2)) as (_ & _ & Hk).
  - vm_compute. reflexivity.
  - vm_compute. reflexivity.
  - vm_compute. discriminate.
  - apply surjective_pairing.
  - split; [apply (Hk 2); set_solver|]. split; [apply (Hk 5); set_solver|]. vm_compute. reflexivity.
Defined.

Lemma keep_last_exact_witness :
  let '(r, s') := delete_generations None "+1" false sys in
  r = Ok (mkDeleteStats 2 2 [1; 3] []) ∧ entry s' "1" = None ∧ entry s' "notes" = entry sys "notes".
Proof.
  assert (Hr : (delete_generations None "+1" false sys).1 = Ok (mkDeleteStats 2 2 [1; 3] []))
    by (vm_compute; reflexivity).
  destruct (keep_last_exact None 1 sys (mkDeleteStats 2 2 [1; 3] [])
    (delete_generations None "+1" false sys).2 current (Some 2)
    [mkGeneration 1 (gen 1 [old_pkg]); mkGeneration 2 (gen 2 [app_pkg]);
     mkGeneration 3 (gen 3 [old_pkg]); mkGeneration 5 (gen 5 [app_pkg])]) as (_ & Hgone & Hrest).
  - vm_compute. reflexivity.
  - vm_compute. reflexivity.
  - vm_compute. reflexivity.
  - refine (bool_decide_eq_true_1 _ _). vm_compute. reflexivity.
  - split; vm_compute; discriminate.
  - change ("+" +:+ dec 1) with "+1". rewrite <- Hr. apply surjective_pairing.
  - destruct (delete_generations None "+1" false sys) as [r s']. simpl in *.
    split; [exact Hr|]. split; [apply (Hgone 1); set_solver|]. apply Hrest.
    refine (bool_decide_eq_false_1 _ _). vm_compute. reflexivity.
Defined.

Lemma selector_roundtrip_witness :
  parse_generation_selector "3 1 4294967295" = Ok (Ids [3; 1; 4294967295]).
Proof.
  apply (selector_roundtrip (Ids [3; 1; 4294967295])). split; [discriminate|].
  repeat constructor; vm_compute; discriminate.
Defined.

Lemma system_gc_keeps_current_witness :
  let s' := (system_gc None None false sys).2 in
  get (d_db (s_disk s')) StoreDemo.lib = get (d_db (s_disk sys)) StoreDemo.lib
  ∧ s_roots s' !! "gen-5-app" = Some (RLink StoreDemo.app)
  ∧ is_registered (d_db (s_disk s')) StoreDemo.orphan = false.
Proof.
  destruct (system_gc_keeps_current None None sys (system_gc None None false sys).1
    (system_gc None None false sys).2 current (Some 2) 5 "app" StoreDemo.app
    (mkClosure {[StoreDemo.app; StoreDemo.lib]} 140) StoreDemo.lib) as (Hroot & Hdb & _).
  - apply db_wf_check_sound. vm_compute. reflexivity.
  - apply db_canonical_check_sound. vm_compute. reflexivity.
  - vm_compute. reflexivity.
  - vm_compute. reflexivity.
  - vm_compute. discriminate.
  - vm_compute. set_solver.
  - vm_compute. reflexivity.
  - vm_compute. reflexivity.
  - apply rtc_once. unfold edge. apply list_elem_of_In. vm_compute. left. reflexivity.
  - apply surjective_pairing.
  - split; [exact Hdb|]. split; [exact Hroot|]. vm_compute. reflexivity.
Defined.

End GenDemo.
