(* ===== verification/GenSwitch.v ===== *)
(** * Switching generations

    What a switch and a rollback publish, in which order, and what they leave alone. *)

From S2P Require Import Prelude RustStd FileSys Nar PathInfo Instances Store Calendar Manifest Generations TopoSort Activate Switch ManifestInstances GenDelete.

Open Scope Z_scope.

Section switching.
Context `{SPL : StorePathLib, IJ : InfoJson, MJ : ManifestJson, IOF : IoFaults, TF : TreeFaults,
          SJ : SystemJson, GF : GenFaults, FL : FsLimits}.
Variable now : option Z.
Variable blake3_hex : string → string.
Variable run_sh : path → fsys → script_result * fsys.

(** Only the store's roots and the files may differ *)
Definition same_but_disk (s s' : Sys) : Prop :=
  s_gens s' = s_gens s ∧ s_manifest s' = s_manifest s ∧ s_link s' = s_link s ∧ s_boot s' = s_boot s.

(** Only the generation directory [name] and the store's roots may differ *)
Definition same_but_gen (name : string) (s s' : Sys) : Prop :=
  s_manifest s' = s_manifest s ∧ s_link s' = s_link s ∧ s_boot s' = s_boot s
  ∧ ∀ n, n ≠ name → entry s' n = entry s n.

Definition unpublished (s s' : Sys) : Prop :=
  s_manifest s' = s_manifest s ∧ s_link s' = s_link s ∧ s_boot s' = s_boot s.

Lemma unpublished_trans s1 s2 s3 : unpublished s1 s2 → unpublished s2 s3 → unpublished s1 s3.
Proof. intros (?&?&?) (?&?&?). unfold unpublished. split_and!; congruence. Qed.

Lemma same_but_gen_unpublished name s s' : same_but_gen name s s' → unpublished s s'.
Proof. by intros (?&?&?&_). Qed.

Lemma same_but_disk_unpublished s s' : same_but_disk s s' → unpublished s s'.
Proof. by intros (_&?&?&?). Qed.

Lemma same_but_disk_entry s s' name : same_but_disk s s' → entry s' name = entry s name.
Proof. intros (Hg&_). unfold entry. by rewrite Hg. Qed.

(** ** Saving a generation *)
Definition saved_entry (m : Manifest) : GenEntry :=
  mkGenEntry (Some (Text (system_to_json m)))
    (Some (Text (metadata_to_json (mkGenerationMetadata (gi_id (m_generation m))
       (gi_description (m_generation m)) (gi_timestamp (m_generation m)))))).

Lemma make_gen_dir_spec name s r s' :
  make_gen_dir name s = (r, s') →
  same_but_gen name s s' ∧ s_disk s' = s_disk s ∧ (is_ok r = true → is_Some (entry s' name)).
Proof.
  unfold make_gen_dir, entry. destruct (gen_mkdir_fails name); [by intros [= <- <-]|].
  intros [= <- <-]. simpl. split; [|split; [done|]].
  - do 3 (split; [done|]). intros n Hn. unfold entry. destruct (s_gens s) as [dir|]; simpl.
    + destruct (dir !! name); [done|]. by rewrite lookup_insert_ne.
    + rewrite lookup_empty, lookup_insert_ne by done. apply lookup_empty.
  - intros _. destruct (default ∅ (s_gens s) !! name) eqn:E; [by rewrite E|].
    rewrite lookup_insert_eq. by eexists.
Qed.

Lemma put_gen_file_spec name file contents s r s' :
  put_gen_file name file contents s = (r, s') →
  same_but_gen name s s' ∧ s_disk s' = s_disk s
  ∧ (is_ok r = true → ∃ e, entry s name = Some e ∧
      entry s' name = Some (if decide (file = "manifest.json")
                            then mkGenEntry (Some (Text contents)) (ge_metadata e)
                            else mkGenEntry (ge_manifest e) (Some (Text contents)))).
Proof.
  unfold put_gen_file, entry. destruct (s_gens s) as [dir|] eqn:Eg; [|by intros [= <- <-]; rewrite Eg].
  destruct (dir !! name) as [e|] eqn:Ed; [|by intros [= <- <-]; rewrite Eg].
  destruct (write_with _ _ _) as [ok f'] eqn:Ew. intros [= <- <-]. simpl. split; [|split; [done|]].
  - do 3 (split; [done|]). intros n Hn. unfold entry. rewrite Eg. simpl. by rewrite lookup_insert_ne.
  - destruct ok; [|done]. intros _. exists e. rewrite Ed, lookup_insert_eq. split; [done|].
    unfold write_with in Ew. destruct (gen_write_fault name file) as [[]|]; simplify_eq.
    by case_decide.
Qed.

Lemma same_but_gen_trans name s1 s2 s3 :
  same_but_gen name s1 s2 → same_but_gen name s2 s3 → same_but_gen name s1 s3.
Proof.
  intros (?&?&?&HA) (?&?&?&HB). do 3 (split; [congruence|]). intros n Hn. by rewrite HB, HA.
Qed.

Lemma save_generation_spec m s r s' :
  save_generation m s = (r, s') →
  same_but_gen (dec (gen_id m)) s s' ∧ s_disk s' = s_disk s
  ∧ (is_ok r = true → entry s' (dec (gen_id m)) = Some (saved_entry m)).
Proof.
  unfold save_generation, write_generation_metadata, mbind, G_bind, SR_bind.
  destruct (make_gen_dir _ s) as [r1 s1] eqn:E1. apply make_gen_dir_spec in E1 as (H1 & D1 & _).
  destruct r1; [|by intros [= <- <-]].
  destruct (put_gen_file _ "manifest.json" _ s1) as [r2 s2] eqn:E2.
  apply put_gen_file_spec in E2 as (H2 & D2 & O2).
  destruct r2; [|by intros [= <- <-]; split; [by eapply same_but_gen_trans|split; [congruence|done]]].
  intros E3. apply put_gen_file_spec in E3 as (H3 & D3 & O3).
  split; [by do 2 (eapply same_but_gen_trans; [done|])|]. split; [congruence|].
  intros Hok. destruct (O2 eq_refl) as (e1 & _ & He2). destruct (O3 Hok) as (e2 & He2' & He3).
  rewrite He2 in He2'. injection He2' as <-. by rewrite He3.
Qed.

(** ** Roots *)
Lemma update_roots_frame m s : same_but_disk s (sr_warn (update_system_gc_roots m) s).2.
Proof.
  unfold sr_warn, update_system_gc_roots, migrate_gc_roots_if_needed, mbind, G_bind, SR_bind,
    sr_get, sr_lift, sr_put. simpl.
  destruct (list_roots (s_roots s)) as [rs|e]; [|done]. case_decide; [done|].
  destruct (scan_generations s); done.
Qed.

(** ** Activation

    It rebuilds the profile, writes files and adds roots; it does not write the
    generations directory, the manifest, the [current] link or the boot default. *)
Lemma update_roots_frame_run m s r s' :
  update_system_gc_roots m s = (r, s') → same_but_disk s s'.
Proof. pose proof (update_roots_frame m s) as H. unfold sr_warn in H. intros E. by rewrite E in H. Qed.

Lemma activate_frame old new dry s : same_but_disk s (activate blake3_hex run_sh old new dry s).2.
Proof.
  unfold activate. destruct dry; [done|].
  destruct (activate_files _ _ _ _ _) as [[[linked updated] boot] [f1 w1]].
  destruct (update_system_gc_roots new _) as [roots s2] eqn:E. apply update_roots_frame_run in E.
  destruct (activate_finish _ _ _) as [u [f3 w3]]. exact E.
Qed.

(** ** Publishing *)
Lemma publish_spec m s r s' :
  publish m s = (r, s') →
  s_gens s' = s_gens s
  ∧ (is_ok r = true → s_manifest s' = Some (Text (system_to_json m)) ∧ s_link s' = Some (dec (gen_id m))).
Proof.
  unfold publish, mbind, G_bind, SR_bind, write_manifest, update_current_generation_link.
  destruct (write_with (sys_write_fault "manifest.json") _ _) as [ok f] eqn:Ew.
  unfold write_with in Ew. destruct ok; [|by intros [= <- <-]].
  destruct (sys_write_fault "manifest.json") as [[]|]; simplify_eq.
  destruct link_faults as [[]|]; try by intros [= <- <-].
  unfold sr_warn, write_boot_default. destruct (write_with _ _ _). by intros [= <- <-].
Qed.

(** First the manifest, then the link, then the boot default: each changes only when what comes before
    it is in place. *)
Lemma publish_order m s r s' :
  publish m s = (r, s') →
  (s_link s' ≠ s_link s → s_manifest s' = Some (Text (system_to_json m)))
  ∧ (s_boot s' ≠ s_boot s → s_manifest s' = Some (Text (system_to_json m)) ∧ s_link s' = Some (dec (gen_id m))).
Proof.
  unfold publish, mbind, G_bind, SR_bind, write_manifest, update_current_generation_link.
  destruct (write_with (sys_write_fault "manifest.json") _ _) as [ok f] eqn:Ew.
  unfold write_with in Ew. destruct ok; [|by intros [= <- <-]].
  destruct (sys_write_fault "manifest.json") as [[]|]; simplify_eq.
  destruct link_faults as [[]|]; try by intros [= <- <-].
  unfold sr_warn, write_boot_default. destruct (write_with _ _ _). by intros [= <- <-].
Qed.

(** ** The next number *)
Lemma max_id_ge l x : x ∈ l → x ≤ max_id l.
Proof.
  unfold max_id. induction l as [|y l IH]; simpl; [by intros ?%not_elem_of_nil|].
  intros [->|Hx]%elem_of_cons; [lia|]. specialize (IH Hx). lia.
Qed.

Lemma max_id_nonneg l : 0 ≤ max_id l.
Proof. unfold max_id. induction l; simpl; lia. Qed.

Lemma next_id_fresh s current gens :
  scan_generations s = Ok gens → 0 ≤ gen_id current →
  Z.max (max_id (g_id <$> gens)) (gen_id current) < u32_max →
  let id := next_generation_id s current in
  id = Z.max (max_id (g_id <$> gens)) (gen_id current) + 1
  ∧ gen_id current < id ≤ u32_max ∧ ∀ g, g ∈ gens → g_id g < id.
Proof.
  clear now blake3_hex run_sh.
  intros Hs Hc Hmax. unfold next_generation_id. rewrite Hs.
  pose proof (max_id_nonneg (g_id <$> gens)).
  rewrite wrap32_small by (unfold u32; lia). split_and!; [done|lia|lia|].
  intros g Hg. pose proof (max_id_ge _ _ (list_elem_of_fmap_2 g_id _ _ Hg)). lia.
Qed.

(** ** [switch] *)
Lemma snapshot_gen_id t m m' b :
  snapshot_root_files blake3_hex t m = Ok (m', b) → m_generation m' = m_generation m.
Proof.
  unfold snapshot_root_files. destruct (snapshot_loop _ _ _ _) as [[fs c]|]; [|done].
  by intros [= <- _].
Qed.

(** [m'] is [m] with the texts of files that had none, as the disk has them and with the hash the
    manifest gives. *)
Definition filled_in (t : tree) (p : string) (info info' : option FileInfo) : Prop :=
  match info, info' with
  | None, None => True
  | Some i, Some i' =>
      i' = i
      ∨ ∃ text, fi_text i = None ∧ read_to_string t (Path.join [RootDir] (Path.components p)) = Some text
          ∧ blake3_hex text = fi_blake3 i ∧ i' = mkFileInfo (fi_blake3 i) (fi_size i) (fi_mode i) (Some text)
  | _, _ => False
  end.

Definition snapshot_of (t : tree) (m m' : Manifest) : Prop :=
  m' = set_files (m_files m') m ∧ ∀ p, filled_in t p (m_files m !! p) (m_files m' !! p).

Lemma snapshot_loop_filled t (fs0 : gmap string FileInfo) es acc fs b :
  (∀ e, e ∈ es → fs0 !! e.1 = Some e.2) → (∀ p, filled_in t p (fs0 !! p) (acc.1 !! p)) →
  snapshot_loop blake3_hex t acc es = Ok (fs, b) → ∀ p, filled_in t p (fs0 !! p) (fs !! p).
Proof.
  revert acc. induction es as [|[p info] es IH]; intros acc He Ha; simpl.
  - intros [= E]. by rewrite E in Ha.
  - assert (Hp : fs0 !! p = Some info) by (apply (He (p, info)); left).
    destruct (negb (needs_snapshot p info)) eqn:En; [apply IH; [intros e Hin; apply He; by right|done]|].
    destruct (read_to_string t _) as [text|] eqn:Er; [|done]. case_decide as Hb; [|done]. simpl.
    apply IH; [intros e Hin; apply He; by right|]. intros k. simpl. destruct (decide (p = k)) as [<-|Hk].
    + rewrite lookup_insert_eq, Hp. right. exists text. split_and!; try done.
      apply negb_false_iff in En. unfold needs_snapshot in En. apply andb_true_iff in En as [En _].
      by apply bool_decide_eq_true in En.
    + by rewrite lookup_insert_ne.
Qed.

Lemma snapshot_root_files_of t m m' b :
  snapshot_root_files blake3_hex t m = Ok (m', b) → snapshot_of t m m'.
Proof.
  unfold snapshot_root_files. destruct (snapshot_loop _ _ _ _) as [[fs c]|] eqn:E; [|done]. intros [= <- _].
  split; [done|]. eapply snapshot_loop_filled; [| |exact E].
  - intros [p info] Hin. by apply BTree.elem_of_to_list in Hin.
  - intros p. unfold filled_in. simpl. destruct (m_files m !! p); [by left|done].
Qed.

(** The current generation is saved when it is missing or was enriched; otherwise its directory
    stays as it is. *)
Definition kept_entry (s : Sys) (m : Manifest) (enriched : bool) : option GenEntry :=
  if negb (gen_exists s (gen_id m)) || enriched then Some (saved_entry m) else entry s (dec (gen_id m)).

Lemma save_current_spec m (enriched : bool) s r s' :
  (if negb (gen_exists s (gen_id m)) || enriched then save_generation m else mret tt) s = (r, s') →
  same_but_gen (dec (gen_id m)) s s'
  ∧ (is_ok r = true → entry s' (dec (gen_id m)) = kept_entry s m enriched).
Proof.
  unfold kept_entry. destruct (negb _ || enriched) eqn:Eb.
  - intros Hsave. apply save_generation_spec in Hsave as (Hf & _ & Hok). by split.
  - intros [= <- <-]. by split.
Qed.

Lemma gen_exists_entry s id : gen_exists s id = bool_decide (is_Some (entry s (dec id))).
Proof. unfold gen_exists, entry. destruct (s_gens s) as [dir|]; [done|]. rewrite bool_decide_eq_false_2; [done|]. by intros [? ?]. Qed.

(** The run of a switch that passes its checks *)
Lemma switch_inv new_file desc s r s' :
  switch now blake3_hex run_sh new_file desc false s = (r, s') →
  (unpublished s s' ∧ is_ok r = false ∧ ∀ n, (∀ current,
       load_manifest_from (s_manifest s) = Ok current →
       n ≠ dec (gen_id current) ∧ n ≠ dec (next_generation_id s current)) → entry s' n = entry s n)
  ∨ ∃ current current' enriched nm,
      load_manifest_from (s_manifest s) = Ok current
      ∧ load_manifest_from new_file = Ok nm
      ∧ snapshot_root_files blake3_hex (fs_tree (s_fs s)) current = Ok (current', enriched)
      ∧ let m := stamp now (next_generation_id s current)
                   (default (gi_description (m_generation nm)) desc) nm in
        ∃ s1 s2 s3 act,
          unpublished s s1
          ∧ (∀ n, n ≠ dec (gen_id current) → entry s1 n = entry s n)
          ∧ entry s1 (dec (gen_id current)) = kept_entry s current' enriched
          ∧ save_generation m s1 = (Ok tt, s2)
          ∧ activate blake3_hex run_sh current' m false s2 = (Ok act, s3)
          ∧ publish m s3 = (r, s').
Proof.
  unfold switch. unfold mbind at 1, G_bind at 1, SR_bind at 1, sr_get at 1.
  unfold mbind at 1, G_bind at 1, SR_bind at 1, sr_lift at 1.
  destruct (load_manifest_from (s_manifest s)) as [current|e] eqn:Ec; [|intros [= <- <-]; by left].
  unfold mbind at 1, G_bind at 1, SR_bind at 1, sr_lift at 1.
  destruct (load_manifest_from new_file) as [nm|e] eqn:En; [|intros [= <- <-]; by left].
  cbv zeta. unfold mbind at 1, G_bind at 1, SR_bind at 1, sr_lift at 1.
  destruct (snapshot_root_files _ _ current) as [[current' enriched]|e] eqn:Es; [|intros [= <- <-]; by left].
  assert (Hcur : gen_id current' = gen_id current).
  { unfold gen_id. by rewrite (snapshot_gen_id _ _ _ _ Es). }
  rewrite Hcur. set (m := stamp now _ _ nm).
  unfold mbind at 1, G_bind at 1, SR_bind at 1.
  match goal with |- context [(if ?b then save_generation current' else ?x) s] =>
    destruct ((if b then save_generation current' else x) s) as [r1 s1] eqn:E1 end.
  rewrite <- Hcur in E1. apply save_current_spec in E1 as [Hf1 Hok1]. rewrite Hcur in Hf1, Hok1.
  pose proof Hf1 as (_ & _ & _ & He1).
  destruct r1 as [[]|e].
  2:{ intros [= <- <-]. left. split; [by eapply same_but_gen_unpublished|]. split; [done|].
      intros n Hn. destruct (Hn current eq_refl). by apply He1. }
  unfold mbind at 1, G_bind at 1, SR_bind at 1.
  pose proof (update_roots_frame current' s1) as Hu.
  destruct (sr_warn (update_system_gc_roots current') s1) as [r2 s2] eqn:E2.
  assert (r2 = Ok tt) as -> by (unfold sr_warn in E2; congruence). simpl in Hu.
  assert (Hup : unpublished s s2).
  { eapply unpublished_trans; [by eapply same_but_gen_unpublished|by apply same_but_disk_unpublished]. }
  unfold mbind at 1, G_bind at 1, SR_bind at 1.
  destruct (save_generation m s2) as [r3 s3] eqn:E3.
  pose proof (save_generation_spec _ _ _ _ E3) as (Hf3 & _ & _). pose proof Hf3 as (_&_&_&He3).
  assert (Hup3 : unpublished s s3)
    by (eapply unpublished_trans; [done|by eapply same_but_gen_unpublished]).
  assert (Hent : ∀ n, n ≠ dec (gen_id current) → n ≠ dec (gen_id m) → entry s3 n = entry s n).
  { intros n Hn1 Hn2. rewrite He3, (same_but_disk_entry _ _ _ Hu) by done. by apply He1. }
  destruct r3 as [[]|e].
  2:{ intros [= <- <-]. left. split; [done|]. split; [done|].
      intros n Hn. destruct (Hn current eq_refl). by apply Hent. }
  unfold mbind at 1, G_bind at 1, SR_bind at 1.
  pose proof (activate_frame current' m false s3) as Hframe.
  destruct (activate blake3_hex run_sh current' m false s3) as [r4 s4] eqn:E4. simpl in Hframe.
  destruct r4 as [act|e].
  2:{ intros [= <- <-]. left. split; [by eapply unpublished_trans; [|by apply same_but_disk_unpublished]|].
      split; [done|]. intros n Hn. destruct (Hn current eq_refl).
      rewrite (same_but_disk_entry _ _ _ Hframe). by apply Hent. }
  intros Hp. right. exists current, current', enriched, nm. split_and!; try done.
  exists s2, s3, s4, act. split_and!; try done.
  - intros n Hn. rewrite (same_but_disk_entry _ _ _ Hu). by apply He1.
  - rewrite (same_but_disk_entry _ _ _ Hu). by apply Hok1.
Qed.

(** ** [rollback] *)
Lemma bind_ok {A B} (m : G A) (f : A → G B) s b s2 :
  (m ≫= f) s = (Ok b, s2) → ∃ a s1, m s = (Ok a, s1) ∧ f a s1 = (Ok b, s2).
Proof. apply sr_bind_ok. Qed.

Lemma get_bind {A} (f : Sys → G A) s : ((sr_get : G Sys) ≫= f) s = f s s.
Proof. done. Qed.

Lemma lift_bind {A B} (r : result GenError A) (f : A → G B) s b s2 :
  ((sr_lift r : G A) ≫= f) s = (Ok b, s2) → ∃ a, r = Ok a ∧ f a s = (Ok b, s2).
Proof. destruct r; [eauto|discriminate]. Qed.

Definition rollback_text (g : Generation) : string := "rollback to generation " +:+ dec (g_id g).

Lemma rollback_inv target_id s s' current gens :
  load_manifest_from (s_manifest s) = Ok current → scan_generations s = Ok gens →
  rollback now blake3_hex run_sh target_id s = (Ok tt, s') →
  ∃ target, rollback_target target_id current gens = Ok target ∧
    ((g_id target = gen_id current ∧ s' = s)
     ∨ (g_id target ≠ gen_id current ∧ ∃ s1 s2 s3 act,
          (if negb (gen_exists s (gen_id current)) then save_generation current else mret tt) s
            = (Ok tt, s1)
          ∧ let m := stamp now (next_generation_id s1 current) (rollback_text target) (g_manifest target) in
            save_generation m s1 = (Ok tt, s2)
            ∧ activate blake3_hex run_sh current m false s2 = (Ok act, s3)
            ∧ publish m s3 = (Ok tt, s'))).
Proof.
  intros Hm Hs. unfold rollback. rewrite get_bind, Hm. intros H.
  apply lift_bind in H as (? & [= <-] & H). rewrite Hs in H.
  apply lift_bind in H as (? & [= <-] & H).
  apply bind_ok in H as ([] & s0 & H0 & H).
  assert (s0 = s) as -> by (revert H0; case_decide; unfold sr_lift, mret, G_ret, SR_ret; congruence).
  apply lift_bind in H as (target & Ht & H). exists target. split; [done|].
  clear H0. case_decide as Hd; [left; split; [done|]; change ((@Ok GenError unit tt, s) = (Ok tt, s')) in H; congruence|right; split; [done|]].
  apply bind_ok in H as ([] & s1 & H1 & H). rewrite get_bind in H.
  apply bind_ok in H as ([] & s2 & H2 & H). apply bind_ok in H as (act & s3 & H3 & H).
  by exists s1, s2, s3, act.
Qed.

(** ** Scanning a directory whose names are canonical *)

(** Every directory that loads is named by its number in the shortest form. *)
Definition canonical_names (s : Sys) : Prop :=
  ∀ name e g, entry s name = Some e → scan_entry (name, e) = Some g → name = dec (g_id g).

Lemma elem_of_scan_iff s gens g :
  canonical_names s → scan_generations s = Ok gens →
  g ∈ gens ↔ ∃ e, entry s (dec (g_id g)) = Some e ∧ scan_entry (dec (g_id g), e) = Some g.
Proof.
  intros Hcan. unfold scan_generations, entry at 1. destruct (s_gens s) as [dir|] eqn:Eg; simpl.
  2:{ intros [= <-]. split; [by intros ?%not_elem_of_nil|]. by intros (e & ? & _). }
  destruct gen_scan_fails; [done|]. intros [= <-].
  rewrite merge_sort_Permutation, list_elem_of_omap. split.
  - intros ([name e] & Hin & Hs). apply elem_of_map_to_list in Hin.
    assert (He : entry s name = Some e) by (unfold entry; by rewrite Eg).
    pose proof (Hcan _ _ _ He Hs) as ->. eauto.
  - intros (e & He & Hs). exists (dec (g_id g), e). split; [by apply elem_of_map_to_list|done].
Qed.

Lemma scan_sorted s gens : scan_generations s = Ok gens → StronglySorted id_le gens.
Proof.
  unfold scan_generations. destruct (s_gens s); [|intros [= <-]; constructor].
  destruct gen_scan_fails; [done|]. intros [= <-].
  assert (Ht : Transitive id_le) by (intros x y z; unfold id_le; lia).
  assert (Hto : Total id_le) by (intros x y; unfold id_le; lia).
  by apply StronglySorted_merge_sort.
Qed.

Lemma scan_entry_saved m :
  0 ≤ gen_id m ≤ u32_max → scan_entry (dec (gen_id m), saved_entry m) = Some (mkGeneration (gen_id m) m).
Proof.
  intros Hid. unfold scan_entry, saved_entry. cbn [fst snd ge_manifest].
  rewrite parse_dec by done. cbv [mbind option_bind].
  unfold load_manifest_from. by rewrite system_json_roundtrip.
Qed.

Lemma scan_entry_id name e g : scan_entry (name, e) = Some g → parse_uint u32_max name = Some (g_id g).
Proof.
  unfold scan_entry. cbn [fst snd]. cbv [mbind option_bind].
  destruct (parse_uint u32_max name); [|done]. destruct (ge_manifest e) as [f|]; [|done].
  destruct (load_manifest_from (Some f)); [|done]. by intros [= <-].
Qed.

Lemma sorted_lookup_lt {A} (R : relation A) l i j x y :
  StronglySorted R l → l !! i = Some x → l !! j = Some y → (i < j)%nat → R x y.
Proof.
  intros Hs. revert i j. induction Hs as [|z l Hs IH Hz]; intros i j Hi Hj Hij; [done|].
  destruct j as [|j]; [lia|]. destruct i as [|i]; simpl in *.
  - simplify_eq. rewrite Forall_forall in Hz. apply Hz. by eapply list_elem_of_lookup_2.
  - apply (IH i j); [done|done|lia].
Qed.

(** The last element below a bound, as [rev().find(..)] finds it *)
Lemma find_rev_below gens x i g :
  StronglySorted id_le gens → list_find (λ g, g_id g < x) (reverse gens) = Some (i, g) →
  g ∈ gens ∧ g_id g < x ∧ ∀ g', g' ∈ gens → g_id g' < x → g_id g' ≤ g_id g.
Proof.
  clear now blake3_hex run_sh.
  intros Hs Hf. apply list_find_Some in Hf as (Hi & Hlt & Hbefore).
  assert (Hin : g ∈ gens) by (apply list_elem_of_lookup_2 in Hi; by rewrite elem_of_reverse in Hi).
  split_and!; [done|done|]. intros g' Hg' Hlt'.
  destruct (decide (g_id g' ≤ g_id g)) as [|Hgt]; [done|exfalso].
  (* g' comes after g in the sorted list, so before it in the reversed one *)
  apply list_elem_of_lookup_1 in Hg' as [j Hj].
  pose proof (lookup_lt_Some _ _ _ Hi) as Hil. rewrite length_reverse in Hil.
  rewrite reverse_lookup in Hi by done.
  pose proof (lookup_lt_Some _ _ _ Hj) as Hjl.
  destruct (decide (j ≤ length gens - S i)%nat) as [Hle|Hnle].
  - destruct (decide (j = (length gens - S i)%nat)) as [->|Hne]; [simplify_eq; lia|].
    assert (Hord : id_le g' g); [|unfold id_le in Hord; lia].
    eapply (sorted_lookup_lt id_le); [done|done|done|lia].
  - assert (Hrev : reverse gens !! (length gens - S j)%nat = Some g').
    { rewrite reverse_lookup by lia. by replace (length gens - S (length gens - S j))%nat with j by lia. }
    apply (Hbefore _ _ Hrev); [lia|done].
Qed.

(** A system at its newest generation: the current manifest is what the directory holds
    under its number *)
Record at_newest (s : Sys) (current : Manifest) : Prop := mkAtNewest {
  an_load : load_manifest_from (s_manifest s) = Ok current;
  an_names : canonical_names s;
  an_id : 0 ≤ gen_id current ≤ u32_max;
  an_saved : ∃ e, entry s (dec (gen_id current)) = Some e
             ∧ scan_entry (dec (gen_id current), e) = Some (mkGeneration (gen_id current) current);
  an_max : ∀ name e g, entry s name = Some e → scan_entry (name, e) = Some g →
             g_id g ≤ gen_id current;
}.

Definition names_check (s : Sys) (bound : Z) : bool :=
  match s_gens s with
  | Some dir => forallb (λ ne, match scan_entry ne with
                               | Some g => bool_decide (ne.1 = dec (g_id g)) && (g_id g <=? bound)
                               | None => true
                               end) (map_to_list dir)
  | None => true
  end.

Lemma names_check_sound s bound name e g :
  names_check s bound = true → entry s name = Some e → scan_entry (name, e) = Some g →
  name = dec (g_id g) ∧ g_id g ≤ bound.
Proof.
  clear now blake3_hex run_sh.
  unfold names_check, entry. destruct (s_gens s) as [dir|]; [|done]. simpl.
  rewrite forallb_forall. intros Hall He Hs. specialize (Hall (name, e)). rewrite Hs in Hall.
  apply elem_of_map_to_list, list_elem_of_In in He. specialize (Hall He).
  apply andb_true_iff in Hall as [H1 H2]. apply bool_decide_eq_true in H1. simpl in H1. split; [done|lia].
Qed.

Definition at_newest_check (s : Sys) (current : Manifest) : bool :=
  names_check s (gen_id current)
  && (0 <=? gen_id current) && (gen_id current <=? u32_max)
  && match load_manifest_from (s_manifest s) with Ok m => bool_decide (m = current) | _ => false end
  && match entry s (dec (gen_id current)) with
     | Some e => match scan_entry (dec (gen_id current), e) with
                 | Some g => bool_decide (g_id g = gen_id current) && bool_decide (g_manifest g = current)
                 | None => false
                 end
     | None => false
     end.

Lemma at_newest_check_sound s current : at_newest_check s current = true → at_newest s current.
Proof.
  clear now blake3_hex run_sh.
  unfold at_newest_check. rewrite !andb_true_iff. intros [[[[Hn H0] H1] Hl] Hs].
  constructor.
  - destruct (load_manifest_from (s_manifest s)); [|done]. apply bool_decide_eq_true in Hl. by subst.
  - intros name e g He Hg. by eapply names_check_sound.
  - lia.
  - destruct (entry s (dec (gen_id current))) as [e|]; [|done]. exists e. split; [done|].
    destruct (scan_entry (dec (gen_id current), e)) as [[i m]|]; [|done].
    apply andb_true_iff in Hs as [Hi Hm]. apply bool_decide_eq_true in Hi, Hm. simpl in *. by subst.
  - intros name e g He Hg. by eapply names_check_sound.
Qed.

Lemma at_newest_max s current gens :
  at_newest s current → scan_generations s = Ok gens → max_id (g_id <$> gens) ≤ gen_id current.
Proof.
  clear now blake3_hex run_sh.
  intros [_ Hcan Hid _ Hmax] Hs.
  assert (Hall : ∀ x, x ∈ g_id <$> gens → x ≤ gen_id current).
  { intros x (g & -> & Hg)%list_elem_of_fmap.
    apply (elem_of_scan_iff _ _ _ Hcan Hs) in Hg as (e & He & Hse). by eapply Hmax. }
  clear -Hall Hid. unfold max_id. induction (g_id <$> gens) as [|x l IH]; simpl; [lia|].
  pose proof (Hall x ltac:(by left)). assert (foldr Z.max 0 l ≤ gen_id current); [|lia].
  apply IH. intros y Hy. apply Hall. by right.
Qed.

(** Publishing a new generation above the newest one *)
Lemma at_newest_publish s s' current m :
  at_newest s current → gen_id m = gen_id current + 1 → gen_id m ≤ u32_max →
  load_manifest_from (s_manifest s') = Ok m →
  entry s' (dec (gen_id m)) = Some (saved_entry m) →
  (∀ n, n ≠ dec (gen_id m) → entry s' n = entry s n) →
  at_newest s' m.
Proof.
  clear now blake3_hex run_sh.
  intros [_ Hcan Hid _ Hmax] Hm Hu Hl Hsaved Hother.
  assert (Hcase : ∀ name e g, entry s' name = Some e → scan_entry (name, e) = Some g →
    name = dec (g_id g) ∧ g_id g ≤ gen_id m).
  { intros name e g He Hse. destruct (decide (name = dec (gen_id m))) as [->|Hn].
    - pose proof (scan_entry_id _ _ _ Hse) as Hp. rewrite parse_dec in Hp by lia.
      injection Hp as <-. split; [done|lia].
    - rewrite Hother in He by done. split; [by eapply Hcan|].
      pose proof (Hmax _ _ _ He Hse). lia. }
  constructor; [done| |lia| |].
  - intros name e g He Hse. by eapply Hcase.
  - exists (saved_entry m). split; [done|]. apply scan_entry_saved. lia.
  - intros name e g He Hse. by eapply Hcase.
Qed.

Lemma publish_load m s r s' :
  publish m s = (Ok r, s') → load_manifest_from (s_manifest s') = Ok m ∧ s_gens s' = s_gens s.
Proof.
  intros Hp. apply publish_spec in Hp as [Hg Hok]. destruct (Hok eq_refl) as [Hm _].
  rewrite Hm. unfold load_manifest_from. by rewrite system_json_roundtrip.
Qed.

Lemma rollback_step s s' current gens :
  at_newest s current → scan_generations s = Ok gens → gen_id current + 1 ≤ u32_max →
  (∃ g, g ∈ gens ∧ g_id g < gen_id current) →
  rollback now blake3_hex run_sh None s = (Ok tt, s') →
  ∃ target, target ∈ gens ∧ g_id target < gen_id current
    ∧ (∀ g, g ∈ gens → g_id g < gen_id current → g_id g ≤ g_id target)
    ∧ let m := stamp now (gen_id current + 1) (rollback_text target) (g_manifest target) in
      at_newest s' m ∧ ∀ n, n ≠ dec (gen_id current + 1) → entry s' n = entry s n.
Proof.
  intros Hn Hs Hu (g0 & Hg0 & Hlt0) Hr. pose proof Hn as [Hload Hcan Hid (e & He & Hse) _].
  destruct (rollback_inv _ _ _ _ _ Hload Hs Hr) as (target & Ht & Hcases).
  simpl in Ht. destruct (list_find _ (reverse gens)) as [[i g]|] eqn:Ef.
  2:{ exfalso. apply list_find_None in Ef. rewrite Forall_forall in Ef.
      by apply (Ef g0); [apply elem_of_reverse|]. }
  injection Ht as ->. destruct (find_rev_below _ _ _ _ (scan_sorted _ _ Hs) Ef) as (Hin & Hlt & Hbest).
  exists target. split_and!; [done..|].
  destruct Hcases as [[? _]|(_ & s1 & s2 & s3 & act & H1 & H2 & H3 & H4)]; [lia|].
  assert (Hex : gen_exists s (gen_id current) = true).
  { unfold gen_exists. unfold entry in He. destruct (s_gens s); [|done].
    apply bool_decide_eq_true. by eexists. }
  rewrite Hex in H1. change ((@Ok GenError unit tt, s) = (Ok tt, s1)) in H1. injection H1 as <-.
  assert (Hnext : next_generation_id s current = gen_id current + 1).
  { pose proof (at_newest_max _ _ _ Hn Hs). unfold next_generation_id. rewrite Hs.
    rewrite wrap32_small by (unfold u32; lia). lia. }
  rewrite Hnext in H2, H3, H4. set (m := stamp _ _ _ _) in *.
  apply save_generation_spec in H2 as ((_&_&_&Hf2) & _ & Hok2).
  pose proof (activate_frame current m false s2) as (Hg3 & _). rewrite H3 in Hg3. simpl in Hg3.
  apply publish_load in H4 as [Hload4 Hg4].
  assert (Hent : ∀ n, entry s' n = entry s2 n) by (intros n; unfold entry; by rewrite Hg4, Hg3).
  change (gen_id m) with (gen_id current + 1) in Hf2, Hok2.
  split.
  - apply (at_newest_publish s s' current m); try done.
    + rewrite Hent. by apply Hok2.
    + intros n Hne. rewrite Hent. by apply Hf2.
  - intros n Hne. rewrite Hent. by apply Hf2.
Qed.

End switching.

(** ** Theorems *)
Section theorems.
Context `{SPL : StorePathLib, IJ : InfoJson, MJ : ManifestJson, IOF : IoFaults, TF : TreeFaults,
          SJ : SystemJson, GF : GenFaults, FL : FsLimits}.
Variable now : option Z.
Variable blake3_hex : string → string.
Variable run_sh : path → fsys → script_result * fsys.

(** C2. A switch publishes last.  However a switch ends, either the manifest, the
    [current] link and the boot default are those of before, and it has failed, or they
    were those of before until the new generation had been saved in its own directory and
    activation of it, from the generation of before, had succeeded; all that happened after
    is the publication, which writes the manifest, then the link, then the boot default.
    Either way no directory but those of the current and of the new generation differs. *)
Theorem switch_publishes_last new_file desc s r s' :
  switch now blake3_hex run_sh new_file desc false s = (r, s') →
  (∀ current, load_manifest_from (s_manifest s) = Ok current →
     ∀ n, n ≠ dec (gen_id current) → n ≠ dec (next_generation_id s current) → entry s' n = entry s n)
  ∧ ((unpublished s s' ∧ is_ok r = false)
     ∨ ∃ current current' nm m s1 s2 s3,
         load_manifest_from (s_manifest s) = Ok current ∧ load_manifest_from new_file = Ok nm
         ∧ snapshot_of blake3_hex (fs_tree (s_fs s)) current current'
         ∧ m = stamp now (next_generation_id s current) (default (gi_description (m_generation nm)) desc) nm
         ∧ unpublished s s1 ∧ unpublished s s2 ∧ unpublished s s3
         ∧ save_generation m s1 = (Ok tt, s2) ∧ entry s2 (dec (gen_id m)) = Some (saved_entry m)
         ∧ (∃ act, activate blake3_hex run_sh current' m false s2 = (Ok act, s3))
         ∧ publish m s3 = (r, s')
         ∧ (s_link s' ≠ s_link s → s_manifest s' = Some (Text (system_to_json m)))
         ∧ (s_boot s' ≠ s_boot s →
              s_manifest s' = Some (Text (system_to_json m)) ∧ s_link s' = Some (dec (gen_id m)))).
Proof.
  intros Hr. destruct (switch_inv now blake3_hex run_sh _ _ _ _ _ Hr)
    as [(Hu & Hno & Hent)|(current & current' & b & nm & Hc & Hn & Hsnap & s1 & s2 & s3 & act & H1 & H2 & H3 & H4 & H5 & H6)].
  - split; [|by left]. intros current Hc n Hn1 Hn2. apply Hent.
    intros current' Hc'. rewrite Hc in Hc'. injection Hc' as <-. done.
  - set (m := stamp _ _ _ nm) in *. apply snapshot_root_files_of in Hsnap.
    pose proof (save_generation_spec _ _ _ _ H4) as (Hf2 & _ & Hok2).
    pose proof (activate_frame blake3_hex run_sh current' m false s2) as Hf3. rewrite H5 in Hf3. simpl in Hf3.
    assert (Hu2 : unpublished s s2) by (eapply unpublished_trans; [done|by eapply same_but_gen_unpublished]).
    assert (Hu3 : unpublished s s3) by (eapply unpublished_trans; [done|by eapply same_but_disk_unpublished]).
    destruct (publish_order _ _ _ _ H6) as [Hl Hb]. destruct Hu3 as (Em & El & Eb). rewrite El in Hl. rewrite Eb in Hb.
    split; [|right; exists current, current', nm, m, s1, s2, s3; split_and!; try done; [by apply Hok2|by eexists]].
    intros c Hc' n Hn1 Hn2. rewrite Hc in Hc'. injection Hc' as <-. apply publish_spec in H6 as [Hg _].
    unfold entry at 1. rewrite Hg. fold (entry s3 n). rewrite (same_but_disk_entry _ _ _ Hf3).
    destruct Hf2 as (_&_&_&Hf2). rewrite Hf2 by done. by apply H2.
Qed.

(** C22. What a successful switch leaves: the current manifest is the new one, under a
    number greater than the current one and than every scanned generation; the link
    points to it and its directory holds it.  The directory of the replaced generation is
    as it was, or holds the manifest of before, with the texts of its files where they were
    missing; every other generation is as before. *)
Theorem switch_result new_file desc s s' current gens nm :
  load_manifest_from (s_manifest s) = Ok current → scan_generations s = Ok gens →
  load_manifest_from new_file = Ok nm → 0 ≤ gen_id current →
  Z.max (max_id (g_id <$> gens)) (gen_id current) < u32_max →
  switch now blake3_hex run_sh new_file desc false s = (Ok tt, s') →
  let id := next_generation_id s current in
  let m := stamp now id (default (gi_description (m_generation nm)) desc) nm in
  gen_id current < id ∧ (∀ g, g ∈ gens → g_id g < id)
  ∧ load_manifest_from (s_manifest s') = Ok m ∧ s_link s' = Some (dec id)
  ∧ entry s' (dec id) = Some (saved_entry m)
  ∧ (∃ current' enriched, snapshot_root_files blake3_hex (fs_tree (s_fs s)) current = Ok (current', enriched)
       ∧ snapshot_of blake3_hex (fs_tree (s_fs s)) current current'
       ∧ (entry s (dec (gen_id current)) = None ∨ enriched = true →
            entry s' (dec (gen_id current)) = Some (saved_entry current'))
       ∧ (is_Some (entry s (dec (gen_id current))) → enriched = false →
            entry s' (dec (gen_id current)) = entry s (dec (gen_id current))))
  ∧ ∀ n, n ≠ dec id → n ≠ dec (gen_id current) → entry s' n = entry s n.
Proof.
  intros Hc Hs Hn Hpos Hmax Hr id m.
  destruct (next_id_fresh _ _ _ Hs Hpos Hmax) as (_ & Hid & Hgens).
  destruct (switch_inv now blake3_hex run_sh _ _ _ _ _ Hr)
    as [(_ & ? & _)|(c & c' & b & nm' & Hc' & Hn' & Hsnap & s1 & s2 & s3 & act & _ & He1 & Hcur1 & H2 & H3 & H4)]; [done|].
  rewrite Hc in Hc'. injection Hc' as <-. rewrite Hn in Hn'. injection Hn' as <-.
  fold id in H2, H3, H4. fold m in H2, H3, H4.
  apply save_generation_spec in H2 as ((_&_&_&Hf2) & _ & Hok2). change (gen_id m) with id in Hf2, Hok2.
  pose proof (activate_frame blake3_hex run_sh c' m false s2) as (Hg3 & _). rewrite H3 in Hg3. simpl in Hg3.
  pose proof (publish_spec _ _ _ _ H4) as [Hg4 Hok4]. destruct (Hok4 eq_refl) as [_ Hlink].
  apply publish_load in H4 as [Hload _].
  assert (Hent : ∀ n, entry s' n = entry s2 n) by (intros n; unfold entry; by rewrite Hg4, Hg3).
  assert (Hcur : entry s' (dec (gen_id current)) = kept_entry s c' b).
  { rewrite Hent, Hf2; [done|]. intros He. apply dec_inj in He; lia. }
  assert (Hsame : gen_id c' = gen_id current) by (unfold gen_id; by rewrite (snapshot_gen_id _ _ _ _ _ Hsnap)).
  split_and!; try done.
  - lia.
  - rewrite Hent. by apply Hok2.
  - exists c', b. split; [done|]. split; [by eapply snapshot_root_files_of|]. rewrite Hcur.
    unfold kept_entry. rewrite Hsame, gen_exists_entry. split.
    + by intros [-> | ->]; [|rewrite orb_true_r].
    + intros He ->. rewrite (bool_decide_eq_true_2 _ He). done.
  - intros n Hn1 Hn2. rewrite Hent, Hf2 by done. by apply He1.
Qed.

(** Two rollbacks undo each other.  At the newest generation, with an older one
    stored, [rollback] followed by [rollback] ends with the manifest of before: only the
    generation's number, description and timestamp differ. *)
Theorem rollback_twice s s1 s2 current gens :
  at_newest s current → scan_generations s = Ok gens → gen_id current + 2 ≤ u32_max →
  (∃ g, g ∈ gens ∧ g_id g < gen_id current) →
  rollback now blake3_hex run_sh None s = (Ok tt, s1) →
  rollback now blake3_hex run_sh None s1 = (Ok tt, s2) →
  load_manifest_from (s_manifest s2)
  = Ok (stamp now (gen_id current + 2) ("rollback to generation " +:+ dec (gen_id current)) current).
Proof.
  intros Hn Hs Hu Hg Hr1 Hr2. pose proof Hn as [_ Hcan Hid (e & He & Hse) _].
  destruct (rollback_step now blake3_hex run_sh _ _ _ _ Hn Hs ltac:(lia) Hg Hr1)
    as (t1 & _ & _ & _ & Hn1 & Hent1).
  assert (Hs1 : ∃ gens1, scan_generations s1 = Ok gens1).
  { unfold scan_generations in *. destruct (s_gens s1); [|by eexists].
    destruct gen_scan_fails; [|by eexists]. unfold entry in He. by destruct (s_gens s). }
  destruct Hs1 as [gens1 Hs1].
  (* the generation rolled back from is the newest below the new one *)
  assert (Hc1 : mkGeneration (gen_id current) current ∈ gens1).
  { apply (elem_of_scan_iff _ _ _ (an_names _ _ Hn1) Hs1). exists e. simpl. split; [|done].
    rewrite Hent1; [done|]. intros Heq. apply dec_inj in Heq; lia. }
  assert (Hid1 : gen_id (stamp now (gen_id current + 1) (rollback_text t1) (g_manifest t1))
                 = gen_id current + 1) by done.
  destruct (rollback_step now blake3_hex run_sh s1 s2 _ gens1 Hn1 Hs1 ltac:(rewrite Hid1; lia)
    ltac:(exists (mkGeneration (gen_id current) current); split; [exact Hc1|simpl; lia]) Hr2)
    as (t2 & Ht2 & Hlt2 & Hbest & Hn2 & _).
  change (gen_id (stamp now (gen_id current + 1) (rollback_text t1) (g_manifest t1)))
    with (gen_id current + 1) in *.
  pose proof (Hbest _ Hc1 ltac:(simpl; lia)) as Hge. simpl in Hge.
  assert (Ht : g_id t2 = gen_id current) by lia.
  apply (elem_of_scan_iff _ _ _ (an_names _ _ Hn1) Hs1) in Ht2 as (e2 & He2 & Hse2).
  rewrite Ht in He2, Hse2. rewrite Hent1 in He2 by (intros Heq; apply dec_inj in Heq; lia).
  rewrite He in He2. injection He2 as <-. rewrite Hse in Hse2. injection Hse2 as <-.
  replace (gen_id current + 2) with (gen_id current + 1 + 1) by lia. apply (an_load _ _ Hn2).
Qed.

End theorems.

(** ** Witnesses, with an activation that does nothing *)
Module SwitchDemo.

Import GenDemo.

Definition blake3 (s : string) : string := s.
Definition sh (script : path) (f : fsys) : script_result * fsys := (Exited true (Some 0), f).

Definition next_manifest : Manifest := demo_manifest 1 "" "new" [app_pkg; old_pkg].

Definition do_switch := switch (Some 86400) blake3 sh
  (Some (Text (system_to_json next_manifest))) (Some "added old") false sys.

Lemma switch_publishes_last_witness :
  ∃ m s2 s3, gi_description (m_generation m) = "added old"
    ∧ entry s2 (dec (gen_id m)) = Some (saved_entry m) ∧ publish m s3 = (do_switch.1, do_switch.2).
Proof.
  destruct (switch_publishes_last (Some 86400) blake3 sh
    (Some (Text (system_to_json next_manifest))) (Some "added old") sys do_switch.1 do_switch.2
    (surjective_pairing do_switch))
    as [_ [(_ & Hno)|(c & c' & nm & m & s1 & s2 & s3 & _ & _ & _ & Hm & _ & _ & _ & _ & Hentry & _ & Hpub & _)]].
  - exfalso. assert (Hok : is_ok do_switch.1 = true) by (vm_compute; reflexivity). congruence.
  - exists m, s2, s3. split; [rewrite Hm; reflexivity|]. split; [exact Hentry|exact Hpub].
Defined.

Lemma switch_result_witness :
  load_manifest_from (s_manifest do_switch.2)
  = Ok (stamp (Some 86400) 6 "added old" next_manifest)
  ∧ entry do_switch.2 "3" = entry sys "3".
Proof.
  destruct (switch_result (Some 86400) blake3 sh
    (Some (Text (system_to_json next_manifest))) (Some "added old") sys do_switch.2 current
    [mkGeneration 1 (gen 1 [old_pkg]); mkGeneration 2 (gen 2 [app_pkg]);
     mkGeneration 3 (gen 3 [old_pkg]); mkGeneration 5 (gen 5 [app_pkg])] next_manifest)
    as (_ & _ & Hload & _ & _ & _ & Hrest).
  - vm_compute. reflexivity.
  - vm_compute. reflexivity.
  - vm_compute. reflexivity.
  - vm_compute. discriminate.
  - vm_compute. reflexivity.
  - assert (Hok : do_switch.1 = Ok tt) by (vm_compute; reflexivity).
    rewrite <- Hok. apply surjective_pairing.
  - split; [exact Hload|]. apply Hrest; vm_compute; discriminate.
Defined.

Definition back1 := rollback (Some 86400) blake3 sh None sys.
Definition back2 := rollback (Some 86400) blake3 sh None back1.2.

Lemma rollback_twice_witness :
  load_manifest_from (s_manifest back2.2) = Ok (stamp (Some 86400) 7 "rollback to generation 5" current).
Proof.
  assert (H1 : back1.1 = Ok tt) by (vm_compute; reflexivity).
  assert (H2 : back2.1 = Ok tt) by (vm_compute; reflexivity).
  apply (rollback_twice (Some 86400) blake3 sh sys back1.2 back2.2 current
    [mkGeneration 1 (gen 1 [old_pkg]); mkGeneration 2 (gen 2 [app_pkg]);
     mkGeneration 3 (gen 3 [old_pkg]); mkGeneration 5 (gen 5 [app_pkg])]).
  - apply at_newest_check_sound. vm_compute. reflexivity.
  - vm_compute. reflexivity.
  - vm_compute. discriminate.
  - exists (mkGeneration 3 (gen 3 [old_pkg])). split; [do 2 right; left|vm_compute; reflexivity].
  - rewrite <- H1. apply surjective_pairing.
  - rewrite <- H2. apply surjective_pairing.
Defined.

End SwitchDemo.
