(* ===== verification/ActivatePlan.v ===== *)
(** * What an activation plans, and what it reports

    When the plan is empty, what the mode strings of managed files denote, and the result
    of an activation as a whole. *)

From S2P Require Import Prelude RustStd FileSys Nar PathInfo Instances Store Calendar Manifest Generations TopoSort Activate ManifestInstances GenDelete.

Open Scope Z_scope.

(** ** Diffs *)
Lemma is_nil_spec {A} (l : list A) : is_nil l = true ↔ l = [].
Proof. by destruct l. Qed.

Lemma omap_nil {A B} (f : A → option B) l : omap f l = [] ↔ ∀ x, x ∈ l → f x = None.
Proof.
  induction l as [|x l IH]; simpl; [split; [by intros _ ? ?%not_elem_of_nil|done]|].
  destruct (f x) eqn:E.
  - split; [done|]. intros H. specialize (H x ltac:(left)). congruence.
  - rewrite IH. split; [intros H y [->|Hy]%elem_of_cons; auto|]. intros H y Hy. apply H. by right.
Qed.

Lemma diff_added_nil {V W} (f : string → V → W) old new :
  diff_added f old new = [] ↔ ∀ k, is_Some (new !! k) → is_Some (old !! k).
Proof.
  unfold diff_added. rewrite omap_nil. split.
  - intros H k [v Hv]. apply BTree.elem_of_to_list in Hv. specialize (H _ Hv). simpl in H.
    destruct (old !! k); [by eexists|done].
  - intros H [k v] Hkv%BTree.elem_of_to_list. simpl. destruct (H k) as [o ->]; [by eexists|done].
Qed.

Lemma diff_changed_nil {V W} differs (f : string → V → V → W) old new :
  diff_changed differs f old new = []
  ↔ ∀ k o n, old !! k = Some o → new !! k = Some n → differs o n = false.
Proof.
  unfold diff_changed. rewrite omap_nil. split.
  - intros H k o n Ho Hn. apply BTree.elem_of_to_list in Hn. specialize (H _ Hn). simpl in H.
    rewrite Ho in H. by destruct (differs o n).
  - intros H [k n] Hn%BTree.elem_of_to_list. simpl. destruct (old !! k) eqn:Ho; [|done].
    by rewrite (H _ _ _ Ho Hn).
Qed.

(** All three lists are empty when the maps have the same keys and nothing differs. *)
Lemma diff_nil {V W1 W2 W3} differs (f : string → V → W1) (g : string → V → W2)
    (h : string → V → V → W3) (old new : gmap string V) :
  diff_added f old new = [] ∧ diff_removed g old new = [] ∧ diff_changed differs h old new = []
  ↔ ∀ k, option_Forall2 (λ o n, differs o n = false) (old !! k) (new !! k).
Proof.
  unfold diff_removed. rewrite !diff_added_nil, diff_changed_nil. split.
  - intros (Ha & Hr & Hc) k. destruct (old !! k) as [o|] eqn:Eo, (new !! k) as [n|] eqn:En.
    + constructor. by eapply Hc.
    + destruct (Hr k) as [? ?]; [by eexists|congruence].
    + destruct (Ha k) as [? ?]; [by eexists|congruence].
    + constructor.
  - intros H. split_and!.
    + intros k [n Hn]. specialize (H k). rewrite Hn in H. inversion H; by eexists.
    + intros k [o Ho]. specialize (H k). rewrite Ho in H. inversion H; by eexists.
    + intros k o n Ho Hn. specialize (H k). rewrite Ho, Hn in H. by inversion H.
Qed.

Lemma differ_false {A} `{EqDecision A} (x y : A) : differ x y = false ↔ x = y.
Proof. unfold differ. rewrite negb_false_iff. apply bool_decide_eq_true. Qed.

Lemma option_Forall2_eq {A} (R : relation A) (o n : option A) :
  (∀ x y, R x y ↔ x = y) → option_Forall2 R o n ↔ o = n.
Proof.
  intros HR. split.
  - inversion 1 as [? ? Hxy|]; subst; [|done]. f_equal. by apply HR.
  - intros ->. destruct n; constructor. by apply HR.
Qed.

Lemma option_Forall2_fmap_eq {A B} (f : A → B) (R : relation A) (o n : option A) :
  (∀ x y, R x y ↔ f x = f y) → option_Forall2 R o n ↔ f <$> o = f <$> n.
Proof.
  intros HR. split.
  - inversion 1 as [? ? Hxy|]; subst; [|done]. simpl. f_equal. by apply HR.
  - destruct o, n; simpl; intros; simplify_eq; constructor. by apply HR.
Qed.

Definition package_data (p : Package) : string * string := (pkg_version p, pkg_store_path p).

Lemma package_differs_false o n : package_differs o n = false ↔ package_data o = package_data n.
Proof.
  unfold package_differs, package_data. rewrite orb_false_iff, !differ_false.
  split; [intros [-> ->]; done|]. intros [= -> ->]. done.
Qed.

Lemma user_differs_false o n : user_differs o n = false ↔ o = n.
Proof.
  unfold user_differs. rewrite !orb_false_iff, !differ_false. destruct o, n; simpl.
  split; [intros [[[-> ->] ->] ->]; done|]. by intros [= -> -> -> ->].
Qed.

(** The plan is empty exactly when the manifests agree on what activation converges
    to: under every package name the same version and store path, the same hash for every
    managed file, the same declared services, the same users, and no activation script to
    run.  In particular activating a manifest over itself plans only its scripts. *)
Theorem plan_empty_iff `{FL : FsLimits} t old new :
  plan_is_empty (plan t old new) = true ↔
    (∀ name, package_data <$> packages_by_name (m_packages old) !! name
             = package_data <$> packages_by_name (m_packages new) !! name)
    ∧ (∀ p, fi_blake3 <$> m_files old !! p = fi_blake3 <$> m_files new !! p)
    ∧ declared (m_services old) = declared (m_services new)
    ∧ m_users old = m_users new
    ∧ scripts_in_order (m_activation_scripts new) = [].
Proof.
  unfold plan_is_empty, plan, diff_config_files, diff_declared_services, diff_users. simpl.
  rewrite !andb_true_iff, !is_nil_spec.
  trans ((∀ k, option_Forall2 (λ o n, package_differs o n = false)
            (packages_by_name (m_packages old) !! k) (packages_by_name (m_packages new) !! k))
    ∧ (∀ k, option_Forall2 (λ o n, differ (fi_blake3 o) (fi_blake3 n) = false)
            (m_files old !! k) (m_files new !! k))
    ∧ (∀ k, option_Forall2 (λ o n, differ o n = false)
            (declared (m_services old) !! k) (declared (m_services new) !! k))
    ∧ (∀ k, option_Forall2 (λ o n, user_differs o n = false) (m_users old !! k) (m_users new !! k))
    ∧ scripts_in_order (m_activation_scripts new) = []).
  { pose proof (diff_nil package_differs (λ n _, n) (λ n _, n)
      (λ n o p, mkPackageChange n (pkg_version o) (pkg_version p) (pkg_store_path o) (pkg_store_path p))
      (packages_by_name (m_packages old)) (packages_by_name (m_packages new))).
    pose proof (diff_nil (λ o n, differ (fi_blake3 o) (fi_blake3 n)) (λ p _, p) (λ p _, p)
      (λ p o n, mkConfigChange p (fi_blake3 o) (fi_blake3 n)) (m_files old) (m_files new)).
    pose proof (diff_nil differ service_change service_change (λ name _ n, service_change name n)
      (declared (m_services old)) (declared (m_services new))).
    pose proof (diff_nil user_differs (λ n _, n) (λ n _, n) (λ name _ _, name)
      (m_users old) (m_users new)).
    tauto. }
  rewrite !map_eq_iff.
  setoid_rewrite (option_Forall2_fmap_eq package_data); [|apply package_differs_false].
  setoid_rewrite (option_Forall2_fmap_eq fi_blake3); [|intros; apply differ_false].
  setoid_rewrite option_Forall2_eq; [done|intros; apply differ_false|apply user_differs_false].
Qed.

(** ** Mode strings *)
Definition octal_char (d : Z) : ascii := ascii_of_N (48 + Z.to_N d).
Definition octal_string (ds : list Z) : string := foldr (λ d s, String (octal_char d) s) "" ds.
Definition octal_value (ds : list Z) : Z := foldl (λ acc d, acc * 8 + d) 0 ds.

Lemma octal_digit_char d : 0 ≤ d < 8 → octal_digit (octal_char d) = Some d.
Proof.
  intros Hd. assert (Hin : In d [0; 1; 2; 3; 4; 5; 6; 7]) by (simpl; lia).
  simpl in Hin. decompose [or] Hin; subst; done.
Qed.

Lemma from_octal_string ds acc :
  Forall (λ d, 0 ≤ d < 8) ds →
  from_octal acc (octal_string ds) = Some (foldl (λ acc d, acc * 8 + d) acc ds).
Proof.
  intros Hds. revert acc. induction Hds as [|d ds Hd _ IH]; intros acc; [done|].
  change (octal_string (d :: ds)) with (String (octal_char d) (octal_string ds)). cbn [from_octal].
  rewrite octal_digit_char by done. apply IH.
Qed.

Lemma octal_graphic ds : Forall (λ d, 0 ≤ d < 8) ds → Str.all_chars Str.graphic (octal_string ds) = true.
Proof.
  induction 1 as [|d ds Hd _ IH]; [done|]. change (octal_string (d :: ds)) with (String (octal_char d) (octal_string ds)).
  cbn [Str.all_chars].
  rewrite IH, andb_true_r. assert (Hin : In d [0; 1; 2; 3; 4; 5; 6; 7]) by (simpl; lia).
  simpl in Hin. decompose [or] Hin; subst; done.
Qed.

Lemma length_octal ds : String.length (octal_string ds) = length ds.
Proof. induction ds; simpl; congruence. Qed.

Lemma graphic_trim s : Str.all_chars Str.graphic s = true → Str.trim s = s.
Proof.
  intros Hs. destruct s as [|a s]; [done|].
  destruct (Str.snoc_cases (String a s)) as [?|(u & b & Hu)]; [done|].
  pose proof Hs as Hb. rewrite Hu, Str.all_chars_app in Hb. simpl in Hs, Hb.
  rewrite andb_true_r in Hb. apply andb_true_iff in Hs as [Ha _], Hb as [Hub Hb].
  apply (Str.trim_visible _ a b s u); [done|done|done|done|].
  apply (Str.all_chars_impl Str.graphic); [|done]. intros c Hc. unfold Str.printable. by rewrite Hc.
Qed.

Lemma octal_value_bound ds :
  Forall (λ d, 0 ≤ d < 8) ds → 0 ≤ octal_value ds < 8 ^ Z.of_nat (length ds).
Proof.
  unfold octal_value. induction ds as [|d ds IH] using rev_ind; [simpl; lia|].
  intros [Hds Hd]%Forall_app. rewrite foldl_snoc, length_app. simpl length.
  specialize (IH Hds). inversion Hd; subst.
  rewrite Nat2Z.inj_add, Z.pow_add_r by lia. change (8 ^ Z.of_nat 1) with 8. lia.
Qed.

(** The last step of the parser, on digits *)
Lemma octal_digits_parse ds :
  Forall (λ d, 0 ≤ d < 8) ds → (1 ≤ length ds ≤ 4)%nat →
  (if decide (octal_string ds = "" ∨ (4 < String.length (octal_string ds))%nat) then Err InvalidInput
   else match from_octal 0 (octal_string ds) with
        | None => Err InvalidInput
        | Some parsed => if decide (4095 < parsed) then Err InvalidInput else Ok parsed
        end) = Ok (octal_value ds).
Proof.
  intros Hds Hlen. rewrite decide_False.
  - rewrite from_octal_string by done. fold (octal_value ds).
    pose proof (octal_value_bound ds Hds) as [_ Hb]. rewrite decide_False; [done|].
    assert (8 ^ Z.of_nat (length ds) ≤ 8 ^ 4) by (apply Z.pow_le_mono_r; lia). lia.
  - rewrite length_octal. intros [He|]; [|lia]. apply (f_equal String.length) in He.
    rewrite length_octal in He. simpl in He. lia.
Qed.

(** The optional leading zero *)
Lemma strip_zero ds :
  Forall (λ d, 0 ≤ d < 8) ds → ds ≠ [] →
  ∃ ds', Forall (λ d, 0 ≤ d < 8) ds' ∧ ds' ≠ [] ∧ (length ds' ≤ length ds)%nat ∧ octal_value ds' = octal_value ds
    ∧ (match Str.strip_prefix "0" (octal_string ds) with
       | Some rest => if decide (rest = "") then octal_string ds else rest
       | None => octal_string ds
       end) = octal_string ds'.
Proof.
  intros Hds Hne. destruct ds as [|d ds]; [done|]. inversion Hds as [|? ? Hd Hds']; subst.
  destruct (decide (d = 0)) as [->|Hd0].
  - change (Str.strip_prefix "0" (octal_string (0 :: ds))) with (Some (octal_string ds)).
    destruct (decide (octal_string ds = "")) as [He|He].
    + exists (0 :: ds). split_and!; [done|done|lia|done|by rewrite decide_True].
    + exists ds. split_and!; [done| |simpl; lia|done|by rewrite decide_False]. by intros ->.
  - exists (d :: ds). split_and!; [done|done|lia|done|].
    assert (Hs : Str.strip_prefix "0" (octal_string (d :: ds)) = None); [|by rewrite Hs].
    assert (Hin : In d [1; 2; 3; 4; 5; 6; 7]) by (simpl; lia).
    simpl in Hin. decompose [or] Hin; subst; done.
Qed.

(** A mode string of one to four octal digits, written plainly, with a leading zero
    or with [0o], denotes its octal value: the zero that is stripped never changes it, and
    the value is at most 0o7777. *)
Theorem parse_mode_string_octal pre ds :
  pre ∈ ["" ; "0"; "0o"; "0o0"] → Forall (λ d, 0 ≤ d < 8) ds → (1 ≤ length ds ≤ 4)%nat →
  parse_mode_string (pre +:+ octal_string ds) = Ok (octal_value ds) ∧ octal_value ds ≤ 4095.
Proof.
  intros Hpre Hds Hlen. split.
  2:{ pose proof (octal_value_bound ds Hds) as [_ Hb].
      assert (8 ^ Z.of_nat (length ds) ≤ 8 ^ 4) by (apply Z.pow_le_mono_r; lia). lia. }
  assert (Hne : ds ≠ []) by (intros ->; simpl in Hlen; lia).
  assert (Hg : Str.all_chars Str.graphic (pre +:+ octal_string ds) = true).
  { rewrite Str.all_chars_app, octal_graphic by done. rewrite andb_true_r.
    rewrite !elem_of_cons, elem_of_nil in Hpre. naive_solver. }
  assert (Hno : Str.strip_prefix "0o" (octal_string ds) = None).
  { destruct ds as [|d1 [|d2 ds]]; [done| |].
    - inversion Hds as [|? ? Hd _]; subst. assert (Hin : In d1 [0; 1; 2; 3; 4; 5; 6; 7]) by (simpl; lia).
      simpl in Hin. decompose [or] Hin; subst; done.
    - inversion Hds as [|? ? Hd1 Hds']; subst. inversion Hds' as [|? ? Hd2 _]; subst.
      assert (Hin1 : In d1 [0; 1; 2; 3; 4; 5; 6; 7]) by (simpl; lia).
      assert (Hin2 : In d2 [0; 1; 2; 3; 4; 5; 6; 7]) by (simpl; lia).
      simpl in Hin1, Hin2. decompose [or] Hin1; decompose [or] Hin2; subst; done. }
  unfold parse_mode_string. rewrite graphic_trim by done. unfold without_prefix.
  destruct (strip_zero ds Hds Hne) as (ds' & Hds' & Hne' & Hl' & Hv' & Hs').
  assert (Hz : Forall (λ d, 0 ≤ d < 8) (0 :: ds)) by (by constructor).
  assert (Hoct : octal_string (0 :: ds) = "0" +:+ octal_string ds) by done.
  assert (Hstrip0 : Str.strip_prefix "0" (String "0" (octal_string ds)) = Some (octal_string ds)) by done.
  assert (Hdsne : octal_string ds ≠ "").
  { intros He. apply (f_equal String.length) in He. rewrite length_octal in He. simpl in He. lia. }
  assert (Hlen' : (1 ≤ length ds' ≤ 4)%nat) by (destruct ds'; simpl in *; [done|lia]).
  rewrite !elem_of_cons, elem_of_nil in Hpre.
  destruct Hpre as [->|[->|[->|[->|[]]]]].
  - change ("" +:+ octal_string ds) with (octal_string ds). rewrite Hno. simpl default.
    rewrite Hs', <- Hv'. by apply octal_digits_parse.
  - assert (Hno0 : Str.strip_prefix "0o" ("0" +:+ octal_string ds) = None).
    { destruct ds as [|d ds]; [done|]. inversion Hds as [|? ? Hd _]; subst.
      assert (Hin : In d [0; 1; 2; 3; 4; 5; 6; 7]) by (simpl; lia).
      simpl in Hin. decompose [or] Hin; subst; done. }
    rewrite Hno0. simpl default. rewrite Hstrip0, (decide_False (P := octal_string ds = "")) by done. by apply octal_digits_parse.
  - change (Str.strip_prefix "0o" ("0o" +:+ octal_string ds)) with (Some (octal_string ds)). simpl default.
    rewrite Hs', <- Hv'. by apply octal_digits_parse.
  - change (Str.strip_prefix "0o" ("0o0" +:+ octal_string ds)) with (Some ("0" +:+ octal_string ds)).
    simpl default. rewrite Hstrip0, (decide_False (P := octal_string ds = "")) by done. by apply octal_digits_parse.
Qed.

Lemma parse_mode_string_octal_witness :
  parse_mode_string "0644" = Ok 420 ∧ octal_value [6; 4; 4] ≤ 4095.
Proof.
  apply (parse_mode_string_octal "0" [6; 4; 4]).
  - right. left.
  - repeat constructor; lia.
  - simpl. lia.
Defined.
