(* ===== verification/ProfileSwap.v ===== *)
(** * The atomic swap of the system profile

    What the directory [/nix/system/profile/bin] looks like in every tree the disk goes
    through while [atomic_profile_swap] runs, however it ends, and what
    [populate_profile_dir] puts into a profile. *)

From S2P Require Import Prelude RustStd FileSys FileSysFacts Nar PathInfo Store Calendar Manifest Generations TopoSort Activate ManifestInstances.

Open Scope Z_scope.

(** ** The directories involved *)
Definition NIX : path := Eval vm_compute in abs "/nix".
Definition NIX_SYSTEM : path := Eval vm_compute in abs "/nix/system".
Definition PROFILE : path := Eval vm_compute in abs "/nix/system/profile".

(** What is left of a decidable statement on closed paths *)
Ltac closed_path := first [apply (bool_decide_unpack _); vm_compute; exact I
                          | apply bool_decide_eq_false_1; vm_compute; reflexivity].

Definition is_dir_node (t : tree) (p : path) : Prop := ∃ m, t !! p = Some (Dir m).

(** The system is set up: the directories of the profile are directories, and nobody put
    links in the place of the staging directories. *)
Record dirs_ok (t : tree) : Prop := mkDirsOk {
  do_nix : is_dir_node t NIX;
  do_system : is_dir_node t NIX_SYSTEM;
  do_profile : is_dir_node t PROFILE;
  do_staging : not_link t STAGING_DIR;
  do_staging_bin : not_link t STAGING_BIN;
}.

Lemma dir_not_link t p : is_dir_node t p → not_link t p.
Proof. intros [m Hm] target. by rewrite Hm. Qed.

Lemma abs_path_components s : forallb is_normal (tail (abs s)) && bool_decide (head (abs s) = Some RootDir) = true → abs_path (abs s).
Proof.
  unfold abs. destruct (Path.components s) as [|c q]; simpl; [done|].
  intros [Hn Hc%bool_decide_eq_true]%andb_true_iff. injection Hc as ->. clear -Hn. unfold abs_path.
  assert (H : ∃ ns, q = Normal <$> ns); [|destruct H as [ns ->]; by exists ns].
  induction q as [|c q IH]; [by exists []|]. simpl in Hn. apply andb_true_iff in Hn as [H1 H2].
  destruct c as [| | |n]; try done. destruct (IH H2) as [ns ->]. by exists (n :: ns).
Qed.

Lemma abs_path_snoc p n : abs_path p → abs_path (p ++ [Normal n]).
Proof. intros [ns ->]. exists (ns ++ [n]). by rewrite fmap_app. Qed.

(** The paths the swap works on resolve to themselves. *)
Lemma scratch_plain t p :
  dirs_ok t → p ∈ [PROFILE; SYSTEM_PROFILE_BIN; BIN_NEW; BIN_OLD; STAGING_DIR; STAGING_BIN] → plain t p.
Proof.
  intros [H1%dir_not_link H2%dir_not_link H3%dir_not_link H4 _] Hp.
  rewrite !elem_of_cons, elem_of_nil in Hp.
  destruct Hp as [->|[->|[->|[->|[->|[->|[]]]]]]]; apply plain_ancestors;
    try (repeat constructor; assumption).
  - by exists ["nix"; "system"; "profile"].
  - by exists ["nix"; "system"; "profile"; "bin"].
  - by exists ["nix"; "system"; "profile"; "bin.new"].
  - by exists ["nix"; "system"; "profile"; "bin.old"].
  - by exists ["nix"; "system"; ".profile-staging"].
  - by exists ["nix"; "system"; ".profile-staging"; "bin"].
Qed.

Lemma staged_plain t n : dirs_ok t → plain t (STAGING_BIN ++ [Normal n]).
Proof.
  intros [H1%dir_not_link H2%dir_not_link _ H4 H5]. apply plain_ancestors.
  - by exists ["nix"; "system"; ".profile-staging"; "bin"; n].
  - repeat constructor; assumption.
Qed.

(** Two prefixes of one path are comparable. *)
Lemma prefix_apart (p q k : path) : ¬ p `prefix_of` q → ¬ q `prefix_of` p → p `prefix_of` k → ¬ q `prefix_of` k.
Proof. intros H1 H2 Hp Hq. destruct (prefix_weak_total p q k Hp Hq); done. Qed.

(** ** What stays while the new profile is built *)
Definition view (p : path) (t : tree) (r : path) : option node := t !! (p ++ r).
Definition same_view (v w : path → option node) : Prop := ∀ r, v r = w r.
Definition absent (p : path) (t : tree) : Prop := ∀ r, view p t r = None.

Section building.
Context `{FL : FsLimits}.

(** The tree with the directories in order, [v] as the profile, and everything outside
    [/nix/system] as [base] has it *)
Context (base : tree).

Definition outside (t : tree) : Prop := ∀ k, ¬ NIX_SYSTEM `prefix_of` k → t !! k = base !! k.

Definition building (v : path → option node) (t : tree) : Prop :=
  dirs_ok t ∧ same_view (view SYSTEM_PROFILE_BIN t) v ∧ outside t.

Lemma building_agree v (X : path → Prop) t t' :
  building v t → (∀ k, ¬ X k → t' !! k = t !! k) →
  (∀ k, X k → NIX_SYSTEM `prefix_of` k) →
  ¬ X NIX → ¬ X NIX_SYSTEM → ¬ X PROFILE → (∀ r, ¬ X (SYSTEM_PROFILE_BIN ++ r)) →
  not_link t' STAGING_DIR → not_link t' STAGING_BIN → building v t'.
Proof.
  intros ([H1 H2 H3 H4 H5] & Hv & Ho) Ha X0 X1 X2 X3 X4 L1 L2. split_and!; [constructor|..]; try done.
  - destruct H1 as [m Hm]. exists m. by rewrite Ha.
  - destruct H2 as [m Hm]. exists m. by rewrite Ha.
  - destruct H3 as [m Hm]. exists m. by rewrite Ha.
  - intros r. unfold view. rewrite Ha by apply X4. apply Hv.
  - intros k Hk. rewrite Ha; [by apply Ho|]. intros Hx. by apply Hk, X0.
Qed.

Definition scratch : list path := [STAGING_BIN; BIN_NEW; BIN_OLD; STAGING_DIR].

Lemma scratch_apart p k :
  p ∈ scratch → k ∈ [NIX; NIX_SYSTEM; PROFILE; SYSTEM_PROFILE_BIN] → ¬ p `prefix_of` k.
Proof.
  intros Hp Hk. unfold scratch in Hp. rewrite !elem_of_cons, elem_of_nil in Hp, Hk.
  destruct Hp as [->|[->|[->|[->|[]]]]]; destruct Hk as [->|[->|[->|[->|[]]]]]; closed_path.
Qed.

Lemma scratch_apart_bin p r : p ∈ scratch → ¬ p `prefix_of` SYSTEM_PROFILE_BIN ++ r.
Proof.
  intros Hp Hpre. apply (prefix_apart SYSTEM_PROFILE_BIN p (SYSTEM_PROFILE_BIN ++ r)); [|..|by eexists|done].
  - unfold scratch in Hp. rewrite !elem_of_cons, elem_of_nil in Hp.
    destruct Hp as [->|[->|[->|[->|[]]]]]; closed_path.
  - apply scratch_apart; [done|]. do 3 right. left.
Qed.

Lemma not_link_shrinks p t t' q : shrinks p t t' → not_link t q → not_link t' q.
Proof. intros [_ Hs] Hl target. destruct (Hs q) as [->| ->]; [apply Hl|done]. Qed.

Lemma scratch_in_system p : p ∈ scratch → NIX_SYSTEM `prefix_of` p.
Proof.
  unfold scratch. rewrite !elem_of_cons, elem_of_nil. intros [->|[->|[->|[->|[]]]]]; closed_path.
Qed.

Lemma building_shrinks v p t t' : p ∈ scratch → building v t → shrinks p t t' → building v t'.
Proof.
  intros Hp Hb Hs. pose proof Hb as [[_ _ _ H4 H5] _].
  apply (building_agree v (λ k, p `prefix_of` k) t); [done|apply Hs|..].
  - intros k Hk. etrans; [by apply scratch_in_system|done].
  - apply scratch_apart; [done|left].
  - apply scratch_apart; [done|right; left].
  - apply scratch_apart; [done|do 2 right; left].
  - intros r. by apply scratch_apart_bin.
  - by eapply not_link_shrinks.
  - by eapply not_link_shrinks.
Qed.

Lemma stays_cleanup I p :
  (∀ t, I t → plain t p) → (∀ t t', I t → shrinks p t t' → I t') → stays I (cleanup_path p).
Proof.
  intros Hp HI. unfold cleanup_path. apply stays_get. intros t _.
  repeat apply stays_if; [apply stays_ignore, stays_remove_dir_all|apply stays_ignore, stays_remove_file|apply stays_ret]; done.
Qed.

Lemma stays_cleanup_scratch v p : p ∈ scratch → stays (building v) (cleanup_path p).
Proof.
  intros Hp. apply stays_cleanup.
  - intros t [Hd _]. apply scratch_plain; [done|]. unfold scratch in Hp. set_solver.
  - intros t t'. by apply building_shrinks.
Qed.

(** A node at or below the staging directory *)
Lemma building_insert v t k n :
  building v t → STAGING_DIR `prefix_of` k →
  ((∃ m, n = Dir m) ∨ ¬ k `prefix_of` STAGING_BIN) → building v (<[k := n]> t).
Proof.
  intros Hb Hk Hn. pose proof Hb as [[_ _ _ H4 H5] _].
  assert (Hl : ∀ p, p `prefix_of` STAGING_BIN → not_link t p → not_link (<[k := n]> t) p).
  { intros p Hp Hl target. destruct (decide (k = p)) as [->|Hne].
    - rewrite lookup_insert_eq. by destruct Hn as [[m ->]|[]].
    - rewrite lookup_insert_ne by done. apply Hl. }
  apply (building_agree v (λ k', k' = k) t); [done|..].
  - intros k' Hk'. by rewrite lookup_insert_ne.
  - intros k' ->. etrans; [|exact Hk]. closed_path.
  - intros <-. by destruct (scratch_apart STAGING_DIR NIX ltac:(do 3 right; left) ltac:(left)).
  - intros <-. by destruct (scratch_apart STAGING_DIR NIX_SYSTEM ltac:(do 3 right; left) ltac:(right; left)).
  - intros <-. by destruct (scratch_apart STAGING_DIR PROFILE ltac:(do 3 right; left) ltac:(do 2 right; left)).
  - intros r <-. apply (scratch_apart_bin STAGING_DIR r); [do 3 right; left|done].
  - apply Hl; [closed_path|done].
  - apply Hl; [done|done].
Qed.

Lemma prefix_staging q :
  q `prefix_of` STAGING_BIN → abs_path q → q ≠ [RootDir] → q ≠ NIX → q ≠ NIX_SYSTEM →
  STAGING_DIR `prefix_of` q.
Proof.
  intros [k Hk] [ns ->] H1 H2 H3.
  change STAGING_BIN with (RootDir :: (Normal <$> ["nix"; "system"; ".profile-staging"; "bin"])) in Hk.
  destruct ns as [|n1 [|n2 [|n3 [|n4 ns]]]]; simpl in Hk; simplify_eq.
  - exists []. reflexivity.
  - exists (Normal "bin" :: (Normal <$> ns)). reflexivity.
Qed.

Lemma stays_make_staging v : stays (building v) (create_dir_all STAGING_BIN).
Proof.
  apply stays_create_dir_all.
  - intros t q [Hd _] Hq Ha. eapply plain_prefix; [|done|exact Hq]. apply scratch_plain; [done|].
    do 5 right. left.
  - by exists ["nix"; "system"; ".profile-staging"; "bin"].
  - intros t q m Hb Hq Ha Hr Hn. apply building_insert; [done| |left; by eexists].
    destruct Hb as [[[m1 H1] [m2 H2] _ _ _] _]. apply prefix_staging; try done; congruence.
Qed.

Lemma join_bin n : Path.join STAGING_BIN [Normal n] = STAGING_BIN ++ [Normal n].
Proof. done. Qed.

Lemma stays_link_binary v pkg_bin name : stays (building v) (link_binary STAGING_BIN pkg_bin name).
Proof.
  unfold link_binary. rewrite join_bin. apply stays_get. intros t _.
  assert (Hpre : STAGING_DIR `prefix_of` STAGING_BIN ++ [Normal name]).
  { apply prefix_app_r. closed_path. }
  assert (Hsub : ¬ (STAGING_BIN ++ [Normal name]) `prefix_of` STAGING_BIN).
  { intros [k Hk]. apply (f_equal length) in Hk. rewrite !length_app in Hk. simpl in Hk. lia. }
  assert (Hplain : ∀ t, building v t → plain t (STAGING_BIN ++ [Normal name])).
  { intros t' [Hd _]. by apply staged_plain. }
  apply stays_bind; [apply stays_if; [|apply stays_ret]|intros _].
  - apply stays_remove_file; [done|]. intros t1 t2 Hb Hs.
    apply (building_shrinks v STAGING_BIN t1); [left|done|]. destruct Hs as [Hs1 Hs2]. split; [|done].
    intros k Hk. apply Hs1. intros Hk'. apply Hk. etrans; [|exact Hk']. by apply prefix_app_r.
  - apply stays_symlink; [done|]. intros t1 Hb _. apply building_insert; [done|done|by right].
Qed.

Lemma stays_link_binaries v pkg_bin es count :
  stays (building v) (link_binaries STAGING_BIN pkg_bin es count).
Proof.
  revert count. induction es as [|[name n] es IH]; intros count; simpl; [apply stays_ret|].
  apply stays_if; [|done]. apply stays_bind; [apply stays_link_binary|done].
Qed.

Lemma stays_populate v packages count :
  stays (building v) (populate_profile_dir STAGING_BIN packages count).
Proof.
  revert count. induction packages as [|pkg packages IH]; intros count; simpl; [apply stays_ret|].
  case_decide; [done|]. apply stays_get. intros t _. apply stays_if; [|done].
  apply stays_bind; [apply stays_lift|intros es]. apply stays_bind; [apply stays_link_binaries|done].
Qed.

End building.

Section swap.
Context `{FL : FsLimits}.

(** ** The renames *)
Definition swapped : list path := [SYSTEM_PROFILE_BIN; BIN_NEW; BIN_OLD].

Lemma move_off a c t k :
  ¬ a `prefix_of` k → ¬ c `prefix_of` k → move_tree a c t !! k = t !! k.
Proof. intros Ha Hc. by rewrite move_tree_lookup, !decide_False. Qed.

Lemma move_view a c t : same_view (view c (move_tree a c t)) (view a t).
Proof.
  intros r. unfold view. rewrite move_tree_lookup, decide_True by by eexists.
  by rewrite drop_app_length.
Qed.

Lemma move_gone a c t r : ¬ c `prefix_of` a ++ r → view a (move_tree a c t) r = None.
Proof.
  intros Hc. unfold view. rewrite move_tree_lookup, decide_False, decide_True by (done || by eexists). done.
Qed.

Lemma swapped_apart p k :
  p ∈ STAGING_BIN :: swapped → k ∈ [NIX; NIX_SYSTEM; PROFILE; STAGING_DIR] → ¬ p `prefix_of` k.
Proof.
  intros Hp Hk. unfold swapped in Hp. rewrite !elem_of_cons, elem_of_nil in Hp, Hk.
  destruct Hp as [->|[->|[->|[->|[]]]]]; destruct Hk as [->|[->|[->|[->|[]]]]]; closed_path.
Qed.

Lemma swapped_disjoint p q r :
  p ∈ STAGING_BIN :: swapped → q ∈ STAGING_BIN :: swapped → p ≠ q → ¬ p `prefix_of` q ++ r.
Proof.
  intros Hp Hq Hne Hpre.
  apply (prefix_apart q p (q ++ r)); [..|by eexists|done];
    unfold swapped in Hp, Hq; rewrite !elem_of_cons, elem_of_nil in Hp, Hq;
    destruct Hp as [->|[->|[->|[->|[]]]]]; destruct Hq as [->|[->|[->|[->|[]]]]];
    first [done|closed_path].
Qed.

Lemma dirs_ok_move a c t :
  a ∈ STAGING_BIN :: swapped → c ∈ swapped → dirs_ok t → dirs_ok (move_tree a c t).
Proof.
  intros Ha Hc [H1 H2 H3 H4 H5].
  assert (Hoff : ∀ k, k ∈ [NIX; NIX_SYSTEM; PROFILE; STAGING_DIR] → move_tree a c t !! k = t !! k).
  { intros k Hk. apply move_off; apply swapped_apart; [done|done|by right|done]. }
  constructor; unfold is_dir_node, not_link in *.
  - rewrite Hoff; [done|left].
  - rewrite Hoff; [done|right; left].
  - rewrite Hoff; [done|do 2 right; left].
  - intros target. rewrite Hoff; [done|do 3 right; left].
  - intros target. rewrite move_tree_lookup, decide_False.
    + by case_decide.
    + rewrite <- (app_nil_r STAGING_BIN). apply swapped_disjoint; [by right|left|].
      intros ->. revert Hc. unfold swapped. rewrite !elem_of_cons, elem_of_nil. by intros [|[|[|[]]]].
Qed.

(** The new profile is complete beside the old one. *)
Definition prepared (base : tree) (old fresh : path → option node) (t : tree) : Prop :=
  building base old t ∧ same_view (view BIN_NEW t) fresh.

(** The old profile is complete beside the place of the profile, where nothing is. *)
Definition aside (old : path → option node) (t : tree) : Prop :=
  absent SYSTEM_PROFILE_BIN t ∧ same_view (view BIN_OLD t) old.

(** The profile is the old one, the new one, or, between the two renames, not there. *)
Definition swapping (old fresh : path → option node) (t : tree) : Prop :=
  same_view (view SYSTEM_PROFILE_BIN t) old ∨ same_view (view SYSTEM_PROFILE_BIN t) fresh ∨ aside old t.

Lemma prepare base old t :
  building base old t → prepared base old (view STAGING_BIN t) (move_tree STAGING_BIN BIN_NEW t).
Proof.
  intros (Hd & Hv & Ho). split; [split_and!|apply move_view].
  - apply dirs_ok_move; [left|right; left|done].
  - intros r. unfold view. rewrite move_off; [apply Hv|..];
      apply swapped_disjoint; first [left | right; left | do 2 right; left | by unfold swapped; set_solver | done].
  - intros k Hk. rewrite move_off; [by apply Ho|..]; intros Hp; apply Hk; (etrans; [|exact Hp]); closed_path.
Qed.

Lemma stays_make_profile base old fresh : stays (prepared base old fresh) (create_dir_all PROFILE).
Proof.
  apply stays_create_dir_all.
  - intros t q [[Hd _] _] Hq Ha. eapply plain_prefix; [|done|exact Hq]. apply scratch_plain; [done|left].
  - by exists ["nix"; "system"; "profile"].
  - intros t q m [([[m1 H1] [m2 H2] [m3 H3] _ _] & _) _] [k Hk] [ns ->] Hr Hn. exfalso.
    change PROFILE with (RootDir :: (Normal <$> ["nix"; "system"; "profile"])) in *.
    destruct ns as [|n1 [|n2 [|n3 ns]]]; simpl in Hk; simplify_eq.
    + by change NIX with (RootDir :: (Normal <$> ["nix"])) in H1; rewrite H1 in Hn.
    + by change NIX_SYSTEM with (RootDir :: (Normal <$> ["nix"; "system"])) in H2; rewrite H2 in Hn.
    + destruct ns; [|done]. by rewrite H3 in Hn.
Qed.

Lemma stays_chmod_profile base old fresh mode : stays (prepared base old fresh) (set_permissions PROFILE mode).
Proof.
  apply stays_set_permissions.
  - intros t [[Hd _] _]. split; [apply scratch_plain; [done|left]|]. apply dir_not_link, Hd.
  - intros t t' [([H1 H2 [m3 H3] H4 H5] & Hv & Ho) Hf] Hk Hc.
    assert (Hp : dir_at t' PROFILE).
    { destruct Hc as [(c & m & Hc & _)|(m & _ & [Hc|Hc])]; [congruence| |].
      - exists m3. by rewrite Hc.
      - by exists mode. }
    unfold is_dir_node, not_link in *.
    split; [split_and!; [constructor|..]|]; unfold is_dir_node, not_link; rewrite ?Hk by closed_path; try done.
    + intros r. unfold view. rewrite Hk; [apply Hv|]. intros Heq.
      apply (f_equal length) in Heq. rewrite length_app in Heq. vm_compute in Heq. lia.
    + intros k Hk'. rewrite Hk; [by apply Ho|]. intros ->. apply Hk'. closed_path.
    + intros r. unfold view. rewrite Hk; [apply Hf|]. intros Heq.
      apply (f_equal length) in Heq. rewrite length_app in Heq. vm_compute in Heq. lia.
Qed.

(** ** The swap *)
Lemma same_view_trans v1 v2 v3 : same_view v1 v2 → same_view v2 v3 → same_view v1 v3.
Proof. intros H1 H2 r. by rewrite H1. Qed.

Lemma prepared_swapping base old fresh t : prepared base old fresh t → swapping old fresh t.
Proof. intros [(_ & Hv & _) _]. by left. Qed.

(** A clean-up away from the old profile leaves it. *)
Lemma shrinks_old p t t' :
  p ∈ scratch → p ≠ BIN_OLD → shrinks p t t' → same_view (view BIN_OLD t') (view BIN_OLD t).
Proof.
  intros Hp Hne [Hs _] r. apply Hs. intros Hpre. apply (prefix_apart BIN_OLD p (BIN_OLD ++ r)); [..|by eexists|done];
    unfold scratch in Hp; rewrite !elem_of_cons, elem_of_nil in Hp; destruct Hp as [->|[->|[->|[->|[]]]]];
    first [done|closed_path].
Qed.

(** Keeping the profile through a clean-up: of the old profile only where the new one is *)
Lemma cleanup_run old fresh p s r s' :
  p ∈ scratch → p ≠ BIN_OLD ∨ same_view (view SYSTEM_PROFILE_BIN (fs_tree s)) fresh →
  swapping old fresh (fs_tree s) → dirs_ok (fs_tree s) → cleanup_path p s = (r, s') →
  run_in (swapping old fresh) s s' ∧ dirs_ok (fs_tree s')
  ∧ same_view (view SYSTEM_PROFILE_BIN (fs_tree s')) (view SYSTEM_PROFILE_BIN (fs_tree s))
  ∧ (p ≠ BIN_OLD → same_view (view BIN_OLD (fs_tree s')) (view BIN_OLD (fs_tree s))).
Proof.
  intros Hp Hor Hs Hd H. set (v := view SYSTEM_PROFILE_BIN (fs_tree s)). set (w := view BIN_OLD (fs_tree s)).
  set (I := λ t, building (fs_tree s) v t ∧ (p ≠ BIN_OLD → same_view (view BIN_OLD t) w)).
  assert (HI : I (fs_tree s)) by (split; [split; [done|split; intros q; done]|by intros _ q]).
  assert (Hrun : run_in I s s').
  { revert H. apply stays_cleanup; [| |done].
    - intros t [[Hd' _] _]. apply scratch_plain; [done|]. unfold scratch in Hp. set_solver.
    - intros t t' [Hb Ho] Hsh. split; [by eapply building_shrinks|]. intros Hne.
      eapply same_view_trans; [by eapply shrinks_old|by apply Ho]. }
  pose proof (run_in_last _ _ _ Hrun HI) as [(? & ? & _) ?].
  split; [|done]. eapply run_in_mono; [|exact Hrun]. intros t [(_ & Hv & _) Ho].
  destruct Hor as [Hne|Hf]; [|right; left; by eapply same_view_trans].
  destruct Hs as [Hs|[Hs|[Hs1 Hs2]]]; [left|right; left|right; right].
  - by eapply same_view_trans.
  - by eapply same_view_trans.
  - split; [intros q; rewrite Hv; apply Hs1|]. eapply same_view_trans; [by apply Ho|done].
Qed.

(** A clean-up always returns. *)
Lemma cleanup_ok p s : (cleanup_path p s).1 = Ok tt.
Proof.
  unfold cleanup_path, mbind, F_bind, SR_bind, get_tree, ignore, catch. simpl.
  destruct (is_dir (fs_tree s) p); [by destruct (remove_dir_all p s) as [[[]|] ]|].
  destruct (_ || _); [by destruct (remove_file p s) as [[[]|] ]|done].
Qed.

(** Two clean-ups, then [m], which does not touch the disk *)
Lemma cleanups_run {A : Type} old fresh p q (x : result io_error A) s r s' :
  p ∈ scratch → q ∈ scratch → q ≠ BIN_OLD →
  p ≠ BIN_OLD ∨ same_view (view SYSTEM_PROFILE_BIN (fs_tree s)) fresh →
  swapping old fresh (fs_tree s) → dirs_ok (fs_tree s) →
  (cleanup_path p ;; cleanup_path q ;; lift x) s = (r, s') →
  r = x ∧ run_in (swapping old fresh) s s'
  ∧ same_view (view SYSTEM_PROFILE_BIN (fs_tree s')) (view SYSTEM_PROFILE_BIN (fs_tree s))
  ∧ (p ≠ BIN_OLD → same_view (view BIN_OLD (fs_tree s')) (view BIN_OLD (fs_tree s))).
Proof.
  intros Hp Hq Hqo Hor Hs Hd. unfold mbind, F_bind, SR_bind.
  pose proof (cleanup_ok p s) as Hok1. destruct (cleanup_path p s) as [r1 s1] eqn:E1. simpl in Hok1. subst.
  destruct (cleanup_run _ _ _ _ _ _ Hp Hor Hs Hd E1) as (R1 & D1 & V1 & O1).
  pose proof (cleanup_ok q s1) as Hok2. destruct (cleanup_path q s1) as [r2 s2] eqn:E2. simpl in Hok2. subst.
  destruct (cleanup_run _ _ _ _ _ _ Hq (or_introl Hqo) (run_in_last _ _ _ R1 Hs) D1 E2) as (R2 & _ & V2 & O2).
  intros [= <- <-]. split; [done|]. split; [by eapply run_in_trans|]. split; [by eapply same_view_trans|].
  intros Hne. eapply same_view_trans; [by apply O2|by apply O1].
Qed.

Lemma bin_disjoint_old r : ¬ BIN_OLD `prefix_of` SYSTEM_PROFILE_BIN ++ r.
Proof. apply swapped_disjoint; [do 3 right; left|right; left|done]. Qed.
Lemma bin_disjoint_new r : ¬ BIN_NEW `prefix_of` SYSTEM_PROFILE_BIN ++ r.
Proof. apply swapped_disjoint; [do 2 right; left|right; left|done]. Qed.

(** Moving the old profile aside *)
Lemma move_aside base old fresh t :
  prepared base old fresh t →
  let t' := move_tree SYSTEM_PROFILE_BIN BIN_OLD t in
  dirs_ok t' ∧ absent SYSTEM_PROFILE_BIN t' ∧ same_view (view BIN_NEW t') fresh
  ∧ same_view (view BIN_OLD t') old.
Proof.
  intros [(Hd & Hv & _) Hf] t'. split_and!.
  - apply dirs_ok_move; [right; left|do 2 right; left|done].
  - intros r. apply move_gone, bin_disjoint_old.
  - intros r. unfold view, t'. rewrite move_off; [apply Hf|apply swapped_disjoint..];
      first [left | right; left | do 2 right; left | do 3 right; left | done].
  - eapply same_view_trans; [apply move_view|done].
Qed.

(** Moving the new profile in place *)
Lemma move_in t :
  dirs_ok t →
  let t' := move_tree BIN_NEW SYSTEM_PROFILE_BIN t in
  dirs_ok t' ∧ same_view (view SYSTEM_PROFILE_BIN t') (view BIN_NEW t).
Proof. intros Hd t'. split; [apply dirs_ok_move; [do 2 right; left|left|done]|apply move_view]. Qed.

Definition swap_result (old fresh : path → option node) (count : Z) (r : result io_error Z) (t : tree) : Prop :=
  match r with
  | Ok n => n = count ∧ same_view (view SYSTEM_PROFILE_BIN t) fresh
  | Err _ => same_view (view SYSTEM_PROFILE_BIN t) old
             ∨ (is_Some (fs_fault OpRename BIN_OLD) ∧ aside old t)
  end.

Lemma swap_result_view old fresh count r t t' :
  same_view (view SYSTEM_PROFILE_BIN t') (view SYSTEM_PROFILE_BIN t) →
  same_view (view BIN_OLD t') (view BIN_OLD t) →
  swap_result old fresh count r t → swap_result old fresh count r t'.
Proof.
  intros Hv Ho. destruct r as [n|e]; simpl.
  - intros [-> H]. split; [done|]. by eapply same_view_trans.
  - intros [H|(Hf & H1 & H2)]; [left; by eapply same_view_trans|right]. split; [done|].
    split; [intros r; by rewrite Hv|by eapply same_view_trans].
Qed.

(** What the last rename starts from: with or without an old profile moved aside *)
Definition swap_ready (old fresh : path → option node) (had_old : bool) (t : tree) : Prop :=
  dirs_ok t ∧ same_view (view BIN_NEW t) fresh ∧
  if had_old then
    aside old t ∧ is_Some (t !! BIN_OLD)
    ∧ resolve t false BIN_OLD = Ok BIN_OLD ∧ resolve t false SYSTEM_PROFILE_BIN = Ok SYSTEM_PROFILE_BIN
  else same_view (view SYSTEM_PROFILE_BIN t) old.

(** The new profile gets its place, and the leftovers go. *)
Lemma swap_finish_ok old fresh (count : Z) (had_old : bool) s r s' :
  dirs_ok (fs_tree s) → same_view (view SYSTEM_PROFILE_BIN (fs_tree s)) fresh →
  ((if had_old then cleanup_path BIN_OLD else mret tt) ;; cleanup_path STAGING_DIR ;; mret count) s = (r, s') →
  run_in (swapping old fresh) s s' ∧ swap_result old fresh count r (fs_tree s').
Proof.
  intros Hd Hv H. assert (Hs : swapping old fresh (fs_tree s)) by (right; by left).
  assert (Hc : r = Ok count ∧ run_in (swapping old fresh) s s'
    ∧ same_view (view SYSTEM_PROFILE_BIN (fs_tree s')) (view SYSTEM_PROFILE_BIN (fs_tree s))).
  { destruct had_old.
    - apply (cleanups_run old fresh BIN_OLD STAGING_DIR (Ok count)) in H as (? & ? & ? & _);
        [done|do 2 right; left|do 3 right; left|done|by right|done|done].
    - unfold mbind, F_bind, SR_bind in H. simpl in H.
      pose proof (cleanup_ok STAGING_DIR s) as Hok.
      destruct (cleanup_path STAGING_DIR s) as [r1 s1] eqn:E1. simpl in Hok. subst.
      destruct (cleanup_run old fresh STAGING_DIR s _ _ ltac:(do 3 right; left) ltac:(by left) Hs Hd E1) as (R & _ & V & _).
      injection H as <- <-. done. }
  destruct Hc as (-> & Hrun & Hview). split; [done|]. split; [done|]. by eapply same_view_trans.
Qed.

(** The last rename failed: the old profile is put back. *)
Lemma swap_back old fresh count (had_old : bool) e s r s' :
  swap_ready old fresh had_old (fs_tree s) →
  ((if had_old then ignore (rename BIN_OLD SYSTEM_PROFILE_BIN) else mret tt) ;;
   cleanup_path BIN_NEW ;; cleanup_path STAGING_DIR ;; fail e) s = (r, s') →
  ∃ s1, (cleanup_path BIN_NEW ;; cleanup_path STAGING_DIR ;; lift (@Err io_error Z e)) s1 = (r, s')
    ∧ run_in (swapping old fresh) s s1 ∧ dirs_ok (fs_tree s1)
    ∧ swap_result old fresh count (Err e) (fs_tree s1).
Proof.
  intros (Hd & _ & Hcase) H.
  destruct had_old; [|exists s; split; [exact H|]; split; [apply run_in_refl|]; split; [done|by left]].
  unfold mbind at 1, F_bind at 1, SR_bind at 1 in H. unfold ignore, catch in H.
  destruct Hcase as ([Habs Hold] & Hsome & Hra & Hrb).
  destruct (fs_fault OpRename BIN_OLD) as [f|] eqn:Ef.
  - assert (Hren : rename BIN_OLD SYSTEM_PROFILE_BIN s = (Err f, s)) by
      (unfold rename, check_fault, mbind, F_bind, SR_bind; by rewrite Ef).
    rewrite Hren in H. exists s. split; [exact H|]. split; [apply run_in_refl|]. split; [done|].
    right. rewrite Ef. split; [by eexists|done].
  - assert (Hnone : fs_tree s !! SYSTEM_PROFILE_BIN = None).
    { specialize (Habs []). unfold view in Habs. by rewrite app_nil_r in Habs. }
    rewrite rename_succeeds in H by (done || closed_path).
    eexists. split; [exact H|].
    assert (Hv : same_view (view SYSTEM_PROFILE_BIN (move_tree BIN_OLD SYSTEM_PROFILE_BIN (fs_tree s))) old)
      by (eapply same_view_trans; [apply move_view|done]).
    split; [apply run_in_push; by left|]. split; [|by left].
    apply dirs_ok_move; [do 3 right; left|left|done].
Qed.

Lemma swap_finish_err old fresh count (had_old : bool) e s r s' :
  swap_ready old fresh had_old (fs_tree s) →
  ((if had_old then ignore (rename BIN_OLD SYSTEM_PROFILE_BIN) else mret tt) ;;
   cleanup_path BIN_NEW ;; cleanup_path STAGING_DIR ;; fail e) s = (r, s') →
  run_in (swapping old fresh) s s' ∧ swap_result old fresh count r (fs_tree s').
Proof.
  intros Hr H. apply (swap_back _ _ count _ _ _ _ _ Hr) in H as (s1 & H1 & R1 & D1 & V1).
  assert (S1 : swapping old fresh (fs_tree s1)).
  { destruct V1 as [V1|[_ V1]]; [by left|by do 2 right]. }
  apply (cleanups_run old fresh) in H1 as (-> & R2 & V2 & O2);
    [|right; left|do 3 right; left|done|by left|done|done].
  split; [by eapply run_in_trans|]. eapply swap_result_view; [exact V2|by apply O2|done].
Qed.

Lemma swap_tail old fresh count (had_old : bool) s r s' :
  swap_ready old fresh had_old (fs_tree s) →
  (swapped ← attempt (rename BIN_NEW SYSTEM_PROFILE_BIN);
   match swapped with
   | Ok _ => (if had_old then cleanup_path BIN_OLD else mret tt) ;; cleanup_path STAGING_DIR ;; mret count
   | Err e => (if had_old then ignore (rename BIN_OLD SYSTEM_PROFILE_BIN) else mret tt) ;;
              cleanup_path BIN_NEW ;; cleanup_path STAGING_DIR ;; fail e
   end) s = (r, s') →
  run_in (swapping old fresh) s s' ∧ swap_result old fresh count r (fs_tree s').
Proof.
  intros Hr H. pose proof Hr as (Hd & Hnew & _).
  unfold mbind at 1, F_bind at 1, SR_bind at 1, attempt in H.
  destruct (rename BIN_NEW SYSTEM_PROFILE_BIN s) as [r1 s1] eqn:E1.
  apply rename_inv in E1 as [[-> [e ->]]|(-> & _ & _ & -> & _)];
    [|..|apply scratch_plain; [done|do 2 right; left]|apply scratch_plain; [done|right; left]|closed_path].
  - by eapply swap_finish_err.
  - destruct (move_in _ Hd) as [Hd1 Hv1].
    assert (Hv2 : same_view (view SYSTEM_PROFILE_BIN (move_tree BIN_NEW SYSTEM_PROFILE_BIN (fs_tree s))) fresh)
      by (by eapply same_view_trans).
    apply (swap_finish_ok old fresh) in H as [R V]; [|done|done]. split; [|done].
    eapply run_in_trans; [apply run_in_push|exact R]. right. by left.
Qed.

(** The old profile moved aside, from a complete new profile *)
Lemma move_aside_ready base old fresh s s1 r :
  prepared base old fresh (fs_tree s) → rename SYSTEM_PROFILE_BIN BIN_OLD s = (r, s1) →
  (s1 = s ∧ ∃ e, r = Err e) ∨ (r = Ok tt ∧ swap_ready old fresh true (fs_tree s1)
                               ∧ run_in (swapping old fresh) s s1).
Proof.
  intros Hp H. pose proof Hp as [(Hd & Hv & _) _].
  apply rename_inv in H as [H|(-> & Hsome & _ & -> & Hra & Hrb)];
    [by left|..|apply scratch_plain; [done|right; left]|apply scratch_plain; [done|do 3 right; left]|closed_path].
  right. split; [done|]. destruct (move_aside _ _ _ _ Hp) as (Hd1 & Habs & Hf1 & Hold1).
  assert (Hdirs : Forall (dir_at (move_tree SYSTEM_PROFILE_BIN BIN_OLD (fs_tree s)))
    [NIX; NIX_SYSTEM; PROFILE]) by (destruct Hd1; repeat constructor; done).
  split; [|apply run_in_push; by do 2 right]. split_and!; try done.
  - destruct Hsome as [n Hn]. exists n. specialize (Hold1 []). unfold view in Hold1.
    specialize (Hv []). unfold view in Hv. rewrite app_nil_r in Hold1, Hv. simpl. congruence.
  - eapply resolve_again; [exact Hrb|by exists ["nix"; "system"; "profile"; "bin.old"]|exact Hdirs].
  - eapply resolve_again; [exact Hra|by exists ["nix"; "system"; "profile"; "bin"]|exact Hdirs].
Qed.

Lemma ignore_ok (m : F unit) s r s' : ignore m s = (r, s') → r = Ok tt.
Proof. unfold ignore, catch. destruct (m s) as [[[]|e] s1]; by intros [= <- _]. Qed.

(** The whole of the swap *)
Lemma swap_spec base old fresh count s r s' :
  prepared base old fresh (fs_tree s) →
  swap_profile SYSTEM_PROFILE_BIN BIN_NEW BIN_OLD count s = (r, s') →
  run_in (swapping old fresh) s s' ∧ swap_result old fresh count r (fs_tree s').
Proof.
  intros Hp H. unfold swap_profile in H. unfold mbind at 1, F_bind at 1, SR_bind at 1, get_tree at 1 in H.
  destruct (_ || _).
  2:{ apply (swap_tail old fresh count false s r s'); [|exact H]. destruct Hp as [(Hd & Hv & _) Hf]. by split_and!. }
  unfold mbind at 1, F_bind at 1, SR_bind at 1 in H. unfold mbind at 1, F_bind at 1, SR_bind at 1 in H.
  change (default SYSTEM_PROFILE_BIN (Path.parent SYSTEM_PROFILE_BIN)) with PROFILE in H.
  destruct (ignore (set_permissions PROFILE 493) s) as [r0 s0] eqn:E0.
  pose proof (ignore_ok _ _ _ _ E0) as ->.
  pose proof (stays_ignore _ _ (stays_chmod_profile base old fresh 493) _ _ _ Hp E0) as R0.
  pose proof (run_in_last _ _ _ R0 Hp) as Hp0.
  apply (run_in_mono _ _ _ _ (prepared_swapping base old fresh)) in R0.
  unfold mbind at 1, F_bind at 1, SR_bind at 1 in H.
  destruct (rename SYSTEM_PROFILE_BIN BIN_OLD s0) as [r1 s1] eqn:E1.
  apply (move_aside_ready _ _ _ _ _ _ Hp0) in E1 as [[-> [e ->]]|(-> & Hready & R1)].
  - injection H as <- <-. split; [done|]. left. apply Hp0.
  - apply (swap_tail old fresh count true) in H as [R V]; [|done]. split; [|done].
    eapply run_in_trans; [exact R0|]. by eapply run_in_trans.
Qed.

(** The steps before the first rename leave the profile alone. *)
Definition setup (packages : list Package) : F Z :=
  cleanup_path STAGING_BIN ;; cleanup_path BIN_NEW ;; cleanup_path BIN_OLD ;;
  create_dir_all STAGING_BIN ;; populate_profile_dir STAGING_BIN packages 0.

Lemma stays_setup base v packages : stays (building base v) (setup packages).
Proof.
  unfold setup.
  apply stays_bind; [apply stays_cleanup_scratch; left|intros _].
  apply stays_bind; [apply stays_cleanup_scratch; right; left|intros _].
  apply stays_bind; [apply stays_cleanup_scratch; do 2 right; left|intros _].
  apply stays_bind; [apply stays_make_staging|intros _]. apply stays_populate.
Qed.

Lemma F_seq_assoc {A B : Type} (m1 m2 m3 m4 : F unit) (m : F A) (k : A → F B) s :
  (m1 ;; m2 ;; m3 ;; m4 ;; a ← m; k a) s = (a ← (m1 ;; m2 ;; m3 ;; m4 ;; m); k a) s.
Proof.
  unfold mbind, F_bind, SR_bind. destruct (m1 s) as [[[]|] s1]; [|done].
  destruct (m2 s1) as [[[]|] s2]; [|done]. destruct (m3 s2) as [[[]|] s3]; [|done].
  by destruct (m4 s3) as [[[]|] s4].
Qed.

Lemma profile_parent : default [] (Path.parent SYSTEM_PROFILE_BIN) = PROFILE.
Proof. vm_compute. reflexivity. Qed.

Lemma atomic_profile_swap_setup packages s :
  atomic_profile_swap packages s =
  (count ← setup packages;
   rename STAGING_BIN BIN_NEW ;; create_dir_all PROFILE ;;
   swap_profile SYSTEM_PROFILE_BIN BIN_NEW BIN_OLD count) s.
Proof.
  unfold atomic_profile_swap. rewrite profile_parent. unfold setup.
  apply F_seq_assoc.
Qed.

(** What populated the staging directory *)
Lemma setup_populated base v packages s count s' :
  building base v (fs_tree s) → setup packages s = (Ok count, s') →
  ∃ s1, building base v (fs_tree s1) ∧ populate_profile_dir STAGING_BIN packages 0 s1 = (Ok count, s').
Proof.
  intros Hb H. unfold setup in H.
  assert (Hstep : ∀ (m : F unit) {A : Type} (k : F A) s x s',
    building base v (fs_tree s) → stays (building base v) m → (m ;; k) s = (Ok x, s') →
    ∃ s1, building base v (fs_tree s1) ∧ k s1 = (Ok x, s')).
  { intros m A k s0 x s0' Hb0 Hm H0.
    apply (sr_bind_ok (S := fsys) (E := io_error)) in H0 as ([] & s1 & H1 & H2). exists s1. split; [|done].
    eapply run_in_last; [by eapply Hm|done]. }
  apply Hstep in H as (s1 & Hb1 & H); [|done|apply stays_cleanup_scratch; left].
  apply Hstep in H as (s2 & Hb2 & H); [|done|apply stays_cleanup_scratch; right; left].
  apply Hstep in H as (s3 & Hb3 & H); [|done|apply stays_cleanup_scratch; do 2 right; left].
  apply Hstep in H as (s4 & Hb4 & H); [|done|apply stays_make_staging]. eauto.
Qed.

(** The run of a swap: what the profile is at each moment and at the end, and what
    populated the new one *)
Lemma profile_swap_run packages s r s' :
  dirs_ok (fs_tree s) → atomic_profile_swap packages s = (r, s') →
  let old := view SYSTEM_PROFILE_BIN (fs_tree s) in
  ∃ fresh,
    run_in (swapping old fresh) s s'
    ∧ match r with
      | Ok count =>
          same_view (view SYSTEM_PROFILE_BIN (fs_tree s')) fresh
          ∧ ∃ s1 s2, building (fs_tree s) old (fs_tree s1)
              ∧ populate_profile_dir STAGING_BIN packages 0 s1 = (Ok count, s2)
              ∧ same_view fresh (view STAGING_BIN (fs_tree s2))
      | Err _ => same_view (view SYSTEM_PROFILE_BIN (fs_tree s')) old
                 ∨ (is_Some (fs_fault OpRename BIN_OLD) ∧ aside old (fs_tree s'))
      end.
Proof.
  intros Hd H old. rewrite atomic_profile_swap_setup in H.
  assert (Hb : building (fs_tree s) old (fs_tree s)) by (split; [done|split; intros q; done]).
  assert (Hbs : ∀ fresh t, building (fs_tree s) old t → swapping old fresh t) by (intros fresh t (_ & Hv & _); by left).
  unfold mbind at 1, F_bind at 1, SR_bind at 1 in H.
  destruct (setup packages s) as [r1 s1] eqn:E1.
  pose proof (stays_setup _ old packages _ _ _ Hb E1) as R1. pose proof (run_in_last _ _ _ R1 Hb) as Hb1.
  destruct r1 as [count|e].
  2:{ injection H as <- <-. exists old. split; [by eapply run_in_mono; [apply Hbs|]|]. left. apply Hb1. }
  unfold mbind at 1, F_bind at 1, SR_bind at 1 in H.
  destruct (rename STAGING_BIN BIN_NEW s1) as [r2 s2] eqn:E2. pose proof Hb1 as [Hd1 _].
  apply rename_inv in E2 as [[-> [e ->]]|(-> & _ & _ & -> & _)];
    [|..|apply scratch_plain; [done|do 5 right; left]|apply scratch_plain; [done|do 2 right; left]|closed_path].
  { injection H as <- <-. exists old. split; [by eapply run_in_mono; [apply Hbs|]|]. left. apply Hb1. }
  set (fresh := view STAGING_BIN (fs_tree s1)). exists fresh.
  pose proof (prepare _ old (fs_tree s1) Hb1) as Hp2. fold fresh in Hp2.
  assert (R2 : run_in (swapping old fresh) s (push (move_tree STAGING_BIN BIN_NEW (fs_tree s1)) s1)).
  { eapply run_in_trans; [by eapply run_in_mono; [apply Hbs|]|]. by eapply run_in_push, prepared_swapping. }
  unfold mbind at 1, F_bind at 1, SR_bind at 1 in H.
  destruct (create_dir_all PROFILE _) as [r3 s3] eqn:E3.
  pose proof (stays_make_profile _ old fresh (push _ s1) _ _ Hp2 E3) as R3.
  pose proof (run_in_last _ (push _ s1) _ R3 Hp2) as Hp3.
  apply (run_in_mono _ _ _ _ (prepared_swapping (fs_tree s) old fresh)) in R3.
  pose proof (run_in_trans _ _ _ _ R2 R3) as R.
  destruct r3 as [[]|e]; [|injection H as <- <-; split; [done|]; left; apply Hp3].
  destruct (swap_spec _ old fresh _ _ _ _ Hp3 H) as [R4 V4]. split; [by eapply run_in_trans|].
  destruct r as [n|e]; [|exact V4]. destruct V4 as [-> V4]. split; [done|].
  destruct (setup_populated _ _ _ _ _ _ Hb E1) as (s0 & Hb0 & E0). exists s0, s1.
  split; [done|]. split; [done|]. intros q. done.
Qed.

End swap.

(** C9. The profile swap is atomic up to one rename.  When the profile's directories are
    in place, then in every tree the disk goes through, whatever call fails,
    [/nix/system/profile/bin] is the complete old profile, the complete new one, or, while
    the old one lies complete in [bin.old], not there; it is never half-built.  If the swap
    returns, the profile is exactly what [populate_profile_dir] put into the staging
    directory; if it fails, the profile is the old one again, or, when the rename that puts
    it back was refused, the old one is still complete in [bin.old]. *)
Theorem profile_swap_atomic `{FL : FsLimits} packages s r s' :
  dirs_ok (fs_tree s) → atomic_profile_swap packages s = (r, s') →
  let old := view SYSTEM_PROFILE_BIN (fs_tree s) in
  ∃ fresh,
    run_in (swapping old fresh) s s'
    ∧ match r with
      | Ok count =>
          same_view (view SYSTEM_PROFILE_BIN (fs_tree s')) fresh
          ∧ ∃ s1 s2, populate_profile_dir STAGING_BIN packages 0 s1 = (Ok count, s2)
              ∧ same_view fresh (view STAGING_BIN (fs_tree s2))
      | Err _ => same_view (view SYSTEM_PROFILE_BIN (fs_tree s')) old
                 ∨ (is_Some (fs_fault OpRename BIN_OLD) ∧ aside old (fs_tree s'))
      end.
Proof.
  intros Hd H old. destruct (profile_swap_run _ _ _ _ Hd H) as (fresh & Hrun & Hres).
  exists fresh. split; [done|]. destruct r as [count|e]; [|done].
  destruct Hres as (Hv & s1 & s2 & _ & Hp & Hf). eauto.
Qed.
