(* ===== verification/ProfileContents.v ===== *)
(** * What a profile contains

    The links that [populate_profile_dir] makes, and what the profile holds after a swap:
    one link for each binary, to the last package that provides it. *)

From S2P Require Import Prelude RustStd FileSys FileSysFacts Nar PathInfo Store Calendar Manifest Generations TopoSort Activate ManifestInstances ProfileSwap.

Open Scope Z_scope.

Section contents.
Context `{FL : FsLimits}.

(** ** Packages *)

(** Packages live in the store, behind no link. *)
Definition NIX_STORE : path := Eval vm_compute in abs "/nix/store".

Definition package_ok (t : tree) (pkg : Package) : Prop :=
  pkg_store_path pkg = "" ∨
  let b := bin_of (pkg_store_path pkg) in
  NIX_STORE `prefix_of` b ∧ plain t b ∧ not_link t b.

(** The binaries a package provides *)
Definition binaries (t : tree) (pkg : Package) : list string :=
  if decide (pkg_store_path pkg = "") then []
  else if is_dir t (bin_of (pkg_store_path pkg)) then
    match read_dir t (bin_of (pkg_store_path pkg)) with
    | Ok es => (filter (λ e, is_file_node e.2 = true) es).*1
    | Err _ => []
    end
  else [].

Lemma store_outside b k : NIX_STORE `prefix_of` b → b `prefix_of` k → ¬ NIX_SYSTEM `prefix_of` k.
Proof. intros Hb Hk. apply (prefix_apart NIX_STORE); [closed_path|closed_path|]. by etrans. Qed.

Lemma prefix_outside b q : NIX_STORE `prefix_of` b → q `prefix_of` b → ¬ NIX_SYSTEM `prefix_of` q.
Proof. intros Hb Hq Hs. apply (store_outside b b Hb); [done|by etrans]. Qed.

Lemma package_agree base t pkg :
  outside base t → package_ok base pkg → pkg_store_path pkg ≠ "" →
  is_dir t (bin_of (pkg_store_path pkg)) = is_dir base (bin_of (pkg_store_path pkg))
  ∧ read_dir t (bin_of (pkg_store_path pkg)) = read_dir base (bin_of (pkg_store_path pkg)).
Proof.
  intros Ho [|(Hst & [Ha Hp] & Hl)]; [done|]. intros _. set (b := bin_of _) in *.
  assert (Hag : ∀ q, q `prefix_of` b → t !! q = base !! q) by (intros q Hq; by eapply Ho, prefix_outside).
  assert (Hr : ∀ follow, resolve t follow b = resolve base follow b).
  { intros follow. apply resolve_agree; [done|done|]. intros q Hq Hlq.
    destruct (decide (q = b)) as [->|Hne]; [done|]. intros target. by apply Hp. }
  assert (Hn : ∀ follow x, resolve base follow b = Ok x → node_at t x = node_at base x).
  { intros follow x Hx. destruct (resolve_plain base follow b ltac:(done) ltac:(done)) as [Hx'|[e Hx']];
      rewrite Hx' in Hx; [injection Hx as <-|done]. unfold node_at. case_decide; [done|]. by apply Hag. }
  split.
  - unfold is_dir, metadata, stat_with. destruct (fs_fault OpStat b); [done|]. rewrite Hr.
    destruct (resolve base true b) as [x|] eqn:E; [|done]. simpl. by rewrite (Hn _ _ E).
  - unfold read_dir. destruct (fs_fault OpReadDir b); [done|]. rewrite Hr.
    destruct (resolve_plain base true b ltac:(done) ltac:(done)) as [E|[e E]]; rewrite E; [|done].
    simpl. rewrite (Hn _ _ E). destruct (node_at base b) as [[]|]; try done. f_equal.
    apply children_agree. intros n. apply Ho. apply (store_outside b); [done|by eexists].
Qed.

(** ** The links *)
Definition link_of (pkg : Package) (n : string) : node :=
  Link (Path.to_string (Path.join (bin_of (pkg_store_path pkg)) [Normal n])).

Lemma link_binary_ok s pkg_bin name s' :
  plain (fs_tree s) (STAGING_BIN ++ [Normal name]) →
  link_binary STAGING_BIN pkg_bin name s = (Ok tt, s') →
  fs_tree s' !! (STAGING_BIN ++ [Normal name]) = Some (Link (Path.to_string (Path.join pkg_bin [Normal name])))
  ∧ ∀ k, k ≠ STAGING_BIN ++ [Normal name] → fs_tree s' !! k = fs_tree s !! k.
Proof.
  intros Hp H. unfold link_binary in H. rewrite join_bin in H.
  set (link := STAGING_BIN ++ [Normal name]) in *.
  unfold mbind at 1, F_bind at 1, SR_bind at 1, get_tree in H. simpl in H.
  apply (sr_bind_ok (S := fsys) (E := io_error)) in H as ([] & s1 & H1 & H2).
  assert (Hs1 : plain (fs_tree s1) link ∧ ∀ k, k ≠ link → fs_tree s1 !! k = fs_tree s !! k).
  { destruct (is_ok _); [|injection H1 as <-; done].
    apply remove_file_inv in H1 as [[-> _]|(_ & _ & ->)]; [done| |done]. simpl.
    assert (Hk : ∀ k, k ≠ link → base.delete link (fs_tree s) !! k = fs_tree s !! k)
      by (intros k Hne; by rewrite lookup_delete_ne).
    split; [|done]. eapply plain_agree; [exact Hp|]. intros q _ Hq _ Hl target. rewrite Hk by done. apply Hl. }
  destruct Hs1 as [Hp1 Hk1]. apply symlink_inv in H2 as [[_ [e ?]]|(_ & _ & ->)]; [done| |done]. simpl.
  split; [by rewrite lookup_insert_eq|]. intros k Hk. rewrite lookup_insert_ne by done. by apply Hk1.
Qed.

Lemma wrap32_add_l x y : wrap32 (wrap32 x + y) = wrap32 (x + y).
Proof. unfold wrap32. apply Zplus_mod_idemp_l. Qed.
Lemma wrap32_add_r x y : wrap32 (x + wrap32 y) = wrap32 (x + y).
Proof. unfold wrap32. apply Zplus_mod_idemp_r. Qed.

Lemma wrap32_three x y z : wrap32 (wrap32 (x + y) + z) = wrap32 (x + wrap32 (wrap32 y + z)).
Proof.
  rewrite wrap32_add_l, wrap32_add_r, (Z.add_comm (wrap32 y)), Z.add_assoc, wrap32_add_r.
  f_equal. lia.
Qed.

Lemma staging_inj n m : STAGING_BIN ++ [Normal n] = STAGING_BIN ++ [Normal m] → n = m.
Proof. intros H%app_inv_head. by injection H. Qed.

Definition files_of (es : list (string * node)) : list string := (filter (λ e, is_file_node e.2 = true) es).*1.

Lemma link_binaries_ok base v es pkg_bin count s c s' :
  building base v (fs_tree s) → count = wrap32 count →
  link_binaries STAGING_BIN pkg_bin es count s = (Ok c, s') →
  building base v (fs_tree s') ∧ c = wrap32 (count + Z.of_nat (length (files_of es)))
  ∧ ∀ n, fs_tree s' !! (STAGING_BIN ++ [Normal n])
         = if decide (n ∈ files_of es) then Some (Link (Path.to_string (Path.join pkg_bin [Normal n])))
           else fs_tree s !! (STAGING_BIN ++ [Normal n]).
Proof.
  unfold files_of. revert count s. induction es as [|[name x] es IH]; intros count s Hb Hc H; simpl in H.
  - injection H as -> ->. rewrite Z.add_0_r. split_and!; done.
  - rewrite filter_cons. cbn [snd]. destruct (is_file_node x) eqn:Ex.
    + rewrite decide_True by done. apply (sr_bind_ok (S := fsys) (E := io_error)) in H as ([] & s1 & H1 & H2).
      assert (Hb1 : building base v (fs_tree s1)).
      { eapply run_in_last; [|exact Hb]. eapply stays_link_binary; [exact Hb|exact H1]. }
      apply link_binary_ok in H1 as [Hn Hk]; [|by apply staged_plain; destruct Hb].
      apply IH in H2 as (Hb2 & -> & Hall); [|done|unfold wrap32; by rewrite Z.mod_mod].
      split; [done|]. split.
      { rewrite wrap32_add_l. cbn [fmap list_fmap length fst]. f_equal. rewrite Nat2Z.inj_succ. lia. }
      intros n. rewrite Hall. rewrite fmap_cons. cbn [fst].
      destruct (decide (n ∈ _ :: _)) as [Hin|Hin]; (destruct (decide (n ∈ (filter _ es).*1)) as [Hin'|Hin']; [|]).
      * done.
      * apply elem_of_cons in Hin as [->|]; done.
      * exfalso. apply Hin. by right.
      * apply Hk. intros ->%staging_inj. apply Hin. left.
    + rewrite decide_False by done. by apply IH.
Qed.

Lemma count_wrapped t packages : wrap32 (count_profile_binaries t packages) = count_profile_binaries t packages.
Proof. destruct packages as [|pkg packages]; [done|]. simpl. unfold wrap32 at 1 2. by rewrite Z.mod_mod. Qed.

(** The last package that provides a name *)
Definition provider (t : tree) (packages : list Package) (n : string) : option Package :=
  last (filter (λ pkg, n ∈ binaries t pkg) packages).

Lemma provider_cons t pkg packages n :
  provider t (pkg :: packages) n
  = match provider t packages n with
    | Some p => Some p
    | None => if decide (n ∈ binaries t pkg) then Some pkg else None
    end.
Proof.
  unfold provider. rewrite filter_cons. case_decide; [|by destruct (last _)].
  destruct (filter _ packages) as [|p l]; [done|]. rewrite last_cons_cons.
  by destruct (last (p :: l)) eqn:E; [|apply last_None in E].
Qed.

Lemma populate_ok base v packages count s c s' :
  building base v (fs_tree s) → Forall (package_ok base) packages → count = wrap32 count →
  populate_profile_dir STAGING_BIN packages count s = (Ok c, s') →
  c = wrap32 (count + count_profile_binaries base packages)
  ∧ ∀ n, fs_tree s' !! (STAGING_BIN ++ [Normal n])
         = match provider base packages n with
           | Some pkg => Some (link_of pkg n)
           | None => fs_tree s !! (STAGING_BIN ++ [Normal n])
           end.
Proof.
  intros Hb Hpk Hc H. revert count s Hb Hc H.
  induction Hpk as [|pkg packages Hpkg Hpk IH]; intros count s Hb Hc H; simpl in H.
  { injection H as -> ->. simpl. by rewrite Z.add_0_r. }
  simpl count_profile_binaries.
  assert (Hskip : ∀ s1, building base v (fs_tree s1) →
    (∀ n, fs_tree s1 !! (STAGING_BIN ++ [Normal n]) = fs_tree s !! (STAGING_BIN ++ [Normal n])) →
    binaries base pkg = [] → populate_profile_dir STAGING_BIN packages count s1 = (Ok c, s') →
    c = wrap32 (count + wrap32 (wrap32 0 + count_profile_binaries base packages))
    ∧ ∀ n, fs_tree s' !! (STAGING_BIN ++ [Normal n])
           = match provider base (pkg :: packages) n with
             | Some p => Some (link_of p n)
             | None => fs_tree s !! (STAGING_BIN ++ [Normal n])
             end).
  { intros s1 Hb1 Hs1 Hnone H1. apply IH in H1 as [-> Hall]; [|done|done].
    split; [by rewrite wrap32_add_r|]. intros n. rewrite Hall, provider_cons, Hnone.
    destruct (provider base packages n); [done|]. rewrite decide_False by set_solver. apply Hs1. }
  destruct (decide (pkg_store_path pkg = "")) as [He|He].
  { apply (Hskip s); [done|done| |done]. unfold binaries. by rewrite decide_True. }
  destruct Hb as (Hd & Hv & Ho). destruct (package_agree _ _ _ Ho Hpkg He) as [Hdir Hread].
  unfold mbind at 1, F_bind at 1, SR_bind at 1, get_tree in H. simpl in H. rewrite Hdir in H.
  destruct (is_dir base _) eqn:Ed.
  2:{ apply (Hskip s); [done|done| |done]. unfold binaries. by rewrite decide_False, Ed. }
  unfold mbind at 1, F_bind at 1, SR_bind at 1, lift in H. rewrite Hread in H.
  destruct (read_dir base _) as [es|e] eqn:Er; [|done].
  apply (sr_bind_ok (S := fsys) (E := io_error)) in H as (c1 & s1 & H1 & H2).
  apply (link_binaries_ok base v) in H1 as (Hb1 & -> & Hall1); [|by split_and!|done].
  apply IH in H2 as [-> Hall2]; [|done|unfold wrap32; by rewrite Z.mod_mod].
  assert (Hbin : binaries base pkg = files_of es) by (unfold binaries; by rewrite decide_False, Ed, Er).
  split; [rewrite wrap32_three; unfold files_of; by rewrite length_fmap|].
  intros n. rewrite Hall2, provider_cons, Hbin, Hall1.
  destruct (provider base packages n); [done|]. by case_decide.
Qed.

End contents.

(** What a profile contains after a swap.  When the packages are in the store behind
    no link, a swap that returns reports the number of binaries the activation plan
    announced, and the profile has, for every binary name that some package provides, a
    link to it in the last package of the list that provides it. *)
Theorem profile_contents `{FL : FsLimits} packages s count s' :
  dirs_ok (fs_tree s) → Forall (package_ok (fs_tree s)) packages →
  atomic_profile_swap packages s = (Ok count, s') →
  count = count_profile_binaries (fs_tree s) packages
  ∧ ∀ n pkg, provider (fs_tree s) packages n = Some pkg →
      fs_tree s' !! (SYSTEM_PROFILE_BIN ++ [Normal n]) = Some (link_of pkg n).
Proof.
  intros Hd Hp H. destruct (profile_swap_run _ _ _ _ Hd H) as (fresh & _ & Hv & s1 & s2 & Hb & Hpop & Hf).
  apply (populate_ok _ _ _ _ _ _ _ Hb Hp) in Hpop as [-> Hall]; [|done].
  split; [by rewrite Z.add_0_l, count_wrapped|]. intros n pkg Hn. specialize (Hv [Normal n]). specialize (Hf [Normal n]). unfold view in Hv, Hf.
  rewrite Hv, Hf, Hall, Hn. done.
Qed.

Module ProfileDemo.

Definition app : Package := mkPackage "app" "1.0" "/nix/store/a-app".
Definition old_link : node := Link "/nix/store/o-old/bin/old".

Definition tree0 : tree :=
  list_to_map [(abs "/nix", Dir 493); (abs "/nix/system", Dir 493); (abs "/nix/system/profile", Dir 365);
    (abs "/nix/system/profile/bin", Dir 493); (abs "/nix/system/profile/bin/old", old_link);
    (abs "/nix/store", Dir 493); (abs "/nix/store/a-app", Dir 365); (abs "/nix/store/a-app/bin", Dir 365);
    (abs "/nix/store/a-app/bin/hello", File "code" 365)].

Definition disk0 : fsys := mkFsys tree0 [].

Lemma dirs0 : dirs_ok tree0.
Proof.
  constructor; try (eexists; vm_compute; reflexivity); intros target; vm_compute; discriminate.
Defined.

Definition done_swap := atomic_profile_swap [app] disk0.

Lemma profile_swap_atomic_witness :
  ∃ fresh, run_in (swapping (view SYSTEM_PROFILE_BIN tree0) fresh) disk0 done_swap.2
    ∧ same_view (view SYSTEM_PROFILE_BIN (fs_tree done_swap.2)) fresh.
Proof.
  assert (E : done_swap.1 = Ok 1) by (vm_compute; reflexivity).
  destruct (profile_swap_atomic [app] disk0 done_swap.1 done_swap.2 dirs0 (surjective_pairing done_swap))
    as (fresh & Hrun & Hres).
  exists fresh. split; [exact Hrun|]. rewrite E in Hres. exact (proj1 Hres).
Defined.

Lemma profile_contents_witness :
  fs_tree done_swap.2 !! abs "/nix/system/profile/bin/hello" = Some (Link "/nix/store/a-app/bin/hello").
Proof.
  assert (E : done_swap = (Ok 1, done_swap.2)).
  { assert (E1 : done_swap.1 = Ok 1) by (vm_compute; reflexivity). rewrite <- E1. apply surjective_pairing. }
  refine (proj2 (profile_contents [app] disk0 1 done_swap.2 dirs0 _ E) "hello" app _).
  - constructor; [|constructor]. right. split_and!.
    + exists [Normal "a-app"; Normal "bin"]. vm_compute. reflexivity.
    + apply plain_ancestors; [exists ["nix"; "store"; "a-app"; "bin"]; vm_compute; reflexivity|].
      repeat constructor; intros target; vm_compute; discriminate.
    + intros target. vm_compute. discriminate.
  - vm_compute. reflexivity.
Defined.

End ProfileDemo.
