(* ===== verification/ConfigFiles.v ===== *)
(** * Boot files and managed configuration files

    A boot file is replaced through a temporary file: at no moment is the file the boot loader
    reads a part of the new one.  What [update_config_files] writes and where: the managed files
    and the directories above them, nothing else; and every file with inline text ends as the
    manifest declares it, or is reported. *)

From S2P Require Import Prelude RustStd FileSys FileSysFacts Nar PathInfo Store Calendar Manifest Generations TopoSort Activate ManifestInstances.

Open Scope Z_scope.

Section boot.
Context `{FL : FsLimits}.
Implicit Types (t : tree).

Definition tmp_name (name : string) : string := file_stem name +:+ "." +:+ "tmp".

Lemma with_extension_snoc (dir : path) name :
  abs_path dir → with_extension "tmp" (dir ++ [Normal name]) = dir ++ [Normal (tmp_name name)].
Proof.
  intros [ns ->]. unfold with_extension, Path.file_name. rewrite last_snoc.
  unfold with_file_name.
  assert (E : (RootDir :: (Normal <$> ns)) ++ [Normal name] = RootDir :: (Normal <$> ns ++ [name]))
    by by rewrite fmap_app.
  rewrite E, parent_snoc. done.
Qed.

(** The directories above the boot file are real, and its temporary name is no link. *)
Record boot_dir_ok (dir : path) (name : string) (t : tree) : Prop := mkBootDirOk {
  bd_plain : plain t dir;
  bd_dir : not_link t dir;
  bd_tmp : not_link t (dir ++ [Normal (tmp_name name)]);
}.

Lemma boot_dir_made dir name base t : boot_dir_ok dir name base → dirs_made dir base t → boot_dir_ok dir name t.
Proof.
  intros [H1 H2 H3] Hd. constructor; [by eapply dirs_made_plain|by eapply dirs_made_not_link..].
Qed.

(** ** The copy *)
Definition unchanged_at (p : path) (base t : tree) : Prop := t !! p = base !! p.

(** The source is read where it is; the temporary file gets its text and its mode; nothing
    else changes. *)
Lemma copy_run src tmp s r s' :
  plain (fs_tree s) tmp → not_link (fs_tree s) tmp → plain (fs_tree s) src → not_link (fs_tree s) src →
  tmp ≠ [RootDir] → copy src tmp s = (r, s') →
  run_in (λ t, ∀ k, k ≠ tmp → t !! k = fs_tree s !! k) s s'
  ∧ (r = Ok tt → ∃ c m, node_at (fs_tree s) src = Some (File c m) ∧ fs_tree s' !! tmp = Some (File c m)).
Proof.
  intros Hp Hl Hsp Hsl Hroot H. unfold copy in H.
  unfold mbind at 1, F_bind at 1, SR_bind at 1, get_tree, lift in H. simpl in H.
  destruct (read_file (fs_tree s) src) as [c|e] eqn:Er; [|injection H as <- <-; split; [apply run_in_refl|done]].
  unfold mbind at 1, F_bind at 1, SR_bind at 1 in H.
  unfold mbind at 1, F_bind at 1, SR_bind at 1 in H.
  destruct (metadata (fs_tree s) src) as [n|e] eqn:Em; [|injection H as <- <-; split; [apply run_in_refl|done]].
  assert (Hsrc : node_at (fs_tree s) src = Some n ∧ ∃ m, n = File c m).
  { unfold read_file in Er. unfold metadata, stat_with in Em.
    destruct (fs_fault OpRead src); [done|]. destruct (fs_fault OpStat src); [done|].
    destruct (resolve_plain (fs_tree s) true src Hsp ltac:(done)) as [E|[e E]]; rewrite E in Er, Em; [|done].
    simpl in Er, Em. destruct (node_at (fs_tree s) src) as [[c' m| |]|]; simpl in Em; try done.
    injection Er as ->. injection Em as <-. split; [done|]. by exists m. }
  destruct Hsrc as [Hsrc [m ->]].
  unfold mbind at 1, F_bind at 1, SR_bind at 1 in H.
  destruct (write_file tmp c s) as [r1 s1] eqn:Ew.
  apply write_file_inv in Ew as [[-> [e ->]]|(mode & text & -> & Htext)]; [|..|done|done].
  { simpl in H. injection H as <- <-. split; [apply run_in_refl|done]. }
  assert (R1 : run_in (λ t, ∀ k, k ≠ tmp → t !! k = fs_tree s !! k) s
    (push (<[tmp:=File text mode]> (fs_tree s)) (push (<[tmp:=File "" mode]> (fs_tree s)) s))).
  { eapply run_in_trans; apply run_in_push; intros k Hk; by rewrite lookup_insert_ne. }
  destruct r1 as [[]|e]; [|injection H as <- <-; by split]. rewrite (Htext eq_refl) in *.
  apply set_permissions_inv in H as [[-> [e ->]]|(-> & t' & -> & Hk & Hc)]; [by split|..].
  - split.
    + eapply run_in_trans; [exact R1|]. apply run_in_push. intros k Hne. rewrite Hk by done.
      simpl. by rewrite lookup_insert_ne.
    + intros _. exists c, m. split; [done|]. simpl in *. rewrite lookup_insert_eq in Hc.
      destruct Hc as [(c' & m' & [= <- <-] & Ht)|(m' & Hnode & _)]; [done|].
      unfold node_at in Hnode. rewrite lookup_insert_eq in Hnode. by case_decide.
  - apply plain_insert; [done|by right].
  - apply not_link_insert; done.
Qed.

(** A change of one entry of [dir] leaves the paths in [dir] plain. *)
Lemma plain_in_dir dir t t' n m :
  plain t dir → not_link t dir → (∀ k, k ≠ dir ++ [Normal n] → t' !! k = t !! k) →
  plain t' (dir ++ [Normal m]).
Proof.
  intros Hp Hl Ha. apply plain_snoc.
  - eapply plain_agree; [exact Hp|]. intros q Hq _ _ Hlq target.
    rewrite Ha by (by apply snoc_not_above). apply Hlq.
  - intros target. rewrite Ha by (by apply snoc_not_above). apply Hl.
Qed.

(** The boot file in the trees of a copy: as it was, or complete *)
Definition old_or_new (base : tree) (src dst : path) (t : tree) : Prop :=
  t !! dst = base !! dst ∨ ∃ c m, base !! src = Some (File c m) ∧ t !! dst = Some (File c m).

End boot.

(** Replacing a boot file is atomic.  In every tree the disk goes through while
    [copy_boot_file] runs, whatever call fails, the destination is the file of before or
    the complete new one with its mode, never a part of it; when the copy returns it is
    the new one. *)
Theorem boot_file_atomic `{FL : FsLimits} src dir name s r s' :
  boot_dir_ok dir name (fs_tree s) → plain (fs_tree s) src → not_link (fs_tree s) src → src ≠ [RootDir] →
  tmp_name name ≠ name →
  copy_boot_file src (dir ++ [Normal name]) s = (r, s') →
  let dst := dir ++ [Normal name] in
  run_in (old_or_new (fs_tree s) src dst) s s'
  ∧ (r = Ok tt → ∃ c m, fs_tree s !! src = Some (File c m) ∧ fs_tree s' !! dst = Some (File c m)).
Proof.
  intros Hok Hsp Hsl Hsr Hname H dst. pose proof Hok as [Hdp Hdl Htl]. unfold copy_boot_file in H.
  unfold mbind at 1, F_bind at 1, SR_bind at 1, get_tree in H. simpl in H.
  destruct (path_exists (fs_tree s) src); [|injection H as <- <-; split; [apply run_in_refl|done]].
  rewrite with_extension_snoc, parent_abs_snoc in H by apply Hdp.
  set (tmp := dir ++ [Normal (tmp_name name)]) in *. fold dst in H.
  unfold mbind at 1, F_bind at 1, SR_bind at 1 in H.
  destruct (create_dir_all dir s) as [r1 s1] eqn:E1.
  assert (R1 : run_in (dirs_made dir (fs_tree s)) s s1).
  { eapply stays_dirs_made; [exact Hdp| |exact E1]. intros k. by left. }
  assert (D1 : dirs_made dir (fs_tree s) (fs_tree s1)) by (apply (run_in_last _ _ _ R1); intros k; by left).
  assert (Hmade : ∀ t, dirs_made dir (fs_tree s) t → old_or_new (fs_tree s) src dst t)
    by (intros t Ht; left; by apply (dirs_made_dst dir name)).
  destruct r1 as [[]|e]; [|injection H as <- <-; split; [by eapply run_in_mono|done]].
  pose proof (boot_dir_made _ _ _ _ Hok D1) as [Hdp1 Hdl1 Htl1].
  assert (Htmp1 : plain (fs_tree s1) tmp) by by apply plain_snoc.
  unfold mbind at 1, F_bind at 1, SR_bind at 1 in H.
  destruct (copy src tmp s1) as [r2 s2] eqn:E2.
  apply copy_run in E2 as [R2 Hc]; [|done|done|by eapply dirs_made_plain|by eapply dirs_made_not_link|apply tmp_not_root].
  assert (Hdt : dst ≠ tmp) by (intros Heq%app_inv_head; congruence).
  assert (Hdst1 : fs_tree s1 !! dst = fs_tree s !! dst) by by apply (dirs_made_dst dir name).
  assert (R12 : run_in (old_or_new (fs_tree s) src dst) s s2).
  { eapply run_in_trans; [by eapply run_in_mono|]. eapply run_in_mono; [|exact R2].
    intros t Ht. left. rewrite Ht by done. exact Hdst1. }
  destruct r2 as [[]|e]; [|injection H as <- <-; by split].
  destruct (Hc eq_refl) as (c & m & Hsrc & Htmp).
  assert (Hsrc0 : fs_tree s !! src = Some (File c m)).
  { unfold node_at in Hsrc. rewrite decide_False in Hsrc by done.
    destruct (D1 src) as [Hk|(_ & _ & [m' Hk])]; congruence. }
  assert (Hpl : ∀ n, plain (fs_tree s2) (dir ++ [Normal n])).
  { intros n. apply (plain_in_dir dir (fs_tree s1) _ (tmp_name name)); [done|done|].
    apply (run_in_last _ _ _ R2). done. }
  apply rename_inv in H as [[-> [e ->]]|(-> & _ & _ & -> & _)]; [by split|..|apply Hpl|apply Hpl|done].
  assert (Hfinal : move_tree tmp dst (fs_tree s2) !! dst = Some (File c m)).
  { rewrite move_tree_lookup, decide_True by done. by rewrite drop_all, app_nil_r. }
  split; [|intros _; by exists c, m]. eapply run_in_trans; [exact R12|]. apply run_in_push. right. eauto.
Qed.

Module BootDemo.

Definition boot_tree : tree :=
  list_to_map [(abs "/usr", Dir 493); (abs "/usr/lib", Dir 493); (abs "/usr/lib/boot", Dir 493);
    (abs "/usr/lib/boot/kernel", File "old kernel" 420);
    (abs "/nix", Dir 493); (abs "/nix/k", Dir 365); (abs "/nix/k/kernel", File "new kernel" 292)].

Definition boot_disk : fsys := mkFsys boot_tree [].
Definition replaced := copy_boot_file (abs "/nix/k/kernel") (abs "/usr/lib/boot" ++ [Normal "kernel"]) boot_disk.

Lemma boot_file_atomic_witness :
  run_in (old_or_new boot_tree (abs "/nix/k/kernel") (abs "/usr/lib/boot" ++ [Normal "kernel"]))
    boot_disk replaced.2
  ∧ fs_tree replaced.2 !! abs "/usr/lib/boot/kernel" = Some (File "new kernel" 292).
Proof.
  split; [|vm_compute; reflexivity].
  refine (proj1 (boot_file_atomic (abs "/nix/k/kernel") (abs "/usr/lib/boot") "kernel" boot_disk
    replaced.1 replaced.2 _ _ _ _ _ (surjective_pairing replaced))).
  - constructor.
    + apply plain_ancestors; [exists ["usr"; "lib"; "boot"]; vm_compute; reflexivity|].
      repeat constructor; intros target; vm_compute; discriminate.
    + intros target. vm_compute. discriminate.
    + intros target. vm_compute. discriminate.
  - apply plain_ancestors; [exists ["nix"; "k"; "kernel"]; vm_compute; reflexivity|].
    repeat constructor; intros target; vm_compute; discriminate.
  - intros target. vm_compute. discriminate.
  - vm_compute. discriminate.
  - vm_compute. discriminate.
Defined.

End BootDemo.

Section config.
Context `{FL : FsLimits}.
Implicit Types (t base : tree) (full : path).

(** ** Editing files

    Only the files [P] were edited, and directories were made above them. *)
Definition edits (P : path → Prop) base t : Prop := ∀ k,
  t !! k = base !! k
  ∨ (P k ∧ (t !! k = None ∨ ∃ c m, t !! k = Some (File c m)))
  ∨ ((base !! k = None ∨ P k) ∧ (∃ f, P f ∧ k `prefix_of` f) ∧ dir_at t k).

Lemma edits_refl P base : edits P base base.
Proof. intros k. by left. Qed.

Lemma edits_trans P t1 t2 t3 : edits P t1 t2 → edits P t2 t3 → edits P t1 t3.
Proof.
  intros H1 H2 k. destruct (H2 k) as [E|[H|([Hn|Hk] & Hf & Hd)]]; [|by right; left| |by do 2 right; auto].
  - destruct (H1 k) as [E1|[[Hk [E1|(c & m & E1)]]|(Hb & Hf & m & E1)]].
    + left. congruence.
    + right; left. split; [done|]. left. congruence.
    + right; left. split; [done|]. right. exists c, m. congruence.
    + do 2 right. split; [done|]. split; [done|]. exists m. congruence.
  - destruct (H1 k) as [E1|[[Hk _]|(_ & _ & m & Hm)]]; [|by do 2 right; auto|congruence].
    do 2 right. split; [left; congruence|done].
Qed.

Lemma edits_weaken (P Q : path → Prop) base t : (∀ k, P k → Q k) → edits P base t → edits Q base t.
Proof.
  intros HPQ H k. destruct (H k) as [E|[[Hk Hc]|([Hn|Hk] & (f & Hf & Hp) & Hd)]]; [by left|..].
  - right; left. auto.
  - do 2 right. split; [auto|]. split; [exists f; auto|done].
  - do 2 right. split; [auto|]. split; [exists f; auto|done].
Qed.

Lemma edits_not_link P base t q : edits P base t → not_link base q → not_link t q.
Proof.
  intros H Hl target Ht. destruct (H q) as [E|[[_ [E|(c & m & E)]]|(_ & _ & m & E)]]; [|congruence..].
  apply (Hl target). congruence.
Qed.

Lemma edits_plain P base t q : edits P base t → plain base q → plain t q.
Proof. intros He Hq. eapply plain_agree; [exact Hq|]. intros x _ _ _. by apply (edits_not_link P). Qed.

Lemma edits_made dir (n : string) base t :
  dirs_made dir base t → edits (λ k, k = dir ++ [Normal n]) base t.
Proof.
  intros Hd k. destruct (Hd k) as [?|(Hn & Hp & Hk)]; [by left|]. do 2 right. split; [by left|].
  split; [|done]. eexists. split; [reflexivity|]. by apply prefix_app_r.
Qed.

Lemma edits_delete full base : edits (λ k, k = full) base (base.delete full base).
Proof.
  intros k. destruct (decide (k = full)) as [->|Hk]; [|left; by rewrite lookup_delete_ne].
  right; left. split; [done|]. left. apply lookup_delete_eq.
Qed.

Lemma edits_insert full base c m : edits (λ k, k = full) base (<[full := File c m]> base).
Proof.
  intros k. destruct (decide (k = full)) as [->|Hk]; [|left; by rewrite lookup_insert_ne].
  right; left. split; [done|]. right. exists c, m. apply lookup_insert_eq.
Qed.

Lemma edits_file full base c c' m m' t :
  base !! full = Some (File c m) → (∀ k, k ≠ full → t !! k = base !! k) → t !! full = Some (File c' m') →
  edits (λ k, k = full) base t.
Proof.
  intros _ Hk Ht k. destruct (decide (k = full)) as [->|Hne]; [right; left; eauto|left; auto].
Qed.

Lemma run_edits P base s s' : edits P base (fs_tree s) →
  run_in (edits P (fs_tree s)) s s' → run_in (edits P base) s s'.
Proof. intros He. apply run_in_mono. intros t. by apply edits_trans. Qed.

(** Two runs, the second described from the tree the first ended in *)
Lemma run_edits_trans P s1 s2 s3 :
  run_in (edits P (fs_tree s1)) s1 s2 → run_in (edits P (fs_tree s2)) s2 s3 →
  run_in (edits P (fs_tree s1)) s1 s3.
Proof.
  intros R1 R2. eapply run_in_trans; [exact R1|]. apply run_edits; [|exact R2].
  apply (run_in_last _ _ _ R1), edits_refl.
Qed.

Lemma run_edits_last P s s' : run_in (edits P (fs_tree s)) s s' → edits P (fs_tree s) (fs_tree s').
Proof. intros R. apply (run_in_last _ _ _ R), edits_refl. Qed.

(** A link that resolves is seen by [symlink_metadata]; one that does not is not followed. *)
Lemma walk_link fuel t ns cur e :
  (∀ q, q `prefix_of` cur ++ (Normal <$> ns) → q ≠ cur ++ (Normal <$> ns) →
     (length cur < length q)%nat → not_link t q) →
  walk fuel t false cur (Normal <$> ns) = Err e → walk fuel t true cur (Normal <$> ns) = Err e.
Proof.
  revert cur. induction ns as [|n ns IH]; intros cur Hq; simpl fmap in *; [by rewrite walk_nil|].
  rewrite !walk_normal. cbv zeta.
  assert (E' : cur ++ Normal n :: (Normal <$> ns) = (cur ++ [Normal n]) ++ (Normal <$> ns))
    by by rewrite <- app_assoc.
  change (list_fmap _ _ Normal ns) with (Normal <$> ns) in *. rewrite E' in Hq.
  destruct (t !! (cur ++ [Normal n])) as [[c m|target|m]|] eqn:E; [done| | |done].
  - destruct ns as [|n' ns]; [simpl; intros [=]|]. intros _. exfalso. apply (Hq (cur ++ [Normal n])) with target; [by apply prefix_app_r|..|done].
    + intros Heq. apply (f_equal length) in Heq. rewrite !length_app in Heq. simpl in Heq. lia.
    + rewrite length_app. simpl. lia.
  - apply IH. intros q H1 H2 H3. apply Hq; [done|done|]. rewrite length_app in H3. simpl in H3. lia.
Qed.

Lemma not_symlink_cases t full :
  plain t full → full ≠ [RootDir] → fs_fault OpStat full = None → is_symlink t full = false →
  not_link t full ∨ ∃ e, resolve t true full = Err e.
Proof.
  intros Hp Hroot Hf Hs. destruct (t !! full) as [[c m|target|m]|] eqn:E; try (left; intros ?; by rewrite E).
  right. destruct (resolve_plain t false full Hp ltac:(done)) as [Hr|[e Hr]].
  - exfalso. unfold is_symlink, symlink_metadata, stat_with in Hs. rewrite Hf, Hr in Hs. simpl in Hs.
    unfold node_at in Hs. case_decide; [done|]. by rewrite E in Hs.
  - exists e. destruct Hp as [[ns ->] Hq]. unfold resolve in *. case_decide; [done|].
    rewrite walk_root in *. by apply (walk_link _ _ ns [RootDir]).
Qed.

(** ** One file *)
Lemma write_file_run full contents s r s' :
  plain (fs_tree s) full → (not_link (fs_tree s) full ∨ ∃ e, resolve (fs_tree s) true full = Err e) →
  write_file full contents s = (r, s') →
  run_in (edits (λ k, k = full) (fs_tree s)) s s'
  ∧ (r = Ok tt → ∃ m, fs_tree s' !! full = Some (File contents m)).
Proof.
  intros Hp Hl H. destruct Hl as [Hl|[e He]].
  - apply write_file_inv in H as [[-> [e ->]]|(mode & text & -> & Htext)]; [split; [apply run_in_refl|done]| |done|done].
    split.
    + eapply run_in_trans; apply run_in_push; apply edits_insert.
    + intros Hr. rewrite (Htext Hr). exists mode. apply lookup_insert_eq.
  - unfold write_file in H. unfold mbind, F_bind, SR_bind, check_fault, get_tree, lift in H.
    destruct (fs_fault _ _); [injection H as <- <-; split; [apply run_in_refl|done]|].
    unfold mret, F_ret, SR_ret in H. simpl in H. rewrite He in H.
    injection H as <- <-. split; [apply run_in_refl|done].
Qed.

(** What the managed path of a file looks like *)
Record target_ok full t : Prop := mkTargetOk {
  tg_plain : plain t full;
  tg_root : full ≠ [RootDir];
  tg_stat : fs_fault OpStat full = None;
}.

Lemma target_edits P full base t : edits P base t → target_ok full base → target_ok full t.
Proof. intros He [H1 H2 H3]. constructor; [by eapply edits_plain|done|done]. Qed.

Lemma target_snoc full t : target_ok full t → ∃ dir n, full = dir ++ [Normal n] ∧ plain t dir.
Proof.
  intros [Hp Hr _]. pose proof Hp as [[ns ->] _]. destruct ns as [|n ns _] using rev_ind; [done|].
  exists (RootDir :: (Normal <$> ns)), n. split; [by rewrite fmap_app|].
  eapply plain_prefix; [exact Hp|by exists ns|]. exists [Normal n]. by rewrite fmap_app.
Qed.

Lemma remove_file_run full s r s' :
  plain (fs_tree s) full → remove_file full s = (r, s') →
  run_in (edits (λ k, k = full) (fs_tree s)) s s' ∧ (r = Ok tt → fs_tree s' !! full = None).
Proof.
  intros Hp H. apply remove_file_inv in H as [[-> [e ->]]|(-> & _ & ->)]; [split; [apply run_in_refl|done]| |done].
  split; [apply run_in_push, edits_delete|]. intros _. apply lookup_delete_eq.
Qed.

Lemma write_through_run full contents s r s' :
  target_ok full (fs_tree s) → write_through full contents s = (r, s') →
  run_in (edits (λ k, k = full) (fs_tree s)) s s'
  ∧ (r = Ok tt → ∃ m, fs_tree s' !! full = Some (File contents m)).
Proof.
  intros Ht H. destruct (target_snoc _ _ Ht) as (dir & n & E & Hd). unfold write_through in H.
  rewrite E, parent_abs_snoc, <- E in H by apply Hd.
  unfold mbind at 1, F_bind at 1, SR_bind at 1 in H.
  destruct (create_dir_all dir s) as [r1 s1] eqn:E1.
  assert (R1 : run_in (edits (λ k, k = full) (fs_tree s)) s s1).
  { apply (stays_dirs_made dir (fs_tree s)) in E1; [|done|intros k; by left].
    eapply run_in_mono; [|exact E1]. intros t. rewrite E. apply edits_made. }
  destruct r1 as [[]|e]; [|injection H as <- <-; by split].
  apply run_edits_last in R1 as L1. pose proof (target_edits _ _ _ _ L1 Ht) as Ht1.
  unfold mbind at 1, F_bind at 1, SR_bind at 1, get_tree in H. simpl in H.
  unfold mbind at 1, F_bind at 1, SR_bind at 1 in H.
  destruct (is_symlink (fs_tree s1) full) eqn:Es.
  - destruct (remove_file full s1) as [r2 s2] eqn:E2.
    apply remove_file_run in E2 as [R2 Hn]; [|apply Ht1].
    assert (R12 := run_edits_trans _ _ _ _ R1 R2).
    destruct r2 as [[]|e]; [|injection H as <- <-; by split].
    apply run_edits_last in R12 as L2. pose proof (target_edits _ _ _ _ L2 Ht) as Ht2.
    apply write_file_run in H as [R3 Hc]; [|apply Ht2|left; intros target; by rewrite Hn].
    split; [|done]. exact (run_edits_trans _ _ _ _ R12 R3).
  - apply write_file_run in H as [R3 Hc]; [|apply Ht1|].
    + split; [|done]. exact (run_edits_trans _ _ _ _ R1 R3).
    + destruct Ht1. by apply not_symlink_cases.
Qed.

(** A managed file ends as the manifest declares it. *)
Definition as_declared (info : FileInfo) full t : Prop :=
  ∃ mode, parse_mode_string (fi_mode info) = Ok mode
    ∧ t !! full = Some (File (default "" (fi_text info)) mode).

Lemma write_inline_run root p info full s r s' :
  managed_file_path_at root p = Ok full → target_ok full (fs_tree s) →
  write_inline_config_file_at root p info s = (r, s') →
  run_in (edits (λ k, k = full) (fs_tree s)) s s' ∧ (r = Ok tt → as_declared info full (fs_tree s')).
Proof.
  intros Hf Ht H. unfold write_inline_config_file_at in H. rewrite Hf in H.
  unfold mbind at 1, F_bind at 1, SR_bind at 1, lift at 1 in H. simpl in H.
  unfold mbind at 1, F_bind at 1, SR_bind at 1 in H.
  destruct (write_through full _ s) as [r1 s1] eqn:E1.
  apply write_through_run in E1 as [R1 Hc]; [|done].
  destruct r1 as [[]|e]; [|injection H as <- <-; by split].
  destruct (Hc eq_refl) as [m Hm]. apply run_edits_last in R1 as L1.
  pose proof (target_edits _ _ _ _ L1 Ht) as [Hp1 Hr1 _].
  unfold mbind at 1, F_bind at 1, SR_bind at 1, lift in H.
  destruct (parse_mode_string (fi_mode info)) as [mode|e] eqn:Em; [|injection H as <- <-; by split].
  apply set_permissions_inv in H as [[-> [e ->]]|(-> & t' & -> & Hk & Hd)];
    [by split| |done|intros target; congruence].
  destruct Hd as [(c & m' & Hc1 & Hc2)|(m' & Hd & _)].
  - split; [|intros _; exists mode; split; [done|]; simpl; congruence].
    apply (run_edits_trans _ _ _ _ R1), run_in_push. by eapply edits_file.
  - unfold node_at in Hd. rewrite decide_False, Hm in Hd by done. done.
Qed.

(** ** All the files of an update *)
Lemma counted_run (m : F unit) w u s ws u' s' ws' :
  counted m w u (s, ws) = (u', (s', ws')) →
  ∃ r, m s = (r, s') ∧ ws' = ws ++ match r with Ok _ => [] | Err e => [w e] end.
Proof.
  unfold counted, try, mbind, W_bind. simpl. destruct (m s) as [r f]. destruct r as [[]|e].
  - intros [= <- <- <-]. exists (Ok ()). by rewrite app_nil_r.
  - intros [= <- <- <-]. by exists (Err e).
Qed.

Lemma apart_file P base t f x :
  edits P base t → ¬ P f → base !! f = Some x → t !! f = Some x.
Proof. intros He Hf Hx. destruct (He f) as [->|[[Hp _]|([Hn|Hp] & _)]]; [done|done|congruence|done]. Qed.

Section update.
Variable blake3_hex : string → string.
Variable root : path.
Variable files : gmap string FileInfo.

Definition managed (p : string) : option path :=
  match managed_file_path_at root p with Ok full => Some full | Err _ => None end.

(** The file of [p], when it has inline text, is there as declared or reported. *)
Definition settled (p : string) t (ws : list warning) : Prop :=
  ∀ info full, managed p = Some full → inline_info files p = Some info →
    as_declared info full t ∨ ∃ e, WriteFailed p e ∈ ws.

Lemma settled_later P p t t' ws ws' :
  settled p t ws → edits P t t' → (∀ f, managed p = Some f → ¬ P f) → ws `prefix_of` ws' →
  settled p t' ws'.
Proof.
  intros Hs He Hp [l ->] info full Hf Hi. destruct (Hs info full Hf Hi) as [(mode & Hm & Ht)|[e Hw]].
  - left. exists mode. split; [done|]. eapply apart_file; [exact He|by apply Hp|done].
  - right. exists e. apply elem_of_app. by left.
Qed.

(** A step that edits the file of [p] only, and then has established [G] *)
Definition step_of (p : string) (G : tree → list warning → Prop) (g : Z → W Z) : Prop :=
  ∀ u s ws u' s' ws', (∀ f, managed p = Some f → target_ok f (fs_tree s)) →
    g u (s, ws) = (u', (s', ws')) →
    run_in (edits (λ k, managed p = Some k) (fs_tree s)) s s' ∧ ws `prefix_of` ws' ∧ G (fs_tree s') ws'.

Lemma step_write p info u s ws u' s' ws' full :
  managed_file_path_at root p = Ok full → target_ok full (fs_tree s) → inline_info files p = Some info →
  counted (write_inline_config_file_at root p info) (WriteFailed p) u (s, ws) = (u', (s', ws')) →
  run_in (edits (λ k, managed p = Some k) (fs_tree s)) s s' ∧ ws `prefix_of` ws' ∧ settled p (fs_tree s') ws'.
Proof.
  intros Hf Ht Hi H. apply counted_run in H as (r & Hr & ->).
  apply (write_inline_run _ _ _ full) in Hr as [R Hc]; [|done|done].
  assert (Hm : managed p = Some full) by by unfold managed; rewrite Hf.
  split; [|split; [by apply prefix_app_r|]].
  - eapply run_in_mono; [|exact R]. intros t. apply edits_weaken. by intros k ->.
  - intros info' full' Hm' Hi'. assert (full' = full) as -> by congruence. assert (info' = info) as -> by congruence.
    destruct r as [[]|e]; [left; by apply Hc|]. right. exists e. apply elem_of_app. right. by apply list_elem_of_singleton.
Qed.

Lemma add_step p : step_of p (settled p) (add_config_file root files p).
Proof.
  intros u s ws u' s' ws' Ht H. unfold add_config_file in H. unfold managed in Ht.
  destruct (managed_file_path_at root p) as [full|e] eqn:Ef.
  - destruct (inline_info files p) as [info|] eqn:Ei; [by eapply step_write; eauto|].
    unfold mbind, W_bind, peek, warn in H. simpl in H.
    destruct (path_exists _ _); injection H as <- <- <-; (split; [apply run_in_refl|]);
      (split; [by try apply prefix_app_r|]); intros info full' _ Hi; congruence.
  - injection H as <- <- <-. split; [apply run_in_refl|]. split; [by apply prefix_app_r|].
    intros info full Hf. unfold managed in Hf. by rewrite Ef in Hf.
Qed.

Lemma change_step c : step_of (cc_path c) (settled (cc_path c)) (change_config_file blake3_hex root files c).
Proof.
  intros u s ws u' s' ws' Ht H. unfold change_config_file in H. unfold managed in Ht.
  destruct (managed_file_path_at root (cc_path c)) as [full|e] eqn:Ef.
  - destruct (inline_info files (cc_path c)) as [info|] eqn:Ei; [by eapply step_write; eauto|].
    unfold mbind, W_bind, peek, warn in H. simpl in H.
    destruct (path_exists _ _); [case_decide|]; injection H as <- <- <-; (split; [apply run_in_refl|]);
      (split; [by try apply prefix_app_r|]); intros info full' _ Hi; congruence.
  - injection H as <- <- <-. split; [apply run_in_refl|]. split; [by apply prefix_app_r|].
    intros info full Hf. unfold managed in Hf. by rewrite Ef in Hf.
Qed.

Lemma remove_step p : step_of p (λ _ _, True) (remove_config_file root p).
Proof.
  intros u s ws u' s' ws' Ht H. unfold remove_config_file in H. unfold managed in Ht.
  destruct (managed_file_path_at root p) as [full|e] eqn:Ef.
  - unfold mbind at 1, W_bind at 1, peek in H. simpl in H. destruct (path_exists _ _).
    + apply counted_run in H as (r & Hr & ->). apply remove_file_run in Hr as [R _]; [|by apply Ht].
      split; [|split; [by apply prefix_app_r|done]]. eapply run_in_mono; [|exact R].
      intros t. apply edits_weaken. intros k ->. unfold managed. by rewrite Ef.
    + injection H as <- <- <-. split; [apply run_in_refl|done].
  - injection H as <- <- <-. split; [apply run_in_refl|]. split; [by apply prefix_app_r|done].
Qed.

(** ** Folds *)
Definition in_list (ps : list string) (k : path) : Prop := ∃ p, p ∈ ps ∧ managed p = Some k.

Lemma fold_run {A : Type} (key : A → string) (G : string → tree → list warning → Prop)
    (g : A → Z → W Z) (l : list A) u s ws u' s' ws' :
  (∀ x, x ∈ l → step_of (key x) (G (key x)) (g x)) →
  (∀ P p t t' ws ws', G p t ws → edits P t t' → (∀ f, managed p = Some f → ¬ P f) → ws `prefix_of` ws' → G p t' ws') →
  NoDup (omap managed (key <$> l)) →
  (∀ f, in_list (key <$> l) f → target_ok f (fs_tree s)) →
  W_fold g l u (s, ws) = (u', (s', ws')) →
  run_in (edits (in_list (key <$> l)) (fs_tree s)) s s' ∧ ws `prefix_of` ws'
  ∧ ∀ x, x ∈ l → G (key x) (fs_tree s') ws'.
Proof.
  intros Hg Hst. revert u s ws. induction l as [|x l IH]; intros u s ws Hnd Ht H; simpl in H.
  { injection H as <- <- <-. split; [apply run_in_refl|]. split; [done|]. intros x Hx. by apply elem_of_nil in Hx. }
  unfold mbind at 1, W_bind at 1 in H. destruct (g x u (s, ws)) as [u1 [s1 ws1]] eqn:E1.
  apply (Hg x) in E1 as (R1 & P1 & G1); [|by left|].
  2:{ intros f Hf. apply Ht. exists (key x). split; [by left|done]. }
  assert (W1 : run_in (edits (in_list (key <$> x :: l)) (fs_tree s)) s s1).
  { eapply run_in_mono; [|exact R1]. intros t. apply edits_weaken. intros k Hk. exists (key x). split; [by left|done]. }
  apply run_edits_last in W1 as L1.
  apply IH in H as (R2 & P2 & G2).
  - split; [|split; [by etrans|]].
    + apply (run_edits_trans _ _ _ _ W1). eapply run_in_mono; [|exact R2].
      intros t. apply edits_weaken. intros k (p & Hp & Hk). exists p. split; [by right|done].
    + intros y [->|Hy]%elem_of_cons; [|by apply G2].
      eapply Hst; [exact G1|by apply run_edits_last, R2| |done].
      intros f Hf (p & Hp & Hk). simpl in Hnd. rewrite Hf in Hnd. apply NoDup_cons in Hnd as [Hnd _].
      apply Hnd, list_elem_of_omap. by exists p.
  - intros y Hy. apply Hg. by right.
  - simpl in Hnd. destruct (managed (key x)); [by apply NoDup_cons in Hnd as [_ ?]|done].
  - intros f (p & Hp & Hk). eapply target_edits; [exact L1|]. apply Ht. exists p. split; [by right|done].
Qed.

End update.

End config.

(** C24. Config-file updates are confined and complete.  Whatever calls fail, every tree
    an update goes through differs from the one it started in at managed files and at the
    directories made above them, nowhere else; and at its end every added or changed file
    with inline text is there with that text and the declared mode, or a warning names it. *)
Theorem config_files_confined `{FL : FsLimits} blake3_hex root added removed changed files s ws u s' ws' :
  let paths := added ++ removed ++ (cc_path <$> changed) in
  NoDup (omap (managed root) paths) →
  (∀ f, in_list root paths f → target_ok f (fs_tree s)) →
  update_config_files_at blake3_hex root added removed changed files (s, ws) = (u, (s', ws')) →
  run_in (edits (in_list root paths) (fs_tree s)) s s'
  ∧ ∀ p, p ∈ added ++ (cc_path <$> changed) → settled root files p (fs_tree s') ws'.
Proof.
  intros paths Hnd Ht H. unfold paths in *. clear paths. unfold update_config_files_at in H.
  rewrite !omap_app in Hnd. apply NoDup_app in Hnd as (N1 & N12 & Hnd). apply NoDup_app in Hnd as (N2 & N23 & N3).
  assert (Hsub : ∀ l P s1 s2, (∀ p, p ∈ l → p ∈ added ++ removed ++ (cc_path <$> changed)) →
    run_in (edits (in_list root l) P) s1 s2 → run_in (edits (in_list root (added ++ removed ++ (cc_path <$> changed))) P) s1 s2).
  { intros l P s1 s2 Hl. apply run_in_mono. intros t. apply edits_weaken. intros k (p & Hp & Hk). exists p. auto. }
  assert (Hkey : ∀ l : list string, id <$> l = l) by apply list_fmap_id.
  unfold mbind at 1, W_bind at 1 in H.
  destruct (W_fold (add_config_file root files) added 0 (s, ws)) as [u1 [s1 ws1]] eqn:E1.
  apply (fold_run root id (settled root files)) in E1 as (R1 & P1 & G1);
    [|intros x _; apply add_step|intros *; apply settled_later|by rewrite Hkey|].
  2:{ intros f (p & Hp & Hk). rewrite Hkey in Hp. apply Ht. exists p. rewrite elem_of_app. auto. }
  rewrite Hkey in R1. apply (Hsub added) in R1; [|intros p Hp; rewrite elem_of_app; by left].
  apply run_edits_last in R1 as L1. unfold mbind at 1, W_bind at 1 in H.
  destruct (W_fold (remove_config_file root) removed u1 (s1, ws1)) as [u2 [s2 ws2]] eqn:E2.
  apply (fold_run root id (λ _ _ _, True)) in E2 as (R2 & P2 & _);
    [|intros x _; apply remove_step|done|by rewrite Hkey|].
  2:{ intros f (p & Hp & Hk). rewrite Hkey in Hp. eapply target_edits; [exact L1|].
      apply Ht. exists p. rewrite !elem_of_app. auto. }
  rewrite Hkey in R2. apply run_edits_last in R2 as L2.
  apply (Hsub removed) in R2; [|intros p Hp; rewrite !elem_of_app; by right; left].
  assert (R12 := run_edits_trans _ _ _ _ R1 R2). apply run_edits_last in R12 as L12.
  apply (fold_run root cc_path (settled root files)) in H as (R3 & P3 & G3);
    [|intros x _; apply change_step|intros *; apply settled_later|done|].
  2:{ intros f (p & Hp & Hk). eapply target_edits; [exact L12|]. apply Ht. exists p. rewrite !elem_of_app. auto. }
  apply run_edits_last in R3 as L3.
  apply (Hsub (cc_path <$> changed)) in R3; [|intros p Hp; rewrite !elem_of_app; by right; right].
  split; [exact (run_edits_trans _ _ _ _ R12 R3)|].
  intros p [Hp|Hp]%elem_of_app.
  - assert (Hom : ∀ f l, in_list root l f → f ∈ omap (managed root) l)
      by (intros f l (q & Hq & Hk); apply list_elem_of_omap; eauto).
    assert (Ho : ∀ f, managed root p = Some f → f ∈ omap (managed root) added) by (intros f Hf; apply Hom; by exists p).
    eapply settled_later; [eapply settled_later; [exact (G1 p Hp)|exact L2| |exact P2]|exact L3| |exact P3];
      intros f Hf Hin; apply (N12 f (Ho f Hf)), elem_of_app; [left|right]; by apply Hom.
  - apply list_elem_of_fmap in Hp as (c & -> & Hc). by apply G3.
Qed.

Module ConfigDemo.

Definition etc_tree : tree := list_to_map [(abs "/etc", Dir 493); (abs "/etc/old", File "gone" 420);
  (abs "/etc/motd", Link "/somewhere"); (abs "/somewhere", File "not to be written" 420)].
Definition etc_disk : fsys := mkFsys etc_tree [].
Definition etc_files : gmap string FileInfo :=
  {[ "etc/motd" := mkFileInfo "h" 5 "600" (Some "hello") ]}.
Definition updated_etc :=
  update_config_files_at (λ s, s) [RootDir] ["etc/motd"] ["etc/old"] [] etc_files (etc_disk, []).

(** The link in the way is replaced, not followed. *)
Example motd_written :
  (fs_tree updated_etc.2.1 !! abs "/etc/motd", fs_tree updated_etc.2.1 !! abs "/etc/old",
   fs_tree updated_etc.2.1 !! abs "/somewhere", updated_etc.2.2)
  = (Some (File "hello" 384), None, Some (File "not to be written" 420), []).
Proof. vm_compute. reflexivity. Qed.

Lemma config_files_confined_witness :
  run_in (edits (in_list [RootDir] ["etc/motd"; "etc/old"]) etc_tree) etc_disk updated_etc.2.1
  ∧ settled [RootDir] etc_files "etc/motd" (fs_tree updated_etc.2.1) updated_etc.2.2.
Proof.
  pose proof (config_files_confined (λ s, s) [RootDir] ["etc/motd"] ["etc/old"] [] etc_files etc_disk []
    updated_etc.1 updated_etc.2.1 updated_etc.2.2) as H. cbv zeta in H.
  assert (Hok : ∀ p ns, managed [RootDir] p = Some (RootDir :: (Normal <$> ns)) →
    Forall (not_link etc_tree) (ancestors (RootDir :: (Normal <$> ns))) → ns ≠ [] →
    ∀ f, managed [RootDir] p = Some f → target_ok f etc_tree).
  { intros p ns Hp Hf Hns f Hpf. assert (f = RootDir :: (Normal <$> ns)) as -> by congruence.
    constructor; [apply plain_ancestors; [by exists ns|done]|by destruct ns|done]. }
  destruct H as [H1 H2].
  - vm_compute. repeat constructor; rewrite ?elem_of_cons, ?elem_of_nil; naive_solver.
  - intros f (p & Hp & Hk). apply elem_of_cons in Hp as [->|Hp]; [|apply list_elem_of_singleton in Hp as ->].
    + apply (Hok "etc/motd" ["etc"; "motd"]); [reflexivity| |done|done].
      repeat constructor; intros target; vm_compute; discriminate.
    + apply (Hok "etc/old" ["etc"; "old"]); [reflexivity| |done|done].
      repeat constructor; intros target; vm_compute; discriminate.
  - rewrite <- !surjective_pairing. reflexivity.
  - split; [exact H1|]. apply H2. vm_compute. left.
Defined.

End ConfigDemo.
