(* ===== verification/NarExtract.v ===== *)
(** * NAR extraction ([nar.rs])

    An archive is what nix-compat's reader hands out: a tree whose directories are read
    entry by entry, and which may break off at any point. *)

From S2P Require Import Prelude RustStd FileSys Nar.

Open Scope Z_scope.

(** [reader::Node]: [broken] is the error the reader returns after the contents, or after
    the entries, that it could read *)
Inductive nar : Type :=
  | NarFile (executable : bool) (contents : string) (broken : option io_error)
  | NarSymlink (target : string)
  | NarDirectory (entries : list (string * nar)) (broken : option io_error).

Section extract.
Context `{FL : FsLimits}.

Definition invalid_data : io_error := OtherError "invalid data".

(** [StdFsSink::write_file]: the bytes read so far are written when the reader fails *)
Definition sink_write_file (p : path) (executable : bool) (contents : string) (broken : option io_error) : F Z :=
  write_file p contents ;;
  match broken with
  | Some e => fail e
  | None => set_permissions p (if executable then 0x16D else 0x124) ;; mret (Z.of_nat (String.length contents))
  end.

Definition child_rel (rel_path name : string) : string :=
  if decide (rel_path = "") then name else rel_path +:+ "/" +:+ name.

Definition bad_name (name : string) : bool :=
  Str.contains_char "/" name || bool_decide (name = ".") || bool_decide (name = "..").

(** [extract_node_with_sink], with the standard sink; the manifest is threaded through *)
Fixpoint extract_node (node : nar) (p : path) (rel_path : string) (manifest : list ManifestEntry)
    : F (list ManifestEntry) :=
  match node with
  | NarFile executable contents broken =>
      size ← sink_write_file p executable contents broken;
      mret (manifest ++ [mkManifestEntry rel_path "file" size executable])
  | NarSymlink target =>
      if Str.utf8_valid target then
        symlink target p ;;
        mret (manifest ++ [mkManifestEntry rel_path "symlink" 0 false])
      else fail invalid_data
  | NarDirectory entries broken =>
      create_dir_all p ;;
      (fix loop es manifest :=
         match es with
         | [] => match broken with Some e => fail e | None => mret manifest end
         | (name, child) :: es' =>
             if negb (Str.utf8_valid name) then fail invalid_data
             else if bad_name name then fail invalid_data
             else
               manifest ← extract_node child (Path.join p (Path.components name)) (child_rel rel_path name) manifest;
               loop es' manifest
         end) entries
        (if decide (rel_path = "") then manifest
         else manifest ++ [mkManifestEntry rel_path "dir" 0 false])
  end.

(** [extract_with_manifest] and [extract]; [node] is what [reader::open] returns *)
Definition extract_with_manifest (node : result io_error nar) (dest : string) : F (list ManifestEntry) :=
  n ← lift node; extract_node n (Path.components dest) "" [].

Definition extract (node : result io_error nar) (dest : string) : F unit :=
  extract_with_manifest node dest ;; mret tt.

End extract.

(** ** Archives by induction *)
Lemma nar_ind' (Q : nar → Prop) :
  (∀ x c b, Q (NarFile x c b)) → (∀ g, Q (NarSymlink g)) →
  (∀ es b, Forall (λ e, Q e.2) es → Q (NarDirectory es b)) → ∀ n, Q n.
Proof.
  intros Hf Hl Hd. fix IH 1. intros [x c b|g|es b]; [apply Hf|apply Hl|apply Hd].
  induction es as [|[m n] es IHes]; constructor; [apply IH|exact IHes].
Qed.
