(* ===== verification/NarFacts.v ===== *)
(** * Extraction is faithful and confined

    What is at and below the destination after an extraction is the archive, node by node;
    nothing else changes, whatever the archive contains and whatever call fails. *)

From S2P Require Import Prelude RustStd FileSys FileSysFacts Nar NarExtract ManifestInstances.

Open Scope Z_scope.

(** ** The archive as a tree and as a manifest *)

(** The node of the archive at a path below its root; the mode of a directory is the
    system's and is not compared. *)
Fixpoint nar_at (n : nar) (q : path) : option node :=
  match n, q with
  | NarFile x c _, [] => Some (File c (if x then 0x16D else 0x124))
  | NarSymlink g, [] => Some (Link g)
  | NarDirectory _ _, [] => Some (Dir 0)
  | NarDirectory es _, Normal name :: q' =>
      (fix find es := match es with
                      | [] => None
                      | (name', child) :: es' => if decide (name' = name) then nar_at child q' else find es'
                      end) es
  | _, _ => None
  end.

Definition node_like (a b : option node) : Prop :=
  match a, b with Some (Dir _), Some (Dir _) => True | _, _ => a = b end.

Fixpoint manifest_of (n : nar) (rel : string) : list ManifestEntry :=
  match n with
  | NarFile x c _ => [mkManifestEntry rel "file" (Z.of_nat (String.length c)) x]
  | NarSymlink _ => [mkManifestEntry rel "symlink" 0 false]
  | NarDirectory es _ =>
      (if decide (rel = "") then [] else [mkManifestEntry rel "dir" 0 false])
      ++ (fix go es := match es with
                       | [] => []
                       | (name, child) :: es' => manifest_of child (child_rel rel name) ++ go es'
                       end) es
  end.

(** What the reader promises: in a directory no name is empty and none comes twice. *)
Fixpoint names_ok (n : nar) : Prop :=
  match n with
  | NarDirectory es _ =>
      NoDup es.*1 ∧ ("" ∉ es.*1)
      ∧ (fix all es := match es with [] => True | (_, child) :: es' => names_ok child ∧ all es' end) es
  | _ => True
  end.

(** The entries of a directory *)
Definition entries_at (es : list (string * nar)) (name : string) (q : path) : option node :=
  child ← snd <$> list_find (λ e, e.1 = name) es; nar_at child.2 q.

Lemma nar_at_dir es b name q :
  nar_at (NarDirectory es b) (Normal name :: q) = entries_at es name q.
Proof.
  unfold entries_at. cbn [nar_at]. induction es as [|[name' child] es IH]; [done|]. cbn [list_find fst].
  destruct (decide (name' = name)) as [->|Hne]; [done|]. rewrite IH. by destruct (list_find _ es) as [[]|].
Qed.

Definition manifest_entries (rel : string) (es : list (string * nar)) : list ManifestEntry :=
  es ≫= λ e, manifest_of e.2 (child_rel rel e.1).

Lemma manifest_of_dir es b rel :
  manifest_of (NarDirectory es b) rel
  = (if decide (rel = "") then [] else [mkManifestEntry rel "dir" 0 false]) ++ manifest_entries rel es.
Proof.
  cbn [manifest_of]. f_equal. unfold manifest_entries. induction es as [|[name child] es IH]; [done|].
  rewrite bind_cons. by rewrite IH.
Qed.

Lemma names_ok_dir es b :
  names_ok (NarDirectory es b) ↔ NoDup es.*1 ∧ ("" ∉ es.*1) ∧ Forall (λ e, names_ok e.2) es.
Proof.
  cbn [names_ok]. do 2 apply and_iff_compat_l.
  induction es as [|[name child] es IH]; [by split|]. rewrite Forall_cons. by rewrite IH.
Qed.

Section extract.
Context `{FL : FsLimits}.

(** The loop of [extract_node] over the entries of a directory *)
Fixpoint extract_entries (es : list (string * nar)) (broken : option io_error) (p : path) (rel : string)
    (manifest : list ManifestEntry) : F (list ManifestEntry) :=
  match es with
  | [] => match broken with Some e => fail e | None => mret manifest end
  | (name, child) :: es' =>
      if negb (Str.utf8_valid name) then fail invalid_data
      else if bad_name name then fail invalid_data
      else
        manifest ← extract_node child (Path.join p (Path.components name)) (child_rel rel name) manifest;
        extract_entries es' broken p rel manifest
  end.

Lemma extract_dir es broken p rel manifest s :
  extract_node (NarDirectory es broken) p rel manifest s
  = (create_dir_all p ;;
     extract_entries es broken p rel
       (if decide (rel = "") then manifest else manifest ++ [mkManifestEntry rel "dir" 0 false])) s.
Proof.
  cbn [extract_node]. unfold mbind at 1, F_bind at 1, SR_bind at 1. symmetry.
  unfold mbind at 1, F_bind at 1, SR_bind at 1. symmetry.
  destruct (create_dir_all p s) as [[[]|e] s1]; [|done].
  generalize (if decide (rel = "") then manifest else manifest ++ [mkManifestEntry rel "dir" 0 false]).
  revert s1. induction es as [|[name child] es IH]; intros s1 m; [done|]. cbn [extract_entries].
  destruct (negb (Str.utf8_valid name)); [done|]. destruct (bad_name name); [done|].
  unfold mbind, F_bind, SR_bind. destruct (extract_node child _ _ m s1) as [[m'|e] s2]; [|done]. apply IH.
Qed.

(** ** Making a directory *)
Lemma is_dir_plain t p : plain t p → not_link t p → p ≠ [RootDir] → is_dir t p = true → dir_at t p.
Proof.
  intros Hp Hl Hr. unfold is_dir, metadata, stat_with. destruct (fs_fault OpStat p); [done|].
  destruct (resolve_plain t true p Hp) as [E|[e E]]; [done| |by rewrite E]. rewrite E. simpl.
  unfold node_at. rewrite decide_False by done. destruct (t !! p) as [[| |m]|] eqn:Et; try done. intros _. by exists m.
Qed.

Lemma mkdir_or_dir_ok p e s s' : mkdir_or_dir p e s = (Ok tt, s') → s' = s ∧ is_dir (fs_tree s) p = true.
Proof.
  unfold mkdir_or_dir, mbind, F_bind, SR_bind, get_tree, fail. destruct (is_dir (fs_tree s) p); [by intros [= <-]|done].
Qed.

(** [create_dir_all] returns when the directory is there. *)
Lemma create_dir_ok p s s' :
  plain (fs_tree s) p → not_link (fs_tree s) p → p ≠ [RootDir] → create_dir_all p s = (Ok tt, s') → dir_at (fs_tree s') p.
Proof.
  intros Hp Hl Hr H.
  assert (Hmk : ∀ s1 s2, plain (fs_tree s1) p → mkdir p s1 = (Ok tt, s2) → dir_at (fs_tree s2) p).
  { intros s1 s2 Hp1 Hm. apply mkdir_inv in Hm as [[_ [e He]]|(_ & _ & _ & ->)]; [done| |done].
    exists default_dir_mode. apply lookup_insert_eq. }
  assert (Hsame : ∀ s1 s2 e, plain (fs_tree s1) p → mkdir p s1 = (Err e, s2) → s2 = s1).
  { intros s1 s2 e Hp1 Hm. by apply mkdir_inv in Hm as [[-> _]|(? & _)]. }
  assert (Hend : ∀ s1 s2 e, plain (fs_tree s1) p → not_link (fs_tree s1) p → mkdir_or_dir p e s1 = (Ok tt, s2) → dir_at (fs_tree s2) p).
  { intros s1 s2 e Hp1 Hl1 Hm. apply mkdir_or_dir_ok in Hm as [-> Hd]. by apply is_dir_plain. }
  unfold create_dir_all in H. destruct (length p) as [|n] eqn:El; [by destruct Hp as [[ns ->] _]|].
  cbn [create_dir_all_loop] in H. rewrite decide_False in H by (by destruct Hp as [[ns ->] _]).
  unfold catch in H. destruct (mkdir p s) as [[[]|e] s1] eqn:E1; [injection H as <-; by eapply Hmk|].
  apply Hsame in E1 as ->; [|done]. case_decide as He; [|by eapply Hend].
  pose proof Hp as [[ns E] _]. destruct ns as [|x ns _] using rev_ind; [by rewrite E in Hr|].
  assert (Hpar : Path.parent p = Some (RootDir :: (Normal <$> ns))) by (rewrite E; apply parent_snoc).
  rewrite Hpar in H. set (q := RootDir :: (Normal <$> ns)) in *.
  assert (Hq : q `prefix_of` p) by (exists [Normal x]; rewrite E, fmap_app; done).
  assert (Hn : n = length q).
  { rewrite E in El. unfold q. simpl in *. rewrite length_fmap, length_app in El. rewrite length_fmap. simpl in El. lia. }
  rewrite Hn in H. fold (create_dir_all q) in H.
  unfold mbind, F_bind, SR_bind in H. destruct (create_dir_all q s) as [[[]|e2] s2] eqn:E2; [|done].
  assert (Hqp : plain (fs_tree s) q) by (eapply plain_prefix; [exact Hp|by exists ns|done]).
  apply (stays_dirs_made q (fs_tree s)) in E2; [|done|intros k; by left].
  assert (D2 : dirs_made q (fs_tree s) (fs_tree s2)) by (apply (run_in_last _ _ _ E2); intros k; by left).
  assert (Hp2 : plain (fs_tree s2) p) by by eapply dirs_made_plain.
  assert (Hl2 : not_link (fs_tree s2) p) by by eapply dirs_made_not_link.
  destruct (mkdir p s2) as [[[]|e3] s3] eqn:E3; [injection H as <-; by eapply Hmk|].
  apply Hsame in E3 as ->; [|done]. by eapply Hend.
Qed.

(** ** One node *)

(** Nothing at or below a path *)
Definition clear (t : tree) (p : path) : Prop := ∀ k, p `prefix_of` k → t !! k = None.

(** Outside [p] the tree is the one of before, apart from directories made above [p]. *)
Definition around (p : path) (base t : tree) : Prop :=
  ∀ k, ¬ p `prefix_of` k → t !! k = base !! k ∨ (base !! k = None ∧ k `prefix_of` p ∧ dir_at t k).

(** The same, outside some entries of the directory [p] *)
Definition inside (p : path) (names : list string) (base t : tree) : Prop :=
  ∀ k, (∀ n, n ∈ names → ¬ (p ++ [Normal n]) `prefix_of` k) →
    t !! k = base !! k ∨ (base !! k = None ∧ k `prefix_of` p ∧ dir_at t k).

Definition extracts (node : nar) : Prop := ∀ p rel m s r s',
  plain (fs_tree s) p → p ≠ [RootDir] → clear (fs_tree s) p → names_ok node →
  extract_node node p rel m s = (r, s') →
  run_in (around p (fs_tree s)) s s'
  ∧ ∀ m', r = Ok m' → m' = m ++ manifest_of node rel
      ∧ ∀ q, node_like (fs_tree s' !! (p ++ q)) (nar_at node q).

Lemma clear_not_link t p : clear t p → not_link t p.
Proof. intros Hc target. by rewrite Hc. Qed.

Lemma clear_below t p x q : clear t p → t !! (p ++ x :: q) = None.
Proof. intros Hc. apply Hc. by apply prefix_app_r. Qed.

Lemma below_ne (p : path) x q : p ++ x :: q ≠ p.
Proof. intros H. apply (f_equal length) in H. rewrite length_app in H. simpl in H. lia. Qed.

Lemma node_like_refl o : node_like o o.
Proof. by destruct o as [[]|]. Qed.

Lemma around_insert p base n : around p base (<[p := n]> base).
Proof. intros k Hk. left. rewrite lookup_insert_ne; [done|]. intros ->. by apply Hk. Qed.

Lemma extracts_file x c b : extracts (NarFile x c b).
Proof.
  intros p rel m s r s' Hp Hr Hc _ H. cbn [extract_node] in H. unfold sink_write_file in H.
  unfold mbind at 1, F_bind at 1, SR_bind at 1 in H. unfold mbind at 1, F_bind at 1, SR_bind at 1 in H.
  destruct (write_file p c s) as [r1 s1] eqn:E1.
  apply write_file_inv in E1 as [[-> [e ->]]|(mode & text & -> & Ht)]; [| |done|by apply clear_not_link].
  { injection H as <- <-. split; [apply run_in_refl|done]. }
  set (s1 := push _ _) in *.
  assert (R1 : run_in (around p (fs_tree s)) s s1) by (eapply run_in_trans; apply run_in_push, around_insert).
  destruct r1 as [[]|e]; [|injection H as <- <-; by split]. specialize (Ht eq_refl). subst text.
  destruct b as [e|]; [injection H as <- <-; by split|].
  unfold mbind, F_bind, SR_bind in H.
  destruct (set_permissions p (if x then 0x16D else 0x124) s1) as [r2 s2] eqn:E2.
  assert (Hp1 : plain (fs_tree s1) p) by (apply plain_insert; [done|by right]).
  assert (Hl1 : not_link (fs_tree s1) p) by (intros target; unfold s1; simpl; by rewrite lookup_insert_eq).
  apply set_permissions_inv in E2 as [[-> [e ->]]|(-> & t' & -> & Hk & Hd)]; [| |done|done].
  { injection H as <- <-. by split. }
  injection H as <- <-. split.
  - eapply run_in_trans; [exact R1|]. apply run_in_push. intros k Hn. left.
    rewrite Hk by (intros ->; by apply Hn). unfold s1. simpl. rewrite lookup_insert_ne; [done|]. intros ->. by apply Hn.
  - intros m' [= <-]. split; [done|]. intros q. simpl fs_tree. destruct q as [|y q]; cbn [nar_at].
    + rewrite app_nil_r. destruct Hd as [(c' & m1 & Hf & ->)|(m1 & Hf & _)].
      * unfold s1 in Hf. simpl in Hf. rewrite lookup_insert_eq in Hf. injection Hf as <- <-. apply node_like_refl.
      * unfold node_at, s1 in Hf. rewrite decide_False in Hf by done. simpl in Hf. by rewrite lookup_insert_eq in Hf.
    + rewrite Hk by apply below_ne. unfold s1. simpl. rewrite lookup_insert_ne by (apply not_eq_sym, below_ne).
      by rewrite clear_below.
Qed.

Lemma extracts_link g : extracts (NarSymlink g).
Proof.
  intros p rel m s r s' Hp Hr Hc _ H. cbn [extract_node] in H.
  destruct (Str.utf8_valid g); [|injection H as <- <-; split; [apply run_in_refl|done]].
  unfold mbind, F_bind, SR_bind in H. destruct (symlink g p s) as [r1 s1] eqn:E1.
  apply symlink_inv in E1 as [[-> [e ->]]|(-> & _ & ->)]; [| |done];
    injection H as <- <-; (split; [|]); [apply run_in_refl|done|apply run_in_push, around_insert|].
  intros m' [= <-]. split; [done|]. intros q. simpl fs_tree. destruct q as [|y q]; cbn [nar_at].
  - by rewrite app_nil_r, lookup_insert_eq.
  - rewrite lookup_insert_ne by (apply not_eq_sym, below_ne). by rewrite clear_below.
Qed.

(** ** Directories *)
Lemma good_name_components name :
  name ≠ "" → bad_name name = false → Path.components name = [Normal name].
Proof.
  intros Hne Hb. unfold bad_name in Hb. apply orb_false_iff in Hb as [Hb H3]. apply orb_false_iff in Hb as [H1 H2].
  apply bool_decide_eq_false in H2, H3. unfold Path.components. rewrite Str.split_no_sep by done.
  assert (Hs : Str.starts_with "/" name = false) by by apply Path.wf_name_no_slash.
  rewrite Hs. unfold Path.piece_component. by rewrite !decide_False by done.
Qed.

Lemma join_name (p : path) name :
  abs_path p → name ≠ "" → bad_name name = false → Path.join p (Path.components name) = p ++ [Normal name].
Proof. intros [ns ->] Hne Hb. by rewrite good_name_components. Qed.

Lemma inside_trans p ns1 ns2 t1 t2 t3 :
  inside p ns1 t1 t2 → inside p ns2 t2 t3 → inside p (ns1 ++ ns2) t1 t3.
Proof.
  intros H1 H2 k Hk. assert (Hk1 := H1 k ltac:(intros n Hn; apply Hk, elem_of_app; by left)).
  assert (Hk2 := H2 k ltac:(intros n Hn; apply Hk, elem_of_app; by right)). unfold dir_at in *.
  destruct Hk1 as [E1|(N1 & P1 & D1)], Hk2 as [E2|(N2 & P2 & D2)]; [left; congruence|right|right|right].
  - split_and!; [congruence|done|done].
  - split_and!; [done|done|]. by rewrite E2.
  - done.
Qed.

Lemma around_inside p n t t' : dir_at t p → around (p ++ [Normal n]) t t' → inside p [n] t t'.
Proof.
  intros Hd Ha k Hk. destruct (Ha k) as [E|(N & P & D)]; [apply Hk; by left|by left|].
  apply prefix_snoc_inv in P as [->|P]; [destruct (Hk n ltac:(by left)); done|]. by right.
Qed.

Lemma inside_dir p names t t' : dir_at t p → inside p names t t' → dir_at t' p.
Proof.
  intros [m Hm] Hi. destruct (Hi p) as [E|(N & _)]; [|exists m; congruence|congruence].
  intros n _ Hp. apply prefix_length in Hp. rewrite length_app in Hp. simpl in Hp. lia.
Qed.

Lemma inside_plain p names t t' : plain t p → inside p names t t' → plain t' p.
Proof.
  intros Hp Hi. eapply plain_agree; [exact Hp|]. intros q Hq Hne _ Hl target.
  destruct (Hi q) as [E|(_ & _ & m & E)]; [|rewrite E; apply Hl|congruence].
  intros n _ Hn. apply Hne. destruct Hq as [k1 E1], Hn as [k2 E2]. subst q.
  apply (f_equal length) in E1. rewrite !length_app in E1. simpl in E1. lia.
Qed.

(** Deeper than [p] and not below these entries: unchanged *)
Lemma inside_deep p names t t' k :
  inside p names t t' → (length p < length k)%nat → (∀ n, n ∈ names → ¬ (p ++ [Normal n]) `prefix_of` k) → t' !! k = t !! k.
Proof.
  intros Hi Hlen Hk. destruct (Hi k Hk) as [E|(_ & P & _)]; [done|]. apply prefix_length in P. lia.
Qed.

Lemma inside_clear p names t t' n :
  inside p names t t' → n ∉ names → clear t (p ++ [Normal n]) → clear t' (p ++ [Normal n]).
Proof.
  intros Hi Hn Hc k Hk. rewrite (inside_deep p names t); [by apply Hc|done| |].
  - apply prefix_length in Hk. rewrite length_app in Hk. simpl in Hk. lia.
  - intros n' Hn' Hk'. assert (n' = n); [|congruence]. destruct Hk as [k1 ->], Hk' as [k2 E].
    rewrite <- !app_assoc in E. apply app_inv_head in E. simpl in E. congruence.
Qed.

Lemma entry_below (p : path) n n' q : (p ++ [Normal n']) `prefix_of` (p ++ Normal n :: q) → n' = n.
Proof. intros [k E]. rewrite <- app_assoc in E. apply app_inv_head in E. simpl in E. congruence. Qed.

Lemma entries_at_cons name child es n q :
  entries_at ((name, child) :: es) n q = if decide (name = n) then nar_at child q else entries_at es n q.
Proof.
  unfold entries_at. cbn [list_find fst]. destruct (decide (name = n)); [done|]. by destruct (list_find _ es) as [[]|].
Qed.

(** The loop over the entries *)
Lemma extract_entries_run es b p rel m s r s' :
  Forall (λ e, extracts e.2) es → NoDup es.*1 → ("" ∉ es.*1) → Forall (λ e, names_ok e.2) es →
  plain (fs_tree s) p → dir_at (fs_tree s) p → (∀ n, n ∈ es.*1 → clear (fs_tree s) (p ++ [Normal n])) →
  extract_entries es b p rel m s = (r, s') →
  run_in (inside p es.*1 (fs_tree s)) s s'
  ∧ ∀ m', r = Ok m' → m' = m ++ manifest_entries rel es
      ∧ ∀ n q, n ∈ es.*1 → node_like (fs_tree s' !! (p ++ Normal n :: q)) (entries_at es n q).
Proof.
  revert m s. induction es as [|[name child] es IH]; intros m s Hex Hnd Hemp Hok Hp Hd Hc H.
  { cbn [extract_entries] in H. destruct b as [e|]; injection H as <- <-; (split; [apply run_in_refl|]); [done|].
    intros m' [= <-]. split; [by rewrite app_nil_r|]. intros n q Hn. by apply elem_of_nil in Hn. }
  cbn [extract_entries] in H. apply Forall_cons in Hex as [Hex1 Hex]. apply Forall_cons in Hok as [Hok1 Hok].
  rewrite fmap_cons in Hnd, Hemp, Hc |- *. cbn [fst snd] in *. apply NoDup_cons in Hnd as [Hn1 Hnd].
  apply not_elem_of_cons in Hemp as [Hne Hemp].
  destruct (Str.utf8_valid name); [|injection H as <- <-; split; [apply run_in_refl|done]]. cbn [negb] in H.
  destruct (bad_name name) eqn:Hbad; [injection H as <- <-; split; [apply run_in_refl|done]|].
  rewrite join_name in H by (done || apply Hp). set (pn := p ++ [Normal name]) in *.
  unfold mbind, F_bind, SR_bind in H. destruct (extract_node child pn _ m s) as [r1 s1] eqn:E1.
  assert (Hpn : plain (fs_tree s) pn) by (apply plain_snoc; [done|by apply dir_at_not_link]).
  assert (Hrn : pn ≠ [RootDir]) by apply tmp_not_root.
  apply Hex1 in E1 as [R1 O1]; [|done|done|apply Hc; by left|done].
  assert (W1 : run_in (inside p [name] (fs_tree s)) s s1).
  { eapply run_in_mono; [|exact R1]. intros t. by apply around_inside. }
  assert (I1 : inside p [name] (fs_tree s) (fs_tree s1)) by (apply (run_in_last _ _ _ W1); intros k _; by left).
  assert (Hmore : ∀ t, inside p [name] (fs_tree s) t → inside p (name :: es.*1) (fs_tree s) t).
  { intros t Ht k Hk. apply Ht. intros n Hn. apply list_elem_of_singleton in Hn as ->. apply Hk. by left. }
  destruct r1 as [m1|e]; [|injection H as <- <-; split; [by eapply run_in_mono|done]].
  destruct (O1 m1 eq_refl) as [-> Hnode].
  apply IH in H as [R2 O2]; [|done|done|done|done|by eapply inside_plain|by eapply inside_dir|].
  2:{ intros n Hn. eapply inside_clear; [exact I1| |apply Hc; by right]. intros ->%list_elem_of_singleton. done. }
  split.
  - eapply run_in_trans; [by eapply run_in_mono|]. eapply run_in_mono; [|exact R2].
    intros t Ht. exact (inside_trans p [name] es.*1 _ _ _ I1 Ht).
  - intros m' Hm'. destruct (O2 m' Hm') as [-> Hrest]. split.
    { unfold manifest_entries. rewrite bind_cons. by rewrite app_assoc. }
    assert (I2 : inside p es.*1 (fs_tree s1) (fs_tree s')) by (apply (run_in_last _ _ _ R2); intros k _; by left).
    intros n q Hn. rewrite entries_at_cons. case_decide as Hnn.
    + subst n. rewrite (inside_deep p es.*1 (fs_tree s1)); [|done|rewrite length_app; simpl; lia|].
      * specialize (Hnode q). unfold pn in Hnode. by rewrite <- app_assoc in Hnode.
      * intros n' Hn' Hpre. apply entry_below in Hpre as ->. done.
    + apply Hrest. by apply elem_of_cons in Hn as [->|?].
Qed.

Lemma extracts_dir es b : Forall (λ e, extracts e.2) es → extracts (NarDirectory es b).
Proof.
  intros Hex p rel m s r s' Hp Hr Hc Hok H. apply names_ok_dir in Hok as (Hnd & Hemp & Hok).
  rewrite extract_dir in H. unfold mbind, F_bind, SR_bind in H.
  destruct (create_dir_all p s) as [r1 s1] eqn:E1.
  pose proof (clear_not_link _ _ Hc) as Hl.
  assert (R1 : run_in (dirs_made p (fs_tree s)) s s1).
  { eapply stays_dirs_made; [exact Hp| |exact E1]. intros k. by left. }
  assert (A1 : ∀ t, dirs_made p (fs_tree s) t → around p (fs_tree s) t).
  { intros t Ht k Hk. destruct (Ht k) as [?|?]; [by left|by right]. }
  destruct r1 as [[]|e]; [|injection H as <- <-; split; [by eapply run_in_mono|done]].
  assert (Hd1 : dir_at (fs_tree s1) p) by by eapply create_dir_ok.
  assert (D1 : dirs_made p (fs_tree s) (fs_tree s1)) by (apply (run_in_last _ _ _ R1); intros k; by left).
  assert (Hdeep : ∀ x q, fs_tree s1 !! (p ++ x :: q) = None).
  { intros x q. destruct (D1 (p ++ x :: q)) as [->|(_ & Hpre & _)]; [by apply clear_below|].
    apply prefix_length in Hpre. rewrite length_app in Hpre. simpl in Hpre. lia. }
  assert (Hp1 : plain (fs_tree s1) p) by by eapply dirs_made_plain.
  apply extract_entries_run in H as [R2 O2]; [|done|done|done|done|done|done|].
  2:{ intros n _ k [q ->]. rewrite <- app_assoc. apply Hdeep. }
  split.
  - eapply run_in_trans; [by eapply run_in_mono|]. eapply run_in_mono; [|exact R2].
    intros t Ht k Hk. destruct (Ht k) as [E|(N & P & Dk)].
    + intros n _ [q ->]. apply Hk. rewrite <- app_assoc. by apply prefix_app_r.
    + unfold dir_at. rewrite E. by apply A1.
    + destruct (A1 _ D1 k Hk) as [E|(_ & _ & mk & Hmk)]; [|congruence]. right. split_and!; [congruence|done|done].
  - intros m' Hm'. destruct (O2 m' Hm') as [-> Hnodes].
    assert (I2 : inside p es.*1 (fs_tree s1) (fs_tree s')) by (apply (run_in_last _ _ _ R2); intros k _; by left).
    split.
    { rewrite manifest_of_dir. case_decide; [done|]. by rewrite <- app_assoc. }
    intros q. destruct q as [|x q].
    { rewrite app_nil_r. destruct (inside_dir _ _ _ _ Hd1 I2) as [mk ->]. done. }
    assert (Hnone : (∀ n, n ∈ es.*1 → x ≠ Normal n) → fs_tree s' !! (p ++ x :: q) = None).
    { intros Hx. rewrite (inside_deep p es.*1 (fs_tree s1)); [apply Hdeep|done|rewrite length_app; simpl; lia|].
      intros n Hn [k E]. rewrite <- app_assoc in E. apply app_inv_head in E. simpl in E. injection E as -> _. by apply (Hx n). }
    destruct x as [| | |n]; [by rewrite Hnone..|]. rewrite nar_at_dir. destruct (decide (n ∈ es.*1)) as [Hn|Hn]; [by apply Hnodes|].
    rewrite Hnone by (intros n' Hn' [= ->]; done). unfold entries_at.
    destruct (list_find (λ e, e.1 = n) es) as [[i [n' c]]|] eqn:Ef; [|done]. exfalso. apply Hn.
    apply list_find_Some in Ef as (Hi & Hn' & _). simpl in Hn'. subst n'.
    apply list_elem_of_fmap. exists (n, c). split; [done|]. by eapply list_elem_of_lookup_2.
Qed.

Lemma extract_node_run node : extracts node.
Proof.
  induction node as [x c b|g|es b IH] using nar_ind'; [apply extracts_file|apply extracts_link|by apply extracts_dir].
Qed.

(** ** The manifest *)

(** What an entry of the manifest says of a node *)
Definition describes (e : ManifestEntry) (o : option node) : Prop :=
  match o with
  | Some (File c m) => me_entry_type e = "file" ∧ me_size e = Z.of_nat (String.length c)
                       ∧ m = (if me_executable e then 0x16D else 0x124)
  | Some (Link _) => me_entry_type e = "symlink" ∧ me_size e = 0 ∧ me_executable e = false
  | Some (Dir _) => me_entry_type e = "dir" ∧ me_size e = 0 ∧ me_executable e = false
  | None => False
  end.

Lemma entries_at_elem es name child q :
  NoDup es.*1 → (name, child) ∈ es → entries_at es name q = nar_at child q.
Proof.
  induction es as [|[n c] es IH]; [by intros _ ?%elem_of_nil|]. rewrite fmap_cons. intros [Hn Hnd]%NoDup_cons.
  rewrite entries_at_cons. intros [[= -> ->]|Hin]%elem_of_cons; [by rewrite decide_True|].
  rewrite decide_False; [by apply IH|]. intros ->. apply Hn. apply list_elem_of_fmap. by exists (name, child).
Qed.

Lemma manifest_sound node rel e :
  names_ok node → e ∈ manifest_of node rel →
  ∃ names, me_path e = foldl child_rel rel names ∧ describes e (nar_at node (Normal <$> names)).
Proof.
  revert rel. induction node as [x c b|g|es b IH] using nar_ind'; intros rel Hok He.
  - apply list_elem_of_singleton in He as ->. exists []. done.
  - apply list_elem_of_singleton in He as ->. exists []. done.
  - apply names_ok_dir in Hok as (Hnd & _ & Hok). rewrite manifest_of_dir in He. apply elem_of_app in He as [He|He].
    + case_decide; [by apply elem_of_nil in He|]. apply list_elem_of_singleton in He as ->. exists []. done.
    + apply list_elem_of_bind in He as ([name child] & He & Hin). cbn [fst snd] in He.
      rewrite Forall_forall in IH, Hok. destruct (IH _ Hin _ (Hok _ Hin) He) as (names & Hp & Hd).
      exists (name :: names). split; [done|]. change (Normal <$> name :: names) with (Normal name :: (Normal <$> names)).
      rewrite nar_at_dir. by rewrite (entries_at_elem _ _ child).
Qed.

Lemma manifest_complete node rel names n :
  nar_at node (Normal <$> names) = Some n → (names ≠ [] ∨ rel ≠ "" ∨ ∀ m, n ≠ Dir m) →
  (∀ name, name ∈ names → name ≠ "") →
  ∃ e, e ∈ manifest_of node rel ∧ me_path e = foldl child_rel rel names ∧ describes e (Some n).
Proof.
  revert rel names. induction node as [x c b|g|es b IH] using nar_ind'; intros rel names Hn Hne Hok.
  - destruct names; [|done]. injection Hn as <-. eexists. split; [by apply list_elem_of_singleton|]. done.
  - destruct names; [|done]. injection Hn as <-. eexists. split; [by apply list_elem_of_singleton|]. done.
  - destruct names as [|name names].
    + injection Hn as <-. rewrite manifest_of_dir. destruct Hne as [?|[Hne|Hne]]; [done| |by destruct (Hne 0)].
      rewrite decide_False by done. eexists. split; [apply elem_of_app; left; by apply list_elem_of_singleton|]. done.
    + change (Normal <$> name :: names) with (Normal name :: (Normal <$> names)) in Hn. rewrite nar_at_dir in Hn.
      unfold entries_at in Hn. destruct (list_find (λ e, e.1 = name) es) as [[i [name' child]]|] eqn:Ef; [|done].
      apply list_find_Some in Ef as (Hi & He & _). simpl in He, Hn. subst name'.
      assert (Hin : (name, child) ∈ es) by by eapply list_elem_of_lookup_2.
      rewrite Forall_forall in IH. destruct (IH _ Hin (child_rel rel name) names Hn) as (e & He & Hp & Hd).
      * right; left. unfold child_rel. case_decide; [apply Hok; by left|]. by destruct rel.
      * intros k Hk. apply Hok. by right.
      * exists e. split; [|done]. rewrite manifest_of_dir. apply elem_of_app. right. apply list_elem_of_bind.
        by exists (name, child).
Qed.

End extract.

(** C19. Extraction is faithful and confined.  Into a place where nothing is, behind no
    link, and for an archive whose directories name each entry once (the reader's
    promise), in every tree of the extraction, whatever the archive contains and whatever
    call fails, everything outside the destination is as it was, but for directories
    made above it.  When it returns, the destination is the archive node by node, file
    modes included, and the manifest describes exactly its nodes. *)
Theorem extraction_faithful `{FL : FsLimits} node dest s r s' :
  let p := Path.components dest in
  plain (fs_tree s) p → p ≠ [RootDir] → clear (fs_tree s) p → names_ok node →
  extract_with_manifest (Ok node) dest s = (r, s') →
  run_in (around p (fs_tree s)) s s'
  ∧ ∀ manifest, r = Ok manifest →
      (∀ q, node_like (fs_tree s' !! (p ++ q)) (nar_at node q))
      ∧ (∀ e, e ∈ manifest → ∃ names, me_path e = foldl child_rel "" names ∧ describes e (nar_at node (Normal <$> names)))
      ∧ (∀ names n, nar_at node (Normal <$> names) = Some n → (names ≠ [] ∨ ∀ m, n ≠ Dir m) →
           (∀ name, name ∈ names → name ≠ "") →
           ∃ e, e ∈ manifest ∧ me_path e = foldl child_rel "" names ∧ describes e (Some n)).
Proof.
  intros p Hp Hr Hc Hok H. unfold extract_with_manifest, lift, mbind, F_bind, SR_bind in H. fold p in H.
  apply extract_node_run in H as [R O]; [|done..]. split; [done|]. intros manifest Hm.
  destruct (O manifest Hm) as [-> Hn]. split; [done|]. split.
  - intros e He. by apply manifest_sound.
  - intros names n Hat Hne Hnames. apply manifest_complete; [done| |done]. destruct Hne; auto.
Qed.

Module NarDemo.

Definition demo_nar : nar :=
  NarDirectory [("bin", NarDirectory [("rg", NarFile true "ripgrep" None)] None); ("doc", NarSymlink "/share/doc")] None.
Definition nar_disk : fsys := mkFsys (<[Path.components "/nix" := Dir 493]> ∅) [].
Definition unpacked := extract_with_manifest (Ok demo_nar) "/nix/a-rg" nar_disk.

Example unpacked_manifest : unpacked.1 = Ok
  [mkManifestEntry "bin" "dir" 0 false; mkManifestEntry "bin/rg" "file" 7 true; mkManifestEntry "doc" "symlink" 0 false].
Proof. vm_compute. reflexivity. Qed.

Lemma extraction_faithful_witness :
  run_in (around (Path.components "/nix/a-rg") (fs_tree nar_disk)) nar_disk unpacked.2
  ∧ ∀ q, node_like (fs_tree unpacked.2 !! (Path.components "/nix/a-rg" ++ q)) (nar_at demo_nar q).
Proof.
  destruct (extraction_faithful demo_nar "/nix/a-rg" nar_disk unpacked.1 unpacked.2) as [H1 H2].
  - apply plain_ancestors; [by exists ["nix"; "a-rg"]|]. repeat constructor. intros target. vm_compute. discriminate.
  - vm_compute. discriminate.
  - intros k [q ->]. change (fs_tree nar_disk) with (<[Path.components "/nix" := Dir 493]> (∅ : tree)).
    rewrite lookup_insert_ne; [done|]. vm_compute. discriminate.
  - assert (Hlist : ∀ es : list (string * nar), bool_decide (NoDup es.*1) && bool_decide ("" ∉ es.*1) = true →
      NoDup es.*1 ∧ ("" ∉ es.*1)) by (intros es [H1 H2]%andb_true_iff; split; by eapply bool_decide_eq_true_1).
    assert (Hbin : names_ok (NarDirectory [("rg", NarFile true "ripgrep" None)] None)).
    { apply names_ok_dir. split; [by apply Hlist|]. split; [by apply Hlist|]. by repeat constructor. }
    apply names_ok_dir. split; [by apply Hlist|]. split; [by apply Hlist|].
    constructor; [exact Hbin|]. by repeat constructor.
  - apply surjective_pairing.
  - split; [exact H1|]. assert (Ho : is_ok unpacked.1 = true) by (vm_compute; reflexivity).
    destruct unpacked.1 as [m|e]; [|discriminate Ho]. apply (H2 m eq_refl).
Defined.

End NarDemo.
