(* ===== verification/ManifestRemoval.v ===== *)
(** * Taking an extraction back ([remove_tree_via_manifest] of [stored/lazy.rs])

    The daemon of the store, which has a descriptor of the root and no [remove_dir_all], removes what
    it has extracted by the manifest, entry by entry, the last first.  The entry of the archive's
    root has the empty path: joined to the place it gives the place itself. *)

From S2P Require Import Prelude RustStd FileSys FileSysFacts Nar PathInfo NarExtract NarFacts.

Open Scope Z_scope.

Section removal.
Context `{FL : FsLimits}.

(** ** The calls *)
Definition has_entries (t : tree) (q : path) : bool :=
  existsb (λ e, bool_decide (q `prefix_of` e.1 ∧ e.1 ≠ q)) (map_to_list t).

(** [unlinkat] with and without [AT_REMOVEDIR] *)
Definition rmdir (p : path) : F unit :=
  check_fault OpUnlink p ;;
  t ← get_tree;
  q ← lift (resolve t false p);
  match node_at t q with
  | None => fail NotFound
  | Some (Dir _) => if has_entries t q then fail (OtherError "directory not empty") else put_tree (base.delete q t)
  | Some _ => fail NotADirectory
  end.

Definition unlinkat (p : path) (removedir : bool) : F unit := if removedir then rmdir p else remove_file p.

(** The loop over the entries; what fails is ignored. *)
Fixpoint unlink_all (root : path) (es : list ManifestEntry) : F unit :=
  match es with
  | [] => mret tt
  | e :: es' =>
      ignore (unlinkat (Path.join root (Path.components (me_path e))) (bool_decide (me_entry_type e = "dir"))) ;;
      unlink_all root es'
  end.

Definition remove_tree_via_manifest (abs_store_path : string) (manifest : list ManifestEntry) : F unit :=
  let root := Path.components abs_store_path in
  unlink_all root (reverse manifest) ;;
  ignore (unlinkat root true).

(** ** One call *)
Lemma rmdir_inv p s r s' :
  plain (fs_tree s) p → rmdir p s = (r, s') →
  (s' = s ∧ ∃ e, r = Err e) ∨ (r = Ok tt ∧ s' = push (base.delete p (fs_tree s)) s).
Proof.
  intros Hp H. unfold rmdir in H. fs_start H.
  destruct (resolve_plain _ false _ Hp ltac:(done)) as [Hr|[e Hr]]; rewrite Hr in H; [|injection H as <- <-; left; eauto].
  destruct (node_at (fs_tree s) p) as [[c m|l|m]|]; try (injection H as <- <-; left; by eauto).
  destruct (has_entries (fs_tree s) p); injection H as <- <-; [left; by eauto|by right].
Qed.

Lemma unlinkat_inv p b s r s' :
  plain (fs_tree s) p → unlinkat p b s = (r, s') →
  (s' = s ∧ ∃ e, r = Err e) ∨ (r = Ok tt ∧ s' = push (base.delete p (fs_tree s)) s).
Proof.
  intros Hp. unfold unlinkat. destruct b; [by apply rmdir_inv|]. intros H.
  apply remove_file_inv in H as [H|(H & _ & H2)]; [by left|by right|done].
Qed.

Lemma no_entries t q : (∀ k, q `prefix_of` k → k ≠ q → t !! k = None) → has_entries t q = false.
Proof.
  intros Hq. unfold has_entries. destruct (existsb _ _) eqn:E; [|done].
  apply existsb_exists in E as ([k n] & Hin & Hk). apply bool_decide_eq_true in Hk as [H1 H2]. cbn [fst] in *.
  apply list_elem_of_In, elem_of_map_to_list in Hin. by rewrite Hq in Hin.
Qed.

Lemma resolve_leaf t p : abs_path p → Forall (dir_at t) (ancestors p) → short p → resolve t false p = Ok p.
Proof.
  intros [ns ->] Hd Hs. unfold resolve. rewrite decide_False by (unfold short in Hs; lia). rewrite walk_root.
  apply (walk_dirs _ _ ns [RootDir]). intros q [k Hk] Hne Hlen.
  change ([RootDir] ++ (Normal <$> ns)) with (RootDir :: (Normal <$> ns)) in *. rewrite Hk in *.
  rewrite Forall_forall in Hd. apply Hd. unfold ancestors. apply list_elem_of_fmap. exists (length q).
  split; [by rewrite take_app_length|]. apply elem_of_seq. rewrite length_app.
  destruct k; [by rewrite app_nil_r in Hne|simpl in *; lia].
Qed.

(** A call that does what it should *)
Lemma unlinkat_ok p b s n :
  abs_path p → p ≠ [RootDir] → Forall (dir_at (fs_tree s)) (ancestors p) → short p → fs_fault OpUnlink p = None →
  fs_tree s !! p = Some n →
  match n with Dir _ => b = true ∧ ∀ k, p `prefix_of` k → k ≠ p → fs_tree s !! k = None | _ => b = false end →
  ignore (unlinkat p b) s = (Ok tt, push (base.delete p (fs_tree s)) s).
Proof.
  intros Ha Hr Hd Hs Hf Hn Hb. pose proof (resolve_leaf _ _ Ha Hd Hs) as E. unfold ignore, catch, unlinkat.
  assert (node_at (fs_tree s) p = Some n) as Hat by (unfold node_at; by rewrite decide_False).
  destruct n as [c m|l|m]; [subst b..|destruct Hb as [-> Hk]]; unfold remove_file, rmdir, mbind, F_bind, SR_bind, check_fault, get_tree, lift;
    rewrite Hf; unfold mret, F_ret, SR_ret; simpl; rewrite E, Hat; try done.
  by rewrite no_entries.
Qed.

(** ** Paths of the manifest *)
Lemma components_snoc dir name :
  dir ≠ "" → Path.wf_name name → Path.components (dir +:+ "/" +:+ name) = Path.components dir ++ [Normal name].
Proof.
  intros Hd Hv. unfold Path.components. change ("/" +:+ name) with (String "/" name). rewrite Str.split_app.
  rewrite (Str.split_no_sep _ name) by apply Hv.
  assert (Hs : Str.starts_with "/" (dir +:+ String "/" name) = Str.starts_with "/" dir).
  { destruct dir as [|a dir]; [done|]. unfold Str.starts_with. simpl. by destruct (ascii_dec "/" a), dir. }
  rewrite Hs. destruct (Str.split "/" dir) as [|x ps] eqn:E; [by destruct (Str.split_ne_nil "/" dir)|].
  simpl. rewrite omap_app, app_assoc. f_equal. simpl. destruct Hv as (H1 & H2 & H3 & _).
  unfold Path.piece_component. by rewrite !decide_False.
Qed.

Lemma components_name name : Path.wf_name name → Path.components name = [Normal name].
Proof.
  intros Hv. unfold Path.components. rewrite (Str.split_no_sep _ name) by apply Hv.
  rewrite (Path.wf_name_no_slash name Hv). simpl. rewrite app_nil_r. destruct Hv as (H1 & H2 & H3 & _).
  unfold Path.piece_component. by rewrite !decide_False.
Qed.

Definition rel_of (names : list string) : string := foldl child_rel "" names.

Lemma rel_snoc names n : rel_of (names ++ [n]) = child_rel (rel_of names) n.
Proof. unfold rel_of. by rewrite foldl_app. Qed.

Lemma rel_empty names : Forall Path.wf_name names → rel_of names = "" ↔ names = [].
Proof.
  intros Hw. split; [|by intros ->]. destruct names as [|n names _] using rev_ind; [done|]. rewrite rel_snoc.
  apply Forall_app in Hw as [_ [Hn _]%Forall_cons]. unfold child_rel. intros He.
  case_decide as Hr; [by destruct Hn|]. exfalso. by destruct (rel_of names).
Qed.

Lemma components_rel names : Forall Path.wf_name names → Path.components (rel_of names) = Normal <$> names.
Proof.
  induction names as [|n names IH] using rev_ind; [done|]. intros Hw.
  apply Forall_app in Hw as [Hw [Hn _]%Forall_cons]. rewrite rel_snoc, fmap_app. unfold child_rel. case_decide as He.
  - apply (rel_empty names Hw) in He as ->. by apply components_name.
  - rewrite components_snoc by done. by rewrite IH.
Qed.

(** The names in an archive that was extracted *)
Definition named_well (node : nar) : Prop := ∀ names, is_Some (nar_at node (Normal <$> names)) → Forall Path.wf_name names.

Lemma entries_at_in es n q x : entries_at es n q = Some x → ∃ c, (n, c) ∈ es ∧ nar_at c q = Some x.
Proof.
  unfold entries_at. destruct (list_find (λ e, e.1 = n) es) as [[i [n' c]]|] eqn:Ef; [|done].
  apply list_find_Some in Ef as (Hi & He & _). simpl in He. subst n'. simpl. intros Hx. exists c.
  split; [by eapply list_elem_of_lookup_2|done].
Qed.

Lemma named_well_dir es b :
  Forall (λ e, Path.wf_name e.1 ∧ named_well e.2) es → named_well (NarDirectory es b).
Proof.
  rewrite Forall_forall. intros Hes names. destruct names as [|n names]; [done|].
  change (Normal <$> n :: names) with (Normal n :: (Normal <$> names)). rewrite nar_at_dir.
  intros [x (c & Hin & Hx)%entries_at_in]. destruct (Hes _ Hin) as [Hn Hc]. constructor; [done|]. apply Hc. by exists x.
Qed.

Lemma good_name name : name ≠ "" → bad_name name = false → Path.wf_name name.
Proof.
  intros Hne. unfold bad_name. rewrite !orb_false_iff, !bool_decide_eq_false. intros [[H1 H2] H3].
  by split_and!.
Qed.

Lemma extracted_names node p rel m s m' s' :
  names_ok node → extract_node node p rel m s = (Ok m', s') → named_well node.
Proof.
  revert p rel m s m' s'. induction node as [x c b|g|es b IH] using nar_ind'; intros p rel m s m' s' Hok H.
  - intros [|n names] [y Hy]; [done|done].
  - intros [|n names] [y Hy]; [done|done].
  - apply names_ok_dir in Hok as (_ & Hne & Hok). apply named_well_dir. rewrite extract_dir in H.
    unfold mbind, F_bind, SR_bind in H. destruct (create_dir_all p s) as [[[]|e] s1]; [|done]. revert H.
    generalize (if decide (rel = "") then m else m ++ [mkManifestEntry rel "dir" 0 false]). intros m1 H.
    revert s1 m1 H. induction es as [|[name child] es IHes]; intros s1 m1 H; [done|]. cbn [extract_entries] in H.
    rewrite fmap_cons, not_elem_of_cons in Hne. destruct Hne as [Hn Hne].
    apply Forall_cons in IH as [Hchild IH]. apply Forall_cons in Hok as [Hc Hok].
    destruct (negb (Str.utf8_valid name)); [done|]. destruct (bad_name name) eqn:Eb; [done|].
    unfold mbind, F_bind, SR_bind in H. destruct (extract_node child _ _ m1 s1) as [[m2|e] s2] eqn:E; [|done].
    constructor; [|by eapply IHes]. split; [by apply good_name|]. by eapply Hchild.
Qed.

(** ** What is above a node of an archive *)
Lemma nar_at_above node k x r n : nar_at node (k ++ x :: r) = Some n → ∃ m, nar_at node k = Some (Dir m).
Proof.
  revert node. induction k as [|y k IH]; intros node; cbn [app].
  - destruct node as [| |es b]; cbn [nar_at]; try done. by eexists.
  - destruct node as [| |es b]; try done. destruct y as [| | |name]; try done. rewrite !nar_at_dir.
    unfold entries_at. destruct (list_find (λ e, e.1 = name) es) as [[i [n' c]]|]; [|done]. cbn [fmap option_fmap option_map mbind option_bind snd].
    apply IH.
Qed.

(** ** Nothing else is touched *)
Definition part_of (p : path) (base : tree) (node : nar) (t : tree) : Prop :=
  around p base t ∧ ∀ q, t !! (p ++ q) = None ∨ node_like (t !! (p ++ q)) (nar_at node q).

Lemma part_plain p base node t names :
  plain base p → part_of p base node t → is_Some (nar_at node (Normal <$> names)) → plain t (p ++ (Normal <$> names)).
Proof.
  intros Hp [Ha Hn] [x Hx]. pose proof Hp as [[ns ->] _]. split; [exists (ns ++ names); by rewrite fmap_app|].
  intros q Hq Hne Hl target Ht. set (p := RootDir :: (Normal <$> ns)) in *.
  destruct (decide (p `prefix_of` q)) as [[k ->]|Hnp].
  - destruct Hq as [r Hr]. rewrite <- app_assoc in Hr. apply app_inv_head in Hr. rewrite Hr in Hx.
    destruct r as [|y r]; [by rewrite Hr, app_nil_r in Hne|]. destruct (nar_at_above _ _ _ _ _ Hx) as [m Hm].
    destruct (Hn k) as [E|E]; rewrite Ht in E; [done|]. by rewrite Hm in E.
  - destruct (Ha q Hnp) as [E|(_ & _ & m & E)]; [|congruence]. rewrite E in Ht. destruct Hp as [_ Hp].
    apply (Hp q) with target; [|by intros ->|done|done].
    destruct (prefix_weak_total _ _ _ Hq (prefix_app_r _ p (Normal <$> names) ltac:(done))) as [?|?]; [done|done].
Qed.

Lemma part_delete p base node t names :
  part_of p base node t → part_of p base node (base.delete (p ++ names) t).
Proof.
  intros [Ha Hn]. split.
  - intros k Hk. assert (p ++ names ≠ k) as Hne by (intros <-; apply Hk; by apply prefix_app_r).
    unfold dir_at. rewrite !lookup_delete_ne by done. by apply Ha.
  - intros q. destruct (decide (p ++ names = p ++ q)) as [E|E].
    + left. rewrite E. apply lookup_delete_eq.
    + rewrite lookup_delete_ne by done. apply Hn.
Qed.

(** What an entry of the manifest of an archive says where its node is *)
Definition entry_in (node : nar) (e : ManifestEntry) : Prop :=
  ∃ names, Path.components (me_path e) = Normal <$> names ∧ is_Some (nar_at node (Normal <$> names)).

Lemma manifest_entries_in node : names_ok node → named_well node → Forall (entry_in node) (manifest_of node "").
Proof.
  intros Hok Hw. apply Forall_forall. intros e He. destruct (manifest_sound node "" e Hok He) as (names & Hp & Hd).
  assert (is_Some (nar_at node (Normal <$> names))) as Hx by (destruct (nar_at node _); [by eexists|done]).
  exists names. split; [|done]. rewrite Hp. apply components_rel. by apply Hw.
Qed.

Lemma join_names p names : abs_path p → Path.join p (Normal <$> names) = p ++ (Normal <$> names).
Proof. intros [ns ->]. unfold Path.join. by destruct names. Qed.

Lemma stays_unlink p base node names b :
  plain base p → is_Some (nar_at node (Normal <$> names)) →
  stays (part_of p base node) (ignore (unlinkat (p ++ (Normal <$> names)) b)).
Proof.
  intros Hp Hx. apply stays_ignore. intros s r s' Hs H.
  apply unlinkat_inv in H as [[-> _]|[_ ->]]; [apply run_in_refl| |by eapply part_plain].
  by apply run_in_push, part_delete.
Qed.

Lemma stays_unlink_all p base node es :
  plain base p → Forall (entry_in node) es → stays (part_of p base node) (unlink_all p es).
Proof.
  intros Hp. induction es as [|e es IH]; intros Hes; cbn [unlink_all]; [apply stays_ret|].
  apply Forall_cons in Hes as [(names & E & Hx) Hes]. apply stays_bind; [|intros _; by apply IH].
  rewrite E, join_names by apply Hp. by apply stays_unlink.
Qed.

Lemma stays_remove_tree abs base node :
  plain base (Path.components abs) → names_ok node → named_well node →
  stays (part_of (Path.components abs) base node) (remove_tree_via_manifest abs (manifest_of node "")).
Proof.
  intros Hp Hok Hw. unfold remove_tree_via_manifest. apply stays_bind.
  - apply stays_unlink_all; [done|]. apply Forall_reverse. by apply manifest_entries_in.
  - intros _. rewrite <- (app_nil_r (Path.components abs)) at 2. apply (stays_unlink _ base node []); [done|].
    destruct node; by eexists.
Qed.

(** ** Without a fault everything is removed *)
Definition removable (p : path) (node : nar) : Prop :=
  ∀ q, is_Some (nar_at node q) → fs_fault OpUnlink (p ++ q) = None ∧ short (p ++ q).

Lemma unlink_all_app root es1 es2 s s1 :
  unlink_all root es1 s = (Ok tt, s1) → unlink_all root (es1 ++ es2) s = unlink_all root es2 s1.
Proof.
  revert s. induction es1 as [|e es1 IH]; intros s; cbn [app unlink_all]; [by intros [= ->]|].
  unfold mbind, F_bind, SR_bind. destruct (ignore _ s) as [[[]|] s2]; [apply IH|done].
Qed.

(** The node at a path and what is below it, as in the archive *)
Definition holds (t : tree) (pn : path) (node : nar) : Prop :=
  Forall (dir_at t) (ancestors pn) ∧ ∀ q, node_like (t !! (pn ++ q)) (nar_at node q).

Definition is_directory (node : nar) : bool := match node with NarDirectory _ _ => true | _ => false end.

(** What the entries of a node take away: all of it, but for the top itself when it is a directory *)
Definition taken (names : list string) (pn : path) (node : nar) (k : path) : Prop :=
  pn `prefix_of` k ∧ ¬ (names = [] ∧ is_directory node = true ∧ k = pn).
#[local] Instance taken_dec names pn node k : Decision (taken names pn node k).
Proof. unfold taken. apply _. Defined.

Section gone.
Context (p : path) (Hp : abs_path p) (Hroot : p ≠ [RootDir]).

Definition at_ (names : list string) : path := p ++ (Normal <$> names).

Lemma at_abs names : abs_path (at_ names) ∧ at_ names ≠ [RootDir].
Proof using Hp Hroot.
  destruct Hp as [ns E]. unfold at_. rewrite E in *. split; [exists (ns ++ names); by rewrite fmap_app|].
  destruct ns; [done|]. by destruct names.
Qed.

Lemma at_snoc names n : at_ (names ++ [n]) = at_ names ++ [Normal n].
Proof using. unfold at_. by rewrite fmap_app, app_assoc. Qed.

Definition goes (node : nar) : Prop := ∀ names s,
  names_ok node → named_well node → Forall Path.wf_name names → removable (at_ names) node → holds (fs_tree s) (at_ names) node →
  ∃ s', unlink_all p (reverse (manifest_of node (rel_of names))) s = (Ok tt, s')
    ∧ ∀ k, fs_tree s' !! k = if decide (taken names (at_ names) node k) then None else fs_tree s !! k.

(** One entry *)
Lemma entry_goes names kind size x s n :
  Forall Path.wf_name names → Forall (dir_at (fs_tree s)) (ancestors (at_ names)) →
  fs_fault OpUnlink (at_ names) = None → short (at_ names) → fs_tree s !! at_ names = Some n →
  match n with
  | Dir _ => kind = "dir" ∧ ∀ k, at_ names `prefix_of` k → k ≠ at_ names → fs_tree s !! k = None
  | _ => kind ≠ "dir"
  end →
  unlink_all p [mkManifestEntry (rel_of names) kind size x] s = (Ok tt, push (base.delete (at_ names) (fs_tree s)) s).
Proof using Hp Hroot.
  intros Hw Hd Hf Hs Hn Hk. destruct (at_abs names) as [Ha Hr]. cbn [unlink_all]. unfold mbind, F_bind, SR_bind.
  cbn [me_path me_entry_type]. rewrite components_rel, join_names by done. change (p ++ (Normal <$> names)) with (at_ names).
  rewrite (unlinkat_ok _ _ s n); try done.
  destruct n; [by apply bool_decide_eq_false_2..|]. destruct Hk as [-> Hk]. by rewrite bool_decide_eq_true_2.
Qed.

Lemma taken_leaf names node k :
  is_directory node = false → taken names (at_ names) node k ↔ at_ names `prefix_of` k.
Proof using Hp Hroot. intros Hd. unfold taken. rewrite Hd. naive_solver. Qed.

Lemma leaf_goes names kind size x node n s :
  manifest_of node (rel_of names) = [mkManifestEntry (rel_of names) kind size x] →
  is_directory node = false → nar_at node [] = Some n → (∀ m, n ≠ Dir m) → kind ≠ "dir" →
  (∀ y q, nar_at node (y :: q) = None) → Forall Path.wf_name names → removable (at_ names) node →
  holds (fs_tree s) (at_ names) node →
  ∃ s', unlink_all p (reverse (manifest_of node (rel_of names))) s = (Ok tt, s')
    ∧ ∀ k, fs_tree s' !! k = if decide (taken names (at_ names) node k) then None else fs_tree s !! k.
Proof using Hp Hroot.
  intros Hm Hd Hn Hnd Hkind Hbelow Hw Hr [Hdirs Hh]. rewrite Hm. destruct (Hr []) as [Hf Hs]; [by eexists|].
  rewrite app_nil_r in Hf, Hs. pose proof (Hh []) as H0. rewrite app_nil_r, Hn in H0.
  assert (fs_tree s !! at_ names = Some n) as Hat.
  { unfold node_like in H0. destruct n as [c m|g|m]; [..|by destruct (Hnd m)]; by destruct (fs_tree s !! at_ names) as [[]|]. }
  eexists. split.
  - apply (entry_goes _ _ _ _ _ n); try done. destruct n as [c m|g|m]; [done..|]. by destruct (Hnd m).
  - intros k. cbn [fs_tree push]. destruct (decide (taken names (at_ names) node k)) as [Ht|Ht]; rewrite taken_leaf in Ht by done.
    + destruct Ht as [[|y q] ->]; [rewrite app_nil_r; apply lookup_delete_eq|].
      rewrite lookup_delete_ne by (intros E; by apply (below_ne (at_ names) y q)).
      specialize (Hh (y :: q)). rewrite Hbelow in Hh. unfold node_like in Hh. by destruct (fs_tree s !! _) as [[]|].
    + rewrite lookup_delete_ne; [done|]. by intros <-.
Qed.

Lemma at_length names : (2 ≤ length (at_ names))%nat.
Proof using Hp Hroot. destruct (at_abs names) as [[[|n ns] E] Hr]; rewrite E in *; [done|]. simpl. lia. Qed.

Definition in_entry (names : list string) (k : path) (n : string) : Prop := (at_ names ++ [Normal n]) `prefix_of` k.
#[local] Instance in_entry_dec names k n : Decision (in_entry names k n).
Proof. unfold in_entry. apply _. Defined.

Lemma not_in_above names n k : k `prefix_of` at_ names → ¬ in_entry names k n.
Proof using. intros Hk Hi. pose proof (prefix_length _ _ Hk). apply prefix_length in Hi. rewrite length_app in Hi. simpl in Hi. lia. Qed.

Lemma dirs_kept (names : list string) (n : string) (t t' : tree) :
  (∀ k : path, ¬ in_entry names k n → t' !! k = t !! k) →
  Forall (dir_at t) (ancestors (at_ names) ++ [at_ names]) → Forall (dir_at t') (ancestors (at_ names) ++ [at_ names]).
Proof using.
  intros Ht. rewrite !Forall_forall. intros Hd k Hk. destruct (Hd k Hk) as [m Hm]. exists m. rewrite Ht; [done|].
  apply not_in_above. apply elem_of_app in Hk as [Hk|Hk].
  - unfold ancestors in Hk. apply list_elem_of_fmap in Hk as (i & -> & _). exists (drop i (at_ names)). by rewrite take_drop.
  - by apply list_elem_of_singleton in Hk as ->.
Qed.

Definition entry_ready (names : list string) (e : string * nar) : Prop :=
  goes e.2 ∧ names_ok e.2 ∧ named_well e.2 ∧ Path.wf_name e.1 ∧ removable (at_ names ++ [Normal e.1]) e.2.

Lemma entries_go names es s :
  Forall (entry_ready names) es → NoDup es.*1 → Forall Path.wf_name names →
  Forall (dir_at (fs_tree s)) (ancestors (at_ names) ++ [at_ names]) →
  (∀ e, e ∈ es → ∀ q, node_like (fs_tree s !! (at_ names ++ Normal e.1 :: q)) (nar_at e.2 q)) →
  ∃ s', unlink_all p (reverse (manifest_entries (rel_of names) es)) s = (Ok tt, s')
    ∧ ∀ k, fs_tree s' !! k = if decide (Exists (in_entry names k) es.*1) then None else fs_tree s !! k.
Proof using Hp Hroot.
  revert s. induction es as [|[n c] es IH] using rev_ind; intros s Hes Hnd Hw Hd Hn.
  { exists s. split; [done|]. intros k. rewrite decide_False; [done|]. intros Hx. by apply Exists_nil in Hx. }
  apply Forall_app in Hes as [Hes [(Hg & Hok & Hnw & Hwf & Hrm) _]%Forall_cons]. cbn [fst snd] in *.
  rewrite fmap_app in Hnd. apply NoDup_app in Hnd as (Hnd & Hnew & _).
  unfold manifest_entries. rewrite bind_app, reverse_app. cbn [mbind list_bind fst snd]. rewrite app_nil_r, <- rel_snoc.
  destruct (Hg (names ++ [n]) s) as (s1 & E1 & Ht1); try done.
  { apply Forall_app. split; [done|]. by constructor. }
  { by rewrite at_snoc. }
  { rewrite at_snoc. split.
    - rewrite ancestors_snoc by apply at_length. done.
    - intros q. rewrite <- app_assoc. apply (Hn (n, c)). apply elem_of_app. right. by left. }
  assert (∀ k, fs_tree s1 !! k = if decide (in_entry names k n) then None else fs_tree s !! k) as Ht.
  { intros k. rewrite Ht1. unfold taken, in_entry. rewrite at_snoc.
    destruct (decide ((at_ names ++ [Normal n]) `prefix_of` k)) as [Hk|Hk]; [|rewrite decide_False; [done|by intros [? _]]].
    rewrite decide_True; [done|]. split; [done|]. intros (E & _). by destruct names. }
  rewrite (unlink_all_app _ _ _ _ _ E1). destruct (IH s1 Hes Hnd Hw) as (s2 & E2 & Ht2).
  { apply (dirs_kept names n (fs_tree s)); [|done]. intros k Hk. by rewrite Ht, decide_False. }
  { intros e He q. rewrite Ht, decide_False; [apply Hn, elem_of_app; by left|].
    intros Hi. unfold in_entry in Hi. destruct Hi as [r Hi]. rewrite <- app_assoc in Hi. apply app_inv_head in Hi.
    injection Hi as Hi _. apply (Hnew e.1); [apply list_elem_of_fmap; by exists e|]. rewrite Hi. by left. }
  exists s2. split; [exact E2|]. intros k. rewrite Ht2, Ht, fmap_app. cbn [fmap list_fmap].
  destruct (decide (Exists (in_entry names k) es.*1)) as [Hx|Hx].
  - rewrite decide_True; [done|]. apply Exists_app. by left.
  - destruct (decide (in_entry names k n)) as [Hi|Hi].
    + rewrite decide_True; [done|]. apply Exists_app. right. by constructor.
    + rewrite decide_False; [done|]. rewrite Exists_app, Exists_cons, Exists_nil. naive_solver.
Qed.

(** Everything below a directory is in one of its entries. *)
Lemma below_entry (t : tree) names es b k :
  (∀ q, node_like (t !! (at_ names ++ q)) (nar_at (NarDirectory es b) q)) →
  at_ names `prefix_of` k → k ≠ at_ names → is_Some (t !! k) → Exists (in_entry names k) es.*1.
Proof using.
  intros Hn [[|x q] ->] Hne [y Hy]; [by rewrite app_nil_r in Hne|]. specialize (Hn (x :: q)). rewrite Hy in Hn.
  destruct x as [| | |n]; try (by destruct y). rewrite nar_at_dir in Hn.
  destruct (entries_at es n q) as [z|] eqn:Ez; [|by destruct y]. apply entries_at_in in Ez as (c & Hin & _).
  apply Exists_exists. exists n. split; [apply list_elem_of_fmap; by exists (n, c)|]. exists q. by rewrite <- app_assoc.
Qed.

Lemma dir_goes es b : Forall (λ e, goes e.2) es → goes (NarDirectory es b).
Proof using Hp Hroot.
  intros Hg names s Hok Hnw Hw Hr [Hd Hn]. apply names_ok_dir in Hok as (Hnd & _ & Hok). rewrite manifest_of_dir, reverse_app.
  assert (∃ m, fs_tree s !! at_ names = Some (Dir m)) as [m Hm].
  { specialize (Hn []). rewrite app_nil_r in Hn. cbn [nar_at] in Hn. unfold node_like in Hn.
    destruct (fs_tree s !! at_ names) as [[]|]; try done. by eexists. }
  assert (∀ n c q x, (n, c) ∈ es → nar_at c q = Some x → nar_at (NarDirectory es b) (Normal n :: q) = Some x) as Hsub.
  { intros n c q x Hin Hx. by rewrite nar_at_dir, (entries_at_elem es n c). }
  destruct (entries_go names es s) as (s1 & E1 & Ht1); [|done|done|by apply Forall_app; split; [|constructor; [by exists m|]]|..].
  { rewrite Forall_forall in Hg, Hok |- *. intros [n c] Hin. split; [exact (Hg _ Hin)|]. split; [exact (Hok _ Hin)|].
    cbn [fst snd]. split_and!.
    - intros ns [x Hx]. pose proof (Hnw (n :: ns)) as H. apply Forall_cons in H as [_ H]; [done|].
      exists x. by apply (Hsub n c).
    - pose proof (Hnw [n]) as H. apply Forall_cons in H as [H _]; [done|].
      assert (is_Some (nar_at c [])) as [x Hx] by (destruct c; by eexists). exists x. by apply (Hsub n c).
    - intros q [x Hx]. rewrite <- app_assoc. apply (Hr (Normal n :: q)). exists x. by apply (Hsub n c). }
  { intros [n c] Hin q. specialize (Hn (Normal n :: q)). by rewrite nar_at_dir, (entries_at_elem es n c) in Hn. }
  rewrite (unlink_all_app _ _ _ _ _ E1).
  assert (∀ k, at_ names `prefix_of` k → k ≠ at_ names → fs_tree s1 !! k = None) as Hempty.
  { intros k Hk Hne. rewrite Ht1. case_decide as Hx; [done|]. destruct (fs_tree s !! k) as [y|] eqn:Ey; [|done].
    destruct Hx. eapply below_entry; [exact Hn|done|done|by exists y]. }
  assert (∀ k, ¬ at_ names `prefix_of` k ∨ k = at_ names → fs_tree s1 !! k = fs_tree s !! k) as Hsame.
  { intros k Hk. rewrite Ht1, decide_False; [done|]. rewrite Exists_exists. intros (n & _ & Hi).
    destruct Hk as [Hk| ->]; [|by apply (not_in_above names n (at_ names))]. apply Hk. etrans; [|exact Hi]. by apply prefix_app_r. }
  destruct (decide (rel_of names = "")) as [He|He].
  - apply (rel_empty names Hw) in He as ->. exists s1. split; [done|]. intros k. unfold taken. cbn [is_directory].
    destruct (decide (at_ [] `prefix_of` k)) as [Hk|Hk]; [destruct (decide (k = at_ [])) as [->|Hne]|].
    + rewrite decide_False by naive_solver. apply Hsame. by right.
    + rewrite decide_True by naive_solver. by apply Hempty.
    + rewrite decide_False by naive_solver. apply Hsame. by left.
  - destruct (Hr []) as [Hf Hs]; [by eexists|]. rewrite app_nil_r in Hf, Hs.
    exists (push (base.delete (at_ names) (fs_tree s1)) s1). split.
    + apply (entry_goes _ _ _ _ _ (Dir m)); try done.
      * rewrite Forall_forall in Hd |- *. intros k Hk. destruct (Hd k Hk) as [mk Hmk]. exists mk. rewrite Hsame; [done|]. left.
        unfold ancestors in Hk. apply list_elem_of_fmap in Hk as (i & -> & Hi%elem_of_seq).
        intros Hpre%prefix_length. rewrite length_take in Hpre. lia.
      * rewrite Hsame by (by right). done.
    + intros k. cbn [fs_tree push]. unfold taken. destruct (decide (at_ names `prefix_of` k)) as [Hk|Hk].
      * rewrite decide_True; [|split; [done|]; intros (-> & _); done].
        destruct (decide (k = at_ names)) as [->|Hne]; [apply lookup_delete_eq|]. rewrite lookup_delete_ne by done. by apply Hempty.
      * rewrite decide_False by naive_solver. rewrite lookup_delete_ne by (by intros <-). apply Hsame. by left.
Qed.

Lemma all_goes node : goes node.
Proof using Hp Hroot.
  induction node as [x c b|g|es b IH] using nar_ind'; [..|by apply dir_goes]; intros names s _ _ Hw Hr Hh.
  - by eapply (leaf_goes names "file" _ _ _ (File c (if x then _ else _))).
  - by eapply (leaf_goes names "symlink" _ _ _ (Link g)).
Qed.
End gone.

(** A fault-free removal of what was extracted leaves nothing. *)
Lemma removed abs node s :
  abs_path (Path.components abs) → Path.components abs ≠ [RootDir] → names_ok node → named_well node →
  removable (Path.components abs) node → holds (fs_tree s) (Path.components abs) node →
  ∃ s', remove_tree_via_manifest abs (manifest_of node "") s = (Ok tt, s') ∧ clear (fs_tree s') (Path.components abs).
Proof.
  set (p := Path.components abs). intros Ha Hroot Hok Hnw Hr Hh. unfold remove_tree_via_manifest. fold p.
  assert (at_ p [] = p) as Hp0 by apply app_nil_r.
  destruct (all_goes p Ha Hroot node [] s Hok Hnw) as (s1 & E1 & Ht1); [done|by rewrite Hp0..|].
  rewrite Hp0 in Ht1. unfold mbind, F_bind, SR_bind. change (rel_of []) with "" in E1. rewrite E1.
  assert (∀ k, p `prefix_of` k → fs_tree s1 !! k = if decide (is_directory node = true ∧ k = p) then fs_tree s !! k else None) as Hlook.
  { intros k Hk. rewrite Ht1. unfold taken. repeat case_decide; naive_solver. }
  destruct Hh as [Hd Hn]. destruct (Hr []) as [Hf Hs]; [by destruct node; eexists|]. rewrite app_nil_r in Hf, Hs.
  assert (Forall (dir_at (fs_tree s1)) (ancestors p)) as Hd1.
  { rewrite Forall_forall in Hd |- *. intros k Hk. destruct (Hd k Hk) as [m Hm]. exists m. rewrite Ht1, decide_False; [done|].
    intros [Hpre%prefix_length _]. unfold ancestors in Hk. apply list_elem_of_fmap in Hk as (i & -> & Hi%elem_of_seq).
    rewrite length_take in Hpre. lia. }
  destruct (is_directory node) eqn:Edir.
  - assert (∃ m, fs_tree s1 !! p = Some (Dir m)) as [m Hm].
    { rewrite Hlook, decide_True by done. specialize (Hn []). rewrite app_nil_r in Hn.
      destruct node; try done. unfold node_like in Hn. cbn [nar_at] in Hn. destruct (fs_tree s !! p) as [[]|]; try done. by eexists. }
    rewrite (unlinkat_ok p true s1 (Dir m)); try done.
    + eexists. split; [done|]. intros k Hk. cbn [fs_tree push]. destruct (decide (k = p)) as [->|Hne]; [apply lookup_delete_eq|].
      rewrite lookup_delete_ne, Hlook, decide_False by naive_solver. done.
    + split; [done|]. intros k Hk Hne. by rewrite Hlook, decide_False by naive_solver.
  - assert (clear (fs_tree s1) p) as Hc by (intros k Hk; by rewrite Hlook, decide_False by naive_solver).
    exists s1. split; [|done]. unfold ignore, catch, unlinkat, rmdir, mbind, F_bind, SR_bind, check_fault, get_tree, lift.
    rewrite Hf. unfold mret, F_ret, SR_ret. simpl. rewrite (resolve_leaf _ p) by done.
    assert (node_at (fs_tree s1) p = None) as ->; [|done]. unfold node_at. rewrite decide_False by done. by apply Hc.
Qed.
End removal.
