(* ===== verification/SchemeHandles.v ===== *)
(** * Handles of the read-only scheme daemons

    What [stored/handles.rs] and [profiled/handles.rs] have in common: numbered handles,
    files that are loaded whole on the first read and served from memory afterwards, and
    the listing of a directory into the buffer of a [getdents] request. *)

From S2P Require Import Prelude RustStd FileSys HandleId ProxyIo.

Open Scope Z_scope.

(** ** Requests

    A request changes the state of the daemon and answers or fails; [None] is a request
    that never returns. *)
Definition Req (S A : Type) : Type := S → option (result errno A * S).

#[export] Instance Req_ret S : MRet (Req S) := λ A a s, Some (Ok a, s).
#[export] Instance Req_bind S : MBind (Req S) := λ A B f m s,
  match m s with
  | Some (Ok a, s') => f a s'
  | Some (Err e, s') => Some (Err e, s')
  | None => None
  end.

Definition rq_get {S} : Req S S := λ s, Some (Ok s, s).
Definition rq_put {S} (s : S) : Req S unit := λ _, Some (Ok tt, s).
Definition rq_fail {S A} (e : errno) : Req S A := λ s, Some (Err e, s).
Definition rq_lift {S A} (r : result errno A) : Req S A := λ s, Some (r, s).

(** ** Lazy files *)
Record LazyFile : Type := mkLazyFile {
  lf_content : option string;
  lf_real_path : path;
  lf_scheme_path : string;
  lf_size : Z;
  lf_executable : bool;
}.

(** The handle types of a daemon: which of them are files *)
Class LazyHandle (H : Type) : Type := {
  as_file : H → option LazyFile;
  of_file : LazyFile → H;
}.

Class LazyHandleLaws (H : Type) `{LazyHandle H} : Prop := {
  as_of_file fh : as_file (of_file fh) = Some fh;
}.

Record HandleTable (H : Type) : Type := mkHandleTable {
  next_id : Z;
  handles : gmap Z H;
}.
Arguments mkHandleTable {H}.
Arguments next_id {H}.
Arguments handles {H}.

(** The worker thread reads the whole file; it has the disk of the moment. *)
Definition worker_preload `{FsLimits} (t : tree) (p : path) : result io_error string := read_file t p.

Section table.
Context `{FL : FsLimits} {H : Type} `{LH : LazyHandle H}.
Implicit Types (tb : HandleTable H) (t : tree).

Definition new_table : HandleTable H := mkHandleTable 1 ∅.

Definition alloc_id tb : option (Z * HandleTable H) :=
  '(id, next) ← alloc_loop (alloc_fuel (handles tb)) (handles tb) (next_id tb);
  Some (id, mkHandleTable next (handles tb)).

Definition insert_handle (id : Z) (h : H) tb : HandleTable H :=
  mkHandleTable (next_id tb) (<[id := h]> (handles tb)).

(** A new handle *)
Definition open_handle (h : H) tb : option (Z * HandleTable H) :=
  '(id, tb') ← alloc_id tb; Some (id, insert_handle id h tb').

(** [buf[..n].copy_from_slice(&content[start..][..n])] *)
Definition slice (content : string) (offset len : Z) : string :=
  let size := Z.of_nat (String.length content) in
  if decide (size ≤ offset) then ""
  else String.substring (Z.to_nat offset) (Z.to_nat (Z.min (size - offset) len)) content.

(** [read]: the file is loaded on the first one *)
Definition read_handle t (id len offset : Z) tb : result errno string * HandleTable H :=
  match handles tb !! id with
  | None => (Err EBADF, tb)
  | Some h =>
      match as_file h with
      | None => (Err EBADF, tb)
      | Some fh =>
          match lf_content fh with
          | Some content => (Ok (slice content offset len), tb)
          | None =>
              match worker_preload t (lf_real_path fh) with
              | Err _ => (Err EBADF, tb)
              | Ok data =>
                  let fh' := mkLazyFile (Some data) (lf_real_path fh) (lf_scheme_path fh)
                               (Z.of_nat (String.length data)) (lf_executable fh) in
                  (Ok (slice data offset len), insert_handle id (of_file fh') tb)
              end
          end
      end
  end.

Definition close_handle (id : Z) tb : option H * HandleTable H :=
  (handles tb !! id, mkHandleTable (next_id tb) (base.delete id (handles tb))).

Definition open_file_lazy (real_path : path) (scheme_path : string) (size : Z) (executable : bool) tb
    : option (Z * HandleTable H) :=
  open_handle (of_file (mkLazyFile None real_path scheme_path size executable)) tb.

(** ** Lemmas *)
Lemma open_handle_fresh h tb id tb' :
  open_handle h tb = Some (id, tb') →
  handles tb !! id = None ∧ 1 ≤ id ≤ MAX_HANDLE_ID ∧ handles tb' = <[id := h]> (handles tb).
Proof.
  unfold open_handle, alloc_id. destruct (alloc_loop _ _ _) as [[i n]|] eqn:E; [|done].
  simpl. intros [= <- <-]. apply alloc_loop_sound in E as (? & ? & _). done.
Qed.

Lemma open_handle_other h tb id tb' i x :
  open_handle h tb = Some (id, tb') → handles tb !! i = Some x → handles tb' !! i = Some x.
Proof.
  intros (Hn & _ & ->)%open_handle_fresh Hi. rewrite lookup_insert_ne; [done|]. congruence.
Qed.

Lemma read_handle_other t id len offset tb r tb' i :
  read_handle t id len offset tb = (r, tb') → i ≠ id → handles tb' !! i = handles tb !! i.
Proof.
  unfold read_handle. intros Hr Hi. destruct (handles tb !! id) as [h|]; [|by injection Hr as <- <-].
  destruct (as_file h) as [fh|]; [|by injection Hr as <- <-].
  destruct (lf_content fh); [by injection Hr as <- <-|].
  destruct (worker_preload t (lf_real_path fh)); injection Hr as <- <-; [|done].
  simpl. by rewrite lookup_insert_ne.
Qed.

Lemma read_handle_not_file t id len offset tb h :
  handles tb !! id = Some h → as_file h = None → read_handle t id len offset tb = (Err EBADF, tb).
Proof. unfold read_handle. by intros -> ->. Qed.

End table.

(** ** Directory listings

    [DirentBuf] is the scheme library's: [entry] appends an entry, or fails when it does
    not fit.  [entries_of] is what the client reads from a buffer: with each entry, the
    offset at which it continues. *)
Class DirentBuffer (Buf : Type) : Type := {
  db_entry : Buf → Z → string → DirentKind → option Buf;
  entries_of : Buf → list (Z * (string * DirentKind));
}.

Class DirentBufferLaws (Buf : Type) `{DirentBuffer Buf} : Prop := {
  db_entry_appends b i n k b' : db_entry b i n k = Some b' → entries_of b' = entries_of b ++ [(i, (n, k))];
}.

Section dirents.
Context {Buf : Type} `{DB : DirentBuffer Buf}.

(** The loop over the entries, the next one numbered [i]; it breaks off when the buffer is full. *)
Fixpoint fill (buf : Buf) (i : Z) (es : list (string * DirentKind)) : Buf :=
  match es with
  | [] => buf
  | (name, kind) :: es' =>
      match db_entry buf (i + 1) name kind with
      | Some buf' => fill buf' (i + 1) es'
      | None => buf
      end
  end.

(** [entries.iter().enumerate().skip(start)] *)
Definition fill_from (buf : Buf) (start : Z) (es : list (string * DirentKind)) : Buf :=
  fill buf start (drop (Z.to_nat start) es).

End dirents.
