(* ===== verification/ProfileScheme.v ===== *)
(** * The profile scheme ([profiled/scheme.rs], [profiled/handles.rs], [profiled/mod.rs])

    The requests of the kernel to the profile daemon, each a definition over the daemon's
    state: its profiles, the file manifests of the installed packages, the open handles.
    Log lines, the socket and the event loop's plumbing are not modelled. *)

From S2P Require Import Prelude RustStd FileSys Nar PathInfo HandleId ProxyIo SchemeHandles Profiles.

Open Scope Z_scope.

Inductive ProfileHandle : Type :=
  | PFile (fh : LazyFile)
  | PDir (scheme_path profile_name subpath : string)
  | PControl (profile_name scheme_path buffer : string).

#[export] Instance profile_lazy : LazyHandle ProfileHandle := {|
  as_file h := match h with PFile fh => Some fh | _ => None end;
  of_file := PFile;
|}.

#[export] Instance profile_lazy_laws : LazyHandleLaws ProfileHandle.
Proof. by constructor. Qed.

(** The scheme handler: [ProfileDaemon] and its [HandleTable] *)
Record ProfileScheme : Type := mkProfileScheme {
  sc_profiles : ProfileStore;
  sc_manifests : gmap string (list ManifestEntry);
  sc_handles : HandleTable ProfileHandle;
}.

Definition set_handles (tb : HandleTable ProfileHandle) (s : ProfileScheme) : ProfileScheme :=
  mkProfileScheme (sc_profiles s) (sc_manifests s) tb.

Abbreviation PReq := (Req ProfileScheme).

Section profiled.
Context `{FL : FsLimits, PJ : ProfileJson, ABI : SyscallAbi, SPL : StorePathLib, IJ : InfoJson,
  MJ : ManifestJson, IOF : IoFaults}.

(** ** Starting *)

(** The manifest of a package, from the [files] field of its path information *)
Definition load_package_manifest (db : directory) (acc : gmap string (list ManifestEntry)) (pkg : ProfileEntry)
    : gmap string (list ManifestEntry) :=
  match acc !! pe_store_path pkg with
  | Some _ => acc
  | None =>
      match get db (pe_store_path pkg) with
      | Ok (Some info) => match files info with [] => acc | l => <[pe_store_path pkg := l]> acc end
      | _ => acc
      end
  end.

Definition load_manifests (db : directory) (profiles : ProfileStore) : gmap string (list ManifestEntry) :=
  foldl (λ acc name,
    match Profiles.profiles profiles !! name with
    | Some mapping => foldl (load_package_manifest db) acc (packages mapping)
    | None => acc
    end) ∅ (list_profiles profiles).

(** [ProfileDaemon::new] after the profiles are loaded, and the empty handle table *)
Definition new_daemon (db : directory) (profiles : ProfileStore) : ProfileScheme :=
  mkProfileScheme profiles (load_manifests db profiles) new_table.

(** ** Requests *)
Definition parse_path (p : string) : option string * string :=
  let p := Str.trim_matches "/" p in
  if decide (p = "") then (None, "")
  else match Str.split_once "/" p with
       | Some (name, sub) => (Some name, sub)
       | None => (Some p, "")
       end.

(** A new handle; the request never returns when no number is found *)
Definition new_handle (h : ProfileHandle) : PReq Z := λ s,
  match open_handle h (sc_handles s) with
  | Some (id, tb) => Some (Ok id, set_handles tb s)
  | None => None
  end.

Definition scheme_root : PReq Z := new_handle (PDir "" "" "").

(** The first of the packages that has the file: where it is, its size and whether it is
    executable *)
Fixpoint find_file (manifests : gmap string (list ManifestEntry)) (subpath : string) (pkgs : list ProfileEntry)
    : option (path * Z * bool) :=
  match pkgs with
  | [] => None
  | pkg :: pkgs' =>
      match manifests !! pe_store_path pkg with
      | None => find_file manifests subpath pkgs'
      | Some manifest =>
          match list_find (λ e, me_path e = subpath ∧ me_entry_type e = "file") manifest with
          | Some (_, e) => Some (Path.join (Path.components (pe_store_path pkg)) (Path.components subpath),
                                 me_size e, me_executable e)
          | None => find_file manifests subpath pkgs'
          end
      end
  end.

Definition openat (p : string) (flags : Z) : PReq Z :=
  let p := Str.trim_matches "/" p in
  let '(profile_name, subpath) := parse_path p in
  match profile_name with
  | None => new_handle (PDir "" "" "")
  | Some name =>
      if decide (subpath = ".control") then new_handle (PControl name p "")
      else if bool_decide (subpath = "") || has flags O_DIRECTORY then new_handle (PDir p name subpath)
      else
        s ← rq_get;
        match profiles (sc_profiles s) !! name with
        | None => rq_fail ENOENT
        | Some mapping =>
            match Mapping.list_union_from_manifests subpath (sc_manifests s) mapping with
            | _ :: _ => new_handle (PDir p name subpath)
            | [] =>
                match find_file (sc_manifests s) subpath (rev (packages mapping)) with
                | None => rq_fail ENOENT
                | Some (full_path, size, executable) =>
                    new_handle (of_file (mkLazyFile None full_path p size executable))
                end
            end
        end
  end.

Definition read (id len offset : Z) : PReq string := λ s,
  let '(r, tb) := read_handle (fs_tree (ps_fs (sc_profiles s))) id len offset (sc_handles s) in
  Some (r, set_handles tb s).

Definition write (id : Z) (data : string) : PReq Z := λ s,
  match handles (sc_handles s) !! id with
  | Some (PControl name p buffer) =>
      Some (Ok (Z.of_nat (String.length data)),
            set_handles (insert_handle id (PControl name p (buffer +:+ data)) (sc_handles s)) s)
  | _ => Some (Err EACCES, s)
  end.

Definition file_size (h : ProfileHandle) : Z := match h with PFile fh => lf_size fh | _ => 0 end.

Definition handle_path (h : ProfileHandle) : string :=
  match h with PFile fh => lf_scheme_path fh | PDir p _ _ => p | PControl _ p _ => p end.

Definition with_handle {A} (id : Z) (f : ProfileHandle → A) : PReq A :=
  s ← rq_get;
  match handles (sc_handles s) !! id with Some h => mret (f h) | None => rq_fail EBADF end.

Definition fsize (id : Z) : PReq Z := with_handle id file_size.

(** The bytes copied into a buffer of [len] bytes *)
Definition fpath (id len : Z) : PReq string :=
  with_handle id (λ h,
    let full := if decide (handle_path h = "") then "/scheme/profile" else "/scheme/profile/" +:+ handle_path h in
    String.substring 0 (Z.to_nat (Z.min (Z.of_nat (String.length full)) len)) full).

Definition fevent (id : Z) : PReq Z :=
  with_handle id (λ h, match h with PControl _ _ _ => EVENT_WRITE | _ => EVENT_READ end).

(** [st_size], [st_mode], [st_nlink]; a directory and a control file keep the caller's
    [st_nlink]. *)
Definition fstat (id nlink : Z) : PReq (Z * Z * Z) :=
  with_handle id (λ h, match h with
    | PFile fh => (lf_size fh, if lf_executable fh then 0x816D else 0x8124, 1)
    | PDir _ _ _ => (0, 0x416D, nlink)
    | PControl _ _ _ => (0, 0x8092, nlink)
    end).

Section getdents.
Context {Buf : Type} `{DB : DirentBuffer Buf}.

Definition root_kind (e : UnionEntry) : string * DirentKind :=
  (ue_name e, if ue_is_dir e then KindDirectory else KindRegular).

Definition sub_kind (e : UnionEntry) : string * DirentKind :=
  (ue_name e, if ue_is_dir e then KindDirectory else if ue_is_symlink e then KindSymlink else KindRegular).

(** [.control] comes after the entries, whether the loop over them broke off or not. *)
Definition add_control (buf : Buf) (start : Z) (count : nat) : Buf :=
  if decide (start ≤ Z.of_nat count)
  then default buf (db_entry buf (Z.of_nat count + 1) ".control" KindRegular)
  else buf.

Definition getdents (id : Z) (buf : Buf) (start : Z) : PReq Buf :=
  s ← rq_get;
  match handles (sc_handles s) !! id with
  | None => rq_fail EBADF
  | Some (PDir _ profile_name subpath) =>
      if decide (profile_name = "") then
        mret (fill_from buf start ((λ n, (n, KindDirectory)) <$> list_profiles (sc_profiles s)))
      else
        match profiles (sc_profiles s) !! profile_name with
        | None => mret buf
        | Some mapping =>
            let entries := Mapping.list_union_from_manifests subpath (sc_manifests s) mapping in
            if decide (subpath = "") then
              let all_entries := root_kind <$> entries in
              mret (add_control (fill_from buf start all_entries) start (length all_entries))
            else mret (fill_from buf start (sub_kind <$> entries))
        end
  | Some _ => rq_fail ENOTDIR
  end.
End getdents.

(** The command of a control handle runs when the handle is closed; [now] is the time. *)
Definition on_close (now id : Z) : PReq unit := λ s,
  let '(h, tb) := close_handle id (sc_handles s) in
  let s := set_handles tb s in
  match h with
  | Some (PControl profile_name _ buffer) =>
      if decide (buffer = "") then Some (Ok tt, s)
      else
        let '(r, profiles') := process_control now profile_name (Str.from_utf8_lossy buffer) (sc_profiles s) in
        let manifests := match r with
                         | Ok (_, Some (store_path, manifest)) => <[store_path := manifest]> (sc_manifests s)
                         | _ => sc_manifests s
                         end in
        Some (Ok tt, mkProfileScheme profiles' manifests tb)
  | _ => Some (Ok tt, s)
  end.

End profiled.
