(* ===== verification/ProfileFacts.v ===== *)
(** * What a profile is: the daemon's mappings are a replay of the commands

    The daemon keeps a list per profile and rewrites it on every command.  What it promises
    is said here of the history of the commands: a package is installed as long as the last
    command about it was to add it, and the packages of a profile stand in the order of
    these commands - the order in which a later package's files hide an earlier one's. *)

From S2P Require Import Prelude RustStd FileSys Nar Profiles Instances ManifestInstances.

Open Scope Z_scope.

(** ** The specification: a log of events *)
Inductive event : Type :=
  | Loaded (profile : string) (version : Z)
  | Added (profile : string) (e : ProfileEntry)
  | Removed (profile name : string).

Definition about (profile : string) (ev : event) : Prop :=
  match ev with Loaded p _ | Added p _ | Removed p _ => p = profile end.

(** The event decides whether the package is installed. *)
Definition concerns (profile name : string) (ev : event) : Prop :=
  match ev with
  | Loaded _ _ => False
  | Added p e => p = profile ∧ pe_name e = name
  | Removed p n => p = profile ∧ n = name
  end.

#[export] Instance about_dec profile ev : Decision (about profile ev).
Proof. destruct ev; simpl; apply _. Defined.
#[export] Instance concerns_dec profile name ev : Decision (concerns profile name ev).
Proof. destruct ev; simpl; apply _. Defined.

(** What is installed in a profile: what was added and not concerned since, in this order *)
Fixpoint live (profile : string) (log : list event) : list ProfileEntry :=
  match log with
  | [] => []
  | Added p e :: later =>
      if decide (p = profile ∧ ¬ Exists (concerns profile (pe_name e)) later)
      then e :: live profile later else live profile later
  | _ :: later => live profile later
  end.

(** The version of a profile, once there is one: it is loaded with it, or made by the first package *)
Fixpoint born (profile : string) (log : list event) : option Z :=
  match log with
  | [] => None
  | Loaded p v :: later => if decide (p = profile) then Some v else born profile later
  | Added p _ :: later => if decide (p = profile) then Some 1 else born profile later
  | Removed _ _ :: later => born profile later
  end.

Definition replay (log : list event) (profile : string) : option ProfileMapping :=
  v ← born profile log; Some (mkProfileMapping v (live profile log)).

(** The entry the last event about a package left *)
Definition installed (log : list event) (profile name : string) : option ProfileEntry :=
  '(_, ev) ← list_find (concerns profile name) (rev log);
  match ev with Added _ e => Some e | _ => None end.

(** ** Logs that grow *)
Section logs.
Implicit Types (log : list event).

Lemma live_snoc profile log ev :
  live profile (log ++ [ev])
  = filter (λ e, ¬ concerns profile (pe_name e) ev) (live profile log) ++ live profile [ev].
Proof.
  induction log as [|x log IH]; [done|]. simpl app. destruct x as [p v|p e|p n]; simpl live at 1 2; try exact IH.
  rewrite IH. destruct (decide (p = profile)) as [->|Hp].
  2:{ rewrite !decide_False by (by intros [? _]). done. }
  destruct (decide (concerns profile (pe_name e) ev)) as [Hc|Hc].
  - rewrite decide_False by (intros [_ Hn]; apply Hn, Exists_app; right; by constructor).
    case_decide; [|done]. rewrite filter_cons_False by (by intros ?). done.
  - assert (Hiff : Exists (concerns profile (pe_name e)) (log ++ [ev]) ↔ Exists (concerns profile (pe_name e)) log).
    { rewrite Exists_app, Exists_cons, Exists_nil. naive_solver. }
    case_decide as H1; case_decide as H2; [|naive_solver|naive_solver|done].
    by rewrite filter_cons_True.
Qed.

Lemma born_snoc profile log ev :
  born profile (log ++ [ev]) = match born profile log with Some v => Some v | None => born profile [ev] end.
Proof.
  induction log as [|x log IH]; [done|]. simpl app. destruct x as [p v|p e|p n]; simpl; try case_decide; done.
Qed.

Lemma filter_all {A} (P : A → Prop) `{!∀ x, Decision (P x)} l : Forall P l → filter P l = l.
Proof. induction 1; [done|]. rewrite filter_cons_True by done. by f_equal. Qed.

(** Events about other profiles do not count. *)
Lemma live_other profile log ev : ¬ about profile ev → live profile (log ++ [ev]) = live profile log.
Proof.
  intros Ha. rewrite live_snoc, filter_all.
  - destruct ev; simpl in *; rewrite ?decide_False by naive_solver; apply app_nil_r.
  - apply Forall_forall. intros e _. destruct ev; simpl in *; naive_solver.
Qed.

Lemma replay_other profile log ev : ¬ about profile ev → replay (log ++ [ev]) profile = replay log profile.
Proof.
  intros Ha. unfold replay. rewrite live_other, born_snoc by done. destruct (born profile log); [done|].
  destruct ev; simpl in *; by rewrite ?decide_False.
Qed.

Lemma filter_concerns (profile name : string) (P : ProfileEntry → Prop) `{!∀ e, Decision (P e)} (l : list ProfileEntry) :
  (∀ e, P e ↔ ¬ (profile = profile ∧ name = pe_name e)) → filter P l = filter (λ p, pe_name p ≠ name) l.
Proof.
  intros HP. apply list_filter_iff. intros e. rewrite HP. split; intros Hn E; apply Hn; [by split|by destruct E].
Qed.

Lemma replay_added profile log e :
  replay (log ++ [Added profile e]) profile
  = Some (mkProfileMapping (default 1 (born profile log))
                           (filter (λ p, pe_name p ≠ pe_name e) (live profile log) ++ [e])).
Proof.
  unfold replay. rewrite live_snoc, born_snoc. simpl.
  rewrite !decide_True by (rewrite ?Exists_nil; naive_solver).
  rewrite (filter_concerns profile (pe_name e)) by done. by destruct (born profile log).
Qed.

(** What is installed is in a profile there is. *)
Lemma born_live profile log : born profile log = None → live profile log = [].
Proof.
  induction log as [|[p v|p e|p n] log IH]; simpl; [done|by case_decide| |done].
  case_decide; [done|]. by rewrite decide_False by naive_solver.
Qed.

Lemma replay_removed profile log name :
  replay (log ++ [Removed profile name]) profile
  = (λ m, mkProfileMapping (pm_version m) (filter (λ p, pe_name p ≠ name) (packages m))) <$> replay log profile.
Proof.
  unfold replay. rewrite live_snoc, born_snoc. simpl. rewrite app_nil_r.
  destruct (born profile log) as [v|]; [|done]. simpl. by rewrite (filter_concerns profile name).
Qed.

(** A package is installed once at most. *)
Lemma live_unique profile log : NoDup (pe_name <$> live profile log).
Proof.
  induction log as [|x log IH] using rev_ind; [constructor|]. rewrite live_snoc, fmap_app. apply NoDup_app. split_and!.
  - clear -IH. induction (live profile log) as [|e l IHl]; [constructor|]. rewrite fmap_cons in IH.
    apply NoDup_cons in IH as [He Hl]. rewrite filter_cons. case_decide; [|by apply IHl].
    rewrite fmap_cons. apply NoDup_cons. split; [|by apply IHl]. intros Hin. apply He.
    apply list_elem_of_fmap in Hin as (y & -> & Hy). apply list_elem_of_filter in Hy as [_ Hy].
    by apply list_elem_of_fmap_2.
  - intros n Hn Hx. apply list_elem_of_fmap in Hn as (e & -> & He). apply list_elem_of_filter in He as [Hc _].
    destruct x as [p v|p a|p m]; simpl in Hx; try by apply elem_of_nil in Hx.
    case_decide as Hd; [|by apply elem_of_nil in Hx]. apply list_elem_of_singleton in Hx. apply Hc. simpl. naive_solver.
  - destruct x as [p v|p a|p m]; simpl; try constructor. case_decide; [apply NoDup_singleton|constructor].
Qed.

(** What the last event about a package left is what is installed. *)
Lemma installed_snoc log ev profile name :
  installed (log ++ [ev]) profile name
  = if decide (concerns profile name ev) then match ev with Added _ e => Some e | _ => None end
    else installed log profile name.
Proof.
  unfold installed. rewrite rev_app_distr. simpl. case_decide; [done|].
  by destruct (list_find _ (rev log)) as [[i x]|].
Qed.

Lemma find_app name (l l' : list ProfileEntry) :
  snd <$> list_find (λ p, pe_name p = name) (l ++ l')
  = match snd <$> list_find (λ p, pe_name p = name) l with
    | Some e => Some e
    | None => snd <$> list_find (λ p, pe_name p = name) l'
    end.
Proof.
  induction l as [|e l IH]; [done|]. simpl app. cbn [list_find]. case_decide; [done|].
  destruct (list_find _ l) as [[]|], (list_find _ (l ++ l')) as [[]|]; done.
Qed.

Lemma find_kept name (P : ProfileEntry → Prop) `{!∀ e, Decision (P e)} l :
  (∀ e, pe_name e = name → P e) →
  snd <$> list_find (λ p, pe_name p = name) (filter P l) = snd <$> list_find (λ p, pe_name p = name) l.
Proof.
  intros HP. induction l as [|e l IH]; [done|]. rewrite filter_cons. cbn [list_find]. case_decide as Hd.
  - cbn [list_find]. case_decide; [done|].
    destruct (list_find _ l) as [[]|], (list_find _ (filter P l)) as [[]|]; done.
  - rewrite decide_False by (by intros ?%HP). rewrite IH. by destruct (list_find _ l) as [[]|].
Qed.

Lemma find_dropped name (P : ProfileEntry → Prop) `{!∀ e, Decision (P e)} l :
  (∀ e, pe_name e = name → ¬ P e) → snd <$> list_find (λ p, pe_name p = name) (filter P l) = None.
Proof.
  intros HP. induction l as [|e l IH]; [done|]. rewrite filter_cons. case_decide as Hd; [|done].
  cbn [list_find]. rewrite decide_False by (by intros ?%HP). by destruct (list_find _ (filter P l)) as [[]|].
Qed.

Lemma get_installed log profile name :
  snd <$> list_find (λ p, pe_name p = name) (live profile log) = installed log profile name.
Proof.
  induction log as [|ev log IH] using rev_ind; [done|]. rewrite live_snoc, installed_snoc, find_app.
  case_decide as Hc.
  - rewrite find_dropped by (intros e -> Hn; by apply Hn). destruct ev as [p v|p e|p n]; [done| |done].
    destruct Hc as [-> <-]. simpl. rewrite decide_True by (rewrite ?Exists_nil; naive_solver). cbn [list_find].
    by rewrite decide_True.
  - rewrite find_kept by (by intros e ->). rewrite IH. destruct (installed log profile name); [done|].
    destruct ev as [p v|p e|p n]; [done| |done]. simpl in *. case_decide as Hd; [|done]. cbn [list_find].
    rewrite decide_False; [done|]. intros He. apply Hc. by destruct Hd.
Qed.
End logs.

Section refine.
Context `{FL : FsLimits, PJ : ProfileJson}.

(** The daemon's profiles are what the log leaves. *)
Definition replays (log : list event) (s : ProfileStore) : Prop :=
  ∀ profile, profiles s !! profile = replay log profile.

(** ** What a daemon starts from *)
Definition unique (m : ProfileMapping) : Prop := NoDup (pe_name <$> packages m).
Definition unique_store (s : ProfileStore) : Prop := map_Forall (λ _, unique) (profiles s).

Definition loading (p : string * ProfileMapping) : list event :=
  Loaded p.1 (pm_version p.2) :: (Added p.1 <$> packages p.2).

Lemma replay_loading p m : unique m → replay (loading (p, m)) p = Some m.
Proof.
  intros Hu. unfold replay, loading. simpl. rewrite decide_True by done. simpl. destruct m as [v es]. do 2 f_equal. simpl.
  unfold unique in Hu. simpl in Hu. induction es as [|e es IH]; [done|].
  rewrite fmap_cons. rewrite (fmap_cons pe_name) in Hu.
  apply NoDup_cons in Hu as [He Hu]. simpl. rewrite decide_True; [by rewrite IH|]. split; [done|].
  intros Hex. apply He. apply Exists_exists in Hex as (ev & Hev & Hc). apply list_elem_of_fmap in Hev as (x & -> & Hx).
  destruct Hc as [_ Hc]. rewrite <- Hc. by apply list_elem_of_fmap_2.
Qed.

Lemma replay_others log l profile : Forall (λ ev, ¬ about profile ev) l → replay (log ++ l) profile = replay log profile.
Proof.
  intros H. revert log. induction H as [|ev l Hev _ IH]; intros log; [by rewrite app_nil_r|].
  rewrite cons_middle, app_assoc, IH. by apply replay_other.
Qed.

Lemma loading_others p m profile : p ≠ profile → Forall (λ ev, ¬ about profile ev) (loading (p, m)).
Proof. intros Hne. constructor; [done|]. by apply Forall_fmap, Forall_true. Qed.

Lemma replay_after log l profile : Forall (λ ev, ¬ about profile ev) log → replay (log ++ l) profile = replay l profile.
Proof.
  induction 1 as [|ev log Hev _ IH]; [done|]. rewrite <- IH. unfold replay. simpl app.
  destruct ev as [p v|p e|p n]; simpl in *; [|rewrite (decide_False (P := p = profile ∧ _)) by naive_solver|done];
    by rewrite decide_False.
Qed.

(** Where names are unique, there is such a log. *)
Lemma has_log s : unique_store s → ∃ log, replays log s.
Proof.
  intros Hu. unfold replays.
  enough (∃ log, (∀ q, profiles s !! q = replay log q)
                 ∧ ∀ q, profiles s !! q = None → Forall (λ ev, ¬ about q ev) log) as (log & ? & _) by by exists log.
  revert Hu. unfold unique_store. induction (profiles s) as [|p m ps Hp IH] using map_ind.
  - intros _. exists []. split; [intros q; apply lookup_empty|by constructor].
  - intros [Hm Hu]%map_Forall_insert; [|done]. destruct (IH Hu) as (log & Hlog & Habout).
    exists (log ++ loading (p, m)). split; intros q; (destruct (decide (p = q)) as [<-|Hne];
      [rewrite lookup_insert_eq|rewrite lookup_insert_ne by done]).
    + by rewrite replay_after, replay_loading by auto.
    + rewrite Hlog. symmetry. by apply replay_others, loading_others.
    + done.
    + intros Hq. apply Forall_app. split; [by apply Habout|by apply loading_others].
Qed.

Lemma replays_unique log s : replays log s → unique_store s.
Proof.
  intros Hr p m Hp. rewrite Hr in Hp. unfold replay in Hp. destruct (born p log); [|done].
  injection Hp as <-. apply live_unique.
Qed.

Lemma replays_get log s profile name :
  replays log s → (m ← profiles s !! profile; Mapping.get name m) = (_ ← profiles s !! profile; installed log profile name).
Proof.
  intros Hr. rewrite Hr. unfold replay. destruct (born profile log); [|done]. simpl. apply get_installed.
Qed.

(** ** Commands *)
(** What a command adds to the log, and what it answers *)
Definition spec_control (now : Z) (log : list event) (profile command_json : string)
    : list event * result ProfileError (string * option (string * list ManifestEntry)) :=
  match pj_parse_command command_json with
  | None => ([], Err (ProfileBadJson "command"))
  | Some cmd =>
      let name := cmd_name cmd in
      if decide (cmd_action cmd = "add") then
        match cmd_store_path cmd with
        | None => ([], Err MissingStorePath)
        | Some sp =>
            ([Added profile (mkProfileEntry name sp now)],
             Ok ("added " +:+ name +:+ " to profile " +:+ profile,
                 match cmd_files cmd with [] => None | files => Some (sp, files) end))
        end
      else if decide (cmd_action cmd = "remove") then
        match installed log profile name with
        | Some _ => ([Removed profile name], Ok ("removed " +:+ name +:+ " from profile " +:+ profile, None))
        | None => ([], Ok (name +:+ " not found in profile " +:+ profile, None))
        end
      else if decide (cmd_action cmd = "list") then ([], Ok (pj_print_listing (replay log profile), None))
      else ([], Err (UnknownAction (cmd_action cmd)))
  end.

(** The daemon answers that, or that the disk has failed when there was something to write. *)
Definition agrees {A : Type} (evs : list event) (r reply : result ProfileError A) : Prop :=
  r = reply ∨ evs ≠ [] ∧ ∃ io, r = Err (ProfileIo io).

Lemma on_disk_keeps {A} (m : F A) s r s' :
  on_disk m s = (r, s') → profiles s' = profiles s ∧ profiles_dir s' = profiles_dir s
  ∧ ∀ e, r = Err e → ∃ io, e = ProfileIo io.
Proof.
  unfold on_disk. destruct (m (ps_fs s)) as [x f]. intros [= <- <-]. split_and!; [done..|].
  intros e. destruct x; [done|]. intros [= <-]. by eexists.
Qed.

(** Writing a profile leaves the profiles in memory alone. *)
Lemma persist_keeps profile s r s' :
  persist profile s = (r, s') → profiles s' = profiles s
  ∧ ∀ e, r = Err e → is_Some (profiles s !! profile) → ∃ io, e = ProfileIo io.
Proof.
  unfold persist, mbind, PS_bind, SR_bind, sr_get, sr_lift. cbn beta iota. intros H.
  destruct (profiles s !! profile) as [m|]; simpl ok_or in H; cbn beta iota in H.
  2:{ injection H as <- <-. split; [done|]. by intros e _ []. }
  destruct (on_disk (create_dir_all _) s) as [r1 s1] eqn:E1. apply on_disk_keeps in E1 as (P1 & _ & I1).
  destruct r1 as [[]|e1]; [|injection H as <- <-; eauto].
  destruct (on_disk (write_file _ _) s1) as [r2 s2] eqn:E2. apply on_disk_keeps in E2 as (P2 & _ & I2).
  destruct r2 as [[]|e2]; [|injection H as <- <-; split; [congruence|eauto]].
  apply on_disk_keeps in H as (P3 & _ & I3). split; [congruence|eauto].
Qed.

Lemma filter_shorter {A} (P : A → Prop) `{!∀ x, Decision (P x)} l :
  (length (filter P l) < length l)%nat ↔ ∃ x, x ∈ l ∧ ¬ P x.
Proof.
  induction l as [|x l IH]; simpl.
  - split; [lia|]. intros (x & Hx & _). by apply elem_of_nil in Hx.
  - rewrite filter_cons. case_decide as Hp; simpl.
    + rewrite <- Nat.succ_lt_mono, IH. split.
      * intros (y & Hy & Hn). exists y. split; [by right|done].
      * intros (y & [->|Hy]%elem_of_cons & Hn); [done|eauto].
    + pose proof (length_filter P l). split; [|lia]. intros _. exists x. split; [by left|done].
Qed.

Lemma add_package_spec now profile name sp log s r s' :
  replays log s → add_package now profile name sp s = (r, s') →
  replays (log ++ [Added profile (mkProfileEntry name sp now)]) s' ∧ (r = Ok tt ∨ ∃ io, r = Err (ProfileIo io)).
Proof.
  intros Hr. unfold add_package, mbind, PS_bind, SR_bind, sr_get, sr_put. cbn beta iota. intros H.
  apply persist_keeps in H as [Hp He]. simpl profiles in Hp. split.
  - intros q. rewrite Hp. destruct (decide (profile = q)) as [<-|Hne].
    + rewrite lookup_insert_eq, replay_added. f_equal. unfold Mapping.add, get_or_create. rewrite Hr. unfold replay.
      destruct (born profile log) as [v|] eqn:Eb; [done|]. simpl. rewrite (born_live _ _ Eb). done.
    + rewrite lookup_insert_ne, replay_other by done. apply Hr.
  - destruct r as [[]|e]; [by left|right]. simpl in He. rewrite lookup_insert_eq in He.
    destruct (He e eq_refl) as [io ->]; [by eexists|by exists io].
Qed.

Lemma remove_package_spec profile name log s r s' :
  replays log s → remove_package profile name s = (r, s') →
  match installed log profile name with
  | Some _ => replays (log ++ [Removed profile name]) s' ∧ (r = Ok true ∨ ∃ io, r = Err (ProfileIo io))
  | None => replays log s' ∧ r = Ok false
  end.
Proof.
  intros Hr. unfold remove_package, mbind, PS_bind, SR_bind, sr_get, sr_put. cbn beta iota. rewrite Hr.
  pose proof (replay_removed profile log name) as Hrem. rewrite <- get_installed.
  destruct (replay log profile) as [m|] eqn:E; [|intros [= <- <-]].
  2:{ unfold replay in E. destruct (born profile log) eqn:Eb; [done|]. by rewrite (born_live _ _ Eb). }
  assert (Hl : live profile log = packages m) by (unfold replay in E; destruct (born profile log); [by injection E as <-|done]).
  rewrite Hl. unfold Mapping.remove. set (kept := filter _ (packages m)). intros H.
  assert (Hnew : ∀ s2, profiles s2 = <[profile := mkProfileMapping (pm_version m) kept]> (profiles s) →
    replays (log ++ [Removed profile name]) s2).
  { intros s2 Hs2 q. rewrite Hs2. destruct (decide (profile = q)) as [<-|Hne].
    - by rewrite lookup_insert_eq, Hrem.
    - rewrite lookup_insert_ne, replay_other by done. apply Hr. }
  destruct (list_find (λ p, pe_name p = name) (packages m)) as [[i e]|] eqn:Ef; simpl.
  - apply list_find_Some in Ef as (Hi & He & _).
    rewrite bool_decide_true in H.
    2:{ apply filter_shorter. exists e. split; [by eapply list_elem_of_lookup_2|]. intros Hn. by apply Hn. }
    match type of H with context [persist profile ?st] => destruct (persist profile st) as [r1 s1] eqn:Ep end.
    apply persist_keeps in Ep as [Hp Hio]. simpl profiles in Hp, Hio. rewrite lookup_insert_eq in Hio.
    destruct r1 as [[]|e1]; injection H as <- <-; (split; [by apply Hnew|]); [by left|right].
    destruct (Hio e1 eq_refl) as [io ->]; [by eexists|by exists io].
  - apply list_find_None in Ef. assert (Hk : kept = packages m) by (by apply filter_all).
    rewrite bool_decide_false in H by (rewrite Hk; lia). injection H as <- <-. split; [|done].
    intros q. simpl. rewrite Hk. destruct (decide (profile = q)) as [<-|Hne]; [|rewrite lookup_insert_ne by done; apply Hr].
    rewrite lookup_insert_eq, E. by destruct m.
Qed.

(** One command *)
Lemma process_control_spec now profile json log s r s' :
  replays log s → process_control now profile json s = (r, s') →
  let '(evs, reply) := spec_control now log profile json in replays (log ++ evs) s' ∧ agrees evs r reply.
Proof.
  intros Hr. unfold process_control, spec_control, mbind, PS_bind, SR_bind, sr_get, sr_lift. cbn beta iota. intros H.
  assert (Hsame : replays (log ++ []) s) by by rewrite app_nil_r.
  destruct (pj_parse_command json) as [cmd|]; simpl ok_or in H; cbn beta iota in H;
    [|injection H as <- <-; split; [done|by left]].
  case_decide.
  { destruct (cmd_store_path cmd) as [sp|]; simpl ok_or in H; cbn beta iota in H;
      [|injection H as <- <-; split; [done|by left]].
    destruct (add_package now profile (cmd_name cmd) sp s) as [r1 s1] eqn:Ea.
    apply (add_package_spec _ _ _ _ log) in Ea as [Hok Ho]; [|done].
    destruct r1 as [[]|e]; injection H as <- <-; (split; [done|]); [by left|right].
    destruct Ho as [|[io [= ->]]]; [done|]. split; [done|by exists io]. }
  case_decide.
  { destruct (remove_package profile (cmd_name cmd) s) as [r1 s1] eqn:Er.
    apply (remove_package_spec _ _ log) in Er; [|done]. destruct (installed log profile (cmd_name cmd)).
    - destruct Er as [Hok [->|[io ->]]]; injection H as <- <-; (split; [done|]); [by left|right].
      split; [done|by exists io].
    - destruct Er as [Hok ->]. injection H as <- <-. rewrite app_nil_r. split; [done|by left]. }
  case_decide; injection H as <- <-; (split; [done|]); left; [|done]. by rewrite Hr.
Qed.

(** ** A session of commands *)
Abbreviation answer := (result ProfileError (string * option (string * list ManifestEntry))).

Fixpoint commands (cmds : list (Z * string * string)) (s : ProfileStore) : list answer * ProfileStore :=
  match cmds with
  | [] => ([], s)
  | (now, profile, json) :: cmds' =>
      let '(r, s1) := process_control now profile json s in
      let '(rs, s2) := commands cmds' s1 in (r :: rs, s2)
  end.

Fixpoint spec_commands (cmds : list (Z * string * string)) (log : list event)
    : list (list event * answer) * list event :=
  match cmds with
  | [] => ([], log)
  | (now, profile, json) :: cmds' =>
      let '(evs, reply) := spec_control now log profile json in
      let '(rs, log') := spec_commands cmds' (log ++ evs) in ((evs, reply) :: rs, log')
  end.

Lemma commands_spec cmds s log :
  replays log s →
  let '(rs, s') := commands cmds s in
  let '(outcomes, log') := spec_commands cmds log in
  replays log' s' ∧ Forall2 (λ r outcome, agrees outcome.1 r outcome.2) rs outcomes.
Proof.
  revert s log. induction cmds as [|[[now profile] json] cmds IH]; intros s log Hr; simpl; [by split|].
  destruct (process_control now profile json s) as [r s1] eqn:E. apply (process_control_spec _ _ _ log) in E; [|done].
  destruct (spec_control now log profile json) as [evs reply]. destruct E as [Hr1 Ha].
  specialize (IH s1 _ Hr1). destruct (commands cmds s1) as [rs s2]. destruct (spec_commands cmds _) as [outs log'].
  destruct IH as [H1 H2]. split; [done|]. by constructor.
Qed.

End refine.

(** C26. The profile store is a replay of its commands.  From any profiles whose names are
    unique there is a log that leaves them; whatever the disk does, after any sequence of
    commands every profile is what the log has left then - its packages those whose last
    command was to add them, in the order of these commands, with their store paths and
    times - and every answer, listings and refusals included, is the one the log gives,
    except that an addition or a removal may report that the disk has failed.  Names stay
    unique, and a lookup finds what the last command about a package left. *)
Theorem profiles_refine `{FL : FsLimits, PJ : ProfileJson} cmds s :
  unique_store s →
  (∃ log, replays log s) ∧
  ∀ log, replays log s →
    let '(rs, s') := commands cmds s in
    let '(outcomes, log') := spec_commands cmds log in
    replays log' s' ∧ Forall2 (λ r outcome, agrees outcome.1 r outcome.2) rs outcomes
    ∧ unique_store s'
    ∧ (∀ profile m name, profiles s' !! profile = Some m → Mapping.get name m = installed log' profile name).
Proof.
  intros Hu. split; [by apply has_log|]. intros log Hr. pose proof (commands_spec cmds s log Hr) as H.
  destruct (commands cmds s) as [rs s']. destruct (spec_commands cmds log) as [outs log'].
  destruct H as [H1 H2]. split_and!; [done|done|by eapply replays_unique|].
  intros profile m name Hm. pose proof (replays_get log' s' profile name H1) as Hg. by rewrite Hm in Hg.
Qed.

Module ReplayDemo.

Definition start : ProfileStore := mkProfileStore
  {[ "default" := mkProfileMapping 1 [mkProfileEntry "rg" "/nix/store/a-rg" 1; mkProfileEntry "vim" "/nix/store/b-vim" 2] ]}
  "/p" (mkFsys (<[Path.components "/p" := Dir 493]> ∅) []).

Definition cmds : list (Z * string * string) :=
  [(5, "default", demo_print (mkControlCommand "add" "rg" (Some "/nix/store/c-rg") []));
   (6, "default", demo_print (mkControlCommand "remove" "emacs" None []));
   (7, "work", demo_print (mkControlCommand "add" "fd" (Some "/nix/store/d-fd") []));
   (8, "default", "what?")].

Definition session := commands cmds start.

(** The package that was added again stands last. *)
Example added_again :
  (packages <$> profiles session.2 !! "default")
  = Some [mkProfileEntry "vim" "/nix/store/b-vim" 2; mkProfileEntry "rg" "/nix/store/c-rg" 5].
Proof. vm_compute. reflexivity. Qed.

Lemma profiles_refine_witness :
  unique_store start ∧ ∃ log, replays log start ∧ replays (spec_commands cmds log).2 session.2.
Proof.
  assert (Hu : unique_store start).
  { intros p m Hm. unfold start in Hm. simpl in Hm. apply lookup_singleton_Some in Hm as [<- <-]. apply (bool_decide_unpack _). vm_compute. exact I. }
  split; [done|]. destruct (profiles_refine cmds start Hu) as [[log Hlog] H]. exists log. split; [done|].
  specialize (H log Hlog). unfold session. destruct (commands cmds start) as [rs s'].
  destruct (spec_commands cmds log) as [outs log']. apply H.
Defined.

End ReplayDemo.
