(* ===== verification/ProfileSessions.v ===== *)
(** * Sessions with the profile daemon

    What a client may rely on while other clients open, read, write and close, and while
    the disk changes: the content of an open file, the command of a control handle. *)

From S2P Require Import Prelude RustStd FileSys Nar PathInfo HandleId ProxyIo SchemeHandles Profiles ProfileScheme Instances ManifestInstances.

Open Scope Z_scope.

(** The requests that change the daemon's state ([fstat], [fsize], [fpath], [fevent] and
    [getdents] only look), and a change of the disk by another program *)
Inductive Request : Type :=
  | QOpen (p : string) (flags : Z)
  | QRead (id len offset : Z)
  | QWrite (id : Z) (data : string)
  | QClose (now id : Z)
  | QDisk (f : fsys).

Inductive Answer : Type :=
  | ANumber (r : result errno Z)
  | AText (r : result errno string)
  | ADone.

Section sessions.
Context `{FL : FsLimits, PJ : ProfileJson, ABI : SyscallAbi}.
Implicit Types (s : ProfileScheme).

Definition with_disk (f : fsys) s : ProfileScheme :=
  mkProfileScheme (mkProfileStore (profiles (sc_profiles s)) (profiles_dir (sc_profiles s)) f)
    (sc_manifests s) (sc_handles s).

Definition answer {A} (f : result errno A → Answer) (x : option (result errno A * ProfileScheme))
    : option (Answer * ProfileScheme) := '(r, s) ← x; Some (f r, s).

Definition serve (q : Request) s : option (Answer * ProfileScheme) :=
  match q with
  | QOpen p flags => answer ANumber (openat p flags s)
  | QRead id len offset => answer AText (read id len offset s)
  | QWrite id data => answer ANumber (write id data s)
  | QClose now id => answer (λ _, ADone) (on_close now id s)
  | QDisk f => Some (ADone, with_disk f s)
  end.

Fixpoint serve_all (qs : list Request) s : option (list Answer * ProfileScheme) :=
  match qs with
  | [] => Some ([], s)
  | q :: qs' => '(a, s1) ← serve q s; '(as_, s2) ← serve_all qs' s1; Some (a :: as_, s2)
  end.

Definition closes (id : Z) (q : Request) : bool := match q with QClose _ i => bool_decide (i = id) | _ => false end.

(** What is written to a handle *)
Definition written (id : Z) (qs : list Request) : string :=
  foldr (λ q acc, match q with
                  | QWrite i data => if decide (i = id) then data +:+ acc else acc
                  | _ => acc
                  end) "" qs.
#[local] Arguments written : simpl never.

(** What a session reads from a handle: length, offset and answer *)
Definition reads (id : Z) (qs : list Request) (as_ : list Answer) : list (Z * Z * result errno string) :=
  omap (λ x : Request * Answer, match x with
             | (QRead i len offset, AText r) => if decide (i = id) then Some (len, offset, r) else None
             | _ => None
             end) (zip qs as_).

(** The disks seen in a session *)
Definition disks (s : ProfileScheme) : tree := fs_tree (ps_fs (sc_profiles s)).

Fixpoint disks_of (qs : list Request) s : list tree :=
  match qs with
  | [] => []
  | q :: qs' => disks s :: match serve q s with Some (_, s1) => disks_of qs' s1 | None => [] end
  end.

(** ** One request *)
Lemma new_handle_keeps h s r s' i x :
  new_handle h s = Some (r, s') → handles (sc_handles s) !! i = Some x → handles (sc_handles s') !! i = Some x.
Proof.
  unfold new_handle. destruct (open_handle h (sc_handles s)) as [[id tb]|] eqn:E; [|done].
  intros [= <- <-] Hi. by eapply open_handle_other.
Qed.

Lemma openat_keeps p flags s r s' i x :
  openat p flags s = Some (r, s') → handles (sc_handles s) !! i = Some x → handles (sc_handles s') !! i = Some x.
Proof.
  unfold openat. destruct (parse_path (Str.trim_matches "/" p)) as [[name|] sub]; [|apply new_handle_keeps].
  case_decide; [apply new_handle_keeps|].
  destruct (bool_decide (sub = "") || has flags O_DIRECTORY); [apply new_handle_keeps|].
  unfold mbind, Req_bind, rq_get. destruct (profiles (sc_profiles s) !! name) as [m|]; [|by intros [= <- <-]].
  destruct (Mapping.list_union_from_manifests _ _ _); [|apply new_handle_keeps].
  destruct (find_file _ _ _) as [[[? ?] ?]|]; [apply new_handle_keeps|by intros [= <- <-]].
Qed.

(** A request that neither closes, reads nor writes the handle leaves it. *)
Lemma serve_other q s a s' id h :
  serve q s = Some (a, s') → handles (sc_handles s) !! id = Some h →
  closes id q = false → (∀ len offset, q ≠ QRead id len offset) → (∀ data, q ≠ QWrite id data) →
  handles (sc_handles s') !! id = Some h.
Proof.
  intros Hs Hh Hc Hr Hw. destruct q as [p flags|i len off|i data|now i|f]; simpl in Hs.
  - destruct (openat p flags s) as [[r s1]|] eqn:E; [|done]. injection Hs as <- <-. by eapply openat_keeps.
  - unfold read in Hs. destruct (read_handle _ i len off (sc_handles s)) as [r tb] eqn:E.
    injection Hs as <- <-. simpl. apply (read_handle_other _ _ _ _ _ _ _ id) in E; [by rewrite E|].
    intros ->. by apply (Hr len off).
  - unfold write in Hs. assert (Hi : i ≠ id) by (intros ->; by apply (Hw data)).
    destruct (handles (sc_handles s) !! i) as [[|?|? ? ?]|]; injection Hs as <- <-; try done. simpl.
    by rewrite lookup_insert_ne.
  - simpl in Hc. apply bool_decide_eq_false in Hc. unfold on_close, close_handle in Hs.
    assert (Hd : base.delete i (handles (sc_handles s)) !! id = Some h) by by rewrite lookup_delete_ne.
    destruct (handles (sc_handles s) !! i) as [[|?|? ? ?]|]; simpl in Hs; try (injection Hs as <- <-; exact Hd).
    case_decide; [injection Hs as <- <-; exact Hd|].
    destruct (process_control _ _ _ _) as [r ps]. injection Hs as <- <-. exact Hd.
  - injection Hs as <- <-. done.
Qed.

(** ** Control handles *)
Definition is_control (name p buf : string) (id : Z) s : Prop :=
  handles (sc_handles s) !! id = Some (PControl name p buf).

Lemma serve_control q s a s' id name p buf :
  serve q s = Some (a, s') → is_control name p buf id s → closes id q = false →
  is_control name p (buf +:+ written id [q]) id s'.
Proof.
  unfold is_control. intros Hs Hh Hc. unfold written. simpl.
  destruct q as [pp flags|i len off|i data|now i|f]; try
    (rewrite Str.app_nil_r; eapply serve_other; [exact Hs|exact Hh|exact Hc|done|done]).
  - rewrite Str.app_nil_r. destruct (decide (i = id)) as [->|Hi].
    + simpl in Hs. unfold read in Hs. erewrite read_handle_not_file in Hs; [|exact Hh|done].
      injection Hs as <- <-. done.
    + eapply serve_other; [exact Hs|exact Hh|exact Hc| |done]. intros ? ? [= -> _ _]. done.
  - case_decide as Hi.
    + subst i. rewrite Str.app_nil_r. simpl in Hs. unfold write in Hs. rewrite Hh in Hs. injection Hs as <- <-.
      simpl. apply lookup_insert_eq.
    + rewrite Str.app_nil_r. eapply serve_other; [exact Hs|exact Hh|exact Hc|done|]. intros ? [= -> _]. done.
Qed.

Lemma written_cons id q qs : written id (q :: qs) = written id [q] +:+ written id qs.
Proof.
  unfold written. simpl. destruct q; try done. case_decide; [|done]. by rewrite Str.app_nil_r.
Qed.

Lemma session_control qs s as_ s' id name p buf :
  serve_all qs s = Some (as_, s') → is_control name p buf id s → Forall (λ q, closes id q = false) qs →
  is_control name p (buf +:+ written id qs) id s'.
Proof.
  revert s as_ buf. induction qs as [|q qs IH]; intros s as_ buf; simpl.
  - intros [= <- <-] Hc _. unfold written. simpl. by rewrite Str.app_nil_r.
  - destruct (serve q s) as [[a s1]|] eqn:E; [|done]. simpl.
    destruct (serve_all qs s1) as [[as1 s2]|] eqn:E2; [|done]. simpl. intros [= <- <-] Hc.
    intros [Hq Hqs]%Forall_cons. rewrite written_cons, <- Str.app_assoc.
    eapply IH; [exact E2| |exact Hqs]. by eapply serve_control.
Qed.

(** ** File handles *)
Definition is_file (fh : LazyFile) (id : Z) s : Prop := handles (sc_handles s) !! id = Some (PFile fh).

Definition loaded (c : string) (fh : LazyFile) : LazyFile :=
  mkLazyFile (Some c) (lf_real_path fh) (lf_scheme_path fh) (Z.of_nat (String.length c)) (lf_executable fh).

Lemma reads_cons id q qs a as_ : reads id (q :: qs) (a :: as_) = reads id [q] [a] ++ reads id qs as_.
Proof. unfold reads. simpl. destruct q; try done. destruct a; try done. by case_decide. Qed.

(** What one request does to a file handle and reads from it *)
Lemma serve_file q s a s' id fh :
  serve q s = Some (a, s') → is_file fh id s → closes id q = false →
  (reads id [q] [a] = [] ∧ is_file fh id s')
  ∨ ∃ len offset r, reads id [q] [a] = [(len, offset, r)]
    ∧ match lf_content fh with
      | Some c => r = Ok (slice c offset len) ∧ is_file fh id s'
      | None => match worker_preload (disks s) (lf_real_path fh) with
                | Ok c => r = Ok (slice c offset len) ∧ is_file (loaded c fh) id s'
                | Err _ => r = Err EBADF ∧ is_file fh id s'
                end
      end.
Proof.
  unfold is_file, reads. intros Hs Hh Hc. simpl. destruct q as [pp flags|i len off|i data|now i|f];
    try (left; split; [done|]; eapply serve_other; [exact Hs|exact Hh|exact Hc|done|done]).
  - destruct (decide (i = id)) as [->|Hi].
    + right. simpl in Hs. unfold read, read_handle in Hs. rewrite Hh in Hs. simpl in Hs.
      exists len, off. fold (disks s) in Hs. destruct (lf_content fh) as [c|] eqn:Ec.
      * injection Hs as <- <-. eexists. split; [done|]. split; [done|]. exact Hh.
      * destruct (worker_preload (disks s) (lf_real_path fh)) as [c|e]; injection Hs as <- <-;
          (eexists; split; [done|]; split; [done|]); [|exact Hh].
        apply lookup_insert_eq.
    + left. split; [by destruct a|]. eapply serve_other; [exact Hs|exact Hh|exact Hc| |done]. intros ? ? [= -> _ _]. done.
  - left. split; [done|]. destruct (decide (i = id)) as [->|Hi].
    + simpl in Hs. unfold write in Hs. rewrite Hh in Hs. injection Hs as <- <-. done.
    + eapply serve_other; [exact Hs|exact Hh|exact Hc|done|]. intros ? [= -> _]. done.
Qed.

Definition reads_content (c : string) (x : Z * Z * result errno string) : Prop := x.2 = Ok (slice c x.1.2 x.1.1).

Lemma session_loaded qs s as_ s' id fh c :
  serve_all qs s = Some (as_, s') → is_file fh id s → lf_content fh = Some c →
  Forall (λ q, closes id q = false) qs → Forall (reads_content c) (reads id qs as_).
Proof.
  revert s as_. induction qs as [|q qs IH]; intros s as_ H Hh Hc Hq; simpl in H.
  - injection H as <- <-. constructor.
  - destruct (serve q s) as [[a s1]|] eqn:E; [|done]. simpl in H.
    destruct (serve_all qs s1) as [[as1 s2]|] eqn:E2; [|done]. simpl in H. injection H as <- <-.
    apply Forall_cons in Hq as [Hq Hqs]. rewrite reads_cons.
    eapply serve_file in E as [[-> Hh']|(len & off & r & -> & Hr)]; [by eapply IH| |done|done].
    rewrite Hc in Hr. destruct Hr as [-> Hh']. apply Forall_app. split; [by repeat constructor|by eapply IH].
Qed.

(** Reads fail until one loads the file; after that they all see what it loaded. *)
Lemma session_unloaded qs s as_ s' id fh :
  serve_all qs s = Some (as_, s') → is_file fh id s → lf_content fh = None →
  Forall (λ q, closes id q = false) qs →
  ∃ failed served, reads id qs as_ = failed ++ served
    ∧ Forall (λ x, x.2 = Err EBADF) failed
    ∧ (served = [] ∨ ∃ t c, t ∈ disks_of qs s ∧ worker_preload t (lf_real_path fh) = Ok c
                            ∧ Forall (reads_content c) served).
Proof.
  revert s as_. induction qs as [|q qs IH]; intros s as_ H Hh Hc Hq; simpl in H.
  - injection H as <- <-. exists [], []. split; [done|]. split; [constructor|by left].
  - destruct (serve q s) as [[a s1]|] eqn:E; [|done]. simpl in H.
    destruct (serve_all qs s1) as [[as1 s2]|] eqn:E2; [|done]. simpl in H. injection H as <- <-.
    apply Forall_cons in Hq as [Hq Hqs]. rewrite reads_cons. simpl disks_of. rewrite E.
    assert (Hlater : is_file fh id s1 → ∃ failed served, reads id qs as1 = failed ++ served
      ∧ Forall (λ x, x.2 = Err EBADF) failed
      ∧ (served = [] ∨ ∃ t c, t ∈ disks s :: disks_of qs s1 ∧ worker_preload t (lf_real_path fh) = Ok c
                              ∧ Forall (reads_content c) served)).
    { intros Hh1. destruct (IH s1 as1 E2 Hh1 Hc Hqs) as (fl & sv & H1 & H2 & H3). exists fl, sv. split; [done|].
      split; [done|]. destruct H3 as [->|(t & c & Ht & Hp & Hs)]; [by left|right]. exists t, c. split; [by right|done]. }
    eapply serve_file in E as [[-> Hh']|(len & off & r & -> & Hr)]; [by apply Hlater| |done|done].
    rewrite Hc in Hr. destruct (worker_preload (disks s) (lf_real_path fh)) as [c|e] eqn:Ep; destruct Hr as [-> Hh'].
    + exists [], ((len, off, Ok (slice c off len)) :: reads id qs as1). split; [done|]. split; [constructor|].
      right. exists (disks s), c. split; [by left|]. split; [done|]. constructor; [done|].
      by eapply session_loaded.
    + destruct (Hlater Hh') as (fl & sv & -> & H2 & H3). exists ((len, off, Err EBADF) :: fl), sv.
      split; [done|]. split; [by constructor|done].
Qed.

(** ** Which package a file is opened from *)
Definition has_file (manifests : gmap string (list ManifestEntry)) (sub : string) (pkg : ProfileEntry) : Prop :=
  ∃ manifest e, manifests !! pe_store_path pkg = Some manifest ∧ e ∈ manifest
    ∧ me_path e = sub ∧ me_entry_type e = "file".

Lemma find_file_Some manifests sub pkgs p size x :
  find_file manifests sub pkgs = Some (p, size, x) →
  ∃ l1 pkg l2, pkgs = l1 ++ pkg :: l2 ∧ has_file manifests sub pkg
    ∧ p = Path.join (Path.components (pe_store_path pkg)) (Path.components sub)
    ∧ Forall (λ q, ¬ has_file manifests sub q) l1.
Proof.
  induction pkgs as [|pkg pkgs IH]; [done|]. simpl. intros Hf.
  assert (Hnext : find_file manifests sub pkgs = Some (p, size, x) → ¬ has_file manifests sub pkg →
    ∃ l1 pkg0 l2, pkg :: pkgs = l1 ++ pkg0 :: l2 ∧ has_file manifests sub pkg0
      ∧ p = Path.join (Path.components (pe_store_path pkg0)) (Path.components sub)
      ∧ Forall (λ q, ¬ has_file manifests sub q) l1).
  { intros Hf' Hn. destruct (IH Hf') as (l1 & pkg0 & l2 & -> & H1 & H2 & H3).
    exists (pkg :: l1), pkg0, l2. split_and!; [done..|by constructor]. }
  destruct (manifests !! pe_store_path pkg) as [manifest|] eqn:Em.
  - destruct (list_find _ manifest) as [[i e]|] eqn:El.
    + injection Hf as <- _ _. apply list_find_Some in El as (Hi & [He1 He2] & _).
      exists [], pkg, pkgs. split_and!; [done| |done|constructor].
      exists manifest, e. split_and!; [done|by eapply list_elem_of_lookup_2|done|done].
    + apply Hnext; [done|]. intros (m' & e & Hm & He & H1 & H2). assert (m' = manifest) as -> by congruence.
      apply list_find_None in El. rewrite Forall_forall in El. by apply (El e He).
  - apply Hnext; [done|]. intros (m' & e & Hm & _). congruence.
Qed.

Lemma find_file_None manifests sub pkgs pkg :
  find_file manifests sub pkgs = None → pkg ∈ pkgs → ¬ has_file manifests sub pkg.
Proof.
  induction pkgs as [|q pkgs IH]; simpl; [by intros _ ?%elem_of_nil|]. intros Hf [->|Hin]%elem_of_cons.
  - intros (m' & e & Hm & He & H1 & H2). rewrite Hm in Hf.
    destruct (list_find _ m') as [[i x]|] eqn:El; [done|].
    apply list_find_None in El. rewrite Forall_forall in El. by apply (El e He).
  - apply IH; [|done]. destruct (manifests !! pe_store_path q); [|done]. by destruct (list_find _ _) as [[]|].
Qed.

End sessions.

(** A control handle carries one command.  From its opening to its closing, whatever
    other requests come in between, exactly what was written to it, in order, is the
    command; closing it runs that command once on the profiles of the moment, closes the
    handle, and records the file manifest when an [add] that brought one succeeds. *)
Theorem control_runs_once `{FL : FsLimits, PJ : ProfileJson, ABI : SyscallAbi} p flags name s id s0 qs as_ s1 now :
  parse_path (Str.trim_matches "/" p) = (Some name, ".control") →
  openat p flags s = Some (Ok id, s0) →
  serve_all qs s0 = Some (as_, s1) → Forall (λ q, closes id q = false) qs →
  let command := Str.from_utf8_lossy (written id qs) in
  ∃ s2, on_close now id s1 = Some (Ok tt, s2)
    ∧ handles (sc_handles s) !! id = None ∧ handles (sc_handles s2) !! id = None
    ∧ (∀ i, i ≠ id → handles (sc_handles s2) !! i = handles (sc_handles s1) !! i)
    ∧ (written id qs = "" → sc_profiles s2 = sc_profiles s1 ∧ sc_manifests s2 = sc_manifests s1)
    ∧ (written id qs ≠ "" → let '(r, ps) := process_control now name command (sc_profiles s1) in
         sc_profiles s2 = ps
         ∧ sc_manifests s2 = match r with
                             | Ok (_, Some (store_path, manifest)) => <[store_path := manifest]> (sc_manifests s1)
                             | _ => sc_manifests s1
                             end).
Proof.
  intros Hp Ho Hqs Hc command. unfold openat in Ho. rewrite Hp, decide_True in Ho by done.
  unfold new_handle in Ho. destruct (open_handle _ _) as [[i tb]|] eqn:E; [|done]. injection Ho as <- <-.
  apply open_handle_fresh in E as (Hfree & _ & Htb).
  eapply (session_control qs _ as_ s1 i name _ "") in Hqs; [|unfold is_control; simpl; by rewrite Htb, lookup_insert_eq|done].
  simpl in Hqs. unfold is_control in Hqs. unfold on_close, close_handle. rewrite Hqs.
  assert (Hd : base.delete i (handles (sc_handles s1)) !! i = None) by apply lookup_delete_eq.
  assert (Hd' : ∀ j, j ≠ i → base.delete i (handles (sc_handles s1)) !! j = handles (sc_handles s1) !! j)
    by (intros j Hj; by rewrite lookup_delete_ne).
  change ("" +:+ written i qs) with (written i qs).
  case_decide as Hw.
  - eexists. split; [done|]. split_and!; [done|exact Hd|exact Hd'|done|done].
  - fold command. change (sc_profiles (set_handles ?tb ?s)) with (sc_profiles s).
    destruct (process_control now name command (sc_profiles s1)) as [r ps].
    eexists. split; [done|]. split_and!; [done|exact Hd|exact Hd'|done|done].
Qed.

(** Opening a file of a profile.  A path that is no directory of the profile opens
    when some installed package has the file, and it is then the file of the package
    installed last; nothing is read yet.  Reads through the handle fail until one of them
    can load the file; from then on they all are slices of what that one loaded, whatever
    happens to the disk and to the profile in the meantime. *)
Theorem open_last_installed `{FL : FsLimits, PJ : ProfileJson, ABI : SyscallAbi} p flags name sub s mapping r s0 :
  parse_path (Str.trim_matches "/" p) = (Some name, sub) → sub ≠ "" → sub ≠ ".control" →
  has flags O_DIRECTORY = false → profiles (sc_profiles s) !! name = Some mapping →
  Mapping.list_union_from_manifests sub (sc_manifests s) mapping = [] →
  openat p flags s = Some (r, s0) →
  match r with
  | Err e => e = ENOENT ∧ s0 = s ∧ ∀ pkg, pkg ∈ packages mapping → ¬ has_file (sc_manifests s) sub pkg
  | Ok id => ∃ before pkg after, packages mapping = before ++ pkg :: after
      ∧ has_file (sc_manifests s) sub pkg ∧ Forall (λ q, ¬ has_file (sc_manifests s) sub q) after
      ∧ ∀ qs as_ s1, serve_all qs s0 = Some (as_, s1) → Forall (λ q, closes id q = false) qs →
        ∃ failed served, reads id qs as_ = failed ++ served
          ∧ Forall (λ x, x.2 = Err EBADF) failed
          ∧ (served = [] ∨ ∃ t c, t ∈ disks_of qs s0
               ∧ worker_preload t (Path.join (Path.components (pe_store_path pkg)) (Path.components sub)) = Ok c
               ∧ Forall (reads_content c) served)
  end.
Proof.
  intros Hp Hs1 Hs2 Hd Hm Hl Ho. unfold openat in Ho. rewrite Hp, decide_False in Ho by done.
  rewrite bool_decide_eq_false_2, Hd in Ho by done. cbn [orb] in Ho.
  unfold mbind, Req_bind, rq_get in Ho. rewrite Hm, Hl in Ho.
  destruct (find_file _ _ _) as [[[full size] x]|] eqn:Ef.
  - unfold new_handle in Ho. destruct (open_handle _ _) as [[id tb]|] eqn:E; [|done]. injection Ho as <- <-.
    apply open_handle_fresh in E as (_ & _ & Htb).
    apply find_file_Some in Ef as (l1 & pkg & l2 & Hrev & Hhas & -> & Hl1).
    exists (rev l2), pkg, (rev l1). split_and!.
    + rewrite <- (rev_involutive (packages mapping)), Hrev, rev_app_distr. simpl. by rewrite <- app_assoc.
    + done.
    + rewrite Forall_forall in *. intros q Hq. apply Hl1. apply list_elem_of_In, in_rev. by apply list_elem_of_In.
    + intros qs as_ s1 Hqs Hc. apply (session_unloaded qs _ as_ s1 id (mkLazyFile None
        (Path.join (Path.components (pe_store_path pkg)) (Path.components sub)) (Str.trim_matches "/" p) size x)) in Hqs;
        [exact Hqs| |done|done].
      unfold is_file. simpl. by rewrite Htb, lookup_insert_eq.
  - injection Ho as <- <-. split_and!; [done..|]. intros pkg Hpkg. eapply find_file_None; [exact Ef|].
    apply list_elem_of_In. rewrite <- in_rev. by apply list_elem_of_In.
Qed.

(** ** Examples *)
Module SessionDemo.
#[local] Existing Instance redox_abi.

Definition session_disk : fsys := mkFsys (list_to_map
  [(Path.components "/nix", Dir 493); (Path.components "/nix/a-rg", Dir 493);
   (Path.components "/nix/a-rg/bin", Dir 493); (Path.components "/nix/a-rg/bin/rg", File "ripgrep" 365)]) [].

Definition session_start : ProfileScheme :=
  mkProfileScheme (mkProfileStore {[ "default" := mkProfileMapping 1 [mkProfileEntry "rg" "/nix/a-rg" 0] ]}
      "/nix/profiles" session_disk)
    {[ "/nix/a-rg" := [mkManifestEntry "bin/rg" "file" 7 true] ]} (mkHandleTable 1 ∅).

(** The command in two writes, with another client's opening in between *)
Definition add_fd : string := demo_print (mkControlCommand "add" "fd" (Some "/nix/b-fd") []).
Definition half : nat := 50.
Definition control_session : list Request :=
  [QWrite 1 (String.substring 0 half add_fd); QOpen "default/bin" 0;
   QWrite 1 (String.substring half (String.length add_fd) add_fd)].

Definition opened : ProfileScheme :=
  match openat "default/.control" 0 session_start with Some (_, s) => s | None => session_start end.
Definition spoken : list Answer * ProfileScheme := default ([], opened) (serve_all control_session opened).

Lemma control_runs_once_witness :
  written 1 control_session = add_fd
  ∧ ∃ s2, on_close 7 1 spoken.2 = Some (Ok tt, s2)
    ∧ (profiles (sc_profiles s2) !! "default")
      = Some (mkProfileMapping 1 [mkProfileEntry "rg" "/nix/a-rg" 0; mkProfileEntry "fd" "/nix/b-fd" 7]).
Proof.
  assert (Hw : written 1 control_session = add_fd) by (vm_compute; reflexivity).
  split; [exact Hw|].
  destruct (control_runs_once "default/.control" 0 "default" session_start 1 opened control_session spoken.1 spoken.2 7)
    as (s2 & Hc & _ & _ & _ & _ & Hrun).
  - vm_compute. reflexivity.
  - vm_compute. reflexivity.
  - vm_compute. reflexivity.
  - repeat constructor.
  - exists s2. split; [exact Hc|]. rewrite Hw in Hrun. specialize (Hrun ltac:(vm_compute; discriminate)).
    assert (Hp : profiles (process_control 7 "default" (Str.from_utf8_lossy add_fd) (sc_profiles spoken.2)).2 !! "default"
      = Some (mkProfileMapping 1 [mkProfileEntry "rg" "/nix/a-rg" 0; mkProfileEntry "fd" "/nix/b-fd" 7]))
      by (vm_compute; reflexivity).
    destruct (process_control 7 "default" (Str.from_utf8_lossy add_fd) (sc_profiles spoken.2)) as [r ps].
    destruct Hrun as [-> _]. exact Hp.
Defined.

Definition rg_mapping : ProfileMapping := mkProfileMapping 1 [mkProfileEntry "rg" "/nix/a-rg" 0].
Definition reading : list Request := [QRead 1 4 0; QDisk (mkFsys ∅ []); QRead 1 10 4].
Definition rg_opened : ProfileScheme :=
  match openat "default/bin/rg" 0 session_start with Some (_, s) => s | None => session_start end.
Definition rg_read : list Answer * ProfileScheme := default ([], rg_opened) (serve_all reading rg_opened).

(** The second read is served from memory: the disk is gone. *)
Example rg_read_twice : rg_read.1 = [AText (Ok "ripg"); ADone; AText (Ok "rep")].
Proof. vm_compute. reflexivity. Qed.

Lemma open_last_installed_witness :
  ∃ before pkg after, packages rg_mapping = before ++ pkg :: after ∧ has_file (sc_manifests session_start) "bin/rg" pkg
    ∧ ∃ failed served, reads 1 reading rg_read.1 = failed ++ served.
Proof.
  destruct (open_last_installed "default/bin/rg" 0 "default" "bin/rg" session_start rg_mapping (Ok 1) rg_opened)
    as (before & pkg & after & Hp & Hh & _ & Hs).
  - vm_compute. reflexivity.
  - discriminate.
  - discriminate.
  - vm_compute. reflexivity.
  - vm_compute. reflexivity.
  - vm_compute. reflexivity.
  - vm_compute. reflexivity.
  - exists before, pkg, after. split; [exact Hp|]. split; [exact Hh|].
    destruct (Hs reading rg_read.1 rg_read.2) as (fl & sv & H & _); [vm_compute; reflexivity|repeat constructor|].
    exists fl, sv. exact H.
Defined.

End SessionDemo.
