(* ===== verification/ProfileDirents.v ===== *)
(** * Listings of the profile daemon, as clients see them

    What the listing of a profile's directory shows when several packages have it, and which
    package a path is opened from; and a client that reads a directory with repeated [getdents]
    requests, each continuing at the offset of the last entry it got, until a request returns
    nothing. *)

From S2P Require Import Prelude RustStd FileSys Nar PathInfo Instances HandleId ProxyIo Profiles ManifestInstances SchemeHandles ProfileScheme.

Open Scope Z_scope.

(** ** The reference: all manifest entries of the profile, in installation order *)
Definition all_entries (manifests : gmap string (list ManifestEntry)) (m : ProfileMapping)
    : list (string * ManifestEntry) :=
  packages m ≫= λ pkg, (λ e, (pe_name pkg, e)) <$> default [] (manifests !! pe_store_path pkg).

(** The path of an entry below the directory [prefix] *)
Definition relative (prefix : string) (e : ManifestEntry) : option string :=
  if decide (prefix = "") then Some (me_path e) else Str.strip_prefix prefix (me_path e).

(** The entry [n] of the directory itself *)
Definition direct (prefix n : string) (x : string * ManifestEntry) : option UnionEntry :=
  rel ← relative prefix x.2;
  if decide (Str.split_once "/" rel = None ∧ rel = n ∧ n ≠ "") then
    Some (mkUnionEntry n (bool_decide (me_entry_type x.2 = "dir"))
                         (bool_decide (me_entry_type x.2 = "symlink")) x.1)
  else None.

(** Something below the directory's subdirectory [n] *)
Definition implied (prefix n : string) (x : string * ManifestEntry) : option UnionEntry :=
  rel ← relative prefix x.2;
  '(d, _) ← Str.split_once "/" rel;
  if decide (d = n) then Some (mkUnionEntry n true false x.1) else None.

(** The last entry of the directory named [n]; a directory, when there are only things
    below it, of the first package that has some *)
Definition listed (prefix n : string) (l : list (string * ManifestEntry)) : option UnionEntry :=
  match last (omap (direct prefix n) l) with
  | Some u => Some u
  | None => head (omap (implied prefix n) l)
  end.

Lemma see_package_entries manifests prefix seen pkg :
  Mapping.see_package manifests prefix seen pkg
  = foldl (λ seen x, Mapping.see_manifest prefix x.1 seen x.2) seen
      ((λ e, (pe_name pkg, e)) <$> default [] (manifests !! pe_store_path pkg)).
Proof.
  unfold Mapping.see_package. destruct (manifests !! pe_store_path pkg) as [l|]; [|done]. simpl.
  revert seen. induction l as [|e l IH]; intros seen; [done|]. apply IH.
Qed.

Lemma see_packages_entries manifests prefix pkgs seen :
  foldl (Mapping.see_package manifests prefix) seen pkgs
  = foldl (λ seen x, Mapping.see_manifest prefix x.1 seen x.2) seen
      (pkgs ≫= λ pkg, (λ e, (pe_name pkg, e)) <$> default [] (manifests !! pe_store_path pkg)).
Proof.
  revert seen. induction pkgs as [|pkg pkgs IH]; intros seen; [done|].
  rewrite bind_cons, foldl_app. simpl foldl at 1. by rewrite IH, see_package_entries.
Qed.

Lemma head_app {A} (l1 l2 : list A) : head (l1 ++ l2) = match head l1 with Some x => Some x | None => head l2 end.
Proof. by destruct l1. Qed.

(** One more entry *)
Lemma see_manifest_lookup prefix n x (seen : gmap string UnionEntry) :
  Mapping.see_manifest prefix x.1 seen x.2 !! n
  = match direct prefix n x with
    | Some u => Some u
    | None => match seen !! n with Some u => Some u | None => implied prefix n x end
    end.
Proof.
  unfold Mapping.see_manifest, direct, implied, relative.
  destruct (if decide (prefix = "") then Some (me_path x.2) else Str.strip_prefix prefix (me_path x.2)) as [rel|];
    simpl; [|by destruct (seen !! n)].
  destruct (Str.split_once "/" rel) as [[d rest]|] eqn:Es; simpl.
  - destruct (seen !! d) as [u|] eqn:Ed.
    + case_decide as Hd; [subst d|]; by destruct (seen !! n).
    + case_decide as Hd.
      * subst d. by rewrite lookup_insert_eq, Ed.
      * rewrite lookup_insert_ne by done. by destruct (seen !! n).
  - case_decide as Hr.
    + rewrite decide_False; [by destruct (seen !! n)|]. intros (_ & -> & ?). done.
    + destruct (decide (rel = n)) as [->|Hn].
      * rewrite lookup_insert_eq. by rewrite decide_True.
      * rewrite lookup_insert_ne by done. rewrite decide_False by naive_solver. by destruct (seen !! n).
Qed.

Lemma seen_lookup prefix n l :
  foldl (λ seen x, Mapping.see_manifest prefix x.1 seen x.2) (∅ : gmap string UnionEntry) l !! n
  = listed prefix n l.
Proof.
  induction l as [|x l IH] using rev_ind; [done|].
  rewrite foldl_app. simpl. rewrite see_manifest_lookup, IH. unfold listed.
  rewrite !omap_app. simpl. destruct (direct prefix n x) as [u|].
  - by rewrite last_snoc.
  - rewrite app_nil_r. destruct (last (omap (direct prefix n) l)); [done|].
    rewrite head_app. destruct (head (omap (implied prefix n) l)); [done|]. by destruct (implied prefix n x).
Qed.

Lemma listed_name prefix n l u : listed prefix n l = Some u → ue_name u = n.
Proof.
  unfold listed. destruct (last (omap (direct prefix n) l)) as [v|] eqn:E.
  - intros [= ->]. apply last_Some in E as [l' E].
    assert (Hu : u ∈ omap (direct prefix n) l) by (rewrite E; apply elem_of_app; right; by apply list_elem_of_singleton).
    apply list_elem_of_omap in Hu as (x & _ & Hx). unfold direct in Hx.
    destruct (relative prefix x.2); simpl in Hx; [|done]. case_decide; [|done]. by injection Hx as <-.
  - intros Hu. assert (Hin : u ∈ omap (implied prefix n) l)
      by (destruct (omap (implied prefix n) l); [done|]; injection Hu as ->; by left).
    apply list_elem_of_omap in Hin as (x & _ & Hx). unfold implied in Hx.
    destruct (relative prefix x.2) as [rel|]; simpl in Hx; [|done].
    destruct (Str.split_once "/" rel) as [[d ?]|]; simpl in Hx; [|done]. case_decide; [|done]. by injection Hx as <-.
Qed.

Lemma ue_le_total : Total Mapping.ue_le.
Proof. intros x y. unfold Mapping.ue_le. apply total, _. Qed.
Lemma ue_le_trans : Transitive Mapping.ue_le.
Proof. intros x y z. unfold Mapping.ue_le. apply transitivity. Qed.

(** The union listing of a directory.  Sorted by name, a name once; the entry of a
    name is the last one that a package has of that name in the directory, in
    installation order, and a directory when packages only have files below it. *)
Theorem union_listing subpath manifests m :
  let entries := Mapping.list_union_from_manifests subpath manifests m in
  let prefix := Mapping.listing_prefix subpath in
  StronglySorted Mapping.ue_le entries ∧ NoDup (ue_name <$> entries)
  ∧ ∀ u, u ∈ entries ↔ listed prefix (ue_name u) (all_entries manifests m) = Some u.
Proof.
  intros entries prefix. unfold entries, Mapping.list_union_from_manifests, Mapping.sorted_entries.
  rewrite see_packages_entries. fold prefix. change (packages m ≫= _) with (all_entries manifests m).
  set (seen := foldl _ ∅ _). assert (Hseen : ∀ n, seen !! n = listed prefix n (all_entries manifests m))
    by (intros n; apply seen_lookup).
  assert (Hp : merge_sort Mapping.ue_le (BTree.values seen) ≡ₚ BTree.values seen) by apply merge_sort_Permutation.
  assert (Hnames : ue_name <$> BTree.values seen = BTree.keys seen).
  { unfold BTree.values, BTree.keys. rewrite <- list_fmap_compose. apply list_fmap_ext.
    intros i [k u] Hi. apply list_elem_of_lookup_2, BTree.elem_of_to_list in Hi.
    rewrite Hseen in Hi. by apply listed_name in Hi. }
  split; [apply StronglySorted_merge_sort; [apply ue_le_trans|apply ue_le_total]|].
  split; [rewrite Hp, Hnames; apply BTree.NoDup_keys|].
  intros u. rewrite Hp, BTree.elem_of_values. split.
  - intros [k Hk]. rewrite Hseen in Hk. pose proof (listed_name _ _ _ _ Hk) as ->. done.
  - intros Hu. exists (ue_name u). by rewrite Hseen.
Qed.

Section client.

(** The client's loop over the pages: what [fetch] returns to its [i]-th request *)
Fixpoint pages (fuel : nat) (fetch : nat → Z → list (Z * (string * DirentKind))) (i : nat) (start : Z)
    : option (list (string * DirentKind)) :=
  match fuel with
  | O => None
  | S fuel' =>
      match last (fetch i start) with
      | None => Some []
      | Some (next, _) => rest ← pages fuel' fetch (S i) next; Some ((fetch i start).*2 ++ rest)
      end
  end.

Lemma pages_ext fuel f g i start : (∀ i start, f i start = g i start) → pages fuel f i start = pages fuel g i start.
Proof.
  intros Hfg. revert i start. induction fuel as [|fuel IH]; intros i start; [done|]. simpl. rewrite Hfg.
  destruct (last _) as [[next e]|]; [|done]. by rewrite IH.
Qed.

Context {Buf : Type} `{DB : DirentBuffer Buf, DL : !DirentBufferLaws Buf}.
Implicit Types (es : list (string * DirentKind)).

Definition number (i : Z) es : list (Z * (string * DirentKind)) :=
  imap (λ j e, (i + Z.of_nat j + 1, e)) es.

Lemma number_cons i e es : number i (e :: es) = (i + 1, e) :: number (i + 1) es.
Proof.
  unfold number. cbn [imap]. f_equal; [f_equal; lia|].
  apply imap_ext. intros j x _. unfold compose. f_equal. lia.
Qed.

Lemma number_snd i es : (number i es).*2 = es.
Proof. revert i. induction es as [|e es IH]; intros i; [done|]. rewrite number_cons. simpl. f_equal. apply IH. Qed.

Lemma number_last i es : es ≠ [] → ∃ e, last (number i es) = Some (i + Z.of_nat (length es), e).
Proof.
  revert i. induction es as [|e es IH]; intros i Hne; [done|]. rewrite number_cons.
  destruct es as [|e' es]; [exists e; simpl; do 2 f_equal; lia|].
  destruct (IH (i + 1)) as [x Hx]; [done|]. exists x. rewrite number_cons in Hx |- *. simpl in Hx |- *. rewrite Hx. do 2 f_equal. lia.
Qed.

(** The loop writes a prefix of the entries, up to one that has no room. *)
Lemma fill_prefix b i es :
  ∃ k, (k ≤ length es)%nat ∧ entries_of (fill b i es) = entries_of b ++ number i (take k es)
    ∧ (∀ e es', es = e :: es' → is_Some (db_entry b (i + 1) e.1 e.2) → (0 < k)%nat)
    ∧ (∀ e, es !! k = Some e → ∃ j, db_entry (fill b i es) j e.1 e.2 = None).
Proof.
  revert b i. induction es as [|[n kd] es IH]; intros b i.
  - exists 0%nat. split; [done|]. split; [by rewrite app_nil_r|done].
  - simpl fill. destruct (db_entry b (i + 1) n kd) as [b'|] eqn:E.
    + destruct (IH b' (i + 1)) as (k & Hk & He & _ & Hfull). exists (S k). split; [simpl; lia|]. split; [|split; [lia|done]].
      rewrite He. apply db_entry_appends in E. rewrite E. simpl take. rewrite number_cons, <- app_assoc. done.
    + exists 0%nat. split; [lia|]. split; [by rewrite app_nil_r|]. split.
      * intros e es' [= <- <-] [b' Hb]. simpl in Hb. congruence.
      * intros e [= <-]. by exists (i + 1).
Qed.

(** A buffer as the client passes it: nothing in it, and room for one entry *)
Definition fresh_buffer (b : Buf) es : Prop :=
  entries_of b = [] ∧ ∀ i e, e ∈ es → is_Some (db_entry b i e.1 e.2).

(** One page of a directory, of which the first [n] entries were read *)
Lemma page b es n :
  fresh_buffer b es → (n ≤ length es)%nat →
  ∃ k, (n + k ≤ length es)%nat ∧ entries_of (fill_from b (Z.of_nat n) es) = number (Z.of_nat n) (take k (drop n es))
    ∧ (k = 0%nat → n = length es)
    ∧ ∀ e, es !! (n + k)%nat = Some e → ∃ j, db_entry (fill_from b (Z.of_nat n) es) j e.1 e.2 = None.
Proof.
  intros [Hb Hfit] Hn. unfold fill_from. rewrite Nat2Z.id.
  destruct (fill_prefix b (Z.of_nat n) (drop n es)) as (k & Hk & He & Hpos & Hfull). rewrite length_drop in Hk.
  exists k. split; [lia|]. split; [by rewrite He, Hb|]. split; [|intros e He2; apply Hfull; by rewrite lookup_drop].
  intros ->. destruct (drop n es) as [|e es'] eqn:Ed.
  - apply (f_equal length) in Ed. rewrite length_drop in Ed. simpl in Ed. lia.
  - assert (0 < 0)%nat; [|lia]. apply (Hpos e es'); [done|]. apply Hfit. rewrite <- (take_drop n es).
    apply elem_of_app. right. rewrite Ed. by left.
Qed.

Lemma page_last n k es :
  (n + k ≤ length es)%nat → (0 < k)%nat → ∃ e, last (number (Z.of_nat n) (take k (drop n es))) = Some (Z.of_nat (n + k), e).
Proof.
  intros Hk Hpos. assert (length (take k (drop n es)) = k) as Hlen by (rewrite length_take, length_drop; lia).
  destruct (number_last (Z.of_nat n) (take k (drop n es))) as [x Hx].
  - intros Hnil. rewrite Hnil in Hlen. simpl in Hlen. lia.
  - exists x. rewrite Hx, Hlen. do 2 f_equal. lia.
Qed.

Lemma pages_from b es n i fuel :
  fresh_buffer b es → (n ≤ length es)%nat → (length es - n < fuel)%nat →
  pages fuel (λ _ start, entries_of (fill_from b start es)) i (Z.of_nat n) = Some (drop n es).
Proof.
  intros Hb. revert n i. induction fuel as [|fuel IH]; intros n i Hn Hf; [lia|]. simpl.
  destruct (page b es n Hb Hn) as (k & Hk & -> & Hz & _). destruct (decide (k = 0)%nat) as [->|Hk0].
  - rewrite drop_ge by (rewrite (Hz eq_refl); lia). done.
  - destruct (page_last n k es) as [e ->]; [lia..|]. rewrite IH by lia. simpl.
    by rewrite number_snd, <- drop_drop, take_drop.
Qed.

(** The same with [.control] after the entries, which is tried with every page *)
Definition control : string * DirentKind := (".control", KindRegular).

Lemma root_pages_from b es n i fuel :
  fresh_buffer b (es ++ [control]) → (n ≤ length es)%nat → (S (length es - n) < fuel)%nat →
  ∃ k, pages fuel (λ _ start, entries_of (add_control (fill_from b start es) start (length es))) i (Z.of_nat n)
       = Some (take k (drop n es) ++ [control])
    ∧ ∀ e, es !! (n + k)%nat = Some e → ∃ b' j j', db_entry b' j e.1 e.2 = None ∧ is_Some (db_entry b' j' ".control" KindRegular).
Proof.
  intros [Hb Hfit]. assert (fresh_buffer b es) as Hb2.
  { split; [done|]. intros j e He. apply Hfit, elem_of_app. by left. }
  revert n i. induction fuel as [|fuel IH]; intros n i Hn Hf; [lia|].
  destruct (page b es n Hb2 Hn) as (k & Hk & He & Hz & Hfull). cbn [pages]. unfold add_control at 1 2.
  rewrite decide_True by lia. pose proof (Nat2Z.is_nonneg n).
  destruct (db_entry (fill_from b (Z.of_nat n) es) (Z.of_nat (length es) + 1) ".control" KindRegular) as [b'|] eqn:Ec; cbn [from_option id].
  - exists k. split; [|intros e Hl; destruct (Hfull e Hl) as [j Hj]; eexists _, _, _; split; [exact Hj|by eexists]].
    apply db_entry_appends in Ec. rewrite Ec, He, last_snoc.
    destruct fuel as [|fuel]; [lia|]. cbn [pages]. unfold add_control at 1. rewrite decide_False by lia.
    unfold fill_from at 1. rewrite (drop_ge _ (Z.to_nat _)) by lia. cbn [fill]. rewrite Hb. cbn [last mbind option_bind].
    by rewrite fmap_app, number_snd, app_nil_r.
  - rewrite He. assert (k ≠ 0)%nat as Hk0.
    { intros ->. specialize (Hz eq_refl). unfold fill_from in Ec. rewrite drop_ge in Ec by lia. cbn [fill] in Ec.
      destruct (Hfit (Z.of_nat (length es) + 1) control) as [x Hx]; [apply elem_of_app; right; by left|].
      cbn [fst snd control] in Hx. congruence. }
    destruct (page_last n k es) as [e ->]; [lia..|]. destruct (IH (n + k)%nat (S i)) as (k' & -> & Hl); [lia..|].
    exists (k + k')%nat. split; [|intros e' He'; apply (Hl e'); by rewrite <- Nat.add_assoc].
    cbn [mbind option_bind]. rewrite number_snd, app_assoc. do 2 f_equal.
    rewrite <- drop_drop. apply take_take_drop.
Qed.

End client.

(** ** The daemon's directories *)
Section daemon.
Context `{FL : FsLimits, PJ : ProfileJson, ABI : SyscallAbi} {Buf : Type} `{DB : DirentBuffer Buf, DL : !DirentBufferLaws Buf}.
Implicit Types (s : ProfileScheme).

(** What one request returns to the client *)
Definition fetch (id : Z) (b : Buf) s (start : Z) : list (Z * (string * DirentKind)) :=
  match getdents id b start s with Some (Ok b', _) => entries_of b' | _ => [] end.

Definition union_of (name sub : string) s : list UnionEntry :=
  match profiles (sc_profiles s) !! name with
  | Some mapping => Mapping.list_union_from_manifests sub (sc_manifests s) mapping
  | None => []
  end.

(** What is in a directory: the profiles, or the entries of the packages of a profile *)
Definition listing (name sub : string) s : list (string * DirentKind) :=
  if decide (name = "") then (λ n, (n, KindDirectory)) <$> list_profiles (sc_profiles s)
  else (if decide (sub = "") then root_kind else sub_kind) <$> union_of name sub s.

(** A handle of a directory of a profile that is there, or of the scheme's root *)
Definition is_dir (id : Z) (name sub : string) s : Prop :=
  (∃ p, handles (sc_handles s) !! id = Some (PDir p name sub)) ∧ (name ≠ "" → is_Some (profiles (sc_profiles s) !! name)).

Lemma fetch_listing id b s start name sub :
  is_dir id name sub s → entries_of b = [] →
  fetch id b s start
  = entries_of (if decide (name = "" ∨ sub ≠ "") then fill_from b start (listing name sub s)
                else add_control (fill_from b start (listing name sub s)) start (length (listing name sub s))).
Proof.
  intros [[p Hh] Hp] Hb. unfold fetch, getdents, mbind, Req_bind, rq_get. rewrite Hh. unfold listing, union_of.
  destruct (decide (name = "")) as [->|Hn]; [by rewrite decide_True by (by left)|].
  destruct (Hp Hn) as [m ->]. destruct (decide (sub = "")) as [->|Hs].
  - rewrite decide_False by naive_solver. done.
  - rewrite decide_True by (by right). done.
Qed.

Lemma fetch_root id b s start p name m :
  handles (sc_handles s) !! id = Some (PDir p name "") → name ≠ "" → profiles (sc_profiles s) !! name = Some m →
  entries_of b = [] →
  fetch id b s start
  = entries_of (add_control (fill_from b start (listing name "" s)) start (length (listing name "" s))).
Proof.
  intros Hh Hn Hm Hb. rewrite (fetch_listing id b s start name ""), decide_False; [done|naive_solver| |done].
  split; [by exists p|]. by rewrite Hm.
Qed.

End daemon.

(** C35. A directory is read to its end, whatever the daemon does between the requests as long as the
    directory stays what it is.  A client that passes empty buffers with room for at least one
    entry gets the whole listing of the scheme's root, or of a directory inside a profile, each
    entry once and in order, after at most one request for each entry and a last one.  In the root
    of a profile it gets entries from the first on and then [.control], after at most two requests
    more than there are entries; all the entries, unless the first that is left out did not fit
    what was left of a buffer in which [.control] did. *)
Theorem getdents_complete `{FL : FsLimits, PJ : ProfileJson, ABI : SyscallAbi} `{DL : DirentBufferLaws Buf}
    id b (daemon : nat → ProfileScheme) name sub es :
  (∀ i, is_dir id name sub (daemon i) ∧ listing name sub (daemon i) = es) → fresh_buffer b (es ++ [control]) →
  let read fuel := pages fuel (λ i, fetch id b (daemon i)) 0 0 in
  if decide (name = "" ∨ sub ≠ "") then read (S (length es)) = Some es
  else ∃ k, read (S (S (length es))) = Some (take k es ++ [control])
         ∧ ∀ e, es !! k = Some e → ∃ b' j j', db_entry b' j e.1 e.2 = None ∧ is_Some (db_entry b' j' ".control" KindRegular).
Proof.
  intros Hd Hb read.
  assert (∀ i start, fetch id b (daemon i) start
            = entries_of (if decide (name = "" ∨ sub ≠ "") then fill_from b start es else add_control (fill_from b start es) start (length es)))
    as Hfetch.
  { intros i start. destruct (Hd i) as [Hi <-]. apply fetch_listing; [done|apply Hb]. }
  unfold read. case_decide as Hk.
  - rewrite (pages_ext _ _ _ _ _ Hfetch). apply (pages_from b es 0); [|lia|lia].
    destruct Hb as [H1 H2]. split; [done|]. intros i e He. apply H2, elem_of_app. by left.
  - destruct (root_pages_from b es 0 0 (S (S (length es))) Hb) as (k & E & Hl); [lia..|]. exists k.
    rewrite (pages_ext _ _ _ _ _ Hfetch). split; [exact E|exact Hl].
Qed.

(** The root of a profile is not always read to its end.  When the first page is
    full after some of the packages' entries and [.control] still fits into what is left
    of the buffer, the client gets these entries and [.control] and nothing else: the
    other entries are never listed. *)
Theorem root_listing_loses_entries `{FL : FsLimits, PJ : ProfileJson, ABI : SyscallAbi} `{DL : DirentBufferLaws Buf}
    id b s p name m k b' fuel :
  handles (sc_handles s) !! id = Some (PDir p name "") → name ≠ "" → profiles (sc_profiles s) !! name = Some m →
  let es := listing name "" s in
  entries_of b = [] → entries_of (fill_from b 0 es) = number 0 (take k es) → (k < length es)%nat →
  db_entry (fill_from b 0 es) (Z.of_nat (length es) + 1) ".control" KindRegular = Some b' →
  (2 ≤ fuel)%nat →
  pages fuel (λ _, fetch id b s) 0 0 = Some (take k es ++ [control]).
Proof.
  intros Hh Hn Hm es Hb Hk Hlt Hc Hf. destruct fuel as [|[|fuel]]; [lia..|].
  assert (H0 : fetch id b s 0 = number 0 (take k es) ++ [(Z.of_nat (length es) + 1, control)]).
  { rewrite (fetch_root id b s 0 p name m) by done. fold es. unfold add_control. rewrite decide_True by lia.
    rewrite Hc. simpl. apply db_entry_appends in Hc. by rewrite Hc, Hk. }
  assert (H1 : fetch id b s (Z.of_nat (length es) + 1) = []).
  { rewrite (fetch_root id b s _ p name m) by done. fold es. unfold add_control. rewrite decide_False by lia.
    unfold fill_from. rewrite drop_ge by lia. done. }
  cbn [pages]. rewrite H0, last_snoc. cbn [pages]. rewrite H1. simpl.
  rewrite fmap_app, number_snd, app_nil_r. done.
Qed.

(** ** Examples *)
Module DirentDemo.

(** A buffer of so many bytes, 24 for each entry besides its name *)
Definition Sized : Type := Z * list (Z * (string * DirentKind)).

#[export] Instance sized_buffer : DirentBuffer Sized := {|
  db_entry b i n k :=
    let cost := 24 + Z.of_nat (String.length n) in
    if decide (cost ≤ b.1) then Some (b.1 - cost, b.2 ++ [(i, (n, k))]) else None;
  entries_of := snd;
|}.

#[export] Instance sized_laws : DirentBufferLaws Sized.
Proof. constructor. intros b i n k b'. simpl. case_decide; [|done]. by intros [= <-]. Qed.

Definition demo_manifest_entry (p kind : string) : ManifestEntry := mkManifestEntry p kind 1 false.

Definition demo_mapping : ProfileMapping :=
  mkProfileMapping 1 [mkProfileEntry "rg" "/nix/store/a-rg" 0; mkProfileEntry "fd" "/nix/store/b-fd" 0].

(** Two packages: one with a directory of a long name, one with [bin] *)
Definition demo_daemon (sub : string) : ProfileScheme :=
  mkProfileScheme
    (mkProfileStore {[ "default" := demo_mapping ]} "/nix/var/snix/profiles" (mkFsys ∅ []))
    {[ "/nix/store/a-rg" := [demo_manifest_entry "bin/rg" "file"; demo_manifest_entry "share/doc" "file"];
       "/nix/store/b-fd" := [demo_manifest_entry "bin/fd" "file"; demo_manifest_entry "include-for-developers" "dir"] ]}
    (mkHandleTable 2 {[ 1 := PDir "" "default" sub ]}).

#[local] Existing Instance redox_abi.

(** Between the requests other handles are opened. *)
Definition busy (sub : string) (i : nat) : ProfileScheme :=
  set_handles (mkHandleTable 100 (<[10 + Z.of_nat i := PDir "" "" ""]> {[ 1 := PDir "" "default" sub ]})) (demo_daemon sub).

Ltac each_entry := intros ? ? H; repeat (apply elem_of_cons in H as [->|H]; [vm_compute; by eexists|]); by apply elem_of_nil in H.

Lemma busy_dir sub i : is_dir 1 "default" sub (busy sub i).
Proof.
  split; [|intros _; by eexists]. exists "". simpl. rewrite lookup_insert_ne by lia. done.
Qed.

Lemma getdents_complete_witness :
  pages 3 (λ i, fetch 1 ((40, []) : Sized) (busy "bin" i)) 0 0 = Some [("fd", KindRegular); ("rg", KindRegular)]
  ∧ ∃ k, pages 5 (λ i, fetch 1 ((60, []) : Sized) (busy "" i)) 0 0
         = Some (take k [("bin", KindDirectory); ("include-for-developers", KindDirectory); ("share", KindDirectory)] ++ [control]).
Proof.
  split.
  - apply (getdents_complete (Buf := Sized) 1 (40, []) (busy "bin") "default" "bin" [("fd", KindRegular); ("rg", KindRegular)]).
    + intros i. split; [apply busy_dir|vm_compute; reflexivity].
    + split; [reflexivity|each_entry].
  - destruct (getdents_complete (Buf := Sized) 1 (60, []) (busy "") "default" ""
      [("bin", KindDirectory); ("include-for-developers", KindDirectory); ("share", KindDirectory)]) as (k & E & _).
    + intros i. split; [apply busy_dir|vm_compute; reflexivity].
    + split; [reflexivity|each_entry].
    + exists k. exact E.
Defined.

(** [include-for-developers] and [share] are never listed. *)
Lemma root_listing_loses_entries_witness :
  listing "default" "" (demo_daemon "") = [("bin", KindDirectory); ("include-for-developers", KindDirectory); ("share", KindDirectory)]
  ∧ pages 9 (λ _, fetch 1 ((60, []) : Sized) (demo_daemon "")) 0 0 = Some [("bin", KindDirectory); (".control", KindRegular)].
Proof.
  split; [vm_compute; reflexivity|].
  apply (root_listing_loses_entries (Buf := Sized) 1 (60, []) (demo_daemon "") "" "default" demo_mapping 1
    (1, [(1, ("bin", KindDirectory)); (4, (".control", KindRegular))]) 9);
    [vm_compute; reflexivity|discriminate|vm_compute; reflexivity..|vm_compute; lia|vm_compute; reflexivity|lia].
Defined.

End DirentDemo.
