(* ===== verification/ProfileDisk.v ===== *)
(** * The profiles on disk

    Each command rewrites one [mapping.json] through a temporary file.  At every moment,
    whatever call fails, a daemon that starts from the disk loads the profiles of before
    the command or those of after it. *)

From S2P Require Import Prelude RustStd FileSys FileSysFacts Nar Profiles ManifestInstances.

Open Scope Z_scope.

Section disk.
Context `{FL : FsLimits, PJ : ProfileJson, PL : !ProfileJsonLaws}.
Variable d : path.
Implicit Types (t : tree) (P : gmap string ProfileMapping).

Definition entry_dir (n : string) : path := d ++ [Normal n].
Definition file_in (n file : string) : path := d ++ [Normal n; Normal file].

(** A name that is one component of a path *)
Definition safe (n : string) : Prop := Path.components n = [Normal n] ∧ Str.utf8_valid n = true.

(** The disk holds the profiles [P], and nothing that [load] would take for another. *)
Record saved P t : Prop := mkSaved {
  sv_above : Forall (dir_at t) (ancestors d);
  sv_dir : dir_at t d;
  sv_child : ∀ n, not_link t (entry_dir n);
  sv_tmp : ∀ n, not_link t (file_in n "mapping.json.tmp");
  sv_some : ∀ n m, P !! n = Some m → safe n ∧ dir_at t (entry_dir n)
    ∧ ∃ mode, t !! file_in n "mapping.json" = Some (File (pj_print m) mode);
  sv_none : ∀ n, P !! n = None →
    t !! file_in n "mapping.json" = None ∧ t !! file_in n "manifest.json" = None;
}.

(** Reading works: no read fails, and the mapping files have paths the system accepts. *)
Record readable P : Prop := mkReadable {
  rd_faults : ∀ op p, op ∈ [OpStat; OpRead; OpReadDir] → fs_fault op p = None;
  rd_short : short d;
  rd_files : ∀ n, is_Some (P !! n) → short (file_in n "mapping.json");
}.

Hypothesis d_abs : abs_path d.
Hypothesis d_deep : (2 ≤ length d)%nat.

Lemma file_in_snoc n file : file_in n file = entry_dir n ++ [Normal file].
Proof. unfold file_in, entry_dir. by rewrite <- app_assoc. Qed.

Lemma join_child n : Path.join d [Normal n] = entry_dir n.
Proof. destruct d_abs as [ns E]. unfold Path.join, entry_dir. by rewrite E. Qed.

Lemma join_file n file : Path.join (entry_dir n) [Normal file] = file_in n file.
Proof. rewrite file_in_snoc. unfold Path.join, entry_dir. destruct d_abs as [ns E]. by rewrite E. Qed.

Lemma entry_abs n : abs_path (entry_dir n).
Proof. destruct d_abs as [ns Hns]. exists (ns ++ [n]). unfold entry_dir. rewrite Hns, fmap_app. done. Qed.

Lemma file_abs n file : abs_path (file_in n file).
Proof. destruct d_abs as [ns Hns]. exists (ns ++ [n; file]). unfold file_in. rewrite Hns, fmap_app. done. Qed.

Lemma entry_above n : ancestors (entry_dir n) = ancestors d ++ [d].
Proof. by apply ancestors_snoc. Qed.

Lemma file_above n file : ancestors (file_in n file) = ancestors d ++ [d; entry_dir n].
Proof.
  rewrite file_in_snoc, ancestors_snoc, entry_above, <- app_assoc; [done|].
  unfold entry_dir. rewrite length_app. simpl. lia.
Qed.

Lemma not_root (p : path) : d `prefix_of` p → p ≠ [RootDir].
Proof. intros [k ->] Hp. apply (f_equal length) in Hp. rewrite length_app in Hp. simpl in Hp. lia. Qed.

(** ** Reading the disk back *)
Lemma metadata_dirs t p :
  (∀ op p, op ∈ [OpStat; OpRead; OpReadDir] → fs_fault op p = None) →
  abs_path p → p ≠ [RootDir] → Forall (dir_at t) (ancestors p) → not_link t p → short p →
  metadata t p = ok_or NotFound (t !! p).
Proof.
  intros Hf Ha Hr Hd Hl Hs. unfold metadata, stat_with. rewrite Hf by set_solver.
  rewrite resolve_dirs by done. simpl. unfold node_at. rewrite decide_False by done. by destruct (t !! p).
Qed.

Lemma read_text_dirs t p text mode :
  (∀ op p, op ∈ [OpStat; OpRead; OpReadDir] → fs_fault op p = None) →
  abs_path p → p ≠ [RootDir] → Forall (dir_at t) (ancestors p) → short p →
  t !! p = Some (File text mode) → Str.utf8_valid text = true → read_text t p = Ok text.
Proof.
  intros Hf Ha Hr Hd Hs Ht Hu. unfold read_text, read_file. rewrite Hf by set_solver.
  rewrite resolve_dirs by (done || by intros target; rewrite Ht). simpl. unfold node_at.
  rewrite decide_False, Ht by done. by rewrite Hu.
Qed.

(** A file that is not there does not exist, however long its path. *)
Lemma missing_file t p :
  (∀ op p, op ∈ [OpStat; OpRead; OpReadDir] → fs_fault op p = None) →
  abs_path p → p ≠ [RootDir] → Forall (dir_at t) (ancestors p) → t !! p = None → path_exists t p = false.
Proof.
  intros Hf Ha Hr Hd Hn. unfold path_exists, metadata, stat_with. rewrite Hf by set_solver.
  destruct (resolve_plain t true p) as [H|[e H]]; [by apply plain_dirs|by intros _ target; rewrite Hn| |]; rewrite H; [|done].
  simpl. unfold node_at. by rewrite decide_False, Hn by done.
Qed.

Lemma file_dirs P t n file m : saved P t → t !! entry_dir n = Some (Dir m) → Forall (dir_at t) (ancestors (file_in n file)).
Proof.
  intros Hs Hn. rewrite file_above. apply Forall_app. split; [apply Hs|]. repeat constructor; [apply Hs|by exists m].
Qed.

(** One directory entry: a profile is loaded, nothing else is. *)
Lemma load_entry_saved clock P t acc n x :
  saved P t → readable P → t !! entry_dir n = Some x →
  load_entry clock t d acc (n, x) = Ok (match P !! n with Some m => <[n := m]> acc | None => acc end).
Proof.
  intros Hs [Hf Hd Hfiles] Hx. unfold load_entry. simpl. destruct (P !! n) as [m|] eqn:Em.
  - destruct (sv_some _ _ Hs n m Em) as ([_ Hu] & [dm Hdm] & mode & Hfile). assert (x = Dir dm) as -> by congruence.
    rewrite join_child. unfold mapping_path. rewrite join_file.
    assert (Hab : Forall (dir_at t) (ancestors (file_in n "mapping.json"))) by by eapply file_dirs.
    assert (Hr : file_in n "mapping.json" ≠ [RootDir]) by by apply not_root, prefix_app_r.
    assert (Hsh : short (file_in n "mapping.json")) by (apply Hfiles; by rewrite Em).
    unfold path_exists. rewrite metadata_dirs by (done || apply file_abs || by intros target; rewrite Hfile).
    rewrite Hfile. simpl is_ok. cbv iota.
    erewrite read_text_dirs by (done || apply file_abs || apply pj_print_utf8). simpl.
    rewrite pj_parse_print. simpl. by rewrite Str.from_utf8_lossy_valid.
  - destruct x as [| |dm]; [done..|]. destruct (sv_none _ _ Hs n Em) as [H1 H2].
    rewrite join_child. unfold mapping_path. rewrite !join_file.
    rewrite (missing_file t (file_in n "mapping.json")); [|done|apply file_abs|by apply not_root, prefix_app_r|by eapply file_dirs|done].
    rewrite (missing_file t (file_in n "manifest.json")); [done|done|apply file_abs|by apply not_root, prefix_app_r|by eapply file_dirs|done].
Qed.

Lemma load_entries_saved clock P t es acc :
  saved P t → readable P → (∀ n x, (n, x) ∈ es → t !! entry_dir n = Some x) →
  ∃ P', load_entries clock t d acc es = Ok P'
    ∧ ∀ n, P' !! n = if bool_decide (n ∈ es.*1) then (match P !! n with Some m => Some m | None => acc !! n end) else acc !! n.
Proof.
  intros Hs Hr. revert acc. induction es as [|[n x] es IH]; intros acc Hes; cbn [load_entries].
  - eexists. split; [done|]. intros n. done.
  - rewrite (load_entry_saved clock P) by (try done; apply Hes; by left). cbn [mbind result_bind].
    destruct (IH (match P !! n with Some m => <[n := m]> acc | None => acc end)) as (P' & -> & HP').
    { intros n' x' Hin. apply Hes. by right. }
    exists P'. split; [done|]. intros k. rewrite HP', fmap_cons. cbn [fst]. destruct (decide (k = n)) as [->|Hk].
    + rewrite (bool_decide_eq_true_2 (n ∈ n :: es.*1)) by (by left).
      destruct (P !! n) as [m|]; [rewrite lookup_insert_eq|]; by case_bool_decide.
    + assert (E : bool_decide (k ∈ n :: es.*1) = bool_decide (k ∈ es.*1))
        by (apply bool_decide_ext; rewrite elem_of_cons; naive_solver).
      rewrite E. destruct (P !! n); [rewrite lookup_insert_ne by done|]; done.
Qed.

Lemma elem_of_children_dir t n x : (n, x) ∈ children t d ↔ t !! entry_dir n = Some x.
Proof. unfold children. rewrite BTree.elem_of_to_list. fold (children_map t d). by rewrite children_map_lookup. Qed.

Lemma child_names t n : n ∈ (children t d).*1 ↔ is_Some (t !! entry_dir n).
Proof.
  split.
  - intros ([n' x] & -> & Hin)%list_elem_of_fmap. apply elem_of_children_dir in Hin. by eexists.
  - intros [x Hx]. apply list_elem_of_fmap. exists (n, x). split; [done|]. by apply elem_of_children_dir.
Qed.

Lemma read_saved clock P t :
  saved P t → readable P →
  is_dir t d = true ∧ ∃ es, read_dir t d = Ok es ∧ load_entries clock t d ∅ es = Ok P.
Proof.
  intros Hs Hr. pose proof Hr as [Hf Hd _]. destruct (sv_dir _ _ Hs) as [m Hm].
  assert (Hnr : d ≠ [RootDir]) by by apply not_root.
  assert (Hnl : not_link t d) by (intros target; by rewrite Hm).
  split.
  - unfold is_dir. rewrite metadata_dirs by (try done; apply Hs). by rewrite Hm.
  - exists (children t d). split.
    + unfold read_dir. rewrite Hf by set_solver. rewrite resolve_dirs by (try done; apply Hs). simpl.
      unfold node_at. by rewrite decide_False, Hm by done.
    + destruct (load_entries_saved clock P t (children t d) ∅ Hs Hr) as (P' & -> & HP').
      { intros n x. apply elem_of_children_dir. }
      f_equal. apply map_eq. intros n. rewrite HP'. case_bool_decide as Hin.
      * by destruct (P !! n).
      * rewrite lookup_empty. destruct (P !! n) as [mp|] eqn:E; [|done]. exfalso. apply Hin, child_names.
        destruct (sv_some _ _ Hs n mp E) as (_ & [dm Hdm] & _). by eexists.
Qed.

(** What a daemon that starts from the tree has *)
Definition loads (dir : string) (clock : string → Z) P t : Prop :=
  ∀ past, load clock dir (mkFsys t past) = (Ok (mkProfileStore P dir (mkFsys t past)), mkFsys t past).

Lemma saved_loads dir clock P t : d = Path.components dir → saved P t → readable P → loads dir clock P t.
Proof.
  intros Hdir Hs Hr past. destruct (read_saved clock P t Hs Hr) as (Hd & es & He & Hl).
  unfold load. simpl fs_tree. rewrite <- Hdir, Hd, He, Hl.
  assert (Hm : ∀ names, (∀ n, n ∈ names → is_Some (P !! n)) →
    persist_missing names (mkProfileStore P dir (mkFsys t past)) = (Ok tt, mkProfileStore P dir (mkFsys t past))).
  { induction names as [|n names IH]; intros Hn; [done|]. cbn [persist_missing].
    unfold mbind, PS_bind, SR_bind, sr_get. cbn beta iota. cbn [profiles_dir ps_fs fs_tree].
    assert (Hex : path_exists t (mapping_path (profile_dir dir n)) = true).
    { destruct (Hn n) as [m Hm]; [by left|]. destruct (sv_some _ _ Hs n m Hm) as ([Hsafe _] & [dm Hdm] & mode & Hfile).
      unfold profile_dir. rewrite <- Hdir, Hsafe, join_child. unfold mapping_path. rewrite join_file.
      unfold path_exists. rewrite metadata_dirs; [by rewrite Hfile|apply Hr|apply file_abs|by apply not_root, prefix_app_r| | |].
      - by eapply file_dirs.
      - intros target. by rewrite Hfile.
      - apply Hr. by eexists. }
    rewrite Hex. apply IH. intros k Hk. apply Hn. by right. }
  rewrite Hm; [done|]. intros n Hn. by apply BTree.elem_of_keys.
Qed.

(** ** Writing a profile *)
Lemma entry_len n : length (entry_dir n) = S (length d).
Proof. unfold entry_dir. rewrite length_app. simpl. lia. Qed.
Lemma file_len n file : length (file_in n file) = S (S (length d)).
Proof. unfold file_in. rewrite length_app. simpl. lia. Qed.
Lemma file_in_inj n file n' file' : file_in n file = file_in n' file' → n = n' ∧ file = file'.
Proof. unfold file_in. intros H%app_inv_head. by injection H as -> ->. Qed.
Lemma entry_not_file n n' file : entry_dir n ≠ file_in n' file.
Proof. intros H%(f_equal length). rewrite entry_len, file_len in H. lia. Qed.
Lemma above_len q : q ∈ ancestors d → (length q ≤ length d)%nat.
Proof. unfold ancestors. intros (i & -> & _)%list_elem_of_fmap. rewrite length_take. lia. Qed.

(** The tree changed at the two files of one profile only (or deeper). *)
Definition apart_from (n : string) t t' : Prop :=
  ∀ k, (length k ≤ S (S (length d)))%nat → k ≠ file_in n "mapping.json.tmp" → k ≠ file_in n "mapping.json" →
    t' !! k = t !! k.

Lemma apart_dir_at n t t' q : apart_from n t t' → (length q ≤ S (length d))%nat → dir_at t q → dir_at t' q.
Proof.
  intros Ha Hq [m Hm]. exists m. rewrite Ha; [done|lia|..];
    intros ->; rewrite file_len in Hq; lia.
Qed.

Lemma saved_change P P' t t' n :
  saved P t → apart_from n t t' → not_link t' (file_in n "mapping.json.tmp") →
  (∀ k, k ≠ n → P' !! k = P !! k) →
  ((P' !! n = P !! n ∧ t' !! file_in n "mapping.json" = t !! file_in n "mapping.json")
   ∨ ∃ m mode, P' !! n = Some m ∧ safe n ∧ dir_at t (entry_dir n)
       ∧ t' !! file_in n "mapping.json" = Some (File (pj_print m) mode)) →
  saved P' t'.
Proof.
  intros [S1 S2 S3 S4 S5 S6] Ha Htmp HP Hn. constructor.
  - apply Forall_forall. intros q Hq. apply (apart_dir_at n t); [done|apply above_len in Hq; lia|].
    rewrite Forall_forall in S1. by apply S1.
  - by apply (apart_dir_at n t); [|lia|].
  - intros k target. rewrite Ha; [apply S3|rewrite entry_len; lia|apply entry_not_file|apply entry_not_file].
  - intros k. destruct (decide (k = n)) as [->|Hk]; [done|]. intros target.
    rewrite Ha; [apply S4|by rewrite file_len|..]; by intros [? ?]%file_in_inj.
  - intros k m Hm. destruct (decide (k = n)) as [->|Hk].
    + destruct Hn as [[E Ef]|(m' & mode & E & Hs & Hd & Ef)].
      * rewrite E in Hm. destruct (S5 n m Hm) as (H1 & H2 & mode & H3). split; [done|].
        split; [apply (apart_dir_at n t); [done|by rewrite entry_len|done]|]. exists mode. congruence.
      * assert (m' = m) as -> by congruence. split; [done|].
        split; [apply (apart_dir_at n t); [done|by rewrite entry_len|done]|]. by exists mode.
    + rewrite HP in Hm by done. destruct (S5 k m Hm) as (H1 & H2 & mode & H3). split; [done|].
      split; [apply (apart_dir_at n t); [done|by rewrite entry_len|done]|]. exists mode.
      rewrite Ha; [done|by rewrite file_len|..]; by intros [? ?]%file_in_inj.
  - intros k Hk. assert (Hman : t' !! file_in k "manifest.json" = t !! file_in k "manifest.json").
    { apply Ha; [by rewrite file_len|..]; by intros [? ?]%file_in_inj. }
    rewrite Hman. destruct (decide (k = n)) as [->|Hkn].
    + destruct Hn as [[E Ef]|(m' & mode & E & _)]; [|congruence]. rewrite Ef. apply S6. congruence.
    + rewrite (Ha (file_in k "mapping.json")); [apply S6; by rewrite <- HP|by rewrite file_len|..];
        by intros [? ?]%file_in_inj.
Qed.

Lemma saved_made P n t t' : saved P t → dirs_made (entry_dir n) t t' → saved P t'.
Proof.
  intros [S1 S2 S3 S4 S5 S6] Hm.
  assert (Hfile : ∀ k file, t' !! file_in k file = t !! file_in k file).
  { intros k file. destruct (Hm (file_in k file)) as [H|(_ & Hp & _)]; [done|].
    apply prefix_length in Hp. rewrite file_len, entry_len in Hp. lia. }
  constructor.
  - eapply Forall_impl; [exact S1|]. intros q. by apply dirs_made_dir_at with (dir := entry_dir n).
  - by eapply dirs_made_dir_at.
  - intros k. by eapply dirs_made_not_link.
  - intros k target. rewrite Hfile. apply S4.
  - intros k m Hk. destruct (S5 k m Hk) as (H1 & H2 & mode & H3). split; [done|].
    split; [by eapply dirs_made_dir_at|]. exists mode. by rewrite Hfile.
  - intros k Hk. rewrite !Hfile. by apply S6.
Qed.

Lemma entry_plain P t n : saved P t → plain t (entry_dir n).
Proof.
  intros Hs. apply plain_dirs; [apply entry_abs|]. rewrite entry_above. apply Forall_app.
  split; [apply Hs|]. repeat constructor. apply Hs.
Qed.

Lemma file_plain P t n file : saved P t → plain t (file_in n file).
Proof. intros Hs. rewrite file_in_snoc. apply plain_snoc; [by eapply entry_plain|apply Hs]. Qed.

Lemma on_disk_run {A} (m : F A) s r s' :
  on_disk m s = (r, s') → ∃ x, m (ps_fs s) = (x, ps_fs s') ∧ profiles s' = profiles s ∧ profiles_dir s' = profiles_dir s
    ∧ r = match x with Ok a => Ok a | Err e => Err (ProfileIo e) end.
Proof. unfold on_disk. destruct (m (ps_fs s)) as [x f]. intros [= <- <-]. by exists x. Qed.

Definition either P P' t : Prop := saved P t ∨ saved P' t.

Lemma run_saved P P' (f f' : fsys) : run_in (saved P) f f' → run_in (either P P') f f'.
Proof. apply run_in_mono. intros t Ht. by left. Qed.

(** Memory is one profile ahead of the disk, and the profile is written. *)
Lemma persist_run P profile m s r s' :
  d = Path.components (profiles_dir s) → safe profile → saved P (fs_tree (ps_fs s)) →
  profiles s = <[profile := m]> P → persist profile s = (r, s') →
  profiles s' = profiles s ∧ profiles_dir s' = profiles_dir s
  ∧ run_in (either P (profiles s)) (ps_fs s) (ps_fs s')
  ∧ (r = Ok tt → saved (profiles s) (fs_tree (ps_fs s'))).
Proof.
  intros Hd Hsafe Hs HP H. unfold persist, mbind, PS_bind, SR_bind, sr_get, sr_lift in H. cbn beta iota in H.
  assert (Hlook : profiles s !! profile = Some m) by (rewrite HP; apply lookup_insert_eq).
  rewrite Hlook in H. simpl ok_or in H. cbn beta iota in H.
  assert (Hdir : profile_dir (profiles_dir s) profile = entry_dir profile)
    by (unfold profile_dir; rewrite <- Hd, (proj1 Hsafe); apply join_child).
  rewrite Hdir in H. unfold tmp_mapping_path, mapping_path in H. rewrite !join_file in H.
  destruct (on_disk (create_dir_all _) s) as [r1 s1] eqn:E1.
  apply on_disk_run in E1 as (x1 & E1 & P1 & D1 & ->).
  assert (R1 : run_in (saved P) (ps_fs s) (ps_fs s1)).
  { apply (stays_dirs_made (entry_dir profile) (fs_tree (ps_fs s))) in E1; [|by eapply entry_plain|intros k; by left].
    eapply run_in_mono; [|exact E1]. intros t Ht. by eapply saved_made. }
  destruct x1 as [[]|e1]; [|injection H as <- <-; split_and!; [done|done|by apply run_saved|done]].
  pose proof (run_in_last _ _ _ R1 Hs) as S1.
  destruct (on_disk (write_file _ _) s1) as [r2 s2] eqn:E2.
  apply on_disk_run in E2 as (x2 & E2 & P2 & D2 & ->).
  assert (Htmp : ∀ t text mode, saved P t → saved P (<[file_in profile "mapping.json.tmp" := File text mode]> t)).
  { intros t text mode St. apply (saved_change P P t _ profile).
    - done.
    - intros k _ Hk _. by rewrite lookup_insert_ne.
    - intros target. by rewrite lookup_insert_eq.
    - done.
    - left. split; [done|]. rewrite lookup_insert_ne; [done|]. by intros [_ ?]%file_in_inj. }
  apply write_file_inv in E2 as E2'; [|by eapply file_plain|apply S1].
  assert (R2 : run_in (saved P) (ps_fs s1) (ps_fs s2)).
  { destruct E2' as [[-> _]|(mode & text & -> & _)]; [apply run_in_refl|].
    eapply run_in_trans; apply run_in_push; by apply Htmp. }
  pose proof (run_in_trans _ _ _ _ R1 R2) as R12.
  destruct x2 as [[]|e2]; [|injection H as <- <-; split_and!; [congruence|congruence|by apply run_saved|done]].
  assert (Hw : ∃ mode, fs_tree (ps_fs s2) !! file_in profile "mapping.json.tmp" = Some (File (pj_print m) mode)).
  { destruct E2' as [[_ [e He]]|(mode & text & -> & Ht)]; [done|]. rewrite (Ht eq_refl). exists mode. apply lookup_insert_eq. }
  destruct Hw as [mode Hw]. pose proof (run_in_last _ _ _ R12 Hs) as S2.
  apply on_disk_run in H as (x3 & E3 & P3 & D3 & ->).
  apply rename_inv in E3 as [[E3 [e ->]]|(-> & _ & _ & E3 & Hra & _)];
    [| |by eapply file_plain|by eapply file_plain|by intros [_ ?]%file_in_inj].
  { rewrite E3. split_and!; [congruence|congruence|by apply run_saved|done]. }
  assert (S3 : saved (profiles s) (move_tree (file_in profile "mapping.json.tmp") (file_in profile "mapping.json") (fs_tree (ps_fs s2)))).
  { apply (saved_change P _ (fs_tree (ps_fs s2)) _ profile).
    - done.
    - intros k Hk H1 H2. rewrite move_tree_lookup.
      assert (Hpre : ∀ file, file_in profile file `prefix_of` k → k = file_in profile file).
      { intros file [q ->]. rewrite length_app, file_len in Hk. destruct q; [by rewrite app_nil_r|simpl in Hk; lia]. }
      rewrite decide_False by (intros Hq; by apply H2, Hpre).
      rewrite decide_False by (intros Hq; by apply H1, Hpre). done.
    - intros target. rewrite move_tree_lookup. rewrite decide_False.
      + by rewrite decide_True.
      + intros [q Hq]. apply (f_equal length) in Hq as Hlen. rewrite length_app, !file_len in Hlen.
        destruct q; [|simpl in Hlen; lia]. rewrite app_nil_r in Hq. by apply file_in_inj in Hq as [_ ?].
    - intros k Hk. rewrite HP. by rewrite lookup_insert_ne.
    - right. exists m, mode. split; [done|]. split; [done|]. split.
      + pose proof (resolve_ok_dirs _ _ _ _ (file_plain _ _ profile "mapping.json.tmp" S2) Hra) as Hf.
        rewrite file_above in Hf. apply Forall_app in Hf as [_ Hf]. by inversion Hf as [|? ? _ Hf2]; inversion Hf2.
      + rewrite move_tree_lookup, decide_True by done. by rewrite drop_all, app_nil_r. }
  rewrite E3. split_and!; [congruence|congruence| |done].
  eapply run_in_trans; [by apply run_saved|]. apply run_in_push. by right.
Qed.

(** ** Commands *)
Lemma filter_same {A} (Q : A → Prop) `{!∀ x, Decision (Q x)} (l : list A) :
  ¬ (length (filter Q l) < length l)%nat → filter Q l = l.
Proof.
  induction l as [|x l IH]; [done|]. rewrite filter_cons. case_decide; simpl; intros Hl.
  - f_equal. apply IH. lia.
  - pose proof (length_filter Q l). lia.
Qed.

Lemma remove_nothing name m m' : Mapping.remove name m = (false, m') → m' = m.
Proof.
  unfold Mapping.remove. intros [= Hb <-]. apply bool_decide_eq_false in Hb.
  rewrite filter_same by done. by destruct m.
Qed.

(** What a command does to the store, disk included *)
Definition disk_ok (profile : string) (s : ProfileStore) {A} (r : result ProfileError A) (s' : ProfileStore) : Prop :=
  profiles_dir s' = profiles_dir s
  ∧ (∀ n, n ≠ profile → profiles s' !! n = profiles s !! n)
  ∧ run_in (either (profiles s) (profiles s')) (ps_fs s) (ps_fs s')
  ∧ (∀ a, r = Ok a → saved (profiles s') (fs_tree (ps_fs s'))).

Lemma disk_ok_same profile s {A} (r : result ProfileError A) : saved (profiles s) (fs_tree (ps_fs s)) → disk_ok profile s r s.
Proof. intros Hs. split_and!; [done|done|apply run_in_refl|done]. Qed.

Lemma add_package_disk now profile name sp s r s' :
  d = Path.components (profiles_dir s) → safe profile → saved (profiles s) (fs_tree (ps_fs s)) →
  add_package now profile name sp s = (r, s') → disk_ok profile s r s'.
Proof.
  intros Hd Hsafe Hs H. unfold add_package, mbind, PS_bind, SR_bind, sr_get, sr_put in H. cbn beta iota in H.
  eapply (persist_run (profiles s)) in H as (P1 & D1 & R1 & S1); [|exact Hd|exact Hsafe|exact Hs|reflexivity].
  split_and!; [done| | |].
  - intros n Hn. rewrite P1. simpl. by rewrite lookup_insert_ne.
  - rewrite P1. exact R1.
  - intros [] ->. rewrite P1. by apply S1.
Qed.

Lemma remove_package_disk profile name s r s' :
  d = Path.components (profiles_dir s) → safe profile → saved (profiles s) (fs_tree (ps_fs s)) →
  remove_package profile name s = (r, s') → disk_ok profile s r s'.
Proof.
  intros Hd Hsafe Hs H. unfold remove_package, mbind, PS_bind, SR_bind, sr_get, sr_put in H. cbn beta iota in H.
  destruct (profiles s !! profile) as [m|] eqn:Em; [|injection H as <- <-; by apply disk_ok_same].
  destruct (Mapping.remove name m) as [[] m'] eqn:Er.
  - match type of H with context [persist profile ?st] => destruct (persist profile st) as [r1 s1] eqn:Ep end.
    eapply (persist_run (profiles s)) in Ep as (P1 & D1 & R1 & S1); [|exact Hd|exact Hsafe|exact Hs|reflexivity].
    assert (Hok : ∀ x, (∀ a, x = Ok a → r1 = Ok tt) → disk_ok profile s (A := bool) x s1).
    { intros x Hx. split_and!; [done| | |].
      - intros n Hn. rewrite P1. simpl. by rewrite lookup_insert_ne.
      - rewrite P1. exact R1.
      - intros a Ha. rewrite P1. by apply S1, (Hx a). }
    destruct r1 as [[]|e]; injection H as <- <-; by apply Hok.
  - apply remove_nothing in Er as ->. injection H as <- <-. rewrite insert_id by done.
    destruct s; by apply disk_ok_same.
Qed.

Lemma process_control_disk now profile json s r s' :
  d = Path.components (profiles_dir s) → safe profile → saved (profiles s) (fs_tree (ps_fs s)) →
  process_control now profile json s = (r, s') → disk_ok profile s r s'.
Proof.
  intros Hd Hsafe Hs H. unfold process_control, mbind, PS_bind, SR_bind, sr_get, sr_lift in H. cbn beta iota in H.
  destruct (pj_parse_command json) as [cmd|]; simpl ok_or in H; cbn beta iota in H;
    [|injection H as <- <-; by apply disk_ok_same].
  assert (Hgo : ∀ {A B} (x : result ProfileError A) (y : result ProfileError B) s1,
    disk_ok profile s x s1 → (∀ b, y = Ok b → ∃ a, x = Ok a) → disk_ok profile s y s1).
  { intros A B x y s1 (H1 & H2 & H3 & H4) Hy. split_and!; [done..|]. intros b Hb. destruct (Hy b Hb) as [a Ha]. by eapply H4. }
  case_decide.
  { destruct (cmd_store_path cmd) as [sp|]; simpl ok_or in H; cbn beta iota in H;
      [|injection H as <- <-; by apply disk_ok_same].
    destruct (add_package now profile (cmd_name cmd) sp s) as [r1 s1] eqn:Ea.
    apply add_package_disk in Ea; [|done..].
    destruct r1 as [[]|e]; injection H as <- <-; (eapply Hgo; [exact Ea|]); intros b Hb; [by exists ()|done]. }
  case_decide.
  { destruct (remove_package profile (cmd_name cmd) s) as [r1 s1] eqn:Er.
    apply remove_package_disk in Er; [|done..].
    destruct r1 as [b1|e]; injection H as <- <-; (eapply Hgo; [exact Er|]); intros b Hb; [by exists b1|done]. }
  case_decide; injection H as <- <-; by apply disk_ok_same.
Qed.

Lemma readable_after profile P P' :
  readable P → short (file_in profile "mapping.json") → (∀ n, n ≠ profile → P' !! n = P !! n) → readable P'.
Proof.
  intros [H1 H2 H3] Hp HP. constructor; [done..|]. intros n Hn. destruct (decide (n = profile)) as [->|Hne]; [done|].
  apply H3. by rewrite <- HP.
Qed.

End disk.

(** C8. The profile store survives crashes.  When the disk holds the daemon's profiles,
    then during any command, whatever call fails, a daemon that starts from the tree of
    the moment loads either the profiles before the command or those after it, without
    touching the disk; and a command that succeeds leaves the disk holding the profiles
    after it, so that the next command starts from there. *)
Theorem profiles_survive_crashes `{FL : FsLimits, PJ : ProfileJson, PL : !ProfileJsonLaws} clock now profile json s r s' :
  let d := Path.components (profiles_dir s) in
  abs_path d → (2 ≤ length d)%nat → safe profile →
  saved d (profiles s) (fs_tree (ps_fs s)) → readable d (profiles s) → short (file_in d profile "mapping.json") →
  process_control now profile json s = (r, s') →
  run_in (λ t, loads (profiles_dir s) clock (profiles s) t ∨ loads (profiles_dir s) clock (profiles s') t) (ps_fs s) (ps_fs s')
  ∧ (∀ a, r = Ok a → saved d (profiles s') (fs_tree (ps_fs s')) ∧ readable d (profiles s')
                     ∧ loads (profiles_dir s) clock (profiles s') (fs_tree (ps_fs s'))).
Proof.
  intros d Ha Hdeep Hsafe Hs Hr Hsh H.
  apply (process_control_disk d) in H as (Hd & Hother & R & Hok); [|done..].
  assert (Hr' : readable d (profiles s')) by by eapply readable_after.
  split.
  - eapply run_in_mono; [|exact R]. intros t [St|St]; [left|right]; by eapply saved_loads.
  - intros a Ho. specialize (Hok a Ho). split; [done|]. split; [done|]. by eapply saved_loads.
Qed.

Module DiskDemo.

Definition profile_tree : tree :=
  <[Path.components "/nix" := Dir 493]> (<[Path.components "/nix/p" := Dir 493]> ∅).
Definition empty_store : ProfileStore := mkProfileStore ∅ "/nix/p" (mkFsys profile_tree []).
Definition add_rg : string := Instances.demo_print (mkControlCommand "add" "rg" (Some "/nix/a-rg") []).
Definition added := process_control 5 "default" add_rg empty_store.

(** The trees of the disk: the directory, the temporary file empty and full, the mapping *)
Lemma profiles_survive_crashes_witness :
  length (fs_past (ps_fs added.2)) = 4%nat
  ∧ run_in (λ t, loads "/nix/p" (λ _, 0) ∅ t ∨ loads "/nix/p" (λ _, 0) (profiles added.2) t) (ps_fs empty_store) (ps_fs added.2)
  ∧ loads "/nix/p" (λ _, 0) (profiles added.2) (fs_tree (ps_fs added.2)).
Proof.
  split; [vm_compute; reflexivity|].
  assert (Hempty : ∀ n file, profile_tree !! file_in (Path.components "/nix/p") n file = None).
  { intros n file. unfold profile_tree. rewrite !lookup_insert_ne; [done|..];
      intros Hq; apply (f_equal length) in Hq; vm_compute in Hq; done. }
  destruct (profiles_survive_crashes (λ _, 0) 5 "default" add_rg empty_store added.1 added.2) as [H1 H2].
  - exists ["nix"; "p"]. vm_compute. reflexivity.
  - vm_compute. lia.
  - split; vm_compute; reflexivity.
  - constructor.
    + vm_compute. repeat constructor. by eexists.
    + vm_compute. by eexists.
    + intros n target. change (fs_tree (ps_fs empty_store)) with profile_tree. unfold entry_dir, profile_tree. rewrite !lookup_insert_ne; [done|..];
        intros Hq; apply (f_equal length) in Hq; vm_compute in Hq; done.
    + intros n target. change (fs_tree (ps_fs empty_store)) with profile_tree. by rewrite Hempty.
    + intros n m Hn. discriminate Hn.
    + intros n _. split; apply Hempty.
  - constructor; [done|vm_compute; discriminate|]. intros n [m Hn]. discriminate Hn.
  - vm_compute. discriminate.
  - apply surjective_pairing.
  - split; [exact H1|]. assert (Ho : is_ok added.1 = true) by (vm_compute; reflexivity).
    destruct added.1 as [a|e] eqn:E; [|discriminate Ho]. apply (H2 a eq_refl).
Defined.

End DiskDemo.
