(* ===== verification/StoreResolve.v ===== *)
(** * Paths of the store scheme ([stored/resolve.rs])

    How the daemon reads the path of a request, and which file of the host it means. *)

From S2P Require Import Prelude RustStd.

Open Scope Z_scope.

Inductive ResolvedPath : Type :=
  | Root
  | StorePathRoot (store_path_name : string)
  | SubPath (store_path_name subpath : string).

Inductive ResolveError : Type :=
  | InvalidHash (h : string)
  | NotRegistered (p : string)
  | ResolveNotFound (p : string)
  | PathTraversal (p : string).

#[export] Instance ResolvedPath_eq_dec : EqDecision ResolvedPath.
Proof. solve_decision. Defined.
#[export] Instance ResolveError_eq_dec : EqDecision ResolveError.
Proof. solve_decision. Defined.

Definition is_nixbase32 (c : ascii) : bool :=
  let b := Str.byte c in
  bool_decide (48 ≤ b ≤ 57)%N || bool_decide (97 ≤ b ≤ 100)%N || bool_decide (102 ≤ b ≤ 110)%N
  || bool_decide (112 ≤ b ≤ 115)%N || bool_decide (118 ≤ b ≤ 122)%N.

(** [s.is_char_boundary(i)] inside UTF-8 text *)
Definition char_boundary (s : string) (i : nat) : bool :=
  match String.get i s with
  | Some a => negb (bool_decide (128 ≤ Str.byte a ≤ 191)%N)
  | None => bool_decide (i = String.length s)
  end.

(** [validate_store_path_name]; slicing inside a character panics.  A character that is
    not ASCII is not nixbase32, and neither is any of its bytes. *)
Definition validate_store_path_name (name : string) : outcome (result ResolveError unit) :=
  if decide (String.length name < 34)%nat then Returns (Err (InvalidHash name))
  else if negb (char_boundary name 32) then Panics
  else if negb (bool_decide (String.get 32 name = Some "-"%char)) then Returns (Err (InvalidHash name))
  else if Str.all_chars is_nixbase32 (String.substring 0 32 name) then Returns (Ok tt)
  else Returns (Err (InvalidHash name)).

Definition parse_scheme_path (p : string) : outcome (result ResolveError ResolvedPath) :=
  let p := Str.trim_matches "/" p in
  if decide (p = "") then Returns (Ok Root)
  else if Str.contains ".." p then Returns (Err (PathTraversal p))
  else
    let '(store_path_name, subpath) :=
      match Str.split_once "/" p with
      | Some (name, sub) => (name, Some sub)
      | None => (p, None)
      end in
    match validate_store_path_name store_path_name with
    | Panics => Panics
    | Returns (Err e) => Returns (Err e)
    | Returns (Ok _) =>
        Returns (Ok (match subpath with
                     | None => StorePathRoot store_path_name
                     | Some sub => if decide (sub = "") then StorePathRoot store_path_name
                                   else SubPath store_path_name sub
                     end))
    end.

Definition to_filesystem_path (resolved : ResolvedPath) (store_dir : string) : path :=
  let dir := Path.components store_dir in
  match resolved with
  | Root => dir
  | StorePathRoot name => Path.join dir (Path.components name)
  | SubPath name sub => Path.join (Path.join dir (Path.components name)) (Path.components sub)
  end.

(** ** Facts *)
Lemma contains_app pat u v : Str.contains pat (u +:+ pat +:+ v) = true.
Proof.
  induction u as [|a u IH]; simpl.
  - destruct (pat +:+ v) as [|b w] eqn:E; simpl.
    + destruct pat; [done|discriminate].
    + apply orb_true_iff. left. change (Str.starts_with pat (String b w) = true). rewrite <- E. apply Str.starts_with_app.
  - apply orb_true_iff. by right.
Qed.

Lemma split_piece_aux c s :
  (∃ v, s = default "" (head (Str.split c s)) +:+ v) ∧
  (∀ x, x ∈ Str.split c s → ∃ u v, s = u +:+ x +:+ v).
Proof.
  induction s as [|a s [[v Hv] IH]]; simpl.
  - split; [by exists ""|]. intros x ->%list_elem_of_singleton. by exists "", "".
  - case_decide as Ha; simpl.
    + split; [by eexists|]. intros x [->|Hx]%elem_of_cons; [by exists "", (String a s)|].
      destruct (IH x Hx) as (u & w & Hs). exists (String a u), w. simpl. by rewrite <- Hs.
    + destruct (Str.split c s) as [|p ps] eqn:E; [by destruct (Str.split_ne_nil c s)|].
      simpl in *. split; [exists v; by rewrite <- Hv|].
      intros x [->|Hx]%elem_of_cons.
      * exists "", v. simpl. by rewrite <- Hv.
      * destruct (IH x) as (u & w & Hs); [by right|]. exists (String a u), w. simpl. by rewrite <- Hs.
Qed.

Lemma split_piece c s x : x ∈ Str.split c s → ∃ u v, s = u +:+ x +:+ v.
Proof. apply split_piece_aux. Qed.

Lemma contains_sub pat u s v : Str.contains pat s = true → Str.contains pat (u +:+ s +:+ v) = true.
Proof.
  intros H. enough (∃ a b, s = a +:+ pat +:+ b) as (a & b & ->).
  { rewrite !Str.app_assoc, <- (Str.app_assoc u a). apply contains_app. }
  revert H. induction s as [|x s IH]; simpl; rewrite orb_true_iff.
  - intros [H|]; [|done]. destruct pat; [|done]. by exists "", "".
  - intros [H|H].
    + destruct (proj1 (Str.starts_with_spec pat (String x s)) H) as [t ->]. by exists "", t.
    + destruct (IH H) as (a & b & ->). by exists (String x a), b.
Qed.

Lemma no_dotdot_piece s x : Str.contains ".." s = false → x ∈ Str.split "/" s → x ≠ "..".
Proof.
  intros Hs (u & v & ->)%split_piece ->. by rewrite contains_app in Hs.
Qed.

Definition all_normal (p : path) : Prop := Forall (λ c, ∃ s, c = Normal s) p.

(** A text without [..] and without a leading [/] names something below. *)
Lemma components_below s :
  Str.contains ".." s = false → Str.starts_with "/" s = false →
  ∃ q, all_normal q ∧ (Path.components s = q ∨ Path.components s = CurDir :: q).
Proof.
  intros Hd Hs. unfold Path.components. rewrite Hs.
  pose proof (no_dotdot_piece s) as Hp.
  destruct (Str.split "/" s) as [|p ps] eqn:E; [by destruct (Str.split_ne_nil "/" s)|].
  assert (p ≠ "..") by (apply Hp; [done|by left]).
  assert (Hps : all_normal (omap (Path.piece_component false) ps)).
  { apply Path.pieces_normal. intros Hx. by apply (Hp ".."); [|right|]. }
  unfold Path.piece_component at 1 3. repeat case_decide; simpl; try done; eauto.
  eexists (Normal p :: _). split; [|by left]. constructor; eauto.
Qed.

Lemma join_below base s :
  base ≠ [] → Str.contains ".." s = false → Str.starts_with "/" s = false →
  ∃ q, all_normal q ∧ Path.join base (Path.components s) = base ++ q.
Proof.
  intros Hb Hd Hs. destruct (components_below s Hd Hs) as (q & Hq & Hc). exists q. split; [done|].
  unfold Path.join. destruct Hc as [->| ->]; destruct base; try done;
    destruct Hq as [|? ? [? ->] ?]; simpl; done.
Qed.

(** The shape a store path name must have *)
Record valid_name (name : string) : Prop := {
  vn_length : (34 ≤ String.length name)%nat;
  vn_dash : String.get 32 name = Some "-"%char;
  vn_hash : Str.all_chars is_nixbase32 (String.substring 0 32 name) = true;
}.

Lemma validate_ok name : validate_store_path_name name = Returns (Ok tt) ↔ valid_name name.
Proof.
  unfold validate_store_path_name. split.
  - repeat case_match; intros; simplify_eq. rewrite negb_false_iff, bool_decide_eq_true in *.
    constructor; [lia|done|done].
  - intros [? Hd ->]. rewrite decide_False by lia. unfold char_boundary. rewrite Hd. by vm_compute.
Qed.

Lemma validate_panics name :
  validate_store_path_name name = Panics ↔ (34 ≤ String.length name)%nat ∧ char_boundary name 32 = false.
Proof.
  unfold validate_store_path_name. case_decide; [split; [done|lia]|].
  destruct (char_boundary name 32); simpl; repeat case_match; naive_solver lia.
Qed.

(** [starts_with] of the first byte, with the rest *)
Lemma valid_name_head name : valid_name name → ∃ a t, name = String a t ∧ is_nixbase32 a = true.
Proof. intros [Hl _ Hh]. destruct name as [|a t]; simpl in *; [lia|]. apply andb_prop in Hh. naive_solver. Qed.

Lemma valid_name_wf name :
  valid_name name → Str.contains_char "/" name = false → Path.wf_name name.
Proof.
  intros Hv Hc. destruct (valid_name_head _ Hv) as (a & t & -> & Ha).
  split_and!; [done| | |done]; intros [= -> _]; done.
Qed.

Lemma valid_name_component name :
  valid_name name → Str.contains_char "/" name = false → Path.components name = [Normal name].
Proof.
  intros Hv Hc. apply (Path.components_to_string [Normal name]). split; [|done].
  by apply valid_name_wf.
Qed.

(** The two ways [parse_scheme_path] names a store path *)
Lemma parse_cases p r :
  parse_scheme_path p = Returns (Ok r) →
  match r with
  | Root => Str.trim_matches "/" p = ""
  | StorePathRoot name => valid_name name ∧ Str.contains_char "/" name = false
  | SubPath name sub => valid_name name ∧ Str.contains_char "/" name = false ∧ sub ≠ ""
                        ∧ Str.contains ".." sub = false
                        ∧ Str.trim_matches "/" p = name +:+ String "/" sub
  end.
Proof.
  unfold parse_scheme_path. case_decide as Hp; [by intros [= <-]|].
  destruct (Str.contains ".." _) eqn:Hd; [done|].
  destruct (Str.split_once "/" _) as [[name sub]|] eqn:Hs.
  - apply Str.split_once_Some in Hs as [Hs Hc].
    destruct (validate_store_path_name name) as [[[]|]|] eqn:Hv; [|done..].
    apply validate_ok in Hv. case_decide; intros [= <-]; [by split|].
    split_and!; try done. apply not_true_iff_false. intros Hx.
    apply not_true_iff_false in Hd. apply Hd. rewrite Hs.
    change (String "/" sub) with ("/" +:+ sub). rewrite <- Str.app_assoc.
    rewrite <- (Str.app_nil_r sub). by apply contains_sub.
  - apply Str.split_once_None in Hs.
    destruct (validate_store_path_name _) as [[[]|]|] eqn:Hv; [|done..].
    apply validate_ok in Hv. by intros [= <-].
Qed.

(** C39. Where the store scheme sends a request.  A path it accepts names the store itself, or
    a store path whose name is one path component of the shape [hash-name]; without a double
    slash after the name the file it opens is the store path's own or lies below it.  With a
    double slash it is the rest of the request, taken from the root of the host. *)
Theorem store_paths_resolved p r store_dir :
  parse_scheme_path p = Returns (Ok r) →
  Path.is_absolute (Path.components store_dir) = true →
  match r with
  | Root => to_filesystem_path r store_dir = Path.components store_dir
  | StorePathRoot name =>
      valid_name name ∧ to_filesystem_path r store_dir = Path.components store_dir ++ [Normal name]
  | SubPath name sub =>
      valid_name name ∧
      if Str.starts_with "/" sub then to_filesystem_path r store_dir = Path.components sub
      else ∃ q, all_normal q ∧ to_filesystem_path r store_dir = Path.components store_dir ++ Normal name :: q
  end.
Proof.
  intros Hp Habs. pose proof (parse_cases p r Hp) as Hc.
  assert (Hne : Path.components store_dir ≠ []) by (by intros E; rewrite E in Habs).
  assert (Hjoin : ∀ n, Path.join (Path.components store_dir) [Normal n] = Path.components store_dir ++ [Normal n]).
  { intros n. unfold Path.join. simpl. by destruct (Path.components store_dir). }
  destruct r as [|name|name sub]; [done| |]; simpl.
  - destruct Hc as [Hv Hs]. split; [done|]. by rewrite (valid_name_component name), Hjoin.
  - destruct Hc as (Hv & Hs & _ & Hd & _). split; [done|].
    rewrite (valid_name_component name), Hjoin by done.
    destruct (Str.starts_with "/" sub) eqn:Hsub.
    + unfold Path.join at 1. unfold Path.components at 1. rewrite Hsub.
      destruct (Str.split "/" sub) eqn:E; [by destruct (Str.split_ne_nil "/" sub)|]. simpl.
      unfold Path.components. by rewrite E, Hsub.
    + destruct (join_below (Path.components store_dir ++ [Normal name]) sub) as (q & Hq & ->);
        [by destruct (Path.components store_dir)|done..|].
      exists q. by rewrite <- app_assoc.
Qed.

Module ResolveDemo.
Definition name : string := "1b9jydsiygi6jhlz2dxbrxi6b4m1rn4r-ripgrep-14.1.0".
Definition escape : string := "/" +:+ name +:+ "//etc/passwd/".

Lemma parses :
  parse_scheme_path (name +:+ "/bin/rg") = Returns (Ok (SubPath name "bin/rg")) ∧
  parse_scheme_path escape = Returns (Ok (SubPath name "/etc/passwd")) ∧
  parse_scheme_path "//" = Returns (Ok Root) ∧
  parse_scheme_path (name +:+ "/../x") = Returns (Err (PathTraversal (name +:+ "/../x"))).
Proof. by vm_compute. Qed.

(** A request whose 32nd byte falls inside a two-byte character stops the daemon. *)
Lemma request_panics :
  parse_scheme_path ("aaaaaaaaaaaaaaaaaaaaaaaaaaaaaaa" +:+ String "195" (String "169" "-x")) = Panics.
Proof. by vm_compute. Qed.

Lemma store_paths_resolved_witness :
  valid_name name ∧ to_filesystem_path (SubPath name "/etc/passwd") "/nix/store" = Path.components "/etc/passwd".
Proof.
  exact (store_paths_resolved escape (SubPath name "/etc/passwd") "/nix/store" (proj1 (proj2 parses)) eq_refl).
Defined.
End ResolveDemo.
