(* ===== verification/StoreExtract.v ===== *)
(** * Lazy extraction of store paths ([stored/lazy.rs])

    On the first access to a registered store path the archive is looked up in the local
    cache, decompressed, unpacked and checked against the registered hash.  [root_fd] is the
    descriptor of the root, which the daemon has when it serves.  With it the same steps are made
    by [openat], but for the errors of a cache that cannot be read and for the cleanup, which
    goes by the manifest ([ManifestRemoval]).  The set of extractions under way belongs to the
    daemon. *)

From S2P Require Import Prelude RustStd FileSys FileSysFacts Nar PathInfo ManifestInstances NarExtract NarFacts ManifestRemoval StoreResolve.

Open Scope Z_scope.

Inductive ExtractError : Type :=
  | NotRegistered (what : string)
  | NarNotFound (narinfo_path : string)
  | HashMismatch (hm_store_path expected actual : string)
  | Io (e : io_error).

#[export] Instance ExtractError_eq_dec : EqDecision ExtractError.
Proof. solve_decision. Defined.

Record ExtractionOutcome : Type := mkExtractionOutcome {
  extracted_now : bool;
  oc_manifest : option (list ManifestEntry);
}.

Definition default_outcome : ExtractionOutcome := mkExtractionOutcome false None.

(** Code of other crates: [NarInfo::parse] and its [url]; the decoders, which turn the
    file into a stream of bytes; the reader of archives, and the digest in hexadecimal of
    the bytes it pulled through the hashing reader. *)
Class NarCodec : Type := {
  stream : Type;
  narinfo_url : string → option string;
  zstd_stream : string → option stream;
  xz_decompress : string → option stream;
  bz2_stream : string → stream;
  plain_stream : string → stream;
  open_nar : stream → result io_error nar;
  read_hash : stream → string;
}.

(** [Path::extension], of the last component *)
Fixpoint rsplit_dot (s : string) : option (string * string) :=
  match s with
  | EmptyString => None
  | String a s' =>
      match rsplit_dot s' with
      | Some (before, after) => Some (String a before, after)
      | None => if decide (a = "."%char) then Some ("", s') else None
      end
  end.

Definition extension (p : path) : option string :=
  name ← Path.file_name p;
  '(before, after) ← rsplit_dot name;
  if decide (before = "") then None else Some after.

Section lazy.
Context `{FL : FsLimits, SPL : StorePathLib, NC : NarCodec}.

(** With a descriptor an error of the open says that there is no archive, one of the read is another. *)
Definition read_cached_narinfo (t : tree) (cache_path hash : string) (root_fd : option Z) : result ExtractError string :=
  let narinfo_path := Path.join (Path.components cache_path) (Path.components (hash +:+ ".narinfo")) in
  let unreadable e := match root_fd with Some _ => Io e | None => NarNotFound (Path.to_string narinfo_path) end in
  match read_file t narinfo_path with
  | Err IsADirectory => Err (unreadable IsADirectory)
  | Err _ => Err (NarNotFound (Path.to_string narinfo_path))
  | Ok body =>
      if negb (Str.utf8_valid body) then Err (unreadable (OtherError "stream did not contain valid UTF-8"))
      else match narinfo_url body with
           | None => Err (Io (OtherError "parsing"))
           | Some url => Ok url
           end
  end.

Definition open_cached_nar (t : tree) (cache_path hash : string) (root_fd : option Z) : result ExtractError (path * string) :=
  url ← read_cached_narinfo t cache_path hash root_fd;
  let nar_path := Path.join (Path.components cache_path) (Path.components url) in
  match read_file t nar_path with
  | Err IsADirectory => Err (Io IsADirectory)
  | Err e => Err match root_fd with Some _ => NarNotFound (Path.to_string nar_path) | None => Io e end
  | Ok file => Ok (nar_path, file)
  end.

Definition decompressed (nar_path : path) (file : string) : result ExtractError stream :=
  let ext := extension nar_path in
  if decide (ext = Some "zst") then ok_or (Io (OtherError "zstd init")) (zstd_stream file)
  else if decide (ext = Some "xz") then ok_or (Io (OtherError "xz decompress")) (xz_decompress file)
  else if decide (ext = Some "bz2") then Ok (bz2_stream file)
  else Ok (plain_stream file).

(** The part of [do_extraction] before anything is written *)
Definition cached_stream (t : tree) (cache_path abs_store_path : string) (root_fd : option Z) : result ExtractError stream :=
  match sp_hash abs_store_path with
  | None => Err (NotRegistered abs_store_path)
  | Some cache_key =>
      '(nar_path, file) ← open_cached_nar t cache_path cache_key root_fd;
      decompressed nar_path file
  end.

Definition normalize_hash (hash : string) : string := default hash (Str.strip_prefix "sha256:" hash).

Definition cleanup_failed_extraction (abs_store_path : string) (manifest : list ManifestEntry) (root_fd : option Z) : F unit :=
  match root_fd with
  | Some _ => ignore (remove_tree_via_manifest abs_store_path manifest)
  | None => ignore (remove_dir_all (Path.components abs_store_path))
  end.

Definition X (A : Type) : Type := SR fsys ExtractError A.
#[export] Instance X_ret : MRet X := SR_ret fsys ExtractError.
#[export] Instance X_bind : MBind X := SR_bind fsys ExtractError.

(** [map_err(ExtractError::Io)] *)
Definition io {A} (m : F A) : X A := λ s,
  match m s with (Ok a, s') => (Ok a, s') | (Err e, s') => (Err (Io e), s') end.

Definition fail_with {A} (e : ExtractError) : X A := λ s, (Err e, s).

(** The rest of [do_extraction] *)
Definition unpack (st : stream) (store_dir abs_store_path expected_nar_hash : string) (root_fd : option Z) : X (list ManifestEntry) :=
  io (create_dir_all (Path.components store_dir)) ;;
  manifest ← io (extract_with_manifest (open_nar st) abs_store_path);
  let actual_hash := read_hash st in
  let expected_hash := normalize_hash expected_nar_hash in
  if decide (actual_hash = expected_hash) then mret manifest
  else
    io (cleanup_failed_extraction abs_store_path manifest root_fd) ;;
    fail_with (HashMismatch abs_store_path expected_hash actual_hash).

Definition do_extraction (store_path_name store_dir cache_path expected_nar_hash : string) (root_fd : option Z)
    : X (list ManifestEntry) := λ s,
  let abs_store_path := store_dir +:+ "/" +:+ store_path_name in
  match cached_stream (fs_tree s) cache_path abs_store_path root_fd with
  | Err e => (Err e, s)
  | Ok st => unpack st store_dir abs_store_path expected_nar_hash root_fd s
  end.

(** The 6000 polls; [polls i] is the disk at the [i]-th. *)
Definition wait_for_extraction (polls : nat → tree) (dest : path) : result ExtractError unit :=
  if existsb (λ i, path_exists (polls i) dest) (seq 0 (Z.to_nat 6000)) then Ok tt
  else Err (Io (OtherError "timed out waiting for extraction")).

Definition ensure_extracted (polls : nat → tree) (store_path_name store_dir cache_path expected_nar_hash : string)
    (extracting : gset string) (root_fd : option Z) (s : fsys) : result ExtractError ExtractionOutcome * gset string * fsys :=
  let dest := Path.join (Path.components store_dir) (Path.components store_path_name) in
  if path_exists (fs_tree s) dest then (Ok default_outcome, extracting, s)
  else if decide (store_path_name ∈ extracting) then
    match wait_for_extraction polls dest with
    | Ok _ => (Ok default_outcome, extracting, s)
    | Err e => (Err e, extracting, s)
    end
  else
    let extracting := {[store_path_name]} ∪ extracting in
    let '(result, s') := do_extraction store_path_name store_dir cache_path expected_nar_hash root_fd s in
    let extracting := extracting ∖ {[store_path_name]} in
    match result with
    | Ok manifest => (Ok (mkExtractionOutcome true (Some manifest)), extracting, s')
    | Err e => (Err e, extracting, s')
    end.

End lazy.

(** ** Facts *)
Section facts.
Context `{FL : FsLimits, SPL : StorePathLib, NC : NarCodec}.

Lemma around_plain p base t : around p base t → plain base p → plain t p.
Proof.
  intros Ha Hp. eapply plain_agree; [exact Hp|]. intros q Hq Hne _ Hl target.
  destruct (Ha q) as [->|(_ & _ & m & ->)]; [|apply Hl|done].
  intros Hpq. apply Hne. by apply (anti_symm prefix).
Qed.

Lemma around_refl p t : around p t t.
Proof. intros k _. by left. Qed.

Lemma around_trans p t1 t2 t3 : around p t1 t2 → around p t2 t3 → around p t1 t3.
Proof.
  intros H1 H2 k Hk. destruct (H2 k Hk) as [E|(N & P & D)].
  - destruct (H1 k Hk) as [E'|(N & P & m & D)]; [left; congruence|].
    right. split_and!; [done..|]. exists m. congruence.
  - destruct (H1 k Hk) as [E'|(_ & _ & m & D')]; [|congruence]. right. split_and!; [congruence|done|done].
Qed.

Lemma around_shrinks p t t' : shrinks p t t' → around p t t'.
Proof. intros [H _] k Hk. left. by apply H. Qed.

Lemma dirs_made_around dir n base t : dirs_made dir base t → around (dir ++ [Normal n]) base t.
Proof.
  intros H k _. destruct (H k) as [?|(? & P & ?)]; [by left|right]. split_and!; [done| |done].
  by apply prefix_app_r.
Qed.

Lemma dirs_made_clear dir n base t : dirs_made dir base t → clear base (dir ++ [Normal n]) → clear t (dir ++ [Normal n]).
Proof.
  intros H Hc k Hk. destruct (H k) as [->|(_ & P & _)]; [by apply Hc|].
  exfalso. apply prefix_length in P. apply prefix_length in Hk. rewrite length_app in Hk. simpl in Hk. lia.
Qed.

Lemma io_inv {A} (m : F A) s r s' :
  io m s = (r, s') → ∃ r0, m s = (r0, s') ∧ match r0 with Ok a => r = Ok a | Err e => r = Err (Io e) end.
Proof. unfold io. destruct (m s) as [[a|e] s1]; intros [= <- <-]; by eexists. Qed.

Lemma ignore_returns (m : F unit) s r s' : ignore m s = (r, s') → r = Ok tt.
Proof. unfold ignore, catch. destruct (m s) as [[[]|] s1]; by intros [= <- <-]. Qed.

Lemma cleanup_stays_around p base s s' r :
  plain base p → around p base (fs_tree s) →
  ignore (remove_dir_all p) s = (r, s') → r = Ok tt ∧ run_in (around p base) s s'.
Proof.
  intros Hp Ha H. split; [by eapply ignore_returns|].
  revert H. revert Ha. revert s r s'. change (stays (around p base) (ignore (remove_dir_all p))).
  apply stays_ignore, stays_remove_dir_all.
  - intros t Ht. by eapply around_plain.
  - intros t t' Ht Hs. eapply around_trans; [exact Ht|by apply around_shrinks].
Qed.

(** The cleanup changes nothing but the place, either way. *)
Lemma cleanup_around abs base node root_fd s s' r :
  plain base (Path.components abs) → around (Path.components abs) base (fs_tree s) → names_ok node → named_well node →
  (∀ q, node_like (fs_tree s !! (Path.components abs ++ q)) (nar_at node q)) →
  cleanup_failed_extraction abs (manifest_of node "") root_fd s = (r, s') →
  r = Ok tt ∧ run_in (around (Path.components abs) base) s s'.
Proof.
  intros Hp Ha Hok Hnw Hn H. unfold cleanup_failed_extraction in H. destruct root_fd.
  - split; [by eapply ignore_returns|]. eapply run_in_mono; [|eapply (stays_ignore (part_of (Path.components abs) base node)); [|split; [exact Ha|]|exact H]].
    + by intros t [? _].
    + by apply stays_remove_tree.
    + intros q. right. apply Hn.
  - by apply cleanup_stays_around.
Qed.

(** [remove_dir_all] leaves a regular file alone. *)
Lemma remove_dir_all_file p s c m :
  plain (fs_tree s) p → fs_tree s !! p = Some (File c m) → p ≠ [RootDir] → (ignore (remove_dir_all p) s).2 = s.
Proof.
  intros Hp Hf Hr. unfold ignore, catch. enough (∃ e, remove_dir_all p s = (Err e, s)) as [e ->] by done.
  unfold remove_dir_all, check_fault. unfold mbind, F_bind, SR_bind, get_tree, lift, fail.
  destruct (fs_fault OpUnlink p); [by eexists|]. simpl.
  destruct (resolve_plain (fs_tree s) false p Hp) as [E|[e E]]; [done| |]; rewrite E; [|by eexists].
  unfold node_at. rewrite decide_False, Hf by done. by eexists.
Qed.

(** The destination of an extraction *)
Lemma components_child dir name :
  valid_name name → Str.contains_char "/" name = false →
  Path.components (dir +:+ "/" +:+ name) = Path.components dir ++ [Normal name] ∨ dir = "".
Proof.
  intros Hv Hc. destruct (decide (dir = "")) as [->|Hd]; [by right|left].
  apply components_snoc; [done|]. by apply valid_name_wf.
Qed.

Lemma around_dirs p base t :
  around p base t → Forall (dir_at base) (ancestors p) → Forall (dir_at t) (ancestors p).
Proof.
  intros Ha Hd. rewrite Forall_forall in Hd |- *. intros q Hq. specialize (Hd q Hq) as [m Hm].
  unfold ancestors in Hq. apply list_elem_of_fmap in Hq as (i & -> & Hi). apply elem_of_seq in Hi.
  destruct (Ha (take i p)) as [E|(E & _)]; [|exists m; congruence|congruence].
  intros Hpre. apply prefix_length in Hpre. rewrite length_take in Hpre. lia.
Qed.
Section unpack.
Context (store_dir name expected : string) (s : fsys).
Let dir := Path.components store_dir.
Let p := dir ++ [Normal name].
Context (Hv : valid_name name) (Hc : Str.contains_char "/" name = false).
Context (Hp : plain (fs_tree s) p) (Hcl : clear (fs_tree s) p).

Lemma store_dir_abs : abs_path dir.
Proof using All.
  destruct Hp as [[ns Hns] _]. unfold p in Hns. destruct dir as [|c l] eqn:E; [done|]. simpl in Hns.
  injection Hns as -> Hl. destruct ns as [|n ns _] using rev_ind; [by destruct l|].
  rewrite fmap_app in Hl. apply app_inj_tail in Hl as [-> _]. by exists ns.
Qed.

Lemma dest_components : Path.components (store_dir +:+ "/" +:+ name) = p.
Proof using All.
  destruct (components_child store_dir name Hv Hc) as [?|He]; [done|].
  destruct store_dir_abs as [ns Hns]. unfold dir in Hns. by rewrite He in Hns.
Qed.

Lemma dest_join : Path.join (Path.components store_dir) (Path.components name) = p.
Proof using All.
  rewrite (valid_name_component name) by done. destruct store_dir_abs as [ns Hns]. unfold dir in *.
  unfold Path.join, p, dir. simpl. by rewrite Hns.
Qed.

(** A place as an archive has it, of which the digest turned out wrong *)
Definition unverified (root_fd : option Z) (node : nar) (s' : fsys) : Prop :=
  ∃ s2, named_well node ∧ (∀ q, node_like (fs_tree s2 !! (p ++ q)) (nar_at node q)) ∧ around p (fs_tree s) (fs_tree s2)
    ∧ cleanup_failed_extraction (store_dir +:+ "/" +:+ name) (manifest_of node "") root_fd s2 = (Ok tt, s').

Lemma unpack_run st root_fd r s' :
  (∀ node, open_nar st = Ok node → names_ok node) →
  unpack st store_dir (store_dir +:+ "/" +:+ name) expected root_fd s = (r, s') →
  run_in (around p (fs_tree s)) s s' ∧
  (∀ m, r = Ok m → ∃ node, open_nar st = Ok node ∧ read_hash st = normalize_hash expected
    ∧ m = manifest_of node "" ∧ ∀ q, node_like (fs_tree s' !! (p ++ q)) (nar_at node q)) ∧
  (∀ a b d node, r = Err (HashMismatch a b d) → open_nar st = Ok node → unverified root_fd node s').
Proof using All.
  intros Hok H. unfold unpack, extract_with_manifest, lift in H. rewrite dest_components in H.
  fold dir in H. unfold mbind at 1, X_bind at 1, SR_bind at 1 in H.
  destruct (io (create_dir_all dir) s) as [r1 s1] eqn:E1. apply io_inv in E1 as (r1' & E1 & Hr1).
  assert (Hdir : plain (fs_tree s) dir) by (eapply plain_prefix; [exact Hp|apply store_dir_abs|by apply prefix_app_r]).
  assert (D1 : run_in (dirs_made dir (fs_tree s)) s s1).
  { eapply stays_dirs_made; [exact Hdir| |exact E1]. intros k. by left. }
  assert (D1' : dirs_made dir (fs_tree s) (fs_tree s1)) by (apply (run_in_last _ _ _ D1); intros k; by left).
  assert (R1 : run_in (around p (fs_tree s)) s s1).
  { eapply run_in_mono; [|exact D1]. intros t. apply dirs_made_around. }
  destruct r1 as [u|e]; [|injection H as <- <-; by destruct r1'; simplify_eq]. destruct r1' as [u'|]; [|done]. clear Hr1.
  unfold mbind at 1, X_bind at 1, SR_bind at 1 in H.
  destruct (io _ s1) as [r2 s2] eqn:E2. apply io_inv in E2 as (r2' & E2 & Hr2).
  unfold mbind, F_bind, SR_bind in E2.
  destruct (open_nar st) as [node|e] eqn:En.
  2:{ injection E2 as <- <-. subst r2. injection H as <- <-. done. }
  assert (Hp1 : plain (fs_tree s1) p) by (eapply around_plain; [|exact Hp]; by apply dirs_made_around).
  assert (Hnw : ∀ m, r2' = Ok m → named_well node).
  { intros m ->. eapply extracted_names; [by apply Hok|exact E2]. }
  apply extract_node_run in E2 as [R2 O2]; [|done|apply tmp_not_root|by eapply dirs_made_clear|by apply Hok].
  assert (A1 : around p (fs_tree s) (fs_tree s1)) by by apply dirs_made_around.
  assert (R2' : run_in (around p (fs_tree s)) s s2).
  { eapply run_in_trans; [exact R1|]. eapply run_in_mono; [|exact R2]. intros t. by apply around_trans. }
  destruct r2' as [m|e]; subst r2; [|by injection H as <- <-].
  destruct (O2 m eq_refl) as [-> Hn]. specialize (Hnw _ eq_refl). case_decide as Hh.
  - injection H as <- <-. split; [done|]. split; [|done]. intros m [= <-]. exists node. by split_and!.
  - unfold mbind, X_bind, SR_bind, fail_with in H. destruct (io _ s2) as [r3 s3] eqn:E3.
    apply io_inv in E3 as (r3' & E3 & Hr3).
    assert (Ha2 : around p (fs_tree s) (fs_tree s2)) by (apply (run_in_last _ _ _ R2'); apply around_refl).
    cbn [app] in E3. pose proof (cleanup_around (store_dir +:+ "/" +:+ name) (fs_tree s) node root_fd s2 s3 r3') as Hcl2. rewrite dest_components in Hcl2.
    destruct (Hcl2 Hp Ha2 (Hok _ eq_refl) Hnw Hn E3) as [-> R3]. subst r3. injection H as <- <-.
    split; [by eapply run_in_trans|]. split; [done|]. intros a b d node' _ [= <-]. by exists s2.
Qed.

(** What the cleanup leaves: nothing, by the manifest and without a fault; a single file, without it *)
Lemma unverified_left root_fd node s' :
  names_ok node → Forall (dir_at (fs_tree s)) (ancestors p) → unverified root_fd node s' →
  match root_fd with
  | Some _ => removable p node → clear (fs_tree s') p
  | None => ∀ x c, node = NarFile x c None → ∃ m, fs_tree s' !! p = Some (File c m)
  end.
Proof using All.
  intros Hok Hd (s2 & Hnw & Hn & Ha & H). unfold cleanup_failed_extraction in H. destruct root_fd.
  - intros Hr. destruct (removed (store_dir +:+ "/" +:+ name) node s2) as (s3 & E & Hclear); rewrite ?dest_components; try done.
    + apply Hp.
    + apply tmp_not_root.
    + split; [by eapply around_dirs|done].
    + rewrite dest_components in Hclear. unfold ignore, catch in H. rewrite E in H. injection H as <-. exact Hclear.
  - intros x c ->. rewrite dest_components in H. specialize (Hn []). rewrite app_nil_r in Hn. simpl in Hn.
    assert (Hf : fs_tree s2 !! p = Some (File c (if x then 0x16D else 0x124))).
    { unfold node_like in Hn. by destruct (fs_tree s2 !! p) as [[]|]; simplify_eq. }
    assert (Hp2 : plain (fs_tree s2) p) by by eapply around_plain.
    pose proof (remove_dir_all_file p s2 _ _ Hp2 Hf (tmp_not_root _ _)) as Hs. rewrite H in Hs. simpl in Hs.
    subst s2. by eexists.
Qed.
End unpack.

(** A place with nothing in it does not exist; one with a file or a directory does. *)
Lemma clear_absent t p : plain t p → p ≠ [RootDir] → clear t p → path_exists t p = false.
Proof.
  intros Hp Hr Hc. unfold path_exists, metadata, stat_with. destruct (fs_fault OpStat p); [done|].
  destruct (resolve_plain t true p Hp) as [E|[e E]]; [intros _; by apply clear_not_link| |by rewrite E].
  rewrite E. simpl. unfold node_at. rewrite decide_False by done. by rewrite (Hc p).
Qed.

Lemma node_present t p n :
  abs_path p → Forall (dir_at t) (ancestors p) → t !! p = Some n → (∀ g, n ≠ Link g) →
  fs_fault OpStat p = None → short p → path_exists t p = true.
Proof.
  intros Ha Hd Hn Hg Hf Hs. unfold path_exists, metadata, stat_with. rewrite Hf.
  rewrite resolve_dirs; [|done|done| |done].
  - simpl. unfold node_at. case_decide; [done|]. by rewrite Hn.
  - intros g. rewrite Hn. intros [= ->]. by apply (Hg g).
Qed.

End facts.

Section theorems.
Context `{FL : FsLimits, SPL : StorePathLib, NC : NarCodec}.
Context (store_dir cache_path name : string) (root_fd : option Z).
Let p := Path.components store_dir ++ [Normal name].
Let source (t : tree) := cached_stream t cache_path (store_dir +:+ "/" +:+ name) root_fd.

(** The reader's promise on every archive it opens *)
Definition reader_ok : Prop := ∀ st node, open_nar st = Ok node → names_ok node.

Lemma ensure_run polls expected extracting s r ex' s' :
  reader_ok → valid_name name → Str.contains_char "/" name = false →
  plain (fs_tree s) p → clear (fs_tree s) p → name ∉ extracting →
  ensure_extracted polls name store_dir cache_path expected extracting root_fd s = (r, ex', s') →
  ex' = extracting ∧
  ((∃ e, source (fs_tree s) = Err e ∧ r = Err e ∧ s' = s)
   ∨ ∃ st r0, source (fs_tree s) = Ok st
       ∧ unpack st store_dir (store_dir +:+ "/" +:+ name) expected root_fd s = (r0, s')
       ∧ r = match r0 with Ok m => Ok (mkExtractionOutcome true (Some m)) | Err e => Err e end).
Proof using All.
  intros Hok Hv Hc Hp Hcl Hx H. unfold ensure_extracted in H. rewrite dest_join with (s := s) in H by done.
  fold p in H. rewrite clear_absent in H; [|done|apply tmp_not_root|done]. rewrite decide_False in H by done.
  assert (Hex : ({[name]} ∪ extracting) ∖ {[name]} = extracting) by set_solver. rewrite Hex in H.
  unfold do_extraction in H. fold (source (fs_tree s)) in H. destruct (source (fs_tree s)) as [st|e].
  - destruct (unpack st _ _ expected root_fd s) as [r0 s1] eqn:E. split; [destruct r0; by injection H|].
    right. exists st, r0. destruct r0; injection H as <- <- <-; done.
  - injection H as <- <- <-. split; [done|]. left. by exists e.
Qed.
End theorems.

(** C10. Lazy extraction serves verified content.  For a registered store path whose place
    is empty, behind no link, and not under extraction: whatever fails, the tree changes at
    that place only, but for directories made above it, and the path is no longer marked as
    under extraction.  When the call returns, the archive came from the cache, its digest is
    the registered one, the store path is the archive node by node, and the manifest handed
    to the daemon is the archive's. *)
Theorem extraction_verified `{FL : FsLimits, SPL : StorePathLib, NC : NarCodec}
    polls store_dir cache_path name expected extracting root_fd s r extracting' s' :
  let p := Path.components store_dir ++ [Normal name] in
  reader_ok → valid_name name → Str.contains_char "/" name = false →
  plain (fs_tree s) p → clear (fs_tree s) p → name ∉ extracting →
  ensure_extracted polls name store_dir cache_path expected extracting root_fd s = (r, extracting', s') →
  extracting' = extracting ∧ run_in (around p (fs_tree s)) s s' ∧
  ∀ outcome, r = Ok outcome → ∃ st node,
    cached_stream (fs_tree s) cache_path (store_dir +:+ "/" +:+ name) root_fd = Ok st ∧ open_nar st = Ok node
    ∧ read_hash st = normalize_hash expected
    ∧ outcome = mkExtractionOutcome true (Some (manifest_of node ""))
    ∧ ∀ q, node_like (fs_tree s' !! (p ++ q)) (nar_at node q).
Proof.
  intros p Hok Hv Hc Hp Hcl Hx H. apply ensure_run in H as [-> H]; [|done..]. split; [done|].
  destruct H as [(e & Hs & -> & ->)|(st & r0 & Hs & Hu & ->)]; [split; [apply run_in_refl|done]|].
  apply unpack_run in Hu as (R & O & _); [|done..|by apply Hok]. split; [exact R|].
  intros oc Hoc. destruct r0 as [m|]; [|done]. injection Hoc as <-.
  destruct (O m eq_refl) as (node & Hn & Hh & -> & Hat). by exists st, node.
Qed.

(** C38. What a failed extraction leaves.  When the digest of an archive is not the registered one, the
    daemon, which has a descriptor of the root, takes everything back that it has extracted: when
    no removal fails nothing is left at the place.  Without the descriptor only directories are
    removed, and an archive that is a single file stays.  And whatever a failed call leaves at the
    place, a part of an archive that broke off for one, the next call takes for an extracted
    store path and returns at once, for any registered digest. *)
Theorem failed_extraction_left `{FL : FsLimits, SPL : StorePathLib, NC : NarCodec}
    polls store_dir cache_path name expected extracting root_fd s e extracting' s' :
  let p := Path.components store_dir ++ [Normal name] in
  reader_ok → valid_name name → Str.contains_char "/" name = false →
  abs_path p → Forall (dir_at (fs_tree s)) (ancestors p) → clear (fs_tree s) p → name ∉ extracting →
  ensure_extracted polls name store_dir cache_path expected extracting root_fd s = (Err e, extracting', s') →
  (∀ st node sp h h', cached_stream (fs_tree s) cache_path (store_dir +:+ "/" +:+ name) root_fd = Ok st →
     open_nar st = Ok node → e = HashMismatch sp h h' →
     match root_fd with
     | Some _ => removable p node → clear (fs_tree s') p
     | None => ∀ x c, node = NarFile x c None → ∃ m, fs_tree s' !! p = Some (File c m)
     end) ∧
  (∀ n polls' expected', fs_tree s' !! p = Some n → (∀ g, n ≠ Link g) → fs_fault OpStat p = None → short p →
     ensure_extracted polls' name store_dir cache_path expected' extracting' root_fd s' = (Ok default_outcome, extracting', s')).
Proof.
  intros p Hok Hv Hc Ha Hd Hcl Hx H. assert (Hp : plain (fs_tree s) p) by by apply plain_dirs.
  pose proof H as H0. apply ensure_run in H as [-> H]; [|done..].
  assert (HR : run_in (around p (fs_tree s)) s s' ∧
    ∀ st node sp h h', cached_stream (fs_tree s) cache_path (store_dir +:+ "/" +:+ name) root_fd = Ok st →
     open_nar st = Ok node → e = HashMismatch sp h h' → names_ok node ∧ unverified store_dir name s root_fd node s').
  { destruct H as [(e' & Hs & [= <-] & ->)|(st & r0 & Hs & Hu & Hr)].
    - split; [apply run_in_refl|]. intros. congruence.
    - apply unpack_run in Hu as (R & _ & M); [|done..|by apply Hok]. split; [exact R|].
      intros st' node sp h h' Hs' Hn ->. assert (st' = st) as -> by congruence.
      destruct r0 as [|e']; [done|]. injection Hr as <-. split; [by eapply Hok|]. by eapply M. }
  destruct HR as [R M]. split.
  { intros st node sp h h' Hs Hn He. destruct (M st node sp h h' Hs Hn He) as [Hno Hu]. by apply (unverified_left store_dir name expected s Hv Hc Hp Hcl). }
  intros n polls' expected' Hn Hg Hf Hsh.
  unfold ensure_extracted. rewrite dest_join with (s := s) by done. fold p.
  rewrite (node_present _ _ n); [done|done| |done..].
  eapply around_dirs; [|exact Hd]. apply (run_in_last _ _ _ R), around_refl.
Qed.

Module ExtractDemo.
Definition name : string := "1b9jydsiygi6jhlz2dxbrxi6b4m1rn4r-hello".
Definition key : string := "1b9jydsiygi6jhlz2dxbrxi6b4m1rn4r".

(** A cache of two uncompressed archives: the text of a file that starts with [T] is a
    single file, any other a directory that breaks off after its first entry. *)
#[local] Instance codec : NarCodec := {|
  stream := string;
  narinfo_url s := Some s;
  zstd_stream s := Some s;
  xz_decompress s := Some s;
  bz2_stream s := s;
  plain_stream s := s;
  open_nar s := Ok (if Str.starts_with "T" s then NarFile false s None
                    else NarDirectory [("a", NarFile false s None)] (Some (OtherError "truncated")));
  read_hash s := if Str.starts_with "Tok" s then "good" else "bad";
|}.

#[local] Instance keys : StorePathLib := {| sp_hash _ := Some key |}.

Lemma codec_ok : reader_ok.
Proof.
  intros st node. simpl. destruct (Str.starts_with "T" st); intros [= <-]; [done|].
  apply names_ok_dir. split; [by apply NoDup_singleton|]. split; [|by repeat constructor].
  by intros ?%list_elem_of_singleton.
Qed.

Definition disk (archive : string) : fsys := mkFsys
  (<[Path.components "/nix/cache/1b9jydsiygi6jhlz2dxbrxi6b4m1rn4r.narinfo" := File "nar/x.nar" 420]>
  (<[Path.components "/nix/cache/nar/x.nar" := File archive 420]>
  (<[Path.components "/nix/cache/nar" := Dir 493]> (<[Path.components "/nix/cache" := Dir 493]>
  (<[Path.components "/nix/store" := Dir 493]> (<[Path.components "/nix" := Dir 493]> ∅)))))) [].

Definition run (archive : string) :=
  ensure_extracted (λ _, ∅) name "/nix/store" "/nix/cache" "sha256:good" ∅ (Some 3) (disk archive).
Definition run_std (archive : string) :=
  ensure_extracted (λ _, ∅) name "/nix/store" "/nix/cache" "sha256:good" ∅ None (disk archive).

Definition dest : path := Path.components "/nix/store" ++ [Normal name].

Lemma disk_ok archive :
  abs_path dest ∧ Forall (dir_at (fs_tree (disk archive))) (ancestors dest) ∧ clear (fs_tree (disk archive)) dest.
Proof.
  split; [by exists ["nix"; "store"; name]|]. split.
  - change (ancestors dest) with [Path.components "/nix"; Path.components "/nix/store"].
    repeat constructor; exists 493; unfold disk; simpl fs_tree; vm_compute; reflexivity.
  - intros k [q ->]. unfold disk. simpl fs_tree.
    repeat (rewrite lookup_insert_ne; [|by vm_compute]). done.
Qed.

Lemma name_ok : valid_name name ∧ Str.contains_char "/" name = false.
Proof. split; [apply validate_ok|]; by vm_compute. Qed.

Lemma split3 {A B C} (x : A * B * C) : x = (x.1.1, x.1.2, x.2).
Proof. by destruct x as [[]]. Qed.

Lemma extraction_verified_witness :
  (run "Tok").1.1 = Ok (mkExtractionOutcome true (Some [mkManifestEntry "" "file" 3 false])) ∧
  node_like (fs_tree (run "Tok").2 !! dest) (Some (File "Tok" 0x124)).
Proof.
  assert (Hr : (run "Tok").1.1 = Ok (mkExtractionOutcome true (Some [mkManifestEntry "" "file" 3 false]))) by by vm_compute.
  split; [exact Hr|]. destruct (disk_ok "Tok") as (Ha & Hd & Hc). destruct name_ok as [Hn Hs].
  destruct (extraction_verified (λ _, ∅) "/nix/store" "/nix/cache" name "sha256:good" ∅ (Some 3) (disk "Tok")
    (run "Tok").1.1 (run "Tok").1.2 (run "Tok").2) as (_ & _ & H);
    [apply codec_ok|exact Hn|exact Hs|by apply plain_dirs|exact Hc|apply not_elem_of_empty|exact (split3 (run "Tok"))|].
  destruct (H _ Hr) as (st & node & Hst & Hno & _ & _ & Hat). specialize (Hat []). rewrite app_nil_r in Hat.
  assert (st = "Tok") as -> by (vm_compute in Hst; congruence). vm_compute in Hno. injection Hno as <-. exact Hat.
Defined.

(** A mismatch: taken back, and without the descriptor left for the next access *)
Lemma failed_extraction_left_witness :
  clear (fs_tree (run "Tampered").2) dest ∧
  (∃ m, fs_tree (run_std "Tampered").2 !! dest = Some (File "Tampered" m)) ∧
  (ensure_extracted (λ _, ∅) name "/nix/store" "/nix/cache" "sha256:good" (run_std "Tampered").1.2 None (run_std "Tampered").2).1.1
  = Ok default_outcome.
Proof.
  destruct (disk_ok "Tampered") as (Ha & Hd & Hc). destruct name_ok as [Hn Hs].
  set (e := HashMismatch ("/nix/store" +:+ "/" +:+ name) "good" "bad").
  split.
  - assert (Hr : (run "Tampered").1.1 = Err e) by by vm_compute.
    destruct (failed_extraction_left (λ _, ∅) "/nix/store" "/nix/cache" name "sha256:good" ∅ (Some 3) (disk "Tampered")
      e (run "Tampered").1.2 (run "Tampered").2) as (H1 & _);
      [apply codec_ok|exact Hn|exact Hs|exact Ha|exact Hd|exact Hc|apply not_elem_of_empty|rewrite <- Hr; exact (split3 (run "Tampered"))|].
    apply (H1 "Tampered" (NarFile false "Tampered" None) ("/nix/store" +:+ "/" +:+ name) "good" "bad"); [by vm_compute|done|done|].
    intros [|x q] [y Hy]; [|done]. split; [done|]. unfold short. by vm_compute.
  - assert (Hr : (run_std "Tampered").1.1 = Err e) by by vm_compute.
    destruct (failed_extraction_left (λ _, ∅) "/nix/store" "/nix/cache" name "sha256:good" ∅ None (disk "Tampered")
      e (run_std "Tampered").1.2 (run_std "Tampered").2) as (H1 & H2);
      [apply codec_ok|exact Hn|exact Hs|exact Ha|exact Hd|exact Hc|apply not_elem_of_empty|rewrite <- Hr; exact (split3 (run_std "Tampered"))|].
    destruct (H1 "Tampered" (NarFile false "Tampered" None) ("/nix/store" +:+ "/" +:+ name) "good" "bad") with (x := false) (c := "Tampered") as [m Hm];
      [by vm_compute|done|done|done|].
    split; [by exists m|]. rewrite (H2 (File "Tampered" m)); [done|exact Hm|done|done|]. unfold short. by vm_compute.
Defined.

(** A truncated archive leaves its first entry, and the second access takes it for the store path. *)
Lemma truncated_archive :
  (run "broken").1.1 = Err (Io (OtherError "truncated")) ∧
  fs_tree (run "broken").2 !! (dest ++ [Normal "a"]) = Some (File "broken" 0x124) ∧
  (ensure_extracted (λ _, ∅) name "/nix/store" "/nix/cache" "sha256:good" ∅ (Some 3) (run "broken").2).1.1 = Ok default_outcome.
Proof. split_and!; by vm_compute. Qed.
End ExtractDemo.
