(* ===== verification/Stored.v ===== *)
(** * The store daemon ([stored/mod.rs], [stored/scheme.rs], [stored/handles.rs])

    What the daemon remembers of the store, and the requests of the kernel to it.  Log
    lines, the socket, the kernel's registration and the event loop's plumbing are not
    modelled.  A request that never answers is [None]: the daemon has panicked. *)

From S2P Require Import Prelude RustStd FileSys Nar PathInfo HandleId ProxyIo SchemeHandles NarExtract StoreResolve StoreExtract.

Open Scope Z_scope.

Record ManifestDirEntry : Type := mkManifestDirEntry {
  de_name : string;
  de_is_dir : bool;
  de_is_symlink : bool;
  de_size : Z;
  de_executable : bool;
}.

#[export] Instance ManifestDirEntry_eq_dec : EqDecision ManifestDirEntry.
Proof. solve_decision. Defined.

Record StoredConfig : Type := mkStoredConfig { cache_path : string; store_dir : string }.

Definition default_config : StoredConfig := mkStoredConfig "/nix/cache" "/nix/store".

(** [Handle]; the entries a directory handle may cache are not used by the scheme. *)
Inductive StoreHandle : Type :=
  | SFile (fh : LazyFile)
  | SDir (real_path : path) (scheme_path : string)
  | SControl (buffer scheme_path : string).

#[export] Instance store_lazy : LazyHandle StoreHandle := {|
  as_file h := match h with SFile fh => Some fh | _ => None end;
  of_file := SFile;
|}.

#[export] Instance store_lazy_laws : LazyHandleLaws StoreHandle.
Proof. by constructor. Qed.

(** [StoreDaemon], with the disk it works on: the database's directory and the rest *)
Record StoreDaemon : Type := mkStoreDaemon {
  sd_db : directory;
  sd_fs : fsys;
  sd_handles : HandleTable StoreHandle;
  extracting : gset string;
  config : StoredConfig;
  registered_paths : gset string;
  nar_hashes : gmap string string;
  manifests : gmap string (list ManifestEntry);
  sd_root_fd : option Z;
}.

(** The JSON object written to [.control], as [serde_json::Value] and the deserializer of
    manifests see it: a string at [storePath], a string at [narHash], a value at [files]
    and whether it is a list of entries. *)
Record StoreCommand : Type := mkStoreCommand {
  sc_store_path : option string;
  sc_nar_hash : option string;
  sc_files : option (option (list ManifestEntry));
}.

Class StoreJson : Type := { parse_store_command : string → option StoreCommand }.

(** ** The daemon's memory *)
Section memory.
Context `{SPL : StorePathLib, IJ : InfoJson, MJ : ManifestJson, IOF : IoFaults}.
Implicit Types (d : StoreDaemon).

Definition with_fs (fs : fsys) (ex : gset string) d : StoreDaemon :=
  mkStoreDaemon (sd_db d) fs (sd_handles d) ex (config d) (registered_paths d) (nar_hashes d) (manifests d)
    (sd_root_fd d).

Definition with_handles (tb : HandleTable StoreHandle) d : StoreDaemon :=
  mkStoreDaemon (sd_db d) (sd_fs d) tb (extracting d) (config d) (registered_paths d) (nar_hashes d) (manifests d)
    (sd_root_fd d).

Definition insert_manifest (name : string) (m : list ManifestEntry) d : StoreDaemon :=
  mkStoreDaemon (sd_db d) (sd_fs d) (sd_handles d) (extracting d) (config d) (registered_paths d) (nar_hashes d)
    (<[name := m]> (manifests d)) (sd_root_fd d).

Definition remember_store_path (name : string) d : StoreDaemon :=
  mkStoreDaemon (sd_db d) (sd_fs d) (sd_handles d) (extracting d) (config d)
    ({[name]} ∪ registered_paths d) (nar_hashes d) (manifests d) (sd_root_fd d).

Definition remember_nar_hash (name nar_hash : string) d : StoreDaemon :=
  let d := remember_store_path name d in
  mkStoreDaemon (sd_db d) (sd_fs d) (sd_handles d) (extracting d) (config d)
    (registered_paths d) (<[name := nar_hash]> (nar_hashes d)) (manifests d) (sd_root_fd d).

(** [path.strip_prefix(store_dir/).unwrap_or(path)] *)
Definition store_name (store_dir p : string) : string := default p (Str.strip_prefix (store_dir +:+ "/") p).

(** One path of [StoreDaemon::new] *)
Definition load_path (d : StoreDaemon) (p : string) : StoreDaemon :=
  let name := store_name (store_dir (config d)) p in
  let d := remember_store_path name d in
  match get (sd_db d) p with
  | Ok (Some info) =>
      let d := remember_nar_hash name (nar_hash info) d in
      match files info with [] => d | l => insert_manifest name l d end
  | _ => d
  end.

(** [StoreDaemon::new], on a database directory that is there *)
Definition new (db : directory) (fs : fsys) (cfg : StoredConfig) : StoreDaemon :=
  let d := mkStoreDaemon db fs new_table ∅ cfg ∅ ∅ ∅ None in
  match list_paths db with
  | Ok paths => foldl load_path d paths
  | Err _ => d
  end.

(** [load_manifest], for callers outside the event loop *)
Definition load_manifest (name : string) d : StoreDaemon :=
  let d := remember_store_path name d in
  match get (sd_db d) (store_dir (config d) +:+ "/" +:+ name) with
  | Ok (Some info) => match files info with [] => d | l => insert_manifest name l d end
  | _ => d
  end.

(** [load_manifest_via_worker]: the answer and the new state *)
Definition load_manifest_via_worker (name : string) d : bool * StoreDaemon :=
  let d := remember_store_path name d in
  match manifests d !! name with
  | Some _ => (true, d)
  | None =>
      let full_path := store_dir (config d) +:+ "/" +:+ name in
      match store_path_hash full_path with
      | Err _ => (false, d)
      | Ok hash =>
          match sd_db d !! (hash +:+ ".json") with
          | Some (Text data) =>
              match info_from_json data with
              | None => (false, d)
              | Some info => match files info with
                             | [] => (false, d)
                             | l => (true, insert_manifest name l d)
                             end
              end
          | _ => (false, d)
          end
      end
  end.

Definition list_registered_path_names d : list string := BTree.set_to_list (registered_paths d).

Definition manifest_contains_path (name subpath : string) d : option bool :=
  manifest ← manifests d !! name;
  let subpath := Str.trim_matches "/" subpath in
  if decide (subpath = "") then Some true
  else Some (existsb (λ e, bool_decide (me_path e = subpath)) manifest
             || existsb (λ e, Str.starts_with (subpath +:+ "/") (me_path e)) manifest).

Definition is_directory_in_manifest (name subpath : string) d : bool :=
  match manifests d !! name with
  | None => true
  | Some manifest =>
      let subpath := Str.trim_matches "/" subpath in
      existsb (λ e, bool_decide (me_path e = subpath ∧ me_entry_type e = "dir")) manifest
      || existsb (λ e, Str.starts_with (subpath +:+ "/") (me_path e)) manifest
  end.

Definition file_metadata_from_manifest (name subpath : string) d : Z * bool :=
  match manifests d !! name with
  | None => (0, false)
  | Some manifest =>
      let subpath := Str.trim_matches "/" subpath in
      match list_find (λ e, me_path e = subpath) manifest with
      | Some (_, e) => (me_size e, me_executable e)
      | None => (0, false)
      end
  end.

(** One entry of the manifest in [list_from_manifest] *)
Definition list_entry (prefix : string) (entries : gmap string ManifestDirEntry) (e : ManifestEntry)
    : gmap string ManifestDirEntry :=
  match (if decide (prefix = "") then Some (me_path e) else Str.strip_prefix prefix (me_path e)) with
  | None => entries
  | Some rel =>
      match Str.split_once "/" rel with
      | Some (dir_name, _) =>
          match entries !! dir_name with
          | Some _ => entries
          | None => <[dir_name := mkManifestDirEntry dir_name true false 0 false]> entries
          end
      | None =>
          if decide (rel = "") then entries
          else <[rel := mkManifestDirEntry rel (bool_decide (me_entry_type e = "dir"))
                          (bool_decide (me_entry_type e = "symlink")) (me_size e) (me_executable e)]> entries
      end
  end.

Definition list_from_manifest (name subpath : string) d : option (list ManifestDirEntry) :=
  manifest ← manifests d !! name;
  let prefix := if decide (subpath = "") then "" else Str.trim_end_matches "/" subpath +:+ "/" in
  Some (BTree.values (foldl (list_entry prefix) ∅ manifest)).

End memory.

(** ** Requests *)
Abbreviation StReq := (Req StoreDaemon).

Section scheme.
Context `{FL : FsLimits, ABI : SyscallAbi, SPL : StorePathLib, IJ : InfoJson, MJ : ManifestJson, IOF : IoFaults,
  NC : NarCodec, SJ : StoreJson}.
Implicit Types (d : StoreDaemon).

Definition new_handle (h : StoreHandle) : StReq Z := λ d,
  match open_handle h (sd_handles d) with
  | Some (id, tb) => Some (Ok id, with_handles tb d)
  | None => None
  end.

(** [open_dir_unchecked], [open_control] *)
Definition open_dir_unchecked (real_path : path) (scheme_path : string) : StReq Z :=
  new_handle (SDir real_path scheme_path).
Definition open_control (scheme_path : string) : StReq Z := new_handle (SControl "" scheme_path).

Definition scheme_root : StReq Z := λ d,
  open_dir_unchecked (Path.components (store_dir (config d))) "" d.

(** [openat], the part that extracts the store path; [polls] is the disk a wait would see *)
Definition ensure_store_path (polls : nat → tree) (name : string) : StReq unit := λ d,
  match nar_hashes d !! name with
  | None => Some (Ok tt, d)
  | Some expected =>
      let '(r, ex, fs) := ensure_extracted polls name (store_dir (config d)) (cache_path (config d)) expected
                            (extracting d) (sd_root_fd d) (sd_fs d) in
      let d := with_fs fs ex d in
      match r with
      | Ok outcome => Some (Ok tt, match oc_manifest outcome with
                                   | Some m => insert_manifest name m d
                                   | None => d
                                   end)
      | Err (NotRegistered _) => Some (Err ENOENT, d)
      | Err _ => Some (Err EIO, d)
      end
  end.

(** The manifest of a path registered after the start *)
Definition ensure_manifest (name : string) : StReq unit := λ d,
  match manifests d !! name with
  | Some _ => Some (Ok tt, d)
  | None => Some (Ok tt, (load_manifest_via_worker name d).2)
  end.

(** The store path of an accepted request, and the file inside it *)
Definition name_of (r : ResolvedPath) : option (string * option string) :=
  match r with
  | Root => None
  | StorePathRoot name => Some (name, None)
  | SubPath name subpath => Some (name, Some subpath)
  end.

(** [openat], after the path is parsed *)
Definition open_resolved (polls : nat → tree) (scheme_path : string) (flags : Z) (resolved : ResolvedPath)
    (name : string) (subpath : option string) : StReq Z :=
  d ← rq_get;
  if negb (bool_decide (name ∈ registered_paths d)) then rq_fail ENOENT
  else
    ensure_store_path polls name ;;
    ensure_manifest name ;;
    d ← rq_get;
    if bool_decide ((sub ← subpath; manifest_contains_path name sub d) = Some false) then rq_fail ENOENT
    else
      let fs_path := to_filesystem_path resolved (store_dir (config d)) in
      match subpath with
      | None => open_dir_unchecked fs_path scheme_path
      | Some sub =>
          if has flags O_DIRECTORY || is_directory_in_manifest name sub d
          then open_dir_unchecked fs_path scheme_path
          else
            let '(size, executable) := file_metadata_from_manifest name sub d in
            new_handle (of_file (mkLazyFile None fs_path scheme_path size executable))
      end.

Definition openat (polls : nat → tree) (p : string) (flags : Z) : StReq Z :=
  let p := Str.trim_matches "/" p in
  if decide (p = ".control") then open_control ".control"
  else
    match parse_scheme_path p with
    | Panics => λ _, None
    | Returns (Err _) => rq_fail ENOENT
    | Returns (Ok resolved) =>
        match name_of resolved with
        | None => scheme_root
        | Some (name, subpath) => open_resolved polls p flags resolved name subpath
        end
    end.

Definition read (id len offset : Z) : StReq string := λ d,
  let '(r, tb) := read_handle (fs_tree (sd_fs d)) id len offset (sd_handles d) in
  Some (r, with_handles tb d).

Definition write (id : Z) (data : string) : StReq Z := λ d,
  match handles (sd_handles d) !! id with
  | Some (SControl buffer p) =>
      Some (Ok (Z.of_nat (String.length data)),
            with_handles (insert_handle id (SControl (buffer +:+ data) p) (sd_handles d)) d)
  | _ => Some (Err EACCES, d)
  end.

Definition with_handle {A} (id : Z) (f : StoreHandle → A) : StReq A :=
  d ← rq_get;
  match handles (sd_handles d) !! id with Some h => mret (f h) | None => rq_fail EBADF end.

Definition file_size (h : StoreHandle) : Z := match h with SFile fh => lf_size fh | _ => 0 end.
Definition handle_path (h : StoreHandle) : string :=
  match h with SFile fh => lf_scheme_path fh | SDir _ p => p | SControl _ p => p end.

Definition fsize (id : Z) : StReq Z := with_handle id file_size.

Definition fpath (id len : Z) : StReq string :=
  with_handle id (λ h,
    let full := if decide (handle_path h = "") then "/scheme/store" else "/scheme/store/" +:+ handle_path h in
    String.substring 0 (Z.to_nat (Z.min (Z.of_nat (String.length full)) len)) full).

Definition fevent (id : Z) : StReq Z :=
  with_handle id (λ h, match h with SControl _ _ => EVENT_WRITE | _ => EVENT_READ end).

(** [st_size], [st_mode], [st_nlink] *)
Definition fstat (id : Z) : StReq (Z * Z * Z) :=
  with_handle id (λ h, match h with
    | SDir _ _ => (0, 0x416D, 2)
    | SFile fh => (lf_size fh, if lf_executable fh then 0x816D else 0x8124, 1)
    | SControl _ _ => (0, 0x8092, 1)
    end).

Definition entry_kind (e : ManifestDirEntry) : string * DirentKind :=
  (de_name e, if de_is_dir e then KindDirectory else if de_is_symlink e then KindSymlink else KindRegular).

Definition getdents {Buf : Type} `{DB : DirentBuffer Buf} (id : Z) (buf : Buf) (start : Z) : StReq Buf :=
  d ← rq_get;
  match handles (sd_handles d) !! id with
  | None => rq_fail EBADF
  | Some (SDir _ scheme_path) =>
      if decide (scheme_path = "") then
        mret (fill_from buf start ((λ n, (n, KindDirectory)) <$> list_registered_path_names d))
      else
        match parse_scheme_path scheme_path with
        | Panics => λ _, None
        | Returns (Err _) => rq_fail ENOENT
        | Returns (Ok resolved) =>
            match name_of resolved with
            | None => mret buf
            | Some (name, subpath) =>
                match list_from_manifest name (default "" subpath) d with
                | None => rq_fail ENOENT
                | Some entries => mret (fill_from buf start (entry_kind <$> entries))
                end
            end
        end
  | Some _ => rq_fail ENOTDIR
  end.

(** The command of [.control], run when the handle is closed *)
Definition process_control (cmd : StoreCommand) d : StoreDaemon :=
  let name := store_name (store_dir (config d)) (default "" (sc_store_path cmd)) in
  let d := match sc_nar_hash cmd with
           | Some nar_hash => remember_nar_hash name nar_hash d
           | None => remember_store_path name d
           end in
  match sc_files cmd with
  | Some (Some (f :: fs)) => insert_manifest name (f :: fs) d
  | _ => d
  end.

Definition on_close (id : Z) : StReq unit := λ d,
  let '(h, tb) := close_handle id (sd_handles d) in
  let d := with_handles tb d in
  Some (Ok tt,
    match h with
    | Some (SControl buffer _) =>
        if decide (buffer = "") then d
        else match parse_store_command (Str.from_utf8_lossy buffer) with
             | Some cmd => process_control cmd d
             | None => d
             end
    | _ => d
    end).

End scheme.
