(* ===== verification/StoredFacts.v ===== *)
(** * The store daemon serves what its manifests say

    Listings agree with lookups; a request that opens a file opens a registered one, with
    the size and mode its manifest records; an open file does not change under its reader. *)

From S2P Require Import Prelude RustStd FileSys FileSysFacts Nar PathInfo HandleId ProxyIo SchemeHandles NarExtract NarFacts StoreResolve StoreExtract Stored Instances ManifestInstances.

Open Scope Z_scope.

(** ** Listings *)
Section listing.
Implicit Types (m : list ManifestEntry) (acc : gmap string ManifestDirEntry).

(** What is left of an entry's path below the directory *)
Definition rel_of (prefix : string) (e : ManifestEntry) : option string :=
  if decide (prefix = "") then Some (me_path e) else Str.strip_prefix prefix (me_path e).

Definition exact (prefix n : string) (e : ManifestEntry) : Prop := rel_of prefix e = Some n.
Definition nested (prefix n : string) (e : ManifestEntry) : Prop := ∃ r, rel_of prefix e = Some (n +:+ "/" +:+ r).

Definition is_child (n : string) : Prop := n ≠ "" ∧ Str.contains_char "/" n = false.

(** One entry of the manifest, seen from one name *)
Lemma list_entry_lookup prefix acc e n :
  is_child n →
  (exact prefix n e ∧ list_entry prefix acc e !! n
     = Some (mkManifestDirEntry n (bool_decide (me_entry_type e = "dir")) (bool_decide (me_entry_type e = "symlink"))
               (me_size e) (me_executable e)))
  ∨ (nested prefix n e ∧ list_entry prefix acc e !! n
     = Some (default (mkManifestDirEntry n true false 0 false) (acc !! n)))
  ∨ (¬ exact prefix n e ∧ ¬ nested prefix n e ∧ list_entry prefix acc e !! n = acc !! n).
Proof.
  intros [Hn Hc]. unfold list_entry, exact, nested. fold (rel_of prefix e).
  destruct (rel_of prefix e) as [rel|]; [|right; right; split_and!; naive_solver].
  destruct (Str.split_once "/" rel) as [[dn r]|] eqn:Hs.
  - apply Str.split_once_Some in Hs as [-> Hd]. destruct (decide (dn = n)) as [->|Hne].
    + right; left. split; [by exists r|]. destruct (acc !! n) eqn:E; [by rewrite E|]. by rewrite lookup_insert_eq.
    + right; right. split_and!.
      * intros [= <-]. rewrite Str.contains_char_app in Hc. simpl in Hc.
        by rewrite orb_true_r in Hc.
      * intros [r' [= Hr]]. change ("/" +:+ r') with (String "/" r') in Hr.
        assert (H1 : Str.split_once "/" (dn +:+ String "/" r) = Some (dn, r)) by by apply Str.split_once_Some.
        assert (H2 : Str.split_once "/" (dn +:+ String "/" r) = Some (n, r')) by (apply Str.split_once_Some; by rewrite Hr).
        congruence.
      * destruct (acc !! dn); [done|]. by rewrite lookup_insert_ne.
  - apply Str.split_once_None in Hs.
    assert (Hnn : ¬ ∃ r, Some rel = Some (n +:+ "/" +:+ r)).
    { intros [r [= ->]]. rewrite Str.contains_char_app in Hs. simpl in Hs.
      by rewrite orb_true_r in Hs. }
    destruct (decide (rel = n)) as [->|Hne].
    + left. split; [done|]. rewrite decide_False by done. by rewrite lookup_insert_eq.
    + right; right. split_and!; [congruence|done|]. case_decide; [done|]. by rewrite lookup_insert_ne.
Qed.

Lemma list_entries_some prefix m acc n :
  is_child n →
  is_Some (foldl (list_entry prefix) acc m !! n)
  ↔ is_Some (acc !! n) ∨ ∃ e, e ∈ m ∧ (exact prefix n e ∨ nested prefix n e).
Proof.
  intros Hn. revert acc. induction m as [|e m IH]; intros acc; simpl.
  - split; [by left|]. intros [?|(e & ?%elem_of_nil & _)]; done.
  - rewrite IH. destruct (list_entry_lookup prefix acc e n Hn) as [[H1 H2]|[[H1 H2]|(H1 & H2 & H3)]]; rewrite ?H2, ?H3.
    + split; [|naive_solver]. intros _. right. exists e. split; [by left|by left].
    + split; [|naive_solver]. intros _. right. exists e. split; [by left|by right].
    + split; intros [?|(x & Hx & Ho)]; [by left|right|by left|right]; exists x.
      * split; [by right|done].
      * apply elem_of_cons in Hx as [->|Hx]; [by destruct Ho|]. by split.
Qed.

(** A manifest that contradicts itself nowhere: what has entries below it is a directory,
    and a path has one type. *)
Definition consistent m : Prop := ∀ e1 e2, e1 ∈ m → e2 ∈ m →
  (me_path e1 = me_path e2 → me_entry_type e1 = me_entry_type e2) ∧
  (Str.starts_with (me_path e1 +:+ "/") (me_path e2) = true → me_entry_type e1 = "dir").

Definition dir_child prefix m n : Prop :=
  ∃ e, e ∈ m ∧ ((exact prefix n e ∧ me_entry_type e = "dir") ∨ nested prefix n e).

Lemma list_entries_dir prefix m n v :
  is_child n →
  (∀ e1 e2, e1 ∈ m → e2 ∈ m → exact prefix n e1 →
     (exact prefix n e2 → me_entry_type e1 = me_entry_type e2) ∧ (nested prefix n e2 → me_entry_type e1 = "dir")) →
  foldl (list_entry prefix) ∅ m !! n = Some v →
  de_name v = n ∧ (de_is_dir v = true ↔ dir_child prefix m n).
Proof.
  intros Hn Hcons. revert v.
  enough (∀ l acc v, (∀ e, e ∈ l → e ∈ m) →
    (∀ v, acc !! n = Some v → de_name v = n ∧ (de_is_dir v = true ↔ dir_child prefix m n)) →
    foldl (list_entry prefix) acc l !! n = Some v → de_name v = n ∧ (de_is_dir v = true ↔ dir_child prefix m n)) as H.
  { intros v. apply H; [done|]. intros ?. by rewrite lookup_empty. }
  induction l as [|e l IH]; intros acc v Hl Hacc; simpl; [apply Hacc|].
  apply IH; [intros x Hx; apply Hl; by right|]. clear v. intros v.
  assert (He : e ∈ m) by (apply Hl; by left).
  destruct (list_entry_lookup prefix acc e n Hn) as [[H1 ->]|[[H1 ->]|(_ & _ & ->)]]; [| |apply Hacc].
  - intros [= <-]. simpl. split; [done|]. rewrite bool_decide_eq_true. split.
    + intros Ht. exists e. split; [done|]. by left.
    + intros (e2 & He2 & [[Hx Ht]|Hx]).
      * rewrite <- Ht. by apply (Hcons e e2).
      * by apply (Hcons e e2).
  - destruct (acc !! n) as [v0|] eqn:E; simpl; intros [= <-]; [by apply Hacc|].
    simpl. split; [done|]. split; [|done]. intros _. exists e. split; [done|by right].
Qed.

(** Every entry is filed under its own name. *)
Lemma list_entries_named prefix m n v :
  foldl (list_entry prefix) ∅ m !! n = Some v → de_name v = n.
Proof.
  enough (∀ l acc, (∀ n v, acc !! n = Some v → de_name v = n) →
    ∀ n v, foldl (list_entry prefix) acc l !! n = Some v → de_name v = n) as H.
  { apply H. intros ??. by rewrite lookup_empty. }
  clear n v. induction l as [|e l IH]; intros acc Hacc; simpl; [done|]. apply IH. intros n v. unfold list_entry.
  assert (Hins : ∀ k w, de_name w = k → <[k := w]> acc !! n = Some v → de_name v = n).
  { intros k w Hw. destruct (decide (k = n)) as [->|]; [rewrite lookup_insert_eq; congruence|].
    rewrite lookup_insert_ne by done. apply Hacc. }
  destruct (if decide _ then _ else _) as [rel|]; [|apply Hacc].
  destruct (Str.split_once _ _) as [[]|]; [destruct (acc !! _); [apply Hacc|by apply Hins]|].
  case_decide; [apply Hacc|by apply Hins].
Qed.

Lemma values_named (acc : gmap string ManifestDirEntry) :
  (∀ n v, acc !! n = Some v → de_name v = n) → de_name <$> BTree.values acc = BTree.keys acc.
Proof.
  intros H. unfold BTree.values, BTree.keys. rewrite <- list_fmap_compose. apply list_fmap_ext.
  intros i [k v] Hi. simpl. apply H. apply BTree.elem_of_to_list. by eapply list_elem_of_lookup_2.
Qed.

(** *** Paths of entries *)
Lemma trim_end_app c u v :
  v ≠ "" → Str.trim_end_matches c v = v → Str.trim_end_matches c (u +:+ v) = u +:+ v.
Proof. intros Hv Ht. induction u as [|a u IH]; simpl; [done|]. rewrite IH. by destruct u, v. Qed.

Lemma trim_start_id c s : Str.starts_with (String c "") s = false → Str.trim_start_matches c s = s.
Proof. destruct s as [|a s]; [done|]. simpl. case_decide as H; [|done]. subst. unfold Str.starts_with. simpl. by destruct (ascii_dec c c), s. Qed.

Lemma child_rel_trim sub n :
  is_child n → Str.starts_with "/" sub = false → Str.trim_matches "/" (child_rel sub n) = child_rel sub n.
Proof.
  intros [Hn Hc] Hs. unfold Str.trim_matches.
  assert (Hn' : Str.starts_with "/" n = false).
  { apply not_true_iff_false. intros [t ->]%Str.starts_with_spec. done. }
  rewrite trim_start_id.
  - unfold child_rel. case_decide; [by apply Str.trim_end_matches_no|].
    rewrite <- Str.app_assoc. apply trim_end_app; [done|by apply Str.trim_end_matches_no].
  - unfold child_rel. case_decide; [done|]. destruct sub as [|a sub]; [done|]. revert Hs. unfold Str.starts_with. simpl.
    by destruct (ascii_dec "/" a), sub.
Qed.

Definition prefix_of_dir (sub : string) : string := if decide (sub = "") then "" else sub +:+ "/".

Lemma exact_path sub n e : exact (prefix_of_dir sub) n e ↔ me_path e = child_rel sub n.
Proof.
  unfold exact, rel_of, prefix_of_dir, child_rel. destruct (decide (sub = "")) as [->|Hs].
  - rewrite decide_True by done. split; congruence.
  - rewrite decide_False by (by destruct sub). rewrite Str.strip_prefix_Some. by rewrite Str.app_assoc.
Qed.

Lemma nested_path sub n e :
  nested (prefix_of_dir sub) n e ↔ Str.starts_with (child_rel sub n +:+ "/") (me_path e) = true.
Proof.
  rewrite Str.starts_with_spec. unfold nested. apply exist_proper. intros r.
  unfold rel_of, prefix_of_dir, child_rel. destruct (decide (sub = "")) as [->|Hs].
  - rewrite decide_True by done. rewrite Str.app_assoc. split; congruence.
  - rewrite decide_False by (by destruct sub). rewrite Str.strip_prefix_Some. by rewrite !Str.app_assoc.
Qed.
End listing.

(** Listings and lookups agree.  The listing of a directory of a store path is sorted
    and names nothing twice; it shows a name exactly when opening that name below the
    directory finds it in the manifest; and, unless the manifest contradicts itself, it
    shows a directory exactly when an open of the name would open a directory. *)
Theorem listing_agrees name sub d m entries :
  manifests d !! name = Some m → Str.starts_with "/" sub = false → Str.trim_end_matches "/" sub = sub →
  list_from_manifest name sub d = Some entries →
  StronglySorted String.le (de_name <$> entries) ∧ NoDup (de_name <$> entries) ∧
  ∀ n, is_child n →
    ((∃ v, v ∈ entries ∧ de_name v = n) ↔ manifest_contains_path name (child_rel sub n) d = Some true) ∧
    (consistent m → ∀ v, v ∈ entries → de_name v = n →
       (de_is_dir v = true ↔ is_directory_in_manifest name (child_rel sub n) d = true)).
Proof.
  intros Hm Hs He. unfold list_from_manifest. rewrite Hm. simpl. rewrite He. fold (prefix_of_dir sub).
  set (acc := foldl _ ∅ m). intros [= <-].
  pose proof (list_entries_named (prefix_of_dir sub) m) as Hnamed. fold acc in Hnamed.
  rewrite values_named by exact Hnamed. split; [apply BTree.keys_sorted|]. split; [apply BTree.NoDup_keys|].
  intros n Hn.
  assert (Hval : ∀ v, v ∈ BTree.values acc ∧ de_name v = n ↔ acc !! n = Some v).
  { intros v. rewrite BTree.elem_of_values. split; [|intros H; split; [by exists n|by apply Hnamed]].
    intros [[k Hk] Hv]. pose proof (Hnamed _ _ Hk). congruence. }
  assert (Hne : child_rel sub n ≠ "") by (destruct Hn; unfold child_rel; case_decide; [done|by destruct sub]).
  split.
  - unfold manifest_contains_path. rewrite Hm. simpl. rewrite child_rel_trim by done. rewrite decide_False by done.
    transitivity (is_Some (acc !! n)); [unfold is_Some; by setoid_rewrite Hval|].
    unfold acc. rewrite list_entries_some by done. rewrite lookup_empty. split.
    + intros [[? ?]|(e & Hin & Ho)]; [done|]. f_equal. apply orb_true_iff.
      rewrite exact_path, nested_path in Ho.
      destruct Ho; [left|right]; apply existsb_exists; exists e; (split; [by apply list_elem_of_In|]); [by apply bool_decide_eq_true|done].
    + intros [= H]. right. apply orb_true_iff in H as [H|H]; apply existsb_exists in H as (e & Hin & H);
        apply list_elem_of_In in Hin; exists e; (split; [done|]).
      * left. apply exact_path. by apply bool_decide_eq_true in H.
      * right. by apply nested_path.
  - intros Hcons v Hv Hvn. assert (Hl : acc !! n = Some v) by by apply Hval.
    apply list_entries_dir in Hl as [_ ->]; [|done|].
    + unfold dir_child, is_directory_in_manifest. rewrite Hm, child_rel_trim by done. rewrite orb_true_iff, !existsb_exists.
      setoid_rewrite list_elem_of_In. setoid_rewrite exact_path. setoid_rewrite nested_path. setoid_rewrite bool_decide_eq_true.
      naive_solver.
    + intros e1 e2 H1 H2 Hx. apply exact_path in Hx. destruct (Hcons e1 e2 H1 H2) as [Ha Hb]. split.
      * intros Hy%exact_path. apply Ha. congruence.
      * intros Hy%nested_path. apply Hb. by rewrite Hx.
Qed.

(** ** Opening *)
Section opening.
Context `{FL : FsLimits, ABI : SyscallAbi, SPL : StorePathLib, IJ : InfoJson, MJ : ManifestJson, IOF : IoFaults,
  NC : NarCodec, SJ : StoreJson}.
Implicit Types (d : StoreDaemon).

(** What an open leaves as it is *)
Definition same_memory d d' : Prop :=
  sd_db d' = sd_db d ∧ config d' = config d ∧ nar_hashes d' = nar_hashes d.

Lemma ensure_store_path_inv polls name d r d' :
  ensure_store_path polls name d = Some (r, d') →
  same_memory d d' ∧ sd_handles d' = sd_handles d ∧ registered_paths d' = registered_paths d
  ∧ match nar_hashes d !! name with
    | None => r = Ok tt ∧ d' = d
    | Some expected => ∃ res, ensure_extracted polls name (store_dir (config d)) (cache_path (config d)) expected
                                (extracting d) (sd_root_fd d) (sd_fs d) = (res, extracting d', sd_fs d')
                         ∧ (r = Ok tt ↔ is_ok res = true)
    end.
Proof.
  unfold ensure_store_path, same_memory. destruct (nar_hashes d !! name) as [expected|]; [|by intros [= <- <-]].
  destruct (ensure_extracted _ _ _ _ _ _ _ _) as [[res ex] fs].
  destruct res as [oc|[]]; [destruct (oc_manifest oc)|..]; intros [= <- <-]; (split_and!; [done..|]);
    eexists; (split; [reflexivity|]); split; done.
Qed.

Lemma ensure_manifest_inv name d r d' :
  name ∈ registered_paths d → ensure_manifest name d = Some (r, d') →
  r = Ok tt ∧ same_memory d d' ∧ sd_handles d' = sd_handles d ∧ registered_paths d' = registered_paths d
  ∧ sd_fs d' = sd_fs d ∧ extracting d' = extracting d.
Proof.
  intros Hreg. unfold ensure_manifest, same_memory. destruct (manifests d !! name); [by intros [= <- <-]|].
  unfold load_manifest_via_worker, remember_store_path. simpl.
  assert (H : {[name]} ∪ registered_paths d = registered_paths d) by set_solver.
  repeat case_match; intros [= <- <-]; simplify_eq/=; by rewrite ?H.
Qed.

Lemma new_handle_inv h d r d' :
  new_handle h d = Some (r, d') →
  ∃ id, r = Ok id ∧ handles (sd_handles d) !! id = None ∧ handles (sd_handles d') = <[id := h]> (handles (sd_handles d))
    ∧ d' = with_handles (sd_handles d') d.
Proof.
  unfold new_handle. destruct (open_handle h (sd_handles d)) as [[id tb]|] eqn:E; [|done]. intros [= <- <-].
  apply open_handle_fresh in E as (? & _ & ?). by exists id.
Qed.

(** The manifest entry behind an open file *)
Definition entry_of (m : list ManifestEntry) (subpath : string) (fh : LazyFile) : Prop :=
  ∃ e, e ∈ m ∧ me_path e = Str.trim_matches "/" subpath ∧ me_entry_type e ≠ "dir"
    ∧ lf_size fh = me_size e ∧ lf_executable fh = me_executable e.

Lemma file_entry name subpath d fh :
  manifest_contains_path name subpath d ≠ Some false → is_directory_in_manifest name subpath d = false →
  Str.trim_matches "/" subpath ≠ "" →
  (lf_size fh, lf_executable fh) = file_metadata_from_manifest name subpath d →
  ∃ m, manifests d !! name = Some m ∧ entry_of m subpath fh.
Proof.
  unfold manifest_contains_path, is_directory_in_manifest, file_metadata_from_manifest.
  destruct (manifests d !! name) as [m|]; [|done]. simpl. intros Hc [Hd Hn]%orb_false_iff Ht.
  rewrite decide_False in Hc by done. rewrite Hn, orb_false_r in Hc.
  destruct (existsb _ m) eqn:Hx in Hc; [|done]. apply existsb_exists in Hx as (e0 & Hin & He0).
  apply list_elem_of_In in Hin. apply bool_decide_eq_true in He0.
  destruct (list_find _ m) as [[i e]|] eqn:Hf.
  - intros [= Hs Hex]. apply list_find_Some in Hf as (Hi & He & _). exists m. split; [done|]. exists e.
    assert (e ∈ m) by by eapply list_elem_of_lookup_2. split_and!; [done..| |done|done].
    intros Hdir. apply not_true_iff_false in Hd. apply Hd. apply existsb_exists. exists e.
    split; [by apply list_elem_of_In|]. by apply bool_decide_eq_true.
  - apply list_find_None in Hf. rewrite Forall_forall in Hf. by destruct (Hf e0 Hin).
Qed.

Lemma trim_matches_nil c s : Str.trim_matches c s = "" → s = "" ∨ ∃ t, s = t +:+ String c "".
Proof.
  unfold Str.trim_matches. induction s as [|a s IH]; [by left|]. simpl. case_decide as Ha.
  - subst. intros H. right. destruct (IH H) as [->|[t ->]]; [by exists ""|by exists (String c t)].
  - simpl. destruct (Str.trim_end_matches c s); [|done]. by rewrite decide_False.
Qed.

(** The subpath of an accepted request is not made of slashes. *)
Lemma subpath_trim p name sub :
  parse_scheme_path p = Returns (Ok (SubPath name sub)) → Str.trim_matches "/" sub ≠ "".
Proof.
  intros Hp Ht. destruct (parse_cases _ _ Hp) as (_ & _ & Hne & _ & Hs).
  destruct (trim_matches_nil _ _ Ht) as [?|[t ->]]; [done|].
  unfold Str.trim_matches in Hs. apply (Str.trim_end_matches_last "/" (Str.trim_start_matches "/" p) (name +:+ String "/" t)).
  rewrite Hs. by rewrite Str.app_assoc.
Qed.

(** What the handle of a successful open of [q] is *)
Definition handle_ok (q : string) (flags : Z) d d' (h : StoreHandle) : Prop :=
  match h with
  | SControl buffer _ => q = ".control" ∧ buffer = "" ∧ sd_fs d' = sd_fs d
  | SDir real_path scheme_path =>
      (real_path = Path.components (store_dir (config d)) ∧ scheme_path = "" ∧ parse_scheme_path q = Returns (Ok Root))
      ∨ ∃ resolved name sub, parse_scheme_path q = Returns (Ok resolved) ∧ name_of resolved = Some (name, sub)
          ∧ name ∈ registered_paths d ∧ real_path = to_filesystem_path resolved (store_dir (config d)) ∧ scheme_path = q
          ∧ (sub = None ∨ has flags O_DIRECTORY = true
             ∨ ∃ s, sub = Some s ∧ is_directory_in_manifest name s d' = true)
  | SFile fh =>
      ∃ name sub m, parse_scheme_path q = Returns (Ok (SubPath name sub))
          ∧ name ∈ registered_paths d
          ∧ lf_content fh = None ∧ lf_scheme_path fh = q
          ∧ lf_real_path fh = to_filesystem_path (SubPath name sub) (store_dir (config d))
          ∧ manifests d' !! name = Some m ∧ entry_of m sub fh
  end.

Definition with_digest name d d' : Prop :=
  ∀ expected, nar_hashes d !! name = Some expected → ∃ polls oc,
    ensure_extracted polls name (store_dir (config d)) (cache_path (config d)) expected (extracting d) (sd_root_fd d) (sd_fs d)
    = (Ok oc, extracting d', sd_fs d').

Lemma open_resolved_run polls q flags resolved name sub d id d' :
  parse_scheme_path q = Returns (Ok resolved) → name_of resolved = Some (name, sub) →
  open_resolved polls q flags resolved name sub d = Some (Ok id, d') →
  handles (sd_handles d) !! id = None ∧ same_memory d d' ∧ with_digest name d d' ∧
  ∃ h, handles (sd_handles d') = <[id := h]> (handles (sd_handles d)) ∧ handle_ok q flags d d' h.
Proof.
  intros Hq Hn. unfold open_resolved, mbind, Req_bind, rq_get, rq_fail.
  destruct (bool_decide (name ∈ registered_paths d)) eqn:Hreg; [|done]. apply bool_decide_eq_true in Hreg. cbn [negb].
  destruct (ensure_store_path polls name d) as [[[[]|e] d1]|] eqn:E1; [|done..].
  apply ensure_store_path_inv in E1 as (M1 & H1 & R1 & X1).
  destruct (ensure_manifest name d1) as [[[[]|e] d2]|] eqn:E2; [|done..].
  apply ensure_manifest_inv in E2 as (_ & M2 & H2 & R2 & F2 & X2); [|by rewrite R1].
  destruct (bool_decide _) eqn:Hc; [done|]. apply bool_decide_eq_false in Hc. intros H.
  assert (Hh : ∃ h, new_handle h d2 = Some (Ok id, d') ∧
    ((h = SDir (to_filesystem_path resolved (store_dir (config d2))) q
        ∧ (sub = None ∨ has flags O_DIRECTORY = true ∨ ∃ s, sub = Some s ∧ is_directory_in_manifest name s d2 = true))
     ∨ ∃ s sz x, sub = Some s ∧ is_directory_in_manifest name s d2 = false
         ∧ (sz, x) = file_metadata_from_manifest name s d2
         ∧ h = SFile (mkLazyFile None (to_filesystem_path resolved (store_dir (config d2))) q sz x))).
  { destruct sub as [s|]; [|eexists; split; [exact H|left; split; [done|by left]]].
    destruct (has flags O_DIRECTORY) eqn:Hf; simpl in H; [eexists; split; [exact H|left; split; [done|by right; left]]|].
    destruct (is_directory_in_manifest name s d2) eqn:Hdir.
    - eexists. split; [exact H|]. left. split; [done|]. right; right. by exists s.
    - destruct (file_metadata_from_manifest name s d2) as [sz x] eqn:Hm. eexists. split; [exact H|]. right. by exists s, sz, x. }
  clear H. destruct Hh as (h & Hnew & Hh). apply new_handle_inv in Hnew as (id' & [= <-] & Hid & Hins & Hd').
  rewrite H2, H1 in Hid, Hins.
  assert (Hmem : sd_fs d' = sd_fs d2 ∧ extracting d' = extracting d2 ∧ manifests d' = manifests d2 ∧ same_memory d2 d') by (by rewrite Hd').
  destruct Hmem as (F3 & X3 & Mf & M3). unfold same_memory in *.
  destruct M1 as (? & C1 & ?), M2 as (? & C2 & ?), M3 as (? & C3 & ?).
  split; [done|]. split; [split_and!; congruence|]. split.
  { intros expected He. rewrite He in X1. destruct X1 as (res & Hres & Hok). destruct res as [oc|]; [|by pose proof (proj1 Hok eq_refl)].
    exists polls, oc. congruence. }
  exists h. split; [done|].
  assert (Hdir : ∀ s, is_directory_in_manifest name s d' = is_directory_in_manifest name s d2) by (intros s; unfold is_directory_in_manifest; by rewrite Mf).
  destruct Hh as [[-> Hor]|(s & sz & x & -> & Hdf & Hmeta & ->)]; simpl.
  - right. exists resolved, name, sub. split_and!; [done..|congruence|done|]. by setoid_rewrite Hdir.
  - destruct resolved as [|n|n s']; [done..|]. injection Hn as -> ->.
    destruct (file_entry name s d2 (mkLazyFile None (to_filesystem_path (SubPath name s) (store_dir (config d2))) q sz x))
      as (m & Hm & He); [exact Hc|exact Hdf|by eapply subpath_trim|exact Hmeta|].
    exists name, s, m. split_and!; try done; [simpl; congruence|]. by rewrite Mf.
Qed.

(** ** Sessions: requests, between which other programs change the disk *)
Inductive request : Type :=
  | RqOpen (polls : nat → tree) (p : string) (flags : Z)
  | RqRead (id len offset : Z)
  | RqWrite (id : Z) (data : string)
  | RqClose (id : Z)
  | RqDisk (fs : fsys).

Definition serve (rq : request) d : option StoreDaemon :=
  match rq with
  | RqOpen polls p flags => snd <$> openat polls p flags d
  | RqRead id len offset => snd <$> read id len offset d
  | RqWrite id data => snd <$> write id data d
  | RqClose id => snd <$> on_close id d
  | RqDisk fs => Some (with_fs fs (extracting d) d)
  end.

Definition serve_all (rqs : list request) d : option StoreDaemon :=
  foldl (λ od rq, d ← od; serve rq d) (Some d) rqs.

Lemma serve_all_cons rq rqs d : serve_all (rq :: rqs) d = d' ← serve rq d; serve_all rqs d'.
Proof.
  unfold serve_all. simpl. destruct (serve rq d); [done|]. simpl. induction rqs; [done|]. simpl. by rewrite IHrqs.
Qed.

Definition holds (id : Z) (c : string) d : Prop :=
  ∃ fh, handles (sd_handles d) !! id = Some (SFile fh) ∧ lf_content fh = Some c.

Lemma new_handle_other h d r d' id x :
  new_handle h d = Some (r, d') → handles (sd_handles d) !! id = Some x → handles (sd_handles d') !! id = Some x.
Proof.
  intros (i & _ & Hn & -> & _)%new_handle_inv Hx. rewrite lookup_insert_ne; [done|]. congruence.
Qed.

Lemma openat_other polls p flags d r d' id x :
  openat polls p flags d = Some (r, d') → handles (sd_handles d) !! id = Some x → handles (sd_handles d') !! id = Some x.
Proof.
  unfold openat, scheme_root, open_control, open_dir_unchecked. case_decide; [apply new_handle_other|].
  destruct (parse_scheme_path _) as [[resolved|e]|]; [|by intros [= _ <-]|done].
  destruct (name_of resolved) as [[name sub]|]; [|apply new_handle_other].
  unfold open_resolved, mbind, Req_bind, rq_get, rq_fail. destruct (negb _) eqn:Hreg; [by intros [= _ <-]|].
  apply negb_false_iff, bool_decide_eq_true in Hreg.
  destruct (ensure_store_path polls name d) as [[[[]|e] d1]|] eqn:E1; [| |done];
    apply ensure_store_path_inv in E1 as (_ & H1 & R1 & _); [|intros [= _ <-]; by rewrite H1].
  destruct (ensure_manifest name d1) as [[[[]|e] d2]|] eqn:E2; [| |done];
    apply ensure_manifest_inv in E2 as (_ & _ & H2 & _); try (by rewrite R1); [|intros [= _ <-]; by rewrite H2, H1].
  rewrite <- H1, <- H2. case_bool_decide; [by intros [= _ <-]|].
  unfold open_dir_unchecked. destruct sub; [|apply new_handle_other]. destruct (_ || _); [apply new_handle_other|].
  destruct (file_metadata_from_manifest _ _ _). apply new_handle_other.
Qed.

Lemma serve_holds id c rq d d' :
  rq ≠ RqClose id → serve rq d = Some d' → holds id c d → holds id c d'.
Proof.
  intros Hrq Hs (fh & Hfh & Hc). unfold holds. destruct rq as [polls p flags|i len off|i data|i|fs]; simpl in Hs.
  - destruct (openat polls p flags d) as [[r d1]|] eqn:E; [|done]. injection Hs as <-. exists fh. split; [|done].
    by eapply openat_other.
  - unfold read in Hs. destruct (read_handle _ i len off _) as [r tb] eqn:E. injection Hs as <-. simpl.
    destruct (decide (i = id)) as [->|Hne].
    + unfold read_handle in E. rewrite Hfh in E. simpl in E. rewrite Hc in E. injection E as <- <-. by exists fh.
    + rewrite (read_handle_other _ _ _ _ _ _ _ id E) by done. by exists fh.
  - unfold write in Hs. destruct (handles (sd_handles d) !! i) as [[| |b sp]|] eqn:E; injection Hs as <-; try by exists fh.
    exists fh. simpl. rewrite lookup_insert_ne; [done|]. intros ->. congruence.
  - unfold on_close in Hs. injection Hs as <-. exists fh. split; [|done].
    assert (i ≠ id) by congruence.
    assert (Hd : base.delete i (handles (sd_handles d)) !! id = Some (SFile fh)) by by rewrite lookup_delete_ne.
    unfold close_handle. repeat case_match; simplify_eq/=; try done;
      unfold process_control; repeat case_match; done.
  - injection Hs as <-. by exists fh.
Qed.

Lemma serve_all_holds id c rqs d d' :
  RqClose id ∉ rqs → serve_all rqs d = Some d' → holds id c d → holds id c d'.
Proof.
  revert d. induction rqs as [|rq rqs IH]; intros d Hn; [by intros [= <-]|].
  apply not_elem_of_cons in Hn as [Hne Hn]. rewrite serve_all_cons. destruct (serve rq d) as [d1|] eqn:E; [|done]. simpl.
  intros Hr Hd. eapply IH; [done|exact Hr|]. eapply serve_holds; [|exact E|done]. congruence.
Qed.

Lemma read_holds id c d len offset : holds id c d → ∃ d', read id len offset d = Some (Ok (slice c offset len), d').
Proof.
  intros (fh & Hfh & Hc). unfold read, read_handle. rewrite Hfh. simpl. rewrite Hc. by eexists.
Qed.

Lemma read_loads id len offset d x d' :
  read id len offset d = Some (Ok x, d') → ∃ c, x = slice c offset len ∧ holds id c d'.
Proof.
  unfold read, read_handle, holds. destruct (handles (sd_handles d) !! id) as [h|] eqn:E; [|done].
  destruct (as_file h) as [fh|] eqn:Ef; [|done]. destruct h as [fh'| |]; [|done..]. injection Ef as ->.
  destruct (lf_content fh) as [c|] eqn:Ec; [intros [= <- <-]; exists c; split; [done|]; by exists fh|].
  destruct (worker_preload _ _) as [data|]; [|done]. intros [= <- <-]. exists data. split; [done|].
  eexists. simpl. by rewrite lookup_insert_eq.
Qed.
End opening.

(** What an open serves.  A successful open hands out one new handle and changes no
    other.  It opens the control file, the listing of the store, or something of a store
    path that is registered; when the daemon knows the digest of that store path, the
    extraction has answered.  A file handle is for a path that the manifest lists and does
    not list as a directory, with the size and mode recorded there.  A request for a store
    path that is not registered fails and changes nothing. *)
Theorem open_serves_registered `{FL : FsLimits, ABI : SyscallAbi, SPL : StorePathLib, IJ : InfoJson, MJ : ManifestJson,
    IOF : IoFaults, NC : NarCodec, SJ : StoreJson} polls p flags d r d' :
  let q := Str.trim_matches "/" p in
  openat polls p flags d = Some (r, d') →
  (∀ id, r = Ok id →
     handles (sd_handles d) !! id = None ∧
     (∃ h, handles (sd_handles d') = <[id := h]> (handles (sd_handles d)) ∧ handle_ok q flags d d' h) ∧
     ∀ resolved name sub, q ≠ ".control" → parse_scheme_path q = Returns (Ok resolved) →
       name_of resolved = Some (name, sub) → with_digest name d d') ∧
  (∀ resolved name sub, q ≠ ".control" → parse_scheme_path q = Returns (Ok resolved) →
     name_of resolved = Some (name, sub) → name ∉ registered_paths d → r = Err ENOENT ∧ d' = d).
Proof.
  intros q H. unfold openat, scheme_root, open_dir_unchecked, open_control in H. fold q in H. case_decide as Hq.
  { apply new_handle_inv in H as (id & -> & Hid & Hins & Hd'). split; [|done]. intros ? [= <-]. split; [done|]. split; [|done].
    eexists. split; [exact Hins|]. simpl. by rewrite Hd'. }
  destruct (parse_scheme_path q) as [[resolved|e]|] eqn:Hp; [|injection H as <- <-; done|done].
  destruct (name_of resolved) as [[name sub]|] eqn:Hn.
  - split.
    + intros id ->. apply open_resolved_run in H as (Hid & _ & Hdig & h & Hins & Hok); [|done..].
      split; [done|]. split; [by exists h|]. intros ??? _ [= <-]. rewrite Hn. by intros [= <- <-].
    + intros ??? _ [= <-]. rewrite Hn. intros [= <- <-] Hreg. unfold open_resolved, mbind, Req_bind, rq_get, rq_fail in H.
      rewrite bool_decide_eq_false_2 in H by done. by injection H as <- <-.
  - destruct resolved; [|done..]. apply new_handle_inv in H as (id & -> & Hid & Hins & Hd').
    split; [|intros ??? _ [= <-]; done]. intros ? [= <-]. split; [done|]. split; [|intros ??? _ [= <-]; done].
    eexists. split; [exact Hins|]. by left.
Qed.

(** C34. An open file is a snapshot.  The first read loads the file; from then on, whatever
    requests the daemon serves and however other programs change the disk, every read of
    the handle until it is closed answers from that same content. *)
Theorem reads_are_snapshots `{FL : FsLimits, ABI : SyscallAbi, SPL : StorePathLib, IJ : InfoJson, MJ : ManifestJson,
    IOF : IoFaults, NC : NarCodec, SJ : StoreJson} id len offset d x d0 :
  read id len offset d = Some (Ok x, d0) →
  ∃ c, x = slice c offset len ∧
    ∀ rqs d', RqClose id ∉ rqs → serve_all rqs d0 = Some d' →
      ∀ len' offset', ∃ d'', read id len' offset' d' = Some (Ok (slice c offset' len'), d'').
Proof.
  intros (c & Hx & Hh)%read_loads. exists c. split; [done|]. intros rqs d' Hn Hs len' offset'.
  apply read_holds. by eapply serve_all_holds.
Qed.

(** ** Examples *)
Module StoredDemo.
Definition name : string := ExtractDemo.name.
Definition rg : string := name +:+ "/bin/rg".

#[local] Existing Instance redox_abi.
#[local] Existing Instance ExtractDemo.codec.
#[local] Instance commands : StoreJson := {| parse_store_command _ := None |}.

Definition demo_manifest : list ManifestEntry :=
  [mkManifestEntry "bin" "dir" 0 false; mkManifestEntry "bin/rg" "file" 7 true; mkManifestEntry "etc/profile" "file" 4 false].

(** An extracted store path, and a host with a file of its own *)
Definition disk : fsys := mkFsys
  (<[Path.components "/etc/profile" := File "host" 420]>
  (<[Path.components ("/nix/store/" +:+ rg) := File "ripgrep" 0x16D]>
  (<[Path.components ("/nix/store/" +:+ name +:+ "/bin") := Dir 493]>
  (<[Path.components ("/nix/store/" +:+ name) := Dir 493]>
  (<[Path.components "/nix/store" := Dir 493]> (<[Path.components "/etc" := Dir 493]> (<[Path.components "/nix" := Dir 493]> ∅))))))) [].

Definition daemon : StoreDaemon :=
  mkStoreDaemon ∅ disk new_table ∅ default_config {[ name ]} ∅ {[ name := demo_manifest ]} (Some 3).

Lemma listing_agrees_witness :
  list_from_manifest name "" daemon
    = Some [mkManifestDirEntry "bin" true false 0 false; mkManifestDirEntry "etc" true false 0 false] ∧
  manifest_contains_path name (child_rel "" "etc") daemon = Some true.
Proof.
  assert (He : list_from_manifest name "" daemon
    = Some [mkManifestDirEntry "bin" true false 0 false; mkManifestDirEntry "etc" true false 0 false]) by by vm_compute.
  split; [exact He|].
  destruct (listing_agrees name "" daemon demo_manifest _ eq_refl eq_refl eq_refl He) as (_ & _ & H).
  apply (H "etc"); [by split|]. exists (mkManifestDirEntry "etc" true false 0 false). split; [right; by left|done].
Defined.

Definition opened := openat (λ _, ∅) ("/" +:+ rg) 0 daemon.

Lemma answered {A B} (m : option (A * B)) (a : A) (b : B) : fst <$> m = Some a → m = Some (a, default b (snd <$> m)).
Proof. destruct m as [[x y]|]; [|done]. by intros [= ->]. Qed.

Definition after : StoreDaemon := default daemon (snd <$> opened).

Lemma open_serves_registered_witness :
  ∃ h, handles (sd_handles after) = <[1 := h]> (handles (sd_handles daemon)) ∧ handle_ok rg 0 daemon after h.
Proof.
  assert (Hr : fst <$> opened = Some (Ok 1)) by (vm_compute; reflexivity).
  destruct (open_serves_registered (λ _, ∅) ("/" +:+ rg) 0 daemon (Ok 1) after (answered opened (Ok 1) daemon Hr)) as [H _].
  destruct (H 1 eq_refl) as (_ & Hh & _). exact Hh.
Defined.

(** The disk is emptied between two reads. *)
Definition first := read 1 3 0 after.
Definition after_first : StoreDaemon := default daemon (snd <$> first).

Lemma reads_are_snapshots_witness :
  ∃ c, slice c 0 3 = "rip" ∧
  ∃ d, read 1 10 3 (with_fs (mkFsys ∅ []) (extracting after_first) after_first) = Some (Ok (slice c 3 10), d).
Proof.
  assert (Hr : fst <$> first = Some (Ok "rip")) by (vm_compute; reflexivity).
  destruct (reads_are_snapshots 1 3 0 after "rip" after_first (answered first (Ok "rip") daemon Hr)) as (c & Hc & H).
  exists c. split; [by symmetry|].
  apply (H [RqDisk (mkFsys ∅ [])]); [|reflexivity]. by intros ?%list_elem_of_singleton.
Defined.

(** A double slash, and the path of a file the package has: the host's file is served. *)
Lemma double_slash_serves_host_file :
  (let d := default daemon (snd <$> openat (λ _, ∅) (name +:+ "//etc/profile") 0 daemon) in
   fst <$> read 1 10 0 d) = Some (Ok "host").
Proof. vm_compute. reflexivity. Qed.

End StoredDemo.
