(* ===== verification/CacheSource.v ===== *)
(** * Binary caches ([cache_source.rs], [local_cache.rs])

    Where packages come from: a directory or a server, with an index of packages, a
    metadata file per store path and the archives.  What the server answers to a URL is a
    parameter, the same during a command. *)

From S2P Require Import Prelude RustStd FileSys PathInfo NarExtract StoreExtract.

Open Scope Z_scope.

Inductive CacheSource : Type :=
  | Local (cache_dir : path)
  | Remote (url : string).

Record PackageEntry : Type := mkPackageEntry {
  en_store_path : string;
  en_pname : string;
  en_version : string;
  en_nar_hash : option string;
  en_nar_size : option Z;
  en_file_size : option Z;
}.

Record PackageIndex : Type := mkPackageIndex {
  ix_version : Z;
  ix_packages : gmap string PackageEntry;
}.

(** What the code reads of a parsed [NarInfo]: the digest in hexadecimal, the references
    and the deriver as absolute paths *)
Record NarInfo : Type := mkNarInfo {
  ni_url : string;
  ni_compression : option string;
  ni_nar_hash : string;
  ni_nar_size : Z;
  ni_references : list string;
  ni_signatures : list string;
  ni_deriver : option string;
}.

Inductive CacheError : Type :=
  | CacheIo (p : path) (e : io_error)
  | CacheText (p : path)
  | HttpError (url what : string)
  | BadIndex
  | BadNarInfo
  | BadStorePath (p : string)
  | Decompression (what : string)
  | UnsupportedCompression (name : string).

Class CacheLib : Type := {
  parse_narinfo : string → option NarInfo;
  parse_index : string → option PackageIndex;
  http_get_text : string → result string string;
  http_get_lazy : string → result string string;
}.

Definition DEFAULT_CACHE_PATH : string := "/nix/cache".

(** [CacheSource::from_args], [CacheSource::detect] *)
Definition from_args (cache_url cache_dir : option string) : CacheSource :=
  match cache_url, cache_dir with
  | Some url, _ => Remote (Str.trim_end_matches "/" url)
  | None, Some p => Local (Path.components p)
  | None, None => Local (Path.components DEFAULT_CACHE_PATH)
  end.

Definition detect (source : string) : CacheSource :=
  if Str.starts_with "http://" source || Str.starts_with "https://" source
  then Remote (Str.trim_end_matches "/" source)
  else Local (Path.components source).

Section cache.
Context `{FL : FsLimits, SPL : StorePathLib, NC : NarCodec, CL : CacheLib}.
Implicit Types (t : tree) (source : CacheSource).

Definition read_to_string t (p : path) : result CacheError string :=
  match read_file t p with
  | Err e => Err (CacheIo p e)
  | Ok text => if Str.utf8_valid text then Ok text else Err (CacheText p)
  end.

Definition get_text (url : string) : result CacheError string :=
  match http_get_text url with Ok body => Ok body | Err what => Err (HttpError url what) end.

Definition read_index t source : result CacheError PackageIndex :=
  body ← match source with
         | Local dir => read_to_string t (Path.join dir [Normal "packages.json"])
         | Remote url => get_text (url +:+ "/packages.json")
         end;
  ok_or BadIndex (parse_index body).

Definition fetch_narinfo t source (store_path : string) : result CacheError NarInfo :=
  hash ← ok_or (BadStorePath store_path) (sp_hash store_path);
  body ← match source with
         | Local dir => read_to_string t (Path.join dir (Path.components (hash +:+ ".narinfo")))
         | Remote url => get_text (url +:+ "/" +:+ hash +:+ ".narinfo")
         end;
  ok_or BadNarInfo (parse_narinfo body).

(** The bytes of the archive as they are in the cache *)
Definition open_cache_nar t source (narinfo : NarInfo) : result CacheError string :=
  match source with
  | Local dir =>
      let nar_path := Path.join dir (Path.components (ni_url narinfo)) in
      match read_file t nar_path with Ok file => Ok file | Err e => Err (CacheIo nar_path e) end
  | Remote url =>
      let nar_url := url +:+ "/" +:+ ni_url narinfo in
      match http_get_lazy nar_url with Ok body => Ok body | Err what => Err (HttpError nar_url what) end
  end.

Definition open_nar_decompressed t source (narinfo : NarInfo) : result CacheError stream :=
  reader ← open_cache_nar t source narinfo;
  match ni_compression narinfo with
  | None => Ok (plain_stream reader)
  | Some name =>
      if decide (name = "none") then Ok (plain_stream reader)
      else if decide (name = "zstd" ∨ name = "zst") then ok_or (Decompression "zstd") (zstd_stream reader)
      else if decide (name = "xz") then ok_or (Decompression "xz") (xz_decompress reader)
      else if decide (name = "bzip2" ∨ name = "bz2") then Ok (bz2_stream reader)
      else Err (UnsupportedCompression name)
  end.

End cache.
