(* ===== verification/Install.v ===== *)
(** * Installing packages ([install.rs], [store.rs])

    A package is fetched from a cache, unpacked into the store, verified and registered;
    a GC root protects it, links in the profile's [bin] show it, and the profile's
    manifest records it.  The scheme daemons are told when they run; what they do with the
    message is [Profiles] and [Stored].  Messages to the user are not modelled. *)

From S2P Require Import Prelude RustStd FileSys Nar PathInfo Store NarExtract StoreExtract CacheSource.

Open Scope Z_scope.

Record InstalledPackage : Type := mkInstalledPackage {
  ip_name : string;
  ip_pname : string;
  ip_version : string;
  ip_store_path : string;
  ip_binaries : list string;
}.

Record ProfileManifest : Type := mkProfileManifest {
  mf_version : Z;
  mf_packages : gmap string InstalledPackage;
}.

Class InstallJson : Type := {
  manifest_print : ProfileManifest → string;
  manifest_parse : string → option ProfileManifest;
}.

Inductive InstallError : Type :=
  | FromCache (e : CacheError)
  | FromStore (e : StoreError)
  | InstallIo (e : io_error)
  | PackageNotFound (name : string)
  | NotInstalled (name : string)
  | NarHashMismatch (expected actual : string).

(** A command written to a daemon's control file *)
Inductive message : Type :=
  | ProfiledAdd (name store_path : string) (files : list ManifestEntry)
  | ProfiledRemove (name : string)
  | StoredNotify (store_path nar_hash : string) (files : list ManifestEntry).

(** The disk, the database, the GC roots, the messages sent *)
Record installation : Type := mkInstallation {
  in_fs : fsys;
  in_db : directory;
  in_roots : gmap string root_entry;
  in_sent : list message;
}.

(** Whether the daemons run, and whether the profile daemon takes a command *)
Class Daemons : Type := {
  stored_is_running : bool;
  profiled_is_running : bool;
  profiled_write : message → result io_error unit;
}.

Definition I (A : Type) : Type := SR installation InstallError A.
#[export] Instance I_ret : MRet I := SR_ret installation InstallError.
#[export] Instance I_bind : MBind I := SR_bind installation InstallError.

Definition STORE_DIR : string := "/nix/store".
Definition PROFILE_DIR : string := "/nix/var/snix/profiles/default".
Definition PROFILE_BIN : string := "/nix/var/snix/profiles/default/bin".
Definition PROFILE_MANIFEST : string := "/nix/var/snix/profiles/default/manifest.json".

(** Calls on the parts of the state *)
Definition on_fs {A} (m : F A) : I A := λ s,
  let '(r, fs) := m (in_fs s) in
  (match r with Ok a => Ok a | Err e => Err (InstallIo e) end,
   mkInstallation fs (in_db s) (in_roots s) (in_sent s)).

Definition on_db {A} (m : directory → result PathInfoError A * directory) : I A := λ s,
  let '(r, db) := m (in_db s) in
  (match r with Ok a => Ok a | Err e => Err (FromStore (DbError e)) end,
   mkInstallation (in_fs s) db (in_roots s) (in_sent s)).

Definition on_roots {A} (m : gmap string root_entry → result StoreError A * gmap string root_entry) : I A := λ s,
  let '(r, roots) := m (in_roots s) in
  (match r with Ok a => Ok a | Err e => Err (FromStore e) end,
   mkInstallation (in_fs s) (in_db s) roots (in_sent s)).

Definition send (m : message) : I unit := λ s,
  (Ok tt, mkInstallation (in_fs s) (in_db s) (in_roots s) (in_sent s ++ [m])).

Definition get_state : I installation := λ s, (Ok s, s).
Definition from_cache {A} (r : result CacheError A) : I A := λ s,
  (match r with Ok a => Ok a | Err e => Err (FromCache e) end, s).
Definition throw {A} (e : InstallError) : I A := λ s, (Err e, s).

Section install.
Context `{FL : FsLimits, SPL : StorePathLib, IJ : InfoJson, MJ : ManifestJson, IOF : IoFaults, NC : NarCodec,
  CL : CacheLib, PJ : InstallJson, DM : Daemons}.
Context (now : string).

Definition exists_path (p : string) : I bool := λ s, (Ok (path_exists (fs_tree (in_fs s)) (Path.components p)), s).

(** ** The profile's manifest *)
Definition load_profile_manifest (t : tree) : ProfileManifest :=
  match read_to_string t (Path.components PROFILE_MANIFEST) with
  | Ok content => default (mkProfileManifest 0 ∅) (manifest_parse content)
  | Err _ => mkProfileManifest 1 ∅
  end.

Definition save_profile_manifest (m : ProfileManifest) : I unit :=
  on_fs (create_dir_all (Path.components PROFILE_DIR)) ;;
  on_fs (write_file (Path.components PROFILE_MANIFEST) (manifest_print m)).

(** ** Registration *)
Definition register_path_with_files (store_path nar_hash : string) (nar_size : Z) (refs sigs : list string)
    (files : list ManifestEntry) : I unit :=
  on_db (λ db, register db (mkPathInfo store_path nar_hash nar_size refs None now sigs files)).

Definition register_path (store_path nar_hash : string) (nar_size : Z) (refs sigs : list string) : I unit :=
  register_path_with_files store_path nar_hash nar_size refs sigs [].

Definition register_without_extract (store_path : string) (source : CacheSource) : I unit :=
  s ← get_state;
  narinfo ← from_cache (fetch_narinfo (fs_tree (in_fs s)) source store_path);
  register_path store_path (ni_nar_hash narinfo) (ni_nar_size narinfo) (ni_references narinfo) (ni_signatures narinfo).

Definition ensure_store_dir : I unit :=
  here ← exists_path STORE_DIR;
  if here : bool then mret tt else on_fs (create_dir_all (Path.components STORE_DIR)).

(** [fetch_and_extract]; the absolute path of a parsed store path is the path itself *)
Definition fetch_and_extract (store_path : string) (source : CacheSource) : I unit :=
  match sp_hash store_path with
  | None => throw (FromCache (BadStorePath store_path))
  | Some _ =>
      here ← exists_path store_path;
      if here : bool then mret tt
      else
        ensure_store_dir ;;
        s ← get_state;
        narinfo ← from_cache (fetch_narinfo (fs_tree (in_fs s)) source store_path);
        st ← from_cache (open_nar_decompressed (fs_tree (in_fs s)) source narinfo);
        manifest ← on_fs (extract_with_manifest (open_nar st) store_path);
        if decide (ni_nar_hash narinfo = read_hash st) then
          register_path_with_files store_path (ni_nar_hash narinfo) (ni_nar_size narinfo)
            (ni_references narinfo) (ni_signatures narinfo) manifest
        else
          on_fs (ignore (remove_dir_all (Path.components store_path))) ;;
          throw (NarHashMismatch (ni_nar_hash narinfo) (read_hash st))
  end.

(** ** Links *)
Definition bin_link (name : string) : path := Path.join (Path.components PROFILE_BIN) [Normal name].

Fixpoint link_names (pkg_bin : path) (names : list string) : F unit :=
  match names with
  | [] => mret tt
  | name :: names' =>
      t ← get_tree;
      (if is_symlink t (bin_link name) then remove_file (bin_link name) else mret tt) ;;
      symlink (Path.to_string (Path.join pkg_bin [Normal name])) (bin_link name) ;;
      link_names pkg_bin names'
  end.

(** [link_package_binaries]; the names are sorted at the end *)
Definition link_package_binaries (store_path : string) : F (list string) :=
  create_dir_all (Path.components PROFILE_BIN) ;;
  t ← get_tree;
  let bin_dir := Path.join (Path.components store_path) [Normal "bin"] in
  if is_dir t bin_dir then
    es ← lift (read_dir t bin_dir);
    link_names bin_dir (fst <$> es) ;;
    mret (merge_sort String.le (fst <$> es))
  else mret [].

Definition list_binaries (t : tree) (bin_dir : path) : result io_error (list string) :=
  if is_dir t bin_dir then es ← read_dir t bin_dir; Ok (merge_sort String.le (fst <$> es)) else Ok [].

(** ** Commands *)
Definition root_name (name : string) : string := "profile-" +:+ name.

(** The files of a registered path, as far as the database answers *)
Definition registered_info (store_path : string) : I (option PathInfo) := λ s,
  (Ok (match get (in_db s) store_path with Ok (Some info) => Some info | _ => None end), s).

(** [profiled_add] and [profiled_remove]: a message, or the error of the write *)
Definition tell_profiled (m : message) : I (result io_error unit) :=
  match profiled_write m with
  | Ok _ => send m ;; mret (Ok tt)
  | Err e => mret (Err e)
  end.

Definition profile_binaries (name store_path : string) : I (list string) :=
  if profiled_is_running then
    info ← registered_info store_path;
    sent ← tell_profiled (ProfiledAdd name store_path (match info with Some i => files i | None => [] end));
    match sent with
    | Ok _ =>
        s ← get_state;
        mret (match list_binaries (fs_tree (in_fs s)) (Path.join (Path.components store_path) [Normal "bin"]) with
              | Ok l => l
              | Err _ => []
              end)
    | Err _ => on_fs (link_package_binaries store_path)
    end
  else on_fs (link_package_binaries store_path).

Definition obtain (store_path : string) (source : CacheSource) (lazy : bool) : I unit :=
  here ← exists_path store_path;
  if here : bool then mret tt
  else if lazy && stored_is_running then register_without_extract store_path source
  else fetch_and_extract store_path source.

Definition installed_package (name : string) (entry : PackageEntry) (binaries : list string) : InstalledPackage :=
  mkInstalledPackage name (en_pname entry) (en_version entry) (en_store_path entry) binaries.

Definition add_to_manifest (name : string) (entry : PackageEntry) (binaries : list string) (m : ProfileManifest)
    : ProfileManifest :=
  mkProfileManifest (mf_version m) (<[name := installed_package name entry binaries]> (mf_packages m)).

Definition notify_stored (store_path : string) : I unit :=
  if stored_is_running then
    info ← registered_info store_path;
    match info with
    | Some i => send (StoredNotify store_path (nar_hash i) (files i))
    | None => mret tt
    end
  else mret tt.

Definition find_package (name : string) (source : CacheSource) : I PackageEntry :=
  s ← get_state;
  index ← from_cache (read_index (fs_tree (in_fs s)) source);
  match ix_packages index !! name with
  | Some entry => mret entry
  | None => throw (PackageNotFound name)
  end.

Definition install_with_options (name : string) (source : CacheSource) (lazy : bool) : I unit :=
  entry ← find_package name source;
  s ← get_state;
  let manifest := load_profile_manifest (fs_tree (in_fs s)) in
  match mf_packages manifest !! name with
  | Some _ => mret tt
  | None =>
      obtain (en_store_path entry) source lazy ;;
      notify_stored (en_store_path entry) ;;
      on_roots (λ roots, add_root roots (root_name name) (en_store_path entry)) ;;
      binaries ← profile_binaries name (en_store_path entry);
      save_profile_manifest (add_to_manifest name entry binaries manifest)
  end.

Definition install (name : string) (source : CacheSource) : I unit := install_with_options name source false.

(** [remove] *)
Fixpoint unlink_names (names : list string) : F unit :=
  match names with
  | [] => mret tt
  | name :: names' =>
      let link_path := Path.join (Path.components PROFILE_BIN) (Path.components name) in
      t ← get_tree;
      (if is_symlink t link_path then remove_file link_path else mret tt) ;;
      unlink_names names'
  end.

Definition remove (name : string) : I unit :=
  s ← get_state;
  let manifest := load_profile_manifest (fs_tree (in_fs s)) in
  match mf_packages manifest !! name with
  | None => throw (NotInstalled name)
  | Some pkg =>
      (if profiled_is_running then
         sent ← tell_profiled (ProfiledRemove name);
         match sent with Ok _ => mret tt | Err _ => on_fs (unlink_names (ip_binaries pkg)) end
       else on_fs (unlink_names (ip_binaries pkg))) ;;
      sr_warn (on_roots (λ roots, remove_root roots (root_name name))) ;;
      save_profile_manifest (mkProfileManifest (mf_version manifest) (base.delete name (mf_packages manifest)))
  end.

(** ** With dependencies *)

(** One path of the queue: the references to follow *)
Definition visit_path (source : CacheSource) (p : string) : I (list string) :=
  already_present ← exists_path p;
  s ← get_state;
  let already_registered := is_registered (in_db s) p in
  if already_present && already_registered then
    match get (in_db s) p with
    | Ok (Some info) => mret (references info)
    | Ok None => mret []
    | Err e => throw (FromStore (DbError e))
    end
  else
    narinfo ← from_cache (fetch_narinfo (fs_tree (in_fs s)) source p);
    (if negb already_present then fetch_and_extract p source
     else register_path p (ni_nar_hash narinfo) (ni_nar_size narinfo) (ni_references narinfo) (ni_signatures narinfo)) ;;
    mret (ni_references narinfo).

(** The loop over the queue; [None] when the fuel runs out *)
Fixpoint fetch_loop (fuel : nat) (source : CacheSource) (visited : gset string) (queue : list string) (s : installation)
    : option (result InstallError (gset string) * installation) :=
  match fuel with
  | O => None
  | S fuel' =>
      match queue with
      | [] => Some (Ok visited, s)
      | p :: queue' =>
          if decide (p ∈ visited) then fetch_loop fuel' source visited queue' s
          else
            let visited := {[p]} ∪ visited in
            match visit_path source p s with
            | (Ok refs, s') => fetch_loop fuel' source visited (queue' ++ filter (λ r, r ∉ visited) refs) s'
            | (Err e, s') => Some (Err e, s')
            end
      end
  end.

Definition link_installed (name : string) (entry : PackageEntry) : I unit :=
  s ← get_state;
  let manifest := load_profile_manifest (fs_tree (in_fs s)) in
  match mf_packages manifest !! name with
  | Some _ => mret tt
  | None =>
      binaries ← on_fs (link_package_binaries (en_store_path entry));
      save_profile_manifest (add_to_manifest name entry binaries manifest) ;;
      on_roots (λ roots, add_root roots (root_name name) (en_store_path entry))
  end.

Definition install_recursive (fuel : nat) (name : string) (source : CacheSource) (s : installation)
    : option (result InstallError unit * installation) :=
  match find_package name source s with
  | (Err e, s') => Some (Err e, s')
  | (Ok entry, s') =>
      match fetch_loop fuel source ∅ [en_store_path entry] s' with
      | None => None
      | Some (Err e, s'') => Some (Err e, s'')
      | Some (Ok _, s'') => Some (link_installed name entry s'')
      end
  end.

End install.
