(* ===== verification/InstallFacts.v ===== *)
(** * What an installation leaves

    Fetched content is verified and registered; the loop over the dependencies ends, and
    what it leaves in the database is closed under references, so that the root it adds
    protects the package and everything it needs. *)

From S2P Require Import Prelude RustStd FileSys FileSysFacts Nar PathInfo Store Instances ManifestInstances NarExtract NarFacts StoreResolve StoreExtract CacheSource Install.

Open Scope Z_scope.

(** ** Making directories leaves what can be read *)
Section grows.
Context `{FL : FsLimits}.

Lemma walk_grows fuel t t' follow cur todo q :
  t ⊆ t' → walk fuel t follow cur todo = Ok q → is_Some (node_at t q) → walk fuel t' follow cur todo = Ok q.
Proof.
  intros Ht. revert cur todo. induction fuel as [|fuel IHf]; intros cur todo; revert cur;
    (induction todo as [|[| | |n] todo IH]; intros cur; [done|apply IH|apply IH|apply IH|]);
    rewrite !walk_normal; cbv zeta; intros Hw Hq.
  all: destruct (t !! (cur ++ [Normal n])) as [[c m|l|m]|] eqn:E.
  all: try (rewrite (lookup_weaken _ _ _ _ E Ht)).
  all: try done.
  all: try (by apply IH).
  all: try (destruct (bool_decide _ && _); [done|]; try done; by apply IHf).
  all: case_decide; [|done]; injection Hw as <-; destruct Hq as [x Hx];
    unfold node_at in Hx; case_decide as Hr; [by destruct (tmp_not_root cur n)|congruence].
Qed.

Lemma read_file_grows t t' p c : t ⊆ t' → read_file t p = Ok c → read_file t' p = Ok c.
Proof.
  intros Ht. unfold read_file, resolve. destruct (fs_fault OpRead p); [done|]. case_decide; [done|].
  destruct (walk _ t true _ p) as [q|] eqn:E; [|done]. simpl. destruct (node_at t q) as [x|] eqn:Ex; [|done].
  rewrite (walk_grows _ _ _ _ _ _ _ Ht E) by by exists x. simpl. unfold node_at in *. case_decide; [by injection Ex as <-|].
  by rewrite (lookup_weaken _ _ _ _ Ex Ht).
Qed.

Definition grows {A} (m : F A) : Prop := ∀ s r s', m s = (r, s') → fs_tree s ⊆ fs_tree s'.

Lemma grows_catch {A} (m : F A) h : grows m → (∀ e, grows (h e)) → grows (catch m h).
Proof.
  intros Hm Hh s r s'. unfold catch. destruct (m s) as [[a|e] s1] eqn:E; [intros [= _ <-]; by eapply Hm|].
  intros H%Hh. by etrans; [eapply Hm|].
Qed.

Lemma grows_bind {A B} (m : F A) (f : A → F B) : grows m → (∀ a, grows (f a)) → grows (m ≫= f).
Proof.
  intros Hm Hf s r s' H. unfold mbind, F_bind, SR_bind in H. destruct (m s) as [[a|e] s1] eqn:E.
  - etrans; [by eapply Hm|by eapply Hf].
  - injection H as _ <-. by eapply Hm.
Qed.

Lemma grows_mkdir p : grows (mkdir p).
Proof.
  intros s r s' H. unfold mkdir, check_fault in H. destruct (fs_fault _ _); [by injection H as _ <-|].
  fs_start H. destruct (resolve _ _ _) as [q|]; [|by injection H as _ <-].
  destruct (node_at _ q) eqn:E; [by injection H as _ <-|]. injection H as _ <-. apply insert_subseteq.
  unfold node_at in E. by case_decide.
Qed.

Lemma grows_mkdir_or_dir p e : grows (mkdir_or_dir p e).
Proof. intros s r s' H. unfold mkdir_or_dir in H. fs_start H. by destruct (is_dir _ _); injection H as _ <-. Qed.

Lemma grows_create_dir_all p : grows (create_dir_all p).
Proof.
  unfold create_dir_all. generalize (length p) as n. intros n. revert p.
  induction n as [|n IH]; intros p; cbn [create_dir_all_loop]; (case_decide; [by intros s r s' [= _ <-]|]);
    (apply grows_catch; [apply grows_mkdir|intros e]); (case_decide; [|apply grows_mkdir_or_dir]).
  - by intros s r s' [= _ <-].
  - destruct (Path.parent p) as [q|]; [|by intros s r s' [= _ <-]].
    apply grows_bind; [apply IH|]. intros _. apply grows_catch; [apply grows_mkdir|apply grows_mkdir_or_dir].
Qed.
End grows.

Section facts.
Context `{FL : FsLimits, SPL : StorePathLib, IJ : InfoJson, MJ : ManifestJson, IOF : IoFaults, NC : NarCodec,
  CL : CacheLib, PJ : InstallJson}.
Implicit Types (s : installation).

(** nix-compat's digest names the store path. *)
Definition hash_names_path : Prop := ∀ p q h, sp_hash p = Some h → sp_hash q = Some h → p = q.

Lemma info_file_inj p q file : hash_names_path → info_file p = Ok file → info_file q = Ok file → p = q.
Proof.
  intros Hinj. unfold info_file, store_path_hash. destruct (sp_hash p) eqn:Ep, (sp_hash q) eqn:Eq; try done.
  simpl. intros [= <-] [= Hf]. apply Str.app_inj_r in Hf as ->. by eapply Hinj.
Qed.

(** ** Registering *)
Lemma register_ok db info db' :
  register db info = (Ok tt, db') →
  get db' (store_path info) = Ok (Some info)
  ∧ (hash_names_path → ∀ q, q ≠ store_path info → get db' q = get db q)
  ∧ (db_wf db → db_wf db').
Proof.
  intros H. pose proof H as H0. unfold register, fs_write in H.
  destruct (info_file (store_path info)) as [file|] eqn:Ef; [|done].
  destruct (write_faults file) as [[]|] eqn:Ew; [done..|]. injection H as <-. split_and!.
  - unfold get. rewrite Ef. simpl. rewrite lookup_insert_eq. by rewrite info_json_roundtrip.
  - intros Hinj q Hq. unfold get. destruct (info_file q) as [file'|] eqn:Eq; [|done]. simpl.
    rewrite lookup_insert_ne; [done|]. intros <-. apply Hq. by eapply info_file_inj.
  - intros Hwf name content i Hd Hn Hj. apply lookup_insert_Some in Hd as [[<- Hc]|[_ Hd]]; [|by eapply Hwf].
    injection Hc as <-. rewrite info_json_roundtrip in Hj. by injection Hj as <-.
Qed.

Context (now : string) (source : CacheSource).

(** What registering [p] with the references [refs] does to the database *)
Definition registers (p : string) (refs : list string) (db db' : directory) : Prop :=
  (∃ info, get db' p = Ok (Some info) ∧ references info = refs)
  ∧ (hash_names_path → ∀ q, q ≠ p → get db' q = get db q) ∧ (db_wf db → db_wf db').

Lemma register_path_run p h sz refs sigs fl s s' :
  register_path_with_files now p h sz refs sigs fl s = (Ok tt, s') →
  registers p refs (in_db s) (in_db s') ∧ in_roots s' = in_roots s ∧ in_fs s' = in_fs s
  ∧ get (in_db s') p = Ok (Some (mkPathInfo p h sz refs None now sigs fl)).
Proof.
  unfold register_path_with_files, on_db. destruct (register _ _) as [[[]|e] db] eqn:E; [|done]. intros [= <-].
  apply register_ok in E as (Hg & Ho & Hwf). simpl in *. split; [|done]. split; [|done].
  by eexists.
Qed.

Lemma exists_path_run p s r s' :
  exists_path p s = (r, s') → s' = s ∧ r = Ok (path_exists (fs_tree (in_fs s)) (Path.components p)).
Proof. by intros [= <- <-]. Qed.

Lemma on_fs_run {A} (m : F A) s r s' :
  on_fs m s = (r, s') →
  in_db s' = in_db s ∧ in_roots s' = in_roots s ∧ in_sent s' = in_sent s
  ∧ ∃ r0, m (in_fs s) = (r0, in_fs s') ∧ match r0 with Ok a => r = Ok a | Err e => r = Err (InstallIo e) end.
Proof.
  unfold on_fs. destruct (m (in_fs s)) as [[a|e] fs]; intros [= <- <-]; (split_and!; [done..|]); by eexists.
Qed.

Lemma ensure_store_dir_run s r s' :
  ensure_store_dir s = (r, s') →
  in_db s' = in_db s ∧ in_roots s' = in_roots s
  ∧ (s' = s ∨ ∃ r0, create_dir_all (Path.components STORE_DIR) (in_fs s) = (r0, in_fs s')).
Proof.
  unfold ensure_store_dir, exists_path, mbind, I_bind, SR_bind. destruct (path_exists _ _).
  - intros [= <- <-]. split_and!; try done. by left.
  - intros (H1 & H2 & _ & r0 & H3 & _)%on_fs_run. split_and!; [done..|]. right. by exists r0.
Qed.

(** *** [fetch_and_extract] step by step *)
Lemma from_cache_inv {A} (r : result CacheError A) s x s' :
  from_cache r s = (x, s') → s' = s ∧ match r with Ok a => x = Ok a | Err e => x = Err (FromCache e) end.
Proof. by destruct r; intros [= <- <-]. Qed.

Lemma fetch_ok p s s' :
  path_exists (fs_tree (in_fs s)) (Path.components p) = false →
  fetch_and_extract now p source s = (Ok tt, s') →
  ∃ s1 ni st m,
    ensure_store_dir s = (Ok tt, s1)
    ∧ fetch_narinfo (fs_tree (in_fs s1)) source p = Ok ni
    ∧ open_nar_decompressed (fs_tree (in_fs s1)) source ni = Ok st
    ∧ extract_with_manifest (open_nar st) p (in_fs s1) = (Ok m, in_fs s')
    ∧ ni_nar_hash ni = read_hash st
    ∧ registers p (ni_references ni) (in_db s) (in_db s') ∧ in_roots s' = in_roots s
    ∧ get (in_db s') p = Ok (Some (mkPathInfo p (ni_nar_hash ni) (ni_nar_size ni) (ni_references ni) None now (ni_signatures ni) m)).
Proof.
  intros Hx H. unfold fetch_and_extract in H. destruct (sp_hash p); [|done].
  unfold mbind, I_bind, SR_bind, throw, exists_path, get_state in H. rewrite Hx in H.
  destruct (ensure_store_dir s) as [[[]|e] s1] eqn:E1; [|done]. simpl in H.
  pose proof E1 as (Hd & Hro & _)%ensure_store_dir_run.
  destruct (fetch_narinfo _ source p) as [ni|] eqn:E2; [|done]. simpl in H.
  destruct (open_nar_decompressed _ source ni) as [st|] eqn:E3; [|done]. simpl in H.
  destruct (on_fs _ s1) as [[m|e] s2] eqn:E4; [|done].
  apply on_fs_run in E4 as (Hd2 & Hro2 & _ & r0 & E4 & Hr0). destruct r0 as [m'|]; [|done]. injection Hr0 as ->.
  case_decide as Hh.
  - apply register_path_run in H as (Hreg & Hro3 & Hfs & Hg). exists s1, ni, st, m'.
    rewrite Hfs, E4. split_and!; try done; [|congruence]. by rewrite <- Hd, <- Hd2.
  - destruct (on_fs _ s2) as [[]]; done.
Qed.

(** ** The loop over the dependencies *)
Section loop.
Context (Hinj : hash_names_path).
Implicit Types (db : directory).

(** One round of the loop *)
Definition visits s s' : Prop := ∃ p refs, visit_path now source p s = (Ok refs, s').

(** The record is what the cache's metadata says, as the loop reads it. *)
Definition says (info : PathInfo) (ni : NarInfo) : Prop :=
  nar_hash info = ni_nar_hash ni ∧ nar_size info = ni_nar_size ni
  ∧ references info = ni_references ni ∧ signatures info = ni_signatures ni.

Definition announced (s : installation) (p : string) (info : PathInfo) : Prop :=
  ∃ s1 ni, rtc visits s s1 ∧ fetch_narinfo (fs_tree (in_fs s1)) source p = Ok ni ∧ says info ni.

(** The metadata that is read before the directory of the store is made is there after. *)
Lemma narinfo_again s s1 p ni :
  ensure_store_dir s = (Ok tt, s1) → fetch_narinfo (fs_tree (in_fs s)) source p = Ok ni →
  fetch_narinfo (fs_tree (in_fs s1)) source p = Ok ni.
Proof using All.
  intros (_ & _ & [->|[r0 Hr]])%ensure_store_dir_run; [done|]. apply grows_create_dir_all in Hr.
  unfold fetch_narinfo. destruct (sp_hash p) as [h|]; [|done]. simpl. destruct source as [dir|url]; [|done].
  unfold CacheSource.read_to_string. destruct (read_file _ _) as [c|] eqn:E; [|done].
  by rewrite (read_file_grows _ _ _ _ Hr E).
Qed.

Lemma visit_ok p s refs s' :
  visit_path now source p s = (Ok refs, s') →
  ∃ info, get (in_db s') p = Ok (Some info) ∧ references info = refs
    ∧ registers p refs (in_db s) (in_db s') ∧ in_roots s' = in_roots s
    ∧ (get (in_db s) p = Ok (Some info)
       ∨ ∃ ni, fetch_narinfo (fs_tree (in_fs s)) source p = Ok ni ∧ says info ni).
Proof using All.
  unfold visit_path, throw. unfold mbind at 1, I_bind at 1, SR_bind at 1. unfold exists_path at 1.
  unfold mbind at 1, I_bind at 1, SR_bind at 1. unfold get_state at 1.
  destruct (path_exists _ _) eqn:Hx; destruct (is_registered (in_db s) p) eqn:Hreg; cbn [andb negb].
  { unfold is_registered in Hreg. pose proof (eq_refl (get (in_db s) p)) as Hg. unfold get at 2 in Hg.
    destruct (info_file p) as [file|]; [|done]. apply bool_decide_eq_true in Hreg as [f Hf]. simpl in Hg. rewrite Hf in Hg.
    destruct (get (in_db s) p) as [[info|]|e] eqn:Eg; [|by destruct f as [c|]; [destruct (info_from_json c)|]|done].
    intros [= <- <-]. exists info. split_and!; [done|done| |done|by left].
    split; [by exists info|]. by split. }
  all: unfold mbind at 1, I_bind at 1, SR_bind at 1;
    destruct (from_cache _ s) as [[ni|e] s1] eqn:E1; [|done]; apply from_cache_inv in E1 as [-> E1];
    destruct (fetch_narinfo _ source p) as [ni'|] eqn:En; [|done]; injection E1 as ->;
    unfold mbind, I_bind, SR_bind.
  - unfold register_path. destruct (register_path_with_files _ _ _ _ _ _ _ s) as [[[]|] s2] eqn:E2; [|done].
    intros [= <- <-]. apply register_path_run in E2 as (Hr & Hro & _ & Hg). eexists. split_and!; [exact Hg|done..|].
    right. exists ni'. done.
  - destruct (fetch_and_extract _ _ _ s) as [[[]|] s2] eqn:E2; [|done]. intros [= <- <-].
    apply fetch_ok in E2 as (s1 & ni & st & m & Hd & Hn & _ & _ & _ & Hr & Hro & Hg); [|done].
    rewrite (narinfo_again _ _ _ _ Hd En) in Hn. injection Hn as <-. eexists. split_and!; [exact Hg|done..|].
    right. exists ni'. done.
  - destruct (fetch_and_extract _ _ _ s) as [[[]|] s2] eqn:E2; [|done]. intros [= <- <-].
    apply fetch_ok in E2 as (s1 & ni & st & m & Hd & Hn & _ & _ & _ & Hr & Hro & Hg); [|done].
    rewrite (narinfo_again _ _ _ _ Hd En) in Hn. injection Hn as <-. eexists. split_and!; [exact Hg|done..|].
    right. exists ni'. done.
Qed.

(** What the loop maintains, from [s0] on: a visited path is registered as it was or as the
    cache says, and its references are visited or still in the queue; the record of another
    path is what it was. *)
Context (s0 : installation).

Definition closing (visited : gset string) (queue : list string) (db : directory) : Prop :=
  ∀ p, p ∈ visited → ∃ info, get db p = Ok (Some info)
    ∧ (get (in_db s0) p = Ok (Some info) ∨ announced s0 p info)
    ∧ ∀ r, r ∈ references info → r ∈ visited ∨ r ∈ queue.

Record looping (visited : gset string) (queue : list string) (s : installation) : Prop := mkLooping {
  lp_closing : closing visited queue (in_db s);
  lp_others : ∀ q, q ∉ visited → get (in_db s) q = get (in_db s0) q;
  lp_steps : rtc visits s0 s;
  lp_roots : in_roots s = in_roots s0;
  lp_wf : db_wf (in_db s0) → db_wf (in_db s);
}.

Lemma looping_start queue : looping ∅ queue s0.
Proof using. by split. Qed.

Lemma looping_skip visited p queue s : p ∈ visited → looping visited (p :: queue) s → looping visited queue s.
Proof using.
  intros Hp [Hc]. split; try done. intros q Hq. destruct (Hc q Hq) as (info & Hi & Ho & Hr). exists info.
  split_and!; [done|done|]. intros r Hin. destruct (Hr r Hin) as [?|[->|?]%elem_of_cons]; auto.
Qed.

Lemma looping_visit visited queue p refs s s' :
  p ∉ visited → visit_path now source p s = (Ok refs, s') → looping visited (p :: queue) s →
  looping ({[p]} ∪ visited) (queue ++ filter (λ r, r ∉ {[p]} ∪ visited) refs) s'.
Proof using All.
  intros Hp Hv [Hc Ho Hs Hro Hwf]. pose proof Hv as (info & Hg & <- & (_ & Hfr & Hwf') & Hro' & Hor)%visit_ok.
  specialize (Hfr Hinj). split.
  - intros q [->%elem_of_singleton|Hq]%elem_of_union.
    + exists info. split; [done|]. split.
      * destruct Hor as [Hold|(ni & Hn & Hsay)]; [left; by rewrite <- Ho|right; by exists s, ni].
      * intros r Hin. destruct (decide (r ∈ {[p]} ∪ visited)); [by left|right].
        apply elem_of_app. right. by apply list_elem_of_filter.
    + destruct (Hc q Hq) as (i & Hi & Horigin & Hr). exists i. rewrite Hfr by (by intros ->).
      split_and!; [done|done|]. intros r Hin.
      destruct (Hr r Hin) as [?|[->|?]%elem_of_cons]; [left; set_solver|left; set_solver|right].
      apply elem_of_app. by left.
  - intros q Hq. rewrite Hfr by set_solver. apply Ho. set_solver.
  - eapply rtc_r; [exact Hs|]. by exists p, (references info).
  - congruence.
  - auto.
Qed.

Lemma fetch_loop_ok fuel visited queue s v s' :
  fetch_loop now fuel source visited queue s = Some (Ok v, s') → looping visited queue s →
  looping v [] s' ∧ visited ⊆ v ∧ (∀ q, q ∈ queue → q ∈ v).
Proof using All.
  revert visited queue s. induction fuel as [|fuel IH]; intros visited queue s; [done|]. cbn [fetch_loop].
  destruct queue as [|p queue].
  - intros [= <- <-] Hc. split_and!; try done. by intros ? ?%elem_of_nil.
  - case_decide as Hp.
    + intros H Hc. apply IH in H as (H1 & H2 & H3); [|by eapply looping_skip].
      split_and!; try done. intros q [->|?]%elem_of_cons; auto.
    + destruct (visit_path now source p s) as [[refs|e] s1] eqn:E; [|done]. intros H Hc.
      apply IH in H as (H1 & H2 & H3); [|by eapply looping_visit].
      split; [done|]. split; [set_solver|].
      intros q [->|Hq]%elem_of_cons; [set_solver|]. apply H3, elem_of_app. by left.
Qed.

(** *** Termination: the paths the loop can meet, and how many references each has *)
Context (U : gset string) (b : nat).

Definition bounded (refs : list string) : Prop := (∀ r, r ∈ refs → r ∈ U) ∧ (length refs ≤ b)%nat.

(** The records of the database, and the metadata as long as the loop goes on *)
Definition db_bounded db : Prop := ∀ p info, p ∈ U → get db p = Ok (Some info) → bounded (references info).
Definition cache_bounded : Prop :=
  ∀ p s1 ni, p ∈ U → rtc visits s0 s1 → fetch_narinfo (fs_tree (in_fs s1)) source p = Ok ni → bounded (ni_references ni).

Context (Hdb : db_bounded (in_db s0)) (Hcache : cache_bounded).

Lemma visit_bounded visited queue p s refs s' :
  p ∈ U → p ∉ visited → looping visited queue s → visit_path now source p s = (Ok refs, s') → bounded refs.
Proof using All.
  intros Hp Hv [_ Ho Hs _ _] (info & _ & <- & _ & _ & [Hold|(ni & Hn & _ & _ & -> & _)])%visit_ok.
  - eapply Hdb; [done|]. by rewrite <- Ho.
  - by eapply Hcache.
Qed.

Lemma fetch_loop_total fuel visited queue s :
  (∀ q, q ∈ queue → q ∈ U) → looping visited queue s →
  (size (U ∖ visited) * S b + length queue < fuel)%nat →
  is_Some (fetch_loop now fuel source visited queue s).
Proof using All.
  revert visited queue s. induction fuel as [|fuel IH]; intros visited queue s Hq Hb Hf; [lia|]. cbn [fetch_loop].
  destruct queue as [|p queue]; [by eexists|]. simpl in Hf.
  assert (Hp : p ∈ U) by (apply Hq; by left).
  case_decide as Hv; [apply IH; [intros; apply Hq; by right|by eapply looping_skip|lia]|].
  destruct (visit_path now source p s) as [[refs|e] s1] eqn:E; [|by eexists].
  destruct (visit_bounded _ _ p s refs s1 Hp Hv Hb E) as [Hr Hl]. apply IH; [|by eapply looping_visit|].
  - intros q [Hin|Hin]%elem_of_app; [apply Hq; by right|]. apply list_elem_of_filter in Hin as [_ Hin]. by apply Hr.
  - rewrite length_app. pose proof (length_filter (λ r, r ∉ {[p]} ∪ visited) refs).
    assert (Hs : size (U ∖ visited) = S (size (U ∖ ({[p]} ∪ visited)))).
    { rewrite (union_difference_singleton_L p (U ∖ visited)) at 1 by set_solver.
      rewrite size_union, size_singleton by set_solver. f_equal. f_equal. set_solver. }
    rewrite Hs in Hf. simpl in Hf. lia.
Qed.

Lemma fetch_loop_within fuel visited queue s v s' :
  (∀ q, q ∈ queue → q ∈ U) → visited ⊆ U → looping visited queue s →
  fetch_loop now fuel source visited queue s = Some (Ok v, s') → v ⊆ U.
Proof using All.
  revert visited queue s. induction fuel as [|fuel IH]; intros visited queue s Hq Hsub Hb; [done|]. cbn [fetch_loop].
  destruct queue as [|p queue]; [by intros [= <- _]|].
  assert (Hp : p ∈ U) by (apply Hq; by left).
  case_decide as Hv; [apply IH; [intros; apply Hq; by right|done|by eapply looping_skip]|].
  destruct (visit_path now source p s) as [[refs|e] s1] eqn:E; [|done].
  destruct (visit_bounded _ _ p s refs s1 Hp Hv Hb E) as [Hr Hl]. apply IH; [|set_solver|by eapply looping_visit].
  intros q [Hin|Hin]%elem_of_app; [apply Hq; by right|]. apply list_elem_of_filter in Hin as [_ Hin]. by apply Hr.
Qed.
End loop.

(** *** The disk during a fetch *)
Section fetch.
Context (name : string).
Let p := Path.components STORE_DIR ++ [Normal name].
Context (Hv : valid_name name) (Hc : Str.contains_char "/" name = false).

Lemma store_path_components : Path.components (STORE_DIR +:+ "/" +:+ name) = p.
Proof using All. by destruct (components_child STORE_DIR name Hv Hc). Qed.

Lemma ensure_store_dir_around s r s' :
  plain (fs_tree (in_fs s)) p → ensure_store_dir s = (r, s') →
  run_in (dirs_made (Path.components STORE_DIR) (fs_tree (in_fs s))) (in_fs s) (in_fs s').
Proof using All.
  intros Hp (_ & _ & [->|[r0 Hr]])%ensure_store_dir_run; [apply run_in_refl|].
  eapply stays_dirs_made; [|intros k; by left|exact Hr].
  eapply plain_prefix; [exact Hp|by exists ["nix"; "store"]|by apply prefix_app_r].
Qed.

Lemma extract_around base node s m s' :
  plain base p → clear base p → dirs_made (Path.components STORE_DIR) base (fs_tree (in_fs s)) → names_ok node →
  extract_node node p "" [] (in_fs s) = (m, in_fs s') →
  run_in (around p base) (in_fs s) (in_fs s')
  ∧ ∀ l, m = Ok l → l = manifest_of node "" ∧ ∀ q, node_like (fs_tree (in_fs s') !! (p ++ q)) (nar_at node q).
Proof using All.
  intros Hp Hcl Hd Hok H. assert (A : around p base (fs_tree (in_fs s))) by by apply dirs_made_around.
  apply extract_node_run in H as [R O]; [|by eapply around_plain|apply tmp_not_root|by eapply dirs_made_clear|done].
  split; [|by intros l ->; apply O]. eapply run_in_mono; [|exact R]. intros t. by apply around_trans.
Qed.

Lemma fetch_around s r s' :
  reader_ok → plain (fs_tree (in_fs s)) p → clear (fs_tree (in_fs s)) p →
  fetch_and_extract now (STORE_DIR +:+ "/" +:+ name) source s = (r, s') →
  run_in (around p (fs_tree (in_fs s))) (in_fs s) (in_fs s') ∧ in_roots s' = in_roots s.
Proof using All.
  intros Hok Hp Hcl H. unfold fetch_and_extract in H. destruct (sp_hash _); [|injection H as _ <-; split; [apply run_in_refl|done]].
  unfold mbind, I_bind, SR_bind, exists_path, get_state, throw, from_cache in H.
  rewrite store_path_components, clear_absent in H; [|done|apply tmp_not_root|done].
  destruct (ensure_store_dir s) as [r1 s1] eqn:E1. pose proof E1 as (_ & Hro1 & _)%ensure_store_dir_run.
  pose proof (ensure_store_dir_around _ _ _ Hp E1) as D1.
  assert (D : dirs_made (Path.components STORE_DIR) (fs_tree (in_fs s)) (fs_tree (in_fs s1)))
    by (apply (run_in_last _ _ _ D1); intros k; by left).
  assert (R1 : run_in (around p (fs_tree (in_fs s))) (in_fs s) (in_fs s1)).
  { eapply run_in_mono; [|exact D1]. intros t. apply dirs_made_around. }
  destruct r1 as [[]|e]; [|by injection H as _ <-].
  destruct (fetch_narinfo _ _ _) as [ni|]; cbv beta iota in H; [|by injection H as _ <-].
  destruct (open_nar_decompressed _ _ _) as [st|]; cbv beta iota in H; [|by injection H as _ <-].
  destruct (on_fs _ s1) as [r2 s2] eqn:E2. apply on_fs_run in E2 as (_ & Hro2 & _ & r0 & E2 & Hr0).
  unfold extract_with_manifest, lift, mbind, F_bind, SR_bind in E2.
  rewrite store_path_components in E2. destruct (open_nar st) as [node|e] eqn:En.
  2:{ injection E2 as <- E2. subst r2. injection H as _ <-. rewrite <- E2. split; [done|congruence]. }
  eapply extract_around in E2 as [R2 _]; [|exact Hp|exact Hcl|exact D|by eapply Hok].
  assert (R : run_in (around p (fs_tree (in_fs s))) (in_fs s) (in_fs s2)) by by eapply run_in_trans.
  destruct r0 as [m|e]; subst r2; [|injection H as _ <-; split; [done|congruence]]. case_decide.
  - unfold register_path_with_files, on_db in H. destruct (register _ _) as [r3 db]. injection H as _ <-. simpl. split; [done|congruence].
  - destruct (on_fs _ s2) as [r3 s3] eqn:E3. apply on_fs_run in E3 as (_ & Hro3 & _ & r4 & E3 & _).
    apply (cleanup_stays_around _ (fs_tree (in_fs s))) in E3 as [_ R3]; [|done|].
    2:{ apply (run_in_last _ _ _ R), around_refl. }
    assert (s' = s3) as -> by (by destruct r3; injection H). split; [by eapply run_in_trans|congruence].
Qed.
End fetch.

(** ** The whole installation *)

(** A closed set of registered paths is a closure. *)
Lemma closing_closure s0 v db root :
  closing s0 v [] db → root ∈ v →
  (∀ q, reaches db root q → q ∈ v) ∧ ∃ c, compute_closure db root = Some (Ok c) ∧ ∀ q, q ∈ c_paths c ↔ reaches db root q.
Proof.
  intros Hc Hroot.
  assert (Hin : ∀ q, reaches db root q → q ∈ v).
  { apply rtc_ind_r; [done|]. intros x y _ Hxy Hx. destruct (Hc x Hx) as (info & Hi & _ & Hr).
    unfold edge, refs in Hxy. rewrite Hi in Hxy. by destruct (Hr y Hxy) as [?|?%elem_of_nil]. }
  split; [done|]. apply compute_closure_complete. intros q Hq. destruct (Hc q (Hin q Hq)) as (info & Hi & _). by exists info.
Qed.

Lemma find_package_run name s r s' : find_package name source s = (r, s') → s' = s.
Proof.
  unfold find_package, mbind, I_bind, SR_bind, get_state. destruct (from_cache _ s) as [[ix|e] s1] eqn:E;
    apply from_cache_inv in E as [-> _]; [|by intros [= _ <-]]. by destruct (_ !! name); intros [= _ <-].
Qed.

Lemma on_roots_run {A} (m : gmap string root_entry → result StoreError A * gmap string root_entry) s r s' :
  on_roots m s = (r, s') →
  in_db s' = in_db s ∧ in_fs s' = in_fs s
  ∧ ∃ r0, m (in_roots s) = (r0, in_roots s') ∧ match r0 with Ok a => r = Ok a | Err e => r = Err (FromStore e) end.
Proof.
  unfold on_roots. destruct (m (in_roots s)) as [[a|e] roots]; intros [= <- <-]; (split_and!; [done..|]); by eexists.
Qed.

Lemma save_run m s r s' : save_profile_manifest m s = (r, s') → in_db s' = in_db s ∧ in_roots s' = in_roots s.
Proof.
  unfold save_profile_manifest, mbind, I_bind, SR_bind. destruct (on_fs _ s) as [[u|e] s1] eqn:E;
    apply on_fs_run in E as (? & ? & _).
  - intros (? & ? & _)%on_fs_run. split; congruence.
  - intros [= _ <-]. done.
Qed.

Lemma add_root_ok (roots : gmap string root_entry) name p roots' : add_root roots name p = (Ok tt, roots') → roots' !! name = Some (RLink p).
Proof.
  unfold add_root. destruct (sp_hash p); [|done]. destruct (roots !! name) as [[]|], (write_faults name); try done;
    try destruct (remove_fails name); try done; intros [= <-]; apply lookup_insert_eq.
Qed.

Lemma link_installed_run name entry s r s' :
  link_installed name entry s = (r, s') →
  in_db s' = in_db s ∧
  (r = Ok tt → in_roots s' !! root_name name = Some (RLink (en_store_path entry))
               ∨ (s' = s ∧ is_Some (mf_packages (load_profile_manifest (fs_tree (in_fs s))) !! name))).
Proof.
  unfold link_installed, mbind, I_bind, SR_bind, get_state.
  destruct (mf_packages _ !! name) as [pkg|]; [intros [= <- <-]; split; [done|by right; split]|].
  destruct (on_fs _ s) as [[l|e] s1] eqn:E1; apply on_fs_run in E1 as (D1 & _); [|by intros [= <- <-]].
  destruct (save_profile_manifest _ s1) as [[u|e] s2] eqn:E2; apply save_run in E2 as (D2 & _);
    [|intros [= <- <-]; split; [congruence|done]].
  intros (D3 & _ & r0 & Hr0 & Hr)%on_roots_run. split; [congruence|]. intros ->. left.
  destruct r0 as [[]|]; [|done]. by eapply add_root_ok.
Qed.

Lemma install_recursive_run fuel name s r s' :
  hash_names_path → install_recursive now fuel name source s = Some (r, s') → r = Ok tt →
  ∃ entry v s1, (find_package name source s).1 = Ok entry
    ∧ fetch_loop now fuel source ∅ [en_store_path entry] s = Some (Ok v, s1)
    ∧ looping s v [] s1 ∧ in_db s' = in_db s1 ∧ en_store_path entry ∈ v
    ∧ (in_roots s' !! root_name name = Some (RLink (en_store_path entry))
       ∨ (in_roots s' = in_roots s ∧ is_Some (mf_packages (load_profile_manifest (fs_tree (in_fs s'))) !! name))).
Proof.
  intros Hinj. unfold install_recursive. destruct (find_package name source s) as [[entry|e] s0] eqn:E0;
    [|intros [= <- _]; done]. pose proof E0 as ->%find_package_run.
  destruct (fetch_loop _ _ _ _ _ s) as [[[v|e] s1]|] eqn:E1; [|intros [= <- _]; done|done].
  intros [= Hl] ->. pose proof E1 as E1'. eapply fetch_loop_ok in E1 as (Hc & _ & Hq); [|done|apply looping_start].
  apply link_installed_run in Hl as [Hd Hl].
  exists entry, v, s1. split_and!; [done..|apply Hq; by left|].
  destruct (Hl eq_refl) as [?|[-> ?]]; [by left|right]. split; [apply Hc|done].
Qed.
End facts.

(** A recursive installation ends, and leaves a closed store.  When the paths the
    package can reach, through the cache's metadata and the database, are finitely many
    and have boundedly many references each, the loop over the dependencies ends within
    one round for each of the references.  When it succeeds, the database has every path
    the package reaches: its closure can be computed, and stays within these paths. *)
Theorem recursive_install_closes `{FL : FsLimits, SPL : StorePathLib, IJ : InfoJson, MJ : ManifestJson, IOF : IoFaults,
    NC : NarCodec, CL : CacheLib, PJ : InstallJson} now fuel name source s (U : gset string) b :
  hash_names_path → cache_bounded now source s U b → db_bounded U b (in_db s) →
  (∀ entry, (find_package name source s).1 = Ok entry → en_store_path entry ∈ U) →
  (size U * S b + 1 < fuel)%nat →
  ∃ r s', install_recursive now fuel name source s = Some (r, s') ∧
    (r = Ok tt → ∃ entry c, (find_package name source s).1 = Ok entry
       ∧ compute_closure (in_db s') (en_store_path entry) = Some (Ok c)
       ∧ en_store_path entry ∈ c_paths c ∧ c_paths c ⊆ U).
Proof.
  intros Hinj HU Hb Hent Hf.
  assert (Ht : is_Some (install_recursive now fuel name source s)).
  { unfold install_recursive. destruct (find_package name source s) as [[entry|e] s0] eqn:E0; [|by eexists].
    pose proof E0 as ->%find_package_run.
    destruct (fetch_loop_total now source Hinj s U b Hb HU fuel ∅ [en_store_path entry] s) as [[[v|e] s1] ->]; [|apply looping_start| |by eexists..].
    - intros q ->%list_elem_of_singleton. by apply Hent.
    - rewrite difference_empty_L. simpl. lia. }
  destruct Ht as [[r s'] Hr]. exists r, s'. split; [done|]. intros Hok.
  destruct (install_recursive_run now source fuel name s r s' Hinj Hr Hok) as (entry & v & s1 & He & Hl & Hc & Hd & Hv & _).
  rewrite Hd. destruct (closing_closure now source s v _ _ (lp_closing _ _ _ _ _ _ Hc) Hv) as (Hin & c & Hcc & Hp). exists entry, c.
  split_and!; [done|done|apply Hp, rtc_refl|]. intros q Hq. apply Hp, Hin in Hq.
  eapply fetch_loop_within in Hl; [by apply Hl|done|exact Hb|exact HU| |apply empty_subseteq|apply looping_start].
  intros x ->%list_elem_of_singleton. by apply Hent.
Qed.


(** C17. Eager fetching is verified and recorded.  When nothing is at the store path yet,
    whatever fails, everything outside it stays as it was, but for directories made above
    it, and the GC roots are untouched.  When the fetch succeeds, the archive came from the
    cache and its digest is the one the metadata announces, the store path is the archive
    node by node, and the database answers with that digest, the references of the
    metadata and the manifest of the archive. *)
Theorem fetch_verified `{FL : FsLimits, SPL : StorePathLib, IJ : InfoJson, MJ : ManifestJson, IOF : IoFaults,
    NC : NarCodec, CL : CacheLib, PJ : InstallJson} now source name s s' r :
  let store_path := STORE_DIR +:+ "/" +:+ name in
  let p := Path.components store_path in
  reader_ok → valid_name name → Str.contains_char "/" name = false →
  plain (fs_tree (in_fs s)) p → clear (fs_tree (in_fs s)) p →
  fetch_and_extract now store_path source s = (r, s') →
  run_in (around p (fs_tree (in_fs s))) (in_fs s) (in_fs s') ∧ in_roots s' = in_roots s ∧
  (r = Ok tt → ∃ t ni st node,
     fetch_narinfo t source store_path = Ok ni ∧ open_nar_decompressed t source ni = Ok st ∧ open_nar st = Ok node
     ∧ read_hash st = ni_nar_hash ni
     ∧ (∀ q, node_like (fs_tree (in_fs s') !! (p ++ q)) (nar_at node q))
     ∧ get (in_db s') store_path
       = Ok (Some (mkPathInfo store_path (ni_nar_hash ni) (ni_nar_size ni) (ni_references ni) None now
                     (ni_signatures ni) (manifest_of node "")))).
Proof.
  intros store_path p Hok Hv Hc Hp Hcl H.
  assert (Hpp : p = Path.components STORE_DIR ++ [Normal name]) by exact (store_path_components now source name Hv Hc).
  rewrite Hpp in *. clear p Hpp. pose proof (fetch_around now source name Hv Hc s r s' Hok Hp Hcl H) as [R Hro].
  split; [done|]. split; [done|]. intros ->.
  apply fetch_ok in H as (s1 & ni & st & m & E1 & E2 & E3 & E4 & E5 & _ & _ & E6).
  2:{ unfold store_path. rewrite (store_path_components now source name Hv Hc). apply clear_absent; [done|apply tmp_not_root|done]. }
  unfold extract_with_manifest, lift, mbind, F_bind, SR_bind in E4. unfold store_path in E4.
  rewrite (store_path_components now source name Hv Hc) in E4. destruct (open_nar st) as [node|] eqn:En; [|done].
  pose proof (ensure_store_dir_around now source name Hv Hc _ _ _ Hp E1) as D1.
  eapply (extract_around now source name Hv Hc) in E4 as [_ O];
    [|exact Hp|exact Hcl|apply (run_in_last _ _ _ D1); intros k; by left|by eapply Hok].
  destruct (O m eq_refl) as [-> Hn]. by exists (fs_tree (in_fs s1)), ni, st, node.
Qed.

Module InstallDemo.
#[local] Existing Instance ExtractDemo.codec.
#[local] Instance names : StorePathLib := {| sp_hash p := Some p |}.

Definition rg_name : string := "1b9jydsiygi6jhlz2dxbrxi6b4m1rn4r-rg".
Definition rg : string := "/nix/store/" +:+ rg_name.
Definition pcre : string := "/nix/store/2b9jydsiygi6jhlz2dxbrxi6b4m1rn4r-pcre".

(** A server with two packages; [rg] needs [pcre]. *)
Definition narinfo_refs (body : string) : list string :=
  if decide (body = "http://c/" +:+ rg +:+ ".narinfo") then [pcre] else [].

#[local] Instance server : CacheLib := {|
  parse_narinfo body := Some (mkNarInfo "x.nar" None "good" 3 (narinfo_refs body) [] None);
  parse_index _ := Some (mkPackageIndex 1 {[ "rg" := mkPackageEntry rg "rg" "14" None None None ]});
  http_get_text url := Ok url;
  http_get_lazy _ := Ok "Tok";
|}.

#[local] Instance profile_json : InstallJson := {| manifest_print _ := "{}"; manifest_parse _ := None |}.
#[local] Instance no_tree_faults : TreeFaults := {| tree_remove_leaves _ := None |}.

Definition source : CacheSource := Remote "http://c".
Definition start : installation := mkInstallation
  (mkFsys (<[Path.components "/nix/store" := Dir 493]> (<[Path.components "/nix" := Dir 493]> ∅)) []) ∅ ∅ [].

Lemma names_inj : hash_names_path.
Proof. by intros p q h [= <-] [= ->]. Qed.

Definition refs_of (p : string) : list string := narinfo_refs ("http://c/" +:+ p +:+ ".narinfo").

Lemma server_bounded : cache_bounded "now" source start {[ rg; pcre ]} 1.
Proof.
  intros p s1 ni _ _ [= <-]. change (bounded {[ rg; pcre ]} 1 (refs_of p)).
  unfold bounded, refs_of, narinfo_refs. case_decide; simpl; [|split; [by intros ? ?%elem_of_nil|lia]].
  split; [|lia]. intros r ->%list_elem_of_singleton. set_solver.
Qed.

Definition installed := install_recursive "now" 10 "rg" source start.
Definition after : installation := default start (snd <$> installed).

Lemma run_answered {A B} (m : option (A * B)) (a : A) (b : B) : fst <$> m = Some a → m = Some (a, default b (snd <$> m)).
Proof. destruct m as [[x y]|]; [|done]. by intros [= ->]. Qed.

Lemma recursive_install_closes_witness :
  ∃ r s', installed = Some (r, s') ∧
    (r = Ok tt → ∃ entry c, (find_package "rg" source start).1 = Ok entry
       ∧ compute_closure (in_db s') (en_store_path entry) = Some (Ok c)
       ∧ en_store_path entry ∈ c_paths c ∧ c_paths c ⊆ {[ rg; pcre ]}).
Proof.
  apply (recursive_install_closes "now" 10 "rg" source start {[ rg; pcre ]} 1).
  - apply names_inj.
  - apply server_bounded.
  - intros p info _ (file & content & _ & Hl & _)%get_Some. simpl in Hl. by rewrite lookup_empty in Hl.
  - intros entry He. assert (Hf : (find_package "rg" source start).1 = Ok (mkPackageEntry rg "rg" "14" None None None))
      by (vm_compute; reflexivity).
    rewrite Hf in He. injection He as <-. simpl. set_solver.
  - rewrite size_union, !size_singleton by (apply disjoint_singleton_l; rewrite elem_of_singleton; vm_compute; discriminate). lia.
Defined.

Lemma fetch_verified_witness :
  ∃ info, get (in_db (fetch_and_extract "now" rg source start).2) rg = Ok (Some info) ∧ nar_hash info = "good".
Proof.
  assert (Hr : (fetch_and_extract "now" rg source start).1 = Ok tt) by (vm_compute; reflexivity).
  assert (Hn : valid_name rg_name ∧ Str.contains_char "/" rg_name = false) by (split; [apply validate_ok|]; by vm_compute).
  destruct (fetch_verified "now" source rg_name start (fetch_and_extract "now" rg source start).2 (Ok tt))
    as (_ & _ & H); [apply ExtractDemo.codec_ok|apply Hn|apply Hn| | |rewrite <- Hr; apply surjective_pairing|].
  - apply plain_dirs; [by exists ["nix"; "store"; rg_name]|].
    change (ancestors _) with [Path.components "/nix"; Path.components "/nix/store"].
    repeat constructor; exists 493; vm_compute; reflexivity.
  - intros k [q ->]. unfold start. simpl fs_tree. repeat (rewrite lookup_insert_ne; [|by vm_compute]). done.
  - destruct (H eq_refl) as (t & ni & st & node & Hni & _ & _ & _ & _ & Hg). eexists. split; [exact Hg|].
    simpl. by injection Hni as <-.
Defined.
End InstallDemo.

(** The same from a cache on the disk *)
Module LocalDemo.
Import InstallDemo.
#[local] Existing Instances ExtractDemo.codec profile_json no_tree_faults.
#[local] Instance below_store : StorePathLib := {| sp_hash := Str.strip_prefix "/nix/store/" |}.

(** A file of metadata is the name of its package. *)
#[local] Instance files : CacheLib := {|
  parse_narinfo body := Some (mkNarInfo "x.nar" None "good" 3 (if decide (body = "rg") then [pcre] else []) [] None);
  parse_index _ := Some (mkPackageIndex 1 {[ "rg" := mkPackageEntry rg "rg" "14" None None None ]});
  http_get_text url := Err url;
  http_get_lazy url := Err url;
|}.

Definition source : CacheSource := Local (Path.components "/nix/cache").
Definition start : installation := mkInstallation
  (mkFsys (<[Path.components "/nix/cache/packages.json" := File "{}" 420]>
          (<[Path.components ("/nix/cache/" +:+ rg_name +:+ ".narinfo") := File "rg" 420]>
          (<[Path.components "/nix/cache/2b9jydsiygi6jhlz2dxbrxi6b4m1rn4r-pcre.narinfo" := File "pcre" 420]>
          (<[Path.components "/nix/cache/x.nar" := File "Tok" 420]>
          (<[Path.components "/nix/cache" := Dir 493]> (<[Path.components "/nix" := Dir 493]> ∅)))))) []) ∅ ∅ [].

Lemma store_names_inj : hash_names_path.
Proof.
  assert (H : ∀ p h, Str.strip_prefix "/nix/store/" p = Some h → p = "/nix/store/" +:+ h)
    by apply Str.strip_prefix_Some.
  intros p q h Hp%H Hq%H. congruence.
Qed.

Definition installed := install_recursive "now" 10 "rg" source start.
Definition after : installation := default start (snd <$> installed).
Definition swept := garbage_collect (mkDisk (in_db after) (in_roots after) ∅) false.

End LocalDemo.
