(* ===== verification/RebuildConfig.v ===== *)
(** * The configuration of a rebuild: the pure part of [rebuild.rs]

    The schema of [configuration.nix], the checks of its managed files, what counts as a
    change, where a rebuild is routed, and the merge into the current manifest.  The input
    types that have a name of [system.rs] end in [Input] here. *)

From S2P Require Import Prelude RustStd FileSys Manifest Activate ActivatePlan.

Open Scope Z_scope.

(** ** Schema: only the fields that are present override the manifest *)
Record NetworkConfigInput : Type := mkNetworkConfigInput {
  nc_enable : option bool;
  nc_mode : option string;
  nc_dns : option (list string);
}.

Record GraphicsConfigInput : Type := mkGraphicsConfigInput {
  gc_enable : option bool;
  gc_resolution : option string;
}.

Record SecurityConfigInput : Type := mkSecurityConfigInput {
  sc_protect_kernel_schemes : option bool;
  sc_require_passwords : option bool;
  sc_allow_remote_root : option bool;
}.

Record LoggingConfigInput : Type := mkLoggingConfigInput {
  lc_level : option string;
  lc_kernel_level : option string;
  lc_log_to_file : option bool;
}.

Record PowerConfigInput : Type := mkPowerConfigInput {
  pc_acpi_enabled : option bool;
  pc_power_action : option string;
  pc_reboot_on_panic : option bool;
}.

Record UserConfig : Type := mkUserConfig {
  uc_uid : Z;
  uc_gid : Z;
  uc_home : string;
  uc_shell : string;
}.

Record ProgramsConfig : Type := mkProgramsConfig { pg_editor : option string }.

Record ManagedFileInput : Type := mkManagedFileInput {
  mf_text : string;
  mf_mode : option string;
}.

Record HardwareConfigInput : Type := mkHardwareConfigInput {
  hc_storage_drivers : option (list string);
  hc_network_drivers : option (list string);
  hc_graphics_drivers : option (list string);
  hc_audio_drivers : option (list string);
  hc_usb_enabled : option bool;
}.

Record RebuildConfig : Type := mkRebuildConfig {
  rc_hostname : option string;
  rc_timezone : option string;
  rc_packages : option (list string);
  rc_networking : option NetworkConfigInput;
  rc_graphics : option GraphicsConfigInput;
  rc_security : option SecurityConfigInput;
  rc_logging : option LoggingConfigInput;
  rc_power : option PowerConfigInput;
  rc_users : option (gmap string UserConfig);
  rc_programs : option ProgramsConfig;
  rc_files : option (gmap string ManagedFileInput);
  rc_hardware : option HardwareConfigInput;
  rc_services : option (list string);
  rc_package_sources : option string;
  rc_system_source : option string;
}.

Definition set_config_files (fs : option (gmap string ManagedFileInput)) (c : RebuildConfig) : RebuildConfig :=
  mkRebuildConfig (rc_hostname c) (rc_timezone c) (rc_packages c) (rc_networking c) (rc_graphics c)
    (rc_security c) (rc_logging c) (rc_power c) (rc_users c) (rc_programs c) fs (rc_hardware c)
    (rc_services c) (rc_package_sources c) (rc_system_source c).

Definition BOOT_ESSENTIAL : list string :=
  ["ion"; "ion-shell"; "base"; "redox-base"; "init"; "logd"; "ramfs"; "zerod"; "nulld"; "randd";
   "snix"; "snix-redox"; "uutils"].

Definition is_boot_essential (name : string) : bool := existsb (λ b, bool_decide (b = name)) BOOT_ESSENTIAL.

Inductive ConfigError : Type :=
  | ConfigSyntax
  | BadManagedPath (p : string)
  | EmptyManagedPath
  | BadFileMode (mode : string).

(** serde_json on the configuration *)
Class ConfigJson : Type := { config_from_json : string → option RebuildConfig }.

(** ** Managed files *)
Definition validate_managed_file_path (p : string) : result ConfigError string :=
  let comps := Path.components p in
  if forallb is_normal comps then
    if decide (Path.to_string comps = "") then Err EmptyManagedPath else Ok (Path.to_string comps)
  else Err (BadManagedPath p).

(** [format!("{v:04o}")] of a value of at most four octal digits *)
Definition fmt_04o (v : Z) : string :=
  octal_string [(v `div` 512) `mod` 8; (v `div` 64) `mod` 8; (v `div` 8) `mod` 8; v `mod` 8].

Definition is_octal (s : string) : bool := Str.all_chars (λ a, bool_decide (is_Some (octal_digit a))) s.

Definition normalize_managed_file_mode (mode : string) : result ConfigError string :=
  let trimmed := without_prefix "0o" (Str.trim mode) in
  let trimmed := match Str.strip_prefix "0" trimmed with
                 | Some rest => if decide (rest = "") then trimmed else rest
                 | None => trimmed
                 end in
  if decide (trimmed = "" ∨ (4 < String.length trimmed)%nat ∨ is_octal trimmed = false) then Err (BadFileMode mode)
  else match from_octal 0 trimmed with
  | None => Err (BadFileMode mode)
  | Some parsed => if decide (4095 < parsed) then Err (BadFileMode mode) else Ok (fmt_04o parsed)
  end.

Definition file_mode (file : ManagedFileInput) : string := default "0644" (mf_mode file).

Fixpoint validate_files_loop (normalized : gmap string ManagedFileInput) (fs : list (string * ManagedFileInput))
    : result ConfigError (gmap string ManagedFileInput) :=
  match fs with
  | [] => Ok normalized
  | (p, file) :: fs' =>
      p' ← validate_managed_file_path p;
      mode ← normalize_managed_file_mode (file_mode file);
      validate_files_loop (<[p' := mkManagedFileInput (mf_text file) (Some mode)]> normalized) fs'
  end.

Definition validate_managed_files (config : RebuildConfig) : result ConfigError RebuildConfig :=
  match rc_files config with
  | None => Ok config
  | Some fs => fs' ← validate_files_loop ∅ (BTree.to_list fs); Ok (set_config_files (Some fs') config)
  end.

Definition parse_config_json `{ConfigJson} (json : string) : result ConfigError RebuildConfig :=
  config ← ok_or ConfigSyntax (config_from_json json);
  validate_managed_files config.

(** ** What changes, and the route of a rebuild *)
Definition has_package_changes (config : RebuildConfig) : bool :=
  match rc_packages config with Some (_ :: _) => true | _ => false end.

Definition sorted_names (l : list string) : list string := merge_sort String.le l.

Definition has_service_changes (config : RebuildConfig) (current : option Manifest) : bool :=
  match rc_services config, current with
  | Some names, Some m => negb (bool_decide (sorted_names (BTree.keys (declared (m_services m))) = sorted_names names))
  | Some _, None => true
  | None, _ => false
  end.

Definition is_some {A} (o : option A) : bool := match o with Some _ => true | None => false end.

Definition hardware_changed (config : RebuildConfig) : bool :=
  match rc_hardware config with
  | Some hw => is_some (hc_storage_drivers hw) || is_some (hc_network_drivers hw)
               || is_some (hc_graphics_drivers hw) || is_some (hc_audio_drivers hw) || is_some (hc_usb_enabled hw)
  | None => false
  end.

(** The comparison of services is written out a second time in the source. *)
Definition has_boot_affecting_changes (config : RebuildConfig) (current : option Manifest) : bool :=
  hardware_changed config || has_service_changes config current.

Definition needs_bridge (config : RebuildConfig) (current : option Manifest) : bool :=
  negb (is_some (rc_system_source config))
  && (has_package_changes config || has_boot_affecting_changes config current).

Inductive AutoRebuildRoute : Type := Native | Bridge | LocalRoute.

(** The error is that of boot-affecting changes with neither a system source nor a bridge. *)
Definition select_auto_rebuild_route (config : RebuildConfig) (current : option Manifest) (bridge : bool)
    : option AutoRebuildRoute :=
  if is_some (rc_system_source config) then Some Native
  else if has_boot_affecting_changes config current then (if bridge then Some Bridge else None)
  else if has_package_changes config && bridge then Some Bridge
  else Some LocalRoute.

(** ** The merge *)
Section merge.
Variable blake3_hex : string → string.

Definition merge_system (s : SystemInfo) (config : RebuildConfig) : SystemInfo :=
  mkSystemInfo (redox_system_version s) (target s) (profile s)
    (default (hostname s) (rc_hostname config)) (default (timezone s) (rc_timezone config)).

Definition merge_networking (n : NetworkingConfig) (i : option NetworkConfigInput) : NetworkingConfig :=
  match i with
  | None => n
  | Some i => mkNetworkingConfig (default (net_enabled n) (nc_enable i)) (default (net_mode n) (nc_mode i))
                (default (net_dns n) (nc_dns i))
  end.

Definition merge_graphics (g : GraphicsConfig) (i : option GraphicsConfigInput) : GraphicsConfig :=
  match i with
  | None => g
  | Some i => mkGraphicsConfig (default (gfx_enabled g) (gc_enable i)) (default (gfx_resolution g) (gc_resolution i))
  end.

Definition merge_security (s : SecurityConfig) (i : option SecurityConfigInput) : SecurityConfig :=
  match i with
  | None => s
  | Some i => mkSecurityConfig (default (protect_kernel_schemes s) (sc_protect_kernel_schemes i))
                (default (require_passwords s) (sc_require_passwords i))
                (default (allow_remote_root s) (sc_allow_remote_root i))
  end.

Definition merge_logging (l : LoggingConfig) (i : option LoggingConfigInput) : LoggingConfig :=
  match i with
  | None => l
  | Some i => mkLoggingConfig (default (log_level l) (lc_level i)) (default (kernel_log_level l) (lc_kernel_level i))
                (default (log_to_file l) (lc_log_to_file i)) (max_log_size_mb l)
  end.

Definition merge_power (p : PowerConfig) (i : option PowerConfigInput) : PowerConfig :=
  match i with
  | None => p
  | Some i => mkPowerConfig (default (acpi_enabled p) (pc_acpi_enabled i)) (default (power_action p) (pc_power_action i))
                (default (reboot_on_panic p) (pc_reboot_on_panic i))
  end.

Definition merge_configuration (c : Configuration) (config : RebuildConfig) : Configuration :=
  mkConfiguration (cfg_boot c) (cfg_hardware c) (merge_networking (cfg_networking c) (rc_networking config))
    (merge_graphics (cfg_graphics c) (rc_graphics config)) (merge_security (cfg_security c) (rc_security config))
    (merge_logging (cfg_logging c) (rc_logging config)) (merge_power (cfg_power c) (rc_power config)).

Definition merge_users (users : gmap string User) (i : option (gmap string UserConfig)) : gmap string User :=
  match i with
  | None => users
  | Some us => (λ u, mkUser (uc_uid u) (uc_gid u) (uc_home u) (uc_shell u)) <$> us
  end.

Definition merge_groups (groups : gmap string Group) (i : option (gmap string UserConfig)) : gmap string Group :=
  match i with
  | None => groups
  | Some us => map_imap (λ name u, Some (mkGroup (uc_gid u) [name])) us
  end.

Definition inline_file (text mode : string) : FileInfo :=
  mkFileInfo (blake3_hex text) (Z.of_nat (String.length text)) mode (Some text).

Fixpoint merge_files_loop (files : gmap string FileInfo) (fs : list (string * ManagedFileInput))
    : result ConfigError (gmap string FileInfo) :=
  match fs with
  | [] => Ok files
  | (p, file) :: fs' =>
      p' ← validate_managed_file_path p;
      mode ← normalize_managed_file_mode (file_mode file);
      merge_files_loop (<[p' := inline_file (mf_text file) mode]> files) fs'
  end.

(** [m.files.retain(|_, info| info.text.is_none())] *)
Definition tracked_files (files : gmap string FileInfo) : gmap string FileInfo :=
  filter (λ e, fi_text e.2 = None) files.

Definition merge_files (files : gmap string FileInfo) (i : option (gmap string ManagedFileInput))
    : result ConfigError (gmap string FileInfo) :=
  match i with
  | None => Ok files
  | Some fs => merge_files_loop (tracked_files files) (BTree.to_list fs)
  end.

(** Packages whose name has not been seen, and the names seen afterwards *)
Fixpoint push_unseen (seen : gset string) (ps : list Package) : list Package * gset string :=
  match ps with
  | [] => ([], seen)
  | p :: ps' =>
      if decide (pkg_name p ∈ seen) then push_unseen seen ps'
      else let '(l, seen') := push_unseen ({[pkg_name p]} ∪ seen) ps' in (p :: l, seen')
  end.

Definition merge_packages (current : list Package) (names : option (list string)) (resolved : list Package)
    : list Package :=
  if is_some names && negb (bool_decide (resolved = [])) then
    let boot_pkgs := List.filter (λ p, is_boot_essential (pkg_name p)) current in
    let '(merged, seen) := push_unseen ∅ boot_pkgs in
    let '(rest, _) := push_unseen seen resolved in
    merged ++ rest
  else current.

Definition merge_config (current : Manifest) (config : RebuildConfig) (resolved : list Package)
    : result ConfigError Manifest :=
  fs ← merge_files (m_files current) (rc_files config);
  Ok (mkManifest (manifest_version current) (merge_system (m_system current) config) (m_generation current)
        (m_boot current) (merge_configuration (m_configuration current) config)
        (merge_packages (m_packages current) (rc_packages config) resolved)
        (m_drivers current) (merge_users (m_users current) (rc_users config))
        (merge_groups (m_groups current) (rc_users config)) (m_services current)
        (m_activation_scripts current) fs (m_system_profile current) (m_toplevel current) (m_etc_source current)).

End merge.

(** ** The comparison that decides whether a rebuild does anything *)
Definition has_manifest_changes (current merged : Manifest) : bool :=
  let c := m_configuration current in
  let c' := m_configuration merged in
  let names := λ m, (λ p, (pkg_name p, pkg_store_path p)) <$> m_packages m in
  if decide (hostname (m_system current) ≠ hostname (m_system merged)) then true
  else if decide (timezone (m_system current) ≠ timezone (m_system merged)) then true
  else if decide (cfg_networking c ≠ cfg_networking c') then true
  else if decide (cfg_security c ≠ cfg_security c') then true
  else if decide (cfg_logging c ≠ cfg_logging c') then true
  else if decide (cfg_power c ≠ cfg_power c') then true
  else if decide (cfg_hardware c ≠ cfg_hardware c') then true
  else if decide (names current ≠ names merged) then true
  else if decide (m_users current ≠ m_users merged) then true
  else if decide (m_services current ≠ m_services merged) then true
  else if decide (m_files current ≠ m_files merged) then true
  else if decide (m_boot current ≠ m_boot merged) then true
  else if decide (m_drivers current ≠ m_drivers merged) then true
  else false.

(** ** Text for the evaluator *)
Definition quote : ascii := "034".
Definition backslash : ascii := "092".

(** One character of [nix_string_literal], with the rest of the input *)
Definition nix_escape (c : ascii) (rest : string) : string :=
  if decide (c = backslash) then String backslash (String backslash "")
  else if decide (c = quote) then String backslash (String quote "")
  else if decide (c = "010"%char) then String backslash "n"
  else if decide (c = "013"%char) then String backslash "r"
  else if decide (c = "009"%char) then String backslash "t"
  else if decide (c = "$"%char ∧ Str.starts_with "{" rest = true) then String backslash "$"
  else String c "".

Fixpoint nix_escape_all (s : string) : string :=
  match s with
  | EmptyString => ""
  | String c s' => nix_escape c s' +:+ nix_escape_all s'
  end.

Definition nix_string_literal (s : string) : string :=
  String quote (nix_escape_all s +:+ String quote "").
