(* ===== verification/RebuildFacts.v ===== *)
(** * The configuration merge: theorems

    Validated configurations always merge and keep the manifest well-formed; what the merge
    does to packages, and that doing it twice changes nothing; which changes a rebuild
    notices; routing; the text handed to the evaluator. *)

From S2P Require Import Prelude RustStd FileSys Manifest Activate ActivatePlan ManifestInstances RebuildConfig.

Open Scope Z_scope.

(** ** Paths of managed files *)
Lemma validate_path_ok p q :
  validate_managed_file_path p = Ok q →
  forallb is_normal (Path.components p) = true ∧ q = Path.to_string (Path.components p) ∧ q ≠ "".
Proof.
  unfold validate_managed_file_path. destruct (forallb _ _) eqn:Hn; [|done].
  case_decide; [done|]. intros. by simplify_eq.
Qed.

Lemma validate_path_idem p q : validate_managed_file_path p = Ok q → validate_managed_file_path q = Ok q.
Proof.
  intros (Hn & -> & Hne)%validate_path_ok. unfold validate_managed_file_path.
  rewrite Path.components_to_string by apply Path.components_wf. rewrite Hn. by rewrite decide_False.
Qed.

(** What activation resolves the validated path to is what the user wrote. *)
Lemma validate_path_components p q : validate_managed_file_path p = Ok q → Path.components q = Path.components p.
Proof.
  intros (_ & -> & _)%validate_path_ok. apply Path.components_to_string, Path.components_wf.
Qed.

(** ** Modes *)
Lemma from_octal_is_octal s : ∀ acc v, from_octal acc s = Some v → is_octal s = true.
Proof.
  induction s as [|a s IH]; intros acc v Hs; [done|]. cbn [from_octal] in Hs.
  apply bind_Some in Hs as (d & Hd & Hs). unfold is_octal. cbn [Str.all_chars].
  rewrite Hd. simpl. by eapply IH.
Qed.

(** The digits both parsers read, once the prefix and the leading zero are gone *)
Definition mode_digits (mode : string) : string :=
  let trimmed := without_prefix "0o" (Str.trim mode) in
  match Str.strip_prefix "0" trimmed with
  | Some rest => if decide (rest = "") then trimmed else rest
  | None => trimmed
  end.

(** The mode check of the configuration accepts what activation's parser accepts, and
    writes the value it parses. *)
Lemma normalize_parse mode :
  normalize_managed_file_mode mode
  = match parse_mode_string mode with Ok v => Ok (fmt_04o v) | Err _ => Err (BadFileMode mode) end.
Proof.
  unfold normalize_managed_file_mode, parse_mode_string. cbv zeta. fold (mode_digits mode).
  generalize (mode_digits mode). intros t.
  destruct (from_octal 0 t) as [v|] eqn:Ho.
  - pose proof (from_octal_is_octal _ _ _ Ho) as Hi. repeat case_decide; try done; exfalso; intuition congruence.
  - repeat case_decide; done.
Qed.

Lemma from_octal_nonneg s : ∀ acc v, 0 ≤ acc → from_octal acc s = Some v → 0 ≤ v.
Proof.
  induction s as [|a s IH]; intros acc v Ha Hs; cbn [from_octal] in Hs; [by simplify_eq|].
  apply bind_Some in Hs as (d & Hd & Hs). unfold octal_digit in Hd.
  destruct (bool_decide (48 ≤ Str.byte a ≤ 55)%N) eqn:Hb; [|done]. apply bool_decide_eq_true in Hb. simplify_eq.
  eapply IH; [|done]. lia.
Qed.

Lemma parse_mode_bounds mode v : parse_mode_string mode = Ok v → 0 ≤ v ≤ 4095.
Proof.
  unfold parse_mode_string. cbv zeta. fold (mode_digits mode). generalize (mode_digits mode). intros t.
  case_decide; [done|]. destruct (from_octal 0 t) as [w|] eqn:Ho; [|done]. case_decide; [done|].
  intros. simplify_eq. pose proof (from_octal_nonneg _ _ _ ltac:(done) Ho). lia.
Qed.

Lemma fmt_04o_parse v : 0 ≤ v ≤ 4095 → parse_mode_string (fmt_04o v) = Ok v.
Proof.
  intros Hv. unfold fmt_04o.
  assert (Hmod : ∀ x, 0 ≤ x `mod` 8 < 8) by (intros x; apply Z.mod_pos_bound; lia).
  destruct (parse_mode_string_octal ""
    [(v `div` 512) `mod` 8; (v `div` 64) `mod` 8; (v `div` 8) `mod` 8; v `mod` 8]) as [Hp _].
  - by left.
  - by repeat constructor; apply Hmod.
  - simpl. lia.
  - refine (eq_trans Hp _). f_equal. unfold octal_value. cbn [foldl].
    rewrite (Z.mod_small (v `div` 512)) by (split; [apply Z.div_pos; lia|apply Z.div_lt_upper_bound; lia]).
    change 512 with (64 * 8). change 64 with (8 * 8). rewrite <- !Z.div_div by lia.
    pose proof (Z.div_mod v 8). pose proof (Z.div_mod (v `div` 8) 8).
    pose proof (Z.div_mod ((v `div` 8) `div` 8) 8). lia.
Qed.

Lemma normalize_idem mode m : normalize_managed_file_mode mode = Ok m → normalize_managed_file_mode m = Ok m.
Proof.
  rewrite !normalize_parse. destruct (parse_mode_string mode) as [v|] eqn:Hp; [|done]. intros ?. simplify_eq.
  by rewrite fmt_04o_parse by by eapply parse_mode_bounds.
Qed.

(** ** Well-formedness of managed files *)
Definition file_input_wf (p : string) (file : ManagedFileInput) : Prop :=
  validate_managed_file_path p = Ok p ∧ normalize_managed_file_mode (file_mode file) = Ok (file_mode file)
  ∧ is_Some (mf_mode file).

Definition config_wf (c : RebuildConfig) : Prop :=
  ∀ fs, rc_files c = Some fs → map_Forall file_input_wf fs.

Lemma validate_loop_wf fs : ∀ acc out,
  map_Forall file_input_wf acc → validate_files_loop acc fs = Ok out → map_Forall file_input_wf out.
Proof.
  induction fs as [|[p file] fs IH]; intros acc out Hacc Hl; simpl in Hl; [by simplify_eq|].
  apply result_bind_ok in Hl as (p' & Hp & Hl). apply result_bind_ok in Hl as (mode & Hm & Hl).
  apply (IH _ _) in Hl; [done|]. apply map_Forall_insert_2; [|done].
  split_and!; [by eapply validate_path_idem|by eapply normalize_idem|done].
Qed.

Lemma parse_config_wf `{CJ : ConfigJson} json c : parse_config_json json = Ok c → config_wf c.
Proof.
  unfold parse_config_json, validate_managed_files. intros Hp.
  apply result_bind_ok in Hp as (c0 & _ & Hp). destruct (rc_files c0) as [fs|] eqn:Hf.
  - apply result_bind_ok in Hp as (fs' & Hl & Hp). simplify_eq. intros fs0. simpl. intros ?. simplify_eq.
    eapply validate_loop_wf; [apply map_Forall_empty|done].
  - simplify_eq. intros fs Hfs. congruence.
Qed.

Section merge_facts.
Context (blake3_hex : string → string).

Abbreviation merge_config := (RebuildConfig.merge_config blake3_hex).
Abbreviation inline_file := (RebuildConfig.inline_file blake3_hex).

Definition inline_wf (p : string) (info : FileInfo) : Prop :=
  ∀ text, fi_text info = Some text →
    validate_managed_file_path p = Ok p ∧ normalize_managed_file_mode (fi_mode info) = Ok (fi_mode info)
    ∧ info = inline_file text (fi_mode info).

(** The loop over validated files inserts each under its own name. *)
Lemma merge_loop_wf fs : ∀ files,
  Forall (λ e, file_input_wf e.1 e.2) fs →
  merge_files_loop blake3_hex files fs
  = Ok (foldl (λ m e, <[e.1 := inline_file (mf_text e.2) (file_mode e.2)]> m) files fs).
Proof.
  induction fs as [|[p file] fs IH]; intros files Hwf; [done|].
  apply Forall_cons in Hwf as [(Hp & Hm & _) Hwf]. simpl in *. rewrite Hp. simpl. rewrite Hm. simpl. by apply IH.
Qed.

Lemma foldl_insert_lookup {A} (f : A → FileInfo) (l : list (string * A)) : ∀ (m : gmap string FileInfo) p,
  NoDup l.*1 →
  foldl (λ m e, <[e.1 := f e.2]> m) m l !! p
  = match (list_to_map l : gmap string A) !! p with Some a => Some (f a) | None => m !! p end.
Proof.
  induction l as [|[q a] l IH]; intros m p Hnd; simpl; [by rewrite lookup_empty|].
  apply NoDup_cons in Hnd as [Hq Hnd]. rewrite IH by done.
  destruct (decide (q = p)) as [->|Hne].
  - rewrite not_elem_of_list_to_map_1 by done. by rewrite !lookup_insert_eq.
  - rewrite !lookup_insert_ne by done. done.
Qed.

(** The files after the merge of a validated configuration, key by key *)
Lemma merge_files_lookup files fs :
  map_Forall file_input_wf fs →
  ∃ out, merge_files blake3_hex files (Some fs) = Ok out
  ∧ ∀ p, out !! p = match fs !! p with
                    | Some file => Some (inline_file (mf_text file) (file_mode file))
                    | None => tracked_files files !! p
                    end.
Proof.
  intros Hwf. eexists. split.
  - simpl. apply merge_loop_wf. apply Forall_forall. intros [p file] Hin.
    apply BTree.elem_of_to_list in Hin. by apply (Hwf p file).
  - intros p. rewrite (foldl_insert_lookup (λ file, inline_file (mf_text file) (file_mode file))) by apply BTree.NoDup_keys.
    assert (Hm : (list_to_map (BTree.to_list fs) : gmap string ManagedFileInput) = fs).
    { rewrite <- (list_to_map_to_list fs) at 2. apply list_to_map_proper;
        [apply BTree.NoDup_keys|apply BTree.to_list_perm]. }
    by rewrite Hm.
Qed.

Lemma tracked_lookup files p i :
  tracked_files files !! p = Some i ↔ files !! p = Some i ∧ fi_text i = None.
Proof. apply map_lookup_filter_Some. Qed.

(** C21. A configuration that was parsed always merges, whatever packages were resolved and
    whatever the manifest: no file is refused at that point.  The merge keeps the manifest's
    inline files well-formed: each is filed under the root-relative path activation will
    write, carries the mode activation's parser reads back, and the digest and size of its
    text.  With a [files] attribute, the inline files are exactly those of the configuration
    and the tracked files it does not name stay; without one nothing about files changes. *)
Theorem parsed_config_merges `{CJ : ConfigJson} json c m ps :
  parse_config_json json = Ok c → map_Forall inline_wf (m_files m) →
  ∃ m', merge_config m c ps = Ok m' ∧ map_Forall inline_wf (m_files m')
  ∧ match rc_files c with
    | None => m_files m' = m_files m
    | Some fs => ∀ p i, m_files m' !! p = Some i ↔
        match fs !! p with
        | Some file => i = inline_file (mf_text file) (file_mode file)
                       ∧ ∃ v, 0 ≤ v ≤ 4095 ∧ parse_mode_string (fi_mode i) = Ok v
        | None => m_files m !! p = Some i ∧ fi_text i = None
        end
    end.
Proof.
  intros Hc%parse_config_wf Hm. unfold RebuildConfig.merge_config.
  destruct (rc_files c) as [fs|] eqn:Hfs.
  2:{ simpl. eexists. split; [done|]. split; done. }
  destruct (merge_files_lookup (m_files m) fs (Hc fs Hfs)) as (out & Hout & Hl).
  rewrite Hout. simpl. eexists. split; [done|]. cbn [m_files]. split.
  - intros p i Hi. rewrite Hl in Hi. destruct (fs !! p) as [file|] eqn:Hp.
    + simplify_eq. intros text Ht. destruct (Hc fs Hfs p file Hp) as (Hv & Hn & _). simpl in Ht. by simplify_eq.
    + apply tracked_lookup in Hi as [Hi _]. by apply (Hm p i Hi).
  - intros p i. rewrite Hl. destruct (fs !! p) as [file|] eqn:Hp; [|apply tracked_lookup].
    split; [|by intros [-> _]]. intros ?. simplify_eq. split; [done|]. simpl.
    destruct (Hc fs Hfs p file Hp) as (_ & Hn & _). rewrite normalize_parse in Hn.
    destruct (parse_mode_string (file_mode file)) as [v|] eqn:Hv; [|done]. exists v. split; [by eapply parse_mode_bounds|done].
Qed.

End merge_facts.

(** ** Packages *)
#[local] Abbreviation names ps := (list_to_set (pkg_name <$> ps) : gset string).
#[local] Abbreviation unseen seen ps := (push_unseen seen ps).1.

Lemma push_unseen_seen ps : ∀ seen, (push_unseen seen ps).2 = seen ∪ names (unseen seen ps).
Proof.
  induction ps as [|p ps IH]; intros seen; simpl; [set_solver|]. case_decide; [apply IH|].
  specialize (IH ({[pkg_name p]} ∪ seen)). destruct (push_unseen _ ps) as [l s]. simpl in *. set_solver.
Qed.

Lemma unseen_cons seen p ps :
  unseen seen (p :: ps)
  = if decide (pkg_name p ∈ seen) then unseen seen ps else p :: unseen ({[pkg_name p]} ∪ seen) ps.
Proof. simpl. case_decide; [done|]. by destruct (push_unseen _ ps). Qed.

Lemma unseen_fresh ps : ∀ seen p, p ∈ unseen seen ps → (pkg_name p ∉ seen) ∧ p ∈ ps.
Proof.
  induction ps as [|q ps IH]; intros seen p; [by intros ?%elem_of_nil|]. rewrite unseen_cons, elem_of_cons.
  case_decide; [intros Hp%IH; naive_solver|]. intros [->|Hp]%elem_of_cons; [auto|].
  apply IH in Hp. set_solver.
Qed.

Lemma unseen_NoDup ps : ∀ seen, NoDup (pkg_name <$> unseen seen ps).
Proof.
  induction ps as [|q ps IH]; intros seen; [constructor|]. rewrite unseen_cons. case_decide; [apply IH|].
  cbn [fmap list_fmap]. apply NoDup_cons. split; [|apply IH].
  intros (p & Hq & Hp)%list_elem_of_fmap. apply unseen_fresh in Hp as [Hp _]. set_solver.
Qed.

Lemma unseen_complete ps : ∀ seen p, p ∈ ps → pkg_name p ∈ seen ∨ pkg_name p ∈ pkg_name <$> unseen seen ps.
Proof.
  induction ps as [|q ps IH]; intros seen p; [by intros ?%elem_of_nil|]. rewrite unseen_cons.
  intros [->|Hp]%elem_of_cons.
  - case_decide; [auto|]. right. cbn [fmap list_fmap]. left.
  - case_decide; [by apply IH|]. destruct (IH ({[pkg_name q]} ∪ seen) p Hp) as [Hs|Hs].
    + apply elem_of_union in Hs as [->%elem_of_singleton|Hs]; [right; cbn [fmap list_fmap]; left|by left].
    + right. cbn [fmap list_fmap]. by right.
Qed.

Lemma unseen_id ps : ∀ seen,
  NoDup (pkg_name <$> ps) → (∀ p, p ∈ ps → pkg_name p ∉ seen) → unseen seen ps = ps.
Proof.
  induction ps as [|q ps IH]; intros seen Hnd Hs; [done|]. rewrite unseen_cons.
  cbn [fmap list_fmap] in Hnd. apply NoDup_cons in Hnd as [Hq Hnd].
  rewrite decide_False by (apply Hs; left). f_equal. apply IH; [done|].
  intros p Hp [Heq%elem_of_singleton|Hin]%elem_of_union; [|by apply (Hs p); [right|]].
  apply Hq. rewrite <- Heq. apply list_elem_of_fmap. eauto.
Qed.

(** Seeing more names beforehand filters the result. *)
Lemma unseen_union ps : ∀ (S T : gset string),
  unseen (S ∪ T) ps = filter (λ p, pkg_name p ∉ T) (unseen S ps).
Proof.
  induction ps as [|q ps IH]; intros S T; [done|]. rewrite !unseen_cons.
  destruct (decide (pkg_name q ∈ S)) as [HS|HS].
  { rewrite decide_True by set_solver. apply IH. }
  destruct (decide (pkg_name q ∈ T)) as [HT|HT].
  - rewrite decide_True by set_solver. rewrite filter_cons_False by (intros Hn; by apply Hn). rewrite <- IH.
    f_equal. f_equal. set_solver.
  - rewrite decide_False by set_solver. rewrite filter_cons_True by done. f_equal. rewrite <- IH.
    f_equal. f_equal. set_solver.
Qed.

(** The merged list, without the threading of the seen names *)
Definition boot_packages (ps : list Package) : list Package := List.filter (λ p, is_boot_essential (pkg_name p)) ps.

Lemma elem_of_boot p ps : p ∈ boot_packages ps ↔ p ∈ ps ∧ is_boot_essential (pkg_name p) = true.
Proof. unfold boot_packages. rewrite !list_elem_of_In. apply List.filter_In. Qed.

Lemma merge_packages_eq current ns resolved :
  resolved ≠ [] →
  merge_packages current (Some ns) resolved
  = unseen ∅ (boot_packages current) ++ unseen (names (unseen ∅ (boot_packages current))) resolved.
Proof.
  intros Hne. unfold merge_packages. rewrite bool_decide_eq_false_2 by done. simpl.
  fold (boot_packages current). pose proof (push_unseen_seen (boot_packages current) ∅) as Hs.
  destruct (push_unseen ∅ (boot_packages current)) as [l seen]. simpl in *. subst seen.
  rewrite (left_id_L ∅ (∪)). by destruct (push_unseen _ resolved).
Qed.

Lemma merge_config_packages blake3_hex m c ps m' :
  merge_config blake3_hex m c ps = Ok m' → m_packages m' = merge_packages (m_packages m) (rc_packages c) ps.
Proof. unfold merge_config. intros Hm. apply result_bind_ok in Hm as (fs & _ & Hm). by simplify_eq. Qed.

Lemma NoDup_names_inj ps p q :
  NoDup (pkg_name <$> ps) → p ∈ ps → q ∈ ps → pkg_name p = pkg_name q → p = q.
Proof.
  induction ps as [|r ps IH]; [by intros _ ?%elem_of_nil|]. cbn [fmap list_fmap].
  intros [Hr Hnd]%NoDup_cons Hp Hq Heq. rewrite !elem_of_cons in Hp, Hq.
  destruct Hp as [->|Hp], Hq as [->|Hq]; [done| | |by apply IH].
  - contradict Hr. rewrite Heq. by apply list_elem_of_fmap_2.
  - contradict Hr. rewrite <- Heq. by apply list_elem_of_fmap_2.
Qed.

(** What a merge with a [packages] attribute does to the packages.  No name occurs twice;
    each boot-essential package of the current manifest is still there, and keeps the store
    path it has even when the configuration resolves the name to another; every resolved
    name is there; and nothing else: a package comes from the current manifest only as a
    boot-essential one, and from the configuration only when no boot-essential one has its
    name. *)
Theorem merged_packages blake3_hex m c ns ps m' :
  merge_config blake3_hex m c ps = Ok m' → rc_packages c = Some ns → ps ≠ [] →
  NoDup (pkg_name <$> m_packages m')
  ∧ (∀ p, p ∈ m_packages m → is_boot_essential (pkg_name p) = true →
      pkg_name p ∈ pkg_name <$> m_packages m' ∧ (NoDup (pkg_name <$> m_packages m) → p ∈ m_packages m'))
  ∧ (∀ p, p ∈ ps → pkg_name p ∈ pkg_name <$> m_packages m')
  ∧ ∀ q, q ∈ m_packages m' →
      q ∈ m_packages m ∧ is_boot_essential (pkg_name q) = true
      ∨ q ∈ ps ∧ ∀ p, p ∈ m_packages m → is_boot_essential (pkg_name p) = true → pkg_name p ≠ pkg_name q.
Proof.
  intros Hm Hns Hne. rewrite (merge_config_packages _ _ _ _ _ Hm), Hns, merge_packages_eq by done. clear Hm m'.
  set (boots := unseen ∅ (boot_packages (m_packages m))).
  assert (Hboot : ∀ p, p ∈ boots → p ∈ m_packages m ∧ is_boot_essential (pkg_name p) = true).
  { intros p Hp. apply unseen_fresh in Hp as [_ Hp]. by apply elem_of_boot. }
  assert (Hkept : ∀ p, p ∈ m_packages m → is_boot_essential (pkg_name p) = true → pkg_name p ∈ pkg_name <$> boots).
  { intros p Hp Hb. destruct (unseen_complete (boot_packages (m_packages m)) ∅ p) as [|]; [by apply elem_of_boot|set_solver|done]. }
  rewrite fmap_app. split_and!.
  - apply NoDup_app. split_and!; [apply unseen_NoDup| |apply unseen_NoDup].
    intros n Hn (q & -> & Hq)%list_elem_of_fmap. apply unseen_fresh in Hq as [Hq _]. by apply Hq, elem_of_list_to_set.
  - intros p Hp Hb. split; [apply elem_of_app; left; by apply Hkept|]. intros Hnd.
    apply elem_of_app. left. pose proof (Hkept p Hp Hb) as (q & Hq & Hqb)%list_elem_of_fmap.
    destruct (Hboot q Hqb) as [Hqm _]. by rewrite (NoDup_names_inj (m_packages m) p q).
  - intros p Hp. apply elem_of_app. destruct (unseen_complete ps (names boots) p Hp) as [Hs|Hs]; [left; by apply elem_of_list_to_set in Hs|by right].
  - intros q [Hq|Hq]%elem_of_app; [left; by apply Hboot|]. right. apply unseen_fresh in Hq as [Hq Hqp]. split; [done|].
    intros p Hp Hb Heq. apply Hq, elem_of_list_to_set. rewrite <- Heq. by apply Hkept.
Qed.

(** ** The merge is done once *)
Definition set_packages (ps : list Package) (m : Manifest) : Manifest :=
  mkManifest (manifest_version m) (m_system m) (m_generation m) (m_boot m) (m_configuration m) ps
    (m_drivers m) (m_users m) (m_groups m) (m_services m) (m_activation_scripts m) (m_files m)
    (m_system_profile m) (m_toplevel m) (m_etc_source m).

(** The inserted files do not depend on those they are inserted into. *)
Lemma merge_loop_union blake3_hex fs : ∀ acc files,
  merge_files_loop blake3_hex (acc ∪ files) fs = (λ ins, ins ∪ files) <$> merge_files_loop blake3_hex acc fs.
Proof.
  induction fs as [|[p file] fs IH]; intros acc files; [done|]. simpl.
  destruct (validate_managed_file_path p) as [p'|]; [|done]. simpl.
  destruct (normalize_managed_file_mode _) as [mode|]; [|done]. simpl. by rewrite insert_union_l, IH.
Qed.

Lemma merge_loop_inline blake3_hex fs : ∀ acc out,
  map_Forall (λ _ i, fi_text i ≠ None) acc → merge_files_loop blake3_hex acc fs = Ok out →
  map_Forall (λ _ i, fi_text i ≠ None) out.
Proof.
  induction fs as [|[p file] fs IH]; intros acc out Hacc Hl; simpl in Hl; [by simplify_eq|].
  apply result_bind_ok in Hl as (p' & _ & Hl). apply result_bind_ok in Hl as (mode & _ & Hl).
  apply (IH _ _) in Hl; [done|]. by apply map_Forall_insert_2.
Qed.

Lemma merge_files_twice blake3_hex files i out :
  merge_files blake3_hex files i = Ok out → merge_files blake3_hex out i = Ok out.
Proof.
  destruct i as [fs|]; [|by intros; simplify_eq]. simpl.
  rewrite <- (left_id_L ∅ (∪) (tracked_files files)), merge_loop_union.
  destruct (merge_files_loop blake3_hex ∅ (BTree.to_list fs)) as [ins|] eqn:Hins; [|done]. intros ?. simplify_eq/=.
  rewrite <- (left_id_L ∅ (∪) (tracked_files (_ ∪ _))), merge_loop_union, Hins. simpl. f_equal.
  pose proof (merge_loop_inline _ _ _ _ (map_Forall_empty _) Hins) as Htext.
  apply map_eq. intros p. rewrite !lookup_union. destruct (ins !! p) as [i|] eqn:Hp; [by rewrite !union_Some_l|].
  rewrite !(left_id_L None (∪)). unfold tracked_files. rewrite !map_lookup_filter.
  rewrite lookup_union, Hp, (left_id_L None (∪)), map_lookup_filter.
  destruct (files !! p) as [j|]; simpl; [|done]. destruct (decide (fi_text j = None)) as [Ht|Ht].
  - rewrite option_guard_True by done. simpl. by rewrite option_guard_True.
  - by rewrite option_guard_False.
Qed.

Lemma default_twice {A} (o : option A) (x : A) : default (default x o) o = default x o.
Proof. by destruct o. Qed.

Lemma merge_system_twice s c : merge_system (merge_system s c) c = merge_system s c.
Proof. unfold merge_system. simpl. by rewrite !default_twice. Qed.

Lemma merge_configuration_twice cfg c :
  merge_configuration (merge_configuration cfg c) c = merge_configuration cfg c.
Proof.
  unfold merge_configuration. simpl. f_equal.
  - destruct (rc_networking c); simpl; by rewrite ?default_twice.
  - destruct (rc_graphics c); simpl; by rewrite ?default_twice.
  - destruct (rc_security c); simpl; by rewrite ?default_twice.
  - destruct (rc_logging c); simpl; by rewrite ?default_twice.
  - destruct (rc_power c); simpl; by rewrite ?default_twice.
Qed.

Lemma boot_packages_app l1 l2 : boot_packages (l1 ++ l2) = boot_packages l1 ++ boot_packages l2.
Proof. apply List.filter_app. Qed.

Lemma boot_packages_all l : (∀ p, p ∈ l → is_boot_essential (pkg_name p) = true) → boot_packages l = l.
Proof.
  induction l as [|p l IH]; intros Hl; [done|]. unfold boot_packages. simpl. rewrite (Hl p) by left.
  f_equal. apply IH. intros q Hq. apply Hl. by right.
Qed.

Lemma boot_packages_none l : (∀ p, p ∈ l → is_boot_essential (pkg_name p) = false) → boot_packages l = [].
Proof.
  induction l as [|p l IH]; intros Hl; [done|]. unfold boot_packages. simpl. rewrite (Hl p) by left.
  apply IH. intros q Hq. apply Hl. by right.
Qed.

Lemma boot_split_by (B : gset string) l :
  (∀ p, p ∈ l → pkg_name p ∈ B ↔ is_boot_essential (pkg_name p) = true) →
  boot_packages l ++ filter (λ p, pkg_name p ∉ B) l ≡ₚ l.
Proof.
  induction l as [|p l IH]; intros Hl; [done|].
  specialize (IH ltac:(intros q Hq; apply Hl; by right)). pose proof (Hl p ltac:(left)) as Hp.
  unfold boot_packages. cbn [List.filter]. fold (boot_packages l).
  destruct (is_boot_essential (pkg_name p)).
  - rewrite filter_cons_False by naive_solver. simpl. by constructor.
  - rewrite filter_cons_True by naive_solver. rewrite <- Permutation_middle. by constructor.
Qed.

Lemma boot_split l : boot_packages l ++ filter (λ p, pkg_name p ∉ names (boot_packages l)) l ≡ₚ l.
Proof.
  apply boot_split_by. intros p Hp. rewrite elem_of_list_to_set, list_elem_of_fmap. split.
  - intros (q & Hq & [_ Hb]%elem_of_boot). congruence.
  - intros Hb. exists p. split; [done|]. by apply elem_of_boot.
Qed.

Lemma merge_packages_twice current i resolved :
  let out := merge_packages current i resolved in
  merge_packages out i resolved ≡ₚ out
  ∧ ((∀ p, p ∈ resolved → is_boot_essential (pkg_name p) = false) → merge_packages out i resolved = out).
Proof.
  destruct i as [ns|]; [|done]. destruct (decide (resolved = [])) as [->|Hne].
  { unfold merge_packages. by rewrite (bool_decide_eq_true_2 (_ = _)). }
  cbv zeta. rewrite !merge_packages_eq by done.
  set (boots := unseen ∅ (boot_packages current)). set (rest := unseen (names boots) resolved).
  assert (Hboots : boot_packages boots = boots).
  { apply boot_packages_all. intros p [_ Hp]%unseen_fresh. by apply elem_of_boot in Hp as [_ ?]. }
  assert (Hnd : NoDup (pkg_name <$> boots ++ boot_packages rest)).
  { rewrite fmap_app. apply NoDup_app. split_and!; [apply unseen_NoDup| |].
    - intros n Hn (q & -> & [Hq _]%elem_of_boot)%list_elem_of_fmap. apply unseen_fresh in Hq as [Hq _]. by apply Hq, elem_of_list_to_set.
    - pose proof (unseen_NoDup resolved (names boots)) as Hr. fold rest in Hr.
      rewrite <- (boot_split rest), fmap_app in Hr. by apply NoDup_app in Hr as (? & _). }
  rewrite boot_packages_app, Hboots, (unseen_id (boots ++ boot_packages rest)) by (done || set_solver).
  assert (Hrest : unseen (names (boots ++ boot_packages rest)) resolved
    = filter (λ p, pkg_name p ∉ names (boot_packages rest)) rest).
  { rewrite fmap_app, list_to_set_app_L. apply unseen_union. }
  rewrite Hrest, <- app_assoc. split; [by rewrite boot_split|].
  intros Hno. f_equal. assert (Hb : boot_packages rest = []).
  { apply boot_packages_none. intros p [_ Hp]%unseen_fresh. by apply Hno. }
  rewrite Hb. cbn [fmap list_fmap list_to_set app]. clear. induction rest as [|p rest IH]; [done|].
  rewrite filter_cons_True by set_solver. by rewrite IH.
Qed.

(** Merging the same configuration and packages into the result once more succeeds and
    changes nothing but, possibly, the order of the packages; and not even that when no
    resolved package is boot-essential. *)
Theorem merge_config_twice blake3_hex m c ps m' :
  merge_config blake3_hex m c ps = Ok m' →
  ∃ m'', merge_config blake3_hex m' c ps = Ok m''
  ∧ m_packages m'' ≡ₚ m_packages m' ∧ set_packages (m_packages m') m'' = m'
  ∧ ((∀ p, p ∈ ps → is_boot_essential (pkg_name p) = false) → m'' = m').
Proof.
  unfold merge_config. intros Hm. apply result_bind_ok in Hm as (fs & Hfs & Hm). simplify_eq. cbn [m_files].
  rewrite (merge_files_twice _ _ _ _ Hfs). simpl. eexists. split; [done|].
  unfold set_packages. cbn [m_packages manifest_version m_system m_generation m_boot m_configuration m_drivers
    m_users m_groups m_services m_activation_scripts m_files m_system_profile m_toplevel m_etc_source].
  rewrite merge_system_twice, merge_configuration_twice.
  assert (Hu : ∀ us i, merge_users (merge_users us i) i = merge_users us i) by by intros us [].
  assert (Hg : ∀ gs i, merge_groups (merge_groups gs i) i = merge_groups gs i) by by intros gs [].
  rewrite Hu, Hg. destruct (merge_packages_twice (m_packages m) (rc_packages c) ps) as [Hperm Hsame].
  split_and!; [done|done|]. intros Hno. by rewrite (Hsame Hno).
Qed.

(** ** Which changes a rebuild notices *)
Definition named (ps : list Package) : list (string * string) := (λ p, (pkg_name p, pkg_store_path p)) <$> ps.

Lemma has_manifest_changes_false m m' :
  has_manifest_changes m m' = false ↔
  hostname (m_system m) = hostname (m_system m') ∧ timezone (m_system m) = timezone (m_system m')
  ∧ cfg_networking (m_configuration m) = cfg_networking (m_configuration m')
  ∧ cfg_security (m_configuration m) = cfg_security (m_configuration m')
  ∧ cfg_logging (m_configuration m) = cfg_logging (m_configuration m')
  ∧ cfg_power (m_configuration m) = cfg_power (m_configuration m')
  ∧ cfg_hardware (m_configuration m) = cfg_hardware (m_configuration m')
  ∧ named (m_packages m) = named (m_packages m') ∧ m_users m = m_users m' ∧ m_services m = m_services m'
  ∧ m_files m = m_files m' ∧ m_boot m = m_boot m' ∧ m_drivers m = m_drivers m'.
Proof.
  unfold has_manifest_changes, named. cbv zeta beta. split.
  - intros H. repeat (case_decide; [done|]).
    repeat match goal with Hn : ¬ (_ ≠ _) |- _ => apply dec_stable in Hn end. by split_and!.
  - intros (?&?&?&?&?&?&?&?&?&?&?&?&?). by repeat (rewrite decide_False by tauto).
Qed.

(** A manifest without what the comparison does not read *)
Definition forget_unread (m : Manifest) : Manifest :=
  let c := m_configuration m in
  mkManifest (manifest_version m) (m_system m) (m_generation m) (m_boot m)
    (mkConfiguration (cfg_boot c) (cfg_hardware c) (cfg_networking c) (mkGraphicsConfig false "")
       (cfg_security c) (cfg_logging c) (cfg_power c))
    ((λ p, mkPackage (pkg_name p) "" (pkg_store_path p)) <$> m_packages m)
    (m_drivers m) (m_users m) ∅ (m_services m) (m_activation_scripts m) (m_files m)
    (m_system_profile m) (m_toplevel m) (m_etc_source m).

Lemma named_forget ps ps' :
  named ps = named ps' ↔
  (λ p, mkPackage (pkg_name p) "" (pkg_store_path p)) <$> ps = (λ p, mkPackage (pkg_name p) "" (pkg_store_path p)) <$> ps'.
Proof.
  unfold named. revert ps'. induction ps as [|p ps IH]; intros [|p' ps']; [done..|]. cbn [fmap list_fmap].
  specialize (IH ps'). split; intros H; simplify_eq; f_equal; [congruence|tauto|congruence|tauto].
Qed.

(** A rebuild takes a merged manifest for unchanged exactly when it is the current one up to
    the graphics settings, the groups and the version strings of packages: every other
    change of the configuration is noticed, and a change of the graphics settings alone
    never is. *)
Theorem noticed_changes blake3_hex m c ps m' :
  merge_config blake3_hex m c ps = Ok m' →
  has_manifest_changes m m' = false ↔ forget_unread m' = forget_unread m.
Proof.
  unfold merge_config. intros Hm. apply result_bind_ok in Hm as (fs & _ & Hm). simplify_eq.
  rewrite has_manifest_changes_false. unfold forget_unread.
  cbn [manifest_version m_system m_generation m_boot m_configuration m_packages m_drivers
    m_users m_groups m_services m_activation_scripts m_files m_system_profile m_toplevel m_etc_source
    merge_configuration cfg_boot cfg_hardware cfg_networking cfg_graphics cfg_security cfg_logging cfg_power].
  rewrite named_forget. split.
  - intros (Hh & Hz & ? & ? & ? & ? & _ & ? & ? & _ & ? & _ & _). f_equal; [|congruence..].
    destruct (m_system m). unfold merge_system in *. simpl in *. congruence.
  - intros H. injection H as Hs Hn Hse Hl Hp Hpk Hu Hf. rewrite Hs. split_and!; congruence.
Qed.

(** ** Routing *)
(** A configuration without what needs the boot image to be rebuilt *)
Definition without_boot_changes (c : RebuildConfig) : RebuildConfig :=
  mkRebuildConfig (rc_hostname c) (rc_timezone c) (rc_packages c) (rc_networking c) (rc_graphics c)
    (rc_security c) (rc_logging c) (rc_power c) (rc_users c) (rc_programs c) (rc_files c) None
    None (rc_package_sources c) (rc_system_source c).

Lemma sorted_names_perm l l' : sorted_names l = sorted_names l' ↔ l ≡ₚ l'.
Proof.
  unfold sorted_names. split.
  - intros H. rewrite <- (merge_sort_Permutation String.le l), H. apply merge_sort_Permutation.
  - intros H. apply (StronglySorted_unique String.le); [apply StronglySorted_merge_sort; apply _..|].
    by rewrite !merge_sort_Permutation.
Qed.

(** Where a rebuild goes.  A system source always builds natively.  Otherwise the bridge
    is used exactly when it is there and packages, drivers or services change; without it
    a change of drivers or services is an error, and a change of packages alone is done
    locally.  On the local route nothing is lost by the merge, which does not read drivers
    and services: no driver option is set, and the services that are declared are those the
    manifest has, counted with repetition. *)
Theorem route_spec c current bridge :
  let route := select_auto_rebuild_route c current bridge in
  let boot := has_boot_affecting_changes c current in
  (route = Some Native ↔ is_Some (rc_system_source c))
  ∧ (route = Some Bridge ↔ rc_system_source c = None ∧ bridge = true ∧ (boot = true ∨ has_package_changes c = true))
  ∧ (route = None ↔ rc_system_source c = None ∧ bridge = false ∧ boot = true)
  ∧ (needs_bridge c current = true → bridge = true → route = Some Bridge)
  ∧ (route = Some LocalRoute →
      hardware_changed c = false
      ∧ (∀ names, rc_services c = Some names → ∃ m, current = Some m ∧ BTree.keys (declared (m_services m)) ≡ₚ names)
      ∧ ∀ blake3_hex m ps, merge_config blake3_hex m c ps = merge_config blake3_hex m (without_boot_changes c) ps).
Proof.
  cbv zeta. unfold select_auto_rebuild_route, needs_bridge.
  destruct (rc_system_source c) as [src|] eqn:Hsrc; cbn [is_some negb andb].
  { split_and!; naive_solver. }
  destruct (has_boot_affecting_changes c current) eqn:Hb, (has_package_changes c) eqn:Hp, bridge;
    cbn [andb orb]; (split_and!; [naive_solver..|]); intros H; simplify_eq.
  all: apply orb_false_iff in Hb as [Hhw Hsvc]; split_and!; [done| |done].
  all: intros ns Hns; unfold has_service_changes in Hsvc; rewrite Hns in Hsvc; destruct current as [m|]; [|done].
  all: exists m; split; [done|]; apply sorted_names_perm; by apply negb_false_iff, bool_decide_eq_true in Hsvc.
Qed.

(** ** String literals for the evaluator

    The reader of the Nix language for the text between double quotes, up to the closing
    quote; an interpolation is not plain text. *)
Fixpoint nix_read (s : string) : option (string * string) :=
  match s with
  | EmptyString => None
  | String c s' =>
      if decide (c = quote) then Some ("", s')
      else if decide (c = backslash) then
        match s' with
        | EmptyString => None
        | String e s'' =>
            '(text, rest) ← nix_read s'';
            Some (String (if decide (e = "n"%char) then "010"%char else if decide (e = "r"%char) then "013"%char
                          else if decide (e = "t"%char) then "009"%char else e) text, rest)
        end
      else if decide (c = "$"%char ∧ Str.starts_with "{" s' = true) then None
      else '(text, rest) ← nix_read s'; Some (String c text, rest)
  end.

Lemma escape_no_brace s rest :
  Str.starts_with "{" s = false → Str.starts_with "{" (nix_escape_all s +:+ String quote rest) = false.
Proof.
  destruct s as [|c s]; [done|]. intros Hb. apply not_true_iff_false. intros (t & Ht)%Str.starts_with_spec.
  apply not_true_iff_false in Hb. apply Hb. apply Str.starts_with_spec. exists s. revert Ht.
  cbn [nix_escape_all]. unfold nix_escape. repeat case_decide; cbn [String.append]; intros Ht;
    first [discriminate Ht|by injection Ht as ->].
Qed.

(** C33. The literal of any text, whatever follows it, is read back as that text and ends at its
    own closing quote: nothing in a configuration can leave the string it is pasted into, or
    start an interpolation. *)
Theorem nix_literal_read s rest :
  ∃ body, nix_string_literal s +:+ rest = String quote body ∧ nix_read body = Some (s, rest).
Proof.
  exists (nix_escape_all s +:+ String quote rest). unfold nix_string_literal. split.
  { simpl. by rewrite Str.app_assoc. }
  induction s as [|c s IH]; [done|]. cbn [nix_escape_all]. rewrite Str.app_assoc. unfold nix_escape.
  repeat (case_decide; [subst; cbn [String.append nix_read]; rewrite IH; reflexivity|]).
  case_decide as Hd.
  { destruct Hd as [-> _]. cbn [String.append nix_read]. rewrite IH. reflexivity. }
  cbn [String.append nix_read]. rewrite !decide_False by done.
  rewrite decide_False, IH; [done|]. intros [-> Hb]. apply Hd. split; [done|].
  destruct (Str.starts_with "{" s) eqn:Hs; [done|]. by rewrite escape_no_brace in Hb.
Qed.

(** The merge does not read [programs]: an editor that is configured is never set. *)
Lemma merge_ignores_programs blake3_hex m c ps programs :
  merge_config blake3_hex m c ps
  = merge_config blake3_hex m
      (mkRebuildConfig (rc_hostname c) (rc_timezone c) (rc_packages c) (rc_networking c) (rc_graphics c)
         (rc_security c) (rc_logging c) (rc_power c) (rc_users c) programs (rc_files c) (rc_hardware c)
         (rc_services c) (rc_package_sources c) (rc_system_source c)) ps.
Proof. done. Qed.

(** ** Examples *)
Module RebuildDemo.

Definition blake3 (s : string) : string := "b3:" +:+ s.

Definition user : UserConfig := mkUserConfig 1000 1000 "/home/user" "/bin/ion".

Definition config : RebuildConfig :=
  mkRebuildConfig (Some "box") None (Some ["ripgrep"; "ion"]) None None None None None (Some {[ "user" := user ]}) None
    (Some {[ "etc//motd" := mkManagedFileInput "hello" (Some "0o600") ]}) None None None None.

Definition graphics_only : RebuildConfig :=
  mkRebuildConfig None None None None (Some (mkGraphicsConfigInput (Some true) None)) None None None None None None
    None None None None.

#[local] Instance demo_config_json : ConfigJson := {|
  config_from_json s := if decide (s = "config") then Some config else None;
|}.

Definition ion : Package := mkPackage "ion" "1.0" "/nix/store/aaa-ion".
Definition resolved : list Package :=
  [mkPackage "ripgrep" "14" "/nix/store/bbb-ripgrep"; mkPackage "ion" "2.0" "/nix/store/ccc-ion"].
Definition manifest : Manifest := demo_manifest 3 "" "x" [ion; mkPackage "fd" "9" "/nix/store/ddd-fd"].

Definition parsed : RebuildConfig :=
  set_config_files (Some {[ "etc/motd" := mkManagedFileInput "hello" (Some "0600") ]}) config.
Lemma parsed_ex : parse_config_json "config" = Ok parsed.
Proof. vm_compute. reflexivity. Qed.

Definition merged : Manifest :=
  match merge_config blake3 manifest parsed resolved with Ok m => m | Err _ => manifest end.
Lemma merged_ex : merge_config blake3 manifest parsed resolved = Ok merged.
Proof. vm_compute. reflexivity. Qed.

Lemma parsed_config_merges_witness :
  ∃ m', merge_config blake3 manifest parsed resolved = Ok m'
  ∧ m_files m' !! "etc/motd" = Some (mkFileInfo "b3:hello" 5 "0600" (Some "hello")).
Proof.
  destruct (parsed_config_merges blake3 "config" parsed manifest resolved parsed_ex) as (m' & Hm & _ & Hf).
  - exact (map_Forall_empty _).
  - exists m'. split; [exact Hm|]. refine (proj2 (Hf "etc/motd" _) _). split; [reflexivity|].
    exists 384. split; [lia|vm_compute; reflexivity].
Defined.

Lemma merged_packages_witness :
  m_packages merged = [ion; mkPackage "ripgrep" "14" "/nix/store/bbb-ripgrep"] ∧ NoDup (pkg_name <$> m_packages merged).
Proof.
  split; [vm_compute; reflexivity|].
  apply (merged_packages blake3 manifest parsed ["ripgrep"; "ion"] resolved merged merged_ex); [reflexivity|discriminate].
Defined.

Lemma merge_config_twice_witness :
  ∃ m'', merge_config blake3 merged parsed resolved = Ok m'' ∧ m_packages m'' ≡ₚ m_packages merged.
Proof.
  destruct (merge_config_twice blake3 manifest parsed resolved merged merged_ex) as (m'' & Hm & Hp & _).
  exists m''. split; [exact Hm|exact Hp].
Defined.

Definition merged_graphics : Manifest :=
  match merge_config blake3 manifest graphics_only [] with Ok m => m | Err _ => manifest end.

(** Enabling the graphics is a change that a rebuild reports as none. *)
Lemma noticed_changes_witness :
  merged_graphics ≠ manifest ∧ has_manifest_changes manifest merged_graphics = false.
Proof.
  split; [by vm_compute|].
  apply (noticed_changes blake3 manifest graphics_only [] merged_graphics); vm_compute; reflexivity.
Defined.

End RebuildDemo.
