(* ===== verification/NarDump.v ===== *)
(** * Reading a path back as an archive ([local_build.rs])

    The serialization of a path for its NAR hash, the scan for references, and the round
    trip with extraction ([NarExtract]).  The bytes of an archive and their digest are
    nix-compat's and sha2's: [NarWriter]. *)

From S2P Require Import Prelude RustStd FileSys FileSysFacts Nar NarExtract NarFacts Activate ManifestInstances.

Open Scope Z_scope.

Class NarWriter : Type := {
  nar_bytes : nar → string;
  sha256_hex : string → string;
}.

Section dump.
Context `{FL : FsLimits}.

(** The children of a directory, one after the other *)
Fixpoint dump_entries (dump : path → result io_error nar) (p : path) (names : list string)
    : result io_error (list (string * nar)) :=
  match names with
  | [] => Ok []
  | name :: names' =>
      child ← dump (Path.join p [Normal name]);
      rest ← dump_entries dump p names';
      Ok ((name, child) :: rest)
  end.

Definition executable_mode (mode : Z) : bool := negb (bool_decide (Z.land mode 0x49 = 0)).

(** [write_path_to_nar]; a path deeper than [max_depth] is longer than the system accepts *)
Fixpoint write_path_to_nar (depth : nat) (t : tree) (p : path) : result io_error nar :=
  match depth with
  | O => Err NameTooLong
  | S depth' =>
      meta ← symlink_metadata t p;
      match meta with
      | Link _ => target ← read_link t p; Ok (NarSymlink target)
      | File _ mode => contents ← read_file t p; Ok (NarFile (executable_mode mode) contents None)
      | Dir _ =>
          es ← read_dir t p;
          entries ← dump_entries (write_path_to_nar depth' t) p (merge_sort String.le es.*1);
          Ok (NarDirectory entries None)
      end
  end.

(** [nar_hash_path] *)
Definition nar_hash_path `{NarWriter} (t : tree) (p : path) : result io_error (string * Z) :=
  n ← write_path_to_nar max_depth t p;
  let buf := nar_bytes n in
  Ok ("sha256:" +:+ sha256_hex buf, Z.of_nat (String.length buf)).

(** ** References *)
Fixpoint scan_entries (scan : path → result io_error (list string)) (p : path) (names : list string)
    : result io_error (list string) :=
  match names with
  | [] => Ok []
  | name :: names' =>
      texts ← scan (Path.join p [Normal name]);
      rest ← scan_entries scan p names';
      Ok (texts ++ rest)
  end.

(** The texts [scan_path_with_scanner] feeds to the scanner *)
Fixpoint scan_path_with_scanner (depth : nat) (t : tree) (p : path) : result io_error (list string) :=
  match depth with
  | O => Err NameTooLong
  | S depth' =>
      meta ← symlink_metadata t p;
      match meta with
      | File _ _ => content ← read_file t p; Ok [content]
      | Dir _ => es ← read_dir t p; scan_entries (scan_path_with_scanner depth' t) p es.*1
      | Link _ => target ← read_link t p; Ok [Str.from_utf8_lossy target]
      end
  end.

(** The scanner of snix-castore reports the patterns that occur in a text it was fed. *)
Class ReferenceScanner : Type := {
  matches : string → string → bool;
  matches_spec : ∀ hash text, matches hash text = Str.contains hash text;
}.

(** [candidates] maps digests to store paths. *)
Definition scan_references `{ReferenceScanner} (t : tree) (p : path) (candidates : gmap string string)
    : result io_error (gset string) :=
  if decide (candidates = ∅) then Ok ∅
  else
    texts ← scan_path_with_scanner max_depth t p;
    Ok (list_to_set (snd <$> filter (λ e, existsb (matches e.1) texts = true) (map_to_list candidates))).

End dump.

(** ** Round trip with extraction *)

(** The archive that is read back: entries by name, nothing broken *)
Fixpoint canonical (n : nar) : nar :=
  match n with
  | NarFile x c _ => NarFile x c None
  | NarSymlink g => NarSymlink g
  | NarDirectory es _ =>
      NarDirectory (merge_sort BTree.key_le ((λ e : string * nar, (e.1, canonical e.2)) <$> es)) None
  end.

Fixpoint nar_height (n : nar) : nat :=
  match n with
  | NarDirectory es _ => S (max_list ((λ e : string * nar, nar_height e.2) <$> es))
  | _ => 0
  end.

#[local] Existing Instances BTree.key_le_dec BTree.key_le_total BTree.key_le_trans.

Lemma sorted_by_key_unique {V} (l1 l2 : list (string * V)) :
  NoDup l1.*1 → StronglySorted BTree.key_le l1 → StronglySorted BTree.key_le l2 → l1 ≡ₚ l2 → l1 = l2.
Proof.
  intros Hnd H1 H2 Hp. apply (StronglySorted_unique_strong BTree.key_le); [|done..].
  intros [k1 v1] [k2 v2] Hx Hy Hle Hge. rewrite <- Hp in Hy. unfold BTree.key_le in *. simpl in *.
  assert (k1 = k2) as -> by (by apply (anti_symm String.le)).
  clear -Hnd Hx Hy. induction l1 as [|[k v] l IH]; [by apply elem_of_nil in Hx|].
  rewrite fmap_cons in Hnd. apply NoDup_cons in Hnd as [Hk Hnd]. rewrite !elem_of_cons in Hx, Hy.
  destruct Hx as [Hx|Hx], Hy as [Hy|Hy]; [congruence|..|by apply IH].
  - simplify_eq. contradict Hk. apply list_elem_of_fmap. by exists (k, v2).
  - simplify_eq. contradict Hk. apply list_elem_of_fmap. by exists (k, v1).
Qed.

Lemma executable_extracted (x : bool) : executable_mode (if x then 0x16D else 0x124) = x.
Proof. by destruct x. Qed.

Section roundtrip.
Context `{FL : FsLimits}.
Implicit Types (t : tree) (p : path).

(** The tree at [p] is the archive, as after its extraction *)
Definition unpacked_at t p (n : nar) : Prop := ∀ q, node_like (t !! (p ++ q)) (nar_at n q).

(** The answer is [v], or an error that has a reason *)
Definition answers {A} (r : result io_error A) (v : A) (refused : Prop) : Prop :=
  r = Ok v ∨ (∃ e, r = Err e) ∧ refused.

Lemma answers_bind {A B} (r : result io_error A) v (f : A → result io_error B) w (R : Prop) :
  answers r v R → answers (f v) w R → answers (r ≫= f) w R.
Proof. intros [->|[[e ->] HR]] Hf; [exact Hf|]. right. split; [by exists e|done]. Qed.

Lemma answers_mono {A} (r : result io_error A) v (R R' : Prop) : answers r v R → (R → R') → answers r v R'.
Proof. intros [->|[He H]] HR; [by left|right; auto]. Qed.

(** The reasons a read has to fail: a fault of the system, a path that is too long *)
#[local] Instance short_dec p : Decision (short p).
Proof. unfold short. apply _. Defined.

Definition obstacle p : Prop := (∃ op q, fs_fault op q ≠ None) ∨ ¬ short p.

(** Below real directories *)
Definition real_place t p : Prop := abs_path p ∧ p ≠ [RootDir] ∧ Forall (dir_at t) (ancestors p).

Lemma real_child t p n : real_place t p → dir_at t p → real_place t (p ++ [Normal n]).
Proof.
  intros (Ha & Hr & Hd) Hp. pose proof Ha as [ns ->]. split_and!.
  - exists (ns ++ [n]). by rewrite fmap_app.
  - apply tmp_not_root.
  - rewrite ancestors_snoc by (destruct ns; [done|simpl; lia]). apply Forall_app. split; [done|by constructor].
Qed.

Lemma resolve_real t follow p :
  real_place t p → (follow = true → not_link t p) → short p → resolve t follow p = Ok p.
Proof.
  intros (Ha & Hr & Hd) Hl Hs. destruct follow; [by apply resolve_dirs; auto|].
  destruct Ha as [ns ->]. unfold resolve. rewrite decide_False by (unfold short in Hs; lia). rewrite walk_root.
  apply (walk_dirs _ _ ns [RootDir]). intros q [k Hk] Hne Hlen.
  change ([RootDir] ++ (Normal <$> ns)) with (RootDir :: (Normal <$> ns)) in *. rewrite Hk in *.
  rewrite Forall_forall in Hd. apply Hd. unfold ancestors. apply list_elem_of_fmap. exists (length q).
  split; [by rewrite take_app_length|]. apply elem_of_seq. rewrite length_app.
  destruct k; [by rewrite app_nil_r in Hne|simpl in *; lia].
Qed.

Lemma resolve_answers t follow p :
  real_place t p → (follow = true → not_link t p) → answers (resolve t follow p) p (obstacle p).
Proof.
  intros Hp Hl. destruct (decide (short p)) as [Hs|Hs]; [left; by apply resolve_real|].
  right. split; [|by right]. unfold resolve. unfold short in Hs. rewrite decide_True by lia. by eexists.
Qed.

Lemma stat_answers t follow p nd :
  real_place t p → (follow = true → not_link t p) → t !! p = Some nd →
  answers (stat_with follow t p) (p, nd) (obstacle p).
Proof.
  intros Hp Hl Hn. unfold stat_with. destruct (fs_fault OpStat p) as [e|] eqn:Ef.
  { right. split; [by exists e|]. left. exists OpStat, p. by rewrite Ef. }
  eapply answers_bind; [by apply resolve_answers|]. left. unfold node_at.
  rewrite decide_False by apply Hp. by rewrite Hn.
Qed.

Lemma lstat_answers t p nd :
  real_place t p → t !! p = Some nd → answers (symlink_metadata t p) nd (obstacle p).
Proof.
  intros Hp Hn. unfold symlink_metadata.
  destruct (stat_answers t false p nd Hp ltac:(done) Hn) as [->|[[e ->] He]]; [by left|right; split; [by exists e|done]].
Qed.

Lemma read_file_answers t p c m :
  real_place t p → t !! p = Some (File c m) → answers (read_file t p) c (obstacle p).
Proof.
  intros Hp Hn. unfold read_file. destruct (fs_fault OpRead p) as [e|] eqn:Ef.
  { right. split; [by exists e|]. left. exists OpRead, p. by rewrite Ef. }
  eapply answers_bind; [apply resolve_answers; [done|]; intros _ g; congruence|].
  left. unfold node_at. rewrite decide_False by apply Hp. by rewrite Hn.
Qed.

Lemma read_dir_answers t p :
  real_place t p → dir_at t p → answers (read_dir t p) (children t p) (obstacle p).
Proof.
  intros Hp [m Hn]. unfold read_dir. destruct (fs_fault OpReadDir p) as [e|] eqn:Ef.
  { right. split; [by exists e|]. left. exists OpReadDir, p. by rewrite Ef. }
  eapply answers_bind; [apply resolve_answers; [done|]; intros _ g; congruence|].
  left. unfold node_at. rewrite decide_False by apply Hp. by rewrite Hn.
Qed.

Lemma read_link_answers t p g :
  real_place t p → t !! p = Some (Link g) → answers (read_link t p) g (obstacle p).
Proof.
  intros Hp Hn. unfold read_link. destruct (lstat_answers t p _ Hp Hn) as [->|[[e ->] He]]; [by left|].
  right. split; [by exists e|done].
Qed.

Lemma children_keys t dir : NoDup (children t dir).*1 ∧ ∀ n, n ∈ (children t dir).*1 ↔ is_Some (t !! (dir ++ [Normal n])).
Proof.
  unfold children. fold (children_map t dir). split; [apply BTree.NoDup_keys|]. intros n.
  fold (BTree.keys (children_map t dir)). by rewrite BTree.elem_of_keys, children_map_lookup.
Qed.

Definition canonical_entries (es : list (string * nar)) : list (string * nar) :=
  (λ e : string * nar, (e.1, canonical e.2)) <$> es.

Definition entry_map (es : list (string * nar)) : gmap string nar := list_to_map (canonical_entries es).

Definition named_entries (es : list (string * nar)) (names : list string) : list (string * nar) :=
  omap (λ name, (name,.) <$> entry_map es !! name) names.

Lemma canonical_keys es : (canonical_entries es).*1 = es.*1.
Proof. unfold canonical_entries. rewrite <- list_fmap_compose. by apply list_fmap_ext. Qed.

Lemma entry_map_lookup es name child :
  NoDup es.*1 → (name, child) ∈ es → entry_map es !! name = Some (canonical child).
Proof.
  intros Hnd Hin. apply elem_of_list_to_map_1; [by rewrite canonical_keys|].
  apply list_elem_of_fmap. by exists (name, child).
Qed.

(** Reading the entries in the order of their names gives the canonical order. *)
Lemma named_entries_sorted es names :
  NoDup es.*1 → names ≡ₚ es.*1 →
  named_entries es (merge_sort String.le names) = merge_sort BTree.key_le (canonical_entries es).
Proof.
  intros Hnd Hp.
  assert (Hall : ∀ l, l ⊆ es.*1 → (named_entries es l).*1 = l).
  { induction l as [|name l IH]; intros Hl; [done|]. unfold named_entries. cbn [omap list_omap].
    destruct (entry_map es !! name) as [c|] eqn:E.
    - simpl. f_equal. apply IH. set_solver.
    - exfalso. apply not_elem_of_list_to_map_2 in E. rewrite canonical_keys in E. apply E, Hl. by left. }
  assert (Hs : (named_entries es (merge_sort String.le names)).*1 = merge_sort String.le names).
  { apply Hall. intros x. by rewrite merge_sort_Permutation, Hp. }
  apply sorted_by_key_unique.
  - by rewrite Hs, merge_sort_Permutation, Hp.
  - assert (Hss : StronglySorted String.le (named_entries es (merge_sort String.le names)).*1)
      by (rewrite Hs; apply StronglySorted_merge_sort; apply _).
    revert Hss. generalize (named_entries es (merge_sort String.le names)).
    induction l as [|e l IH]; intros Hss; [constructor|]. rewrite fmap_cons in Hss.
    apply StronglySorted_inv in Hss as [H1 H2]. constructor; [by apply IH|].
    apply Forall_forall. intros x Hx. rewrite Forall_forall in H2. apply H2. by apply list_elem_of_fmap_2.
  - apply StronglySorted_merge_sort; apply _.
  - rewrite (merge_sort_Permutation BTree.key_le (canonical_entries es)).
    assert (Hl1 : NoDup (named_entries es (merge_sort String.le names)))
      by (apply (NoDup_fmap_1 fst); by rewrite Hs, merge_sort_Permutation, Hp).
    assert (Hl2 : NoDup (canonical_entries es)) by (apply (NoDup_fmap_1 fst); by rewrite canonical_keys).
    apply NoDup_Permutation; [done..|]. intros [name c]. unfold named_entries. rewrite list_elem_of_omap.
    setoid_rewrite merge_sort_Permutation. setoid_rewrite Hp.
    assert (Hc : (canonical_entries es).*1 = es.*1) by apply canonical_keys. split.
    + intros (name' & Hin & He). destruct (entry_map es !! name') as [c'|] eqn:E; [|done]. simplify_eq/=.
      by apply elem_of_list_to_map_2 in E.
    + intros Hin. exists name. split.
      * rewrite <- Hc. apply list_elem_of_fmap. by exists (name, c).
      * assert (E : entry_map es !! name = Some c) by (apply elem_of_list_to_map_1; [by rewrite Hc|done]). by rewrite E.
Qed.

(** What makes reading an archive back fail *)
Definition refused (depth : nat) t p (n : nar) : Prop :=
  (depth ≤ nar_height n)%nat ∨ ∃ q, p `prefix_of` q ∧ is_Some (t !! q) ∧ obstacle q.

Lemma nar_at_nil n : ∃ nd, nar_at n [] = Some nd.
Proof. destruct n; by eexists. Qed.

Lemma unpacked_some t p n : unpacked_at t p n → is_Some (t !! p).
Proof.
  intros Hu. specialize (Hu []). rewrite app_nil_r in Hu. destruct (nar_at_nil n) as [nd Hnd]. rewrite Hnd in Hu.
  destruct (t !! p) as [[]|]; [by eexists..|]. destruct nd; simpl in Hu; done.
Qed.

Lemma unpacked_child t p es b name child :
  unpacked_at t p (NarDirectory es b) → NoDup es.*1 → (name, child) ∈ es → unpacked_at t (p ++ [Normal name]) child.
Proof.
  intros Hu Hnd Hin q. rewrite <- app_assoc. simpl. specialize (Hu (Normal name :: q)).
  rewrite nar_at_dir in Hu. by rewrite (entries_at_elem _ _ child) in Hu.
Qed.

Lemma unpacked_children t p es b :
  unpacked_at t p (NarDirectory es b) → NoDup es.*1 → (children t p).*1 ≡ₚ es.*1.
Proof.
  intros Hu Hnd. destruct (children_keys t p) as [Hk Hin]. apply NoDup_Permutation; [done..|].
  intros name. rewrite Hin. split.
  - intros [nd Hnd']. specialize (Hu [Normal name]). rewrite Hnd', nar_at_dir in Hu. unfold entries_at in Hu.
    destruct (list_find (λ e, e.1 = name) es) as [[i [name' child]]|] eqn:E; [|destruct nd; simpl in Hu; done].
    apply list_find_Some in E as (Hi & He & _). simpl in He. subst name'.
    apply list_elem_of_fmap. exists (name, child). split; [done|]. by eapply list_elem_of_lookup_2.
  - intros ([name' child] & -> & He)%list_elem_of_fmap. by eapply unpacked_some, unpacked_child.
Qed.

Lemma height_child es b name child : (name, child) ∈ es → (nar_height child < nar_height (NarDirectory es b))%nat.
Proof.
  intros Hin. cbn [nar_height]. assert (nar_height child ≤ max_list ((λ e : string * nar, nar_height e.2) <$> es))%nat; [|lia].
  apply max_list_elem_of_le. apply list_elem_of_fmap. by exists (name, child).
Qed.

Lemma refused_child depth t p es b name child :
  (name, child) ∈ es → refused depth t (p ++ [Normal name]) child → refused (S depth) t p (NarDirectory es b).
Proof.
  intros Hin [Hd|(q & [k ->] & Hq & Ho)].
  - left. pose proof (height_child es b name child Hin). lia.
  - right. eexists. split; [|split; [exact Hq|exact Ho]]. exists ([Normal name] ++ k). by rewrite app_assoc.
Qed.

Lemma refused_here depth t p n : is_Some (t !! p) → obstacle p → refused depth t p n.
Proof. intros Hs Ho. right. by exists p. Qed.

Lemma dump_entries_unpacked depth t p es b names :
  (∀ name child, (name, child) ∈ es →
     answers (write_path_to_nar depth t (p ++ [Normal name])) (canonical child) (refused depth t (p ++ [Normal name]) child)) →
  abs_path p → NoDup es.*1 → names ⊆ es.*1 →
  answers (dump_entries (write_path_to_nar depth t) p names) (named_entries es names)
    (refused (S depth) t p (NarDirectory es b)).
Proof.
  intros IH Ha Hnd. induction names as [|name names IHn]; intros Hsub; [by left|].
  assert (Hin : name ∈ es.*1) by (apply Hsub; by left). apply list_elem_of_fmap in Hin as ([name' child] & -> & Hin).
  cbn [dump_entries fst] in *.
  assert (Hj : Path.join p [Normal name'] = p ++ [Normal name']) by by destruct Ha as [ns ->].
  rewrite Hj. eapply answers_bind; [eapply answers_mono; [by apply IH|]; by apply refused_child|].
  eapply answers_bind; [apply IHn; set_solver|]. left. unfold named_entries. cbn [omap list_omap].
  by rewrite (entry_map_lookup es name' child).
Qed.

(** Reading back a place that is an archive gives the archive in its canonical order. *)
Lemma dump_unpacked n : ∀ depth t p,
  real_place t p → unpacked_at t p n → names_ok n →
  answers (write_path_to_nar depth t p) (canonical n) (refused depth t p n).
Proof.
  induction n as [x c b|g|es b IH] using nar_ind'; intros depth t p Hp Hu Hok;
    (destruct depth as [|depth]; [right; split; [by exists NameTooLong|left; simpl; lia]|]);
    pose proof (unpacked_some _ _ _ Hu) as Hs; pose proof (Hu []) as Hn; rewrite app_nil_r in Hn; cbn [nar_at] in Hn;
    destruct Hs as [nd Hnd]; rewrite Hnd in Hn; cbn [write_path_to_nar].
  - destruct nd; simpl in Hn; simplify_eq.
    eapply answers_bind; [eapply answers_mono; [by apply lstat_answers|by apply refused_here]|].
    eapply answers_bind; [eapply answers_mono; [by eapply read_file_answers|by apply refused_here]|].
    left. by rewrite executable_extracted.
  - destruct nd; simpl in Hn; simplify_eq.
    eapply answers_bind; [eapply answers_mono; [by apply lstat_answers|by apply refused_here]|].
    eapply answers_bind; [eapply answers_mono; [by apply read_link_answers|by apply refused_here]|]. by left.
  - apply names_ok_dir in Hok as (Hnd' & Hemp & Hok). destruct nd as [| |m]; simpl in Hn; simplify_eq.
    eapply answers_bind; [eapply answers_mono; [by apply lstat_answers|by apply refused_here]|].
    eapply answers_bind; [eapply answers_mono; [apply read_dir_answers; [done|by exists m]|by apply refused_here]|].
    pose proof (unpacked_children _ _ _ _ Hu Hnd') as Hperm.
    eapply answers_bind.
    + apply (dump_entries_unpacked depth t p es b).
      * intros name child Hin. rewrite Forall_forall in IH, Hok. apply (IH (name, child) Hin).
        -- apply real_child; [done|by exists m].
        -- by eapply unpacked_child.
        -- by apply (Hok (name, child)).
      * apply Hp.
      * done.
      * intros x. by rewrite merge_sort_Permutation, Hperm.
    + left. cbn [canonical]. do 2 f_equal. by apply named_entries_sorted.
Qed.

(** ** References *)

(** The text a node holds, as the scanner sees it *)
Definition text_at t (q : path) (x : string) : Prop :=
  (∃ m, t !! q = Some (File x m)) ∨ ∃ g, t !! q = Some (Link g) ∧ x = Str.from_utf8_lossy g.

Lemma lstat_real t p nd : real_place t p → symlink_metadata t p = Ok nd → t !! p = Some nd.
Proof.
  intros (Ha & Hr & Hd). unfold symlink_metadata, stat_with. destruct (fs_fault OpStat p); [done|].
  destruct (resolve_plain t false p) as [E|[e E]]; [by apply plain_dirs|done| |by rewrite E].
  rewrite E. simpl. unfold node_at. rewrite decide_False by done. destruct (t !! p); [|done]. by intros [= ->].
Qed.

Lemma real_above t p q : real_place t q → p `prefix_of` q → p ≠ q → (2 ≤ length p)%nat → dir_at t p.
Proof.
  intros (_ & _ & Hd) [k ->] Hne Hl. rewrite Forall_forall in Hd. apply Hd. unfold ancestors.
  apply list_elem_of_fmap. exists (length p). split; [by rewrite take_app_length|].
  apply elem_of_seq. rewrite length_app. destruct k; [by rewrite app_nil_r in Hne|simpl; lia].
Qed.

Lemma real_length t p : real_place t p → (2 ≤ length p)%nat.
Proof. intros ([ns ->] & Hr & _). destruct ns; [done|simpl; lia]. Qed.

(** Below something that is not a directory there is nothing else. *)
Lemma only_here t p q : real_place t p → ¬ dir_at t p → real_place t q → p `prefix_of` q → q = p.
Proof.
  intros Hp Hn Hq Hpre. destruct (decide (p = q)) as [->|Hne]; [done|]. exfalso. apply Hn.
  eapply real_above; [exact Hq|done..|by eapply real_length].
Qed.

Definition scans t p (texts : list string) : Prop :=
  ∀ x, x ∈ texts ↔ ∃ q, p `prefix_of` q ∧ real_place t q ∧ text_at t q x.

Lemma scan_entries_ok (scan : path → result io_error (list string)) t p names : ∀ texts,
  abs_path p → scan_entries scan p names = Ok texts →
  (∀ name l, name ∈ names → scan (p ++ [Normal name]) = Ok l → scans t (p ++ [Normal name]) l) →
  ∀ x, x ∈ texts ↔ ∃ name q, name ∈ names ∧ (p ++ [Normal name]) `prefix_of` q ∧ real_place t q ∧ text_at t q x.
Proof.
  induction names as [|name names IH]; intros texts Ha H Hs x; cbn [scan_entries] in H.
  { injection H as <-. split; [by intros ?%elem_of_nil|]. by intros (? & ? & ?%elem_of_nil & _). }
  assert (Hj : Path.join p [Normal name] = p ++ [Normal name]) by by destruct Ha as [ns ->]. rewrite Hj in H.
  apply result_bind_ok in H as (l & Hl & H). apply result_bind_ok in H as (rest & Hrest & H). injection H as <-.
  rewrite elem_of_app. rewrite (Hs name l ltac:(left) Hl x).
  rewrite (IH rest Ha Hrest ltac:(intros n l' Hn; apply Hs; by right) x). setoid_rewrite elem_of_cons. naive_solver.
Qed.

Lemma scan_ok depth : ∀ t p texts,
  real_place t p → scan_path_with_scanner depth t p = Ok texts → scans t p texts.
Proof.
  induction depth as [|depth IH]; intros t p texts Hp H; [done|]. cbn [scan_path_with_scanner] in H.
  apply result_bind_ok in H as (nd & Hst & H). pose proof (lstat_real _ _ _ Hp Hst) as Hn.
  destruct nd as [c m|g|m].
  - apply result_bind_ok in H as (c' & Hc & H). injection H as <-.
    destruct (read_file_answers t p c m Hp Hn) as [E|[[e E] _]]; rewrite E in Hc; simplify_eq.
    intros x. rewrite list_elem_of_singleton. split.
    + intros ->. exists p. split; [done|]. split; [done|]. left. by exists m.
    + intros (q & Hpre & Hq & Ht). rewrite (only_here t p q) in Ht; [|done| |done|done].
      * destruct Ht as [[? ?]|(? & ? & _)]; congruence.
      * intros [? ?]. congruence.
  - apply result_bind_ok in H as (g' & Hg & H). injection H as <-.
    destruct (read_link_answers t p g Hp Hn) as [E|[[e E] _]]; rewrite E in Hg; simplify_eq.
    intros x. rewrite list_elem_of_singleton. split.
    + intros ->. exists p. split; [done|]. split; [done|]. right. by exists g'.
    + intros (q & Hpre & Hq & Ht). rewrite (only_here t p q) in Ht; [|done| |done|done].
      * destruct Ht as [[? ?]|(? & ? & ->)]; congruence.
      * intros [? ?]. congruence.
  - apply result_bind_ok in H as (es & Hes & H).
    destruct (read_dir_answers t p Hp ltac:(by exists m)) as [E|[[e E] _]]; rewrite E in Hes; simplify_eq.
    assert (Hd : dir_at t p) by by exists m.
    intros x. rewrite (scan_entries_ok _ t p _ texts (proj1 Hp) H).
    + destruct (children_keys t p) as [_ Hk]. split.
      * intros (name & q & _ & [k ->] & Hq & Ht). exists ((p ++ [Normal name]) ++ k).
        split; [|done]. exists ([Normal name] ++ k). by rewrite app_assoc.
      * intros (q & [k ->] & Hq & Ht). destruct k as [|c k].
        { rewrite app_nil_r in Ht. destruct Ht as [[? ?]|(? & ? & _)]; congruence. }
        assert (Hc : ∃ name, c = Normal name).
        { destruct Hq as ([ns Hns] & _). destruct Hp as ([ns' ->] & _). simpl in Hns. injection Hns as Hns.
          assert (Hin : c ∈ (Normal <$> ns)) by (rewrite <- Hns; apply elem_of_app; right; left).
          apply list_elem_of_fmap in Hin as (name & -> & _). by exists name. }
        destruct Hc as [name ->]. exists name, (p ++ Normal name :: k). rewrite Hk. split_and!; [|by exists k; rewrite <- app_assoc|done..].
        destruct k as [|c' k]; [destruct Ht as [[? ?]|(? & ? & _)]; by eexists|].
        destruct (real_above t (p ++ [Normal name]) (p ++ Normal name :: c' :: k)) as [m' Hm']; [done| | | |by eexists].
        -- exists (c' :: k). by rewrite <- app_assoc.
        -- intros He. apply (f_equal length) in He. rewrite !length_app in He. simpl in He. lia.
        -- pose proof (real_length _ _ Hp). rewrite length_app. simpl. lia.
    + intros name l Hin Hl. apply IH; [|done]. by apply real_child.
Qed.

End roundtrip.

(** C25. The references recorded for a built path are exact: a candidate store path is reported
    exactly when its digest occurs in the contents of some file, or in the target of some
    link, at or below the path. *)
Theorem references_exact `{FL : FsLimits} `{RS : ReferenceScanner} t p candidates refs :
  real_place t p → scan_references t p candidates = Ok refs →
  ∀ r, r ∈ refs ↔ ∃ hash, candidates !! hash = Some r
       ∧ ∃ q x, p `prefix_of` q ∧ real_place t q ∧ text_at t q x ∧ Str.contains hash x = true.
Proof.
  intros Hp H r. unfold scan_references in H. case_decide as Hc.
  { injection H as <-. split; [by intros ?%not_elem_of_empty|]. intros (h & Hh & _). subst. by rewrite lookup_empty in Hh. }
  apply result_bind_ok in H as (texts & Ht & H). injection H as <-. pose proof (scan_ok _ _ _ _ Hp Ht) as Hs.
  rewrite elem_of_list_to_set, list_elem_of_fmap. split.
  - intros ([h r'] & -> & [He Hin]%list_elem_of_filter). apply elem_of_map_to_list in Hin. exists h. split; [done|].
    apply existsb_exists in He as (x & Hx & Hm). rewrite matches_spec in Hm. apply list_elem_of_In, Hs in Hx as (q & ? & ? & ?).
    by exists q, x.
  - intros (h & Hh & q & x & Hpre & Hq & Hx & Hm). exists (h, r). split; [done|]. apply list_elem_of_filter.
    split; [|by apply elem_of_map_to_list]. apply existsb_exists. exists x. split; [|by rewrite matches_spec].
    apply list_elem_of_In, Hs. by exists q.
Qed.

(** C14. What is hashed is what was unpacked.  After an archive has been extracted into an empty
    place below real directories, the NAR hash of that place is the digest of the archive
    itself in canonical form, entries by name, executable bits included; reading it back
    fails only for a reason: a fault of the system, a path longer than it accepts, an
    archive deeper than such a path. *)
Theorem nar_hash_roundtrip `{FL : FsLimits} `{NW : NarWriter} node dest s s' manifest :
  let p := Path.components dest in
  real_place (fs_tree s') p → plain (fs_tree s) p → p ≠ [RootDir] → clear (fs_tree s) p → names_ok node →
  extract_with_manifest (Ok node) dest s = (Ok manifest, s') →
  answers (nar_hash_path (fs_tree s') p)
    ("sha256:" +:+ sha256_hex (nar_bytes (canonical node)), Z.of_nat (String.length (nar_bytes (canonical node))))
    (refused max_depth (fs_tree s') p node).
Proof.
  intros p Hreal Hp Hr Hc Hok H. unfold extract_with_manifest, lift, mbind, F_bind, SR_bind in H. fold p in H.
  apply extract_node_run in H as [_ O]; [|done..]. destruct (O manifest eq_refl) as [_ Hn].
  unfold nar_hash_path. eapply answers_bind; [by apply dump_unpacked|by left].
Qed.

Module DumpDemo.

#[local] Instance demo_writer : NarWriter := {|
  nar_bytes n := match n with NarDirectory es _ => "d" +:+ Str.join "," es.*1 | NarFile _ c _ => c | NarSymlink g => g end;
  sha256_hex s := s;
|}.

Definition archive : nar :=
  NarDirectory [("doc", NarSymlink "/share/doc"); ("bin", NarDirectory [("rg", NarFile true "ripgrep" None)] None)] None.
Definition dest : string := "/nix/a-rg".
Definition disk : fsys := mkFsys (<[Path.components "/nix" := Dir 493]> ∅) [].
Definition unpacked := extract_with_manifest (Ok archive) dest disk.

Lemma read_back : write_path_to_nar 10 (fs_tree unpacked.2) (Path.components dest) = Ok (canonical archive).
Proof. vm_compute. reflexivity. Qed.

Lemma nar_hash_roundtrip_witness :
  answers (nar_hash_path (fs_tree unpacked.2) (Path.components dest)) ("sha256:dbin,doc", 8)
    (refused max_depth (fs_tree unpacked.2) (Path.components dest) archive).
Proof.
  assert (Ho : ∃ m, unpacked.1 = Ok m) by (eexists; vm_compute; reflexivity). destruct Ho as [m Hm].
  refine (nar_hash_roundtrip archive dest disk unpacked.2 m _ _ _ _ _ _).
  - split; [by exists ["nix"; "a-rg"]|]. split; [vm_compute; discriminate|].
    constructor; [|constructor]. exists 493. vm_compute. reflexivity.
  - apply plain_ancestors; [by exists ["nix"; "a-rg"]|]. repeat constructor. intros target. vm_compute. discriminate.
  - vm_compute. discriminate.
  - intros k [q ->]. change (fs_tree disk) with (<[Path.components "/nix" := Dir 493]> (∅ : tree)).
    rewrite lookup_insert_ne; [done|]. vm_compute. discriminate.
  - assert (Hlist : ∀ es : list (string * nar), bool_decide (NoDup es.*1) && bool_decide ("" ∉ es.*1) = true →
      NoDup es.*1 ∧ ("" ∉ es.*1)) by (intros es [H1 H2]%andb_true_iff; split; by eapply bool_decide_eq_true_1).
    assert (Hbin : names_ok (NarDirectory [("rg", NarFile true "ripgrep" None)] None)).
    { apply names_ok_dir. split; [by apply Hlist|]. split; [by apply Hlist|]. by repeat constructor. }
    apply names_ok_dir. split; [by apply Hlist|]. split; [by apply Hlist|].
    constructor; [done|]. constructor; [exact Hbin|constructor].
  - rewrite <- Hm. apply surjective_pairing.
Defined.

#[local] Instance demo_scanner : ReferenceScanner := {| matches := Str.contains; matches_spec _ _ := eq_refl |}.

Definition built : tree := <[Path.components "/nix/b" := File "see /nix/store/aaa-x" 292]> (<[Path.components "/nix" := Dir 493]> ∅).
Definition known : gmap string string := <["aaa" := "/nix/store/aaa-x"]> {[ "bbb" := "/nix/store/bbb-y" ]}.

Lemma references_exact_witness :
  scan_references built (Path.components "/nix/b") known = Ok {[ "/nix/store/aaa-x" ]}
  ∧ ("/nix/store/aaa-x" ∈ ({[ "/nix/store/aaa-x" ]} : gset string) ↔
     ∃ hash, known !! hash = Some "/nix/store/aaa-x"
     ∧ ∃ q x, Path.components "/nix/b" `prefix_of` q ∧ real_place built q ∧ text_at built q x ∧ Str.contains hash x = true).
Proof.
  split; [vm_compute; reflexivity|]. apply (references_exact built (Path.components "/nix/b") known).
  - split; [by exists ["nix"; "b"]|]. split; [vm_compute; discriminate|].
    constructor; [|constructor]. exists 493. vm_compute. reflexivity.
  - vm_compute. reflexivity.
Defined.

End DumpDemo.
