(* ===== verification/Fetchers.v ===== *)
(** * Builtin fetchers ([fetchers.rs])

    Downloading for [builtin:fetchurl] and its like: flat files, NAR archives, tarballs
    that are unpacked into the store, and the verification of what was fetched.  The
    download, the decoders, the tar reader and the parsing of derivations into fetches
    are other crates'. *)

From S2P Require Import Prelude RustStd FileSys Nar PathInfo NarExtract StoreExtract NarDump AllowList.

Open Scope Z_scope.

(** [nix_compat::nixhash::NixHash]; a SHA-256 digest in hexadecimal *)
Inductive NixHash : Type :=
  | Sha256 (hex : string)
  | OtherHash.

(** [snix_glue::fetchers::Fetch] *)
Inductive Fetch : Type :=
  | FetchURL (url : string) (exp_hash : option NixHash)
  | FetchTarball (url : string) (exp_nar_sha256 : option string)
  | FetchNAR (url : string) (hash : NixHash)
  | FetchExecutable (url : string) (hash : NixHash)
  | FetchGit.

(** ** Tar archives, as the tar crate hands out their entries *)
Inductive tar_kind : Type := TarRegular | TarDirectory | TarSymlink | TarLink | TarOther.

Record tar_entry : Type := mkTarEntry {
  te_kind : tar_kind;
  te_path : string;
  te_contents : string;
  te_broken : option io_error;
  te_mode : option Z;
  te_link : result io_error (option string);
}.

Inductive FetchError : Type :=
  | FetchIo (e : io_error)
  | BadDerivation
  | NoOutput
  | BadDecompression (what : string)
  | WrongHash (expected actual : string)
  | UnsupportedHash
  | GitUnsupported.

Definition FM (A : Type) : Type := SR fsys FetchError A.
#[export] Instance FM_ret : MRet FM := SR_ret fsys FetchError.
#[export] Instance FM_bind : MBind FM := SR_bind fsys FetchError.

Definition fio {A} (m : F A) : FM A := λ s,
  match m s with (Ok a, s') => (Ok a, s') | (Err e, s') => (Err (FetchIo e), s') end.
Definition flift {A} (r : result FetchError A) : FM A := λ s, (r, s).
Definition ftree : FM tree := λ s, (Ok (fs_tree s), s).

(** A body is what could be read of it, with the error that broke it off; the decoders and
    the readers report a truncated input themselves. *)
Class FetchLib `{NarCodec} : Type := {
  http_get : string → result io_error (string * option io_error);
  gz_stream : string → stream;
  read_tar : stream → result io_error (list (result io_error tar_entry));
}.

Section fetchers.
Context `{FL : FsLimits, NC : NarCodec, FE : @FetchLib NC, NW : NarWriter}.
Context {SP : Type}.
Context (derivation_to_fetch : @Allow.Derivation SP → option Fetch).

(** ** Unpacking *)
(** The part of [extract_tar] that names the destination of an entry: the prefix to strip
    afterwards, and the path below the output, if any *)
Definition tar_relative (prefix : option path) (entry_path : path) : option path * option path :=
  let prefix := match prefix with
                | Some p => Some p
                | None => match entry_path with c :: _ => Some [c] | [] => None end
                end in
  let relative := match prefix with
                  | Some pfx => default entry_path (Path.strip_prefix entry_path pfx)
                  | None => entry_path
                  end in
  (prefix, if decide (relative = [] ∨ relative = [CurDir]) then None else Some relative).

Definition make_parent (dest : path) : F unit :=
  match Path.parent dest with Some parent => create_dir_all parent | None => mret tt end.

(** The contents read so far are written when the reader breaks off. *)
Definition copy_entry (dest : path) (e : tar_entry) : F unit :=
  write_file dest (te_contents e) ;;
  match te_broken e with Some err => fail err | None => mret tt end.

(** What is done with one entry *)
Definition tar_place (out : path) (prefix : option path) (dest : path) (e : tar_entry) : F unit :=
  match te_kind e with
  | TarRegular =>
      make_parent dest ;;
      copy_entry dest e ;;
      match te_mode e with
      | Some mode => ignore (set_permissions dest (Z.land mode 0xFFF))
      | None => mret tt
      end
  | TarDirectory => create_dir_all dest
  | TarSymlink =>
      make_parent dest ;;
      target ← lift (te_link e);
      match target with Some t => symlink t dest | None => mret tt end
  | TarLink =>
      make_parent dest ;;
      target ← lift (te_link e);
      match target with
      | None => mret tt
      | Some link_target =>
          let link_target := Path.components link_target in
          let stripped := match prefix with
                          | Some pfx => default link_target (Path.strip_prefix link_target pfx)
                          | None => link_target
                          end in
          let target_path := Path.join out stripped in
          t ← get_tree;
          if path_exists t target_path then copy target_path dest else mret tt
      end
  | TarOther => mret tt
  end.

Fixpoint extract_tar_loop (out : path) (prefix : option path) (entries : list (result io_error tar_entry)) : F unit :=
  match entries with
  | [] => mret tt
  | entry :: entries' =>
      e ← lift entry;
      let '(prefix, relative) := tar_relative prefix (Path.components (te_path e)) in
      match relative with
      | None => extract_tar_loop out prefix entries'
      | Some rel => tar_place out prefix (Path.join out rel) e ;; extract_tar_loop out prefix entries'
      end
  end.

Definition extract_tar (archive : result io_error (list (result io_error tar_entry))) (out : string) : F unit :=
  create_dir_all (Path.components out) ;;
  entries ← lift archive;
  extract_tar_loop (Path.components out) None entries.

(** ** Downloads *)
Definition gzip_magic (body : string) : bool := Str.starts_with (String "031" (String "139" "")) body.

Definition decompress_reader (url body : string) : result FetchError stream :=
  let suffix := λ l, existsb (λ x, Str.ends_with x url) l in
  if suffix [".gz"; ".tgz"] then Ok (gz_stream body)
  else if suffix [".xz"; ".txz"] then ok_or (BadDecompression "xz") (xz_decompress body)
  else if suffix [".bz2"; ".tbz2"] then Ok (bz2_stream body)
  else if suffix [".zst"; ".zstd"] then ok_or (BadDecompression "zstd") (zstd_stream body)
  else if suffix [".tar"; ".nar"] then Ok (plain_stream body)
  else if gzip_magic body then Ok (gz_stream body) else Ok (plain_stream body).

Definition get_body (url : string) : FM (string * option io_error) :=
  flift (match http_get url with Ok b => Ok b | Err e => Err (FetchIo e) end).

Definition fetch_flat (url out : string) : FM unit :=
  '(body, broken) ← get_body url;
  fio (write_file (Path.components out) body) ;;
  match broken with Some e => flift (Err (FetchIo e)) | None => mret tt end.

Definition fetch_nar (url out : string) : FM unit :=
  body ← get_body url;
  st ← flift (decompress_reader url body.1);
  fio (extract (open_nar st) out).

Definition fetch_and_unpack (url out : string) : FM unit :=
  body ← get_body url;
  st ← flift (decompress_reader url body.1);
  fio (extract_tar (read_tar st) out).

Definition env_get (drv : @Allow.Derivation SP) (key : string) : option string :=
  snd <$> (snd <$> list_find (λ kv, kv.1 = key) (Allow.environment drv)).

Definition fetch_to_store (drv : @Allow.Derivation SP) : FM unit :=
  fetch ← flift (ok_or BadDerivation (derivation_to_fetch drv));
  out ← flift (ok_or NoOutput (env_get drv "out"));
  fio (make_parent (Path.components out)) ;;
  let unpack := bool_decide (env_get drv "unpack" = Some "1") in
  match fetch with
  | FetchURL url _ => fetch_flat url out
  | FetchTarball url _ => fetch_and_unpack url out
  | FetchNAR url _ => if unpack then fetch_and_unpack url out else fetch_nar url out
  | FetchExecutable url _ => fetch_flat url out ;; fio (set_permissions (Path.components out) 0x1ED)
  | FetchGit => flift (Err GitUnsupported)
  end.

(** ** Verification *)
Definition expected_sha256 (expected : NixHash) : result FetchError string :=
  match expected with Sha256 hex => Ok hex | OtherHash => Err UnsupportedHash end.

Definition verify_flat_hash (t : tree) (out_path : string) (expected : NixHash) : result FetchError unit :=
  content ← match read_file t (Path.components out_path) with Ok c => Ok c | Err e => Err (FetchIo e) end;
  hex ← expected_sha256 expected;
  if decide (sha256_hex content = hex) then Ok tt else Err (WrongHash hex (sha256_hex content)).

Definition verify_nar_hash (t : tree) (out_path : string) (expected : NixHash) : result FetchError unit :=
  h ← match nar_hash_path t (Path.components out_path) with Ok h => Ok h | Err e => Err (FetchIo e) end;
  actual ← ok_or UnsupportedHash (Str.strip_prefix "sha256:" h.1);
  hex ← expected_sha256 expected;
  if decide (actual = hex) then Ok tt else Err (WrongHash hex actual).

Definition verify_fetch_hash (t : tree) (drv : @Allow.Derivation SP) (out_path : string) : result FetchError unit :=
  fetch ← ok_or BadDerivation (derivation_to_fetch drv);
  match fetch with
  | FetchURL _ (Some expected) => verify_flat_hash t out_path expected
  | FetchURL _ None => Ok tt
  | FetchTarball _ (Some expected) => verify_nar_hash t out_path (Sha256 expected)
  | FetchTarball _ None => Ok tt
  | FetchNAR _ hash | FetchExecutable _ hash => verify_nar_hash t out_path hash
  | FetchGit => Ok tt
  end.

End fetchers.
