(* ===== verification/FetchFacts.v ===== *)
(** * Fetchers: theorems

    Where the unpacking of a tarball writes, and where it can be made to write; what the
    verification of a fetched output has checked. *)

From S2P Require Import Prelude RustStd FileSys FileSysFacts Nar PathInfo NarExtract NarFacts StoreExtract.
From S2P Require Import NarDump AllowList ManifestInstances Fetchers.

Open Scope Z_scope.

Section confinement.
Context `{FL : FsLimits}.

(** An entry with a plain relative path, that is not a symbolic link *)
Definition clean_component (c : component) : Prop := match c with CurDir | Normal _ => True | _ => False end.

Definition clean_entry (e : result io_error tar_entry) : Prop :=
  match e with
  | Ok e => te_kind e ≠ TarSymlink ∧ Forall clean_component (Path.components (te_path e))
  | Err _ => True
  end.

(** The tree during the unpacking: as before outside [p], and no link at [p] or below *)
Definition tar_inv (p : path) (base t : tree) : Prop :=
  around p base t ∧ ∀ k, p `prefix_of` k → not_link t k.

Lemma tar_inv_plain p base t q :
  plain base p → tar_inv p base t → q `prefix_of` p ∨ p `prefix_of` q → abs_path q → plain t q.
Proof.
  intros Hp [Ha Hl] Hq Hqa.
  assert (Hpt : plain t p).
  { eapply plain_agree; [exact Hp|]. intros k Hk Hne _ Hnl target.
    destruct (Ha k) as [E|(_ & _ & m & E)]; [|rewrite E; apply Hnl|congruence].
    intros Hk'. apply Hne. by apply (anti_symm prefix). }
  destruct Hq as [Hq|Hq]; [by eapply plain_prefix|]. split; [done|]. intros k Hk Hne Hlen target.
  destruct (decide (p `prefix_of` k)) as [Hpk|Hpk]; [by apply Hl|].
  assert (Hkp : k `prefix_of` p) by (destruct (prefix_weak_total k p q); done).
  apply Hpt; [done| |done]. intros ->. by apply Hpk.
Qed.

Lemma tar_inv_insert p base t q n :
  tar_inv p base t → p `prefix_of` q → (∀ target, n ≠ Link target) → tar_inv p base (<[q := n]> t).
Proof.
  intros [Ha Hl] Hq Hn. split.
  - intros k Hk. assert (k ≠ q) by by intros ->. unfold dir_at. rewrite !lookup_insert_ne by done. by apply Ha.
  - intros k Hk target. destruct (decide (q = k)) as [->|Hne].
    + rewrite lookup_insert_eq. intros [= E]. by apply (Hn target).
    + rewrite lookup_insert_ne by done. by apply Hl.
Qed.

Lemma tar_inv_mkdir p base t q m :
  tar_inv p base t → q `prefix_of` p → t !! q = None → tar_inv p base (<[q := Dir m]> t).
Proof.
  intros Hi Hq Hn. destruct (decide (p = q)) as [->|Hne]; [by apply tar_inv_insert|]. destruct Hi as [Ha Hl].
  assert (Hpq : ¬ p `prefix_of` q) by (intros H; apply Hne; by apply (anti_symm prefix)). split.
  - intros k Hk. destruct (decide (q = k)) as [->|Hqk].
    + right. destruct (Ha k Hk) as [E|(E & _)]; (split; [congruence|]); (split; [done|]); exists m; apply lookup_insert_eq.
    + unfold dir_at. rewrite !lookup_insert_ne by done. by apply Ha.
  - intros k Hk target. rewrite lookup_insert_ne; [by apply Hl|]. by intros ->.
Qed.

Section steps.
Context (p : path) (base : tree).
Hypothesis plain_base : plain base p.

Abbreviation I := (tar_inv p base).

Lemma prefix_either (q r : path) : q `prefix_of` r → p `prefix_of` r → q `prefix_of` p ∨ p `prefix_of` q.
Proof. intros Hq Hp. by destruct (prefix_weak_total q p r); auto. Qed.

Lemma stays_tar_mkdirs q : q `prefix_of` p ∨ p `prefix_of` q → abs_path q → stays I (create_dir_all q).
Proof.
  intros Hq Ha. apply stays_create_dir_all; [|done|].
  - intros t r Ht Hr Hra. eapply tar_inv_plain; [done..| |done].
    destruct Hq as [Hq|Hq]; [left; by etrans|by eapply prefix_either].
  - intros t r m Ht Hr Hra Hroot Hn.
    assert (Hrp : r `prefix_of` p ∨ p `prefix_of` r) by (destruct Hq as [Hq|Hq]; [left; by etrans|by eapply prefix_either]).
    destruct Hrp; [by apply tar_inv_mkdir|by apply tar_inv_insert].
Qed.

Lemma tar_inv_target t q : I t → p `prefix_of` q → abs_path q → plain t q ∧ not_link t q.
Proof. intros Ht Hq Ha. split; [by eapply tar_inv_plain; eauto|]. by apply Ht. Qed.

Lemma stays_tar_write q c : p `prefix_of` q → abs_path q → stays I (write_file q c).
Proof.
  intros Hq Ha. apply stays_write_file; [intros t Ht; by apply tar_inv_target|].
  intros t text mode Ht. by apply tar_inv_insert.
Qed.

Lemma stays_tar_chmod q mode : p `prefix_of` q → abs_path q → stays I (set_permissions q mode).
Proof.
  intros Hq Ha. apply stays_set_permissions; [intros t Ht; by apply tar_inv_target|].
  intros t t' [Har Hl] Hk Hc. split.
  - intros k Hpk. assert (k ≠ q) by by intros ->. unfold dir_at. rewrite Hk by done. by apply Har.
  - intros k Hpk target. destruct (decide (k = q)) as [->|Hne]; [|rewrite Hk by done; by apply Hl].
    destruct Hc as [(c & m & _ & E)|(m & _ & [E|E])]; [congruence|rewrite E; by apply Hl|congruence].
Qed.

Lemma stays_tar_parent q : p `prefix_of` q → p ≠ q → abs_path q → stays I (make_parent q).
Proof.
  intros Hq Hne [ns ->]. unfold make_parent. destruct ns as [|n ns _] using rev_ind; [apply stays_ret|].
  rewrite parent_snoc.
  assert (E : RootDir :: (Normal <$> ns ++ [n]) = (RootDir :: (Normal <$> ns)) ++ [Normal n]) by by rewrite fmap_app.
  rewrite E in Hq. apply stays_tar_mkdirs; [|by exists ns].
  apply prefix_snoc_inv in Hq as [Hq|Hq]; [by rewrite Hq in Hne|by right].
Qed.

Lemma stays_copy_entry q e : p `prefix_of` q → abs_path q → stays I (copy_entry q e).
Proof.
  intros Hq Ha. apply stays_bind; [by apply stays_tar_write|]. intros _. destruct (te_broken e); [apply stays_fail|apply stays_ret].
Qed.

Lemma stays_tar_copy src q : p `prefix_of` q → abs_path q → stays I (copy src q).
Proof.
  intros Hq Ha. apply stays_get. intros t Ht. apply stays_bind; [apply stays_lift|]. intros c.
  apply stays_bind; [apply stays_lift|]. intros n. apply stays_bind; [by apply stays_tar_write|]. intros _.
  destruct n; [by apply stays_tar_chmod|apply stays_fail..].
Qed.

Lemma stays_tar_place prefix q e :
  te_kind e ≠ TarSymlink → p `prefix_of` q → p ≠ q → abs_path q → stays I (tar_place p prefix q e).
Proof.
  intros Hk Hq Hne Ha. unfold tar_place. destruct (te_kind e); [| |done| |apply stays_ret].
  - apply stays_bind; [by apply stays_tar_parent|]. intros _. apply stays_bind; [by apply stays_copy_entry|]. intros _.
    destruct (te_mode e); [by apply stays_ignore, stays_tar_chmod|apply stays_ret].
  - apply stays_tar_mkdirs; [by right|done].
  - apply stays_bind; [by apply stays_tar_parent|]. intros _. apply stays_bind; [apply stays_lift|]. intros [g|]; [|apply stays_ret].
    apply stays_get. intros t _. destruct (path_exists t _); [by apply stays_tar_copy|apply stays_ret].
Qed.

End steps.

(** ** Names *)
Definition clean_path (q : path) : Prop := Forall clean_component q.

Lemma tar_relative_clean prefix q prefix' rel :
  Path.wf q → clean_path q → tar_relative prefix q = (prefix', Some rel) →
  ∃ ns, ns ≠ [] ∧ ∀ out, abs_path out → Path.join out rel = out ++ (Normal <$> ns).
Proof.
  intros Hwf Hq H. unfold tar_relative in H.
  set (pfx := match prefix with Some p => Some p | None => match q with c :: _ => Some [c] | [] => None end end) in H.
  set (r := match pfx with Some pfx => default q (Path.strip_prefix q pfx) | None => q end) in H.
  assert (Hr : ∃ k, r = drop k q).
  { subst r. destruct pfx as [x|]; [|by exists 0%nat]. unfold Path.strip_prefix.
    destruct (decide (x `prefix_of` q)); [by exists (length x)|exists 0%nat; by rewrite drop_0]. }
  cbv zeta in H. change (match pfx with Some p => default q (Path.strip_prefix q p) | None => q end) with r in H.
  destruct (decide (r = [] ∨ r = [CurDir])) as [|Hne]; [by injection H|]. assert (rel = r) as -> by congruence.
  clear H. destruct Hr as [k Hr].
  assert (Htail : ∀ l, Forall Path.inner l → clean_path l → ∃ ns, l = Normal <$> ns).
  { induction l as [|c l IH]; intros Hi Hc; [by exists []|]. apply Forall_cons in Hi as [Hi1 Hi2].
    apply Forall_cons in Hc as [Hc1 Hc2]. destruct (IH Hi2 Hc2) as [ns ->]. destruct c as [| | |n]; try done. by exists (n :: ns). }
  assert (Hshape : ∃ ns, r = Normal <$> ns ∨ r = CurDir :: (Normal <$> ns)).
  { rewrite Hr. destruct k as [|k].
    - rewrite drop_0. destruct q as [|c q]; [by exists []; left|]. destruct Hwf as [_ Hi].
      apply Forall_cons in Hq as [Hc Hq]. destruct (Htail q Hi Hq) as [ns ->].
      destruct c as [| | |n]; [done|by exists ns; right|done|by exists (n :: ns); left].
    - destruct q as [|c q]; [by exists []; left|]. destruct Hwf as [_ Hi]. apply Forall_cons in Hq as [_ Hq].
      destruct (Htail (drop k q)) as [ns Hns]; [by apply Forall_drop|by apply Forall_drop|]. exists ns. left. exact Hns. }
  destruct Hshape as [ns [E|E]]; rewrite E in Hne |- *; exists ns; (split; [intros ->; apply Hne; auto|]); intros out [os ->].
  - destruct ns as [|n ns]; [exfalso; apply Hne; by left|done].
  - done.
Qed.

Lemma stays_tar_loop p base prefix entries :
  plain base p → abs_path p → Forall clean_entry entries → stays (tar_inv p base) (extract_tar_loop p prefix entries).
Proof.
  intros Hp Ha Hc. revert prefix. induction Hc as [|e entries He Hc IH]; intros prefix; [apply stays_ret|].
  intros s r s' Hs. cbn [extract_tar_loop]. destruct e as [e|err]; [|intros [= <- <-]; apply run_in_refl].
  destruct He as [Hk He]. change (lift (Ok e) ≫= ?f) with (f e). cbv beta.
  destruct (tar_relative _ _) as [prefix' [rel|]] eqn:E; [|by apply IH].
  destruct (tar_relative_clean prefix (Path.components (te_path e)) prefix' rel) as (ns & Hns & Hj);
    [apply Path.components_wf|exact He|exact E|].
  rewrite (Hj p Ha). revert Hs. apply stays_bind; [|intros _; apply IH].
  apply stays_tar_place; [done|done|by apply prefix_app_r| |].
  - intros Hq. apply (f_equal length) in Hq. rewrite length_app, length_fmap in Hq. destruct ns; [done|]. simpl in Hq. lia.
  - destruct Ha as [os ->]. exists (os ++ ns). by rewrite fmap_app.
Qed.

End confinement.

(** ** The whole archive *)
(** An archive whose entries have relative paths without [..] and bring no symbolic link is
    unpacked inside its output: the disk goes only through trees that agree with the one
    before everywhere outside, apart from directories made on the way to the output, and
    there is no link in the output either. *)
Theorem tar_confined `{FL : FsLimits} archive out s r s' :
  let p := Path.components out in
  abs_path p → plain (fs_tree s) p → (∀ k, p `prefix_of` k → not_link (fs_tree s) k) →
  match archive with Ok entries => Forall clean_entry entries | Err _ => True end →
  extract_tar archive out s = (r, s') →
  run_in (tar_inv p (fs_tree s)) s s' ∧ tar_inv p (fs_tree s) (fs_tree s').
Proof.
  intros p Ha Hp Hl Hc H. assert (Hs : tar_inv p (fs_tree s) (fs_tree s)) by by split; [apply around_refl|].
  enough (R : run_in (tar_inv p (fs_tree s)) s s') by (split; [done|]; by apply (run_in_last _ _ _ R)).
  revert Hs H. unfold extract_tar. fold p. apply stays_bind; [apply stays_tar_mkdirs; [done|by left|done]|]. intros _.
  destruct archive as [entries|e]; [by apply stays_tar_loop|apply (stays_fail _ e)].
Qed.

Module TarDemo.

Definition entry (k : tar_kind) (p c : string) (link : option string) : result io_error tar_entry :=
  Ok (mkTarEntry k p c None (Some 493) (Ok link)).

Definition disk : fsys := mkFsys (<[Path.components "/nix" := Dir 493]> {[Path.components "/etc" := Dir 493]}) [].
Definition out : string := "/nix/o".

Definition sources : list (result io_error tar_entry) :=
  [entry TarDirectory "pkg-1.0/" "" None; entry TarRegular "pkg-1.0/./src/main.rs" "fn main" None;
   entry TarLink "pkg-1.0/again.rs" "" (Some "pkg-1.0/src/main.rs")].
Definition unpacked := extract_tar (Ok sources) out disk.

Example unpacked_main :
  fs_tree unpacked.2 !! Path.components "/nix/o/again.rs" = Some (File "fn main" 493).
Proof. vm_compute. reflexivity. Qed.

Lemma tar_confined_witness :
  run_in (tar_inv (Path.components out) (fs_tree disk)) disk unpacked.2
  ∧ tar_inv (Path.components out) (fs_tree disk) (fs_tree unpacked.2).
Proof.
  apply (tar_confined (Ok sources) out disk unpacked.1).
  - by exists ["nix"; "o"].
  - apply plain_ancestors; [by exists ["nix"; "o"]|]. repeat constructor; intros target; vm_compute; discriminate.
  - intros k [q ->] target. change (fs_tree disk) with (<[Path.components "/nix" := Dir 493]> {[Path.components "/etc" := Dir 493]} : tree).
    rewrite lookup_insert_ne, lookup_singleton_ne; [done|..]; vm_compute; discriminate.
  - repeat constructor; vm_compute; discriminate.
  - unfold unpacked. apply surjective_pairing.
Defined.

(** An archive decides where it is written when its entries climb, point away by a link of its
    own, or name an absolute path after the first entry: the three files land in [/etc]. *)
Definition climbing := [entry TarRegular "pkg/../../../etc/passwd" "root" None].
Definition linking := [entry TarSymlink "pkg/x" "" (Some "/etc"); entry TarRegular "pkg/x/passwd" "root" None].
Definition absolute := [entry TarDirectory "pkg/" "" None; entry TarRegular "/etc/passwd" "root" None].

Example archives_escape :
  Forall (λ a, fs_tree (extract_tar (Ok a) out disk).2 !! Path.components "/etc/passwd" = Some (File "root" 493))
    [climbing; linking; absolute].
Proof. repeat constructor; vm_compute; reflexivity. Qed.

End TarDemo.
