(* ===== verification/LocalBuild.v ===== *)
(** * Local builds ([local_build.rs], [sandbox.rs])

    A derivation is built after its inputs: the graph is sorted, each builder is run in a
    temporary directory behind the sandbox, its outputs are verified, scanned, hashed and
    registered.  The evaluator's derivations, the conversion to a build request, the
    kernel's namespaces and the builders are parameters. *)

From S2P Require Import Prelude RustStd FileSys PathInfo NarExtract StoreExtract NarDump CacheSource AllowList Fetchers.

Open Scope Z_scope.

(** ** Results *)
(** What a message of [BuildError::Io] reports *)
Inductive io_cause : Type :=
  | Disk (e : io_error)
  | Database (e : PathInfoError)
  | BadRequest
  | NoOutputPath.

(** What [stderr] of a failed build holds *)
Inductive failure : Type :=
  | Stderr (text : string)
  | StdoutBytes (n : Z)
  | FetchFailed (e : FetchError)
  | VerifyFailed (e : FetchError).

(** The last two constructors are not the source's: the [expect]s and indexing that panic, and the
    fuel of the sort, which does not run out. *)
Inductive BuildError : Type :=
  | BuildFailed (drv_name : string) (exit_code : option Z) (why : failure)
  | MissingOutput (output : string) (out_path : string)
  | BuildIo (what : string) (cause : io_cause)
  | UnknownDerivation (drv_path : string)
  | DependencyFailed (drv_path : string) (cause : BuildError)
  | BuildPanics (what : string)
  | Diverges.

Record BuildResult : Type := mkBuildResult {
  br_outputs : gmap string string;
  br_references : gset string;
  br_nar_hash : string;
  br_nar_size : Z;
}.

(** ** The sandbox ([sandbox.rs]) *)
Record SandboxConfig : Type := mkSandboxConfig {
  allowed_input_hashes : gset string;
  needs_network : bool;
  output_dir : string;
  tmp_dir : string;
}.

Definition REQUIRED_SCHEMES : list string :=
  ["file"; "memory"; "pipe"; "rand"; "null"; "zero"; "proc"; "sys"; "time"; "debug"; "shm"].
Definition PROXY_REQUIRED_SCHEMES : list string :=
  ["memory"; "pipe"; "rand"; "null"; "zero"; "proc"; "sys"; "time"; "debug"; "shm"].
Definition FOD_SCHEMES : list string := ["net"].

Inductive SandboxError : Type := Unavailable | SyscallFailed (what : string).

(** How the builder is confined: by the proxy's allow-list and a namespace without [file], by a
    namespace alone, or not at all *)
Inductive confinement : Type :=
  | ByProxy (schemes : list string) (l : AllowList)
  | ByNamespace (schemes : list string)
  | Unconfined.

(** A builder as it is started *)
Record Invocation {SP : Type} : Type := mkInvocation {
  inv_drv : SP;
  inv_args : list string;
  inv_cwd : path;
  inv_env : gmap string string;
  inv_confinement : confinement;
  inv_from : fsys;
}.
Arguments Invocation : clear implicits.
Arguments mkInvocation {SP} _ _ _ _ _ _.

Record BuilderExit : Type := mkBuilderExit { ex_code : option Z; ex_stdout : Z; ex_stderr : string }.

Record BuildRequest : Type := mkBuildRequest {
  command_args : list string;
  environment_vars : list (string * string);
  additional_files : list (string * string);
  refscan_needles : list string;
}.

(** nix-compat and snix-glue: store paths, the text of a derivation, the request built from it *)
Class BuildLib (SP : Type) `{Allow.StorePathText SP} : Type := {
  sp_text : SP → string;
  sp_digest : SP → string;
  to_aterm_bytes : @Allow.Derivation SP → string;
  derivation_into_build_request : @Allow.Derivation SP → list SP → option BuildRequest;
  derivation_to_fetch : @Allow.Derivation SP → option Fetch;
}.

(** The process and the kernel.  A builder is known by the trees it goes through, the newest
    first, and how it ends. *)
Class Platform (SP : Type) : Type := {
  env_var : string → option string;
  temp_dir : path;
  pid : string;
  mkns : list string → result SandboxError unit;
  proxy_start : AllowList → result SandboxError unit;
  setns : list string → result SandboxError unit;
  run_builder : Invocation SP → result io_error BuilderExit * list tree;
}.

(** ** The state of a build: the disk, the database, the counter of build directories, and the
    builders that were started, the newest last *)
Record builds {SP : Type} : Type := mkBuilds {
  b_fs : fsys;
  b_db : directory;
  b_counter : Z;
  b_ran : list (Invocation SP);
}.
Arguments builds : clear implicits.
Arguments mkBuilds {SP} _ _ _ _.

Definition B (SP A : Type) : Type := SR (builds SP) BuildError A.
#[export] Instance B_ret SP : MRet (B SP) := SR_ret (builds SP) BuildError.
#[export] Instance B_bind SP : MBind (B SP) := SR_bind (builds SP) BuildError.

Section calls.
Context {SP : Type}.

(** [map_err] with what the message says *)
Definition on_disk {A} (what : string) (m : F A) : B SP A := λ s,
  let '(r, fs) := m (b_fs s) in
  (match r with Ok a => Ok a | Err e => Err (BuildIo what (Disk e)) end,
   mkBuilds fs (b_db s) (b_counter s) (b_ran s)).

Definition on_db {A} (what : string) (m : directory → result PathInfoError A * directory) : B SP A := λ s,
  let '(r, db) := m (b_db s) in
  (match r with Ok a => Ok a | Err e => Err (BuildIo what (Database e)) end,
   mkBuilds (b_fs s) db (b_counter s) (b_ran s)).

Definition of_fetch {A} (wrap : FetchError → BuildError) (m : FM A) : B SP A := λ s,
  let '(r, fs) := m (b_fs s) in
  (match r with Ok a => Ok a | Err e => Err (wrap e) end, mkBuilds fs (b_db s) (b_counter s) (b_ran s)).

Definition build_lift {A} (r : result BuildError A) : B SP A := λ s, (r, s).
Definition build_tree : B SP tree := λ s, (Ok (fs_tree (b_fs s)), s).

Definition map_error {A} (h : BuildError → BuildError) (m : B SP A) : B SP A := λ s,
  match m s with (Ok a, s') => (Ok a, s') | (Err e, s') => (Err (h e), s') end.

(** The parts of a computation that read the disk *)
Definition of_tree {A} (what : string) (r : tree → result io_error A) : B SP A :=
  t ← build_tree; build_lift (match r t with Ok a => Ok a | Err e => Err (BuildIo what (Disk e)) end).

End calls.

Section build.
Context `{FL : FsLimits, SPL : StorePathLib, IJ : InfoJson, IOF : IoFaults, NC : NarCodec, FE : @FetchLib NC,
  NW : NarWriter, RS : ReferenceScanner}.
Context {SP : Type} `{Countable SP} {SPT : Allow.StorePathText SP} {BL : BuildLib SP} {PF : Platform SP}.
Context (known : gmap SP (@Allow.Derivation SP)) (now : string).
Implicit Types (drv : @Allow.Derivation SP) (drv_path : SP) (t : tree).

Abbreviation abs_path_of := Allow.to_absolute_path.

(** [known_paths.get_drv_by_drvpath] *)
Definition get_drv_by_drvpath drv_path : option (@Allow.Derivation SP) := known !! drv_path.

(** ** Derivations *)
Definition STORE : string := "/nix/store".

Definition drv_name_of drv_path : string := default (sp_text drv_path) (Str.strip_suffix ".drv" (sp_text drv_path)).

Definition out_exists t (o : string * option SP) : bool :=
  match o.2 with Some p => path_exists t (Path.components (abs_path_of p)) | None => false end.

Definition all_exist t drv : bool := forallb (out_exists t) (Allow.outputs drv).

(** [output_paths] *)
Definition output_paths_of drv : gmap string string :=
  list_to_map (reverse (omap (λ o : string * option SP, (λ p, (o.1, abs_path_of p)) <$> o.2) (Allow.outputs drv))).

(** [output_paths.get("out").or_else(|| output_paths.values().next())] *)
Definition primary_output (outs : gmap string string) : option string :=
  match outs !! "out" with Some p => Some p | None => head (BTree.values outs) end.

(** [outputs.get(name)] and its path *)
Definition output_of drv (name : string) : option SP :=
  match list_find (λ o : string * option SP, o.1 = name) (Allow.outputs drv) with
  | Some (_, (_, Some p)) => Some p
  | _ => None
  end.

(** The store paths of the outputs a derivation uses *)
Definition input_output_paths drv : list SP :=
  Allow.input_derivations drv ≫= λ input : SP * list string,
    match get_drv_by_drvpath input.1 with
    | None => []
    | Some input_drv => omap (output_of input_drv) input.2
    end.

Definition direct_inputs drv : list SP := Allow.input_sources drv ++ input_output_paths drv.

(** [needles_to_candidates]: later entries replace earlier ones *)
Definition needles_to_candidates (request : BuildRequest) drv : gmap string string :=
  let entry := λ p : SP, (sp_digest p, abs_path_of p) in
  let all := (entry <$> omap snd (Allow.outputs drv)) ++ (entry <$> Allow.input_sources drv)
             ++ (entry <$> input_output_paths drv) in
  filter (λ e, e.1 ∈ refscan_needles request) (list_to_map (reverse all)).

Definition request_of (what : string) drv : B SP BuildRequest :=
  build_lift (ok_or (BuildIo what BadRequest) (derivation_into_build_request drv (direct_inputs drv))).

(** ** Registration *)
Definition register_info (what : string) (info : PathInfo) : B SP unit := on_db what (λ db, register db info).

Definition register_derivation_file drv drv_path : B SP unit :=
  let abs := abs_path_of drv_path in
  let p := Path.components abs in
  t ← build_tree;
  (if path_exists t p then mret tt else on_disk "writing derivation" (write_file p (to_aterm_bytes drv))) ;;
  registered ← on_db "reading pathinfo" (λ db, (get db abs, db));
  match registered with
  | Some _ => mret tt
  | None =>
      let refs : gset string :=
        list_to_set ((abs_path_of <$> (Allow.input_derivations drv).*1) ++ (abs_path_of <$> Allow.input_sources drv)) in
      '(nar_hash, nar_size) ← of_tree "computing NAR hash" (λ t, nar_hash_path t p);
      register_info "registering derivation" (mkPathInfo abs nar_hash nar_size (BTree.set_to_list refs) None now [] [])
  end.

(** The outputs in the order of their names.  The primary output is hashed once; [strict] says
    whether a registration that fails is reported. *)
Fixpoint register_outputs (strict : bool) (drv_path : SP) (primary : string) (hash : string * Z) (refs : gset string)
    (outs : list (string * string)) : B SP unit :=
  match outs with
  | [] => mret tt
  | (name, p) :: outs' =>
      h ← (if decide (p = primary) then mret hash
           else of_tree "computing NAR hash" (λ t, nar_hash_path t (Path.components p)));
      let info := mkPathInfo p h.1 h.2 (BTree.set_to_list refs) (Some (abs_path_of drv_path)) now [] [] in
      (if strict then register_info "registering" info else sr_warn (register_info "registering" info)) ;;
      register_outputs strict drv_path primary hash refs outs'
  end.

(** Scan, hash, register: the end of a build *)
Definition finish_outputs (strict : bool) (request : BuildRequest) drv drv_path (outs : gmap string string)
    (primary : string) : B SP BuildResult :=
  references ← of_tree "scanning references"
    (λ t, scan_references t (Path.components primary) (needles_to_candidates request drv));
  '(nar_hash, nar_size) ← of_tree "computing NAR hash" (λ t, nar_hash_path t (Path.components primary));
  register_outputs strict drv_path primary (nar_hash, nar_size) references (BTree.to_list outs) ;;
  mret (mkBuildResult outs references nar_hash nar_size).

Definition build_result_from_existing drv drv_path : B SP BuildResult :=
  register_derivation_file drv drv_path ;;
  let outs := output_paths_of drv in
  primary ← build_lift (ok_or (BuildPanics "derivation has outputs") (primary_output outs));
  s ← sr_get;
  match get (b_db s) primary with
  | Ok (Some info) => mret (mkBuildResult outs (list_to_set (references info)) (nar_hash info) (nar_size info))
  | _ =>
      request ← request_of "converting derivation" drv;
      finish_outputs false request drv drv_path outs primary
  end.

(** ** Confinement *)
Definition is_fixed_output drv : bool := bool_decide (is_Some (env_get drv "outputHash")).

Definition collect_allowed_inputs drv : gset string :=
  list_to_set ((sp_digest <$> Allow.input_sources drv) ++ (sp_digest <$> (Allow.input_derivations drv).*1)).

Definition config_from_derivation drv (output_dir tmp_dir : string) : SandboxConfig :=
  mkSandboxConfig (collect_allowed_inputs drv) (is_fixed_output drv) output_dir tmp_dir.

Definition schemes_of (required : list string) (config : SandboxConfig) : list string :=
  required ++ (if needs_network config then FOD_SCHEMES else []).

Definition setup_build_namespace (config : SandboxConfig) : result SandboxError unit :=
  mkns (schemes_of REQUIRED_SCHEMES config) ;; setns (schemes_of REQUIRED_SCHEMES config).

Definition setup_proxy_namespace (config : SandboxConfig) (l : AllowList) : result SandboxError unit :=
  mkns (schemes_of PROXY_REQUIRED_SCHEMES config) ;; proxy_start l.

Definition sandbox_disabled_by_config t : bool :=
  if decide (env_var "SNIX_NO_SANDBOX" = Some "1") then true
  else match read_to_string t (Path.components "/etc/snix/config") with
       | Ok contents => existsb (λ line, bool_decide (Str.trim line = "sandbox=disabled")) (Str.lines contents)
       | Err _ => false
       end.

(** The set-up of the sandbox for one builder *)
Definition confine (no_sandbox : bool) t drv (build_dir : string) : confinement :=
  if negb no_sandbox && negb (sandbox_disabled_by_config t) then
    let primary_out_path := match output_of drv "out" with Some p => abs_path_of p | None => "" end in
    let allow_list := Allow.build_allow_list get_drv_by_drvpath drv primary_out_path build_dir in
    let config := config_from_derivation drv primary_out_path build_dir in
    let resolved := list_to_set (sp_digest <$> input_output_paths drv) ∪ allowed_input_hashes config in
    let config := mkSandboxConfig resolved (needs_network config) (output_dir config) (tmp_dir config) in
    match setup_proxy_namespace config allow_list with
    | Ok _ => ByProxy (schemes_of PROXY_REQUIRED_SCHEMES config) allow_list
    | Err _ =>
        match setup_build_namespace config with
        | Ok _ => ByNamespace (schemes_of REQUIRED_SCHEMES config)
        | Err _ => Unconfined
        end
    end
  else Unconfined.

(** ** Build directories *)
(** [make_build_dir], then the body, then [TempBuildDir::drop] *)
Definition in_build_dir {A} (body : path → B SP A) : B SP A := λ s,
  let dir := Path.join temp_dir [Normal ("snix-build-" +:+ pid +:+ "-" +:+ pretty (Z.to_N (b_counter s)))] in
  let s := mkBuilds (b_fs s) (b_db s) (wrap64 (b_counter s + 1)) (b_ran s) in
  match on_disk "creating temp build dir" (create_dir_all dir) s with
  | (Err e, s) => (Err e, s)
  | (Ok _, s) =>
      let '(r, s) := body dir s in
      (r, mkBuilds (ignore (remove_dir_all dir) (b_fs s)).2 (b_db s) (b_counter s) (b_ran s))
  end.

Definition TEMP_VARS : list string := ["NIX_BUILD_TOP"; "TMPDIR"; "TEMPDIR"; "TMP"; "TEMP"; "PWD"].

Definition set_env (dir : string) (env : gmap string string) (ev : string * string) : gmap string string :=
  <[ev.1 := if decide (ev.1 ∈ TEMP_VARS) then dir else Str.from_utf8_lossy ev.2]> env.

Definition build_env (dir : string) (request : BuildRequest) : gmap string string :=
  let env := foldl (set_env dir) ∅ (environment_vars request) in
  match env !! "RAYON_NUM_THREADS" with Some _ => env | None => <["RAYON_NUM_THREADS" := "4"]> env end.

Fixpoint write_additional_files (dir : path) (files : list (string * string)) : B SP unit :=
  match files with
  | [] => mret tt
  | (name, contents) :: files' =>
      let name := Path.components name in
      let file_path := Path.join dir (default name (Path.strip_prefix name [RootDir])) in
      on_disk "creating dir" (make_parent file_path) ;;
      on_disk "writing additional file" (write_file file_path contents) ;;
      write_additional_files dir files'
  end.

(** ** Running *)
Definition run_command (inv : Invocation SP) : B SP BuilderExit := λ s,
  let '(r, seen) := run_builder inv in
  let fs := match seen with
            | [] => b_fs s
            | t :: older => mkFsys t (older ++ fs_tree (b_fs s) :: fs_past (b_fs s))
            end in
  (match r with Ok x => Ok x | Err e => Err (BuildIo "executing builder" (Disk e)) end,
   mkBuilds fs (b_db s) (b_counter s) (b_ran s ++ [inv])).

(** The outputs are looked for in the order of their names. *)
Fixpoint verify_outputs t (outs : list (string * option SP)) : result BuildError unit :=
  match outs with
  | [] => Ok tt
  | (name, Some p) :: outs' =>
      if path_exists t (Path.components (abs_path_of p)) then verify_outputs t outs'
      else Err (MissingOutput name (abs_path_of p))
  | (_, None) :: outs' => verify_outputs t outs'
  end.

Definition build_builtin_fetcher drv drv_path : B SP BuildResult :=
  let drv_name := drv_name_of drv_path in
  out ← build_lift (ok_or (BuildIo "builtin fetcher" NoOutputPath) (output_of drv "out"));
  let out_path := abs_path_of out in
  let p := Path.components out_path in
  t ← build_tree;
  if path_exists t p then build_result_from_existing drv drv_path
  else
    on_disk "creating store" (create_dir_all (Path.components STORE)) ;;
    of_fetch (λ e, BuildFailed drv_name None (FetchFailed e)) (fetch_to_store derivation_to_fetch drv) ;;
    t ← build_tree;
    if negb (path_exists t p) then build_lift (Err (MissingOutput "out" out_path))
    else
      match verify_fetch_hash derivation_to_fetch t drv out_path with
      | Err e =>
          on_disk "" (ignore (remove_file p)) ;;
          on_disk "" (ignore (remove_dir_all p)) ;;
          build_lift (Err (BuildFailed drv_name None (VerifyFailed e)))
      | Ok _ =>
          request ← request_of "converting derivation" drv;
          finish_outputs true request drv drv_path {["out" := out_path]} out_path
      end.

(** Steps 3 to 9 of [build_derivation_inner], in the build directory *)
Definition run_in_dir (no_sandbox : bool) drv drv_path (dir : path) : B SP BuildResult :=
  request ← request_of "converting derivation to build request" drv;
  let build_dir_str := Str.from_utf8_lossy (Path.to_string dir) in
  let env := build_env build_dir_str request in
  write_additional_files dir (additional_files request) ;;
  on_disk "creating store" (create_dir_all (Path.components STORE)) ;;
  if Str.starts_with "builtin:" (Allow.builder drv) then build_builtin_fetcher drv drv_path
  else
    _ ← build_lift (ok_or (BuildPanics "command_args[0]") (head (command_args request)));
    s ← sr_get;
    let mode := confine no_sandbox (fs_tree (b_fs s)) drv build_dir_str in
    status ← run_command (mkInvocation drv_path (command_args request) dir env mode (b_fs s));
    if decide (ex_code status = Some 0) then
      t ← build_tree;
      build_lift (verify_outputs t (Allow.outputs drv)) ;;
      let outs := output_paths_of drv in
      primary ← build_lift (ok_or (BuildPanics "derivation has at least one output") (primary_output outs));
      finish_outputs true request drv drv_path outs primary
    else
      let err := Str.from_utf8_lossy (ex_stderr status) in
      build_lift (Err (BuildFailed (drv_name_of drv_path) (ex_code status)
                         (if decide (err = "") then StdoutBytes (ex_stdout status) else Stderr err))).

Definition build_derivation_inner (no_sandbox : bool) drv drv_path : B SP BuildResult :=
  register_derivation_file drv drv_path ;;
  t ← build_tree;
  if all_exist t drv then build_result_from_existing drv drv_path
  else in_build_dir (run_in_dir no_sandbox drv drv_path).

Definition build_derivation drv drv_path : B SP BuildResult := build_derivation_inner false drv drv_path.

(** ** The order of builds *)
(** [visit], on [visited] and [order]; [None] when the fuel runs out *)
Fixpoint visit (fuel : nat) (drv_path : SP) (st : gset SP * list SP) : option (result BuildError (gset SP * list SP)) :=
  match fuel with
  | O => None
  | S fuel' =>
      let '(visited, order) := st in
      if decide (drv_path ∈ visited) then Some (Ok st)
      else
        match get_drv_by_drvpath drv_path with
        | None => Some (Err (UnknownDerivation (abs_path_of drv_path)))
        | Some drv =>
            let fix visit_inputs (inputs : list SP) (st : gset SP * list SP) :=
              match inputs with
              | [] => Some (Ok st)
              | input :: inputs' =>
                  match visit fuel' input st with
                  | Some (Ok st') => visit_inputs inputs' st'
                  | other => other
                  end
              end in
            match visit_inputs (Allow.input_derivations drv).*1 ({[drv_path]} ∪ visited, order) with
            | Some (Ok (visited, order)) => Some (Ok (visited, order ++ [drv_path]))
            | other => other
            end
        end
  end.

Definition topological_sort (target : SP) : result BuildError (list SP) :=
  match visit (S (S (size known))) target (∅, []) with
  | Some (Ok (_, order)) => Ok order
  | Some (Err e) => Err e
  | None => Err Diverges
  end.

(** The loop of [build_needed_with_options] *)
Fixpoint build_loop (no_sandbox : bool) (target : SP) (order : list SP) (last_result : option BuildResult)
    : B SP (option BuildResult) :=
  match order with
  | [] => mret last_result
  | drv_path :: order' =>
      drv ← build_lift (ok_or (UnknownDerivation (abs_path_of drv_path)) (get_drv_by_drvpath drv_path));
      t ← build_tree;
      last_result ←
        (if all_exist t drv then
           if decide (drv_path = target)
           then (result ← build_result_from_existing drv drv_path; mret (Some result))
           else mret last_result
         else
           result ← map_error (λ e, if decide (drv_path = target) then e
                                    else DependencyFailed (abs_path_of drv_path) e)
                      (build_derivation_inner no_sandbox drv drv_path);
           mret (if decide (drv_path = target) then Some result else last_result));
      build_loop no_sandbox target order' last_result
  end.

Definition build_needed_with_options (no_sandbox : bool) (target : SP) : B SP BuildResult :=
  order ← build_lift (topological_sort target);
  last_result ← build_loop no_sandbox target order None;
  build_lift (ok_or (UnknownDerivation (abs_path_of target)) last_result).

Definition build_needed (target : SP) : B SP BuildResult := build_needed_with_options false target.

End build.
