(* ===== verification/BuildOrder.v ===== *)
(** * Local builds: the order

    [visit] as a depth-first search: it always has fuel enough, lists what is reachable, and puts
    the inputs of a derivation before it unless the two are on a cycle. *)

From S2P Require Import Prelude RustStd FileSys PathInfo NarExtract StoreExtract NarDump CacheSource.
From S2P Require Import AllowList Fetchers LocalBuild.
From stdpp Require Import relations.

Section order.
Context {SP : Type} `{Countable SP} {SPT : Allow.StorePathText SP}.
Context (known : gmap SP (@Allow.Derivation SP)).
Implicit Types (p q d : SP) (visited : gset SP) (order : list SP).

(** [d] lists [d'] among its input derivations *)
Definition input_of d d' : Prop := ∃ drv, known !! d = Some drv ∧ d' ∈ (Allow.input_derivations drv).*1.

Abbreviation needs := (rtc input_of).

(** Every input stands before its dependent, or is on a cycle with it. *)
Definition order_ok order : Prop :=
  ∀ l1 d l2 d', order = l1 ++ d :: l2 → input_of d d' → d' ∈ l1 ∨ needs d' d.

(** The inputs one after the other, as in the loop of [visit] *)
Fixpoint visit_inputs (fuel : nat) (inputs : list SP) (st : gset SP * list SP) :=
  match inputs with
  | [] => Some (Ok st)
  | input :: inputs' =>
      match visit known fuel input st with
      | Some (Ok st') => visit_inputs fuel inputs' st'
      | other => other
      end
  end.

Lemma visit_unfold fuel p visited order :
  visit known (S fuel) p (visited, order)
  = if decide (p ∈ visited) then Some (Ok (visited, order))
    else match known !! p with
         | None => Some (Err (UnknownDerivation (Allow.to_absolute_path p)))
         | Some drv =>
             match visit_inputs fuel (Allow.input_derivations drv).*1 ({[p]} ∪ visited, order) with
             | Some (Ok (visited, order)) => Some (Ok (visited, order ++ [p]))
             | other => other
             end
         end.
Proof.
  simpl. case_decide; [done|]. unfold get_drv_by_drvpath. destruct (known !! p) as [drv|]; [|done].
  assert (E : ∀ inputs st, (fix visit_inputs (inputs : list SP) (st : gset SP * list SP) :=
     match inputs with
     | [] => Some (Ok st)
     | input :: inputs' => match visit known fuel input st with Some (Ok st') => visit_inputs inputs' st' | other => other end
     end) inputs st = visit_inputs fuel inputs st).
  { induction inputs as [|i inputs IH]; intros st; [done|]. simpl. destruct (visit known fuel i st) as [[st'|e]|]; [apply IH|done..]. }
  by rewrite E.
Qed.

(** What has been visited: known, and in the order unless it is still being visited *)
Definition search_inv visited order : Prop :=
  NoDup order ∧ list_to_set order ⊆ visited ∧ visited ⊆ dom known ∧ order_ok order.

(** What a visit of several roots adds *)
Definition extended (roots : list SP) visited order visited' order' : Prop :=
  search_inv visited' order' ∧ list_to_set roots ⊆ visited'
  ∧ ∃ ext, order' = order ++ ext ∧ visited' = visited ∪ list_to_set ext
      ∧ (∀ q, q ∈ ext → (q ∉ visited) ∧ ∃ p, p ∈ roots ∧ needs p q)
      ∧ (∀ q q', q ∈ ext → input_of q q' → q' ∈ visited').

Definition answer_of (roots : list SP) visited order (r : option (result BuildError (gset SP * list SP))) : Prop :=
  match r with
  | Some (Ok (visited', order')) => extended roots visited order visited' order'
  | Some (Err e) => ∃ p q, p ∈ roots ∧ e = UnknownDerivation (Allow.to_absolute_path q) ∧ needs p q ∧ known !! q = None
  | None => False
  end.

(** The derivations being visited lead to the next one. *)
Definition leads visited order p : Prop := ∀ g, g ∈ visited → g ∉ order → needs g p.

Lemma extended_nil visited order : search_inv visited order → extended [] visited order visited order.
Proof.
  intros Hi. split; [done|]. split; [set_solver|]. exists []. rewrite app_nil_r. split; [done|].
  split; [set_solver|]. split; intros q; [by intros ?%elem_of_nil|by intros ? ?%elem_of_nil].
Qed.

Lemma extended_app p roots v1 o1 v2 o2 v3 o3 :
  extended [p] v1 o1 v2 o2 → extended roots v2 o2 v3 o3 → extended (p :: roots) v1 o1 v3 o3.
Proof.
  intros (I2 & R2 & e2 & -> & -> & N2 & C2) (I3 & R3 & e3 & -> & -> & N3 & C3).
  split; [done|]. split; [set_solver|]. exists (e2 ++ e3). split; [by rewrite app_assoc|]. split; [set_solver|]. split.
  - intros q [Hq|Hq]%elem_of_app.
    + destruct (N2 q Hq) as (? & p' & Hp' & ?). apply list_elem_of_singleton in Hp' as ->. split; [done|]. exists p. split; [left|done].
    + destruct (N3 q Hq) as (? & p' & ? & ?). split; [set_solver|]. exists p'. split; [by right|done].
  - intros q q' [Hq|Hq]%elem_of_app Hi; [|by eapply C3]. specialize (C2 q q' Hq Hi). set_solver.
Qed.

(** What is being visited is still so afterwards. *)
Lemma leads_extended roots v1 o1 v2 o2 q : extended roots v1 o1 v2 o2 → leads v1 o1 q → leads v2 o2 q.
Proof. intros (_ & _ & e & -> & -> & _) Hl g Hg Hn. apply Hl; set_solver. Qed.

Lemma order_ok_snoc order p :
  order_ok order → (∀ d', input_of p d' → d' ∈ order ∨ needs d' p) → order_ok (order ++ [p]).
Proof.
  intros Ho Hp l1 d l2 d' E Hi. destruct l2 as [|x l2 _] using rev_ind.
  - apply app_inj_tail in E as [-> ->]. by apply Hp.
  - rewrite app_comm_cons, app_assoc in E. apply app_inj_tail in E as [E _]. by eapply Ho.
Qed.

Lemma search_size visited p :
  visited ⊆ dom known → p ∉ visited → is_Some (known !! p) → (size visited < size known)%nat.
Proof.
  intros Hv Hp Hk. rewrite <- (size_dom (D := gset SP) known). apply subset_size. split; [done|].
  intros Hs. apply Hp, Hs. by apply elem_of_dom.
Qed.

Lemma visit_spec fuel p visited order :
  (size known - size visited < fuel)%nat → search_inv visited order → leads visited order p →
  answer_of [p] visited order (visit known fuel p (visited, order)).
Proof.
  revert p visited order. induction fuel as [|fuel IH]; intros p visited order Hf Hi Hl; [lia|].
  rewrite visit_unfold. case_decide as Hp.
  { destruct (extended_nil visited order Hi) as (? & _ & e & ? & ? & N & C). split; [done|]. split; [set_solver|].
    exists e. split_and!; [done..| |done]. intros q Hq. destruct (N q Hq) as (_ & r & Hr & _). by apply elem_of_nil in Hr. }
  destruct (known !! p) as [drv|] eqn:Hk; [|by exists p, p; split; [left|]].
  assert (Hin : ∀ d', d' ∈ (Allow.input_derivations drv).*1 ↔ input_of p d').
  { intros d'. split; [intros ?; by exists drv|]. intros (drv' & ? & ?). by simplify_eq. }
  assert (Hi' : search_inv ({[p]} ∪ visited) order).
  { destruct Hi as (? & ? & ? & ?). split_and!; [done|set_solver| |done].
    assert (p ∈ dom known) by (apply elem_of_dom; by exists drv). set_solver. }
  assert (Hs : (size visited < size known)%nat) by (apply search_size with p; [apply Hi|done|by exists drv]).
  assert (Hf' : (size known - size (({[p]} ∪ visited) : gset SP) < fuel)%nat)
    by (rewrite size_union, size_singleton by set_solver; lia).
  assert (Hl' : leads ({[p]} ∪ visited) order p).
  { intros g [->%elem_of_singleton|Hg]%elem_of_union Hn; [done|by apply Hl]. }
  assert (Hall : ∀ inputs v o, (∀ i, i ∈ inputs → input_of p i) → (size known - size v < fuel)%nat → search_inv v o →
    leads v o p → answer_of inputs v o (visit_inputs fuel inputs (v, o))).
  { induction inputs as [|i inputs IHi]; intros v o Hins Hfv Hiv Hlv; [by apply extended_nil|]. simpl.
    assert (Hpi : input_of p i) by (apply Hins; left).
    specialize (IH i v o Hfv Hiv) as Hv. assert (Hli : leads v o i) by (intros g ? ?; eapply rtc_r; [by apply Hlv|done]).
    specialize (Hv Hli). destruct (visit known fuel i (v, o)) as [[[v' o']|e]|]; [| |done].
    - simpl in Hv. specialize (IHi v' o'). simpl in IHi. ospecialize* IHi.
      + intros j Hj. apply Hins. by right.
      + destruct Hv as (_ & _ & e & _ & -> & _). assert (size v ≤ size (v ∪ list_to_set e))%nat by (apply subseteq_size; set_solver). lia.
      + apply Hv.
      + by eapply leads_extended.
      + destruct (visit_inputs fuel inputs (v', o')) as [[[v3 o3]|e]|]; simpl in *; [by eapply extended_app| |done].
        destruct IHi as (r & q & ? & ?). exists r, q. split; [by right|done].
    - destruct Hv as (r & q & Hr & ?). apply list_elem_of_singleton in Hr as ->. exists i, q. split; [left|done]. }
  specialize (Hall (Allow.input_derivations drv).*1 ({[p]} ∪ visited) order (λ i, proj1 (Hin i)) Hf' Hi' Hl').
  destruct (visit_inputs _ _ _) as [[[v o]|e]|]; simpl in *; [| |done].
  - destruct Hall as ((Hnd & Hov & Hvk & Hok) & Hr & e & -> & -> & Hn & Hc).
    assert (Hpe : p ∉ order ++ e).
    { intros [?|Hpe]%elem_of_app; [destruct Hi as (_ & ? & _); set_solver|]. destruct (Hn p Hpe) as [Hx _]. set_solver. }
    split; [split_and!|split].
    + apply NoDup_app. split; [done|]. split; [|apply NoDup_singleton]. intros x Hx Hxp. apply list_elem_of_singleton in Hxp as ->. done.
    + set_solver.
    + done.
    + apply order_ok_snoc; [done|]. intros d' Hd. assert (Hv : d' ∈ (list_to_set (Allow.input_derivations drv).*1 : gset SP))
        by (apply elem_of_list_to_set; by apply Hin).
      apply Hr in Hv. destruct (decide (d' ∈ order ++ e)) as [|Hne]; [by left|right].
      apply Hl'; [|set_solver]. set_solver.
    + set_solver.
    + exists (e ++ [p]). split; [by rewrite app_assoc|]. split; [set_solver|]. split.
      * intros q [Hq|Hq]%elem_of_app; [|apply list_elem_of_singleton in Hq as ->; split; [done|]; exists p; split; [left|done]].
        destruct (Hn q Hq) as (? & i & Hi1 & ?). split; [set_solver|]. exists p. split; [left|].
        eapply rtc_l; [by apply Hin|done].
      * intros q q' [Hq|Hq]%elem_of_app Hqi; [by eapply Hc|]. apply list_elem_of_singleton in Hq as ->.
        apply Hr, elem_of_list_to_set. by apply Hin.
  - destruct Hall as (i & q & ? & ? & ? & ?). exists p, q. split; [left|]. split; [done|]. split; [|done].
    eapply rtc_l; [by apply Hin|done].
Qed.

End order.

(** What the sort answers: an order, or the derivation that is not known *)
Definition sort_answer {SP : Type} `{Countable SP} {SPT : Allow.StorePathText SP}
    (known : gmap SP (@Allow.Derivation SP)) (target : SP) (r : result BuildError (list SP)) : Prop :=
  match r with
  | Ok order =>
      NoDup order ∧ last order = Some target
      ∧ (∀ d, d ∈ order ↔ rtc (input_of known) target d)
      ∧ (∀ d, d ∈ order → is_Some (known !! d))
      ∧ (∀ l1 d l2 d', order = l1 ++ d :: l2 → input_of known d d' → d' ∈ l1 ∨ rtc (input_of known) d' d)
  | Err e => ∃ q, e = UnknownDerivation (Allow.to_absolute_path q) ∧ rtc (input_of known) target q ∧ known !! q = None
  end.

Lemma topological_sort_answers {SP : Type} `{Countable SP} {SPT : Allow.StorePathText SP}
    (known : gmap SP (@Allow.Derivation SP)) (target : SP) : sort_answer known target (topological_sort known target).
Proof.
  unfold sort_answer.
  assert (Hi : search_inv known ∅ []).
  { split_and!; [apply NoDup_nil_2|set_solver..|]. intros l1 d l2 d' E. by destruct l1. }
  assert (Hf : (size known - size (∅ : gset SP) < S (S (size known)))%nat) by lia.
  pose proof (visit_spec known _ target ∅ [] Hf Hi) as Hv. ospecialize* Hv; [intros g Hg; set_solver|].
  unfold topological_sort. revert Hv. rewrite visit_unfold. rewrite decide_False by set_solver.
  destruct (known !! target) as [drv|] eqn:Hk.
  - destruct (visit_inputs _ _ _ _) as [[[v o]|e]|] eqn:E; simpl; [| |done].
    + intros ((Hnd & Hov & Hvk & Hok) & Hr & e & Ho & Hve & Hn & Hc).
      rewrite app_nil_l in Ho. rewrite union_empty_l_L in Hve.
      assert (Hin : ∀ d, d ∈ v ↔ d ∈ o ++ [target]) by (intros d; rewrite Hve, Ho; apply elem_of_list_to_set).
      split_and!; [done|by rewrite last_snoc| |intros d Hd; apply elem_of_dom; by apply Hvk, Hin|done].
      intros d. rewrite <- Hin. split.
      * intros Hd. rewrite Hve, elem_of_list_to_set in Hd. destruct (Hn d Hd) as (_ & p & Hp & ?).
        by apply list_elem_of_singleton in Hp as ->.
      * intros Hd. assert (Ht : target ∈ v) by (apply Hin, elem_of_app; right; left).
        clear -Hd Ht Hc Hve. induction Hd as [|x y z Hxy _ IH]; [done|]. apply IH. apply (Hc x); [|done].
        rewrite Hve in Ht. by apply elem_of_list_to_set in Ht.
    + intros (p & q & Hp & ? & ? & ?). apply list_elem_of_singleton in Hp as ->. by exists q.
  - simpl. intros _. by exists target.
Qed.


(** C13. The derivations that are built, and in which order.  For every graph and target the sort
    answers: with every derivation the target needs, once each, the target last, and each
    after its inputs, except for an input that itself needs it; or with the name of a
    derivation that the target needs and the evaluator does not know. *)
Theorem topological_sort_spec {SP : Type} `{Countable SP} {SPT : Allow.StorePathText SP}
    (known : gmap SP (@Allow.Derivation SP)) (target : SP) :
  match topological_sort known target with
  | Ok order =>
      NoDup order ∧ last order = Some target
      ∧ (∀ d, d ∈ order ↔ rtc (input_of known) target d)
      ∧ (∀ d, d ∈ order → is_Some (known !! d))
      ∧ (∀ l1 d l2 d', order = l1 ++ d :: l2 → input_of known d d' → d' ∈ l1 ∨ rtc (input_of known) d' d)
  | Err e => ∃ q, e = UnknownDerivation (Allow.to_absolute_path q) ∧ rtc (input_of known) target q ∧ known !! q = None
  end.
Proof. apply (topological_sort_answers known target). Qed.

Module OrderDemo.
#[local] Instance text_is_path : Allow.StorePathText string := λ s, s.

Definition drv (inputs : list string) : @Allow.Derivation string :=
  Allow.mkDerivation "/bin/sh" [] [] [] ((λ i, (i, ["out"])) <$> inputs) [].
Definition graph : gmap string (@Allow.Derivation string) :=
  <["app" := drv ["lib"; "cc"]]> (<["lib" := drv ["cc"]]> {["cc" := drv []]}).

Example sorted : topological_sort graph "app" = Ok ["cc"; "lib"; "app"].
Proof. vm_compute. reflexivity. Qed.

(** A cycle is not an error of the sort. *)
Example sorted_cycle : topological_sort (<["cc" := drv ["app"]]> graph) "app" = Ok ["cc"; "lib"; "app"].
Proof. vm_compute. reflexivity. Qed.

Example sort_unknown : topological_sort (base.delete "cc" graph) "app" = Err (UnknownDerivation "cc").
Proof. vm_compute. reflexivity. Qed.
End OrderDemo.
