(* ===== verification/BuildFacts.v ===== *)
(** * Local builds: theorems

    What a build has seen of the disk when it starts a builder, what it has registered when it
    ends, and when it does not build at all. *)

From S2P Require Import Prelude RustStd FileSys FileSysFacts Nar PathInfo NarExtract NarFacts StoreExtract.
From S2P Require Import NarDump CacheSource AllowList Install InstallFacts Fetchers LocalBuild BuildOrder.
From stdpp Require Import relations.

Open Scope Z_scope.

(** ** The past of the disk is kept *)
(** Whatever the computation does, the trees of before stay in the past. *)
Abbreviation kept m := (stays (λ _, True) m).

Section history.
Context `{FL : FsLimits}.

Lemma kept_put t : kept (put_tree t).
Proof. intros s r s' _ [= <- <-]. by apply run_in_push. Qed.

Lemma kept_get {A} (f : tree → F A) : (∀ t, kept (f t)) → kept (get_tree ≫= f).
Proof. intros Hf. apply stays_get. intros t _. apply Hf. Qed.

Lemma kept_check op p : kept (check_fault op p).
Proof. unfold check_fault. destruct (fs_fault op p); [apply stays_fail|apply stays_ret]. Qed.

End history.

Create HintDb kept.
#[export] Hint Resolve kept_put kept_check stays_ret stays_fail stays_lift stays_mkdir_or_dir : kept.

(** One step through the structure of a computation *)
Ltac keeps :=
  repeat first
    [ done
    | progress (intros)
    | solve [eauto with kept]
    | apply kept_get
    | apply stays_bind
    | apply stays_catch
    | apply stays_ignore
    | match goal with |- context [match ?x with _ => _ end] => destruct x end ].

Section calls.
Context `{FL : FsLimits}.

Lemma kept_mkdir p : kept (mkdir p).
Proof. unfold mkdir. keeps. Qed.

Lemma kept_create_dir_all p : kept (create_dir_all p).
Proof.
  unfold create_dir_all. generalize (length p) at 1. intros n. revert p.
  assert (Hm := kept_mkdir). induction n as [|n IH]; intros p; simpl; keeps.
Qed.

Lemma kept_remove_file p : kept (remove_file p).
Proof. unfold remove_file. keeps. Qed.

Lemma kept_remove_dir_all p : kept (remove_dir_all p).
Proof. unfold remove_dir_all. keeps. Qed.

Lemma kept_symlink g p : kept (symlink g p).
Proof. unfold symlink. keeps. Qed.

Lemma kept_write_file p c : kept (write_file p c).
Proof. unfold write_file. keeps. Qed.

Lemma kept_set_permissions p m : kept (set_permissions p m).
Proof. unfold set_permissions. keeps. Qed.

End calls.

#[export] Hint Resolve kept_mkdir kept_create_dir_all kept_remove_file kept_remove_dir_all kept_symlink kept_write_file
  kept_set_permissions : kept.

Section fetching.
Context `{FL : FsLimits, NC : NarCodec, FE : @FetchLib NC, NW : NarWriter}.

Lemma kept_copy a b : kept (copy a b).
Proof. unfold copy. keeps. Qed.

Lemma kept_make_parent p : kept (make_parent p).
Proof. unfold make_parent. keeps. Qed.

Lemma kept_extract_node n p rel m : kept (extract_node n p rel m).
Proof.
  revert p rel m. induction n as [x c b|g|es b IH] using nar_ind'; intros p rel m; cbn [extract_node].
  - unfold sink_write_file. keeps.
  - keeps.
  - apply stays_bind; [apply kept_create_dir_all|]. intros _.
    generalize (if decide (rel = "") then m else m ++ [mkManifestEntry rel "dir" 0 false]). clear m.
    induction IH as [|[name child] es Hc Hes IHes]; intros m; [keeps|].
    destruct (negb _); [keeps|]. destruct (bad_name name); [keeps|]. apply stays_bind; [apply Hc|]. intros m'. apply IHes.
Qed.

Lemma kept_tar_loop out prefix entries : kept (extract_tar_loop out prefix entries).
Proof.
  assert (Hc := kept_copy). assert (Hp := kept_make_parent).
  revert prefix. induction entries as [|e entries IH]; intros prefix; cbn [extract_tar_loop]; [keeps|].
  apply stays_bind; [keeps|]. intros a. destruct (tar_relative _ _) as [x [rel|]]; [|apply IH].
  apply stays_bind; [|intros _; apply IH]. unfold tar_place, copy_entry. destruct (te_kind a); keeps.
Qed.

(** The same of a computation that fetches *)
Definition fetch_kept {A} (m : FM A) : Prop := ∀ s r s', m s = (r, s') → run_in (λ _, True) s s'.

Lemma fetch_kept_bind {A B} (m : FM A) (f : A → FM B) : fetch_kept m → (∀ a, fetch_kept (f a)) → fetch_kept (m ≫= f).
Proof.
  intros Hm Hf s r s' H. unfold mbind, FM_bind, SR_bind in H. destruct (m s) as [[a|e] s1] eqn:E.
  - eapply run_in_trans; [by eapply Hm|by eapply Hf].
  - injection H as _ <-. by eapply Hm.
Qed.

Lemma fetch_kept_io {A} (m : F A) : kept m → fetch_kept (fio m).
Proof.
  intros Hm s r s' H. unfold fio in H. destruct (m s) as [[a|e] s1] eqn:E; injection H as _ <-; by eapply Hm.
Qed.

Lemma fetch_kept_ret {A} (r : result FetchError A) : fetch_kept (flift r).
Proof. intros s r' s' [= _ <-]. apply run_in_refl. Qed.

Lemma fetch_kept_pure {A} (a : A) : fetch_kept (mret a).
Proof. intros s r' s' [= _ <-]. apply run_in_refl. Qed.

Lemma kept_fetch {SP} (to_fetch : @Allow.Derivation SP → option Fetch) drv : fetch_kept (fetch_to_store to_fetch drv).
Proof.
  assert (Hflat : ∀ url out, fetch_kept (fetch_flat url out)).
  { intros url out. apply fetch_kept_bind; [apply fetch_kept_ret|]. intros [body broken].
    apply fetch_kept_bind; [apply fetch_kept_io, kept_write_file|]. intros _.
    destruct broken; [apply fetch_kept_ret|apply fetch_kept_pure]. }
  assert (Htar : ∀ url out, fetch_kept (fetch_and_unpack url out)).
  { intros url out. apply fetch_kept_bind; [apply fetch_kept_ret|]. intros body.
    apply fetch_kept_bind; [apply fetch_kept_ret|]. intros st. apply fetch_kept_io.
    apply stays_bind; [apply kept_create_dir_all|]. intros _. apply stays_bind; [apply stays_lift|]. intros es.
    apply kept_tar_loop. }
  apply fetch_kept_bind; [apply fetch_kept_ret|]. intros fetch. apply fetch_kept_bind; [apply fetch_kept_ret|]. intros out.
  apply fetch_kept_bind; [apply fetch_kept_io, kept_make_parent|]. intros _. destruct fetch; [apply Hflat|apply Htar| | |].
  - case_bool_decide; [apply Htar|]. apply fetch_kept_bind; [apply fetch_kept_ret|]. intros body.
    apply fetch_kept_bind; [apply fetch_kept_ret|]. intros st. apply fetch_kept_io. unfold extract, extract_with_manifest.
    apply stays_bind; [|intros; apply stays_ret]. apply stays_bind; [apply stays_lift|]. intros n. apply kept_extract_node.
  - apply fetch_kept_bind; [apply Hflat|]. intros _. apply fetch_kept_io, kept_set_permissions.
  - apply fetch_kept_ret.
Qed.

End fetching.

(** ** Computations of a build *)
Section builds.
Context `{FL : FsLimits, SPL : StorePathLib, IJ : InfoJson, IOF : IoFaults, NC : NarCodec, FE : @FetchLib NC,
  NW : NarWriter, RS : ReferenceScanner}.
Context {SP : Type} `{Countable SP} {SPT : Allow.StorePathText SP} {BL : BuildLib SP} {PF : Platform SP}.
Implicit Types (s : builds SP) (drv : @Allow.Derivation SP).

(** Every tree of the disk so far *)
Definition seen (fs : fsys) : list tree := fs_tree fs :: fs_past fs.

Definition after (fs fs' : fsys) : Prop := run_in (λ _, True) fs fs'.

Lemma after_seen fs fs' t : after fs fs' → t ∈ seen fs → t ∈ seen fs'.
Proof. intros (l & E & _) Ht. unfold seen. rewrite E. apply elem_of_app. by right. Qed.

Lemma after_refl fs : after fs fs.
Proof. apply run_in_refl. Qed.

Lemma after_trans fs1 fs2 fs3 : after fs1 fs2 → after fs2 fs3 → after fs1 fs3.
Proof. apply run_in_trans. Qed.

(** No builder is started, and the past is kept. *)
Definition quietly s s' : Prop := after (b_fs s) (b_fs s') ∧ b_ran s' = b_ran s.

Lemma quietly_refl s : quietly s s.
Proof. split; [apply after_refl|done]. Qed.

Lemma quietly_trans s1 s2 s3 : quietly s1 s2 → quietly s2 s3 → quietly s1 s3.
Proof. intros [A1 R1] [A2 R2]. split; [by eapply after_trans|congruence]. Qed.

Definition quiet {A} (m : B SP A) : Prop := ∀ s r s', m s = (r, s') → quietly s s'.

Lemma untouched_ret {A} (a : A) : quiet (mret a : B SP A).
Proof. intros s r s' [= _ <-]. apply quietly_refl. Qed.

Lemma quiet_lift {A} (r : result BuildError A) : quiet (build_lift r : B SP A).
Proof. intros s r' s' [= _ <-]. apply quietly_refl. Qed.

Lemma untouched_bind {A B'} (m : B SP A) (f : A → B SP B') : quiet m → (∀ a, quiet (f a)) → quiet (m ≫= f).
Proof.
  intros Hm Hf s r s' E. unfold mbind, B_bind, SR_bind in E. destruct (m s) as [[a|e] s1] eqn:E1.
  - eapply quietly_trans; [by eapply Hm|by eapply Hf].
  - injection E as _ <-. by eapply Hm.
Qed.

Lemma quiet_disk {A} what (m : F A) : kept m → quiet (on_disk what m).
Proof.
  intros Hm s r s' E. unfold on_disk in E. destruct (m (b_fs s)) as [x fs] eqn:E1. injection E as _ <-.
  split; [by eapply Hm|done].
Qed.

Lemma quiet_fetch {A} wrap (m : FM A) : fetch_kept m → quiet (of_fetch wrap m).
Proof.
  intros Hm s r s' E. unfold of_fetch in E. destruct (m (b_fs s)) as [x fs] eqn:E1. injection E as _ <-.
  split; [by eapply Hm|done].
Qed.

Lemma quiet_db {A} what (m : directory → result PathInfoError A * directory) : quiet (on_db what m).
Proof.
  intros s r s' E. unfold on_db in E. destruct (m (b_db s)) as [x db]. injection E as _ <-. split; [apply after_refl|done].
Qed.

Lemma quiet_warn (m : B SP unit) : quiet m → quiet (sr_warn m).
Proof. intros Hm s r s' [= _ <-]. destruct (m s) as [x s1] eqn:E. by eapply Hm. Qed.

Lemma quiet_tree : quiet (build_tree : B SP tree).
Proof. intros s r s' [= _ <-]. apply quietly_refl. Qed.

Lemma untouched_get : quiet (sr_get : B SP (builds SP)).
Proof. intros s r s' [= _ <-]. apply quietly_refl. Qed.

Lemma quiet_of_tree {A} (what : string) (r : tree → result io_error A) : quiet (of_tree what r : B SP A).
Proof. apply untouched_bind; [apply quiet_tree|]. intros t. apply quiet_lift. Qed.

(** ** What failures say *)
(** A failure of the machine, or a panic: neither the builder nor an output is to blame. *)
Definition machine_error (e : BuildError) : Prop :=
  match e with BuildIo _ _ | BuildPanics _ => True | _ => False end.

Definition fails_plainly {A} (m : B SP A) : Prop := ∀ s e s', m s = (Err e, s') → machine_error e.

Lemma plainly_bind {A B'} (m : B SP A) (f : A → B SP B') :
  fails_plainly m → (∀ a, fails_plainly (f a)) → fails_plainly (m ≫= f).
Proof.
  intros Hm Hf s e s' E. unfold mbind, B_bind, SR_bind in E. destruct (m s) as [[a|e'] s1] eqn:E1; [by eapply Hf|].
  injection E as <- <-. by eapply Hm.
Qed.

Lemma plainly_ret {A} (a : A) : fails_plainly (mret a : B SP A).
Proof. by intros s e s' [=]. Qed.

Lemma plainly_get : fails_plainly (sr_get : B SP (builds SP)).
Proof. by intros s e s' [=]. Qed.

Lemma plainly_tree : fails_plainly (build_tree : B SP tree).
Proof. by intros s e s' [=]. Qed.

Lemma plainly_disk {A} (what : string) (m : F A) : fails_plainly (on_disk what m : B SP A).
Proof. intros s e s' E. unfold on_disk in E. destruct (m (b_fs s)) as [[a|x] fs]; [done|]. by injection E as <- _. Qed.

Lemma plainly_db {A} (what : string) (m : directory → result PathInfoError A * directory) : fails_plainly (on_db what m : B SP A).
Proof. intros s e s' E. unfold on_db in E. destruct (m (b_db s)) as [[a|x] db]; [done|]. by injection E as <- _. Qed.

Lemma plainly_of_tree {A} (what : string) (r : tree → result io_error A) : fails_plainly (of_tree what r : B SP A).
Proof.
  apply plainly_bind; [apply plainly_tree|]. intros t s e s' E. unfold build_lift in E. destruct (r t); [done|]. by injection E as <- _.
Qed.

Lemma plainly_or {A} e (o : option A) : machine_error e → fails_plainly (build_lift (ok_or e o) : B SP A).
Proof. intros He s e' s' E. destruct o; [done|]. by injection E as <- _. Qed.

Lemma plainly_warn (m : B SP unit) : fails_plainly (sr_warn m).
Proof. by intros s e s' [=]. Qed.

End builds.

Create HintDb quiet.
#[export] Hint Resolve untouched_ret quiet_lift quiet_disk quiet_fetch quiet_db quiet_warn quiet_tree untouched_get
  quiet_of_tree kept_write_file kept_create_dir_all kept_make_parent kept_remove_file kept_remove_dir_all
  kept_fetch : quiet.

Ltac quietens :=
  repeat first
    [ done
    | progress (intros)
    | solve [eauto with quiet]
    | apply untouched_bind
    | apply quiet_disk, stays_ignore
    | match goal with |- context [match ?x with _ => _ end] => destruct x end ].

Create HintDb plainly.
#[export] Hint Resolve plainly_ret plainly_get plainly_tree plainly_disk plainly_db plainly_of_tree plainly_warn : plainly.
#[export] Hint Extern 1 (fails_plainly (build_lift (ok_or _ _))) => by apply plainly_or : plainly.

Ltac plainly :=
  repeat first
    [ done
    | progress (intros)
    | solve [eauto with plainly]
    | apply plainly_bind
    | match goal with |- context [match ?x with _ => _ end] => destruct x end ].

Section steps.
Context `{FL : FsLimits, SPL : StorePathLib, IJ : InfoJson, IOF : IoFaults, NC : NarCodec, FE : @FetchLib NC,
  NW : NarWriter, RS : ReferenceScanner}.
Context {SP : Type} `{Countable SP} {SPT : Allow.StorePathText SP} {BL : BuildLib SP} {PF : Platform SP}.
Context (known : gmap SP (@Allow.Derivation SP)) (now : string).
Implicit Types (s : builds SP) (drv : @Allow.Derivation SP) (drv_path : SP).

Lemma quiet_register_derivation drv drv_path : quiet (register_derivation_file now drv drv_path).
Proof. unfold register_derivation_file, register_info. quietens. Qed.

Lemma quiet_register_outputs strict drv_path primary h refs outs :
  quiet (register_outputs now strict drv_path primary h refs outs).
Proof.
  induction outs as [|[name p] outs IH]; cbn [register_outputs]; [apply untouched_ret|].
  apply untouched_bind; [quietens|]. intros h'. cbv zeta. apply untouched_bind; [|intros _; apply IH].
  unfold register_info. quietens.
Qed.

Lemma quiet_finish strict request drv drv_path outs primary :
  quiet (finish_outputs known now strict request drv drv_path outs primary).
Proof.
  assert (Hr := quiet_register_outputs). unfold finish_outputs. quietens.
Qed.

Lemma quiet_existing drv drv_path : quiet (build_result_from_existing known now drv drv_path).
Proof.
  assert (Hr := quiet_register_derivation). assert (Hf := quiet_finish).
  unfold build_result_from_existing, request_of. quietens.
Qed.

Lemma quiet_additional dir fs : quiet (write_additional_files (SP := SP) dir fs).
Proof. induction fs as [|[name c] fs IH]; cbn [write_additional_files]; quietens. Qed.

Lemma quiet_builtin drv drv_path : quiet (build_builtin_fetcher known now drv drv_path).
Proof.
  assert (He := quiet_existing). assert (Hf := quiet_finish).
  unfold build_builtin_fetcher, request_of. quietens.
Qed.

Lemma plainly_register_derivation drv drv_path : fails_plainly (register_derivation_file now drv drv_path).
Proof. unfold register_derivation_file, register_info. plainly. Qed.

Lemma plainly_register_outputs strict drv_path primary h refs outs :
  fails_plainly (register_outputs now strict drv_path primary h refs outs : B SP unit).
Proof.
  induction outs as [|[name p] outs IH]; cbn [register_outputs]; [apply plainly_ret|].
  apply plainly_bind; [plainly|]. intros h'. cbv zeta. apply plainly_bind; [|intros _; apply IH]. unfold register_info. plainly.
Qed.

Lemma plainly_finish strict request drv drv_path outs primary :
  fails_plainly (finish_outputs known now strict request drv drv_path outs primary).
Proof. assert (Hr := plainly_register_outputs). unfold finish_outputs. plainly. Qed.

Lemma plainly_existing drv drv_path : fails_plainly (build_result_from_existing known now drv drv_path).
Proof.
  assert (Hr := plainly_register_derivation). assert (Hf := plainly_finish).
  unfold build_result_from_existing, request_of. plainly.
Qed.

Lemma plainly_additional dir fs : fails_plainly (write_additional_files (SP := SP) dir fs).
Proof. induction fs as [|[name c] fs IH]; cbn [write_additional_files]; plainly. Qed.

(** ** One derivation *)

(** Whether the outputs of a derivation are there: all that have a path, or the one a builtin
    fetcher makes *)
Definition delivered (t : tree) drv : Prop :=
  verify_outputs t (Allow.outputs drv) = Ok tt
  ∨ (Str.starts_with "builtin:" (Allow.builder drv) = true
     ∧ ∃ out, output_of drv "out" = Some out ∧ path_exists t (Path.components (Allow.to_absolute_path out)) = true).

Lemma bind_inv {A B'} (m : B SP A) (f : A → B SP B') s r s' :
  (m ≫= f) s = (r, s') →
  (∃ a s1, m s = (Ok a, s1) ∧ f a s1 = (r, s')) ∨ (∃ e, m s = (Err e, s') ∧ r = Err e).
Proof.
  unfold mbind, B_bind, SR_bind. destruct (m s) as [[a|e] s1]; [intros E; left; by exists a, s1|].
  intros [= <- <-]. right. by exists e.
Qed.

Lemma verify_all_exist t drv : all_exist t drv = true → verify_outputs t (Allow.outputs drv) = Ok tt.
Proof.
  unfold all_exist. induction (Allow.outputs drv) as [|[name [p|]] outs IH]; [done| |by intros]. simpl.
  unfold out_exists at 1. simpl. intros [-> ?]%andb_true_iff. by apply IH.
Qed.

(** The builder that was started, and what had been seen by then *)
Definition started (no_sandbox : bool) drv drv_path s (inv : Invocation SP) : Prop :=
  inv_drv inv = drv_path ∧ after (b_fs s) (inv_from inv)
  ∧ inv_confinement inv
    = confine known no_sandbox (fs_tree (inv_from inv)) drv (Str.from_utf8_lossy (Path.to_string (inv_cwd inv))).

(** One step of the loop: nothing or one builder is started. *)
Definition one_build (no_sandbox : bool) drv drv_path s s' : Prop :=
  after (b_fs s) (b_fs s')
  ∧ (b_ran s' = b_ran s
     ∨ ∃ inv, b_ran s' = b_ran s ++ [inv] ∧ after (inv_from inv) (b_fs s') ∧ started no_sandbox drv drv_path s inv).

Lemma one_quietly no_sandbox drv drv_path s s' : quietly s s' → one_build no_sandbox drv drv_path s s'.
Proof. intros [A R]. split; [done|by left]. Qed.

Lemma one_after no_sandbox drv drv_path s1 s2 s3 :
  quietly s1 s2 → one_build no_sandbox drv drv_path s2 s3 → one_build no_sandbox drv drv_path s1 s3.
Proof.
  intros [A1 R1] [A2 [R2|(inv & R2 & A3 & D & A4 & C)]]; (split; [by eapply after_trans|]).
  - left. congruence.
  - right. exists inv. split; [congruence|]. split; [done|]. split; [done|]. split; [by eapply after_trans|done].
Qed.

Lemma one_before no_sandbox drv drv_path s1 s2 s3 :
  one_build no_sandbox drv drv_path s1 s2 → quietly s2 s3 → one_build no_sandbox drv drv_path s1 s3.
Proof.
  intros [A1 [R1|(inv & R1 & A3 & ?)]] [A2 R2]; (split; [by eapply after_trans|]).
  - left. congruence.
  - right. exists inv. split; [congruence|]. split; [by eapply after_trans|done].
Qed.

Lemma run_command_after inv s r s' :
  run_command inv s = (r, s') → after (b_fs s) (b_fs s') ∧ b_ran s' = b_ran s ++ [inv].
Proof.
  unfold run_command. destruct (run_builder inv) as [x ts]. intros [= _ <-]. split; [|done]. simpl.
  destruct ts as [|t ts]; [apply after_refl|]. exists (t :: ts). split; [done|]. by apply Forall_true.
Qed.

(** After its builder has ended well, a derivation's outputs were seen, and are scanned, hashed
    and registered as they were seen. *)
Definition finished drv drv_path (res : BuildResult) s' : Prop :=
  ∃ request primary s1, (∃ t, t ∈ seen (b_fs s') ∧ t = fs_tree (b_fs s1))
  ∧ derivation_into_build_request drv (direct_inputs known drv) = Some request
  ∧ verify_outputs (fs_tree (b_fs s1)) (Allow.outputs drv) = Ok tt
  ∧ primary_output (output_paths_of drv) = Some primary
  ∧ ∃ s2, finish_outputs known now true request drv drv_path (output_paths_of drv) primary s1 = (Ok res, s2)
          ∧ b_db s' = b_db s2.

(** What a failure to build [drv] says.  A builder's exit is the exit of the builder that was started,
    with what it wrote; a missing output is one of the derivation's, and is missing from a tree the
    disk went through. *)
Definition failed_for drv drv_path s s' (e : BuildError) : Prop :=
  match e with
  | BuildFailed name code (FetchFailed _ | VerifyFailed _) =>
      name = drv_name_of drv_path ∧ code = None ∧ b_ran s' = b_ran s ∧ Str.starts_with "builtin:" (Allow.builder drv) = true
  | BuildFailed name code why =>
      name = drv_name_of drv_path
      ∧ ∃ inv status ts, b_ran s' = b_ran s ++ [inv] ∧ inv_drv inv = drv_path ∧ run_builder inv = (Ok status, ts)
          ∧ code = ex_code status ∧ code ≠ Some 0
          ∧ why = (let err := Str.from_utf8_lossy (ex_stderr status) in
                   if decide (err = "") then StdoutBytes (ex_stdout status) else Stderr err)
  | MissingOutput name p =>
      ∃ out, p = Allow.to_absolute_path out
        ∧ ((name, Some out) ∈ Allow.outputs drv ∧ b_ran s' ≠ b_ran s
           ∨ name = "out" ∧ output_of drv name = Some out ∧ b_ran s' = b_ran s)
        ∧ ∃ t, t ∈ seen (b_fs s') ∧ path_exists t (Path.components p) = false
  | BuildIo _ _ | BuildPanics _ => True
  | UnknownDerivation _ | DependencyFailed _ _ | Diverges => False
  end.

Lemma failed_plainly drv drv_path s s' e : machine_error e → failed_for drv drv_path s s' e.
Proof. by destruct e. Qed.

(** What a build of one derivation amounts to *)
Definition build_step (no_sandbox : bool) drv drv_path s (r : result BuildError BuildResult) s' : Prop :=
  one_build no_sandbox drv drv_path s s'
  ∧ (∀ res, r = Ok res →
      (∃ t, t ∈ seen (b_fs s') ∧ delivered t drv) ∧ (b_ran s' ≠ b_ran s → finished drv drv_path res s'))
  ∧ ∀ e, r = Err e → failed_for drv drv_path s s' e.

Lemma step_quiet_err no_sandbox drv drv_path s e s' :
  quietly s s' → machine_error e → build_step no_sandbox drv drv_path s (Err e) s'.
Proof. intros Hq He. split; [by apply one_quietly|]. split; [done|]. intros e' [= <-]. by apply failed_plainly. Qed.

Lemma failed_after drv drv_path s1 s2 s3 e :
  b_ran s2 = b_ran s1 → failed_for drv drv_path s2 s3 e → failed_for drv drv_path s1 s3 e.
Proof. intros E. unfold failed_for. by rewrite E. Qed.

Lemma step_after no_sandbox drv drv_path s1 s2 r s3 :
  quietly s1 s2 → build_step no_sandbox drv drv_path s2 r s3 → build_step no_sandbox drv drv_path s1 r s3.
Proof.
  intros Hq (Ho & Hr & He). pose proof (proj2 Hq) as E. split; [by eapply one_after|]. split.
  - intros res Hres. destruct (Hr res Hres) as [? Hf]. split; [done|]. intros Hne. apply Hf. by rewrite E.
  - intros e Hres. eapply failed_after; [done|by apply He].
Qed.

Lemma seen_now s : fs_tree (b_fs s) ∈ seen (b_fs s).
Proof. left. Qed.

Lemma output_of_In drv name out : output_of drv name = Some out → (name, Some out) ∈ Allow.outputs drv.
Proof.
  unfold output_of. destruct (list_find _ _) as [[i [n o]]|] eqn:E; [|done].
  apply list_find_Some in E as (Hi & Hn & _). simpl in Hn. subst. destruct o; [|done].
  intros [= ->]. by eapply list_elem_of_lookup_2.
Qed.

Lemma builtin_failed drv drv_path s e s' :
  Str.starts_with "builtin:" (Allow.builder drv) = true →
  build_builtin_fetcher known now drv drv_path s = (Err e, s') → failed_for drv drv_path s s' e.
Proof.
  intros Hb E. pose proof (quiet_builtin drv drv_path s _ s' E) as [_ Hran]. unfold build_builtin_fetcher in E.
  apply bind_inv in E as [(out & s1 & E1 & E)|(e' & E1 & [= <-])]; [|apply failed_plainly; by eapply (plainly_or _ (output_of drv "out")); [|exact E1]].
  injection E1 as Ho <-. assert (Hout : output_of drv "out" = Some out) by by destruct (output_of drv "out"); simplify_eq/=.
  apply bind_inv in E as [(t & s1 & E1 & E)|(e' & E1 & _)]; [|done]. injection E1 as <- <-.
  destruct (path_exists _ _); [apply failed_plainly; by eapply plainly_existing|].
  apply bind_inv in E as [(? & s1 & _ & E)|(e' & E1 & [= <-])]; [|apply failed_plainly; by eapply plainly_disk].
  apply bind_inv in E as [(? & s2 & _ & E)|(e' & E1 & [= <-])].
  2:{ unfold of_fetch in E1. destruct (fetch_to_store _ _ _) as [[|fe] fs]; [done|]. by injection E1 as <- _. }
  apply bind_inv in E as [(t & s3 & E1 & E)|(e' & E1 & _)]; [|done]. injection E1 as <- <-.
  destruct (path_exists (fs_tree (b_fs s2)) _) eqn:Hex2; simpl in E.
  2:{ injection E as <- <-. exists out. split; [done|]. split; [by right|].
      exists (fs_tree (b_fs s2)). split; [apply seen_now|done]. }
  destruct (verify_fetch_hash _ _ _ _) as [[]|fe].
  - apply bind_inv in E as [(request & s3 & E1 & E)|(e' & E1 & [= <-])];
      [apply failed_plainly; by eapply plainly_finish|apply failed_plainly; by eapply plainly_or; [|exact E1]].
  - apply bind_inv in E as [(? & s3 & _ & E)|(e' & E1 & [= <-])]; [|apply failed_plainly; by eapply plainly_disk].
    apply bind_inv in E as [(? & s4 & _ & E)|(e' & E1 & [= <-])]; [|apply failed_plainly; by eapply plainly_disk].
    by injection E as <- _.
Qed.

Lemma builtin_step no_sandbox drv drv_path s r s' :
  Str.starts_with "builtin:" (Allow.builder drv) = true →
  build_builtin_fetcher known now drv drv_path s = (r, s') → build_step no_sandbox drv drv_path s r s'.
Proof.
  intros Hb E. pose proof (quiet_builtin drv drv_path s r s' E) as Hq. split; [by apply one_quietly|].
  split; [|intros e ->; by apply builtin_failed].
  intros res ->. split; [|by destruct Hq as [_ ->]]. unfold build_builtin_fetcher in E.
  apply bind_inv in E as [(out & s1 & E1 & E)|(e & _ & ?)]; [|done]. injection E1 as Ho <-.
  assert (Hout : output_of drv "out" = Some out) by by destruct (output_of drv "out"); simplify_eq/=.
  apply bind_inv in E as [(t & s1 & E1 & E)|(e & _ & ?)]; [|done]. injection E1 as <- <-.
  destruct (path_exists _ _) eqn:Hex.
  { apply quiet_existing in E as [A _]. exists (fs_tree (b_fs s)). split; [eapply after_seen; [done|apply seen_now]|].
    right. split; [done|]. by exists out. }
  apply bind_inv in E as [(? & s1 & _ & E)|(e & _ & ?)]; [|done].
  apply bind_inv in E as [(? & s2 & _ & E)|(e & _ & ?)]; [|done].
  apply bind_inv in E as [(t & s3 & E1 & E)|(e & _ & ?)]; [|done]. injection E1 as <- <-.
  destruct (path_exists (fs_tree (b_fs s2)) _) eqn:Hex2; [|done]. simpl in E.
  destruct (verify_fetch_hash _ _ _ _) as [[]|e].
  - apply bind_inv in E as [(request & s3 & E1 & E)|(e & _ & ?)]; [|done].
    assert (s3 = s2) as -> by (by injection E1). apply quiet_finish in E as [A _].
    exists (fs_tree (b_fs s2)). split; [eapply after_seen; [done|apply seen_now]|]. right. split; [done|]. by exists out.
  - apply bind_inv in E as [(? & s3 & _ & E)|(e' & _ & ?)]; [|done].
    apply bind_inv in E as [(? & s4 & _ & E)|(e' & _ & ?)]; done.
Qed.

(** After the builder: its exit, the outputs, their registration *)
Lemma missing_output t drv e :
  verify_outputs t (Allow.outputs drv) = Err e →
  ∃ name out, e = MissingOutput name (Allow.to_absolute_path out) ∧ (name, Some out) ∈ Allow.outputs drv
    ∧ path_exists t (Path.components (Allow.to_absolute_path out)) = false.
Proof.
  induction (Allow.outputs drv) as [|[name [p|]] outs IH]; [done| |]; simpl.
  - destruct (path_exists _ _) eqn:Hp; [|intros [= <-]; exists name, p; split_and!; [done|by left|done]].
    intros E. destruct (IH E) as (n & o & ? & ? & ?). exists n, o. split_and!; [done|by right|done].
  - intros E. destruct (IH E) as (n & o & ? & ? & ?). exists n, o. split_and!; [done|by right|done].
Qed.

Lemma run_in_dir_step no_sandbox drv drv_path dir s r s' :
  run_in_dir known now no_sandbox drv drv_path dir s = (r, s') → build_step no_sandbox drv drv_path s r s'.
Proof.
  unfold run_in_dir. intros E.
  apply bind_inv in E as [(request & s1 & E1 & E)|(e & E1 & ->)];
    [|apply step_quiet_err; [by eapply quiet_lift|by eapply plainly_or; [|exact E1]]].
  assert (Hreq : derivation_into_build_request drv (direct_inputs known drv) = Some request).
  { unfold request_of, build_lift in E1. by destruct (derivation_into_build_request _ _); simplify_eq/=. }
  eapply step_after; [by eapply quiet_lift|]. clear E1. cbv zeta in E.
  apply bind_inv in E as [([] & s2 & E2 & E)|(e & E2 & ->)];
    [|apply step_quiet_err; [by eapply quiet_additional|by eapply plainly_additional]].
  eapply step_after; [by eapply quiet_additional|]. clear E2.
  apply bind_inv in E as [([] & s3 & E3 & E)|(e & E3 & ->)];
    [|apply step_quiet_err; [eapply quiet_disk; [apply kept_create_dir_all|done]|by eapply plainly_disk]].
  eapply step_after; [eapply quiet_disk; [apply kept_create_dir_all|done]|]. clear E3.
  destruct (Str.starts_with _ _) eqn:Hb; [by apply builtin_step|].
  apply bind_inv in E as [(cmd & s4 & E4 & E)|(e & E4 & ->)];
    [|apply step_quiet_err; [by eapply quiet_lift|by eapply plainly_or; [|exact E4]]].
  eapply step_after; [by eapply quiet_lift|]. clear E4 cmd.
  apply bind_inv in E as [(x & s5 & E5 & E)|(e & E5 & ->)]; [|done]. injection E5 as <- <-. cbv zeta in E.
  set (inv := mkInvocation _ _ _ _ _ _) in E.
  assert (Hstarted : ∀ s5, after (b_fs s4) (b_fs s5) → b_ran s5 = b_ran s4 ++ [inv] → one_build no_sandbox drv drv_path s4 s5).
  { intros s5 A R. split; [done|]. right. exists inv. split; [done|]. split; [done|]. split; [done|].
    split; [apply after_refl|done]. }
  assert (Hmore : ∀ s5, b_ran s5 = b_ran s4 ++ [inv] → b_ran s5 ≠ b_ran s4).
  { intros s5 -> R. apply (f_equal length) in R. rewrite length_app in R. simpl in R. lia. }
  apply bind_inv in E as [(status & s5 & E5 & E)|(e & E5 & ->)]; pose proof (run_command_after _ _ _ _ E5) as [A5 R5].
  2:{ split; [by apply Hstarted|]. split; [done|]. intros e' [= <-]. unfold run_command in E5.
      destruct (run_builder inv) as [[|x] ts]; [done|]. by injection E5 as <- _. }
  specialize (Hstarted s5 A5 R5). case_decide as Hx.
  2:{ injection E as <- <-. split; [done|]. split; [done|]. intros e [= <-]. unfold run_command in E5.
      destruct (run_builder inv) as [[st|x] ts] eqn:Erun; [|done]. injection E5 as -> _.
      case_decide as Hs; (split; [done|]); exists inv, status, ts; split_and!; try done; cbv zeta; by rewrite ?Hs, ?decide_True, ?decide_False by done. }
  apply bind_inv in E as [(t & s6 & E6 & E)|(e & E6 & ->)]; [|done]. injection E6 as <- <-.
  apply bind_inv in E as [([] & s6 & E6 & E)|(e & E6 & ->)]; injection E6 as E6 <-.
  2:{ split; [done|]. split; [done|]. intros e' [= <-]. apply missing_output in E6 as (name & out & -> & Hin & Hno).
      exists out. split; [done|]. split; [left; split; [done|by apply Hmore]|].
      exists (fs_tree (b_fs s5)). split; [apply seen_now|done]. }
  apply bind_inv in E as [(primary & s6 & E7 & E)|(e & E7 & ->)]; injection E7 as E7 <-.
  2:{ split; [done|]. split; [done|]. intros e' [= <-]. apply failed_plainly. by destruct (primary_output _); simplify_eq/=. }
  assert (Hp : primary_output (output_paths_of drv) = Some primary) by by destruct (primary_output _); simplify_eq/=.
  pose proof (quiet_finish _ _ _ _ _ _ _ _ _ E) as Hq.
  split; [by eapply one_before|]. split; [|intros e ->; apply failed_plainly; by eapply plainly_finish]. intros res ->. split.
  - exists (fs_tree (b_fs s5)). split; [eapply after_seen; [apply Hq|apply seen_now]|by left].
  - intros _. exists request, primary, s5. split_and!; [|done|done|done|by exists s'].
    exists (fs_tree (b_fs s5)). split; [eapply after_seen; [apply Hq|apply seen_now]|done].
Qed.

Lemma failed_seen drv drv_path s s1 s2 e :
  quietly s1 s2 → failed_for drv drv_path s s1 e → failed_for drv drv_path s s2 e.
Proof.
  intros [A R]. unfold failed_for. rewrite R. destruct e; try done.
  intros (out & ? & ? & t & Ht & ?). exists out. split_and!; [done..|]. exists t. split; [by eapply after_seen|done].
Qed.

Lemma inner_step no_sandbox drv drv_path s r s' :
  build_derivation_inner known now no_sandbox drv drv_path s = (r, s') → build_step no_sandbox drv drv_path s r s'.
Proof.
  unfold build_derivation_inner. intros E.
  apply bind_inv in E as [([] & s1 & E1 & E)|(e & E1 & ->)];
    [|apply step_quiet_err; [by eapply quiet_register_derivation|by eapply plainly_register_derivation]].
  eapply step_after; [by eapply quiet_register_derivation|]. clear E1.
  apply bind_inv in E as [(t & s2 & E1 & E)|(e & E1 & ->)]; [|done]. injection E1 as <- <-.
  destruct (all_exist _ _) eqn:Hex.
  { pose proof (quiet_existing drv drv_path _ _ _ E) as Hq. split; [by apply one_quietly|].
    split; [|intros e ->; apply failed_plainly; by eapply plainly_existing]. intros res _. split; [|by destruct Hq as [_ ->]].
    exists (fs_tree (b_fs s1)). split; [eapply after_seen; [apply Hq|apply seen_now]|]. left. by apply verify_all_exist. }
  unfold in_build_dir in E. cbv zeta in E. set (dir := Path.join temp_dir _) in E.
  set (s2 := mkBuilds (b_fs s1) _ _ _) in E. assert (Q2 : quietly s1 s2) by (split; [apply after_refl|done]).
  eapply step_after; [exact Q2|]. clearbody s2 dir.
  destruct (on_disk _ (create_dir_all dir) s2) as [[[]|e] s3] eqn:E3;
    (assert (Q3 : quietly s2 s3) by (eapply quiet_disk; [apply kept_create_dir_all|exact E3])).
  2:{ injection E as <- <-. apply step_quiet_err; [done|by eapply plainly_disk]. }
  eapply step_after; [exact Q3|]. destruct (run_in_dir _ _ _ _ _ _ s3) as [x s4] eqn:E4. injection E as -> <-.
  apply run_in_dir_step in E4 as (Ho & Hr & He).
  assert (Q4 : quietly s4 (mkBuilds (ignore (remove_dir_all dir) (b_fs s4)).2 (b_db s4) (b_counter s4) (b_ran s4))).
  { split; [|done]. simpl. destruct (ignore _ _) as [y fs] eqn:Ei. simpl.
    revert Ei. eapply stays_ignore; [apply kept_remove_dir_all|done]. }
  split; [by eapply one_before|]. split; [|intros e Hres; eapply failed_seen; [exact Q4|by apply He]].
  intros res Hres. destruct (Hr res Hres) as [(t & Ht & Hd) Hf]. split.
  - exists t. split; [|done]. by eapply after_seen; [apply Q4|].
  - intros Hne. destruct (Hf Hne) as (request & primary & s5 & (t5 & Ht5 & ->) & Hq & Hv & Hp & s6 & He6 & Hdb).
    exists request, primary, s5. split_and!; [|done|done|done|by exists s6].
    exists (fs_tree (b_fs s5)). split; [by eapply after_seen; [apply Q4|]|done].
Qed.

(** ** The loop *)
(** The outputs of [d] have been seen on the disk. *)
Definition obtained (d : SP) (fs : fsys) : Prop :=
  ∃ drv t, known !! d = Some drv ∧ t ∈ seen fs ∧ delivered t drv.

Lemma obtained_after d fs fs' : after fs fs' → obtained d fs → obtained d fs'.
Proof. intros A (drv & t & ? & ? & ?). exists drv, t. split_and!; [done| |done]. by eapply after_seen. Qed.

(** A builder of the loop: confined as its derivation says, and everything before it obtained *)
Definition in_turn (no_sandbox : bool) (before order : list SP) (inv : Invocation SP) : Prop :=
  ∃ l1 l2 drv, order = l1 ++ inv_drv inv :: l2 ∧ known !! inv_drv inv = Some drv
  ∧ inv_confinement inv
    = confine known no_sandbox (fs_tree (inv_from inv)) drv (Str.from_utf8_lossy (Path.to_string (inv_cwd inv)))
  ∧ ∀ d, d ∈ before ++ l1 → obtained d (inv_from inv).

(** How the error of one derivation is reported *)
Definition named (target d : SP) (c : BuildError) : BuildError :=
  if decide (d = target) then c else DependencyFailed (Allow.to_absolute_path d) c.

(** The failure that ended a build: the derivation [d] was built, or asked for as it is on the disk,
    from [s1], and failed with [c]. *)
Definition failed_at (no_sandbox : bool) (target d : SP) s1 (c : BuildError) s' : Prop :=
  ∃ drv, known !! d = Some drv
  ∧ if all_exist (fs_tree (b_fs s1)) drv then d = target ∧ build_result_from_existing known now drv d s1 = (Err c, s')
    else build_derivation_inner known now no_sandbox drv d s1 = (Err c, s').

Definition loop_result (no_sandbox : bool) (target : SP) (before order : list SP) (last : option BuildResult)
    (new : list (Invocation SP)) (r : result BuildError (option BuildResult)) s s' : Prop :=
  match r with
  | Ok last' => (∀ d, d ∈ before ++ order → obtained d (b_fs s')) ∧ (target ∈ order ∨ is_Some last → is_Some last')
  | Err e => ∃ l1 d l2, order = l1 ++ d :: l2 ∧ (inv_drv <$> new) `sublist_of` (l1 ++ [d])
      ∧ (∀ d', d' ∈ before ++ l1 → obtained d' (b_fs s'))
      ∧ (known !! d = None ∨ ∃ s1 c, e = named target d c ∧ failed_at no_sandbox target d s1 c s'
           ∧ ∃ old, b_ran s1 = b_ran s ++ old ∧ (inv_drv <$> old) `sublist_of` l1)
  end.

Lemma in_turn_cons no_sandbox before d order inv :
  in_turn no_sandbox (before ++ [d]) order inv → in_turn no_sandbox before (d :: order) inv.
Proof.
  intros (l1 & l2 & drv & -> & ? & ? & Hb). exists (d :: l1), l2, drv. split_and!; [done..|].
  intros d' Hd'. apply Hb. by rewrite <- app_assoc.
Qed.

Lemma map_error_inv {A} h (m : B SP A) s r s' :
  map_error h m s = (r, s') → ∃ r0, m s = (r0, s') ∧ match r0 with Ok a => r = Ok a | Err e => r = Err (h e) end.
Proof. unfold map_error. destruct (m s) as [[a|e] s1]; intros [= <- <-]; by eexists. Qed.

(** The turn of one derivation, in the loop *)
Definition turn (no_sandbox : bool) (target d : SP) drv (last : option BuildResult) : B SP (option BuildResult) :=
  t ← build_tree;
  if all_exist t drv then
    if decide (d = target) then (result ← build_result_from_existing known now drv d; mret (Some result)) else mret last
  else
    result ← map_error (λ e, if decide (d = target) then e else DependencyFailed (Allow.to_absolute_path d) e)
               (build_derivation_inner known now no_sandbox drv d);
    mret (if decide (d = target) then Some result else last).

Lemma turn_spec no_sandbox target d drv last s r s' :
  known !! d = Some drv → turn no_sandbox target d drv last s = (r, s') →
  one_build no_sandbox drv d s s'
  ∧ match r with
    | Ok last' => obtained d (b_fs s') ∧ (d = target ∨ is_Some last → is_Some last')
    | Err e => ∃ c, e = named target d c ∧ failed_at no_sandbox target d s c s'
    end.
Proof.
  intros Hk E. unfold turn in E. apply bind_inv in E as [(t & s1 & E1 & E)|(e & E1 & _)]; [|done]. injection E1 as <- <-.
  destruct (all_exist _ _) eqn:Hex.
  - assert (Hob : ∀ s', after (b_fs s) (b_fs s') → obtained d (b_fs s')).
    { intros s1 A. exists drv, (fs_tree (b_fs s)). split; [done|]. split; [by eapply after_seen; [|apply seen_now]|].
      left. by apply verify_all_exist. }
    case_decide as Hd.
    + apply bind_inv in E as [(res & s1 & E1 & E)|(e & E1 & ->)];
        (pose proof (quiet_existing _ _ _ _ _ E1) as Hq); [injection E as <- <-|]; (split; [by apply one_quietly|]).
      * split; [apply Hob, Hq|]. by intros _.
      * exists e. unfold named. rewrite decide_True by done. split; [done|]. exists drv. split; [done|]. by rewrite Hex.
    + injection E as <- <-. split; [apply one_quietly, quietly_refl|]. split; [apply Hob, after_refl|]. by intros [|].
  - apply bind_inv in E as [(res & s1 & E1 & E)|(e & E1 & ->)]; apply map_error_inv in E1 as ([res'|e'] & E1 & E2);
      try done; pose proof (inner_step _ _ _ _ _ _ E1) as (Ho & Hr & He).
    + injection E2 as ->. injection E as <- <-. split; [done|]. destruct (Hr res' eq_refl) as [(t & Ht & Hd) _].
      split; [by exists drv, t|]. case_decide; [done|]. by intros [|].
    + injection E2 as ->. split; [done|]. exists e'. split; [done|]. exists drv. split; [done|]. by rewrite Hex.
Qed.

Lemma loop_unfold no_sandbox target d order last s :
  build_loop known now no_sandbox target (d :: order) last s
  = match known !! d with
    | None => (Err (UnknownDerivation (Allow.to_absolute_path d)), s)
    | Some drv =>
        (last' ← turn no_sandbox target d drv last; build_loop known now no_sandbox target order last') s
    end.
Proof.
  cbn [build_loop]. unfold get_drv_by_drvpath, turn. destruct (known !! d) as [drv|]; [|done].
  change (build_lift (ok_or ?e (Some drv)) ≫= ?f) with (f drv). cbv beta.
  unfold mbind, B_bind, SR_bind, build_tree. by destruct (all_exist _ _).
Qed.

Lemma loop_result_cons no_sandbox target before d order last last1 old new r s s1 s' :
  b_ran s1 = b_ran s ++ old → (inv_drv <$> old) `sublist_of` [d] → (d = target ∨ is_Some last → is_Some last1) →
  loop_result no_sandbox target (before ++ [d]) order last1 new r s1 s' →
  loop_result no_sandbox target before (d :: order) last (old ++ new) r s s'.
Proof.
  intros Hran Hold Hl1. destruct r as [last'|e]; simpl.
  - intros [Ho Hl]. split.
    + intros x Hx. apply Ho. by rewrite <- app_assoc.
    + intros [[->|?]%elem_of_cons|?]; apply Hl; auto.
  - intros (l1 & x & l2 & -> & Hsub & Ho & Hx). exists (d :: l1), x, l2. split; [done|]. split.
    { rewrite fmap_app. change ((d :: l1) ++ [x]) with ([d] ++ (l1 ++ [x])). by apply sublist_app. }
    split; [intros y Hy; apply Ho; by rewrite <- app_assoc|].
    destruct Hx as [?|(s2 & c & ? & ? & old' & Hr2 & Hs2)]; [by left|]. right. exists s2, c. split_and!; [done|done|].
    exists (old ++ old'). split; [by rewrite Hr2, Hran, app_assoc|]. rewrite fmap_app.
    change (d :: l1) with ([d] ++ l1). by apply sublist_app.
Qed.

Lemma loop_spec no_sandbox target order : ∀ before last s r s',
  (∀ d, d ∈ before → obtained d (b_fs s)) →
  build_loop known now no_sandbox target order last s = (r, s') →
  after (b_fs s) (b_fs s') ∧ ∃ new, b_ran s' = b_ran s ++ new ∧ (inv_drv <$> new) `sublist_of` order
    ∧ Forall (in_turn no_sandbox before order) new ∧ loop_result no_sandbox target before order last new r s s'.
Proof.
  induction order as [|d order IH]; intros before last s r s' Hb E.
  { injection E as <- <-. split; [apply after_refl|]. exists []. rewrite app_nil_r. split_and!; [done|done|apply Forall_nil_2|]. split.
    - intros d. rewrite app_nil_r. apply Hb.
    - by intros [?%elem_of_nil|]. }
  rewrite loop_unfold in E. destruct (known !! d) as [drv|] eqn:Hk.
  2:{ injection E as <- <-. split; [apply after_refl|]. exists []. rewrite app_nil_r.
      split_and!; [done|apply sublist_nil_l|apply Forall_nil_2|]. exists [], d, order. rewrite app_nil_r.
      split_and!; [done|apply sublist_nil_l|done|by left]. }
  apply bind_inv in E as [(last1 & s1 & E1 & E)|(e & E1 & ->)]; apply turn_spec in E1 as [[A1 R1] Hres1]; try done.
  - destruct Hres1 as [Hob1 Hl1].
    destruct (IH (before ++ [d]) last1 s1 r s') as (A2 & new & R2 & Hs & Hf & Hr); [|done|].
    { intros d' [Hd|Hd]%elem_of_app; [by eapply obtained_after, Hb|]. apply list_elem_of_singleton in Hd as ->. done. }
    split; [by eapply after_trans|].
    assert (Hf' : Forall (in_turn no_sandbox before (d :: order)) new) by (eapply Forall_impl; [exact Hf|]; apply in_turn_cons).
    destruct R1 as [R1|(inv & R1 & Ai & Hdrv & Af & Hc)].
    + exists new. split; [congruence|]. split; [by apply sublist_cons|]. split; [done|].
      apply (loop_result_cons _ _ _ _ _ _ last1 [] new _ _ s1); [by rewrite app_nil_r|apply sublist_nil_l|done|done].
    + exists (inv :: new). split; [rewrite R2, R1, <- app_assoc; done|].
      split; [rewrite fmap_cons, Hdrv; by apply sublist_skip|]. split.
      * apply Forall_cons; split; [|done]. exists [], order, drv. rewrite Hdrv. split_and!; [done..|].
        intros x Hx. rewrite app_nil_r in Hx. by eapply obtained_after, Hb.
      * apply (loop_result_cons _ _ _ _ _ _ last1 [inv] new _ _ s1); [done| |done|done]. simpl. by rewrite Hdrv.
  - split; [done|]. assert (Hb' : ∀ x, x ∈ before ++ [] → obtained x (b_fs s')).
    { intros x Hx. rewrite app_nil_r in Hx. by eapply obtained_after, Hb. }
    destruct Hres1 as (c & Hc & Hfail).
    assert (Hx : known !! d = None ∨ ∃ s1 c, e = named target d c ∧ failed_at no_sandbox target d s1 c s'
      ∧ ∃ old, b_ran s1 = b_ran s ++ old ∧ (inv_drv <$> old) `sublist_of` []).
    { right. exists s, c. split_and!; [done|done|]. exists []. by rewrite app_nil_r. }
    destruct R1 as [R1|(inv & R1 & Ai & Hdrv & Af & Hconf)].
    + exists []. rewrite app_nil_r. split; [done|]. split; [apply sublist_nil_l|]. split; [apply Forall_nil_2|].
      exists [], d, order. split_and!; [done|apply sublist_nil_l|done|done].
    + exists [inv]. split; [done|]. simpl. rewrite Hdrv. split; [by apply sublist_skip, sublist_nil_l|]. split.
      * apply Forall_singleton. exists [], order, drv. rewrite Hdrv. split_and!; [done..|].
        intros x Hx'. rewrite app_nil_r in Hx'. by eapply obtained_after, Hb.
      * exists [], d, order. split; [done|]. split; [done|]. done.
Qed.

End steps.

(** ** Registration *)
Section registration.
Context `{FL : FsLimits, SPL : StorePathLib, IJ : InfoJson, IOF : IoFaults, NC : NarCodec, NW : NarWriter, RS : ReferenceScanner}.
Context {SP : Type} `{Countable SP} {SPT : Allow.StorePathText SP} {BL : BuildLib SP} {PF : Platform SP}.
Context (known : gmap SP (@Allow.Derivation SP)) (now : string).
Implicit Types (s : builds SP) (drv : @Allow.Derivation SP) (drv_path : SP).

(** What the database holds of an output as it was seen in [t] *)
Definition recorded (db : directory) t drv_path (refs : gset string) (p : string) : Prop :=
  ∃ h, nar_hash_path t (Path.components p) = Ok h
    ∧ get db p = Ok (Some (mkPathInfo p h.1 h.2 (BTree.set_to_list refs)
                             (Some (Allow.to_absolute_path drv_path)) now [] [])).

Lemma register_outputs_get drv_path primary h refs outs : ∀ s s',
  hash_names_path →
  register_outputs now true drv_path primary h refs outs s = (Ok tt, s') →
  nar_hash_path (fs_tree (b_fs s)) (Path.components primary) = Ok h →
  b_fs s' = b_fs s
  ∧ (∀ p, p ∈ outs.*2 → recorded (b_db s') (fs_tree (b_fs s)) drv_path refs p)
  ∧ (∀ p, recorded (b_db s) (fs_tree (b_fs s)) drv_path refs p → recorded (b_db s') (fs_tree (b_fs s)) drv_path refs p).
Proof.
  induction outs as [|[name p] outs IH]; intros s s' Hinj E Hh.
  { injection E as <-. split; [done|]. split; [|done]. by intros ? ?%elem_of_nil. }
  cbn [register_outputs] in E. apply bind_inv in E as [(h' & s1 & E1 & E)|(e & _ & ?)]; [|done].
  assert (s1 = s ∧ nar_hash_path (fs_tree (b_fs s)) (Path.components p) = Ok h') as [-> Hh'].
  { case_decide as Hp; [by injection E1 as <- <-; subst|]. unfold of_tree in E1.
    apply bind_inv in E1 as [(t & s2 & E2 & E1)|(e & _ & ?)]; [|done]. injection E2 as <- <-.
    destruct (nar_hash_path _ _); [by injection E1 as -> ->|done]. }
  cbv zeta in E. set (info := mkPathInfo _ _ _ _ _ _ _ _) in E.
  apply bind_inv in E as [([] & s1 & E2 & E)|(e & _ & ?)]; [|done].
  unfold register_info, on_db in E2. destruct (register (b_db s) info) as [x db] eqn:Er.
  destruct x as [[]|]; [|done]. injection E2 as <-. apply register_ok in Er as (Hg & Hold & _).
  apply IH in E as (Hfs & Hnew & Hkeep); [|done|done]. simpl in Hfs, Hnew, Hkeep.
  assert (Hp : recorded db (fs_tree (b_fs s)) drv_path refs p) by by exists h'.
  split; [done|]. split.
  - intros q [->|Hq]%elem_of_cons; [by apply Hkeep|by apply Hnew].
  - intros q (hq & Hq1 & Hq2). apply Hkeep. destruct (decide (q = p)) as [->|Hne]; [done|].
    exists hq. split; [done|]. by rewrite Hold.
Qed.

Lemma finish_recorded request drv drv_path outs primary s res s' :
  hash_names_path →
  finish_outputs known now true request drv drv_path outs primary s = (Ok res, s') →
  b_fs s' = b_fs s ∧ br_outputs res = outs
  ∧ scan_references (fs_tree (b_fs s)) (Path.components primary) (needles_to_candidates known request drv)
    = Ok (br_references res)
  ∧ ∀ name p, outs !! name = Some p → recorded (b_db s') (fs_tree (b_fs s)) drv_path (br_references res) p.
Proof.
  intros Hinj E. unfold finish_outputs in E.
  apply bind_inv in E as [(refs & s1 & E1 & E)|(e & _ & ?)]; [|done].
  apply bind_inv in E1 as [(t & s2 & E2 & E1)|(e & _ & ?)]; [|done]. injection E2 as <- <-.
  destruct (scan_references _ _ _) as [refs'|] eqn:Hs; [|done]. injection E1 as -> <-.
  apply bind_inv in E as [([h n] & s1 & E1 & E)|(e & _ & ?)]; [|done].
  apply bind_inv in E1 as [(t & s2 & E2 & E1)|(e & _ & ?)]; [|done]. injection E2 as <- <-.
  destruct (nar_hash_path _ _) as [h'|] eqn:Hh; [|done]. injection E1 as -> <-.
  apply bind_inv in E as [([] & s1 & E1 & E)|(e & _ & ?)]; [|done]. injection E as <- <-.
  apply register_outputs_get in E1 as (Hfs & Hall & _); [|done|done]. split_and!; [done..|].
  intros name p Hl. apply Hall. apply list_elem_of_fmap. exists (name, p). split; [done|].
  by apply BTree.elem_of_to_list.
Qed.
End registration.

Lemma sublist_snoc_last {A} (l k : list A) x : l `sublist_of` k ++ [x] → l `sublist_of` k ∨ last l = Some x.
Proof.
  intros (l1 & l2 & -> & H1 & H2)%sublist_app_r. inversion H2 as [|? ? ? Hn|? ? ? Hn]; subst.
  - apply sublist_nil_r in Hn as ->. right. apply last_snoc.
  - apply sublist_nil_r in Hn as ->. left. by rewrite app_nil_r.
Qed.

Lemma sublist_elem {A} (l k : list A) x : l `sublist_of` k → x ∈ l → x ∈ k.
Proof. intros Hs Hx. by apply (elem_of_submseteq l); [|apply sublist_submseteq]. Qed.

Section order.
Context `{FL : FsLimits, SPL : StorePathLib, IJ : InfoJson, IOF : IoFaults, NC : NarCodec}
  `{FE : @FetchLib NC} `{NW : NarWriter, RS : ReferenceScanner} {SP : Type} `{Countable SP}
  {SPT : Allow.StorePathText SP} {BL : BuildLib SP} {PF : Platform SP}.
Context (known : gmap SP (@Allow.Derivation SP)) (now : string).

(** The derivation that failed had its builder started last, or none. *)
Lemma failed_at_explained no_sandbox target d (s1 : builds SP) c s' :
  failed_at known now no_sandbox target d s1 c s' →
  ∃ drv, known !! d = Some drv ∧ failed_for drv d s1 s' c
    ∧ (b_ran s' = b_ran s1 ∨ ∃ inv, b_ran s' = b_ran s1 ++ [inv] ∧ inv_drv inv = d).
Proof.
  intros (drv & Hk & Hf). exists drv. split; [done|]. destruct (all_exist _ _).
  - destruct Hf as [_ E]. split; [apply failed_plainly; by eapply plainly_existing|].
    apply quiet_existing in E as [_ R]. by left.
  - apply inner_step in Hf as ([_ Hr] & _ & He). split; [by apply He|].
    destruct Hr as [Hr|(inv & Hr & _ & Hd & _)]; [by left|right; by exists inv].
Qed.

(** The order and the loop together: the builders that were started, and how the loop ended *)
Lemma needed_run no_sandbox target (s : builds SP) r s' :
  build_needed_with_options known now no_sandbox target s = (r, s') →
  (s' = s ∧ ∃ q, r = Err (UnknownDerivation (Allow.to_absolute_path q)) ∧ rtc (input_of known) target q ∧ known !! q = None)
  ∨ ∃ order new res, topological_sort known target = Ok order ∧ b_ran s' = b_ran s ++ new
      ∧ (inv_drv <$> new) `sublist_of` order ∧ Forall (in_turn known no_sandbox [] order) new
      ∧ loop_result known now no_sandbox target [] order None new res s s'
      ∧ match res with Err e => r = Err e | Ok None => False | Ok (Some x) => r = Ok x end.
Proof.
  intros E. pose proof (topological_sort_answers known target) as Hsort.
  unfold build_needed_with_options in E. apply bind_inv in E as [(order & s1 & E1 & E)|(e & E1 & ->)];
    injection E1 as E1 <-; rewrite E1 in Hsort.
  2:{ left. split; [done|]. destruct Hsort as (q & -> & ? & ?). by exists q. }
  right. destruct Hsort as (_ & Hlast & _). exists order.
  apply bind_inv in E as [(res & s1 & E2 & E)|(e & E2 & ->)];
    apply (loop_spec known now no_sandbox target order []) in E2 as (_ & new & ? & ? & ? & Hres);
    try (by intros ? ?%elem_of_nil).
  - injection E as E <-. exists new, (Ok res). split_and!; [done..|].
    destruct Hres as [_ Hx]. destruct Hx as [x ->]; [left; by apply last_Some_elem_of|]. done.
  - by exists new, (Err e).
Qed.
End order.

(** C4. A build goes in the order of needs.  Whatever builders do and however the build ends:
    each derivation's builder is started once at most, only for what the target needs, and
    every input of it, unless that input needs it in turn, has been seen on the disk by then
    with its outputs; its confinement is the one set up for it.  A build that succeeds has
    seen the outputs of everything the target needs.  A build that fails names an unknown
    derivation before anything is built; or it stops at one derivation that the target needs,
    whose builder is the last that was started, if it was: the error is the one with which
    building this derivation failed, under its name unless it is the target, and says
    the exit code and the output of the builder, the output of the derivation that is missing
    on the disk, the failure of a fetch, or an error of the machine. *)
Theorem build_in_order `{FL : FsLimits, SPL : StorePathLib, IJ : InfoJson, IOF : IoFaults, NC : NarCodec}
    `{FE : @FetchLib NC} `{NW : NarWriter, RS : ReferenceScanner} {SP : Type} `{Countable SP}
    {SPT : Allow.StorePathText SP} {BL : BuildLib SP} {PF : Platform SP}
    (known : gmap SP (@Allow.Derivation SP)) now no_sandbox target (s : builds SP) r s' :
  build_needed_with_options known now no_sandbox target s = (r, s') →
  let needs := rtc (input_of known) in
  ∃ new, b_ran s' = b_ran s ++ new ∧ NoDup (inv_drv <$> new)
    ∧ (∀ inv, inv ∈ new → needs target (inv_drv inv) ∧ ∃ drv, known !! inv_drv inv = Some drv
        ∧ inv_confinement inv
          = confine known no_sandbox (fs_tree (inv_from inv)) drv (Str.from_utf8_lossy (Path.to_string (inv_cwd inv)))
        ∧ ∀ d, input_of known (inv_drv inv) d → obtained known d (inv_from inv) ∨ needs d (inv_drv inv))
    ∧ match r with
      | Ok _ => ∀ d, needs target d → obtained known d (b_fs s')
      | Err e =>
          (new = [] ∧ ∃ q, e = UnknownDerivation (Allow.to_absolute_path q) ∧ needs target q ∧ known !! q = None)
          ∨ ∃ d drv s1 c old, needs target d ∧ known !! d = Some drv
              ∧ e = (if decide (d = target) then c else DependencyFailed (Allow.to_absolute_path d) c)
              ∧ failed_at known now no_sandbox target d s1 c s' ∧ failed_for drv d s1 s' c
              ∧ b_ran s1 = b_ran s ++ old ∧ (d ∉ (inv_drv <$> old))
              ∧ (new = old ∨ ∃ inv, new = old ++ [inv] ∧ inv_drv inv = d)
      end.
Proof.
  intros E needs. pose proof (topological_sort_answers known target) as Hsort.
  apply needed_run in E as [(-> & q & -> & Hq & Hk)|(order & new & res & Eo & Hran & Hsub & Hf & Hres & Hr)].
  { exists []. rewrite app_nil_r. split; [done|]. split; [apply NoDup_nil_2|]. split; [by intros ? ?%elem_of_nil|left]. eauto. }
  rewrite Eo in Hsort. destruct Hsort as (Hnd & _ & Hneeds & Hknown & Hok).
  exists new. split; [done|]. split; [by eapply sublist_NoDup|]. split.
  - intros inv Hin. rewrite Forall_forall in Hf. destruct (Hf inv Hin) as (l1 & l2 & drv & Ho & Hk & Hc & Hob).
    split; [apply Hneeds; rewrite Ho; apply elem_of_app; right; left|]. exists drv. split_and!; [done..|].
    intros d Hd. destruct (Hok l1 _ l2 d Ho Hd) as [Hl1|?]; [left; by apply Hob|by right].
  - destruct res as [[res|]|e]; [|done|]; subst r.
    + intros d Hd. apply Hres. by apply Hneeds.
    + destruct Hres as (l1 & d & l2 & Ho & _ & _ & Hd). assert (Hdo : d ∈ order) by (rewrite Ho; apply elem_of_app; right; left).
      destruct Hd as [Hn|(s1 & c & -> & Hat & old & Hr1 & Hs1)]; [destruct (Hknown d Hdo) as [? ?]; congruence|].
      right. destruct (failed_at_explained _ _ _ _ _ _ _ _ Hat) as (drv & Hk & Hwhy & Hlast).
      exists d, drv, s1, c, old. split_and!; [by apply Hneeds|done|done|done|done|done| |].
      * intros Hin. rewrite Ho in Hnd. apply NoDup_app in Hnd as (_ & Hnd & _). apply (Hnd d); [by eapply sublist_elem|left].
      * rewrite Hran, Hr1 in Hlast. destruct Hlast as [Hl|(inv & Hl & Hdrv)].
        -- left. by apply app_inv_head in Hl.
        -- right. rewrite <- app_assoc in Hl. apply app_inv_head in Hl. by exists inv.
Qed.

Section inputs.
Context `{FL : FsLimits, RS : ReferenceScanner} {SP : Type} `{Countable SP} {SPT : Allow.StorePathText SP} {BL : BuildLib SP}.
Context (known : gmap SP (@Allow.Derivation SP)).
Implicit Types (drv : @Allow.Derivation SP).

(** [p] is an input of the derivation: a source, or a used output of an input derivation. *)
Definition is_input drv (p : SP) : Prop :=
  p ∈ Allow.input_sources drv
  ∨ ∃ input idrv name, input ∈ Allow.input_derivations drv ∧ known !! input.1 = Some idrv ∧ name ∈ input.2
      ∧ output_of idrv name = Some p.

Lemma elem_of_input_outputs drv p :
  p ∈ input_output_paths known drv
  ↔ ∃ input idrv name, input ∈ Allow.input_derivations drv ∧ known !! input.1 = Some idrv ∧ name ∈ input.2
      ∧ output_of idrv name = Some p.
Proof.
  unfold input_output_paths. rewrite list_elem_of_bind. unfold get_drv_by_drvpath. split.
  - intros (input & Hp & Hin). destruct (known !! input.1) as [idrv|] eqn:E; [|by apply elem_of_nil in Hp].
    apply list_elem_of_omap in Hp as (name & ? & ?). by exists input, idrv, name.
  - intros (input & idrv & name & Hin & Hk & Hn & Ho). exists input. split; [|done]. rewrite Hk. apply list_elem_of_omap. eauto.
Qed.

Lemma elem_of_direct_inputs drv p : p ∈ direct_inputs known drv ↔ is_input drv p.
Proof. unfold direct_inputs, is_input. by rewrite elem_of_app, elem_of_input_outputs. Qed.

(** What the scan looks for: the digests the request asks for, of outputs and inputs *)
Lemma candidate_known request drv digest r :
  needles_to_candidates known request drv !! digest = Some r →
  digest ∈ refscan_needles request
  ∧ ∃ p, digest = sp_digest p ∧ r = Allow.to_absolute_path p ∧ (is_input drv p ∨ ∃ name, (name, Some p) ∈ Allow.outputs drv).
Proof.
  unfold needles_to_candidates. intros [Hl Hn]%map_lookup_filter_Some. split; [exact Hn|].
  apply elem_of_list_to_map_2 in Hl. rewrite elem_of_reverse in Hl.
  apply elem_of_app in Hl as [Hl|[Hl|Hl]%elem_of_app]; apply list_elem_of_fmap in Hl as (p & [= -> ->] & Hp); exists p;
    (split; [done|]); (split; [done|]).
  - right. apply list_elem_of_omap in Hp as ([name o] & Hin & Ho). simpl in Ho. subst. by exists name.
  - left. by left.
  - left. right. by apply elem_of_input_outputs.
Qed.

Lemma scanned_candidate t p candidates refs r :
  scan_references t p candidates = Ok refs → r ∈ refs → ∃ digest, candidates !! digest = Some r.
Proof.
  unfold scan_references. case_decide; [intros [= <-]; set_solver|].
  intros (texts & _ & E)%result_bind_ok. injection E as <-.
  intros ([digest r'] & -> & [_ Hin]%list_elem_of_filter)%elem_of_list_to_set%list_elem_of_fmap.
  exists digest. by apply elem_of_map_to_list in Hin.
Qed.
End inputs.


Section again.
Context `{FL : FsLimits, SPL : StorePathLib, IJ : InfoJson, IOF : IoFaults, NC : NarCodec}
  `{FE : @FetchLib NC} `{NW : NarWriter, RS : ReferenceScanner} {SP : Type} `{Countable SP}
  {SPT : Allow.StorePathText SP} {BL : BuildLib SP} {PF : Platform SP}.
Context (known : gmap SP (@Allow.Derivation SP)) (now : string).

Lemma loop_idle no_sandbox target pre post last (s : builds SP) :
  target ∉ pre → (∀ d, d ∈ pre → ∃ drv, known !! d = Some drv ∧ all_exist (fs_tree (b_fs s)) drv = true) →
  build_loop known now no_sandbox target (pre ++ post) last s = build_loop known now no_sandbox target post last s.
Proof.
  induction pre as [|d pre IH]; intros Ht Hall; [done|]. rewrite not_elem_of_cons in Ht. destruct Ht as [Hne Ht].
  simpl app. rewrite loop_unfold. destruct (Hall d) as (drv & Hk & Hex); [left|]. rewrite Hk.
  assert (Hturn : turn known now no_sandbox target d drv last s = (Ok last, s)).
  { unfold turn, mbind, B_bind, SR_bind, build_tree. rewrite Hex. by rewrite decide_False. }
  unfold mbind at 1, B_bind, SR_bind. rewrite Hturn. apply IH; [done|]. intros x Hx. apply Hall. by right.
Qed.

(** The derivation is registered with its output, as a build leaves it. *)
Definition all_registered (s : builds SP) target drv (primary : string) (info : PathInfo) : Prop :=
  path_exists (fs_tree (b_fs s)) (Path.components (Allow.to_absolute_path target)) = true
  ∧ (∃ own, get (b_db s) (Allow.to_absolute_path target) = Ok (Some own))
  ∧ primary_output (output_paths_of drv) = Some primary ∧ get (b_db s) primary = Ok (Some info).

Lemma existing_registered (s : builds SP) target drv primary info :
  all_registered s target drv primary info →
  build_result_from_existing known now drv target s
  = (Ok (mkBuildResult (output_paths_of drv) (list_to_set (references info)) (nar_hash info) (nar_size info)), s).
Proof.
  intros (Hex & (own & Hown) & Hp & Hg). destruct s as [fs db c ran]. simpl in *.
  unfold build_result_from_existing, register_derivation_file, mbind, B_bind, SR_bind, build_tree, build_lift, sr_get, on_db.
  simpl. rewrite Hex. simpl. rewrite Hown. simpl. rewrite Hp. simpl. by rewrite Hg.
Qed.
End again.

(** Nothing is built twice.  When the outputs of everything a known target needs are on the disk
    no builder is started; and when the derivation and its primary output are registered
    too, the build answers with what is registered and changes nothing at all. *)
Theorem nothing_to_build `{FL : FsLimits, SPL : StorePathLib, IJ : InfoJson, IOF : IoFaults, NC : NarCodec}
    `{FE : @FetchLib NC} `{NW : NarWriter, RS : ReferenceScanner} {SP : Type} `{Countable SP}
    {SPT : Allow.StorePathText SP} {BL : BuildLib SP} {PF : Platform SP}
    (known : gmap SP (@Allow.Derivation SP)) now no_sandbox target (s : builds SP) :
  (∀ d, rtc (input_of known) target d → ∃ drv, known !! d = Some drv ∧ all_exist (fs_tree (b_fs s)) drv = true) →
  let '(r, s') := build_needed_with_options known now no_sandbox target s in
  b_ran s' = b_ran s
  ∧ ∀ drv primary info, known !! target = Some drv → all_registered s target drv primary info →
      s' = s ∧ r = Ok (mkBuildResult (output_paths_of drv) (list_to_set (references info)) (nar_hash info) (nar_size info)).
Proof.
  intros Hall. destruct (build_needed_with_options _ _ _ _ s) as [r s'] eqn:E.
  pose proof (topological_sort_answers known target) as Hsort. unfold build_needed_with_options in E.
  destruct (topological_sort known target) as [order|e].
  2:{ destruct Hsort as (q & _ & Hq & Hk). destruct (Hall q Hq) as (? & ? & _). congruence. }
  destruct Hsort as (Hnd & Hlast & Hneeds & _). apply last_Some in Hlast as [pre ->].
  apply NoDup_app in Hnd as (_ & Hnd & _).
  destruct (Hall target (rtc_refl _ _)) as (drv & Hk & Hex).
  assert (Hl : build_loop known now no_sandbox target (pre ++ [target]) None s
    = (result ← build_result_from_existing known now drv target; mret (Some result)) s).
  { rewrite loop_idle.
    - rewrite loop_unfold, Hk. unfold turn, mbind, B_bind, SR_bind, build_tree. rewrite Hex, decide_True by done.
      by destruct (build_result_from_existing _ _ _ _ s) as [[]].
    - intros Hin. apply (Hnd target Hin). left.
    - intros d Hd. apply Hall, Hneeds, elem_of_app. by left. }
  change (build_lift (Ok ?x) ≫= ?f) with (f x) in E. cbv beta in E.
  unfold mbind at 1, B_bind, SR_bind in E. rewrite Hl in E. split.
  - unfold mbind, B_bind, SR_bind in E.
    destruct (build_result_from_existing _ _ _ _ s) as [[res|e] s1] eqn:Ee; apply quiet_existing in Ee as [_ R];
      injection E as _ <-; done.
  - intros drv' primary info Hk' Hreg. assert (drv' = drv) as -> by congruence.
    unfold mbind, B_bind, SR_bind in E. rewrite (existing_registered known now s target drv primary info Hreg) in E.
    by injection E as <- <-.
Qed.

(** C16. How a builder is confined.  Behind the proxy it has no [file] scheme, the network exactly
    for a fixed-output derivation, and the list given to the proxy is the one that is built from the
    derivation: by it the builder may write exactly under its output, its build directory, the
    wrapper's logs and the three devices.  But the output is the one that is called [out]: a
    derivation that has none may write everywhere.  In a namespace alone the builder keeps the
    whole [file] scheme; that happens when the namespace or the proxy failed.  It runs unconfined when
    that was asked for, by the caller or the configuration, but also when neither set-up worked. *)
Theorem builder_confined {SP : Type} `{FL : FsLimits} `{Countable SP} {SPT : Allow.StorePathText SP}
    {BL : BuildLib SP} {PF : Platform SP} (known : gmap SP (@Allow.Derivation SP)) no_sandbox t drv dir :
  let out := match output_of drv "out" with Some p => Allow.to_absolute_path p | None => "" end in
  let allowed := Allow.build_allow_list (get_drv_by_drvpath known) drv out dir in
  let networked schemes := schemes ++ (if decide (is_Some (env_get drv "outputHash")) then ["net"] else []) in
  let asked := no_sandbox = false ∧ sandbox_disabled_by_config (SP := SP) t = false in
  let proxied := mkns (SP := SP) (networked PROXY_REQUIRED_SCHEMES) ;; proxy_start (SP := SP) allowed in
  let spaced := mkns (SP := SP) (networked REQUIRED_SCHEMES) ;; setns (SP := SP) (networked REQUIRED_SCHEMES) in
  match confine known no_sandbox t drv dir with
  | ByProxy schemes l =>
      asked ∧ proxied = Ok tt ∧ l = allowed ∧ schemes = networked PROXY_REQUIRED_SCHEMES
      ∧ ("file" ∉ schemes) ∧ ("net" ∈ schemes ↔ is_Some (env_get drv "outputHash"))
      ∧ (∀ p, Allow.can_write l p = true
          ↔ ∃ root, root ∈ writable_roots out dir ∧ Allow.normalize_path root `prefix_of` Allow.clean_path p)
      ∧ (output_of drv "out" = None → ∀ q, Allow.can_write l (RootDir :: q) = true)
  | ByNamespace schemes =>
      asked ∧ is_ok proxied = false ∧ spaced = Ok tt ∧ schemes = networked REQUIRED_SCHEMES
      ∧ "file" ∈ schemes ∧ ("net" ∈ schemes ↔ is_Some (env_get drv "outputHash"))
  | Unconfined =>
      no_sandbox = true ∨ sandbox_disabled_by_config (SP := SP) t = true
      ∨ asked ∧ is_ok proxied = false ∧ is_ok spaced = false
  end.
Proof.
  intros out allowed networked asked proxied spaced. unfold confine. destruct (negb no_sandbox && _) eqn:Hon.
  2:{ apply andb_false_iff in Hon as [?%negb_false_iff|?%negb_false_iff]; auto. }
  apply andb_true_iff in Hon as [Hns%negb_true_iff Hd%negb_true_iff]. cbv zeta. fold out. fold allowed.
  set (config := mkSandboxConfig _ _ _ _).
  assert (Hschemes : ∀ required, schemes_of required config = networked required).
  { intros required. unfold schemes_of, networked. f_equal. simpl. unfold is_fixed_output.
    destruct (decide (is_Some (env_get drv "outputHash"))); [by rewrite bool_decide_eq_true_2|by rewrite bool_decide_eq_false_2]. }
  assert (Hnet : ∀ required, "net" ∉ required → "net" ∈ networked required ↔ is_Some (env_get drv "outputHash")).
  { intros required Hr. unfold networked. rewrite elem_of_app. destruct (decide _) as [Hf|Hf]; [|set_solver].
    split; [done|]. intros _. right. left. }
  assert (Hfile : ∀ required, "file" ∈ networked required ↔ "file" ∈ required).
  { intros required. unfold networked. rewrite elem_of_app. destruct (decide _); set_solver. }
  unfold setup_proxy_namespace, setup_build_namespace. rewrite !Hschemes. fold proxied spaced.
  destruct proxied as [[]|e1] eqn:E1.
  - split_and!; [done|done|done|done|rewrite Hfile; by apply (bool_decide_unpack _)|apply Hnet; by apply (bool_decide_unpack _)| |].
    + intros p. rewrite Allow.can_write_spec, Allow.check_rw. unfold allowed. rewrite build_rw. apply covered_roots.
    + intros Hno q. rewrite Allow.can_write_spec, Allow.check_rw. unfold allowed. rewrite build_rw. apply covered_roots.
      exists "". unfold out. rewrite Hno. split; [left|]. apply Allow.root_prefix.
  - destruct spaced as [[]|e2] eqn:E2.
    + split_and!; [done|done|done|done|rewrite Hfile; left|apply Hnet; by apply (bool_decide_unpack _)].
    + right; right. by split_and!.
Qed.
