(* ===== verification/BuildDemo.v ===== *)
(** * Local builds: concrete runs

    A library and a program that needs it, built by a builder that copies a line into its
    output; the witnesses of the theorems of [BuildFacts] are evaluated on them. *)

From S2P Require Import Prelude RustStd FileSys FileSysFacts Nar PathInfo Instances ManifestInstances.
From S2P Require Import NarExtract StoreExtract NarDump CacheSource AllowList Install InstallFacts Fetchers.
From S2P Require Import LocalBuild BuildOrder BuildFacts.
From stdpp Require Import relations.

Open Scope Z_scope.

Module BuildDemo.
#[local] Existing Instances ExtractDemo.codec InstallDemo.names DumpDemo.demo_writer DumpDemo.demo_scanner.
#[local] Instance text_is_path : Allow.StorePathText string := λ s, s.

#[local] Instance no_net : FetchLib := {|
  http_get _ := Err NotFound; gz_stream s := s; read_tar _ := Err NotFound;
|}.

(** The request: the arguments, the environment, every digest as a needle *)
#[local] Instance lib : BuildLib string := {|
  sp_text s := s;
  sp_digest s := s;
  to_aterm_bytes drv := "Derive";
  derivation_into_build_request drv inputs :=
    Some (mkBuildRequest (Allow.builder drv :: Allow.arguments drv) (Allow.environment drv) []
            (inputs ++ omap snd (Allow.outputs drv)));
  derivation_to_fetch _ := None;
|}.

(** A builder writes its last argument to its output, and fails when that is [broken]. *)
#[local] Instance machine : Platform string := {|
  env_var _ := None;
  temp_dir := Path.components "/tmp";
  pid := "7";
  mkns _ := Ok tt;
  proxy_start _ := Ok tt;
  setns _ := Ok tt;
  run_builder inv :=
    let text := default "" (last (inv_args inv)) in
    let out := Path.components (default "" (inv_env inv !! "out")) in
    (Ok (mkBuilderExit (Some (if decide (text = "broken") then 1 else 0)) 0 ""),
     [<[out := File text 292]> (fs_tree (inv_from inv))]);
|}.

Definition drv (out text : string) (inputs : list string) : @Allow.Derivation string :=
  Allow.mkDerivation "/bin/sh" [text] [("out", out)] [] ((λ i, (i, ["out"])) <$> inputs) [("out", Some out)].

Definition lib_drv := drv "/nix/store/l" "a library" [].
Definition app_drv := drv "/nix/store/a" "uses /nix/store/l" ["/nix/store/l.drv"].
Definition graph : gmap string (@Allow.Derivation string) :=
  <["/nix/store/l.drv" := lib_drv]> {["/nix/store/a.drv" := app_drv]}.

Definition start : builds string := mkBuilds
  (mkFsys (<[Path.components "/tmp" := Dir 511]> (<[Path.components "/nix/store" := Dir 493]>
     (<[Path.components "/nix" := Dir 493]> ∅))) []) ∅ 0 [].

Definition app : string := "/nix/store/a.drv".
Definition built := build_needed_with_options graph "now" false app start.

Example built_ran : (inv_drv <$> b_ran built.2) = ["/nix/store/l.drv"; app].
Proof. vm_compute. reflexivity. Qed.

Example built_refs : (br_references <$> built.1) = Ok {["/nix/store/l"]}.
Proof. vm_compute. reflexivity. Qed.

Lemma built_ok : ∃ res, built.1 = Ok res ∧ br_references res = {["/nix/store/l"]}.
Proof. pose proof built_refs as H. destruct (built.1) as [res|]; [|done]. injection H as H. by exists res. Qed.

Lemma app_needs_lib : input_of graph app "/nix/store/l.drv".
Proof. exists app_drv. split; [vm_compute; reflexivity|]. simpl. left. Qed.

Lemma build_in_order_witness :
  ∃ res, built.1 = Ok res ∧ obtained graph "/nix/store/l.drv" (b_fs built.2)
  ∧ ∃ new, b_ran built.2 = b_ran start ++ new ∧ NoDup (inv_drv <$> new).
Proof.
  destruct built_ok as (res & Hres & _). exists res. split; [done|].
  destruct (build_in_order graph "now" false app start built.1 built.2 (surjective_pairing _)) as (new & Hran & Hnd & _ & Hr).
  rewrite Hres in Hr. split; [|exists new; split; [exact Hran|exact Hnd]]. apply Hr. eapply rtc_l; [apply app_needs_lib|apply rtc_refl].
Defined.

(** The library by itself *)
Definition lib_built := build_derivation_inner graph "now" false lib_drv "/nix/store/l.drv" start.


(** Once more *)
Definition rebuilt := build_needed_with_options graph "later" false app built.2.

Lemma graph_needs d : rtc (input_of graph) app d → d = app ∨ d = "/nix/store/l.drv".
Proof.
  intros Hd. apply rtc_inv in Hd as [->|(x & Hx & Hd)]; [by left|right].
  destruct Hx as (drv & Hk & Hx). assert (drv = app_drv) as -> by (by injection Hk).
  simpl in Hx. apply list_elem_of_singleton in Hx as ->. apply rtc_inv in Hd as [->|(y & (drv & Hk' & Hy) & _)]; [done|].
  assert (drv = lib_drv) as -> by (by injection Hk'). by apply elem_of_nil in Hy.
Qed.

Lemma nothing_to_build_witness : b_ran rebuilt.2 = b_ran built.2 ∧ rebuilt.2 = built.2.
Proof.
  assert (Hall : ∀ d, rtc (input_of graph) app d →
    ∃ drv, graph !! d = Some drv ∧ all_exist (fs_tree (b_fs built.2)) drv = true).
  { intros d [->| ->]%graph_needs; [exists app_drv|exists lib_drv]; split; vm_compute; reflexivity. }
  pose proof (nothing_to_build graph "later" false app built.2 Hall) as Hn. fold rebuilt in Hn.
  rewrite (surjective_pairing rebuilt) in Hn. destruct Hn as [Hran Hsame]. split; [exact Hran|].
  assert (Hreg : ∃ info, get (b_db built.2) "/nix/store/a" = Ok (Some info)) by (eexists; vm_compute; reflexivity).
  destruct Hreg as [info Hinfo].
  destruct (Hsame app_drv "/nix/store/a" info) as [Hs _]; [vm_compute; reflexivity| |exact Hs].
  split; [vm_compute; reflexivity|]. split; [eexists; vm_compute; reflexivity|].
  split; [vm_compute; reflexivity|exact Hinfo].
Defined.

(** A build that fails leaves its output, and the next build takes it for a result: it answers
    without starting the builder, and registers what the failed builder left. *)
Definition broken_graph : gmap string (@Allow.Derivation string) := {[app := drv "/nix/store/a" "broken" []]}.
Definition failed := build_needed_with_options broken_graph "now" false app start.
Definition retried := build_needed_with_options broken_graph "now" false app failed.2.

Example failed_is_reused :
  is_ok failed.1 = false ∧ is_ok retried.1 = true ∧ length (b_ran retried.2) = length (b_ran failed.2)
  ∧ is_registered (b_db retried.2) "/nix/store/a" = true.
Proof. split_and!; vm_compute; reflexivity. Qed.

(** The references of a second output are not looked for: it is registered with those of the first. *)
Definition two_outputs : @Allow.Derivation string :=
  Allow.mkDerivation "/bin/sh" ["text"] [("out", "/nix/store/a")] ["/nix/store/l"] []
    [("dev", Some "/nix/store/d"); ("out", Some "/nix/store/a")].
Definition with_dev : builds string := mkBuilds
  (mkFsys (<[Path.components "/nix/store/d" := File "uses /nix/store/l" 292]> (fs_tree (b_fs start))) []) ∅ 0 [].
Definition dev_built := build_derivation_inner {[app := two_outputs]} "now" false two_outputs app with_dev.

Example dev_references :
  match get (b_db dev_built.2) "/nix/store/d" with Ok (Some info) => references info = [] | _ => False end
  ∧ scan_references (fs_tree (b_fs dev_built.2)) (Path.components "/nix/store/d") {["/nix/store/l" := "/nix/store/l"]}
    = Ok {["/nix/store/l"]}.
Proof. split; vm_compute; reflexivity. Qed.

End BuildDemo.
