(* ===== verification/EvalSources.v ===== *)
(** * Publishing the sources of an evaluation ([eval.rs])

    The evaluator keeps the sources a derivation imports in stores in memory; before a build
    they are written to the store, each in a directory of its own first and then renamed to
    its place.  The stores are other crates': a source is the tree they hand out, where any
    part may be missing or break off. *)

From S2P Require Import Prelude RustStd FileSys PathInfo AllowList.

Open Scope Z_scope.

(** [snix_castore::Node], with what the services answer for its digest: the contents with the error
    that broke them off, or an error when they are missing *)
Inductive source_node : Type :=
  | SourceDirectory (entries : result io_error (list (string * source_node)))
  | SourceFile (body : result io_error (string * option io_error)) (size : Z) (executable : bool)
  | SourceSymlink (target : string).

(** [snix_store::path_info::PathInfo]; the digest in hexadecimal *)
Record UpstreamInfo {SP : Type} : Type := mkUpstreamInfo {
  up_store_path : SP;
  up_node : source_node;
  up_nar_sha256 : string;
  up_nar_size : Z;
  up_references : list SP;
  up_deriver : option SP;
  up_signatures : list string;
}.
Arguments UpstreamInfo : clear implicits.
Arguments mkUpstreamInfo {SP} _ _ _ _ _ _ _.

Inductive ImportError : Type :=
  | ImportIo (e : io_error)
  | ImportDb (e : PathInfoError)
  | SourceUnavailable (p : string).

(** The disk, the database, the import counter *)
Record imports : Type := mkImports { im_fs : fsys; im_db : directory; im_counter : Z }.

Definition M (A : Type) : Type := SR imports ImportError A.
#[export] Instance M_ret : MRet M := SR_ret imports ImportError.
#[export] Instance M_bind : MBind M := SR_bind imports ImportError.

Definition mio {A} (m : F A) : M A := λ s,
  let '(r, fs) := m (im_fs s) in
  (match r with Ok a => Ok a | Err e => Err (ImportIo e) end, mkImports fs (im_db s) (im_counter s)).
Definition mdb {A} (m : directory → result PathInfoError A * directory) : M A := λ s,
  let '(r, db) := m (im_db s) in
  (match r with Ok a => Ok a | Err e => Err (ImportDb e) end, mkImports (im_fs s) db (im_counter s)).
Definition mlift {A} (r : result ImportError A) : M A := λ s, (r, s).

Section sources.
Context `{FL : FsLimits, SPL : StorePathLib, IJ : InfoJson, IOF : IoFaults}.

(** ** One source *)
(** One turn of the loop of [write_source_node]: the children of a directory are pushed *)
Definition write_one (p : path) (node : source_node) : F (list (path * source_node)) :=
  match node with
  | SourceDirectory entries =>
      nodes ← lift entries;
      mkdir p ;;
      mret ((λ e : string * source_node, (Path.join p [Normal e.1], e.2)) <$> nodes)
  | SourceFile body size executable =>
      body ← lift body;
      write_file p body.1 ;;
      match body.2 with
      | Some e => fail e
      | None =>
          if decide (Z.of_nat (String.length body.1) = size) then
            set_permissions p (if executable then 0x16D else 0x124) ;; mret []
          else fail (OtherError "invalid data")
      end
  | SourceSymlink target => symlink target p ;; mret []
  end.

(** [write_source_node]; the stack has its top first *)
Fixpoint write_loop (fuel : nat) (pending : list (path * source_node)) : F unit :=
  match pending, fuel with
  | [], _ => mret tt
  | _ :: _, O => fail (OtherError "out of fuel")
  | (p, node) :: pending', S fuel' =>
      children ← write_one p node;
      write_loop fuel' (reverse children ++ pending')
  end.

Fixpoint node_count (n : source_node) : nat :=
  match n with
  | SourceDirectory (Ok es) => S (sum_list ((λ e : string * source_node, node_count e.2) <$> es))
  | _ => 1
  end.

Definition write_source_node (node : source_node) (destination : path) : F unit :=
  write_loop (node_count node) [(destination, node)].

(** [DirBuilder::new().mode(mode).create(p)] *)
Definition mkdir_mode (mode : Z) (p : path) : F unit :=
  check_fault OpMkdir p ;;
  t ← get_tree;
  q ← lift (resolve t false p);
  match node_at t q with
  | Some _ => fail AlreadyExists
  | None => put_tree (<[q := Dir mode]> t)
  end.

Definition staging_name (pid : string) (id : Z) : string := ".snix-import-" +:+ pid +:+ "-" +:+ pretty (Z.to_N id).

(** A source that is not there: staged, then renamed *)
Definition stage (staging destination : path) (node : source_node) : F unit :=
  mkdir_mode 0x1C0 staging ;;
  let staged_source := Path.join staging [Normal "source"] in
  result ← attempt
    (write_source_node node staged_source ;;
     catch (rename staged_source destination) (λ e,
       t ← get_tree; if is_ok (symlink_metadata t destination) then mret tt else fail e));
  cleanup ← attempt (remove_dir_all staging);
  lift result ;; lift cleanup.

Section publish.
Context {SP : Type} {SPT : Allow.StorePathText SP}.
Context (sp_text : SP → string) (path_info : SP → result io_error (option (UpstreamInfo SP))).
Context (pid : string) (now : string) (store_root : path).

(** [PathInfo::from_upstream] *)
Definition from_upstream (u : UpstreamInfo SP) : PathInfo :=
  mkPathInfo (Allow.to_absolute_path (up_store_path u)) ("sha256:" +:+ up_nar_sha256 u) (up_nar_size u)
    (Allow.to_absolute_path <$> up_references u) (Allow.to_absolute_path <$> up_deriver u) now (up_signatures u) [].

Definition next_import : M Z := λ s, (Ok (im_counter s), mkImports (im_fs s) (im_db s) (wrap64 (im_counter s + 1))).

Definition publish_source (source : SP) : M unit :=
  let store_path := Allow.to_absolute_path source in
  let destination := Path.join store_root (Path.components (sp_text source)) in
  s ← sr_get;
  present ← mlift (match symlink_metadata (fs_tree (im_fs s)) destination with
                   | Ok _ => Ok true
                   | Err NotFound => Ok false
                   | Err e => Err (ImportIo e)
                   end);
  if (present : bool) && is_registered (im_db s) store_path then mret tt
  else
    info ← mlift (match path_info source with Ok i => Ok i | Err e => Err (ImportIo e) end);
    match info with
    | None => if present then mret tt else mlift (Err (SourceUnavailable store_path))
    | Some info =>
        (if present then mret tt
         else mio (create_dir_all store_root) ;;
              id ← next_import;
              mio (stage (Path.join store_root [Normal (staging_name pid id)]) destination (up_node info))) ;;
        mdb (λ db, register db (from_upstream info))
    end.

(** [materialize_input_sources], on the sources in the order of the set *)
Fixpoint materialize_input_sources (sources : list SP) : M unit :=
  match sources with
  | [] => mret tt
  | source :: sources' => publish_source source ;; materialize_input_sources sources'
  end.

End publish.
End sources.
