(* ===== verification/EvalSourcesFacts.v ===== *)
(** * Publishing the sources of an evaluation: theorems

    The work list writes the tree a recursion would, and a source appears in the store as a
    whole or not at all. *)

From S2P Require Import Prelude RustStd FileSys FileSysFacts PathInfo Instances ManifestInstances AllowList.
From S2P Require Import NarExtract NarFacts NarDump EvalSources.

Open Scope Z_scope.

(** ** A source as an archive *)
Fixpoint source_nar (n : source_node) : nar :=
  match n with
  | SourceDirectory (Ok es) => NarDirectory ((λ e : string * source_node, (e.1, source_nar e.2)) <$> es) None
  | SourceDirectory (Err e) => NarDirectory [] (Some e)
  | SourceFile (Ok body) _ x => NarFile x body.1 body.2
  | SourceFile (Err e) _ x => NarFile x "" (Some e)
  | SourceSymlink g => NarSymlink g
  end.

Lemma source_node_ind' (Q : source_node → Prop) :
  (∀ b sz x, Q (SourceFile b sz x)) → (∀ g, Q (SourceSymlink g)) → (∀ e, Q (SourceDirectory (Err e))) →
  (∀ es, Forall (λ e, Q e.2) es → Q (SourceDirectory (Ok es))) → ∀ n, Q n.
Proof.
  intros Hf Hl He Hd. fix IH 1. intros [[es|e]|b sz x|g]; [|done..]. apply Hd.
  induction es as [|[name child] es IHes]; constructor; [apply IH|exact IHes].
Qed.

(** The services have all of a source: every directory, and every file to its end, of the size
    it is declared with. *)
Fixpoint intact (n : source_node) : Prop :=
  match n with
  | SourceDirectory (Ok es) =>
      (fix go es := match es with
                    | [] => True
                    | e :: es' => intact (snd e) ∧ go es'
                    end) es
  | SourceFile (Ok (text, None)) size _ => Z.of_nat (String.length text) = size
  | SourceSymlink _ => True
  | _ => False
  end.

Lemma intact_dir es : intact (SourceDirectory (Ok es)) ↔ Forall (λ e : string * source_node, intact e.2) es.
Proof.
  simpl. induction es as [|e es IH]; [split; [constructor|done]|].
  rewrite Forall_cons, <- IH. done.
Qed.

Section tree.
Context `{FL : FsLimits}.

(** ** The recursion *)
(** One entry after the other, the last one first *)
Fixpoint write_tree (node : source_node) (p : path) : F unit :=
  match node with
  | SourceDirectory (Ok es) =>
      mkdir p ;;
      (fix go es := match es with
                    | [] => mret tt
                    | (name, child) :: es' => go es' ;; write_tree child (Path.join p [Normal name])
                    end) es
  | node => write_one p node ;; mret tt
  end.

Fixpoint write_entries (es : list (string * source_node)) (p : path) : F unit :=
  match es with
  | [] => mret tt
  | (name, child) :: es' => write_entries es' p ;; write_tree child (Path.join p [Normal name])
  end.

Lemma write_tree_dir es p s : write_tree (SourceDirectory (Ok es)) p s = (mkdir p ;; write_entries es p) s.
Proof.
  cbn [write_tree]. unfold mbind, F_bind, SR_bind. destruct (mkdir p s) as [[u|e] s1]; [|done].
  revert s1. induction es as [|[name child] es IH]; intros s1; [done|]. cbn [write_entries].
  unfold mbind, F_bind, SR_bind in *. by rewrite IH.
Qed.

Fixpoint write_all (pending : list (path * source_node)) : F unit :=
  match pending with
  | [] => mret tt
  | (p, node) :: pending' => write_tree node p ;; write_all pending'
  end.

Lemma bind_assoc {A B C} (m : F A) (f : A → F B) (g : B → F C) s :
  ((m ≫= f) ≫= g) s = (m ≫= λ a, f a ≫= g) s.
Proof. unfold mbind, F_bind, SR_bind. by destruct (m s) as [[a|e] s1]. Qed.

Lemma bind_ext {A B} (m : F A) (f g : A → F B) s : (∀ a s', f a s' = g a s') → (m ≫= f) s = (m ≫= g) s.
Proof. intros E. unfold mbind, F_bind, SR_bind. destruct (m s) as [[a|e] s1]; [apply E|done]. Qed.

Lemma write_all_app l1 l2 s : write_all (l1 ++ l2) s = (write_all l1 ;; write_all l2) s.
Proof.
  revert s. induction l1 as [|[p n] l1 IH]; intros s; [done|]. simpl. rewrite bind_assoc. by apply bind_ext.
Qed.

Lemma write_entries_all es p s :
  write_entries es p s
  = write_all (reverse ((λ e : string * source_node, (Path.join p [Normal e.1], e.2)) <$> es)) s.
Proof.
  revert s. induction es as [|[name child] es IH]; intros s; [done|]. cbn [write_entries].
  rewrite fmap_cons, reverse_cons, write_all_app. unfold mbind, F_bind, SR_bind. rewrite IH.
  destruct (write_all _ s) as [[u|e] s1]; [|done]. simpl. unfold mbind, F_bind, SR_bind.
  by destruct (write_tree child _ s1) as [[[]|e] s2].
Qed.

Definition pending_count (pending : list (path * source_node)) : nat :=
  sum_list ((λ e, node_count e.2) <$> pending).

Lemma node_count_dir es p :
  node_count (SourceDirectory (Ok es))
  = S (pending_count (reverse ((λ e : string * source_node, (Path.join p [Normal e.1], e.2)) <$> es))).
Proof.
  cbn [node_count]. f_equal. unfold pending_count. rewrite fmap_reverse, sum_list_with_reverse. f_equal.
  rewrite <- list_fmap_compose. by apply list_fmap_ext.
Qed.

Lemma pending_count_app l1 l2 : pending_count (l1 ++ l2) = (pending_count l1 + pending_count l2)%nat.
Proof. unfold pending_count. by rewrite fmap_app, sum_list_with_app. Qed.

Lemma pending_count_cons p n l : pending_count ((p, n) :: l) = (node_count n + pending_count l)%nat.
Proof. done. Qed.

Lemma node_count_pos n : (1 ≤ node_count n)%nat.
Proof. destruct n as [[]| |]; simpl; lia. Qed.

(** The work list does what the recursion does, and its fuel is enough. *)
Lemma write_loop_all fuel pending s :
  (pending_count pending ≤ fuel)%nat → write_loop fuel pending s = write_all pending s.
Proof.
  revert pending s. induction fuel as [|fuel IH]; intros [|[p node] pending] s Hf; [done| |done|].
  { rewrite pending_count_cons in Hf. pose proof (node_count_pos node). lia. }
  rewrite pending_count_cons in Hf.
  cbn [write_loop write_all].
  destruct node as [[es|e]|b sz x|g].
  - rewrite (node_count_dir es p) in Hf. cbn [write_one]. unfold mbind, F_bind, SR_bind. rewrite write_tree_dir.
    unfold mbind, F_bind, SR_bind. simpl. destruct (mkdir p s) as [[u|e] s1]; [|done]. simpl.
    rewrite IH by (rewrite pending_count_app; lia).
    rewrite write_all_app, write_entries_all. done.
  - done.
  - cbn [write_tree]. unfold mbind, F_bind, SR_bind.
    assert (Hnil : ∀ c s1, write_one p (SourceFile b sz x) s = (Ok c, s1) → c = []).
    { intros c s1. cbn [write_one]. unfold mbind, F_bind, SR_bind. destruct b as [[text [e|]]|e]; simpl; [..|done];
        destruct (write_file p text s) as [[u|e'] s2]; try done. case_decide; [|done].
      by destruct (set_permissions _ _ s2) as [[]]; [intros [= <- _]|]. }
    destruct (write_one p _ s) as [[c|e] s1]; [|done]. rewrite (Hnil c s1 eq_refl). change (reverse [] ++ pending) with pending. apply IH.
    simpl in Hf. lia.
  - cbn [write_tree write_one]. unfold mbind, F_bind, SR_bind. destruct (symlink g p s) as [[u|e] s1]; [|done].
    change (reverse [] ++ pending) with pending. apply IH.
    simpl in Hf. lia.
Qed.

Lemma write_source_tree node p s : write_source_node node p s = write_tree node p s.
Proof.
  unfold write_source_node. rewrite write_loop_all by (unfold pending_count; simpl; lia).
  cbn [write_all]. unfold mbind, F_bind, SR_bind. by destruct (write_tree node p s) as [[[]|e] s1].
Qed.

(** It only ends well when there is nothing missing. *)
Lemma write_tree_intact node p s s' : write_tree node p s = (Ok tt, s') → intact node.
Proof.
  revert p s s'. induction node as [b sz x|g|e|es IH] using source_node_ind'; intros p s s' H; [|done|done|].
  - cbn [write_tree write_one] in H. unfold mbind, F_bind, SR_bind in H.
    destruct b as [[text [e|]]|e]; simpl in H; [..|done]; destruct (write_file p text s) as [[u|e'] s2]; try done.
    by case_decide.
  - rewrite write_tree_dir in H. unfold mbind, F_bind, SR_bind in H.
    destruct (mkdir p s) as [[u|e] s1]; [|done]. apply intact_dir. revert s1 s' H.
    induction IH as [|[name child] es Hc _ IHes]; intros s1 s' H; constructor; cbn [write_entries] in H;
      unfold mbind, F_bind, SR_bind in H; destruct (write_entries es p s1) as [[[]|e] s2] eqn:E; try done.
    + by eapply Hc.
    + by eapply IHes.
Qed.

(** ** What the recursion leaves *)
Definition writes (node : source_node) : Prop := ∀ p s r s',
  plain (fs_tree s) p → p ≠ [RootDir] → clear (fs_tree s) p → names_ok (source_nar node) →
  write_tree node p s = (r, s') →
  run_in (around p (fs_tree s)) s s'
  ∧ (r = Ok tt → ∀ q, node_like (fs_tree s' !! (p ++ q)) (nar_at (source_nar node) q)).

(** A file is written as the sink of archives writes one that breaks off where the source does,
    or at its end when its size is wrong. *)
Lemma write_tree_file body sz x p s :
  let broken := match body.2 with
                | Some e => Some e
                | None => if decide (Z.of_nat (String.length body.1) = sz) then None else Some (OtherError "invalid data")
                end in
  write_tree (SourceFile (Ok body) sz x) p s = (sink_write_file p x body.1 broken ;; mret tt) s.
Proof.
  destruct body as [text broken]. cbn [write_tree write_one fst snd]. unfold sink_write_file, mbind, F_bind, SR_bind.
  simpl. destruct (write_file p text s) as [[u|e] s1]; [|done]. destruct broken as [e|]; [done|].
  case_decide; [|done]. by destruct (set_permissions _ _ s1) as [[]].
Qed.

Lemma writes_file b sz x : writes (SourceFile b sz x).
Proof.
  intros p s r s' Hp Hr Hc _ H. destruct b as [[text broken]|e].
  2:{ cbn [write_tree write_one] in H. injection H as <- <-. split; [apply run_in_refl|done]. }
  rewrite write_tree_file in H. cbn [fst snd] in H. revert H. set (broken' := match broken with Some _ => _ | None => _ end).
  intros H. destruct (sink_write_file p x text broken' s) as [r0 s0] eqn:E0.
  assert (Hn : ∃ r1, extract_node (NarFile x text broken') p "" [] s = (r1, s0) ∧ (is_ok r0 = true → is_ok r1 = true)).
  { cbn [extract_node]. unfold mbind at 1, F_bind at 1, SR_bind at 1. rewrite E0. destruct r0; by eexists. }
  destruct Hn as (r1 & Hn & Hok). apply extracts_file in Hn as [R O]; [|done..].
  assert (Hs : s' = s0 ∧ (r = Ok tt → is_ok r0 = true)).
  { unfold mbind, F_bind, SR_bind in H. rewrite E0 in H. destruct r0; by injection H as <- <-. }
  destruct Hs as [-> Hr0]. split; [done|]. intros Hrt. specialize (Hok (Hr0 Hrt)). destruct r1 as [m|]; [|done].
  intros q. destruct (O m eq_refl) as [_ Hq]. specialize (Hq q). by destruct q.
Qed.

Lemma writes_link g : writes (SourceSymlink g).
Proof.
  intros p s r s' Hp Hr Hc _ H. cbn [write_tree write_one] in H. unfold mbind, F_bind, SR_bind in H.
  destruct (symlink g p s) as [r1 s1] eqn:E1.
  apply symlink_inv in E1 as [[-> [e ->]]|(-> & _ & ->)]; [| |done];
    injection H as <- <-; (split; [|]); [apply run_in_refl|done|apply run_in_push, around_insert|].
  intros _ q. simpl fs_tree. destruct q as [|y q]; cbn [nar_at source_nar].
  - by rewrite app_nil_r, lookup_insert_eq.
  - rewrite lookup_insert_ne by (apply not_eq_sym, below_ne). by rewrite clear_below.
Qed.

Abbreviation source_entries es := ((λ e : string * source_node, (e.1, source_nar e.2)) <$> es).

Lemma source_names (es : list (string * source_node)) : (source_entries es).*1 = es.*1.
Proof. rewrite <- list_fmap_compose. by apply list_fmap_ext. Qed.

Lemma writes_entries es p s r s' :
  Forall (λ e, writes e.2) es → NoDup es.*1 → Forall (λ e, names_ok (source_nar e.2)) es →
  plain (fs_tree s) p → dir_at (fs_tree s) p → (∀ n, n ∈ es.*1 → clear (fs_tree s) (p ++ [Normal n])) →
  write_entries es p s = (r, s') →
  run_in (inside p es.*1 (fs_tree s)) s s'
  ∧ (r = Ok tt → ∀ n q, n ∈ es.*1 → node_like (fs_tree s' !! (p ++ Normal n :: q)) (entries_at (source_entries es) n q)).
Proof.
  revert s r s'. induction es as [|[name child] es IH]; intros s r s' Hex Hnd Hok Hp Hd Hc H.
  { injection H as <- <-. split; [apply run_in_refl|]. by intros _ n q ?%elem_of_nil. }
  cbn [write_entries] in H. apply Forall_cons in Hex as [Hex1 Hex]. apply Forall_cons in Hok as [Hok1 Hok].
  rewrite !fmap_cons in *. cbn [fst snd] in *. apply NoDup_cons in Hnd as [Hn1 Hnd].
  unfold mbind, F_bind, SR_bind in H. destruct (write_entries es p s) as [r1 s1] eqn:E1.
  apply IH in E1 as [R1 O1]; [|done..|intros n Hn; apply Hc; by right].
  assert (Hmore : ∀ t, inside p es.*1 (fs_tree s) t → inside p (name :: es.*1) (fs_tree s) t).
  { intros t Ht k Hk. apply Ht. intros n Hn. apply Hk. by right. }
  assert (I1 : inside p es.*1 (fs_tree s) (fs_tree s1)) by (apply (run_in_last _ _ _ R1); intros k _; by left).
  destruct r1 as [[]|e]; [|injection H as <- <-; split; [by eapply run_in_mono|done]].
  assert (Hp1 : plain (fs_tree s1) p) by by eapply inside_plain.
  assert (Hd1 : dir_at (fs_tree s1) p) by by eapply inside_dir.
  assert (Hj : Path.join p [Normal name] = p ++ [Normal name]) by (destruct Hp as ([ns ->] & _); done).
  rewrite Hj in H. apply Hex1 in H as [R2 O2]; [|by apply plain_snoc, dir_at_not_link|apply tmp_not_root| |done].
  2:{ eapply inside_clear; [exact I1|done|apply Hc; by left]. }
  assert (W2 : run_in (inside p [name] (fs_tree s1)) s1 s').
  { eapply run_in_mono; [|exact R2]. intros t. by apply around_inside. }
  assert (I2 : inside p [name] (fs_tree s1) (fs_tree s')) by (apply (run_in_last _ _ _ W2); intros k _; by left).
  split.
  - eapply run_in_trans; [by eapply run_in_mono|]. eapply run_in_mono; [|exact W2]. intros t Ht k Hk.
    apply (inside_trans p es.*1 [name] _ _ _ I1 Ht k). intros n Hn. apply Hk. apply elem_of_app in Hn as [Hn|Hn]; [by right|].
    apply list_elem_of_singleton in Hn as ->. by left.
  - intros Hr n q Hn. rewrite entries_at_cons. case_decide as Hnn.
    + subst n. specialize (O2 Hr q). by rewrite <- app_assoc in O2.
    + rewrite (inside_deep p [name] (fs_tree s1)); [apply O1; [done|by apply elem_of_cons in Hn as [->|?]]|done|rewrite length_app; simpl; lia|].
      intros n' Hn' Hpre. apply list_elem_of_singleton in Hn' as ->. apply entry_below in Hpre as ->. done.
Qed.

Lemma writes_node node : writes node.
Proof.
  induction node as [b sz x|g|e|es IH] using source_node_ind'; [apply writes_file|apply writes_link| |].
  { intros p s r s' _ _ _ _ H. injection H as <- <-. split; [apply run_in_refl|done]. }
  intros p s r s' Hp Hr Hc Hok H. rewrite write_tree_dir in H. unfold mbind, F_bind, SR_bind in H.
  apply names_ok_dir in Hok as (Hnd & _ & Hok). rewrite source_names in Hnd.
  assert (Hok' : Forall (λ e, names_ok (source_nar e.2)) es) by (rewrite Forall_fmap in Hok; exact Hok).
  destruct (mkdir p s) as [r1 s1] eqn:E1. apply mkdir_inv in E1 as [[-> [e ->]]|(-> & _ & _ & ->)]; [| |done].
  { injection H as <- <-. split; [apply run_in_refl|done]. }
  set (s1 := push _ s) in H. assert (R1 : run_in (around p (fs_tree s)) s s1) by apply run_in_push, around_insert.
  assert (Hd1 : dir_at (fs_tree s1) p) by (exists default_dir_mode; apply lookup_insert_eq).
  assert (Hdeep : ∀ x q, fs_tree s1 !! (p ++ x :: q) = None).
  { intros x q. unfold s1. simpl. rewrite lookup_insert_ne by (apply not_eq_sym, below_ne). by apply clear_below. }
  apply writes_entries in H as [R2 O2]; [|done..|by apply plain_insert; [|right]|done|].
  2:{ intros n _ k [q ->]. rewrite <- app_assoc. apply Hdeep. }
  assert (I2 : inside p es.*1 (fs_tree s1) (fs_tree s')) by (apply (run_in_last _ _ _ R2); intros k _; by left).
  assert (A1 : around p (fs_tree s) (fs_tree s1)) by apply around_insert. split.
  - eapply run_in_trans; [exact R1|]. eapply run_in_mono; [|exact R2]. intros t Ht k Hk.
    destruct (Ht k) as [E|(N & P & Dk)].
    + intros n _ [q ->]. apply Hk. rewrite <- app_assoc. by apply prefix_app_r.
    + unfold dir_at. rewrite E. by apply A1.
    + destruct (A1 k Hk) as [E|(_ & _ & mk & Hmk)]; [|congruence]. right. split_and!; [congruence|done|done].
  - intros Hrt q. specialize (O2 Hrt). destruct q as [|x q].
    { rewrite app_nil_r. destruct (inside_dir _ _ _ _ Hd1 I2) as [mk ->]. done. }
    assert (Hnone : (∀ n, n ∈ es.*1 → x ≠ Normal n) → fs_tree s' !! (p ++ x :: q) = None).
    { intros Hx. rewrite (inside_deep p es.*1 (fs_tree s1)); [apply Hdeep|done|rewrite length_app; simpl; lia|].
      intros n Hn [k E]. rewrite <- app_assoc in E. apply app_inv_head in E. simpl in E. injection E as -> _. by apply (Hx n). }
    destruct x as [| | |n]; [by rewrite Hnone..|]. cbn [source_nar]. rewrite nar_at_dir.
    destruct (decide (n ∈ es.*1)) as [Hn|Hn]; [by apply O2|].
    rewrite Hnone by (intros n' Hn' [= ->]; done). unfold entries_at.
    destruct (list_find (λ e, e.1 = n) (source_entries es)) as [[i [n' c]]|] eqn:Ef; [|done]. exfalso. apply Hn.
    apply list_find_Some in Ef as (Hi & Hn' & _). simpl in Hn'. subst n'. rewrite <- source_names.
    apply list_elem_of_fmap. exists (n, c). split; [done|]. by eapply list_elem_of_lookup_2.
Qed.
End tree.

(** ** One source: staged, renamed, cleaned up *)
Section stage.
Context `{FL : FsLimits}.

Lemma mkdir_mode_inv mode p s r s' :
  plain (fs_tree s) p → mkdir_mode mode p s = (r, s') →
  (s' = s ∧ ∃ e, r = Err e)
  ∨ (r = Ok tt ∧ fs_tree s !! p = None ∧ s' = push (<[p := Dir mode]> (fs_tree s)) s).
Proof.
  intros Hp H. unfold mkdir_mode in H. fs_start H.
  destruct (resolve_plain _ false _ Hp ltac:(done)) as [Hr|[e Hr]]; rewrite Hr in H;
    [|injection H as <- <-; left; eauto].
  destruct (node_at (fs_tree s) p) eqn:En; [injection H as <- <-; left; eauto|].
  injection H as <- <-. right. apply node_at_None in En as [En _]. done.
Qed.

Lemma remove_dir_all_clear p s s' :
  plain (fs_tree s) p → dir_at (fs_tree s) p → remove_dir_all p s = (Ok tt, s') → clear (fs_tree s') p.
Proof.
  intros Hp [m Hm] H. unfold remove_dir_all, mbind, F_bind, SR_bind, check_fault, get_tree, lift in H.
  destruct (fs_fault _ _); [done|]. simpl in H.
  destruct (resolve_plain _ false _ Hp ltac:(done)) as [Hr|[e Hr]]; rewrite Hr in H; [|done].
  assert (Hn' : ∃ m', node_at (fs_tree s) p = Some (Dir m')) by (unfold node_at; case_decide; eauto). destruct Hn' as [m' Hn'].
  rewrite Hn' in H. destruct (rmtree_fault p); [done|]. injection H as <-. intros k Hk. simpl.
  rewrite map_lookup_filter. destruct (fs_tree s !! k); [|done]. simpl. case_guard as Hg; [|done]. by destruct Hg.
Qed.

Lemma absent_metadata t p : plain t p → p ≠ [RootDir] → t !! p = None → is_ok (symlink_metadata t p) = false.
Proof.
  intros Hp Hr Hn. unfold symlink_metadata, stat_with. destruct (fs_fault OpStat p); [done|].
  destruct (resolve_plain t false _ Hp ltac:(done)) as [E|[e E]]; rewrite E; [|done]. simpl.
  unfold node_at. by rewrite decide_False, Hn.
Qed.

(** All of the source is at [d], and the source is all the services announced. *)
Definition whole (t : tree) (d : path) (node : source_node) : Prop :=
  intact node ∧ ∀ q, node_like (t !! (d ++ q)) (nar_at (source_nar node) q).

Lemma whole_moved t t' d d' node :
  (∀ q, t' !! (d' ++ q) = t !! (d ++ q)) → whole t d node → whole t' d' node.
Proof. intros E [Hi Hw]. split; [done|]. intros q. by rewrite E. Qed.

Lemma siblings_apart (root : path) n n' k :
  n ≠ n' → (root ++ [Normal n]) `prefix_of` k → ¬ (root ++ [Normal n']) `prefix_of` k.
Proof. intros Hne [k1 ->] [k2 E]. rewrite <- !app_assoc in E. apply app_inv_head in E. simpl in E. congruence. Qed.

(** Outside some places nothing has changed, but for directories made on the way to the store *)
Definition beside (root : path) (P : path → Prop) (base t : tree) : Prop :=
  ∀ k, ¬ P k → t !! k = base !! k ∨ (base !! k = None ∧ k `prefix_of` root ∧ dir_at t k).

Lemma beside_refl root P t : beside root P t t.
Proof. intros k _. by left. Qed.

Lemma beside_trans root P t1 t2 t3 : beside root P t1 t2 → beside root P t2 t3 → beside root P t1 t3.
Proof.
  intros H1 H2 k Hk. destruct (H2 k Hk) as [E|(N & Pk & D)].
  - destruct (H1 k Hk) as [E'|(N' & P' & m & D')]; [left; congruence|]. right. split_and!; [done..|]. exists m. congruence.
  - destruct (H1 k Hk) as [E'|(N' & P' & m & D')]; [|congruence]. right. split_and!; [congruence|done..].
Qed.

Lemma beside_mono root (P Q : path → Prop) t t' : (∀ k, P k → Q k) → beside root P t t' → beside root Q t t'.
Proof. intros HPQ H k Hk. apply H. intros ?. by apply Hk, HPQ. Qed.

Lemma beside_only root (P : path → Prop) t t' : (∀ k, ¬ P k → t' !! k = t !! k) → beside root P t t'.
Proof. intros H k Hk. left. by apply H. Qed.

(** A path with no place of [P] among its prefixes *)
Lemma beside_plain root P t t' p : (∀ k, k `prefix_of` p → ¬ P k) → beside root P t t' → plain t p → plain t' p.
Proof.
  intros HP Hb Hp. eapply plain_agree; [exact Hp|]. intros q Hq _ _ Hl target.
  destruct (Hb q (HP q Hq)) as [->|(_ & _ & m & ->)]; [apply Hl|done].
Qed.

Lemma beside_dir root P t t' p : ¬ P p → beside root P t t' → dir_at t p → dir_at t' p.
Proof. intros HP Hb [m Hm]. destruct (Hb p HP) as [E|(N & _)]; [exists m; congruence|congruence]. Qed.

Lemma beside_below root (P : path → Prop) t t' k :
  (length root < length k)%nat → ¬ P k → beside root P t t' → t' !! k = t !! k.
Proof. intros Hl HP Hb. destruct (Hb k HP) as [E|(_ & Hk & _)]; [done|]. apply prefix_length in Hk. lia. Qed.

Section one.
Context (root : path) (name sname : string) (node : source_node) (base : tree).
Let d := root ++ [Normal name].
Let staging := root ++ [Normal sname].
Let staged := staging ++ [Normal "source"].
Context (Hne : name ≠ sname).

Definition here (k : path) : Prop := staging `prefix_of` k ∨ d `prefix_of` k.

(** The source is in its place as a whole, or nothing is *)
Definition appearing (t : tree) : Prop := beside root here base t ∧ (clear t d ∨ whole t d node).

(** While it is staged *)
Definition staging_in (t : tree) : Prop := beside root (prefix staging) base t ∧ clear t d.

Lemma staging_appearing t : staging_in t → appearing t.
Proof. intros [Hb Hc]. split; [|by left]. eapply beside_mono; [|exact Hb]. intros k Hk. by left. Qed.

Lemma above_root k : k `prefix_of` root → ¬ staging `prefix_of` k ∧ ¬ d `prefix_of` k.
Proof.
  intros Hk. apply prefix_length in Hk. split; intros H; apply prefix_length in H; unfold staging, d in H; rewrite length_app in H; simpl in H; lia.
Qed.

Lemma not_here_root k : k `prefix_of` root → ¬ here k.
Proof. intros Hk [H|H]; destruct (above_root k Hk) as [H1 H2]; [by apply H1|by apply H2]. Qed.

Lemma clear_beside t t' : beside root (prefix staging) t t' → clear t d → clear t' d.
Proof.
  intros Hb Hc k Hk. erewrite beside_below; [by apply Hc| | |exact Hb].
  - apply prefix_length in Hk. unfold d in Hk. rewrite length_app in Hk. simpl in Hk. lia.
  - intros Hs. by apply (siblings_apart root name sname k).
Qed.

Lemma around_staged t t' : dir_at t staging → around staged t t' → beside root (prefix staging) t t' ∧ dir_at t' staging.
Proof.
  intros [m Hm] Ha. split.
  - intros k Hk. destruct (Ha k) as [?|(N & P & D)]; [|by left|].
    { intros Hpre. apply Hk. etrans; [|exact Hpre]. by eexists. }
    right. split_and!; [done| |done]. apply prefix_snoc_inv in P as [->|P]; [by destruct Hk; eexists|].
    apply prefix_snoc_inv in P as [->|P]; [by destruct Hk|done].
  - destruct (Ha staging) as [E|(N & _)]; [|exists m; congruence|congruence].
    intros Hpre. apply prefix_length in Hpre. unfold staged in Hpre. rewrite length_app in Hpre. simpl in Hpre. lia.
Qed.

Lemma move_staged t : whole t staged node → clear t d →
  beside root here t (move_tree staged d t) ∧ whole (move_tree staged d t) d node.
Proof.
  intros Hw Hc. split.
  - apply beside_only. intros k Hk. rewrite move_tree_lookup, !decide_False; [done|..]; intros Hpre; apply Hk; [left|by right].
    etrans; [|exact Hpre]. by eexists.
  - eapply whole_moved; [|exact Hw]. intros q. rewrite move_tree_lookup, decide_True by by eexists.
    by rewrite drop_app_length.
Qed.

Context (Hp : plain base root) (Hd : dir_at base root).

Lemma still_plain t : beside root here base t → plain t staging ∧ plain t d.
Proof.
  intros Hb. split; apply plain_snoc; try (eapply beside_plain; [|exact Hb|done]; apply not_here_root);
    apply dir_at_not_link; (eapply beside_dir; [|exact Hb|done]); by apply not_here_root.
Qed.

(** The clean-up, from a tree where the source is whole or absent *)
Lemma clean_up s r s' :
  appearing (fs_tree s) → dir_at (fs_tree s) staging → remove_dir_all staging s = (r, s') →
  run_in appearing s s' ∧ (whole (fs_tree s) d node → whole (fs_tree s') d node)
  ∧ (r = Ok tt → clear (fs_tree s') staging).
Proof.
  intros [Hb Hw] Hds E. destruct (still_plain _ Hb) as [Hps _].
  assert (Hclr : r = Ok tt → clear (fs_tree s') staging) by (intros ->; by eapply remove_dir_all_clear).
  apply remove_dir_all_inv in E as [[-> _]|(t' & -> & Hk & _ & _)]; [|..|done].
  { split; [apply run_in_refl|]. by split. }
  assert (Hdk : ∀ k, d `prefix_of` k → t' !! k = fs_tree s !! k).
  { intros k Hdk. apply Hk. intros Hsk. by apply (siblings_apart root name sname k). }
  assert (Hww : whole (fs_tree s) d node → whole t' d node) by (apply whole_moved; intros q; apply Hdk; by eexists).
  split; [|done]. apply run_in_push. split.
  - eapply beside_trans; [exact Hb|]. apply beside_only. intros k Hnk. apply Hk. intros Hsk. apply Hnk. by left.
  - destruct Hw as [Hc|Hw]; [left; intros k Hk'; rewrite Hdk by done; by apply Hc|right; by apply Hww].
Qed.

(** The rename of a staged source; what would forgive its failure is not there. *)
Lemma rename_staged s r s' :
  staging_in (fs_tree s) → dir_at (fs_tree s) staging → whole (fs_tree s) staged node →
  catch (rename staged d) (λ e, t ← get_tree; if is_ok (symlink_metadata t d) then mret tt else fail e) s = (r, s') →
  run_in appearing s s' ∧ dir_at (fs_tree s') staging ∧ (r = Ok tt → whole (fs_tree s') d node).
Proof.
  intros [Hb Hc] Hds Hw E.
  assert (Hh : beside root here base (fs_tree s)) by (eapply beside_mono; [|exact Hb]; intros k Hk; by left).
  destruct (still_plain _ Hh) as [P2 Pd2]. unfold catch in E. destruct (rename staged d s) as [r5 s5] eqn:E3.
  apply rename_inv in E3 as [[-> [e ->]]|(-> & _ & _ & -> & _)].
  - unfold mbind, F_bind, SR_bind, get_tree in E. rewrite absent_metadata in E; [|done|apply tmp_not_root|by apply Hc].
    injection E as <- <-. split_and!; [apply run_in_refl|done|done].
  - injection E as <- <-. destruct (move_staged (fs_tree s) Hw Hc) as [Bm Wm].
    split; [apply run_in_push; split; [by eapply beside_trans|by right]|]. split; [|done].
    destruct Hds as [m Hm]. exists m. simpl. rewrite move_tree_lookup, !decide_False; [done| |].
    + intros Hk. apply prefix_length in Hk. unfold staged in Hk. rewrite length_app in Hk. simpl in Hk. lia.
    + intros Hk. by apply (siblings_apart root name sname staging).
  - by apply plain_snoc, dir_at_not_link.
  - done.
  - intros Heq. apply (f_equal length) in Heq. unfold staged, d, staging in Heq. rewrite !length_app in Heq. simpl in Heq. lia.
Qed.

End one.

Lemma stage_atomic root name sname node s r s' :
  let d := root ++ [Normal name] in let staging := root ++ [Normal sname] in
  plain (fs_tree s) root → dir_at (fs_tree s) root → name ≠ sname →
  clear (fs_tree s) d → clear (fs_tree s) staging → names_ok (source_nar node) →
  stage staging d node s = (r, s') →
  run_in (appearing root name sname node (fs_tree s)) s s'
  ∧ (r = Ok tt → whole (fs_tree s') d node ∧ clear (fs_tree s') staging).
Proof.
  intros d staging Hp Hd Hne Hcd Hcs Hok H. unfold stage in H. cbv zeta in H.
  set (body := (write_source_node _ _ ≫= _)) in H. unfold mbind, F_bind, SR_bind in H.
  assert (Hps : plain (fs_tree s) staging) by (by apply plain_snoc, dir_at_not_link).
  assert (Hpd : plain (fs_tree s) d) by (by apply plain_snoc, dir_at_not_link).
  destruct (mkdir_mode 448 staging s) as [r1 s1] eqn:E1.
  apply mkdir_mode_inv in E1 as [[-> [e ->]]|(-> & _ & ->)]; [|..|done].
  { injection H as <- <-. split; [apply run_in_refl|done]. }
  set (s1 := push _ s) in H.
  assert (B1 : beside root (prefix staging) (fs_tree s) (fs_tree s1)).
  { apply beside_only. intros k Hk. apply lookup_insert_ne. by intros ->. }
  assert (Hnp : ∀ k, k `prefix_of` staging → k ≠ staging → ¬ staging `prefix_of` k).
  { intros k Hk Hkne Hk'. apply Hkne. by apply (anti_symm prefix). }
  assert (C1 : clear (fs_tree s1) d) by (by eapply clear_beside).
  assert (R1 : run_in (staging_in root name sname (fs_tree s)) s s1) by by apply run_in_push.
  assert (D1 : dir_at (fs_tree s1) staging) by (eexists; apply lookup_insert_eq).
  assert (P1 : plain (fs_tree s1) staging) by (apply plain_insert; [done|by right]).
  assert (Pd1 : plain (fs_tree s1) d) by (apply plain_insert; [done|by right]).
  assert (Hdeep : ∀ x q, fs_tree s1 !! (staging ++ x :: q) = None).
  { intros x q. unfold s1. simpl. rewrite lookup_insert_ne by (apply not_eq_sym, below_ne). by apply clear_below. }
  clearbody s1. set (staged := staging ++ [Normal "source"]).
  assert (Hj : Path.join staging [Normal "source"] = staged) by (unfold staged; destruct Hps as ([ns E] & _); rewrite E; done).
  unfold attempt in H. destruct (body s1) as [r3 s3] eqn:Eb. unfold body in Eb. rewrite Hj in Eb. clear Hj body.
  unfold mbind at 1, F_bind at 1, SR_bind at 1 in Eb.
  destruct (write_source_node node staged s1) as [r2 s2] eqn:E2. rewrite write_source_tree in E2.
  assert (Hin : r2 = Ok tt → intact node) by (intros ->; by eapply write_tree_intact).
  apply writes_node in E2 as [R2 O2];
    [|by apply plain_snoc, dir_at_not_link|apply tmp_not_root|intros k [q ->]; unfold staged; rewrite <- app_assoc; apply Hdeep|done].
  set (P := staging_in root name sname (fs_tree s)) in *.
  assert (S12 : ∀ t, around staged (fs_tree s1) t → P t ∧ dir_at t staging).
  { intros t Ht. destruct (around_staged root sname (fs_tree s1) t D1 Ht) as [Hb Hdt]. split; [|done]. split.
    - by eapply beside_trans.
    - by eapply clear_beside. }
  assert (R2' : run_in P s1 s2) by (eapply run_in_mono; [|exact R2]; intros t Ht; by apply S12).
  assert (A2 : around staged (fs_tree s1) (fs_tree s2)) by (apply (run_in_last _ _ _ R2); intros k _; by left).
  destruct (S12 _ A2) as [[B2 C2] D2].
  set (Q := appearing root name sname node (fs_tree s)) in *.
  assert (PQ : ∀ t, P t → Q t) by (intros t; apply staging_appearing).
  assert (R02 : run_in Q s s2) by (eapply run_in_mono; [exact PQ|]; by eapply run_in_trans).
  assert (Q2 : Q (fs_tree s2)) by by apply PQ.
  assert (Hrun : run_in Q s2 s3 ∧ dir_at (fs_tree s3) staging ∧ (r3 = Ok tt → whole (fs_tree s3) d node)).
  { destruct r2 as [[]|e]; [|injection Eb as <- <-; split_and!; [apply run_in_refl|done|done]].
    eapply rename_staged; [done..|by split|done| |exact Eb]. split; [exact (Hin eq_refl)|exact (O2 eq_refl)]. }
  destruct Hrun as (R3 & D3 & W3).
  destruct (remove_dir_all staging s3) as [r4 s4] eqn:E4.
  destruct (clean_up root name sname node (fs_tree s) Hne Hp Hd s3 r4 s4) as (R4 & W4 & C4);
    [by apply (run_in_last _ _ _ R3)|done|done|].
  assert (R : run_in Q s s4) by (eapply run_in_trans; [exact R02|]; by eapply run_in_trans).
  unfold lift in H. destruct r3 as [[]|e]; [|by injection H as <- <-]. destruct r4 as [[]|e]; [|by injection H as <- <-].
  injection H as <- <-. split; [done|]. intros _. split; [by apply W4, W3|by apply C4].
Qed.
End stage.

(** ** All sources *)
Section all.
Context `{FL : FsLimits, SPL : StorePathLib, IJ : InfoJson, IOF : IoFaults}.
Context {SP : Type} {SPT : Allow.StorePathText SP}.
Context (sp_text : SP → string) (path_info : SP → result io_error (option (UpstreamInfo SP))).
Context (pid now : string) (root : path) (all : list SP).

Definition place (src : SP) : path := root ++ [Normal (sp_text src)].
Definition import_dir (id : Z) : path := root ++ [Normal (staging_name pid id)].

(** Where the publication works: the import directories and the places that were empty *)
Definition workplace (base : tree) (k : path) : Prop :=
  (∃ id, import_dir id `prefix_of` k) ∨ ∃ src, src ∈ all ∧ base !! place src = None ∧ place src `prefix_of` k.

(** A source that was not there is not there, or is there as a whole. *)
Definition all_or_nothing (base t : tree) : Prop :=
  beside root (workplace base) base t
  ∧ ∀ src, src ∈ all → base !! place src = None →
      clear t (place src) ∨ ∃ info, path_info src = Ok (Some info) ∧ whole t (place src) (up_node info).

(** What is promised of the texts of store paths, of the sources, and of the store *)
Record importable (base : tree) : Prop := {
  imp_text : ∀ src, src ∈ all → Path.components (sp_text src) = [Normal (sp_text src)];
  imp_name : ∀ src id, src ∈ all → sp_text src ≠ staging_name pid id;
  imp_inj : ∀ src src', src ∈ all → src' ∈ all → sp_text src = sp_text src' → src = src';
  imp_names : ∀ src info, path_info src = Ok (Some info) → names_ok (source_nar (up_node info));
  imp_stat : ∀ p, fs_fault OpStat p ≠ Some NotFound;
  imp_root : real_place base root ∧ dir_at base root;
  imp_closed : ∀ src, src ∈ all → base !! place src = None → clear base (place src);
  imp_fresh : ∀ id, clear base (import_dir id);
}.

Section step.
Context (base : tree) (Himp : importable base).

Definition ready (t : tree) : Prop := all_or_nothing base t ∧ ∀ id, clear t (import_dir id).

Lemma ready_base : ready base.
Proof.
  split; [split; [apply beside_refl|]|apply (imp_fresh _ Himp)]. intros src Hs Hn. left. by apply (imp_closed _ Himp).
Qed.

Lemma workplace_above k : k `prefix_of` root → ¬ workplace base k.
Proof.
  intros Hk Hw. apply prefix_length in Hk. destruct Hw as [[id Hi]|(src & _ & _ & Hi)]; apply prefix_length in Hi;
    unfold import_dir, place in Hi; rewrite length_app in Hi; simpl in Hi; lia.
Qed.

Lemma prefix_same_length (a b k : path) : a `prefix_of` k → b `prefix_of` k → length a = length b → a = b.
Proof. intros [x ->] [y E] Hl. apply app_inj_1 in E as [-> _]; [done|done]. Qed.

Lemma place_workplace src k :
  src ∈ all → place src `prefix_of` k → workplace base k → base !! place src = None.
Proof.
  intros Hs Hk [[id Hi]|(src' & Hs' & Hn & Hi)].
  - exfalso. assert (E : place src = import_dir id).
    { eapply prefix_same_length; [exact Hk|exact Hi|]. unfold place, import_dir. by rewrite !length_app. }
    unfold place, import_dir in E. apply app_inj_tail in E as [_ E]. injection E as E. by eapply (imp_name _ Himp).
  - assert (E : place src = place src').
    { eapply prefix_same_length; [exact Hk|exact Hi|]. unfold place. by rewrite !length_app. }
    by rewrite E.
Qed.

Lemma place_kept t src : all_or_nothing base t → src ∈ all → base !! place src ≠ None → t !! place src = base !! place src.
Proof.
  intros [Hb _] Hs Hn. eapply beside_below; [| |exact Hb].
  - unfold place. rewrite length_app. simpl. lia.
  - intros Hw. apply Hn. by eapply place_workplace.
Qed.

Lemma root_real t : beside root (workplace base) base t → real_place t root ∧ dir_at t root.
Proof.
  intros Hb. destruct (imp_root _ Himp) as ((Ha & Hr & Hf) & Hd). split.
  - split_and!; [done|done|]. rewrite Forall_forall in Hf |- *. intros q Hq. eapply beside_dir; [|exact Hb|by apply Hf].
    apply workplace_above. unfold ancestors in Hq. apply list_elem_of_fmap in Hq as (i & -> & _). eexists. symmetry. apply take_drop.
  - eapply beside_dir; [|exact Hb|done]. by apply workplace_above.
Qed.

(** What [symlink_metadata] says of a place *)
Lemma place_stat t src :
  all_or_nothing base t →
  match symlink_metadata t (place src) with
  | Ok _ => is_Some (t !! place src)
  | Err NotFound => t !! place src = None
  | Err _ => True
  end.
Proof.
  intros [Hb _]. destruct (root_real t Hb) as [Hr Hd]. pose proof (real_child t root (sp_text src) Hr Hd) as Hp.
  fold (place src) in Hp. destruct (symlink_metadata t (place src)) as [nd|e] eqn:E.
  - exists nd. by apply lstat_real in E.
  - destruct e; try done. unfold symlink_metadata, stat_with in E.
    destruct (fs_fault OpStat (place src)) as [e|] eqn:Ef.
    { injection E as ->. by destruct (imp_stat _ Himp (place src)). }
    assert (Hdec : Decision (short (place src))) by (unfold short; apply _). destruct Hdec as [Hs|Hs].
    + rewrite (resolve_real t false) in E by done. simpl in E. unfold node_at in E.
      rewrite decide_False in E by apply Hp. by destruct (t !! place src).
    + unfold resolve in E. unfold short in Hs. rewrite decide_True in E by lia. done.
Qed.

Lemma whole_some t d node : whole t d node → t !! d ≠ None.
Proof. intros [_ Hw] E. specialize (Hw []). rewrite app_nil_r, E in Hw. by destruct node as [[]|[]|]. Qed.

Lemma dirs_made_ready t t' : ready t → dirs_made root t t' → ready t'.
Proof.
  intros [[Hb Hs] Hf] Hd. assert (Hb' : ∀ P, beside root P t t') by (intros P k _; apply Hd).
  assert (Hdeep : ∀ n k, (root ++ [Normal n]) `prefix_of` k → t' !! k = t !! k).
  { intros n k Hk. apply (beside_below root (λ _, False)); [|by intros []|apply Hb'].
    apply prefix_length in Hk. rewrite length_app in Hk. simpl in Hk. lia. }
  split; [split|].
  - eapply beside_trans; [exact Hb|apply Hb'].
  - intros src Hin Hn. destruct (Hs src Hin Hn) as [Hc|(info & ? & Hw)].
    + left. intros k Hk. rewrite (Hdeep (sp_text src)) by done. by apply Hc.
    + right. exists info. split; [done|]. eapply whole_moved; [|exact Hw]. intros q. apply (Hdeep (sp_text src)). by eexists.
  - intros id k Hk. rewrite (Hdeep (staging_name pid id)) by done. by apply (Hf id).
Qed.

(** While one source appears, the others are as they were. *)
Lemma appearing_all t src info id t' :
  src ∈ all → base !! place src = None → path_info src = Ok (Some info) →
  all_or_nothing base t → appearing root (sp_text src) (staging_name pid id) (up_node info) t t' → all_or_nothing base t'.
Proof.
  intros Hin Hn Hi [Hb Hs] [Hb' Ha]. split.
  - eapply beside_trans; [exact Hb|]. eapply beside_mono; [|exact Hb']. intros k [Hk|Hk]; [left; by exists id|right; by exists src].
  - intros src' Hin' Hn'. destruct (decide (sp_text src' = sp_text src)) as [E|Hne].
    { apply (imp_inj _ Himp) in E as ->; [|done..]. destruct Ha as [?|?]; [by left|right; by exists info]. }
    assert (Hdeep : ∀ k, place src' `prefix_of` k → t' !! k = t !! k).
    { intros k Hk. eapply beside_below; [| |exact Hb'].
      - apply prefix_length in Hk. unfold place in Hk. rewrite length_app in Hk. simpl in Hk. lia.
      - intros [Hx|Hx]; [|by apply (siblings_apart root (sp_text src') (sp_text src) k)].
        apply (siblings_apart root (sp_text src') (staging_name pid id) k); [by apply (imp_name _ Himp)|done..]. }
    destruct (Hs src' Hin' Hn') as [Hc|(info' & ? & Hw)].
    + left. intros k Hk. rewrite Hdeep by done. by apply Hc.
    + right. exists info'. split; [done|]. eapply whole_moved; [|exact Hw]. intros q. apply Hdeep. by eexists.
Qed.

Lemma mbind_inv {A B} (m : M A) (f : A → M B) s r s' :
  (m ≫= f) s = (r, s') → (∃ a s1, m s = (Ok a, s1) ∧ f a s1 = (r, s')) ∨ (∃ e, m s = (Err e, s') ∧ r = Err e).
Proof.
  unfold mbind, M_bind, SR_bind. destruct (m s) as [[a|e] s1]; [intros E; left; by exists a, s1|].
  intros [= <- <-]. right. by exists e.
Qed.

Lemma mio_inv {A} (m : F A) s r s' :
  mio m s = (r, s') → ∃ r0 fs, m (im_fs s) = (r0, fs) ∧ im_fs s' = fs ∧ im_db s' = im_db s
    ∧ match r0 with Ok a => r = Ok a | Err e => r = Err (ImportIo e) end.
Proof. unfold mio. destruct (m (im_fs s)) as [[a|e] fs]; intros [= <- <-]; by do 2 eexists. Qed.

Abbreviation publish := (publish_source sp_text path_info pid now root).

(** What one publication comes to *)
Definition published (src : SP) (s : imports) (r : result ImportError unit) (s' : imports) : Prop :=
  run_in (all_or_nothing base) (im_fs s) (im_fs s')
  ∧ (r = Ok tt → ready (fs_tree (im_fs s')) ∧ fs_tree (im_fs s') !! place src ≠ None).

Lemma published_same src s r s' :
  ready (fs_tree (im_fs s)) → fs_tree (im_fs s) !! place src ≠ None → im_fs s' = im_fs s → published src s r s'.
Proof. intros Hr Hn E. unfold published. rewrite E. split; [apply run_in_refl|done]. Qed.

Lemma register_run src (info : UpstreamInfo SP) s1 s r s' :
  run_in (all_or_nothing base) (im_fs s1) (im_fs s) → ready (fs_tree (im_fs s)) → fs_tree (im_fs s) !! place src ≠ None →
  mdb (λ db, register db (from_upstream now info)) s = (r, s') → published src s1 r s'.
Proof.
  intros R Hr Hn E. unfold mdb in E. destruct (register _ _) as [x db]. injection E as _ <-. split; [done|]. by intros _.
Qed.

Lemma publish_absent src info s r s' :
  src ∈ all → ready (fs_tree (im_fs s)) → fs_tree (im_fs s) !! place src = None → path_info src = Ok (Some info) →
  (mio (create_dir_all root) ;; id ← next_import;
   mio (stage (Path.join root [Normal (staging_name pid id)]) (place src) (up_node info))) s = (r, s') →
  published src s r s'.
Proof.
  intros Hin Hrd Hn Hi E. pose proof Hrd as [Hall Hfresh].
  assert (Hbn : base !! place src = None).
  { destruct (decide (base !! place src = None)); [done|]. rewrite <- Hn. symmetry. by eapply place_kept. }
  destruct (root_real _ (proj1 Hall)) as [Hreal Hd].
  assert (Hp : plain (fs_tree (im_fs s)) root) by (destruct Hreal as (Ha & _ & Hf); by apply plain_dirs).
  apply mbind_inv in E as [([] & s1 & E1 & E)|(e & E1 & ->)]; apply mio_inv in E1 as (r0 & fs & E1 & Hfs & _ & Hr0).
  all: assert (R1 : run_in (dirs_made root (fs_tree (im_fs s))) (im_fs s) fs)
    by (eapply stays_dirs_made; [exact Hp|intros k; by left|exact E1]).
  all: assert (D1 : dirs_made root (fs_tree (im_fs s)) (fs_tree fs)) by (apply (run_in_last _ _ _ R1); intros k; by left).
  all: assert (R1' : run_in (all_or_nothing base) (im_fs s) fs)
    by (eapply run_in_mono; [|exact R1]; intros t Ht; by apply (dirs_made_ready (fs_tree (im_fs s)))).
  2:{ split; [by rewrite Hfs|done]. }
  assert (Hrd1 : ready (fs_tree fs)) by by eapply dirs_made_ready.
  apply mbind_inv in E as [(id & s2 & E2 & E)|(e & E2 & _)]; [|done]. injection E2 as <- <-.
  apply mio_inv in E as (r2 & fs2 & E2 & Hfs2 & _ & Hr2). simpl in E2. rewrite Hfs in E2.
  assert (Hj : Path.join root [Normal (staging_name pid (im_counter s1))] = import_dir (im_counter s1)).
  { unfold import_dir. destruct Hp as ([ns E0] & _). by rewrite E0. }
  rewrite Hj in E2. pose proof Hrd1 as [Hall1 Hfresh1]. destruct (root_real _ (proj1 Hall1)) as [Hreal1 Hd1].
  assert (Hn1 : fs_tree fs !! place src = None).
  { rewrite <- Hn. apply (beside_below root (λ _, False)); [|by intros []|intros k _; apply D1]. unfold place. rewrite length_app. simpl. lia. }
  apply stage_atomic in E2 as [R2 O2].
  - assert (R2' : run_in (all_or_nothing base) fs fs2)
      by (eapply run_in_mono; [|exact R2]; intros t Ht; by eapply appearing_all).
    split; [rewrite Hfs2; by eapply run_in_trans|]. intros ->. rewrite Hfs2.
    destruct r2 as [[]|e2]; [|done]. destruct (O2 eq_refl) as [Hw Hc]. split; [|by eapply whole_some].
    split; [by apply (run_in_last _ _ _ R2')|]. intros id.
    assert (A2 : appearing root (sp_text src) (staging_name pid (im_counter s1)) (up_node info) (fs_tree fs) (fs_tree fs2)).
    { apply (run_in_last _ _ _ R2). split; [apply beside_refl|]. left.
      destruct (proj2 Hall1 src Hin Hbn) as [?|(? & _ & Hw')]; [done|]. by apply whole_some in Hw'. }
    destruct (decide (staging_name pid id = staging_name pid (im_counter s1))) as [E|Hne].
    + unfold import_dir. rewrite E. exact Hc.
    + intros k Hk. destruct A2 as [Hb2 _]. eapply beside_below in Hb2 as ->; [by apply (Hfresh1 id)| |].
      * apply prefix_length in Hk. unfold import_dir in Hk. rewrite length_app in Hk. simpl in Hk. lia.
      * intros [Hx|Hx].
        -- by apply (siblings_apart root (staging_name pid id) (staging_name pid (im_counter s1)) k).
        -- apply (siblings_apart root (staging_name pid id) (sp_text src) k); [|done..]. apply not_eq_sym. by apply (imp_name _ Himp).
  - destruct Hreal1 as (Ha1 & _ & Hf1). by apply plain_dirs.
  - done.
  - by apply (imp_name _ Himp).
  - destruct (proj2 Hall1 src Hin Hbn) as [?|(? & _ & Hw')]; [done|]. by apply whole_some in Hw'.
  - apply Hfresh1.
  - by apply (imp_names _ Himp src).
Qed.

Lemma publish_step src s r s' :
  src ∈ all → ready (fs_tree (im_fs s)) → publish src s = (r, s') → published src s r s'.
Proof.
  intros Hin Hrd E. unfold publish_source in E. cbv zeta in E.
  assert (Hj : Path.join root (Path.components (sp_text src)) = place src).
  { rewrite (imp_text _ Himp) by done. unfold place. destruct (imp_root _ Himp) as (([ns E0] & _) & _). by rewrite E0. }
  rewrite Hj in E. pose proof (place_stat _ src (proj1 Hrd)) as Hstat.
  apply mbind_inv in E as [(s0 & s1 & E1 & E)|(e & E1 & _)]; [|done]. injection E1 as <- <-.
  assert (Herr : ∀ e, published src s (Err e) s) by (intros e; split; [apply run_in_refl|done]).
  apply mbind_inv in E as [(present & s1 & E1 & E)|(e & E1 & ->)]; injection E1 as E1 <-; [|apply Herr].
  assert (Hpres : if present then fs_tree (im_fs s) !! place src ≠ None else fs_tree (im_fs s) !! place src = None).
  { destruct (symlink_metadata _ _) as [nd|[]]; simplify_eq; [|done]. by destruct Hstat as [? ->]. }
  destruct (present && _) eqn:Hreg.
  { injection E as <- <-. apply andb_true_iff in Hreg as [-> _]. by apply published_same. }
  apply mbind_inv in E as [(info & s1 & E2 & E)|(e & E2 & ->)]; injection E2 as E2 <-; [|apply Herr].
  destruct (path_info src) as [i|e] eqn:Hi; [|done]. injection E2 as ->.
  destruct info as [info|]; [|by destruct present; injection E as <- <-; [apply published_same|apply Herr]].
  apply mbind_inv in E as [([] & s1 & E2 & E)|(e & E2 & ->)]; destruct present.
  - injection E2 as <-. eapply register_run; [apply run_in_refl|done..].
  - apply publish_absent in E2 as [R2 O2]; [|done..]. destruct (O2 eq_refl). by eapply register_run.
  - done.
  - by apply publish_absent in E2.
Qed.

Lemma publish_all sources s r s' :
  (∀ src, src ∈ sources → src ∈ all) → ready (fs_tree (im_fs s)) →
  materialize_input_sources sp_text path_info pid now root sources s = (r, s') →
  run_in (all_or_nothing base) (im_fs s) (im_fs s').
Proof.
  revert s. induction sources as [|src sources IH]; intros s Hin Hrd E; [injection E as _ <-; apply run_in_refl|].
  cbn [materialize_input_sources] in E.
  apply mbind_inv in E as [([] & s1 & E1 & E)|(e & E1 & ->)]; (apply publish_step in E1 as [R1 O1]; [|apply Hin; left|done]); [|done].
  destruct (O1 eq_refl) as [Hrd1 _]. eapply run_in_trans; [exact R1|]. apply (IH s1); [|done..]. intros x Hx. apply Hin. by right.
Qed.

End step.
End all.

(** C15. An imported source appears in the store as a whole.  Before a build the sources of its
    derivations are published; in every tree the disk goes through meanwhile, whatever call
    fails and whatever the stores in memory hand out, each source that was not in the store
    is either not there at all or there with every node the evaluator has of it; and it is
    there only if the evaluator has all of it, no directory missing, every file read to its
    end and of its declared size.  A source that was there is never touched, nor is anything
    else outside the import directories, but for directories made on the way to the store. *)
Theorem sources_appear_whole `{FL : FsLimits, SPL : StorePathLib, IJ : InfoJson, IOF : IoFaults} {SP : Type}
    {SPT : Allow.StorePathText SP} sp_text path_info pid now root (sources : list SP) s r s' :
  importable sp_text path_info pid root sources (fs_tree (im_fs s)) →
  materialize_input_sources sp_text path_info pid now root sources s = (r, s') →
  run_in (all_or_nothing sp_text path_info pid root sources (fs_tree (im_fs s))) (im_fs s) (im_fs s').
Proof.
  intros Himp E. eapply (publish_all sp_text path_info pid now root sources); [exact Himp|done| |exact E].
  by apply ready_base.
Qed.

(** The work list of [write_source_node] ends, and does what the recursion over the tree does:
    same calls in the same order, same result. *)
Theorem work_list_is_recursion `{FL : FsLimits} node p s :
  write_source_node node p s = write_tree node p s
  ∧ ∀ fuel, (node_count node ≤ fuel)%nat → write_loop fuel [(p, node)] s = write_source_node node p s.
Proof.
  split; [apply write_source_tree|]. intros fuel Hf. unfold write_source_node.
  rewrite !write_loop_all; [done|rewrite pending_count_cons; unfold pending_count; simpl; lia..].
Qed.

Module SourcesDemo.
#[local] Instance text_is_path : Allow.StorePathText string := λ s, "/nix/store/" +:+ s.

Definition source : source_node :=
  SourceDirectory (Ok [("lib", SourceDirectory (Ok [("a.nix", SourceFile (Ok ("{ }", None)) 3 false)]));
                       ("run", SourceFile (Ok ("#!", None)) 2 true); ("link", SourceSymlink "run")]).
(** A source whose second file breaks off *)
Definition torn : source_node :=
  SourceDirectory (Ok [("a", SourceFile (Ok ("te", Some (OtherError "network"))) 4 false); ("b", SourceFile (Ok ("b", None)) 1 false)]).

Definition info_of (name : string) (node : source_node) : UpstreamInfo string := mkUpstreamInfo name node "00" 3 [] None [].
Definition stores (name : string) : result io_error (option (UpstreamInfo string)) :=
  Ok (if decide (name = "aaa-src") then Some (info_of name source)
      else if decide (name = "bbb-torn") then Some (info_of name torn) else None).

Definition root : path := Path.components "/nix/store".
Definition start : imports := mkImports
  (mkFsys (<[Path.components "/nix/store" := Dir 493]> (<[Path.components "/nix" := Dir 493]> ∅)) []) ∅ 0.
Definition published := materialize_input_sources id stores "7" "now" root ["aaa-src"; "bbb-torn"] start.

Example published_source :
  published.1 = Err (ImportIo (OtherError "network"))
  ∧ fs_tree (im_fs published.2) !! Path.components "/nix/store/aaa-src/lib/a.nix" = Some (File "{ }" 0x124)
  ∧ fs_tree (im_fs published.2) !! Path.components "/nix/store/bbb-torn" = None.
Proof. split_and!; vm_compute; reflexivity. Qed.

Lemma sources_appear_whole_witness :
  run_in (all_or_nothing id stores "7" root ["aaa-src"; "bbb-torn"] (fs_tree (im_fs start))) (im_fs start) (im_fs published.2).
Proof.
  apply (sources_appear_whole id stores "7" "now" root ["aaa-src"; "bbb-torn"] start published.1);
    [|unfold published; apply surjective_pairing].
  assert (Hsrc : ∀ src, src ∈ ["aaa-src"; "bbb-torn"] → src = "aaa-src" ∨ src = "bbb-torn").
  { intros src Hs. rewrite !elem_of_cons, elem_of_nil in Hs. naive_solver. }
  assert (Hclear : ∀ k, root `prefix_of` k → k ≠ root → fs_tree (im_fs start) !! k = None).
  { intros k [q ->] Hne.
    change (fs_tree (im_fs start)) with (<[root := Dir 493]> (<[Path.components "/nix" := Dir 493]> ∅) : tree).
    rewrite !lookup_insert_ne; [done| |by apply not_eq_sym].
    intros E. apply (f_equal length) in E. rewrite length_app in E. change (length root) with 3%nat in E.
    change (2 = 3 + length q)%nat in E. lia. }
  assert (Hbelow : ∀ n, clear (fs_tree (im_fs start)) (root ++ [Normal n])).
  { intros n k [q ->]. apply Hclear; [by rewrite <- app_assoc; eexists|]. intros E. apply (f_equal length) in E.
    rewrite !length_app in E. change (length [Normal n]) with 1%nat in E. lia. }
  constructor.
  - intros src [->| ->]%Hsrc; reflexivity.
  - intros src i [->| ->]%Hsrc; unfold staging_name; discriminate.
  - by intros src src' _ _.
  - intros src info Hi. unfold stores in Hi. injection Hi as Hi. revert Hi.
    assert (Hnames : ∀ names : list string, bool_decide (NoDup names ∧ "" ∉ names) = true → NoDup names ∧ "" ∉ names)
      by (intros names; apply bool_decide_eq_true_1).
    case_decide; [|case_decide; [|done]]; intros [= <-]; simpl; repeat split; (apply (Hnames ["lib"; "run"; "link"])
      || apply (Hnames ["a.nix"]) || apply (Hnames ["a"; "b"])); vm_compute; reflexivity.
  - done.
  - split; [|exists 493; vm_compute; reflexivity]. split; [by exists ["nix"; "store"]|]. split; [vm_compute; discriminate|].
    repeat constructor. exists 493. vm_compute. reflexivity.
  - intros src _ _. apply Hbelow.
  - intros i. apply Hbelow.
Defined.

End SourcesDemo.
