(* ===== verification/DirectCache.v ===== *)
(** * Fetching from a remote cache without a package index ([cache.rs])

    [snix fetch] and the upgrade take store paths from a server: one path, which is unpacked and
    verified but not registered, or a path and all it needs, breadth first, registered. *)

From S2P Require Import Prelude RustStd FileSys Nar PathInfo Store NarExtract StoreExtract CacheSource Install.

Open Scope Z_scope.

Section direct.
Context `{FL : FsLimits, SPL : StorePathLib, IJ : InfoJson, MJ : ManifestJson, IOF : IoFaults, NC : NarCodec, CL : CacheLib}.
Context (now : string).

(** [PathInfo::from_narinfo] *)
Definition from_narinfo (narinfo : NarInfo) (store_path : string) : PathInfo :=
  mkPathInfo store_path ("sha256:" +:+ ni_nar_hash narinfo) (ni_nar_size narinfo) (ni_references narinfo)
    (ni_deriver narinfo) now (ni_signatures narinfo) [].

Definition register_path_from_info (info : PathInfo) : I unit := Install.on_db (λ db, register db info).

Definition fetch_narinfo_direct (store_path cache_url : string) : result CacheError NarInfo :=
  hash ← ok_or (BadStorePath store_path) (sp_hash store_path);
  body ← get_text (Str.trim_end_matches "/" cache_url +:+ "/" +:+ hash +:+ ".narinfo");
  ok_or BadNarInfo (parse_narinfo body).

(** The download and the choice of a decoder *)
Definition open_nar_direct (narinfo : NarInfo) (cache_url : string) : result CacheError stream :=
  let nar_url := Str.trim_end_matches "/" cache_url +:+ "/" +:+ ni_url narinfo in
  reader ← match http_get_lazy nar_url with Ok body => Ok body | Err what => Err (HttpError nar_url what) end;
  match ni_compression narinfo with
  | None => Ok (plain_stream reader)
  | Some name =>
      if decide (name = "none") then Ok (plain_stream reader)
      else if decide (name = "xz") then ok_or (Decompression "xz") (xz_decompress reader)
      else if decide (name = "zstd" ∨ name = "zst") then ok_or (Decompression "zstd") (zstd_stream reader)
      else if decide (name = "bzip2" ∨ name = "bz2") then Ok (bz2_stream reader)
      else Err (UnsupportedCompression name)
  end.

(** [fetch_inner]; the database is given or not *)
Definition fetch_inner (store_path cache_url : string) (db : bool) : I unit :=
  match sp_hash store_path with
  | None => throw (FromCache (BadStorePath store_path))
  | Some _ =>
      here ← exists_path store_path;
      if here : bool then mret tt
      else
        ensure_store_dir ;;
        narinfo ← from_cache (fetch_narinfo_direct store_path cache_url);
        decompressed ← from_cache (open_nar_direct narinfo cache_url);
        Install.on_fs (extract (open_nar decompressed) store_path) ;;
        if decide (read_hash decompressed = ni_nar_hash narinfo) then
          if db then register_path_from_info (from_narinfo narinfo store_path) else mret tt
        else
          Install.on_fs (ignore (remove_dir_all (Path.components store_path))) ;;
          throw (NarHashMismatch (ni_nar_hash narinfo) (read_hash decompressed))
  end.

Definition fetch (store_path cache_url : string) : I unit := fetch_inner store_path cache_url false.

(** One path of the queue of [fetch_recursive]: the references to follow *)
Definition fetch_path (cache_url p : string) : I (list string) :=
  already_present ← exists_path p;
  s ← get_state;
  let already_registered := is_registered (in_db s) p in
  if already_present && already_registered then
    match get (in_db s) p with
    | Ok (Some info) => mret (references info)
    | Ok None => mret []
    | Err e => throw (FromStore (DbError e))
    end
  else
    narinfo ← from_cache (fetch_narinfo_direct p cache_url);
    (if negb already_present then fetch_inner p cache_url true
     else register_path_from_info (from_narinfo narinfo p)) ;;
    mret (ni_references narinfo).

(** The loop over the queue; [None] when the fuel runs out *)
Fixpoint closure_fetch_loop (fuel : nat) (cache_url : string) (visited : gset string) (queue : list string)
    (s : installation) : option (result InstallError (gset string) * installation) :=
  match fuel with
  | O => None
  | S fuel' =>
      match queue with
      | [] => Some (Ok visited, s)
      | p :: queue' =>
          if decide (p ∈ visited) then closure_fetch_loop fuel' cache_url visited queue' s
          else
            let visited := {[p]} ∪ visited in
            match fetch_path cache_url p s with
            | (Ok refs, s') => closure_fetch_loop fuel' cache_url visited (queue' ++ filter (λ r, r ∉ visited) refs) s'
            | (Err e, s') => Some (Err e, s')
            end
      end
  end.

Definition fetch_recursive (fuel : nat) (store_path cache_url : string) (s : installation)
    : option (result InstallError (gset string) * installation) :=
  closure_fetch_loop fuel cache_url ∅ [store_path] s.

End direct.
