(* ===== verification/Channels.v ===== *)
(** * Channels ([channel.rs])

    A channel is a directory below [/nix/var/snix/channels] that holds the URL it was registered
    with, the manifest and the package index last fetched from there, and when.  The server is a
    parameter.  Listing prints and is not modelled. *)

From S2P Require Import Prelude RustStd FileSys FileSysFacts Nar PathInfo NarExtract NarFacts StoreExtract.
From S2P Require Import CacheSource AllowList Fetchers FetchFacts ManifestInstances.

Open Scope Z_scope.

Inductive ChannelError : Type :=
  | ChannelIo (e : io_error)
  | NoSuchChannel (name : string)
  | NoChannels
  | NoUrl (name : string)
  | Unreachable (url : string)
  | HttpStatus (url : string) (status : Z)
  | InvalidJson (url : string)
  | NeverUpdated (name : string)
  | NotUpdated (count : nat).

Definition CM (A : Type) : Type := SR fsys ChannelError A.
#[export] Instance CM_ret : MRet CM := SR_ret fsys ChannelError.
#[export] Instance CM_bind : MBind CM := SR_bind fsys ChannelError.

Definition cio {A} (m : F A) : CM A := λ s,
  match m s with (Ok a, s') => (Ok a, s') | (Err e, s') => (Err (ChannelIo e), s') end.
Definition clift {A} (r : result ChannelError A) : CM A := λ s, (r, s).
Definition ctree : CM tree := λ s, (Ok (fs_tree s), s).

(** ureq: the status and the body, if it can be read, or no answer; serde_json on any value *)
Class ChannelLib : Type := {
  http_answer : string → option (Z * option string);
  json_valid : string → bool;
}.

Definition CHANNELS_DIR : string := "/nix/var/snix/channels".

Module Channel.
Section channels.
Context `{FL : FsLimits, CH : ChannelLib}.
Context (now : string).
Implicit Types (t : tree) (name url : string).

Definition channel_dir name : path := Path.join (Path.components CHANNELS_DIR) (Path.components name).
Definition channel_file name (file : string) : path := Path.join (channel_dir name) [Normal file].

Definition add name url : CM unit :=
  cio (create_dir_all (channel_dir name)) ;; cio (write_file (channel_file name "url") url).

Definition set_cache_url name url : CM unit :=
  t ← ctree;
  if path_exists t (channel_dir name) then cio (write_file (channel_file name "cache-url") url)
  else clift (Err (NoSuchChannel name)).

Definition get_cache_url t name : option string :=
  match CacheSource.read_to_string t (channel_file name "cache-url") with
  | Ok text => Some (Str.trim text) | Err _ => None
  end.

Definition is_dir_node (n : node) : bool := match n with Dir _ => true | _ => false end.

(** The names of the registered channels, sorted *)
Definition channel_names t : result ChannelError (list string) :=
  match read_dir t (Path.components CHANNELS_DIR) with
  | Err e => Err (ChannelIo e)
  | Ok es => Ok (merge_sort String.le (Str.from_utf8_lossy <$> (filter (λ e, is_dir_node e.2 = true) es).*1))
  end.

Definition default_channel t : result ChannelError string :=
  if path_exists t (Path.components CHANNELS_DIR) then
    names ← channel_names t; ok_or NoChannels (head names)
  else Err NoChannels.

Definition remove name : CM unit :=
  t ← ctree;
  if path_exists t (channel_dir name) then cio (remove_dir_all (channel_dir name))
  else clift (Err (NoSuchChannel name)).

(** ** Fetching *)
Definition manifest_url url : string :=
  if Str.ends_with "/" url then url +:+ "manifest.json"
  else if Str.ends_with ".json" url then url
  else url +:+ "/manifest.json".

(** [rsplit_once('/')], the part before *)
Definition url_base url : option string :=
  match Str.split "/" url with
  | _ :: _ :: _ as pieces => Some (Str.join "/" (removelast pieces))
  | _ => None
  end.

Definition packages_url url : string :=
  if Str.ends_with "/" url then url +:+ "packages.json"
  else if Str.ends_with ".json" url then
    match url_base url with Some base => base +:+ "/packages.json" | None => "" end
  else url +:+ "/packages.json".

(** The request for the manifest, and its validation *)
Definition get_manifest url : result ChannelError string :=
  match http_answer url with
  | None => Err (Unreachable url)
  | Some (status, body) =>
      if decide (status = 200) then
        match body with
        | None => Err (Unreachable url)
        | Some body => if json_valid body then Ok body else Err (InvalidJson url)
        end
      else Err (HttpStatus url status)
  end.

Definition get_packages url : option string :=
  if decide (url = "") then None
  else match http_answer url with
       | Some (200, Some body) => if json_valid body then Some body else None
       | _ => None
       end.

Definition update name : CM unit :=
  t ← ctree;
  if negb (path_exists t (channel_dir name)) then clift (Err (NoSuchChannel name))
  else
    text ← clift (match CacheSource.read_to_string t (channel_file name "url") with
                  | Ok text => Ok text | Err _ => Err (NoUrl name) end);
    let url := Str.trim text in
    body ← clift (get_manifest (manifest_url url));
    cio (write_file (channel_file name "manifest.json") body) ;;
    cio (write_file (channel_file name "last-fetched") now) ;;
    match get_packages (packages_url url) with
    | Some index => cio (write_file (channel_file name "packages.json") index)
    | None => mret tt
    end.

Definition get_packages_index_path t name : option path :=
  let p := channel_file name "packages.json" in if path_exists t p then Some p else None.

Definition get_manifest_path t name : result ChannelError path :=
  let p := channel_file name "manifest.json" in if path_exists t p then Ok p else Err (NeverUpdated name).

(** The loop of [update_all]: the channels that could not be updated are counted *)
Fixpoint update_each (names : list string) (errors : nat) : CM nat := λ s,
  match names with
  | [] => (Ok errors, s)
  | name :: names' =>
      let '(r, s') := update name s in update_each names' (if is_ok r then errors else S errors) s'
  end.

Definition update_all : CM unit :=
  t ← ctree;
  if negb (path_exists t (Path.components CHANNELS_DIR)) then mret tt
  else
    names ← clift (channel_names t);
    errors ← update_each names 0;
    if decide (errors = 0%nat) then mret tt else clift (Err (NotUpdated errors)).

End channels.
End Channel.

(** ** Theorems: a channel with a plain name changes its own directory only; an update keeps what the channel has when the server does not deliver; names that are not plain reach elsewhere *)
Section facts.
Context `{FL : FsLimits, CH : ChannelLib}.
Context (now : string).
Implicit Types (name url : string) (s : fsys).

(** A name that is one component of a path *)
Definition plain_name name : Prop := ∃ n, Path.components name = [Normal n].

(** The commands that change a channel *)
Inductive channel_command name : CM unit → Prop :=
  | command_add url : channel_command name (Channel.add name url)
  | command_set_cache_url url : channel_command name (Channel.set_cache_url name url)
  | command_update : channel_command name (Channel.update now name)
  | command_remove : channel_command name (Channel.remove name).

Definition channels : path := Path.components CHANNELS_DIR.

Lemma channels_abs : channels = RootDir :: (Normal <$> ["nix"; "var"; "snix"; "channels"]).
Proof. reflexivity. Qed.

Lemma join_one (base : path) (n : string) : base ≠ [] → Path.join base [Normal n] = base ++ [Normal n].
Proof. by destruct base. Qed.

Lemma channels_nonempty : Path.components CHANNELS_DIR ≠ [].
Proof. vm_compute. discriminate. Qed.

Lemma plain_dir name : plain_name name → ∃ n, Channel.channel_dir name = channels ++ [Normal n].
Proof. intros [n Hn]. exists n. unfold Channel.channel_dir. rewrite Hn. exact (join_one _ n channels_nonempty). Qed.

Lemma dir_abs name : plain_name name → abs_path (Channel.channel_dir name).
Proof. intros [n ->]%plain_dir. exists ["nix"; "var"; "snix"; "channels"; n]. reflexivity. Qed.

Lemma file_below name file :
  plain_name name →
  Channel.channel_file name file = Channel.channel_dir name ++ [Normal file]
  ∧ Channel.channel_dir name `prefix_of` Channel.channel_file name file ∧ abs_path (Channel.channel_file name file).
Proof.
  intros H. assert (E : Channel.channel_file name file = Channel.channel_dir name ++ [Normal file]).
  { destruct (plain_dir name H) as [n E]. unfold Channel.channel_file. rewrite E, channels_abs. reflexivity. }
  split; [done|]. rewrite E. split; [by apply prefix_app_r|]. destruct (dir_abs name H) as [ns ->].
  exists (ns ++ [file]). by rewrite fmap_app.
Qed.

(** ** Effects *)
Definition stays_cm {A : Type} (I : tree → Prop) (m : CM A) : Prop := ∀ s r s', I (fs_tree s) → m s = (r, s') → run_in I s s'.

Lemma stays_cio {A : Type} (I : tree → Prop) (m : F A) : stays I m → stays_cm I (cio m).
Proof. intros Hm s r s' Hs E. unfold cio in E. destruct (m s) as [[a|e] s1] eqn:Em; injection E as _ <-; by eapply Hm. Qed.

Lemma stays_clift {A : Type} (I : tree → Prop) (r : result ChannelError A) : stays_cm I (clift r).
Proof. intros s r' s' _ [= _ <-]. apply run_in_refl. Qed.

Lemma cbind_inv {A B : Type} (m : CM A) (f : A → CM B) s r s' :
  (m ≫= f) s = (r, s') → (∃ a s1, m s = (Ok a, s1) ∧ f a s1 = (r, s')) ∨ (∃ e, m s = (Err e, s') ∧ r = Err e).
Proof.
  unfold mbind, CM_bind, SR_bind. destruct (m s) as [[a|e] s1]; [intros E; left; by exists a, s1|].
  intros [= <- <-]. right. by exists e.
Qed.

Lemma stays_cbind {A B : Type} (I : tree → Prop) (m : CM A) (f : A → CM B) : stays_cm I m → (∀ a, stays_cm I (f a)) → stays_cm I (m ≫= f).
Proof.
  intros Hm Hf s r s' Hs [(a & s1 & E1 & E)|(e & E1 & _)]%cbind_inv; [|by eapply Hm].
  pose proof (Hm _ _ _ Hs E1) as R1. eapply run_in_trans; [exact R1|]. eapply Hf; [|exact E]. by eapply run_in_last.
Qed.

Lemma stays_ctree {A : Type} (I : tree → Prop) (f : tree → CM A) : (∀ t, stays_cm I (f t)) → stays_cm I (ctree ≫= f).
Proof. intros Hf. apply stays_cbind; [|done]. intros s r s' _ [= _ <-]. apply run_in_refl. Qed.

Section one.
Context (name : string) (base : tree).
Hypothesis named : plain_name name.
Hypothesis plain_base : plain base (Channel.channel_dir name).

Lemma stays_channel_write file text :
  stays_cm (tar_inv (Channel.channel_dir name) base) (cio (write_file (Channel.channel_file name file) text)).
Proof.
  destruct (file_below name file named) as (_ & Hp & Ha). apply stays_cio. by apply stays_tar_write.
Qed.

Lemma tar_inv_shrinks p t t' : tar_inv p base t → shrinks p t t' → tar_inv p base t'.
Proof.
  intros [Ha Hl] [Hs Hn]. split.
  - intros k Hk. unfold dir_at. rewrite Hs by done. by apply Ha.
  - intros k Hk target. destruct (Hn k) as [E|E]; rewrite E; [by apply Hl|done].
Qed.

Lemma stays_command m : channel_command name m → stays_cm (tar_inv (Channel.channel_dir name) base) m.
Proof.
  pose proof (dir_abs name named) as Ha. intros [url|url| |].
  - apply stays_cbind; [|intros _; apply stays_channel_write]. apply stays_cio, stays_tar_mkdirs; [done|by left|done].
  - apply stays_ctree. intros t. destruct (path_exists _ _); [apply stays_channel_write|apply stays_clift].
  - apply stays_ctree. intros t. destruct (negb _); [apply stays_clift|].
    apply stays_cbind; [apply stays_clift|]. intros text. cbv zeta. apply stays_cbind; [apply stays_clift|]. intros body.
    apply stays_cbind; [apply stays_channel_write|]. intros _. apply stays_cbind; [apply stays_channel_write|]. intros _.
    destruct (Channel.get_packages _); [apply stays_channel_write|]. intros s r s' _ [= _ <-]. apply run_in_refl.
  - apply stays_ctree. intros t. destruct (path_exists _ _); [|apply stays_clift].
    apply stays_cio, stays_remove_dir_all; [|intros t1 t2; apply tar_inv_shrinks].
    intros t' Ht. eapply tar_inv_plain; [done..| |done]. by left.
Qed.
End one.

(** A command on a channel whose name is one component changes, in every tree it goes through
    and whatever call fails, nothing but the channel's own directory and the directories that
    lead to it, which it may make; it leaves no link there. *)
Theorem channel_confined name m s r s' :
  plain_name name → channel_command name m → plain (fs_tree s) (Channel.channel_dir name) →
  (∀ k, Channel.channel_dir name `prefix_of` k → not_link (fs_tree s) k) → m s = (r, s') →
  run_in (tar_inv (Channel.channel_dir name) (fs_tree s)) s s'.
Proof.
  intros Hn Hm Hp Hl. eapply stays_command; [done..|]. by split; [apply around_refl|].
Qed.

(** ** Updates *)
Definition holds (t : tree) (p : path) (text : string) : Prop := ∃ mode, t !! p = Some (File text mode).

Lemma write_channel name (file text : string) (base : tree) s (r : result ChannelError unit) s' :
  plain_name name → plain base (Channel.channel_dir name) → tar_inv (Channel.channel_dir name) base (fs_tree s) →
  cio (write_file (Channel.channel_file name file) text) s = (r, s') →
  tar_inv (Channel.channel_dir name) base (fs_tree s')
  ∧ (∀ k, k ≠ Channel.channel_file name file → fs_tree s' !! k = fs_tree s !! k)
  ∧ (r = Ok tt → holds (fs_tree s') (Channel.channel_file name file) text).
Proof.
  intros Hn Hp Hi E. destruct (file_below name file Hn) as (_ & Hb & Ha).
  split; [eapply run_in_last; [by eapply stays_channel_write|done]|].
  destruct (tar_inv_target _ _ Hp _ _ Hi Hb Ha) as [Hq Hl].
  unfold cio in E. destruct (write_file _ _ s) as [x s1] eqn:Ew.
  apply write_file_inv in Ew as [[-> [e ->]]|(mode & written & -> & Hok)]; [by injection E as <- <-| |done..].
  destruct x as [[]|e]; injection E as <- <-; (split; [intros k Hk; simpl; by rewrite !lookup_insert_ne|]); [|done].
  intros _. exists mode. simpl. rewrite lookup_insert_eq, (Hok eq_refl). done.
Qed.

Lemma files_apart name f g : plain_name name → f ≠ g → Channel.channel_file name f ≠ Channel.channel_file name g.
Proof.
  intros Hn Hne. destruct (file_below name f Hn) as (-> & _), (file_below name g Hn) as (-> & _).
  intros E. apply app_inj_2 in E as [_ E]; [|done]. by injection E.
Qed.

(** An update that gets no usable answer from the server leaves the disk as it was: the manifest
    fetched before stays.  Otherwise it changes the manifest, the time and the package index of the
    channel and nothing else, and when it succeeds the manifest is the valid JSON the server sent,
    the time is the current one, and the index is the valid one the server sent or is as it was. *)
Theorem update_spec name s r s' :
  plain_name name → plain (fs_tree s) (Channel.channel_dir name) →
  (∀ k, Channel.channel_dir name `prefix_of` k → not_link (fs_tree s) k) → Channel.update now name s = (r, s') →
  (s' = s ∧ ∃ e, r = Err e)
  ∨ ∃ text body,
      let url := Str.trim text in
      let file := Channel.channel_file name in
      CacheSource.read_to_string (fs_tree s) (file "url") = Ok text
      ∧ http_answer (Channel.manifest_url url) = Some (200, Some body) ∧ json_valid body = true
      ∧ (∀ k, k ∉ [file "manifest.json"; file "last-fetched"; file "packages.json"] → fs_tree s' !! k = fs_tree s !! k)
      ∧ (r = Ok tt →
           holds (fs_tree s') (file "manifest.json") body ∧ holds (fs_tree s') (file "last-fetched") now
           ∧ match Channel.get_packages (Channel.packages_url url) with
             | Some index => holds (fs_tree s') (file "packages.json") index
             | None => fs_tree s' !! file "packages.json" = fs_tree s !! file "packages.json"
             end).
Proof.
  intros Hn Hp Hl E. unfold Channel.update in E.
  assert (Hi : tar_inv (Channel.channel_dir name) (fs_tree s) (fs_tree s)) by by split; [apply around_refl|].
  change (ctree ≫= ?f) with (λ s, f (fs_tree s) s) in E. cbv beta in E.
  destruct (negb _); [injection E as <- <-; left; by eauto|].
  destruct (CacheSource.read_to_string _ _) as [text|e] eqn:Eu; [|injection E as <- <-; left; by eauto].
  change (clift (Ok text) ≫= ?f) with (f text) in E. cbv beta zeta in E.
  destruct (Channel.get_manifest _) as [body|e] eqn:Em; [|injection E as <- <-; left; by eauto].
  change (clift (Ok body) ≫= ?f) with (f body) in E. cbv beta in E.
  right. exists text, body. cbv zeta. split; [done|].
  assert (Hm : http_answer (Channel.manifest_url (Str.trim text)) = Some (200, Some body) ∧ json_valid body = true).
  { unfold Channel.get_manifest in Em. destruct (http_answer _) as [[status [b|]]|]; [|by case_decide|done].
    case_decide as Hs; [|done]. destruct (json_valid b) eqn:Ej; [|done]. injection Em as <-. by rewrite Hs. }
  destruct Hm as [Hm Hj]. split; [done|]. split; [done|].
  pose proof (files_apart name) as Hap.
  apply cbind_inv in E as [([] & s1 & E1 & E)|(e & E1 & ->)];
    pose proof (write_channel _ _ _ _ _ _ _ Hn Hp Hi E1) as (Hi1 & Hk1 & Ho1).
  2:{ split; [|done]. intros k Hk. apply Hk1. intros ->. apply Hk. left. }
  apply cbind_inv in E as [([] & s2 & E2 & E)|(e & E2 & ->)];
    pose proof (write_channel _ _ _ _ _ _ _ Hn Hp Hi1 E2) as (Hi2 & Hk2 & Ho2).
  2:{ split; [|done]. intros k Hk. rewrite Hk2, Hk1; [done| |]; intros ->; apply Hk; [left|right; left]. }
  unfold holds in *. destruct (Channel.get_packages _) as [index|].
  - pose proof (write_channel _ _ _ _ _ _ _ Hn Hp Hi2 E) as (_ & Hk3 & Ho3). split.
    + intros k Hk. rewrite Hk3, Hk2, Hk1; [done| | |]; intros ->; apply Hk; [left|right; left|right; right; left].
    + intros ->. rewrite Hk3, Hk2 by (apply Hap; done). split; [by apply Ho1|].
      rewrite Hk3 by (apply Hap; done). split; [by apply Ho2|by apply Ho3].
  - injection E as <- <-. split.
    + intros k Hk. rewrite Hk2, Hk1; [done| |]; intros ->; apply Hk; [left|right; left].
    + intros _. rewrite Hk2 by (apply Hap; done). split; [by apply Ho1|]. split; [by apply Ho2|].
      rewrite Hk2, Hk1 by (apply Hap; done). done.
Qed.

End facts.

Module ChannelDemo.
#[local] Instance server : ChannelLib := {|
  http_answer url := if decide (url = "http://c/stable/manifest.json") then Some (200, Some "{1}")
                     else if decide (url = "http://c/stable/packages.json") then Some (404, Some "no")
                     else None;
  json_valid body := Str.starts_with "{" body;
|}.

Definition disk : fsys := mkFsys (list_to_map ((λ e : string * node, (Path.components e.1, e.2)) <$>
  [("/nix", Dir 493); ("/nix/var", Dir 493); ("/nix/var/snix", Dir 493); ("/nix/var/snix/channels", Dir 493);
   ("/nix/var/snix/pathinfo", Dir 493); ("/nix/var/snix/pathinfo/a.json", File "{}" 420);
   ("/nix/var/snix/channels/other", Dir 493); ("/nix/var/snix/channels/other/url", File "http://d" 420);
   ("/nix/var/snix/channels/stable", Dir 493); ("/nix/var/snix/channels/stable/url", File "http://c/stable " 420);
   ("/nix/var/snix/channels/stable/manifest.json", File "{0}" 420)])) [].

Definition dir : path := Path.components "/nix/var/snix/channels/stable".

Lemma disk_links k : not_link (fs_tree disk) k.
Proof.
  intros g E. apply elem_of_list_to_map_2, list_elem_of_fmap in E as ([p n] & [= _ <-] & E).
  repeat (apply elem_of_cons in E as [E|E]; [discriminate|]). by apply elem_of_nil in E.
Qed.

Lemma disk_plain : plain (fs_tree disk) dir.
Proof.
  apply plain_ancestors; [by exists ["nix"; "var"; "snix"; "channels"; "stable"]|]. apply Forall_true, disk_links.
Qed.

Lemma stable_plain : plain_name "stable".
Proof. by exists "stable". Qed.

Definition updated := Channel.update "now" "stable" disk.

Lemma update_spec_witness :
  holds (fs_tree updated.2) (Path.join dir [Normal "manifest.json"]) "{1}"
  ∧ fs_tree updated.2 !! Path.join dir [Normal "packages.json"] = None.
Proof.
  destruct (update_spec "now" "stable" disk updated.1 updated.2 stable_plain disk_plain (λ k _, disk_links k) (surjective_pairing _))
    as [[_ [e He]]|(text & body & Ht & Hb & _ & _ & Hok)].
  - assert (H : is_ok updated.1 = true) by (vm_compute; reflexivity). by rewrite He in H.
  - assert (text = "http://c/stable ") as -> by (vm_compute in Ht; congruence).
    assert (body = "{1}") as -> by (vm_compute in Hb; congruence).
    destruct Hok as (H1 & _ & H3); [vm_compute; reflexivity|]. split; [exact H1|].
    assert (E : Channel.get_packages (Channel.packages_url (Str.trim "http://c/stable ")) = None) by (vm_compute; reflexivity).
    rewrite E in H3. etrans; [exact H3|vm_compute; reflexivity].
Defined.

Lemma channel_confined_witness :
  run_in (tar_inv dir (fs_tree disk)) disk updated.2
  ∧ holds (fs_tree updated.2) (Path.components "/nix/var/snix/channels/other/url") "http://d".
Proof.
  assert (R : run_in (tar_inv dir (fs_tree disk)) disk updated.2).
  { apply (channel_confined "now" "stable" (Channel.update "now" "stable") disk updated.1 updated.2 stable_plain
      (command_update "now" "stable") disk_plain (λ k _, disk_links k) (surjective_pairing _)). }
  split; [exact R|]. exists 420. vm_compute. reflexivity.
Defined.

(** Names that are not one component: nothing at all is every channel, and [..] is everything snix
    keeps, the database of the store included. *)
Example names_escape :
  fs_tree (Channel.remove "" disk).2 !! Path.components "/nix/var/snix/channels/other/url" = None
  ∧ fs_tree (Channel.remove ".." disk).2 !! Path.components "/nix/var/snix/pathinfo/a.json" = None.
Proof. split; vm_compute; reflexivity. Qed.
End ChannelDemo.
