(* ===== verification/FlakeLock.v ===== *)
(** * Flake inputs ([flake.rs], and [fetch_git] of [fetchers.rs])

    Installables, the lock file, the resolution of [follows], the fetching of locked inputs and
    the expression that is evaluated.  serde_json, the hashes of nix-compat and the git program
    are parameters; a [HashMap] is iterated in an order that is a parameter too. *)

From S2P Require Import Prelude RustStd FileSys Nar PathInfo NarExtract StoreExtract NarDump CacheSource AllowList Fetchers.

Open Scope Z_scope.

(** ** Installables *)
Record Installable : Type := mkInstallable { flake_dir : string; attr_path : string }.

Definition parse_installable (s : string) : option Installable :=
  '(dir_part, attr_part) ← Str.split_once "#" s;
  if decide (attr_part = "") then None
  else Some (mkInstallable (if decide (dir_part = "" ∨ dir_part = ".") then "." else dir_part) attr_part).

Definition dquote : string := String "034" "".

Definition resolve_attr_path (attr system : string) : string :=
  if Str.contains_char "." attr then attr else "packages." +:+ dquote +:+ system +:+ dquote +:+ "." +:+ attr.

(** ** The lock file *)
Record LockedRef : Type := mkLockedRef {
  lr_type : string;
  lr_owner : option string;
  lr_repo : option string;
  lr_rev : option string;
  lr_nar_hash : option string;
  lr_host : option string;
  lr_ref : option string;
  lr_path : option string;
  lr_url : option string;
  lr_last_modified : option Z;
}.

Inductive InputRef : Type :=
  | Direct (target : string)
  | Follows (chain : list string).

#[export] Instance InputRef_eq_dec : EqDecision InputRef.
Proof. solve_decision. Defined.

(** The original reference is not looked at. *)
Record LockNode : Type := mkLockNode {
  ln_locked : option LockedRef;
  ln_inputs : option (gmap string InputRef);
  ln_flake : option bool;
}.

Record FlakeLock : Type := mkFlakeLock { fl_version : Z; fl_root : string; fl_nodes : gmap string LockNode }.

Definition is_flake (node : LockNode) : bool := default true (ln_flake node).

Inductive FlakeError : Type :=
  | FlakeIo (p : string) (e : io_error)
  | FlakeText (p : string)
  | LockSyntax
  | LockVersion (v : Z)
  | EmptyFollows
  | NoNode (name : string)
  | NoInputs (name : string)
  | NoInput (step name : string)
  | NoRoot
  | NoFlakeNix
  | NoFlakeLock
  | MissingField (input field : string)
  | UnsupportedType (type_ input : string)
  | BadNarHash (input : string)
  | NarMismatch (p expected actual : string)
  | UnsupportedAlgorithm
  | InputFetch (e : FetchError)
  | NoGit
  | GitNotRun
  | GitFailed (command : string).

(** Other crates and programs.  [git] answers nothing when it cannot be started, or whether it
    succeeded, and goes through trees, the newest first. *)
Class FlakeLib : Type := {
  lock_from_json : string → option FlakeLock;
  nar_hash_from_str : string → option NixHash;
  build_ca_path : NixHash → option string;
  hash_order : ∀ {A : Type}, gmap string A → list (string * A);
  hash_order_spec : ∀ {A : Type} (m : gmap string A), hash_order m ≡ₚ map_to_list m;
  git : string → list string → tree → option bool * list tree;
  which_git : tree → option string;
}.

(** *** Follows *)
(** One call of [resolve_follows], up to the recursive one: the name, or the chain to go on with *)
Fixpoint walk_chain (lock : FlakeLock) (current : string) (steps : list string) : result FlakeError (string + list string) :=
  match steps with
  | [] => Ok (inl current)
  | step :: steps' =>
      node ← ok_or (NoNode current) (fl_nodes lock !! current);
      inputs ← ok_or (NoInputs current) (ln_inputs node);
      match inputs !! step with
      | Some (Direct target) => walk_chain lock target steps'
      | Some (Follows chain) => Ok (inr chain)
      | None => Err (NoInput step current)
      end
  end.

Definition follow_once (lock : FlakeLock) (follows : list string) : result FlakeError (string + list string) :=
  match follows with
  | [] => Err EmptyFollows
  | first :: steps => walk_chain lock first steps
  end.

(** [resolve_follows]; [None] when the fuel runs out *)
Fixpoint resolve_follows (fuel : nat) (lock : FlakeLock) (follows : list string) : option (result FlakeError string) :=
  match fuel with
  | O => None
  | S fuel' =>
      match follow_once lock follows with
      | Err e => Some (Err e)
      | Ok (inl name) => Some (Ok name)
      | Ok (inr chain) => resolve_follows fuel' lock chain
      end
  end.

(** The chains a lock file has *)
Definition chains_of (node : LockNode) : list (list string) :=
  match ln_inputs node with
  | Some inputs => omap (λ e, match e.2 with Follows chain => Some chain | Direct _ => None end) (map_to_list inputs)
  | None => []
  end.

Definition lock_chains (lock : FlakeLock) : list (list string) :=
  map_to_list (fl_nodes lock) ≫= λ e, chains_of e.2.

Definition follows_fuel (lock : FlakeLock) : nat := S (S (length (lock_chains lock))).

Section flake.
Context `{FL : FsLimits, NC : NarCodec, FE : @FetchLib NC, NW : NarWriter, FK : FlakeLib}.
Implicit Types (t : tree) (lock : FlakeLock).

Definition read_flake_text t (p : path) : result FlakeError string :=
  match read_file t p with
  | Err e => Err (FlakeIo (Path.to_string p) e)
  | Ok text => if Str.utf8_valid text then Ok text else Err (FlakeText (Path.to_string p))
  end.

Definition parse_flake_lock t (p : path) : result FlakeError FlakeLock :=
  content ← read_flake_text t p;
  lock ← ok_or LockSyntax (lock_from_json content);
  if decide (fl_version lock = 7) then Ok lock else Err (LockVersion (fl_version lock)).

(** [get_root_inputs]; [None] when a [follows] goes round for ever *)
Fixpoint resolve_inputs (lock : FlakeLock) (inputs : list (string * InputRef)) (resolved : gmap string string)
    : option (result FlakeError (gmap string string)) :=
  match inputs with
  | [] => Some (Ok resolved)
  | (name, Direct target) :: inputs' => resolve_inputs lock inputs' (<[name := target]> resolved)
  | (name, Follows chain) :: inputs' =>
      match resolve_follows (follows_fuel lock) lock chain with
      | None => None
      | Some (Err e) => Some (Err e)
      | Some (Ok target) => resolve_inputs lock inputs' (<[name := target]> resolved)
      end
  end.

Definition get_root_inputs lock : option (result FlakeError (gmap string string)) :=
  match fl_nodes lock !! fl_root lock with
  | None => Some (Err NoRoot)
  | Some root =>
      match ln_inputs root with
      | None => Some (Ok ∅)
      | Some inputs => resolve_inputs lock (hash_order inputs) ∅
      end
  end.

(** ** URLs *)
Definition resolve_tarball_url (locked : LockedRef) : option string :=
  rev ← lr_rev locked;
  if decide (lr_type locked = "github") then
    owner ← lr_owner locked; repo ← lr_repo locked;
    Some ("https://github.com/" +:+ owner +:+ "/" +:+ repo +:+ "/archive/" +:+ rev +:+ ".tar.gz")
  else if decide (lr_type locked = "gitlab") then
    owner ← lr_owner locked; repo ← lr_repo locked;
    let host := default "gitlab.com" (lr_host locked) in
    Some ("https://" +:+ host +:+ "/" +:+ owner +:+ "/" +:+ repo +:+ "/-/archive/" +:+ rev +:+ "/"
          +:+ repo +:+ "-" +:+ rev +:+ ".tar.gz")
  else None.

(** [rsplit('/').next()] *)
Definition last_piece (s : string) : string := default "" (last (Str.split "/" s)).

Definition forge_tarball_gitlab (url rev : string) : option string :=
  if Str.contains "gitlab" url then
    after_scheme ← Str.strip_prefix "https://" url;
    '(host, owner_repo) ← Str.split_once "/" after_scheme;
    let repo_name := last_piece owner_repo in
    if decide (repo_name = "") then None
    else Some ("https://" +:+ host +:+ "/" +:+ owner_repo +:+ "/-/archive/" +:+ rev +:+ "/" +:+ repo_name +:+ "-"
               +:+ rev +:+ ".tar.gz")
  else None.

Definition git_url_to_forge_tarball (url rev : string) : option string :=
  let url := if Str.ends_with ".git" url then String.substring 0 (String.length url - 4) url else url in
  match Str.strip_prefix "https://github.com/" url with
  | Some rest =>
      if decide (length (Str.split "/" rest) = 2%nat)
      then Some ("https://github.com/" +:+ rest +:+ "/archive/" +:+ rev +:+ ".tar.gz")
      else forge_tarball_gitlab url rev
  | None => forge_tarball_gitlab url rev
  end.

(** ** Fetching *)
Definition X (A : Type) : Type := SR fsys FlakeError A.
#[export] Instance X_ret : MRet X := SR_ret fsys FlakeError.
#[export] Instance X_bind : MBind X := SR_bind fsys FlakeError.

Definition xio {A} (p : string) (m : F A) : X A := λ s,
  match m s with (Ok a, s') => (Ok a, s') | (Err e, s') => (Err (FlakeIo p e), s') end.
Definition xlift {A} (r : result FlakeError A) : X A := λ s, (r, s).
Definition xtree : X tree := λ s, (Ok (fs_tree s), s).
Definition xfetch {A} (m : FM A) : X A := λ s,
  match m s with (Ok a, s') => (Ok a, s') | (Err e, s') => (Err (InputFetch e), s') end.

Definition fetch_and_extract_to_store (url store_path : string) : X unit :=
  xio "/nix/store" (create_dir_all (Path.components "/nix/store")) ;;
  xfetch (fetch_and_unpack url store_path).

Definition compute_fod_store_path (name nar_hash_sri : string) : result FlakeError string :=
  hash ← ok_or (BadNarHash name) (nar_hash_from_str nar_hash_sri);
  ok_or (BadNarHash name) (build_ca_path hash).

(** [verify_nar_hash], and [verify_nar_hash_sri] of [fetchers.rs] *)
Definition verify_nar_hash (store_path expected_sri : string) : X unit :=
  expected ← xlift (ok_or (BadNarHash "") (nar_hash_from_str expected_sri));
  t ← xtree;
  h ← xlift (match nar_hash_path t (Path.components store_path) with Ok h => Ok h | Err e => Err (FlakeIo store_path e) end);
  actual_hex ← xlift (ok_or UnsupportedAlgorithm (Str.strip_prefix "sha256:" h.1));
  match expected with
  | Sha256 expected_hex =>
      if decide (actual_hex = expected_hex) then mret tt
      else xio "" (ignore (remove_dir_all (Path.components store_path))) ;;
           xlift (Err (NarMismatch store_path expected_hex actual_hex))
  | OtherHash => xlift (Err UnsupportedAlgorithm)
  end.

(** *** With git *)
Definition find_git t : option string :=
  match list_find (λ p, path_exists t (Path.components p) = true)
          ["/nix/system/profile/bin/git"; "/usr/bin/git"; "/bin/git"] with
  | Some (_, p) => Some p
  | None => p ← which_git t; let p := Str.trim p in if decide (p = "") then None else Some p
  end.

Definition run_git (program : string) (args : list string) : X bool := λ s,
  let '(r, seen) := git program args (fs_tree s) in
  let s' := match seen with [] => s | t :: older => mkFsys t (older ++ fs_tree s :: fs_past s) end in
  (match r with Some success => Ok success | None => Err GitNotRun end, s').

Definition fetch_git (url rev out : string) (nar_hash_sri : option string) : X unit :=
  t ← xtree;
  if path_exists t (Path.components out) then mret tt
  else
    program ← xlift (ok_or NoGit (find_git t));
    xio out (create_dir_all (default (Path.components "/tmp") (Path.parent (Path.components out)))) ;;
    let tmp_bare := out +:+ ".git-bare-tmp" in
    let clean_up := xio "" (ignore (remove_dir_all (Path.components tmp_bare))) in
    clean_up ;;
    cloned ← run_git program ["clone"; "--bare"; url; tmp_bare];
    if negb (cloned : bool) then clean_up ;; xlift (Err (GitFailed "clone"))
    else
      xio out (create_dir_all (Path.components out)) ;;
      checked_out ← run_git program ["--git-dir"; tmp_bare; "--work-tree"; out; "checkout"; rev; "--"; "."];
      if negb (checked_out : bool) then
        clean_up ;; xio "" (ignore (remove_dir_all (Path.components out))) ;; xlift (Err (GitFailed "checkout"))
      else
        clean_up ;;
        match nar_hash_sri with Some sri => verify_nar_hash out sri | None => mret tt end.

(** *** One input *)
(** From a tarball, unless it is there *)
Definition fetch_tarball_input (url store_path nar_hash : string) : X string :=
  t ← xtree;
  if path_exists t (Path.components store_path) then mret store_path
  else
    fetch_and_extract_to_store url store_path ;;
    verify_nar_hash store_path nar_hash ;;
    mret store_path.

Definition required (name field : string) (o : option string) : X string := xlift (ok_or (MissingField name field) o).

(** The path of an input without a hash *)
Definition git_path (url rev : string) : string :=
  "/nix/store/" +:+ String.substring 0 32 (sha256_hex ("git-" +:+ url +:+ "-" +:+ rev)) +:+ "-source".

Definition fetch_locked_input (name : string) (locked : LockedRef) : X string :=
  if decide (lr_type locked = "github" ∨ lr_type locked = "gitlab") then
    url ← required name "url" (resolve_tarball_url locked);
    nar_hash ← required name "narHash" (lr_nar_hash locked);
    store_path ← xlift (compute_fod_store_path name nar_hash);
    fetch_tarball_input url store_path nar_hash
  else if decide (lr_type locked = "path") then required name "path" (lr_path locked)
  else if decide (lr_type locked = "git") then
    url ← required name "url" (lr_url locked);
    rev ← required name "rev" (lr_rev locked);
    match git_url_to_forge_tarball url rev, lr_nar_hash locked with
    | Some tarball_url, Some nar_hash =>
        store_path ← xlift (compute_fod_store_path name nar_hash);
        fetch_tarball_input tarball_url store_path nar_hash
    | _, Some nar_hash =>
        store_path ← xlift (compute_fod_store_path name nar_hash);
        t ← xtree;
        if path_exists t (Path.components store_path) then mret store_path
        else fetch_git url rev store_path (Some nar_hash) ;; mret store_path
    | _, None => fetch_git url rev (git_path url rev) None ;; mret (git_path url rev)
    end
  else xlift (Err (UnsupportedType (lr_type locked) name)).

(** ** The expression *)
Record ResolvedInput : Type := mkResolvedInput { ri_name : string; ri_store_path : string; ri_is_flake : bool }.

Definition nix_path_literal (p : string) : string :=
  let s := Str.from_utf8_lossy p in
  let s := default s (Str.strip_prefix "file:" s) in
  if Str.starts_with "/" s || Str.starts_with "./" s then s else "./" +:+ s.

(** A byte of a character: one that begins a character is kept or replaced, the others go. *)
Definition safe_byte (a : ascii) : string :=
  let n := N_of_ascii a in
  if decide ((48 ≤ n ≤ 57 ∨ 65 ≤ n ≤ 90 ∨ 97 ≤ n ≤ 122 ∨ n = 95)%N) then String a ""
  else if decide ((128 ≤ n ≤ 191)%N) then ""
  else "_".

Fixpoint nix_safe_ident (name : string) : string :=
  match name with
  | EmptyString => ""
  | String a name' => safe_byte a +:+ nix_safe_ident name'
  end.

Definition nl : string := String "010" "".

(** [fs::canonicalize], without the prefix Redox may add *)
Definition flake_dir_abs t (dir : string) : string :=
  match stat_with true t (Path.components dir) with
  | Ok (q, _) => let s := Path.to_string q in
                 match Str.strip_prefix "file:" (Str.from_utf8_lossy s) with Some stripped => stripped | None => s end
  | Err _ => dir
  end.

Definition bind_input (input : ResolvedInput) : string :=
  "  __input_" +:+ nix_safe_ident (ri_name input) +:+ " = " +:+ nix_path_literal (ri_store_path input) +:+ ";" +:+ nl.

Definition pass_input (input : ResolvedInput) : string :=
  "    " +:+ dquote +:+ ri_name input +:+ dquote +:+ " = __input_" +:+ nix_safe_ident (ri_name input) +:+ ";" +:+ nl.

Definition build_flake_eval_expr t (dir : string) (inputs : list ResolvedInput) (attr system : string) : string :=
  let abs := flake_dir_abs t dir in
  "let" +:+ nl
  +:+ "  __flake = import " +:+ nix_path_literal (Path.to_string (Path.join (Path.components abs) [Normal "flake.nix"])) +:+ ";" +:+ nl
  +:+ "  __self = " +:+ nix_path_literal abs +:+ ";" +:+ nl
  +:+ Str.join "" (bind_input <$> inputs)
  +:+ "in" +:+ nl +:+ "  (__flake.outputs {" +:+ nl +:+ "    self = __self;" +:+ nl
  +:+ Str.join "" (pass_input <$> inputs)
  +:+ "  })." +:+ resolve_attr_path attr system +:+ nl.

(** The inputs that are locked, fetched in the order of the map *)
Fixpoint fetch_inputs lock (inputs : list (string * string)) : X (list ResolvedInput) :=
  match inputs with
  | [] => mret []
  | (input_name, node_name) :: inputs' =>
      node ← xlift (ok_or (NoNode node_name) (fl_nodes lock !! node_name));
      match ln_locked node with
      | None => fetch_inputs lock inputs'
      | Some locked =>
          store_path ← fetch_locked_input input_name locked;
          rest ← fetch_inputs lock inputs';
          mret (mkResolvedInput input_name store_path (is_flake node) :: rest)
      end
  end.

(** The first part of [build_flake_installable]; [None] when a [follows] goes round for ever *)
Definition resolve_flake (installable : Installable) : fsys → option (result FlakeError (list ResolvedInput) * fsys) := λ s,
  let t := fs_tree s in
  let dir := Path.components (flake_dir installable) in
  let lock_path := Path.join dir [Normal "flake.lock"] in
  if negb (path_exists t (Path.join dir [Normal "flake.nix"])) then Some (Err NoFlakeNix, s)
  else if negb (path_exists t lock_path) then Some (Err NoFlakeLock, s)
  else
    match parse_flake_lock t lock_path with
    | Err e => Some (Err e, s)
    | Ok lock =>
        match get_root_inputs lock with
        | None => None
        | Some (Err e) => Some (Err e, s)
        | Some (Ok root_inputs) => Some (fetch_inputs lock (hash_order root_inputs) s)
        end
    end.

End flake.
