(* ===== verification/FlakeFacts.v ===== *)
(** * Flake inputs: theorems

    Chains of [follows] are resolved or go round; a fetched input has the hash the lock file
    says, unless something was already there. *)

From S2P Require Import Prelude RustStd FileSys FileSysFacts Nar PathInfo NarExtract NarFacts StoreExtract.
From S2P Require Import NarDump CacheSource AllowList ManifestInstances Fetchers FlakeLock.
From stdpp Require Import relations.

Open Scope Z_scope.

(** ** Follows *)
Section follows.
Context (lock : FlakeLock).
Implicit Types (c : list string).

(** The resolution of a chain goes on with another one. *)
Definition leads c c' : Prop := follow_once lock c = Ok (inr c').

Lemma leads_functional c c1 c2 : leads c c1 → leads c c2 → c1 = c2.
Proof. unfold leads. congruence. Qed.

Lemma walk_chain_in current steps c : walk_chain lock current steps = Ok (inr c) → c ∈ lock_chains lock.
Proof.
  revert current. induction steps as [|step steps IH]; intros current; [done|]. cbn [walk_chain].
  destruct (fl_nodes lock !! current) as [node|] eqn:En; [|done]. simpl.
  destruct (ln_inputs node) as [inputs|] eqn:Ei; [|done]. simpl.
  destruct (inputs !! step) as [[target|chain]|] eqn:Es; [apply IH| |done]. intros [= ->].
  unfold lock_chains. apply list_elem_of_bind. exists (current, node). split; [|by apply elem_of_map_to_list].
  unfold chains_of. simpl. rewrite Ei. apply list_elem_of_omap. exists (step, Follows c). split; [|done].
  by apply elem_of_map_to_list.
Qed.

Lemma leads_in c c' : leads c c' → c' ∈ lock_chains lock.
Proof. unfold leads, follow_once. destruct c; [done|]. apply walk_chain_in. Qed.

(** The chains gone through, the first one left out *)
Fixpoint trail c (l : list (list string)) : Prop :=
  match l with [] => True | c' :: l' => leads c c' ∧ trail c' l' end.

Lemma out_of_fuel n c : resolve_follows n lock c = None → ∃ l, length l = n ∧ trail c l.
Proof.
  revert c. induction n as [|n IH]; intros c; [by exists []|]. cbn [resolve_follows].
  destruct (follow_once lock c) as [[name|c']|e] eqn:E; [done| |done]. intros (l & Hl & Ht)%IH.
  exists (c' :: l). split; [by simpl; rewrite Hl|done].
Qed.

Lemma trail_in c l : trail c l → l ⊆ lock_chains lock.
Proof.
  revert c. induction l as [|c' l IH]; intros c; [intros _ x []%elem_of_nil|]. intros [Hc Ht] x [->|Hx]%elem_of_cons.
  - by eapply leads_in.
  - by eapply IH.
Qed.

Lemma trail_reaches c l c' : trail c l → c' ∈ l → tc leads c c'.
Proof.
  revert c. induction l as [|c1 l IH]; intros c; [by intros _ ?%elem_of_nil|]. intros [Hc Ht] [->|Hx]%elem_of_cons.
  - by apply tc_once.
  - eapply tc_l; [done|]. by eapply IH.
Qed.

Lemma trail_cycle c l : trail c l → ¬ NoDup l → ∃ x, tc leads c x ∧ tc leads x x.
Proof.
  revert c. induction l as [|c1 l IH]; intros c; [intros _ []; apply NoDup_nil_2|]. intros [Hc Ht] Hnd.
  destruct (decide (c1 ∈ l)) as [Hin|Hin].
  - exists c1. split; [by apply tc_once|]. by eapply trail_reaches.
  - destruct (IH c1 Ht) as (x & H1 & H2); [intros H; apply Hnd; by constructor|].
    exists x. split; [|done]. by eapply tc_l.
Qed.

Lemma fuel_more n m c r : (n ≤ m)%nat → resolve_follows n lock c = Some r → resolve_follows m lock c = Some r.
Proof.
  revert m c. induction n as [|n IH]; intros m c Hm; [done|]. destruct m as [|m]; [lia|]. cbn [resolve_follows].
  destruct (follow_once lock c) as [[name|c']|e]; [done| |done]. apply IH. lia.
Qed.

Lemma resolve_end n c r :
  resolve_follows n lock c = Some r →
  ∃ c', rtc leads c c' ∧ match follow_once lock c' with
                         | Ok (inl name) => r = Ok name | Ok (inr _) => False | Err e => r = Err e
                         end.
Proof.
  revert c. induction n as [|n IH]; intros c; [done|]. cbn [resolve_follows].
  destruct (follow_once lock c) as [[name|c']|e] eqn:E.
  - intros [= <-]. exists c. split; [done|]. by rewrite E.
  - intros (c2 & H & Hr)%IH. exists c2. split; [|done]. by eapply rtc_l.
  - intros [= <-]. exists c. split; [done|]. by rewrite E.
Qed.

(** A chain that goes round never ends. *)
Lemma round_for_ever n c x : rtc leads c x → tc leads x x → resolve_follows n lock c = None.
Proof.
  intros Hcx Hx. assert (Hstep : ∀ y, rtc leads y x → ∃ y', leads y y' ∧ rtc leads y' x).
  { intros y Hy. apply rtc_inv in Hy as [->|(y' & Hy' & Hr)]; [|by exists y'].
    inversion Hx as [? ? Hs|? y' ? Hs Ht]; [by exists x|]. exists y'. split; [done|]. by apply tc_rtc. }
  revert c Hcx. induction n as [|n IH]; intros c Hcx; [done|]. cbn [resolve_follows].
  destruct (Hstep c Hcx) as (c' & Hl & Hr). unfold leads in Hl. rewrite Hl. by apply IH.
Qed.

(** The resolution of a chain of [follows] ends within as many turns as the lock file has chains,
    with the name or the error of the last chain it goes through, unless it comes to a chain that
    leads back to itself; then it never ends. *)
Theorem resolve_follows_spec c :
  match resolve_follows (follows_fuel lock) lock c with
  | Some r =>
      (∀ fuel, resolve_follows fuel lock c = None ∨ resolve_follows fuel lock c = Some r)
      ∧ ∃ c', rtc leads c c' ∧ match follow_once lock c' with
                               | Ok (inl name) => r = Ok name | Ok (inr _) => False | Err e => r = Err e
                               end
  | None => (∃ x, rtc leads c x ∧ tc leads x x) ∧ ∀ fuel, resolve_follows fuel lock c = None
  end.
Proof.
  destruct (resolve_follows (follows_fuel lock) lock c) as [r|] eqn:E.
  - split; [|by eapply resolve_end]. intros fuel. destruct (resolve_follows fuel lock c) as [r'|] eqn:E'; [right|by left].
    destruct (decide (fuel ≤ follows_fuel lock)%nat) as [Hle|Hle].
    + apply (fuel_more _ _ _ _ Hle) in E'. congruence.
    + apply (fuel_more _ fuel) in E; [congruence|lia].
  - assert (Hx : ∃ x, tc leads c x ∧ tc leads x x).
    { apply out_of_fuel in E as (l & Hl & Ht). eapply trail_cycle; [done|]. intros Hnd.
      assert (Hlen : (length l ≤ length (lock_chains lock))%nat).
      { apply submseteq_length, NoDup_submseteq; [done|]. intros x Hx. by eapply trail_in. }
      rewrite Hl in Hlen. unfold follows_fuel in Hlen. lia. }
    destruct Hx as (x & H1 & H2). split; [exists x; split; [by apply tc_rtc|done]|].
    intros fuel. eapply round_for_ever; [by apply tc_rtc|done].
Qed.
End follows.

(** ** Fetched inputs *)
Section inputs.
Context `{FL : FsLimits, NC : NarCodec, FE : @FetchLib NC, NW : NarWriter, FK : FlakeLib}.
Implicit Types (s : fsys) (p : string).

Lemma xbind_inv {A B : Type} (m : X A) (f : A → X B) s r s' :
  (m ≫= f) s = (r, s') → (∃ a s1, m s = (Ok a, s1) ∧ f a s1 = (r, s')) ∨ (∃ e, m s = (Err e, s') ∧ r = Err e).
Proof.
  unfold mbind, X_bind, SR_bind. destruct (m s) as [[a|e] s1]; [intros E; left; by exists a, s1|].
  intros [= <- <-]. right. by exists e.
Qed.

(** A step of a run that has succeeded *)
Ltac step E a s1 E1 := apply xbind_inv in E as [(a & s1 & E1 & E)|(? & _ & ?)]; [|done].

Lemma lift_inv {A : Type} (o : option A) e s (a : A) s' : xlift (ok_or e o) s = (Ok a, s') → o = Some a ∧ s' = s.
Proof. unfold xlift. destruct o; by intros [= -> ->]. Qed.

(** The tree at the path has the digest. *)
Definition has_digest s p (sri : string) : Prop :=
  ∃ hex size, nar_hash_from_str sri = Some (Sha256 hex)
    ∧ nar_hash_path (fs_tree s) (Path.components p) = Ok ("sha256:" +:+ hex, size).

Lemma verified p sri s s' : verify_nar_hash p sri s = (Ok tt, s') → s' = s ∧ has_digest s p sri.
Proof.
  unfold verify_nar_hash. intros E. step E expected s1 E1. apply lift_inv in E1 as [He ->].
  step E t s1 E1. injection E1 as <- <-. step E h s1 E1.
  destruct (nar_hash_path _ _) as [[text size]|] eqn:Eh; [|done]. injection E1 as <- <-.
  step E hex s1 E1. apply lift_inv in E1 as [Hp ->]. cbn [fst] in Hp.
  destruct expected as [expected_hex|]; [|done]. case_decide as Hx.
  - injection E as <-. split; [done|]. exists expected_hex, size. split; [done|]. rewrite Eh. do 2 f_equal.
    apply Str.strip_prefix_Some in Hp. by rewrite Hp, Hx.
  - step E u s1 E1. done.
Qed.

(** What was there before the fetch is taken as it is. *)
Definition cached s p s' : Prop := s' = s ∧ path_exists (fs_tree s) (Path.components p) = true.

Lemma tarball_input url p sri s q s' :
  fetch_tarball_input url p sri s = (Ok q, s') → q = p ∧ (cached s p s' ∨ has_digest s' p sri).
Proof.
  unfold fetch_tarball_input. intros E. step E t s1 E1. injection E1 as <- <-.
  destruct (path_exists _ _) eqn:Hx; [injection E as <- <-; split; [done|by left]|].
  step E u s1 E1. step E u' s2 E2. destruct u'. apply verified in E2 as [-> Hd]. injection E as <- <-. split; [done|by right].
Qed.

Lemma git_input url rev p sri s s' :
  fetch_git url rev p (Some sri) s = (Ok tt, s') → cached s p s' ∨ has_digest s' p sri.
Proof.
  unfold fetch_git. intros E. step E t s1 E1. injection E1 as <- <-.
  destruct (path_exists _ _) eqn:Hx; [injection E as <-; by left|]. right.
  step E program s1 E1. step E u s2 E2. cbv zeta in E. step E u' s3 E3. step E cl s4 E4.
  destruct (negb cl); [step E u4 s5 E5; done|]. step E u5 s5 E5. step E co s6 E6.
  destruct (negb co); [step E u7 s7 E7; step E u8 s8 E8; done|]. step E u7 s7 E7. by apply verified in E as [-> Hd].
Qed.

(** C18. A fetched input: one that has a hash in the lock file and is not a local path is in the store
    path this hash determines, and what is there has the hash, or it was there before the fetch,
    which then has done nothing.  A local path is the one of the lock file, whatever hash that
    has; a git input without a hash is in the path its URL and revision determine. *)
Theorem input_verified name locked s p s' :
  fetch_locked_input name locked s = (Ok p, s') →
  (lr_type locked = "path" ∧ lr_path locked = Some p ∧ s' = s)
  ∨ (lr_type locked = "git" ∧ lr_nar_hash locked = None
     ∧ ∃ url rev, lr_url locked = Some url ∧ lr_rev locked = Some rev ∧ p = git_path url rev)
  ∨ (lr_type locked ∈ ["github"; "gitlab"; "git"]
     ∧ ∃ sri hash, lr_nar_hash locked = Some sri ∧ nar_hash_from_str sri = Some hash ∧ build_ca_path hash = Some p
       ∧ (cached s p s' ∨ has_digest s' p sri)).
Proof.
  assert (Hstore : ∀ sri s1 q s2, xlift (compute_fod_store_path name sri) s1 = (Ok q, s2) →
    s2 = s1 ∧ ∃ hash, nar_hash_from_str sri = Some hash ∧ build_ca_path hash = Some q).
  { intros sri s1 q s2 [= E <-]. split; [done|]. unfold compute_fod_store_path in E.
    destruct (nar_hash_from_str sri) as [hash|]; [|done]. exists hash. split; [done|]. simpl in E.
    destruct (build_ca_path hash); by simplify_eq/=. }
  unfold fetch_locked_input. intros E. case_decide as Ht.
  { step E url s1 E1. apply lift_inv in E1 as [_ ->]. step E sri s1 E1. apply lift_inv in E1 as [Hn ->].
    step E q s1 E1. apply Hstore in E1 as (-> & hash & Hh & Hq). apply tarball_input in E as [-> Hc].
    right; right. split; [destruct Ht as [->| ->]; [left|right; left]|by exists sri, hash]. }
  case_decide as Hp; [left; apply lift_inv in E as [? ->]; done|]. case_decide as Hg; [|done].
  right. step E url s1 E1. apply lift_inv in E1 as [Hu ->]. step E rv s1 E1. apply lift_inv in E1 as [Hr ->].
  assert (Hcase : (∃ sri, lr_nar_hash locked = Some sri ∧
      ∃ hash, nar_hash_from_str sri = Some hash ∧ build_ca_path hash = Some p ∧ (cached s p s' ∨ has_digest s' p sri))
    ∨ (lr_nar_hash locked = None ∧ p = git_path url rv)).
  { destruct (lr_nar_hash locked) as [sri|] eqn:Hn.
    2:{ right. split; [done|]. destruct (git_url_to_forge_tarball url rv); step E u s1 E1; by injection E as <-. }
    left. exists sri. split; [done|]. destruct (git_url_to_forge_tarball url rv).
    - step E q s1 E1. apply Hstore in E1 as (-> & hash & Hh & Hq). apply tarball_input in E as [-> Hc]. by exists hash.
    - step E q s1 E1. apply Hstore in E1 as (-> & hash & Hh & Hq). exists hash. split; [done|].
      step E t s1 E1. injection E1 as <- <-. destruct (path_exists _ _) eqn:Hx.
      + injection E as <- <-. split; [done|]. by left; split.
      + step E u s1 E1. injection E as <- <-. destruct u. split; [done|]. by eapply git_input. }
  destruct Hcase as [(sri & Hn & hash & ?)|[Hn ->]]; [right|left].
  - split; [rewrite Hg; right; right; left|]. exists sri, hash. split_and!; by destruct_and?.
  - split_and!; [done|done|]. by exists url, rv.
Qed.
End inputs.

Module FlakeDemo.
#[local] Existing Instances ExtractDemo.codec DumpDemo.demo_writer.

(** The server sends the archive, or breaks off after its first file. *)
Definition file (p c : string) : result io_error tar_entry := Ok (mkTarEntry TarRegular p c None (Some 420) (Ok None)).
#[local] Instance server : FetchLib := {|
  http_get url := Ok (url, None);
  gz_stream s := s;
  read_tar s := Ok [file "src/flake.nix" "{ }"; if Str.contains "broken" s then Err (OtherError "network") else file "src/a" "a"];
|}.

#[local] Instance library : FlakeLib.
Proof.
  refine {|
    lock_from_json _ := None;
    nar_hash_from_str sri := Sha256 <$> Str.strip_prefix "sha256-" sri;
    build_ca_path hash := match hash with Sha256 _ => Some "/nix/store/x-source" | OtherHash => None end;
    hash_order A m := map_to_list m;
    git _ _ _ := (None, []);
    which_git _ := None;
  |}. done.
Defined.

Definition locked (rev : string) : LockedRef :=
  mkLockedRef "github" (Some "o") (Some "r") (Some rev) (Some "sha256-da,flake.nix") None None None None None.
Definition disk : fsys := mkFsys (<[Path.components "/nix/store" := Dir 493]> {[Path.components "/nix" := Dir 493]}) [].
Definition fetched := fetch_locked_input "dep" (locked "1") disk.

Lemma input_verified_witness :
  fetched.1 = Ok "/nix/store/x-source" ∧ has_digest fetched.2 "/nix/store/x-source" "sha256-da,flake.nix".
Proof.
  assert (Hok : fetched.1 = Ok "/nix/store/x-source") by (vm_compute; reflexivity). split; [exact Hok|].
  destruct (input_verified "dep" (locked "1") disk "/nix/store/x-source" fetched.2)
    as [(? & _)|[(? & _)|(_ & sri & hash & Hn & _ & _ & Hc)]].
  - rewrite <- Hok. apply surjective_pairing.
  - discriminate.
  - discriminate.
  - injection Hn as <-. destruct Hc as [[_ Hx]|Hd]; [|exact Hd]. vm_compute in Hx. discriminate.
Defined.

(** A download that breaks off leaves what it has unpacked; the next fetch takes it for the input. *)
Definition interrupted := fetch_locked_input "dep" (locked "broken") disk.
Definition retried := fetch_locked_input "dep" (locked "broken") interrupted.2.

Example interrupted_is_trusted :
  is_ok interrupted.1 = false ∧ retried.1 = Ok "/nix/store/x-source"
  ∧ fst <$> nar_hash_path (fs_tree retried.2) (Path.components "/nix/store/x-source") = Ok "sha256:dflake.nix".
Proof. split_and!; vm_compute; reflexivity. Qed.

(** Two inputs that follow each other: the resolution never ends. *)
Definition node (inputs : list (string * InputRef)) : LockNode := mkLockNode None (Some (list_to_map inputs)) None.
Definition circular : FlakeLock := mkFlakeLock 7 "root" (list_to_map
  [("root", node [("a", Direct "a"); ("b", Direct "b")]); ("a", node [("x", Follows ["b"; "y"])]);
   ("b", node [("y", Follows ["a"; "x"])])]).

Example never_ends : ∀ fuel, resolve_follows fuel circular ["a"; "x"] = None.
Proof.
  intros fuel. apply (round_for_ever _ fuel _ ["a"; "x"]); [done|].
  eapply tc_l; [|apply tc_once]; [instantiate (1 := ["b"; "y"])|]; vm_compute; reflexivity.
Qed.

(** A chain begins with the name of a node, also where the root has an input of that name that is
    another node. *)
Definition renamed : FlakeLock := mkFlakeLock 7 "root" (list_to_map
  [("root", node [("nixpkgs", Direct "nixpkgs_2")]); ("nixpkgs", node []); ("nixpkgs_2", node [])]).

Example chain_names_node : resolve_follows (follows_fuel renamed) renamed ["nixpkgs"] = Some (Ok "nixpkgs").
Proof. vm_compute. reflexivity. Qed.

(** Inputs whose names differ in a punctuation mark get the same variable. *)
Example idents_collide : nix_safe_ident "relibc-src" = nix_safe_ident "relibc.src".
Proof. vm_compute. reflexivity. Qed.
End FlakeDemo.
