(* ===== verification/Rebuild.v ===== *)
(** * Rebuilding the system ([rebuild.rs], [bridge.rs])

    The three ways a configuration becomes a generation: merged with packages of a cache, built
    from a system expression or from package sources on the machine, or built by the host
    over the bridge.  The evaluator is a parameter; what it is asked, and what is done with its
    answer, is modelled.  Messages are not modelled. *)

From S2P Require Import Prelude RustStd FileSys Nar PathInfo Store Calendar Manifest Generations Activate.
From S2P Require Import NarExtract StoreExtract NarDump CacheSource Install Switch RebuildConfig AllowList.
From S2P Require Import Fetchers LocalBuild EvalSources Channels FlakeLock.

Open Scope Z_scope.

(** [RbDiverges] is not the source's: a [follows] that goes round for ever *)
Inductive RebuildError : Type :=
  | RbConfig (e : ConfigError)
  | ConfigNotFound
  | EvalFailed
  | RbIo (e : io_error)
  | RbGen (e : GenError)
  | RbCache (e : CacheError)
  | RbBuild (e : BuildError)
  | RbImport (e : ImportError)
  | RbChannel (e : ChannelError)
  | RbFlake (e : FlakeError)
  | RbDiverges
  | NotADerivation
  | NativeSystem (what : string)
  | NoPackageSources
  | NoRoute
  | BridgeTimeout
  | HostBuildFailed (what : string).

(** What an evaluation hands out: the printed value, the derivations, the sources they import *)
Record Evaluated {SP : Type} `{Countable SP} : Type := mkEvaluated {
  ev_value : string;
  ev_known : gmap SP (@Allow.Derivation SP);
  ev_sources : list SP;
  ev_path_info : SP → result io_error (option (UpstreamInfo SP));
}.
Arguments Evaluated SP {_ _}.
Arguments mkEvaluated {SP _ _} _ _ _ _.

(** The host's answer; there is no manifest when the field is missing or is not a manifest *)
Record BridgeResponse : Type := mkBridgeResponse {
  bs_status : string;
  bs_request_id : string;
  bs_manifest : option Manifest;
  bs_error : option string;
}.

(** The evaluator, serde_json, the shell of the user; [eval_*] may write (a fetched source), so
    they answer with the trees they go through, the newest first. *)
Class RebuildLib (SP : Type) `{Countable SP} : Type := {
  eval_expression : string → tree → option (Evaluated SP) * list tree;
  eval_config : string → tree → option string * list tree;
  decode_json_string : string → option string;
  parse_store_path : string → option SP;
  config_to_json : RebuildConfig → string;
  manifest_to_compact : Manifest → string;
  request_to_json : string → RebuildConfig → string;
  bridge_response_from_json : string → option BridgeResponse;
}.

(** The machine: the system, the counters of import and build directories, the builders started *)
Record machine {SP : Type} : Type := mkMachine {
  m_sys : Sys;
  m_import : Z;
  m_builds : Z;
  m_ran : list (Invocation SP);
}.
Arguments machine : clear implicits.
Arguments mkMachine {SP} _ _ _ _.

Definition R (SP A : Type) : Type := SR (machine SP) RebuildError A.
#[export] Instance R_ret SP : MRet (R SP) := SR_ret (machine SP) RebuildError.
#[export] Instance R_bind SP : MBind (R SP) := SR_bind (machine SP) RebuildError.

Section calls.
Context {SP : Type}.
Implicit Types (s : machine SP).

Definition set_sys (sys : Sys) s : machine SP := mkMachine sys (m_import s) (m_builds s) (m_ran s).
Definition set_db (db : directory) (sys : Sys) : Sys :=
  set_disk (mkDisk db (d_roots (s_disk sys)) (d_store (s_disk sys))) sys.

Definition on_fs {A} (m : F A) : R SP A := λ s,
  let '(r, fs) := m (s_fs (m_sys s)) in
  (match r with Ok a => Ok a | Err e => Err (RbIo e) end, set_sys (set_fs fs (m_sys s)) s).

Definition on_gen {A} (m : G A) : R SP A := λ s,
  let '(r, sys) := m (m_sys s) in
  (match r with Ok a => Ok a | Err e => Err (RbGen e) end, set_sys sys s).

Definition on_import (m : M unit) : R SP unit := λ s,
  let sys := m_sys s in
  let '(r, i) := m (mkImports (s_fs sys) (d_db (s_disk sys)) (m_import s)) in
  (match r with Ok a => Ok a | Err e => Err (RbImport e) end,
   mkMachine (set_fs (im_fs i) (set_db (im_db i) sys)) (im_counter i) (m_builds s) (m_ran s)).

Definition on_build {A} (m : B SP A) : R SP A := λ s,
  let sys := m_sys s in
  let '(r, b) := m (mkBuilds (s_fs sys) (d_db (s_disk sys)) (m_builds s) (m_ran s)) in
  (match r with Ok a => Ok a | Err e => Err (RbBuild e) end,
   mkMachine (set_fs (b_fs b) (set_db (b_db b) sys)) (m_import s) (b_counter b) (b_ran b)).

(** An installation step, of which only success is looked at *)
Definition on_install {A} (m : I A) : R SP bool := λ s,
  let sys := m_sys s in
  let '(r, i) := m (mkInstallation (s_fs sys) (d_db (s_disk sys)) (d_roots (s_disk sys)) []) in
  (Ok (is_ok r), set_sys (set_fs (in_fs i) (set_disk (mkDisk (in_db i) (in_roots i) (d_store (s_disk sys))) sys)) s).

Definition rlift {A} (r : result RebuildError A) : R SP A := λ s, (r, s).
Definition rtree : R SP tree := λ s, (Ok (fs_tree (s_fs (m_sys s))), s).

(** Trees gone through by code outside *)
Definition pass_through (seen : list tree) (fs : fsys) : fsys :=
  match seen with [] => fs | t :: older => mkFsys t (older ++ fs_tree fs :: fs_past fs) end.

Definition evaluate {A} (m : tree → option A * list tree) : R SP A := λ s,
  let '(r, seen) := m (fs_tree (s_fs (m_sys s))) in
  (ok_or EvalFailed r, set_sys (set_fs (pass_through seen (s_fs (m_sys s))) (m_sys s)) s).

Definition of_config {A} (r : result ConfigError A) : result RebuildError A :=
  match r with Ok a => Ok a | Err e => Err (RbConfig e) end.
Definition of_io {A} (r : result io_error A) : result RebuildError A :=
  match r with Ok a => Ok a | Err e => Err (RbIo e) end.

End calls.

(** [fs::read_to_string] *)
Definition read_text `{FsLimits} (t : tree) (p : path) : result RebuildError string :=
  match read_file t p with
  | Err e => Err (RbIo e)
  | Ok text => if Str.utf8_valid text then Ok text else Err (RbIo InvalidInput)
  end.

(** The file at a path, as [load_manifest_from] finds it *)
Definition file_at `{FsLimits} (t : tree) (p : path) : option dbfile :=
  match read_file t p with
  | Ok text => Some (if Str.utf8_valid text then Text text else Unreadable)
  | Err NotFound => None
  | Err _ => Some Unreadable
  end.

Definition is_file `{FsLimits} (t : tree) (p : path) : bool :=
  match metadata t p with Ok n => is_file_node n | Err _ => false end.

Definition DEFAULT_CONFIG_PATH : string := "/etc/redox-system/configuration.nix".
Definition DEFAULT_CACHE_INDEX : string := "/nix/cache/packages.json".

(** ** Resolving package names *)
Record ResolvedPackage : Type := mkResolvedPackage { rp_package : Package; rp_source : option CacheSource }.

Definition from_index (name : string) (index : option PackageIndex) (source : option CacheSource) : option ResolvedPackage :=
  match index, source with
  | Some index, Some source =>
      (λ entry, mkResolvedPackage (mkPackage name (en_version entry) (en_store_path entry)) (Some source))
      <$> ix_packages index !! name
  | _, _ => None
  end.

Definition resolve_packages_from_indexes (names : list string) (primary_index : option PackageIndex)
    (primary_source : option CacheSource) (fallback_index : option PackageIndex) (fallback_source : option CacheSource)
    : list ResolvedPackage :=
  (λ name, match from_index name primary_index primary_source with
           | Some p => p
           | None => match from_index name fallback_index fallback_source with
                     | Some p => p
                     | None => mkResolvedPackage (mkPackage name "" "") None
                     end
           end) <$> names.

Section rebuild.
Context `{FL : FsLimits, SPL : StorePathLib, IJ : InfoJson, MJ : ManifestJson, IOF : IoFaults, TF : TreeFaults,
  SJ : SystemJson, GF : GenFaults, NC : NarCodec, FE : @FetchLib NC, NW : NarWriter, RS : ReferenceScanner,
  CL : CacheLib, PJ : InstallJson, DM : Daemons, CJ : ConfigJson}.
Context {SP : Type} `{Countable SP} {SPT : Allow.StorePathText SP} {BL : BuildLib SP} {PF : Platform SP}
  {RL : RebuildLib SP}.
(** The clock, as a number and as text, the hash and the shell *)
Context (clock : option Z) (now : string) (blake3_hex : string → string) (run_sh : path → fsys → script_result * fsys).
Implicit Types (config : RebuildConfig) (m : Manifest).

Abbreviation R := (R SP).

Definition resolve_packages_with_fallback t (names : option (list string)) (primary : CacheSource)
    (fallback : option CacheSource) : result CacheError (list ResolvedPackage) :=
  match names with
  | None | Some [] => Ok []
  | Some names =>
      primary_index ← match read_index t primary with
                      | Ok index => Ok (Some index)
                      | Err e => if is_some fallback then Ok None else Err e
                      end;
      fallback_index ← match fallback with
                       | None => Ok None
                       | Some source =>
                           match read_index t source with
                           | Ok index => Ok (Some index)
                           | Err e => if is_some primary_index then Ok None else Err e
                           end
                       end;
      Ok (resolve_packages_from_indexes names primary_index (Some primary) fallback_index fallback)
  end.

Definition local_cache_source_for_rebuild (cache_index_path : string) : CacheSource :=
  Local (default (Path.components DEFAULT_CACHE_PATH) (Path.parent (Path.components cache_index_path))).

Definition cache_source_for_rebuild (cache_index_path : string) (cache_url : option string) : CacheSource :=
  match cache_url with
  | Some url => Remote (Str.trim_end_matches "/" url)
  | None => local_cache_source_for_rebuild cache_index_path
  end.

Definition is_remote (source : CacheSource) : bool := match source with Remote _ => true | Local _ => false end.

(** ** The configuration *)
Definition decode_eval_json_string (repr : string) : option string :=
  if Str.starts_with (String quote "") repr && Str.ends_with (String quote "") repr then decode_json_string repr
  else Some repr.

Definition evaluate_config (p : string) : R RebuildConfig :=
  t ← rtree;
  if Str.ends_with ".json" p then
    content ← rlift (read_text t (Path.components p)); rlift (of_config (parse_config_json content))
  else if negb (path_exists t (Path.components p)) then rlift (Err ConfigNotFound)
  else
    repr ← evaluate (eval_config ("builtins.toJSON (import " +:+ p +:+ ")"));
    json ← rlift (ok_or EvalFailed (decode_eval_json_string repr));
    rlift (of_config (parse_config_json json)).

(** The configuration is kept when it is the default one, and put back after the switch. *)
Definition preserved_config (cfg_path : string) : R (option string) :=
  if decide (cfg_path = DEFAULT_CONFIG_PATH) then
    t ← rtree; text ← rlift (read_text t (Path.components cfg_path)); mret (Some text)
  else mret None.

Definition preserve_active_config (p content : string) : F unit :=
  let cfg_path := Path.components p in
  match Path.parent cfg_path with Some parent => create_dir_all parent | None => mret tt end ;;
  t ← get_tree;
  (if is_ok (symlink_metadata t cfg_path) then catch (remove_file cfg_path) (λ _, remove_dir_all cfg_path) else mret tt) ;;
  write_file cfg_path content.

Definition put_back (text : option string) : R unit :=
  match text with Some text => on_fs (preserve_active_config DEFAULT_CONFIG_PATH text) | None => mret tt end.

(** ** The switch to a manifest, through a file of [/tmp] *)
Definition switch_to (tmp_path : string) (m : Manifest) (description : string) (after : F unit) : R unit :=
  let p := Path.components tmp_path in
  on_fs (write_file p (system_to_json m)) ;;
  t ← rtree;
  result ← (λ s, let '(r, s') := on_gen (switch clock blake3_hex run_sh (file_at t p) (Some description) false) s in (Ok r, s'));
  on_fs (ignore (remove_file p)) ;;
  on_fs (ignore after) ;;
  rlift result.

Definition current_manifest : R Manifest :=
  on_gen (s ← sr_get; sr_lift (load_manifest_from (s_manifest s))).

(** ** Packages of a cache *)
Fixpoint extract_packages (ps : list ResolvedPackage) : R unit :=
  match ps with
  | [] => mret tt
  | resolved :: ps' =>
      let store_path := pkg_store_path (rp_package resolved) in
      t ← rtree;
      (if decide (store_path = "") then mret tt
       else if path_exists t (Path.components store_path) then mret tt
       else match rp_source resolved with
            | Some source => _ ← on_install (fetch_and_extract now store_path source); mret tt
            | None => mret tt
            end) ;;
      extract_packages ps'
  end.

(** ** A system expression, built here *)
(** [collect_native_root_files]; deeper than [max_depth] a path is longer than the system accepts *)
Fixpoint collect_native_root_files (depth : nat) t (root directory : path) (fs : gmap string FileInfo)
    : result RebuildError (gmap string FileInfo) :=
  match depth with
  | O => Err (RbIo NameTooLong)
  | S depth' =>
      es ← of_io (read_dir t directory);
      (fix loop (es : list (string * node)) (fs : gmap string FileInfo) :=
         match es with
         | [] => Ok fs
         | (name, kind) :: es' =>
             let p := Path.join directory [Normal name] in
             fs ← match kind with
                  | Dir _ => collect_native_root_files depth' t root p fs
                  | File _ mode =>
                      relative ← ok_or (NativeSystem "prefix") (Path.strip_prefix p root);
                      relative ← of_config (validate_managed_file_path (Str.from_utf8_lossy (Path.to_string relative)));
                      text ← read_text t p;
                      Ok (<[relative := mkFileInfo (blake3_hex text) (Z.of_nat (String.length text))
                                         (fmt_04o (Z.lor (Z.land mode 0xFFF) 0x80)) (Some text)]> fs)
                  | Link _ => Err (NativeSystem "native root file must be a regular file")
                  end;
             loop es' fs
         end) es fs
  end.

Definition with_etc_source (e : option string) (m : Manifest) : Manifest :=
  mkManifest (manifest_version m) (m_system m) (m_generation m) (m_boot m) (m_configuration m)
    (m_packages m) (m_drivers m) (m_users m) (m_groups m) (m_services m) (m_activation_scripts m)
    (m_files m) (m_system_profile m) (m_toplevel m) e.
Definition with_toplevel (e : option string) (m : Manifest) : Manifest :=
  mkManifest (manifest_version m) (m_system m) (m_generation m) (m_boot m) (m_configuration m)
    (m_packages m) (m_drivers m) (m_users m) (m_groups m) (m_services m) (m_activation_scripts m)
    (m_files m) (m_system_profile m) e (m_etc_source m).
Definition with_packages (ps : list Package) (m : Manifest) : Manifest :=
  mkManifest (manifest_version m) (m_system m) (m_generation m) (m_boot m) (m_configuration m)
    ps (m_drivers m) (m_users m) (m_groups m) (m_services m) (m_activation_scripts m)
    (m_files m) (m_system_profile m) (m_toplevel m) (m_etc_source m).

Definition boot_artifact t (name : string) (artifact : option string) : result RebuildError unit :=
  p ← ok_or (NativeSystem ("no boot." +:+ name)) artifact;
  if is_file t (Path.components p) then Ok tt else Err (NativeSystem ("missing boot." +:+ name)).

Definition load_native_system_manifest t config (output : string) (current : Manifest) : result RebuildError Manifest :=
  let root := Path.components output in
  m ← match load_manifest_from (file_at t (Path.join root [Normal "manifest.json"])) with
      | Ok m => Ok m | Err e => Err (RbGen e)
      end;
  (if decide (target (m_system m) = target (m_system current)) then Ok tt else Err (NativeSystem "target")) ;;
  boot ← ok_or (NativeSystem "no boot artifacts") (m_boot m);
  boot_artifact t "kernel" (kernel boot) ;;
  boot_artifact t "initfs" (initfs boot) ;;
  boot_artifact t "bootloader" (bootloader boot) ;;
  m ← match m_etc_source m with
      | Some _ => Ok m
      | None =>
          text ← match read_text t (Path.join root [Normal "etc-source-path"]) with
                 | Ok text => Ok text | Err _ => Err (NativeSystem "no etcSource")
                 end;
          Ok (with_etc_source (Some (Str.trim text)) m)
      end;
  (if existsb (λ p, is_dir t (Path.join (Path.components p) [Normal "etc"])) (option_list (m_etc_source m)) then Ok tt
   else Err (NativeSystem "etcSource does not contain an etc directory")) ;;
  m ← of_config (merge_config blake3_hex (with_toplevel (Some output) m) config []);
  let root_files := Path.join root [Normal "root-files"] in
  if is_dir t root_files then
    fs ← collect_native_root_files max_depth t root_files root_files
           (filter (λ e, Str.starts_with "usr/lib/init.d/" e.1 = false) (m_files m));
    Ok (set_files fs m)
  else Ok m.

(** [evaluate_for_build]: the imported sources are published after an evaluation *)
Definition evaluate_for_build (expression : string) : R (Evaluated SP) :=
  ev ← evaluate (eval_expression expression);
  on_import (materialize_input_sources sp_text (ev_path_info ev) pid now (Path.components STORE) (ev_sources ev)) ;;
  mret ev.

(** [fs::canonicalize] *)
Definition canonicalize t (p : path) : result io_error path := fst <$> stat_with true t p.

Definition native_source t (cfg_path source : string) : result RebuildError string :=
  let p := Path.components source in
  let p := if Path.is_absolute p then p
           else Path.join (default [CurDir] (Path.parent (Path.components cfg_path))) p in
  q ← of_io (canonicalize t p);
  let text := Str.from_utf8_lossy (Path.to_string q) in
  Ok (default text (Str.strip_prefix "file:" text)).

Definition native_expression (source : string) config (current : Manifest) : string :=
  "((import (builtins.toPath " +:+ nix_string_literal source +:+ ")) { config = builtins.fromJSON "
  +:+ nix_string_literal (config_to_json config) +:+ "; currentManifest = builtins.fromJSON "
  +:+ nix_string_literal (manifest_to_compact current) +:+ "; }).drvPath".

Definition rebuild_native_system (cfg_path : string) config (dry_run : bool) : R unit :=
  source ← rlift (ok_or (NativeSystem "systemSource is not configured") (rc_system_source config));
  t ← rtree;
  source ← rlift (native_source t cfg_path source);
  current ← current_manifest;
  preserved ← preserved_config cfg_path;
  let expression := native_expression source config current in
  ev ← (if dry_run then evaluate (eval_expression expression) else evaluate_for_build expression);
  drv_path ← rlift (ok_or EvalFailed (decode_eval_json_string (ev_value ev)));
  drv ← rlift (ok_or NotADerivation (parse_store_path drv_path));
  if dry_run then mret tt
  else
    built ← on_build (build_needed (ev_known ev) now drv);
    output ← rlift (ok_or (NativeSystem "no 'out' output") (br_outputs built !! "out"));
    t ← rtree;
    m ← rlift (load_native_system_manifest t config output current);
    switch_to ("/tmp/snix-native-rebuild-" +:+ pid +:+ ".json") m "native system rebuild" (mret tt) ;;
    put_back preserved.

(** ** A merge with packages of a cache *)
Definition rebuild (cfg_path : string) (dry_run : bool) (cache_index_path cache_url : option string) : R unit :=
  config ← evaluate_config cfg_path;
  if is_some (rc_system_source config) then rebuild_native_system cfg_path config dry_run
  else
    let cache_path := default DEFAULT_CACHE_INDEX cache_index_path in
    let primary := cache_source_for_rebuild cache_path cache_url in
    let fallback := if is_remote primary then Some (local_cache_source_for_rebuild cache_path) else None in
    preserved ← preserved_config cfg_path;
    current ← current_manifest;
    t ← rtree;
    resolved ← rlift (match resolve_packages_with_fallback t (rc_packages config) primary fallback with
                      | Ok l => Ok l | Err e => Err (RbCache e) end);
    merged ← rlift (of_config (merge_config blake3_hex current config (rp_package <$> resolved)));
    if dry_run then mret tt
    else if negb (has_manifest_changes current merged) then mret tt
    else
      extract_packages resolved ;;
      switch_to ("/tmp/snix-rebuild-" +:+ pid +:+ ".json") merged "rebuild from configuration.nix" (mret tt) ;;
      put_back preserved.

(** ** Packages built from sources *)
Definition evaluate_package_sources (sources_path : string) : R (list (string * string)) :=
  ev ← evaluate (eval_expression ("builtins.attrNames (import " +:+ sources_path +:+ ")"));
  let names_str := Str.trim (ev_value ev) in
  if negb (Str.starts_with "[" names_str) || negb (Str.ends_with "]" names_str) then rlift (Err EvalFailed)
  else
    let inner := Str.trim (String.substring 1 (String.length names_str - 2) names_str) in
    let names := List.filter (λ n, negb (bool_decide (n = ""))) (Str.trim_matches quote <$> Str.split_whitespace inner) in
    (fix each names :=
       match names with
       | [] => mret []
       | name :: names' =>
           ev ← evaluate (eval_expression ("(import " +:+ sources_path +:+ ")." +:+ name +:+ ".drvPath"));
           rest ← each names';
           mret ((name, Str.trim_matches quote (ev_value ev)) :: rest)
       end) names.

Fixpoint build_source_packages (packages : list (string * string)) (sources_path : string) : R (list (string * string)) :=
  match packages with
  | [] => mret []
  | (name, _) :: packages' =>
      ev ← evaluate_for_build ("(import " +:+ sources_path +:+ ")." +:+ name +:+ ".drvPath");
      drv ← rlift (ok_or NotADerivation (parse_store_path (Str.trim_matches quote (ev_value ev))));
      built ← on_build (build_needed (ev_known ev) now drv);
      out ← rlift (ok_or (NativeSystem "no 'out' output") (br_outputs built !! "out"));
      rest ← build_source_packages packages' sources_path;
      mret ((name, out) :: rest)
  end.

(** The first package of the name is replaced, or the package is added at the end. *)
Fixpoint replace_package (pkg : Package) (ps : list Package) : list Package :=
  match ps with
  | [] => [pkg]
  | p :: ps' => if decide (pkg_name p = pkg_name pkg) then pkg :: ps' else p :: replace_package pkg ps'
  end.

Definition named (essential : string) (p : Package) : bool :=
  bool_decide (pkg_name p = essential) || Str.ends_with essential (pkg_name p).

Definition keep_essential (current : list Package) (merged : list Package) (essential : string) : list Package :=
  if existsb (named essential) merged then merged
  else match list_find (λ p, named essential p = true) current with
       | Some (_, p) => merged ++ [p]
       | None => merged
       end.

Definition source_packages (current merged : list Package) (built : list (string * string)) : list Package :=
  let merged := foldl (λ ps e, replace_package (mkPackage e.1 "source" e.2) ps) merged built in
  foldl (keep_essential current) merged BOOT_ESSENTIAL.

Definition rebuild_from_source (cfg_path : string) (dry_run : bool) (cache_index_path cache_url : option string) : R unit :=
  config ← evaluate_config cfg_path;
  if is_some (rc_system_source config) then rebuild_native_system cfg_path config dry_run
  else
    let cache_path := default DEFAULT_CACHE_INDEX cache_index_path in
    let primary := cache_source_for_rebuild cache_path cache_url in
    let fallback := if is_remote primary then Some (local_cache_source_for_rebuild cache_path) else None in
    sources_path ← rlift (ok_or NoPackageSources (rc_package_sources config));
    t ← rtree;
    if negb (path_exists t (Path.components sources_path)) then rlift (Err NoPackageSources)
    else
      packages ← evaluate_package_sources sources_path;
      if decide (packages = []) then mret tt
      else if dry_run then mret tt
      else
        built ← build_source_packages packages sources_path;
        current ← current_manifest;
        t ← rtree;
        let cache_packages :=
          if has_package_changes config
          then match resolve_packages_with_fallback t (rc_packages config) primary fallback with Ok l => l | Err _ => [] end
          else [] in
        extract_packages cache_packages ;;
        merged ← rlift (of_config (merge_config blake3_hex current config (rp_package <$> cache_packages)));
        let merged := with_packages (source_packages (m_packages current) (m_packages merged) built) merged in
        switch_to ("/tmp/snix-source-rebuild-" +:+ pid +:+ ".json") merged
          ("source rebuild (" +:+ pretty (length built) +:+ " packages from " +:+ sources_path +:+ ")") (mret tt).

(** ** The bridge to the host ([bridge.rs]) *)
Section bridge.
(** What the host does to the shared directory before the [n]-th look *)
Context (host : nat → tree → list tree) (shared : string).

Definition generate_request_id : string := "rebuild-" +:+ pid.

(** [fuse_delay]: the marker is written and read, then removed *)
Fixpoint fuse_writes (n i : nat) (marker : path) : F unit :=
  match n with
  | O => mret tt
  | S n' => ignore (write_file marker (pretty i)) ;; fuse_writes n' (S i) marker
  end.

Definition fuse_delay (iterations : nat) : F unit :=
  let marker := Path.components (shared +:+ "/.poll-marker") in
  fuse_writes iterations 0 marker ;; ignore (remove_file marker).

Definition host_turn (n : nat) : F unit := λ s, (Ok tt, pass_through (host n (fs_tree s)) s).

(** What one look at the response says: the response, or how long to wait *)
Definition look t (p : path) : BridgeResponse + nat :=
  match read_file t p with
  | Ok content =>
      if negb (Str.utf8_valid content) then inr 3000%nat
      else if decide (content = "") then inr 600%nat
      else match bridge_response_from_json content with Some r => inl r | None => inr 1500%nat end
  | Err _ => inr 3000%nat
  end.

(** [poll_response]: [left] looks remain of the timeout, [n] have been made *)
Fixpoint poll_response (left n : nat) (p : path) : R BridgeResponse :=
  match left with
  | O => rlift (Err BridgeTimeout)
  | S left' =>
      on_fs (host_turn n) ;;
      t ← rtree;
      match look t p with
      | inl response => mret response
      | inr wait => on_fs (fuse_delay wait) ;; poll_response left' (S n) p
      end
  end.

(** [/nix/store/abc-kernel/boot/kernel] is in [/nix/store/abc-kernel] *)
Definition extract_store_dir (p : string) : string :=
  match Str.strip_prefix "/nix/store/" p with
  | Some rest => match Str.split_once "/" rest with Some (name, _) => "/nix/store/" +:+ name | None => p end
  | None => p
  end.

(** [fetch_local] of [local_cache.rs] *)
Definition fetch_local (store_path : string) (cache_path : string) : I unit :=
  match sp_hash store_path with
  | None => throw (FromCache (BadStorePath store_path))
  | Some _ =>
      here ← exists_path store_path;
      if here : bool then mret tt
      else
        ensure_store_dir ;;
        s ← get_state;
        let cache := Local (Path.components cache_path) in
        narinfo ← from_cache (fetch_narinfo (fs_tree (in_fs s)) cache store_path);
        decompressed ← from_cache (open_nar_decompressed (fs_tree (in_fs s)) cache narinfo);
        manifest ← Install.on_fs (extract_with_manifest (open_nar decompressed) store_path);
        if decide (read_hash decompressed = ni_nar_hash narinfo) then
          register_path_with_files now store_path (ni_nar_hash narinfo) (ni_nar_size narinfo)
            (ni_references narinfo) (ni_signatures narinfo) manifest
        else
          Install.on_fs (ignore (remove_dir_all (Path.components store_path))) ;;
          throw (NarHashMismatch (ni_nar_hash narinfo) (read_hash decompressed))
  end.

(** The store paths a manifest asks for: its packages', then its boot components' *)
Definition wanted_paths (m : Manifest) : list string :=
  List.filter (λ p, negb (bool_decide (p = ""))) (pkg_store_path <$> m_packages m)
  ++ match m_boot m with
     | Some boot => extract_store_dir <$> omap id [kernel boot; initfs boot; bootloader boot]
     | None => []
     end.

Fixpoint install_paths (cache_path : string) (ps : list string) : R unit :=
  match ps with
  | [] => mret tt
  | p :: ps' =>
      t ← rtree;
      (if path_exists t (Path.components p) then mret tt
       else _ ← on_install (fetch_local p cache_path); mret tt) ;;
      install_paths cache_path ps'
  end.

Definition install_bridge_packages (m : Manifest) (cache_path : string) : R unit :=
  install_paths cache_path (wanted_paths m).

Definition rebuild_via_bridge (cfg_path : string) (dry_run : bool) (timeout_s : nat) : R unit :=
  preserved ← preserved_config cfg_path;
  t ← rtree;
  if negb (path_exists t (Path.components shared)) then rlift (Err (NativeSystem "shared filesystem not available"))
  else
    config ← evaluate_config cfg_path;
    let request_id := generate_request_id in
    let req_dir := shared +:+ "/requests" in
    on_fs (create_dir_all (Path.components req_dir)) ;;
    if dry_run then mret tt
    else
      on_fs (write_file (Path.components (req_dir +:+ "/" +:+ request_id +:+ ".json"))
               (request_to_json request_id config)) ;;
      let resp_path := Path.components (shared +:+ "/responses/" +:+ request_id +:+ ".json") in
      response ← poll_response timeout_s 0 resp_path;
      if decide (bs_status response = "success") then
        new_manifest ← rlift (ok_or (HostBuildFailed "response missing manifest field") (bs_manifest response));
        install_bridge_packages new_manifest (shared +:+ "/cache") ;;
        switch_to ("/tmp/snix-bridge-" +:+ pid +:+ ".json") new_manifest "rebuild via bridge" (ignore (remove_file resp_path)) ;;
        match preserved with Some text => on_fs (preserve_active_config cfg_path text) | None => mret tt end
      else
        on_fs (ignore (remove_file resp_path)) ;;
        rlift (Err (HostBuildFailed (if decide (bs_status response = "error")
                                     then default "unknown build error" (bs_error response)
                                     else bs_status response))).

Definition bridge_available t : bool := is_dir t (Path.join (Path.components shared) [Normal "requests"]).

(** ** The route *)
Definition auto_rebuild (cfg_path : string) (dry_run : bool) (cache_index_path cache_url : option string) (timeout_s : nat)
    : R unit :=
  config ← evaluate_config cfg_path;
  s ← sr_get;
  let current := match load_manifest_from (s_manifest (m_sys s)) with Ok m => Some m | Err _ => None end in
  t ← rtree;
  route ← rlift (ok_or NoRoute (select_auto_rebuild_route config current (bridge_available t)));
  match route with
  | Native => rebuild_native_system cfg_path config dry_run
  | Bridge => rebuild_via_bridge cfg_path dry_run timeout_s
  | LocalRoute => rebuild cfg_path dry_run cache_index_path cache_url
  end.

End bridge.
End rebuild.
