(* ===== verification/BuildCommands.v ===== *)
(** * Builds asked for by hand ([build_flake_installable] of [flake.rs], [bridge_build.rs])

    A flake: its inputs are resolved and fetched, the expression is evaluated, its sources are
    published, and the derivation is built with all it needs.  Over the bridge: the host is asked
    to build an attribute or a derivation, and the outputs it names are fetched from the shared
    cache. *)

From S2P Require Import Prelude RustStd FileSys Nar PathInfo Store Calendar Manifest Generations Activate.
From S2P Require Import NarExtract StoreExtract NarDump CacheSource Install Switch RebuildConfig AllowList.
From S2P Require Import Fetchers LocalBuild EvalSources Channels FlakeLock Rebuild.

Open Scope Z_scope.

Section flake.
Context `{FL : FsLimits, SPL : StorePathLib, IJ : InfoJson, IOF : IoFaults, NC : NarCodec, FE : @FetchLib NC, NW : NarWriter,
  RS : ReferenceScanner, FK : FlakeLib}.
Context {SP : Type} `{Countable SP} {SPT : Allow.StorePathText SP} {BL : BuildLib SP} {PF : Platform SP}
  {RL : RebuildLib SP}.
Context (now : string).

Abbreviation R := (R SP).

Definition current_system : string := "x86_64-unknown-redox".

Definition on_flake (installable : Installable) : R (list ResolvedInput) := λ s,
  match resolve_flake installable (s_fs (m_sys s)) with
  | None => (Err RbDiverges, s)
  | Some (r, fs) => (match r with Ok a => Ok a | Err e => Err (RbFlake e) end, set_sys (set_fs fs (m_sys s)) s)
  end.

Definition build_flake_installable (installable : Installable) (no_sandbox : bool) : R BuildResult :=
  resolved_inputs ← on_flake installable;
  t ← rtree;
  let expr := build_flake_eval_expr t (flake_dir installable) resolved_inputs (attr_path installable) current_system in
  ev ← evaluate_for_build now ("(" +:+ expr +:+ ").drvPath");
  drv_path ← rlift (ok_or NotADerivation (parse_store_path (Str.trim_matches quote (ev_value ev))));
  on_build (build_needed_with_options (ev_known ev) now no_sandbox drv_path).

End flake.

(** ** Builds over the bridge ([bridge_build.rs]) *)
Definition DEFAULT_SHARED_DIR : string := "/scheme/shared".
Definition DEFAULT_TIMEOUT_POLLS : nat := 300.

Record DrvBuildRequest : Type := mkDrvBuildRequest {
  bq_request_type : string;
  bq_request_id : string;
  bq_attr : option string;
  bq_drv_aterm : option string;
  bq_drv_name : option string;
  bq_expected_outputs : gmap string string;
}.

Record DrvBuildResponse : Type := mkDrvBuildResponse {
  bp_status : string;
  bp_request_id : string;
  bp_outputs : gmap string string;
  bp_error : option string;
  bp_build_time_ms : option Z;
}.

Inductive BridgeBuildError : Type :=
  | SharedNotAvailable
  | BbIo (e : io_error)
  | AtermNotUtf8
  | TimedOut
  | BridgeBuildFailed (what : string)
  | UnexpectedStatus (status : string)
  | BbFetch (e : InstallError).

(** [serde_json], and a derivation as text, as its file has it and as its store path is shown *)
Class BridgeBuildLib (SP : Type) : Type := {
  drv_request_to_json : DrvBuildRequest → string;
  drv_response_from_json : string → option DrvBuildResponse;
  to_aterm_bytes : @Allow.Derivation SP → string;
  sp_show : SP → string;
}.

Definition BB (A : Type) : Type := SR installation BridgeBuildError A.
#[export] Instance BB_ret : MRet BB := SR_ret installation BridgeBuildError.
#[export] Instance BB_bind : MBind BB := SR_bind installation BridgeBuildError.

Definition bb_fs {A} (m : F A) : BB A := λ s,
  let '(r, fs) := m (in_fs s) in
  (match r with Ok a => Ok a | Err e => Err (BbIo e) end, mkInstallation fs (in_db s) (in_roots s) (in_sent s)).
Definition bb_fetch {A} (m : I A) : BB A := λ s,
  let '(r, s) := m s in (match r with Ok a => Ok a | Err e => Err (BbFetch e) end, s).
Definition bb_fail {A} (e : BridgeBuildError) : BB A := λ s, (Err e, s).
Definition bb_tree : BB tree := λ s, (Ok (fs_tree (in_fs s)), s).

(** A character outside of ASCII is one underscore. *)
Fixpoint safe_name (name : string) : string :=
  match name with
  | EmptyString => ""
  | String c name' =>
      let b := Str.byte c in
      if decide (48 ≤ b ≤ 57 ∨ 65 ≤ b ≤ 90 ∨ 97 ≤ b ≤ 122 ∨ b = 45)%N then String c (safe_name name')
      else if decide (128 ≤ b < 192)%N then safe_name name'
      else String "_" (safe_name name')
  end.

Section bridge_build.
Context `{FL : FsLimits, SPL : StorePathLib, IJ : InfoJson, MJ : ManifestJson, IOF : IoFaults, NC : NarCodec, CL : CacheLib}.
Context {SP : Type} {SPT : Allow.StorePathText SP} {BL : BridgeBuildLib SP}.
(** The clock, the process number, and what the host does before each look at its response *)
Context (now pid : string) (host : nat → tree → list tree).

Definition verify_shared_dir (shared : string) : BB unit :=
  t ← bb_tree;
  if path_exists t (Path.components shared) then mret tt else bb_fail SharedNotAvailable.

Definition generate_build_id (name : string) : string := "build-" +:+ safe_name name +:+ "-" +:+ pid.

Definition bb_delay (shared : string) (iterations : nat) : F unit :=
  let marker := Path.components (shared +:+ "/.build-poll-marker") in
  fuse_writes iterations 0 marker ;; FileSys.ignore (remove_file marker).

Definition response_at t (p : path) : option DrvBuildResponse :=
  match read_file t p with
  | Ok content => if Str.utf8_valid content && negb (bool_decide (content = "")) then drv_response_from_json content else None
  | Err _ => None
  end.

(** [left] looks remain, [n] have been made *)
Fixpoint bb_poll (shared : string) (req_path resp_path : path) (left n : nat) : BB DrvBuildResponse :=
  match left with
  | O => bb_fs (FileSys.ignore (remove_file req_path)) ;; bb_fail TimedOut
  | S left' =>
      bb_fs (host_turn host n) ;;
      t ← bb_tree;
      match response_at t resp_path with
      | Some response => bb_fs (FileSys.ignore (remove_file resp_path)) ;; mret response
      | None => bb_fs (bb_delay shared 3000) ;; bb_poll shared req_path resp_path left' (S n)
      end
  end.

Definition send_and_wait (shared request_id : string) (request : DrvBuildRequest) (timeout_polls : nat) : BB DrvBuildResponse :=
  let req_dir := shared +:+ "/requests" in
  let resp_dir := shared +:+ "/responses" in
  bb_fs (create_dir_all (Path.components req_dir)) ;;
  bb_fs (create_dir_all (Path.components resp_dir)) ;;
  let req_path := Path.components (req_dir +:+ "/" +:+ request_id +:+ ".json") in
  bb_fs (write_file req_path (drv_request_to_json request)) ;;
  bb_poll shared req_path (Path.components (resp_dir +:+ "/" +:+ request_id +:+ ".json")) timeout_polls 0.

Definition build_attr_via_bridge (attr : string) (shared_dir : option string) (timeout_polls : option nat) : BB DrvBuildResponse :=
  let shared := default DEFAULT_SHARED_DIR shared_dir in
  verify_shared_dir shared ;;
  let request_id := generate_build_id attr in
  send_and_wait shared request_id (mkDrvBuildRequest "build-attr" request_id (Some attr) None None ∅)
    (default DEFAULT_TIMEOUT_POLLS timeout_polls).

Definition expected_outputs (drv : @Allow.Derivation SP) : gmap string string :=
  list_to_map (omap (λ o, (λ p, (o.1, Allow.to_absolute_path p)) <$> o.2) (Allow.outputs drv)).

Definition strip_drv (s : string) : string :=
  if Str.ends_with ".drv" s then String.substring 0 (String.length s - 4) s else s.

Definition build_drv_via_bridge (drv : @Allow.Derivation SP) (drv_path : SP) (shared_dir : option string)
    (timeout_polls : option nat) : BB DrvBuildResponse :=
  let shared := default DEFAULT_SHARED_DIR shared_dir in
  verify_shared_dir shared ;;
  let aterm := to_aterm_bytes drv in
  if Str.utf8_valid aterm then
    let name := strip_drv (sp_show drv_path) in
    let request_id := generate_build_id name in
    send_and_wait shared request_id
      (mkDrvBuildRequest "build-drv" request_id None (Some aterm) (Some name) (expected_outputs drv))
      (default DEFAULT_TIMEOUT_POLLS timeout_polls)
  else bb_fail AtermNotUtf8.

Fixpoint fetch_outputs (cache_path : string) (ps : list string) : BB unit :=
  match ps with
  | [] => mret tt
  | store_path :: ps' =>
      t ← bb_tree;
      (if path_exists t (Path.components store_path) then mret tt else bb_fetch (fetch_local now store_path cache_path)) ;;
      fetch_outputs cache_path ps'
  end.

Definition fetch_bridge_outputs (response : DrvBuildResponse) (shared_dir : option string) : BB unit :=
  fetch_outputs (default DEFAULT_SHARED_DIR shared_dir +:+ "/cache") (BTree.values (bp_outputs response)).

Definition handle_response (response : DrvBuildResponse) (shared_dir : option string) : BB unit :=
  if decide (bp_status response = "success") then fetch_bridge_outputs response shared_dir
  else if decide (bp_status response = "error") then bb_fail (BridgeBuildFailed (default "unknown build error" (bp_error response)))
  else bb_fail (UnexpectedStatus (bp_status response)).

(** [run], with an attribute, or once an expression has been evaluated to a derivation *)
Definition run_bridge_build (what : string + (@Allow.Derivation SP) * SP) (shared_dir : option string)
    (timeout : option nat) : BB unit :=
  response ← match what with
             | inl attr => build_attr_via_bridge attr shared_dir timeout
             | inr (drv, drv_path) => build_drv_via_bridge drv drv_path shared_dir timeout
             end;
  handle_response response shared_dir.


(** *** What a bridge build that succeeds has done *)
Lemma bb_poll_read shared req_path resp_path left n s response s' :
  bb_poll shared req_path resp_path left n s = (Ok response, s') →
  ∃ s1, response_at (fs_tree (in_fs s1)) resp_path = Some response.
Proof.
  revert n s. induction left as [|left IH]; intros n s E.
  - cbn [bb_poll] in E. by apply sr_bind_ok in E as (u & s1 & _ & E).
  - cbn [bb_poll] in E. apply sr_bind_ok in E as (u & s1 & _ & E). apply sr_bind_ok in E as (t & s2 & [= <- <-] & E).
    destruct (response_at _ resp_path) as [found|] eqn:El.
    + apply sr_bind_ok in E as (u' & s3 & _ & [= <- _]). by exists s1.
    + apply sr_bind_ok in E as (u' & s3 & _ & E). by apply IH in E.
Qed.

(** An output is there, or was fetched. *)
Definition delivered (cache_path store_path : string) : Prop :=
  ∃ s1, path_exists (fs_tree (in_fs s1)) (Path.components store_path) = true
        ∨ ∃ s2, fetch_local now store_path cache_path s1 = (Ok tt, s2).

Lemma fetch_outputs_ok cache_path ps s s' :
  fetch_outputs cache_path ps s = (Ok tt, s') → Forall (delivered cache_path) ps.
Proof.
  revert s. induction ps as [|p ps IH]; intros s E; [done|]. cbn [fetch_outputs] in E.
  apply sr_bind_ok in E as (t & s1 & [= <- <-] & E). apply sr_bind_ok in E as (u & s2 & E1 & E).
  constructor; [|by eapply IH]. exists s. destruct (path_exists _ _) eqn:Ex; [by left|right].
  unfold bb_fetch in E1. destruct (fetch_local now p cache_path s) as [[[]|e] s3] eqn:Ef; [|done]. by exists s3.
Qed.

(** A build over the bridge that succeeds was answered with success in the file of its own request, and
    each output the host has named was there or was fetched from the shared cache. *)
Lemma bridge_build_delivers what shared_dir timeout s s' :
  run_bridge_build what shared_dir timeout s = (Ok tt, s') →
  let shared := default DEFAULT_SHARED_DIR shared_dir in
  let name := match what with inl attr => attr | inr (_, drv_path) => strip_drv (sp_show drv_path) end in
  ∃ response s1,
    response_at (fs_tree (in_fs s1)) (Path.components (shared +:+ "/responses/" +:+ generate_build_id name +:+ ".json")) = Some response
    ∧ bp_status response = "success"
    ∧ Forall (delivered (shared +:+ "/cache")) (BTree.values (bp_outputs response)).
Proof.
  intros E shared name. apply sr_bind_ok in E as (response & s1 & E1 & E). exists response.
  assert (∃ id request k s2, id = generate_build_id name ∧ send_and_wait shared id request k s2 = (Ok response, s1)) as
    (id & request & k & s2 & -> & E2).
  { destruct what as [attr|[drv drv_path]]; apply sr_bind_ok in E1 as (u & s2 & _ & E1); [by do 4 eexists|].
    cbv zeta in E1. destruct (Str.utf8_valid _); [by do 4 eexists|done]. }
  unfold send_and_wait in E2. cbv zeta in E2.
  do 3 (apply sr_bind_ok in E2 as (? & ? & _ & E2)). apply bb_poll_read in E2 as [s3 E2]. exists s3.
  rewrite !Str.app_assoc in E2. split; [exact E2|]. unfold handle_response in E.
  destruct (decide (bp_status response = "success")); [|by case_decide]. split; [done|]. by eapply fetch_outputs_ok.
Qed.
End bridge_build.
