(* ===== verification/Upgrade.v ===== *)
(** * Upgrading from a channel ([upgrade] of [system.rs])

    The channel is updated, or its last manifest is used; the packages that are new are fetched
    from the caches; the switch is the one of a rebuild. *)

From S2P Require Import Prelude RustStd FileSys Nar PathInfo Store Calendar Manifest Generations Activate.
From S2P Require Import NarExtract StoreExtract NarDump CacheSource Install DirectCache Switch RebuildConfig.
From S2P Require Import AllowList Fetchers LocalBuild EvalSources Channels Rebuild.

Open Scope Z_scope.

Section upgrade.
Context `{FL : FsLimits, SPL : StorePathLib, IJ : InfoJson, MJ : ManifestJson, IOF : IoFaults, TF : TreeFaults,
  SJ : SystemJson, GF : GenFaults, NC : NarCodec, FE : @FetchLib NC, NW : NarWriter, RS : ReferenceScanner,
  CL : CacheLib, PJ : InstallJson, DM : Daemons, CJ : ConfigJson, CH : ChannelLib}.
Context {SP : Type} `{Countable SP} {SPT : Allow.StorePathText SP} {BL : BuildLib SP} {PF : Platform SP}
  {RL : RebuildLib SP}.
Context (clock : option Z) (now : string) (blake3_hex : string → string) (run_sh : path → fsys → script_result * fsys).

Abbreviation R := (R SP).

Definition of_channel {A} (r : result ChannelError A) : result RebuildError A :=
  match r with Ok a => Ok a | Err e => Err (RbChannel e) end.

(** [channel::update], of which only success is looked at *)
Definition try_update (name : string) : R bool := λ s,
  let '(r, fs) := Channel.update now name (s_fs (m_sys s)) in (Ok (is_ok r), set_sys (set_fs fs (m_sys s)) s).

(** The packages that are not in the store and not in the current manifest *)
Definition needed_packages t (current new : Manifest) : list Package :=
  List.filter (λ p, negb (bool_decide (pkg_store_path p = ""))
                    && negb (path_exists t (Path.components (pkg_store_path p)))
                    && negb (bool_decide (pkg_store_path p ∈ (pkg_store_path <$> m_packages current)))) (m_packages new).

(** Three caches in turn: the channel's own index, the one of the machine, the remote one *)
Fixpoint fetch_needed (index_path : option path) (cache_url : option string) (ps : list Package) : R unit :=
  match ps with
  | [] => mret tt
  | pkg :: ps' =>
      let p := pkg_store_path pkg in
      done ← match index_path with
             | Some idx =>
                 let cache_dir := default (Path.components "/nix/cache") (Path.parent idx) in
                 on_install (fetch_local now p (Path.to_string cache_dir))
             | None => mret false
             end;
      done ← (if done : bool then mret true else on_install (fetch_local now p "/nix/cache"));
      (if done : bool then mret tt
       else match cache_url with
            | Some url => _ ← on_install (fetch now p url); mret tt
            | None => mret tt
            end) ;;
      fetch_needed index_path cache_url ps'
  end.

Definition fetch_upgrade_packages (current new : Manifest) (name : string) : R unit :=
  t ← rtree;
  let needed := needed_packages t current new in
  if decide (needed = []) then mret tt
  else fetch_needed (Channel.get_packages_index_path t name) (Channel.get_cache_url t name) needed.

Definition upgrade (channel_name : option string) (dry_run : bool) : R unit :=
  t ← rtree;
  name ← rlift (of_channel (match channel_name with Some n => Ok n | None => Channel.default_channel t end));
  updated ← try_update name;
  t ← rtree;
  (if updated : bool then mret tt else _ ← rlift (of_channel (Channel.get_manifest_path t name)); mret tt) ;;
  current ← current_manifest;
  new_manifest_path ← rlift (of_channel (Channel.get_manifest_path t name));
  new_manifest ← rlift (match load_manifest_from (file_at t new_manifest_path) with Ok m => Ok m | Err e => Err (RbGen e) end);
  let hash := gi_build_hash (m_generation current) in
  if plan_is_empty (plan t current new_manifest)
     && bool_decide (hash = gi_build_hash (m_generation new_manifest)) && negb (bool_decide (hash = ""))
  then mret tt
  else if dry_run then mret tt
  else
    fetch_upgrade_packages current new_manifest name ;;
    switch_to clock blake3_hex run_sh ("/tmp/snix-upgrade-" +:+ pid +:+ ".json") new_manifest
      ("upgrade from channel '" +:+ name +:+ "'") (mret tt).

End upgrade.
