(* ===== verification/RunHistory.v ===== *)
(** * The past of the disk in imports, installations, channels and builds

    Whatever these computations do, the trees the disk has gone through before stay in its
    past: the instances of this for each of them, for the theorems on rebuilds. *)

From S2P Require Import Prelude RustStd FileSys FileSysFacts Nar PathInfo Store NarExtract StoreExtract.
From S2P Require Import NarDump CacheSource AllowList Install InstallFacts DirectCache Fetchers LocalBuild.
From S2P Require Import BuildOrder BuildFacts EvalSources Channels Rebuild.

Open Scope Z_scope.

(** ** Imports *)
Section imports.
Context `{FL : FsLimits, SPL : StorePathLib, IJ : InfoJson, IOF : IoFaults}.

Definition import_kept {A : Type} (m : M A) : Prop := ∀ s r s', m s = (r, s') → after (im_fs s) (im_fs s').

Lemma import_ret {A : Type} (a : A) : import_kept (mret a : M A).
Proof. intros s r s' [= _ <-]. apply after_refl. Qed.
Lemma import_lift {A : Type} (r : result ImportError A) : import_kept (mlift r).
Proof. intros s r' s' [= _ <-]. apply after_refl. Qed.
Lemma import_get : import_kept (sr_get : M imports).
Proof. intros s r s' [= _ <-]. apply after_refl. Qed.
Lemma import_next : import_kept next_import.
Proof. intros s r s' [= _ <-]. apply after_refl. Qed.

Lemma import_bind {A B : Type} (m : M A) (f : A → M B) : import_kept m → (∀ a, import_kept (f a)) → import_kept (m ≫= f).
Proof.
  intros Hm Hf s r s' E. unfold mbind, M_bind, SR_bind in E. destruct (m s) as [[a|e] s1] eqn:E1.
  - eapply after_trans; [by eapply Hm|by eapply Hf].
  - injection E as _ <-. by eapply Hm.
Qed.

Lemma import_io {A : Type} (m : F A) : kept m → import_kept (mio m).
Proof. intros Hm s r s' E. unfold mio in E. destruct (m (im_fs s)) as [x fs] eqn:E1. injection E as _ <-. by eapply Hm. Qed.

Lemma import_db {A : Type} (m : directory → result PathInfoError A * directory) : import_kept (mdb m).
Proof. intros s r s' E. unfold mdb in E. destruct (m (im_db s)). injection E as _ <-. apply after_refl. Qed.

Lemma kept_rename (a c : path) : kept (rename a c).
Proof. unfold rename. keeps. Qed.

Lemma kept_mkdir_mode mode (p : path) : kept (mkdir_mode mode p).
Proof. unfold mkdir_mode. keeps. Qed.

Lemma kept_write_loop fuel pending : kept (write_loop fuel pending).
Proof.
  revert pending. induction fuel as [|fuel IH]; intros [|[p node] pending]; cbn [write_loop]; [apply stays_ret|apply stays_fail|apply stays_ret|].
  apply stays_bind; [|intros ch; apply IH]. unfold write_one.
  assert (Hw := kept_write_file). assert (Hm := kept_mkdir). assert (Hs := kept_symlink). assert (Hc := kept_set_permissions). keeps.
Qed.

Lemma kept_stage (staging destination : path) node : kept (stage staging destination node).
Proof.
  unfold stage. apply stays_bind; [apply kept_mkdir_mode|]. intros _. cbv zeta.
  apply stays_bind.
  { apply stays_attempt. apply stays_bind; [apply kept_write_loop|]. intros _. apply stays_catch; [apply kept_rename|]. keeps. }
  intros result. apply stays_bind; [apply stays_attempt, kept_remove_dir_all|]. keeps.
Qed.

Section publish.
Context {SP : Type} {SPT : Allow.StorePathText SP}.

Lemma import_sources sp_text (info : SP → result io_error (option (UpstreamInfo SP))) pid now root sources :
  import_kept (materialize_input_sources sp_text info pid now root sources).
Proof.
  induction sources as [|source sources IH]; cbn [materialize_input_sources]; [apply import_ret|].
  apply import_bind; [|done]. unfold publish_source. cbv zeta. apply import_bind; [apply import_get|]. intros s.
  apply import_bind; [apply import_lift|]. intros present. destruct (_ && _); [apply import_ret|].
  apply import_bind; [apply import_lift|]. intros [up|]; [|destruct present; [apply import_ret|apply import_lift]].
  apply import_bind; [|intros _; apply import_db]. destruct present; [apply import_ret|].
  apply import_bind; [apply import_io, kept_create_dir_all|]. intros _. apply import_bind; [apply import_next|].
  intros id. apply import_io, kept_stage.
Qed.
End publish.
End imports.

(** ** Installations *)
Section installs.
Context `{FL : FsLimits, SPL : StorePathLib, IJ : InfoJson, MJ : ManifestJson, IOF : IoFaults, NC : NarCodec, CL : CacheLib}.

Definition install_kept {A : Type} (m : I A) : Prop := ∀ s r s', m s = (r, s') → after (in_fs s) (in_fs s').

Lemma install_ret {A : Type} (a : A) : install_kept (mret a : I A).
Proof. intros s r s' [= _ <-]. apply after_refl. Qed.
Lemma install_throw {A : Type} e : install_kept (throw e : I A).
Proof. intros s r s' [= _ <-]. apply after_refl. Qed.
Lemma install_get : install_kept get_state.
Proof. intros s r s' [= _ <-]. apply after_refl. Qed.
Lemma install_exists p : install_kept (exists_path p).
Proof. intros s r s' [= _ <-]. apply after_refl. Qed.
Lemma install_cache {A : Type} (r : result CacheError A) : install_kept (from_cache r).
Proof. intros s r' s' [-> _]%from_cache_inv. apply after_refl. Qed.

Lemma install_bind {A B : Type} (m : I A) (f : A → I B) : install_kept m → (∀ a, install_kept (f a)) → install_kept (m ≫= f).
Proof.
  intros Hm Hf s r s' E. unfold mbind, I_bind, SR_bind in E. destruct (m s) as [[a|e] s1] eqn:E1.
  - eapply after_trans; [by eapply Hm|by eapply Hf].
  - injection E as _ <-. by eapply Hm.
Qed.

Lemma install_fs {A : Type} (m : F A) : kept m → install_kept (Install.on_fs m).
Proof. intros Hm s r s' (_ & _ & _ & r0 & E & _)%on_fs_run. by eapply Hm. Qed.

Lemma install_db {A : Type} (m : directory → result PathInfoError A * directory) : install_kept (Install.on_db m).
Proof. intros s r s' E. unfold Install.on_db in E. destruct (m (in_db s)) as [[a|e] db]; injection E as _ <-; apply after_refl. Qed.
End installs.

Create HintDb installs.
#[export] Hint Resolve install_ret install_throw install_get install_exists install_cache install_fs install_db
  kept_create_dir_all kept_remove_dir_all stays_ignore kept_extract_node : installs.

Ltac installs :=
  repeat first
    [ done
    | progress intros
    | solve [eauto with installs]
    | apply install_bind
    | match goal with |- context [match ?x with _ => _ end] => destruct x end ].

Section fetches.
Context `{FL : FsLimits, SPL : StorePathLib, IJ : InfoJson, MJ : ManifestJson, IOF : IoFaults, NC : NarCodec, CL : CacheLib}.

Lemma kept_extract_with (node : result io_error nar) dest : kept (extract_with_manifest node dest).
Proof. unfold extract_with_manifest. apply stays_bind; [apply stays_lift|]. intros n. apply kept_extract_node. Qed.

Lemma install_ensure : install_kept ensure_store_dir.
Proof. unfold ensure_store_dir. installs. Qed.

Lemma install_fetch_and_extract now p source : install_kept (fetch_and_extract now p source).
Proof.
  assert (He := install_ensure). assert (Hx := kept_extract_with).
  unfold fetch_and_extract, register_path_with_files. installs.
Qed.

Lemma install_fetch_local now p cache : install_kept (fetch_local now p cache).
Proof.
  assert (He := install_ensure). assert (Hx := kept_extract_with).
  unfold fetch_local, register_path_with_files. installs.
Qed.

Lemma install_fetch now p url : install_kept (fetch now p url).
Proof.
  assert (He := install_ensure). assert (Hx : ∀ node dest, kept (extract node dest)).
  { intros node dest. apply stays_bind; [apply kept_extract_with|]. intros _. apply stays_ret. }
  unfold fetch, fetch_inner, register_path_from_info. installs.
Qed.

(** A package that is fetched directly is unpacked and verified, but not in the database. *)
Lemma fetch_unregistered now p url s r s' :
  fetch now p url s = (r, s') → in_db s' = in_db s ∧ in_roots s' = in_roots s.
Proof.
  unfold fetch, fetch_inner, mbind, I_bind, SR_bind, throw, exists_path. destruct (sp_hash p); [|by intros [= _ <-]].
  destruct (path_exists _ _); [by intros [= _ <-]|].
  destruct (ensure_store_dir s) as [[[]|e] s1] eqn:E1; apply ensure_store_dir_run in E1 as (D1 & R1 & _); [|by intros [= _ <-]].
  destruct (from_cache _ s1) as [[ni|e] s2] eqn:E2; apply from_cache_inv in E2 as [-> _]; [|by intros [= _ <-]].
  destruct (from_cache _ s1) as [[st|e] s2] eqn:E3; apply from_cache_inv in E3 as [-> _]; [|by intros [= _ <-]].
  destruct (Install.on_fs _ s1) as [[[]|e] s2] eqn:E4; apply on_fs_run in E4 as (D2 & R2 & _);
    [|intros [= _ <-]; split; congruence].
  case_decide; [intros [= _ <-]; split; congruence|].
  destruct (Install.on_fs _ s2) as [[[]|e'] s3] eqn:E5; apply on_fs_run in E5 as (D3 & R3 & _); intros [= _ <-]; split; congruence.
Qed.
End fetches.

(** ** Channels and builds *)
Lemma channel_kept `{FL : FsLimits, CH : ChannelLib} now name : stays_cm (λ _, True) (Channel.update now name).
Proof.
  assert (Hw : ∀ p text, stays_cm (λ _ : tree, True) (cio (write_file p text))) by (intros; apply stays_cio, kept_write_file).
  unfold Channel.update. apply stays_ctree. intros t. destruct (negb _); [apply stays_clift|].
  apply stays_cbind; [apply stays_clift|]. intros text. cbv zeta. apply stays_cbind; [apply stays_clift|]. intros body.
  apply stays_cbind; [apply Hw|]. intros _. apply stays_cbind; [apply Hw|]. intros _.
  destruct (Channel.get_packages _); [apply Hw|]. intros s r s' _ [= _ <-]. apply run_in_refl.
Qed.

Lemma build_after `{FL : FsLimits, SPL : StorePathLib, IJ : InfoJson, IOF : IoFaults, NC : NarCodec}
    `{FE : @FetchLib NC} `{NW : NarWriter, RS : ReferenceScanner} {SP : Type} `{Countable SP}
    {SPT : Allow.StorePathText SP} {BL : BuildLib SP} {PF : Platform SP}
    (known : gmap SP (@Allow.Derivation SP)) now target (s : builds SP) r s' :
  build_needed known now target s = (r, s') → after (b_fs s) (b_fs s').
Proof.
  intros E. unfold build_needed, build_needed_with_options in E.
  apply bind_inv in E as [(order & s1 & E1 & E)|(e & E1 & ->)]; injection E1 as _ <-; [|apply after_refl].
  assert (Hl : ∀ x s1, build_loop known now false target order None s = (x, s1) → after (b_fs s) (b_fs s1)).
  { intros x s1 [A _]%(loop_spec known now false target order []); [done|by intros ? ?%elem_of_nil]. }
  apply bind_inv in E as [(res & s1 & E2 & E)|(e & E2 & ->)]; apply Hl in E2; [|done]. by injection E as _ <-.
Qed.
