(* ===== verification/RebuildRun.v ===== *)
(** * Rebuilding the system: theorems

    Whatever the route of a rebuild, the generation changes only by one switch, to a manifest the
    route has approved, after everything has been evaluated and built. *)

From S2P Require Import Prelude RustStd FileSys FileSysFacts Nar PathInfo Store Calendar Manifest Generations.
From S2P Require Import Activate NarExtract StoreExtract NarDump CacheSource Install InstallFacts Instances.
From S2P Require Import ManifestInstances GenDelete GenSwitch Switch RebuildConfig AllowList Fetchers.
From S2P Require Import LocalBuild BuildFacts BuildDemo EvalSources Channels DirectCache Rebuild.
From S2P Require Import Upgrade RunHistory.

Open Scope Z_scope.

Section run.
Context `{FL : FsLimits, SPL : StorePathLib, IJ : InfoJson, MJ : ManifestJson, IOF : IoFaults, TF : TreeFaults,
  SJ : SystemJson, GF : GenFaults, NC : NarCodec, FE : @FetchLib NC, NW : NarWriter, RS : ReferenceScanner,
  CL : CacheLib, PJ : InstallJson, DM : Daemons, CJ : ConfigJson}.
Context {SP : Type} `{Countable SP} {SPT : Allow.StorePathText SP} {BL : BuildLib SP} {PF : Platform SP}
  {RL : RebuildLib SP}.
Implicit Types (s : machine SP).

(** What says which generation the system is in *)
Definition generation_state (sys : Sys) :=
  (s_gens sys, s_manifest sys, s_link sys, s_boot sys).

Definition same_generation s s' : Prop := generation_state (m_sys s') = generation_state (m_sys s).

(** The run has gone on, in the same generation. *)
Definition goes_on s s' : Prop := same_generation s s' ∧ after (s_fs (m_sys s)) (s_fs (m_sys s')).

(** And has changed neither the database nor the roots, and started no builder *)
Definition same_store s s' : Prop := goes_on s s' ∧ s_disk (m_sys s') = s_disk (m_sys s) ∧ m_ran s' = m_ran s.

Lemma goes_on_refl s : goes_on s s.
Proof. split; [done|apply after_refl]. Qed.

Lemma goes_on_trans s1 s2 s3 : goes_on s1 s2 → goes_on s2 s3 → goes_on s1 s3.
Proof. intros [G1 A1] [G2 A2]. split; [by etrans|by eapply after_trans]. Qed.

Lemma same_store_refl s : same_store s s.
Proof. split; [apply goes_on_refl|done]. Qed.

Lemma same_store_trans s1 s2 s3 : same_store s1 s2 → same_store s2 s3 → same_store s1 s3.
Proof. intros (G1 & D1 & R1) (G2 & D2 & R2). split; [by eapply goes_on_trans|]. split; congruence. Qed.

Definition steady {A : Type} (c : R SP A) : Prop := ∀ s r s', c s = (r, s') → goes_on s s'.
Definition idle {A : Type} (c : R SP A) : Prop := ∀ s r s', c s = (r, s') → same_store s s'.

Lemma rbind_inv {A B : Type} (c : R SP A) (f : A → R SP B) s r s' :
  (c ≫= f) s = (r, s') → (∃ a s1, c s = (Ok a, s1) ∧ f a s1 = (r, s')) ∨ (∃ e, c s = (Err e, s') ∧ r = Err e).
Proof.
  unfold mbind, R_bind, SR_bind. destruct (c s) as [[a|e] s1]; [intros E; left; by exists a, s1|].
  intros [= <- <-]. right. by exists e.
Qed.

Lemma steady_bind {A B : Type} (c : R SP A) (f : A → R SP B) : steady c → (∀ a, steady (f a)) → steady (c ≫= f).
Proof.
  intros Hc Hf s r s' [(a & s1 & E1 & E)|(e & E1 & _)]%rbind_inv; [|by eapply Hc].
  eapply goes_on_trans; [by eapply Hc|by eapply Hf].
Qed.

Lemma idle_bind {A B : Type} (c : R SP A) (f : A → R SP B) : idle c → (∀ a, idle (f a)) → idle (c ≫= f).
Proof.
  intros Hc Hf s r s' [(a & s1 & E1 & E)|(e & E1 & _)]%rbind_inv; [|by eapply Hc].
  eapply same_store_trans; [by eapply Hc|by eapply Hf].
Qed.

Lemma idle_steady {A : Type} (c : R SP A) : idle c → steady c.
Proof. intros Hc s r s' E. by apply (Hc _ _ _ E). Qed.

Lemma idle_ret {A : Type} (a : A) : idle (mret a : R SP A).
Proof. intros s r s' [= _ <-]. apply same_store_refl. Qed.
Lemma idle_lift {A : Type} (r : result RebuildError A) : idle (rlift r : R SP A).
Proof. intros s r' s' [= _ <-]. apply same_store_refl. Qed.
Lemma idle_tree : idle (rtree : R SP tree).
Proof. intros s r s' [= _ <-]. apply same_store_refl. Qed.
Lemma idle_get : idle (sr_get : R SP (machine SP)).
Proof. intros s r s' [= _ <-]. apply same_store_refl. Qed.

Lemma after_pass seen fs : after fs (pass_through seen fs).
Proof. destruct seen as [|t seen]; [apply after_refl|]. exists (t :: seen). split; [done|]. by apply Forall_true. Qed.

Lemma same_store_fs s fs : after (s_fs (m_sys s)) fs → same_store s (set_sys (set_fs fs (m_sys s)) s).
Proof. intros A. split; [|done]. by split. Qed.

Lemma idle_evaluate {A : Type} (f : tree → option A * list tree) : idle (evaluate f : R SP A).
Proof.
  intros s r s' E. unfold evaluate in E. destruct (f _) as [x seen]. injection E as _ <-. apply same_store_fs, after_pass.
Qed.

Lemma idle_fs {A : Type} (c : F A) : kept c → idle (on_fs c : R SP A).
Proof.
  intros Hc s r s' E. unfold on_fs in E. destruct (c _) as [x fs] eqn:E1. injection E as _ <-.
  apply same_store_fs. by eapply Hc.
Qed.

Lemma idle_current : idle (current_manifest : R SP Manifest).
Proof.
  intros s r s' E. unfold current_manifest, on_gen, mbind, G_bind, SR_bind, sr_get, sr_lift in E. simpl in E.
  injection E as _ <-. destruct s as [[] ? ? ?]. apply same_store_refl.
Qed.

Lemma steady_import (c : M unit) : import_kept c → steady (on_import c : R SP unit).
Proof.
  intros Hc s r s' E. unfold on_import in E. destruct (c _) as [x i] eqn:E1. injection E as _ <-.
  apply Hc in E1. by split.
Qed.
Lemma steady_build known now drv : steady (on_build (build_needed known now drv)).
Proof.
  intros s r s' E. unfold on_build in E. destruct (build_needed _ _ _ _) as [x b] eqn:E1. injection E as _ <-.
  apply build_after in E1. by split.
Qed.
Lemma steady_install {A : Type} (c : I A) : install_kept c → steady (on_install c : R SP bool).
Proof.
  intros Hc s r s' E. unfold on_install in E. destruct (c _) as [x i] eqn:E1. injection E as _ <-.
  apply Hc in E1. by split.
Qed.
End run.

Create HintDb steady.
#[export] Hint Resolve idle_ret idle_lift idle_tree idle_get idle_evaluate idle_fs idle_current idle_steady steady_import
  steady_build steady_install kept_write_file kept_create_dir_all kept_remove_file kept_remove_dir_all stays_ignore
  stays_catch import_sources install_fetch install_fetch_local install_fetch_and_extract : steady.

Ltac steadies :=
  repeat first
    [ done
    | progress intros
    | solve [eauto with steady]
    | apply idle_bind
    | apply steady_bind
    | match goal with |- context [match ?x with _ => _ end] => destruct x end ].

Section outcome.
Context `{FL : FsLimits, SPL : StorePathLib, IJ : InfoJson, MJ : ManifestJson, IOF : IoFaults, TF : TreeFaults,
  SJ : SystemJson, GF : GenFaults, NC : NarCodec, FE : @FetchLib NC, NW : NarWriter, RS : ReferenceScanner,
  CL : CacheLib, PJ : InstallJson, DM : Daemons, CJ : ConfigJson, CH : ChannelLib}.
Context {SP : Type} `{Countable SP} {SPT : Allow.StorePathText SP} {BL : BuildLib SP} {PF : Platform SP}
  {RL : RebuildLib SP}.
Context (clock : option Z) (now : string) (blake3_hex : string → string) (run_sh : path → fsys → script_result * fsys).
Implicit Types (s : machine SP) (config : RebuildConfig) (m : Manifest).

Lemma idle_config p : idle (evaluate_config p : R SP RebuildConfig).
Proof. unfold evaluate_config. steadies. Qed.

Lemma idle_preserved p : idle (preserved_config p : R SP (option string)).
Proof. unfold preserved_config. steadies. Qed.

Lemma kept_preserve p text : kept (preserve_active_config p text).
Proof.
  unfold preserve_active_config. cbv zeta. apply stays_bind; [destruct (Path.parent _); eauto with steady kept|].
  intros u. apply kept_get. intros t. apply stays_bind; [|eauto with steady].
  destruct (is_ok _); [apply stays_catch|]; eauto with steady kept.
Qed.

Lemma idle_put_back text : idle (put_back text : R SP unit).
Proof. unfold put_back. destruct text; [apply idle_fs, kept_preserve|apply idle_ret]. Qed.

Lemma idle_sources p : idle (evaluate_package_sources p : R SP (list (string * string))).
Proof.
  unfold evaluate_package_sources. apply idle_bind; [eauto with steady|]. intros ev. cbv zeta.
  destruct (_ || _); [eauto with steady|].
  induction (List.filter _ _) as [|name names IH]; [eauto with steady|]. apply idle_bind; [eauto with steady|].
  intros ev'. apply idle_bind; [exact IH|]. intros rest. eauto with steady.
Qed.

Lemma kept_fuse shared n : kept (fuse_delay shared n).
Proof.
  unfold fuse_delay. cbv zeta. apply stays_bind; [|intros _; eauto with steady].
  generalize 0%nat as i. induction n as [|n IH]; intros i; cbn [fuse_writes]; [apply stays_ret|].
  apply stays_bind; [eauto with steady|]. intros _. apply IH.
Qed.

Lemma kept_host host n : kept (host_turn host n).
Proof. intros s r s' _ [= _ <-]. apply after_pass. Qed.

Lemma idle_poll host shared left n p : idle (poll_response host shared left n p : R SP BridgeResponse).
Proof.
  revert n. induction left as [|left IH]; intros n; cbn [poll_response]; [eauto with steady|].
  apply idle_bind; [apply idle_fs, kept_host|]. intros _. apply idle_bind; [eauto with steady|]. intros t.
  destruct (look t p); [eauto with steady|]. apply idle_bind; [apply idle_fs, kept_fuse|]. intros _. apply IH.
Qed.

(** The response that ends the polling was read from the path at some moment of it. *)
Lemma poll_read host shared left n p s response s' :
  poll_response host shared left n p s = (Ok response, s') →
  ∃ s1, goes_on s s1 ∧ goes_on s1 s' ∧ look (fs_tree (s_fs (m_sys s1))) p = inl response.
Proof.
  revert n s. induction left as [|left IH]; intros n s E; [done|]. cbn [poll_response] in E.
  apply rbind_inv in E as [(u & s1 & E1 & E)|(e & _ & ?)]; [|done].
  apply (idle_fs _ (kept_host _ _)) in E1 as [G1 _].
  apply rbind_inv in E as [(t & s2 & E2 & E)|(e & _ & ?)]; [|done]. injection E2 as <- <-.
  destruct (look _ p) as [found|wait] eqn:El.
  - injection E as <- <-. exists s1. split_and!; [done|apply goes_on_refl|done].
  - apply rbind_inv in E as [(u' & s3 & E3 & E)|(e & _ & ?)]; [|done].
    apply (idle_fs _ (kept_fuse _ _)) in E3 as [G3 _]. apply IH in E as (s4 & G4 & G5 & Hl).
    exists s4. split_and!; [|done|done]. eapply goes_on_trans; [done|]. by eapply goes_on_trans.
Qed.

Lemma steady_extract ps : steady (extract_packages now ps : R SP unit).
Proof. induction ps as [|p ps IH]; cbn [extract_packages]; steadies. Qed.

Lemma steady_for_build e : steady (evaluate_for_build now e : R SP (Evaluated SP)).
Proof. unfold evaluate_for_build. steadies. Qed.

Lemma steady_source_builds ps p : steady (build_source_packages now ps p : R SP (list (string * string))).
Proof.
  assert (He := steady_for_build). induction ps as [|[name d] ps IH]; cbn [build_source_packages]; steadies.
Qed.

Lemma steady_install_paths cache ps : steady (install_paths now cache ps : R SP unit).
Proof. induction ps as [|p ps IH]; cbn [install_paths]; steadies. Qed.

Lemma steady_fetch_needed idx url ps : steady (fetch_needed now idx url ps : R SP unit).
Proof. induction ps as [|p ps IH]; cbn [fetch_needed]; steadies. Qed.

Lemma steady_upgrade_packages current new name : steady (fetch_upgrade_packages now current new name : R SP unit).
Proof. assert (Hf := steady_fetch_needed). unfold fetch_upgrade_packages. steadies. Qed.

Lemma idle_update name : idle (try_update now name : R SP bool).
Proof.
  intros s r s' E. unfold try_update in E. destruct (Channel.update _ _ _) as [x fs] eqn:E1. injection E as _ <-.
  apply same_store_fs. by eapply channel_kept.
Qed.

(** ** One switch *)
(** From the state [s], to the file the manifest was written to *)
Definition switched m s (r : result RebuildError unit) s' : Prop :=
  ∃ fs1 tmp description x sys,
    write_file tmp (system_to_json m) (s_fs (m_sys s)) = (Ok tt, fs1)
    ∧ switch clock blake3_hex run_sh (file_at (fs_tree fs1) tmp) (Some description) false (set_fs fs1 (m_sys s)) = (x, sys)
    ∧ generation_state (m_sys s') = generation_state sys ∧ (r = Ok tt → x = Ok tt).

Lemma switched_later m s r s' r' s2 :
  switched m s r s' → same_generation s' s2 → (r' = Ok tt → r = Ok tt) → switched m s r' s2.
Proof.
  intros (fs1 & tmp & d & x & sys & ? & ? & ? & ?) Hs Hr. exists fs1, tmp, d, x, sys.
  split_and!; [done..|by etrans|auto].
Qed.

Lemma switch_to_run tmp m d after s r s' :
  kept after → switch_to clock blake3_hex run_sh tmp m d after s = (r, s') → same_generation s s' ∨ switched m s r s'.
Proof.
  intros Ha. unfold switch_to.
  intros [([] & s1 & E1 & E)|(e & E1 & _)]%rbind_inv; [|left; apply idle_fs in E1; [apply E1|apply kept_write_file]].
  unfold on_fs in E1. destruct (write_file _ _ _) as [[[]|e] fs1] eqn:Ew; [|done]. injection E1 as <-.
  apply rbind_inv in E as [(t & s2 & E2 & E)|(e & E2 & _)]; [|done]. injection E2 as <- <-.
  apply rbind_inv in E as [(result & s2 & E2 & E)|(e & E2 & _)].
  2:{ by destruct (on_gen _ _). }
  unfold on_gen in E2. destruct (switch _ _ _ _ _ _ _) as [x sys] eqn:Es. injection E2 as <- <-. right.
  exists fs1, (Path.components tmp), d, x, sys.
  assert (Hi1 : idle (on_fs (ignore (remove_file (Path.components tmp))) : R SP unit)) by eauto with steady.
  assert (Hi2 : idle (on_fs (ignore after) : R SP unit)) by eauto with steady.
  split_and!; [done..| |].
  - apply rbind_inv in E as [(u & s3 & E3 & E)|(e & E3 & _)]; apply Hi1 in E3 as ((H3 & _) & _); [|exact H3].
    apply rbind_inv in E as [(u' & s4 & E4 & E)|(e & E4 & _)]; apply Hi2 in E4 as ((H4 & _) & _);
      unfold same_generation in *; [|by rewrite H4, H3].
    injection E as _ <-. rewrite H4, H3. done.
  - intros ->. apply rbind_inv in E as [(u & s3 & _ & E)|(e & _ & ?)]; [|done].
    apply rbind_inv in E as [(u' & s4 & _ & E)|(e & _ & ?)]; [|done]. injection E as E _. by destruct x as [[]|].
Qed.

(** ** Approval *)
(** Something that happened between two moments of the run *)
Definition during s s' (P : machine SP → Prop) : Prop := ∃ x, goes_on s x ∧ goes_on x s' ∧ P x.

(** The tree of the disk then *)
Abbreviation disk_of s := (fs_tree (s_fs (m_sys s))).

Definition loaded s (current : Manifest) : Prop := load_manifest_from (s_manifest (m_sys s)) = Ok current.

Definition configured (cfg_path : string) config s : Prop := ∃ s', evaluate_config cfg_path s = (Ok config, s').

(** A build, of derivations an evaluation has just produced, whose output this is *)
Definition built_here (output : string) s s' : Prop :=
  ∃ expression ev drv built,
    during s s' (λ x, ∃ x', evaluate_for_build now expression x = (Ok ev, x'))
    ∧ during s s' (λ x, ∃ x', on_build (build_needed (ev_known ev) now drv) x = (Ok built, x'))
    ∧ br_outputs built !! "out" = Some output.

(** The manifests a run that started in [s] may switch to in [s'] *)
Inductive approved s s' : Manifest → Prop :=
  | approved_native cfg_path config current output m :
      during s s' (configured cfg_path config) → loaded s current → built_here output s s' →
      during s s' (λ x, load_native_system_manifest blake3_hex (disk_of x) config output current = Ok m) →
      approved s s' m
  | approved_merge cfg_path config current primary fallback resolved m :
      during s s' (configured cfg_path config) → loaded s current →
      during s s' (λ x, resolve_packages_with_fallback (disk_of x) (rc_packages config) primary fallback = Ok resolved) →
      merge_config blake3_hex current config (rp_package <$> resolved) = Ok m →
      has_manifest_changes current m = true → approved s s' m
  | approved_source cfg_path config current built resolved merged :
      during s s' (configured cfg_path config) → loaded s current → Forall (λ e, built_here e.2 s s') built →
      merge_config blake3_hex current config (rp_package <$> resolved) = Ok merged →
      approved s s' (with_packages (source_packages (m_packages current) (m_packages merged) built) merged)
  | approved_host shared response m :
      during s s' (λ x, look (disk_of x) (Path.components (shared +:+ "/responses/" +:+ generate_request_id +:+ ".json"))
                        = inl response) →
      bs_status response = "success" → bs_manifest response = Some m → approved s s' m
  | approved_channel name p m :
      during s s' (λ x, Channel.get_manifest_path (disk_of x) name = Ok p) →
      during s s' (λ x, load_manifest_from (file_at (disk_of x) p) = Ok m) → approved s s' m.

(** The result of a run that started in [s]: nothing has happened to the generation, or one switch
    to a manifest approved by then *)
Definition outcome (dry_run : bool) s (r : result RebuildError unit) s' : Prop :=
  (dry_run = true → same_store s s')
  ∧ (same_generation s s' ∨ ∃ m s1, goes_on s s1 ∧ approved s s1 m ∧ switched m s1 r s').

(** How far a run has come that is not to switch when it is dry *)
Definition progress_of (dry_run : bool) s s' : Prop := goes_on s s' ∧ (dry_run = true → same_store s s').

Lemma progress_refl dry_run s : progress_of dry_run s s.
Proof. split; [apply goes_on_refl|intros _; apply same_store_refl]. Qed.

Lemma outcome_end dry_run s r s' : progress_of dry_run s s' → outcome dry_run s r s'.
Proof. intros [[G _] Hd]. split; [done|by left]. Qed.

Lemma outcome_idle dry_run (c : R SP unit) s0 s r s' :
  idle c → progress_of dry_run s0 s → c s = (r, s') → outcome dry_run s0 r s'.
Proof.
  intros Hc [G Hd] E. pose proof (Hc _ _ _ E) as Hs. apply outcome_end. split; [eapply goes_on_trans; [done|apply Hs]|].
  intros Hdry. eapply same_store_trans; [by apply Hd|done].
Qed.

Lemma outcome_bind {A : Type} dry_run (c : R SP A) (f : A → R SP unit) s0 s r s' :
  idle c → progress_of dry_run s0 s → (c ≫= f) s = (r, s') →
  (∀ a s1, goes_on s s1 → c s = (Ok a, s1) → progress_of dry_run s0 s1 → f a s1 = (r, s') → outcome dry_run s0 r s') →
  outcome dry_run s0 r s'.
Proof.
  intros Hc [G Hd] [(a & s1 & E1 & E)|(e & E1 & ->)]%rbind_inv Hf; pose proof (Hc _ _ _ E1) as Hs.
  - eapply Hf; [apply Hs|done| |done]. split; [eapply goes_on_trans; [done|apply Hs]|].
    intros Hdry. eapply same_store_trans; [by apply Hd|done].
  - apply outcome_end. split; [eapply goes_on_trans; [done|apply Hs]|].
    intros Hdry. eapply same_store_trans; [by apply Hd|done].
Qed.

Lemma outcome_bind_steady {A : Type} (c : R SP A) (f : A → R SP unit) s0 s r s' :
  steady c → progress_of false s0 s → (c ≫= f) s = (r, s') →
  (∀ a s1, goes_on s s1 → c s = (Ok a, s1) → progress_of false s0 s1 → f a s1 = (r, s') → outcome false s0 r s') →
  outcome false s0 r s'.
Proof.
  intros Hc [G _] [(a & s1 & E1 & E)|(e & E1 & ->)]%rbind_inv Hf; pose proof (Hc _ _ _ E1) as Hs.
  - eapply Hf; [done|done| |done]. split; [by eapply goes_on_trans|done].
  - apply outcome_end. split; [by eapply goes_on_trans|done].
Qed.

(** The switch, and what follows it *)
Lemma outcome_switch tmp m d after (rest : R SP unit) s0 s r s' :
  approved s0 s m → progress_of false s0 s → kept after → steady rest →
  (switch_to clock blake3_hex run_sh tmp m d after ;; rest) s = (r, s') → outcome false s0 r s'.
Proof.
  intros Ha [[G A] _] Hk Hrest E. split; [done|].
  apply rbind_inv in E as [([] & s1 & E1 & E)|(e & E1 & ->)]; apply switch_to_run in E1; try done.
  - apply Hrest in E as [G' _]. destruct E1 as [E1|E1]; [left; by do 2 (etrans; [done|])|right].
    exists m, s. split; [by split|]. split; [done|]. by eapply switched_later.
  - destruct E1 as [E1|E1]; [left; by etrans|right]. by exists m, s.
Qed.

Lemma outcome_last tmp m d after s0 s r s' :
  approved s0 s m → progress_of false s0 s → kept after →
  switch_to clock blake3_hex run_sh tmp m d after s = (r, s') → outcome false s0 r s'.
Proof.
  intros Ha [[G A] _] Hk E. split; [done|]. apply switch_to_run in E as [E|E]; [left; by etrans|right|done].
  by exists m, s.
Qed.

Lemma current_loaded s current s' : current_manifest s = (Ok current, s') → loaded s current ∧ s' = s.
Proof.
  unfold current_manifest, on_gen, mbind, G_bind, SR_bind, sr_get, sr_lift, loaded. simpl.
  destruct (load_manifest_from _); intros [= -> <-]. split; [done|]. by destruct s as [[] ? ? ?].
Qed.

Lemma loaded_at_start dry_run s0 s current : progress_of dry_run s0 s → loaded s current → loaded s0 current.
Proof. intros [[G _] _]. unfold loaded. injection G. by intros _ _ ->. Qed.

(** ** The routes *)
Ltac peel E P a s1 Hs E1 :=
  first
    [ eapply outcome_bind; [|exact P|exact E|];
      [solve [eauto using idle_config, idle_preserved, idle_poll, idle_sources, idle_update with steady]|];
      clear E P; intros a s1 Hs E1 P E; cbv beta in E
    | eapply outcome_bind_steady; [|exact P|exact E|];
      [solve [eauto using steady_for_build, steady_extract, steady_source_builds, steady_install_paths,
                steady_upgrade_packages with steady]|];
      clear E P; intros a s1 Hs E1 P E; cbv beta in E ].

(** [goes_on] along the steps of the run *)
Ltac follow := first [ eassumption | apply goes_on_refl | eapply goes_on_trans; [eassumption|follow] ].

Ltac at_moment x := exists x; split; [follow|split; [follow|]].

Lemma output_of_build (built : BuildResult) s output s' :
  rlift (ok_or (NativeSystem "no 'out' output") (br_outputs built !! "out")) s = (Ok output, s') →
  br_outputs built !! "out" = Some output.
Proof. intros [= E _]. by destruct (br_outputs built !! "out"); simplify_eq/=. Qed.

Lemma native_outcome cfg_path config dry_run s0 s r s' :
  progress_of dry_run s0 s → during s0 s (configured cfg_path config) →
  rebuild_native_system clock now blake3_hex run_sh cfg_path config dry_run s = (r, s') → outcome dry_run s0 r s'.
Proof.
  intros P Hc E. pose proof (proj1 P) as G. unfold rebuild_native_system in E.
  peel E P source s1 H1 E1. peel E P t s2 H2 E2. peel E P source' s3 H3 E3. peel E P current s4 H4 E4.
  apply current_loaded in E4 as [Hl ->]. pose proof (loaded_at_start _ _ _ _ P Hl) as Hl0.
  peel E P preserved s5 H5 E5. destruct dry_run.
  - peel E P ev s6 H6 E6. peel E P drv_path s7 H7 E7. peel E P drv s8 H8 E8.
    by eapply outcome_idle; [apply idle_ret|exact P|exact E].
  - peel E P ev s6 H6 E6. peel E P drv_path s7 H7 E7. peel E P drv s8 H8 E8. peel E P built s9 H9 E9.
    peel E P output s10 H10 E10. pose proof (output_of_build _ _ _ _ E10) as Ho.
    peel E P t' s11 H11 E11. injection E11 as <- <-. peel E P m s12 H12 E12. injection E12 as E12 <-.
    eapply outcome_switch; [|exact P|apply stays_ret|apply idle_steady, idle_put_back|exact E].
    destruct Hc as (x & G1 & G2 & Hc).
    eapply (approved_native s0 s10 cfg_path config current output); [by at_moment x|done| |by at_moment s10].
    eexists _, ev, drv, built. split; [|split; [|done]].
    + at_moment s5. by eexists.
    + at_moment s8. by eexists.
Qed.

Ltac stop P E := eapply outcome_idle; [|exact P|exact E]; first [apply idle_ret | apply idle_lift].

Lemma rebuild_outcome cfg_path dry_run cache_index cache_url s0 s r s' :
  progress_of dry_run s0 s →
  rebuild clock now blake3_hex run_sh cfg_path dry_run cache_index cache_url s = (r, s') → outcome dry_run s0 r s'.
Proof.
  intros P E. pose proof (proj1 P) as G. unfold rebuild in E. peel E P config s1 H1 E1.
  assert (Hc : during s0 s1 (configured cfg_path config)) by (at_moment s; by eexists).
  destruct (is_some (rc_system_source config)); [by eapply native_outcome|]. cbv zeta in E.
  peel E P preserved s2 H2 E2. peel E P current s3 H3 E3. apply current_loaded in E3 as [Hl ->].
  pose proof (loaded_at_start _ _ _ _ P Hl) as Hl0.
  peel E P t s4 H4 E4. injection E4 as <- <-. peel E P resolved s5 H5 E5. injection E5 as E5 <-.
  peel E P merged s6 H6 E6. injection E6 as E6 <-.
  destruct dry_run; [stop P E|]. destruct (negb (has_manifest_changes _ _)) eqn:En; [stop P E|].
  peel E P u s7 H7 E7. eapply outcome_switch; [|exact P|apply stays_ret|apply idle_steady, idle_put_back|exact E].
  destruct Hc as (x & G1 & G2 & Hc).
  eapply (approved_merge s0 s7 cfg_path config current _ _ resolved); [by at_moment x|done| | |by apply negb_false_iff].
  - at_moment s2. destruct (resolve_packages_with_fallback _ _ _ _) as [l|] eqn:Er; [|done]. by injection E5 as ->.
  - by destruct (merge_config _ _ _ _); simplify_eq/=.
Qed.

Lemma bridge_outcome host shared cfg_path dry_run timeout_s s0 s r s' :
  progress_of dry_run s0 s →
  rebuild_via_bridge clock now blake3_hex run_sh host shared cfg_path dry_run timeout_s s = (r, s') → outcome dry_run s0 r s'.
Proof.
  intros P E. pose proof (proj1 P) as G. unfold rebuild_via_bridge in E.
  peel E P preserved s1 H1 E1. peel E P t s2 H2 E2. destruct (negb (path_exists _ _)); [stop P E|].
  peel E P config s3 H3 E3. cbv zeta in E. peel E P u s4 H4 E4. destruct dry_run; [stop P E|].
  peel E P u' s5 H5 E5. peel E P response s6 H6 E6. apply poll_read in E6 as (x & G1 & G2 & Hx).
  destruct (decide (bs_status response = "success")) as [Hok|].
  - peel E P m s7 H7 E7. injection E7 as E7 <-. clear H7. unfold install_bridge_packages in E. peel E P u'' s8 H8 E8.
    eapply outcome_switch; [|exact P| | |exact E]; [|eauto with steady|].
    + apply (approved_host s0 s8 shared response); [by at_moment x|done|].
      by destruct (bs_manifest response); simplify_eq/=.
    + destruct preserved; [apply idle_steady, idle_fs, kept_preserve|eauto with steady].
  - peel E P u'' s7 H7 E7. stop P E.
Qed.

Lemma sources_built s0 ps src s built s' :
  goes_on s0 s → build_source_packages now ps src s = (Ok built, s') →
  ∀ s2, goes_on s' s2 → Forall (λ e, built_here e.2 s0 s2) built.
Proof.
  revert s built s'. induction ps as [|[name d] ps IH]; intros s built s' G E s2 G2; [by injection E as <- _|].
  cbn [build_source_packages] in E.
  apply rbind_inv in E as [(ev & s3 & E3 & E)|(? & _ & ?)]; [|done]. pose proof (steady_for_build _ _ _ _ E3) as G3.
  apply rbind_inv in E as [(drv & s4 & E4 & E)|(? & _ & ?)]; [|done]. injection E4 as _ <-.
  apply rbind_inv in E as [(b & s5 & E5 & E)|(? & _ & ?)]; [|done]. pose proof (steady_build _ _ _ _ _ _ E5) as G5.
  apply rbind_inv in E as [(out & s6 & E6 & E)|(? & _ & ?)]; [|done].
  pose proof (output_of_build _ _ _ _ E6) as Ho. injection E6 as _ <-.
  apply rbind_inv in E as [(rest & s7 & E7 & E)|(? & _ & ?)]; [|done]. pose proof (steady_source_builds _ _ _ _ _ E7) as G7.
  injection E as <- <-. constructor.
  - eexists _, ev, drv, b. split; [|split; [|done]]; [at_moment s|at_moment s3]; by eexists.
  - eapply (IH s5); [follow|exact E7|done].
Qed.

Lemma source_outcome cfg_path dry_run cache_index cache_url s0 s r s' :
  progress_of dry_run s0 s →
  rebuild_from_source clock now blake3_hex run_sh cfg_path dry_run cache_index cache_url s = (r, s') → outcome dry_run s0 r s'.
Proof.
  intros P E. pose proof (proj1 P) as G. unfold rebuild_from_source in E. peel E P config s1 H1 E1.
  assert (Hc : during s0 s1 (configured cfg_path config)) by (at_moment s; by eexists).
  destruct (is_some (rc_system_source config)); [by eapply native_outcome|]. cbv zeta in E.
  peel E P src s2 H2 E2. peel E P t s3 H3 E3. destruct (negb (path_exists _ _)); [stop P E|].
  peel E P packages s4 H4 E4. destruct (decide (packages = [])); [stop P E|]. destruct dry_run; [stop P E|].
  peel E P built s5 H5 E5. peel E P current s6 H6 E6. apply current_loaded in E6 as [Hl ->].
  pose proof (loaded_at_start _ _ _ _ P Hl) as Hl0.
  peel E P t' s7 H7 E7. peel E P u s8 H8 E8. peel E P merged s9 H9 E9. injection E9 as E9 <-.
  eapply outcome_last; [|exact P|apply stays_ret|exact E]. destruct Hc as (x & G1 & G2 & Hc).
  eapply (approved_source s0 s8 cfg_path config current built); [by at_moment x|done| |].
  - eapply (sources_built s0 _ _ s4); [follow|exact E5|follow].
  - by destruct (merge_config _ _ _ _) eqn:Em; simplify_eq/=.
Qed.

Lemma auto_outcome host shared cfg_path dry_run cache_index cache_url timeout_s s0 s r s' :
  progress_of dry_run s0 s →
  auto_rebuild clock now blake3_hex run_sh host shared cfg_path dry_run cache_index cache_url timeout_s s = (r, s') →
  outcome dry_run s0 r s'.
Proof.
  intros P E. pose proof (proj1 P) as G. unfold auto_rebuild in E. peel E P config s1 H1 E1. peel E P x s2 H2 E2. cbv zeta in E.
  peel E P t s3 H3 E3. peel E P route s4 H4 E4. destruct route.
  - eapply native_outcome; [exact P| |exact E]. at_moment s. by eexists.
  - by eapply bridge_outcome.
  - by eapply rebuild_outcome.
Qed.

Lemma upgrade_outcome channel dry_run s0 s r s' :
  progress_of dry_run s0 s → upgrade clock now blake3_hex run_sh channel dry_run s = (r, s') → outcome dry_run s0 r s'.
Proof.
  intros P E. pose proof (proj1 P) as G. unfold upgrade in E. peel E P t s1 H1 E1. peel E P name s2 H2 E2.
  peel E P updated s3 H3 E3. peel E P t' s4 H4 E4. injection E4 as <- <-.
  eapply outcome_bind; [|exact P|exact E|]; [destruct updated; [|apply idle_bind]; eauto with steady|].
  clear E P. intros u s5 H5 E5 P E. cbv beta in E. peel E P current s6 H6 E6. peel E P p s7 H7 E7. peel E P m s8 H8 E8.
  cbv zeta in E. injection E7 as E7 <-. injection E8 as E8 <-.
  destruct (_ && _); [stop P E|]. destruct dry_run; [stop P E|].
  peel E P u' s9 H9 E9. eapply outcome_last; [|exact P|apply stays_ret|exact E].
  apply (approved_channel _ _ name p); at_moment s3.
  - by destruct (Channel.get_manifest_path _ name); simplify_eq/=.
  - by destruct (load_manifest_from _); simplify_eq/=.
Qed.

(** C3. Whatever the route, a rebuild or an upgrade leaves the generation as it was, or makes exactly one
    switch, from the generation it started with, to a manifest it has approved by then: a system
    that was evaluated and built in this run and checked, a merge of the evaluated configuration
    that changes the manifest, packages all built in this run, the manifest of a response that was
    read from the shared directory and reports success, or the one in the channel.  A dry run
    leaves the generation, the database and the roots alone and starts no builder. *)
Theorem one_approved_switch host shared cfg_path dry_run cache_index cache_url timeout_s channel s :
  let auto := auto_rebuild clock now blake3_hex run_sh host shared cfg_path dry_run cache_index cache_url timeout_s s in
  let source := rebuild_from_source clock now blake3_hex run_sh cfg_path dry_run cache_index cache_url s in
  let upgraded := upgrade clock now blake3_hex run_sh channel dry_run s in
  outcome dry_run s auto.1 auto.2 ∧ outcome dry_run s source.1 source.2 ∧ outcome dry_run s upgraded.1 upgraded.2.
Proof.
  pose proof (progress_refl dry_run s) as P.
  split_and!; [eapply auto_outcome|eapply source_outcome|eapply upgrade_outcome]; (exact P || apply surjective_pairing).
Qed.
End outcome.
Module RouteDemo.
Import GenDemo SwitchDemo.
#[local] Existing Instances ExtractDemo.codec BuildDemo.no_net DumpDemo.demo_writer DumpDemo.demo_scanner InstallDemo.server
  InstallDemo.profile_json BuildDemo.text_is_path BuildDemo.lib BuildDemo.machine.
#[local] Instance quiet : Daemons :=
  {| stored_is_running := false; profiled_is_running := false; profiled_write _ := Ok tt |}.

(** The configuration gives the machine a name. *)
Definition named_box : RebuildConfig :=
  mkRebuildConfig (Some "box") None None None None None None None None None None None None None None.
#[local] Instance configs : ConfigJson := {| config_from_json text := if decide (text = "box") then Some named_box else None |}.

(** The host answers [request], its name, whatever it is asked. *)
#[local] Instance library : RebuildLib string := {|
  eval_expression _ _ := (None, []);
  eval_config _ _ := (None, []);
  decode_json_string _ := None;
  parse_store_path := Some;
  config_to_json _ := "{}";
  manifest_to_compact _ := "{}";
  request_to_json id _ := id;
  bridge_response_from_json request := Some (mkBridgeResponse "success" request (Some next_manifest) None);
|}.

Definition disk_of (files : list (string * node)) : fsys :=
  mkFsys (list_to_map ((λ e, (Path.components e.1, e.2)) <$> files)) [].
Definition start (files : list (string * node)) : machine string := mkMachine (set_fs (disk_of files) sys) 0 0 [].

Definition box : machine string := start [("/tmp", Dir 511); ("/etc", Dir 493); ("/etc/box.json", File "box" 420)].
Definition rebuilt (dry_run : bool) :=
  auto_rebuild (Some 86400) "now" blake3 sh (λ _ _, []) "/shared" "/etc/box.json" dry_run None None 3 box.

Example rebuilt_box :
  (rebuilt false).1 = Ok tt
  ∧ (m ← load_manifest_from (s_manifest (m_sys (rebuilt false).2)); Ok (hostname (m_system m), gi_id (m_generation m)))
    = Ok ("box", 6)
  ∧ (rebuilt true).1 = Ok tt ∧ s_manifest (m_sys (rebuilt true).2) = s_manifest (m_sys box).
Proof. split_and!; vm_compute; reflexivity. Qed.

(** The response is looked up by the process number alone and its request is not compared: an
    answer to another request that lies there is taken for this one's, with no host at all. *)
Definition stale : machine string := start
  [("/tmp", Dir 511); ("/etc", Dir 493); ("/etc/box.json", File "box" 420); ("/shared", Dir 511);
   ("/shared/requests", Dir 511); ("/shared/responses", Dir 511);
   ("/shared/responses/rebuild-7.json", File "rebuild-6" 420)].
Definition answered := rebuild_via_bridge (Some 86400) "now" blake3 sh (λ _ _, []) "/shared" "/etc/box.json" false 3 stale.

Example stale_answer :
  answered.1 = Ok tt
  ∧ (m ← load_manifest_from (s_manifest (m_sys answered.2)); Ok (gi_description (m_generation m), m_packages m))
    = Ok ("rebuild via bridge", m_packages next_manifest).
Proof. split; vm_compute; reflexivity. Qed.
End RouteDemo.
