(* ===== verification/Bytes.v ===== *)
(** * Bytes

    Byte strings by position, and little-endian integers in them: the ground of the file formats
    and wire protocols that are modelled byte by byte. *)

From S2P Require Import Prelude RustStd.

Open Scope Z_scope.

Definition byte_of (z : Z) : ascii := ascii_of_N (Z.to_N (z `mod` 256)).

Fixpoint le_bytes (n : nat) (z : Z) : string :=
  match n with
  | O => ""
  | S n' => String (byte_of z) (le_bytes n' (z / 256))
  end.

Fixpoint le_int (s : string) : Z :=
  match s with
  | EmptyString => 0
  | String c s' => Z.of_N (N_of_ascii c) + 256 * le_int s'
  end.

(** The first [n] bytes, and what follows them *)
Fixpoint take_bytes (n : nat) (s : string) : string :=
  match n, s with
  | S n', String c s' => String c (take_bytes n' s')
  | _, _ => ""
  end.

Fixpoint drop_bytes (n : nat) (s : string) : string :=
  match n, s with
  | S n', String _ s' => drop_bytes n' s'
  | _, _ => s
  end.

Definition len (s : string) : Z := Z.of_nat (String.length s).

(** ** Lemmas on bytes *)
Lemma length_le_bytes n z : String.length (le_bytes n z) = n.
Proof. revert z. induction n as [|n IH]; intros z; simpl; [done|]. by rewrite IH. Qed.

Lemma byte_of_value z : Z.of_N (N_of_ascii (byte_of z)) = z `mod` 256.
Proof.
  unfold byte_of. pose proof (Z.mod_pos_bound z 256 ltac:(lia)) as Hb.
  rewrite N_ascii_embedding; lia.
Qed.

Lemma le_int_bytes n z : le_int (le_bytes n z) = z `mod` 256 ^ Z.of_nat n.
Proof.
  revert z. induction n as [|n IH]; intros z; simpl le_bytes; simpl le_int; [by rewrite Z.mod_1_r|].
  rewrite byte_of_value, IH, Nat2Z.inj_succ, Z.pow_succ_r by lia.
  rewrite (Z.rem_mul_r z 256 (256 ^ Z.of_nat n)) by lia. lia.
Qed.

Lemma le_int_range s : 0 ≤ le_int s < 256 ^ Z.of_nat (String.length s).
Proof.
  induction s as [|a s IH]; simpl le_int; [simpl; lia|]. cbn [String.length].
  rewrite Nat2Z.inj_succ, Z.pow_succ_r by lia.
  assert (Z.of_N (N_of_ascii a) < 256) by (pose proof (N_ascii_bounded a); lia). lia.
Qed.

Lemma length_app_string s1 s2 : String.length (s1 +:+ s2) = (String.length s1 + String.length s2)%nat.
Proof. induction s1 as [|a s1 IH]; simpl; [done|]. by rewrite IH. Qed.

Lemma len_app s1 s2 : len (s1 +:+ s2) = len s1 + len s2.
Proof. unfold len. rewrite length_app_string. lia. Qed.

Lemma len_nonneg s : 0 ≤ len s.
Proof. unfold len. lia. Qed.

Lemma take_bytes_app s1 s2 : take_bytes (String.length s1) (s1 +:+ s2) = s1.
Proof. induction s1 as [|a s1 IH]; simpl; [by destruct s2|]. by rewrite IH. Qed.

Lemma drop_bytes_app s1 s2 : drop_bytes (String.length s1) (s1 +:+ s2) = s2.
Proof. induction s1 as [|a s1 IH]; simpl; [by destruct s2|done]. Qed.

Lemma take_drop_bytes n s : take_bytes n s +:+ drop_bytes n s = s.
Proof. revert s. induction n as [|n IH]; intros [|a s]; simpl; try done. by rewrite IH. Qed.

Lemma length_take_bytes n s : String.length (take_bytes n s) = Nat.min n (String.length s).
Proof. revert s. induction n as [|n IH]; intros [|a s]; simpl; try done. by rewrite IH. Qed.

Lemma length_drop_bytes n s : String.length (drop_bytes n s) = (String.length s - n)%nat.
Proof. revert s. induction n as [|n IH]; intros [|a s]; simpl; try done. Qed.

#[global] Arguments drop_bytes : simpl never.
#[global] Arguments take_bytes : simpl never.

Lemma take_zero s : take_bytes 0 s = "".
Proof. done. Qed.

Lemma drop_zero s : drop_bytes 0 s = s.
Proof. by destruct s. Qed.

Lemma drop_nil n : drop_bytes n "" = "".
Proof. by destruct n. Qed.

Lemma take_nil n : take_bytes n "" = "".
Proof. by destruct n. Qed.

Lemma drop_drop n m s : drop_bytes n (drop_bytes m s) = drop_bytes (m + n) s.
Proof.
  revert s. induction m as [|m IH]; intros s; [by rewrite drop_zero|].
  destruct s as [|a s]; [by rewrite !drop_nil|]. exact (IH s).
Qed.

Lemma take_plus n m s : take_bytes (n + m) s = take_bytes n s +:+ take_bytes m (drop_bytes n s).
Proof.
  revert s. induction n as [|n IH]; intros s; [by rewrite drop_zero|].
  destruct s as [|a s]; [by rewrite drop_nil, !take_nil|].
  change (String a (take_bytes (n + m) s) = String a (take_bytes n s +:+ take_bytes m (drop_bytes n s))). by rewrite IH.
Qed.

Lemma take_all n s : (String.length s ≤ n)%nat → take_bytes n s = s.
Proof.
  revert s. induction n as [|n IH]; intros [|a s]; simpl; try done; try lia. intros Hl.
  change (String a (take_bytes n s) = String a s). rewrite IH; [done|lia].
Qed.

Lemma take_app_more n s t : take_bytes (String.length s + n) (s +:+ t) = s +:+ take_bytes n t.
Proof. rewrite take_plus, take_bytes_app, drop_bytes_app. done. Qed.

Lemma drop_app_more n s t : drop_bytes (String.length s + n) (s +:+ t) = drop_bytes n t.
Proof. by rewrite <- drop_drop, drop_bytes_app. Qed.

Lemma len_zero s : len s = 0 ↔ s = "".
Proof. unfold len. destruct s; simpl; split; try done; lia. Qed.

Lemma len_take n s : 0 ≤ n ≤ len s → len (take_bytes (Z.to_nat n) s) = n.
Proof. unfold len. rewrite length_take_bytes. lia. Qed.

Lemma len_drop n s : 0 ≤ n ≤ len s → len (drop_bytes (Z.to_nat n) s) = len s - n.
Proof. unfold len. rewrite length_drop_bytes. lia. Qed.

Lemma take_take n m s : (n ≤ m)%nat → take_bytes n (take_bytes m s) = take_bytes n s.
Proof.
  intros Hn. replace m with (n + (m - n))%nat by lia. rewrite take_plus.
  destruct (decide (n ≤ String.length s)%nat) as [Hl|Hl].
  - rewrite <- (take_bytes_app (take_bytes n s) (take_bytes (m - n) (drop_bytes n s))) at 2.
    by rewrite length_take_bytes, Nat.min_l by done.
  - rewrite (take_all n s) by lia. rewrite take_all; [|rewrite length_app_string, length_take_bytes, length_drop_bytes; lia].
    assert (drop_bytes n s = "") as ->; [|by rewrite take_nil, Str.app_nil_r].
    apply len_zero. unfold len. rewrite length_drop_bytes. lia.
Qed.

Fixpoint zeros (n : nat) : string := match n with O => "" | S n' => String "000" (zeros n') end.

Lemma length_zero_bytes n : String.length (zeros n) = n.
Proof. induction n as [|n IH]; simpl; congruence. Qed.
