(* ===== verification/IoWorker.v ===== *)
(** * The I/O worker of the build sandbox ([build_proxy/io_worker.rs])

    The thread that does the real file operations of the proxy.  A request is a tree of system
    calls: what is called next depends on what the kernel has answered, and the kernel is any
    function that answers.  The requests are those of [ProxyIo], so that the handler runs on this
    worker. *)

From S2P Require Import Prelude RustStd Bytes ProxyIo.

Open Scope Z_scope.

(** ** System calls *)
Inductive whence : Set := SeekStart (offset : Z) | SeekEnd.

(** An entry as the iterator of the system's crate gives it; a kind it does not know is [None]. *)
Record RawDirent : Set := mkRawDirent { rd_name : string; rd_kind : option DirentKind; rd_next : Z }.

(** A call and the type of its answer.  [SysGetdents] answers with the number of bytes and the entries
    in them; [SysReadInto] and [ZeroAt] write to memory that was mapped. *)
Inductive kcall : Set → Type :=
  | SysOpenat (root : Z) (p : string) (flags : Z) : kcall (result errno Z)
  | SysDup (fd : Z) : kcall (result errno Z)
  | SysClose (fd : Z) : kcall unit
  | SysFstat (fd : Z) : kcall (result errno Stat)
  | SysFpath (fd buf_len : Z) : kcall (result errno string)
  | SysFchmod (fd mode : Z) : kcall (result errno unit)
  | SysFtruncate (fd len : Z) : kcall (result errno unit)
  | SysFrename (fd : Z) (p : string) : kcall (result errno unit)
  | SysFlink (fd : Z) (p : string) : kcall (result errno unit)
  | SysUnlinkat (root : Z) (p : string) (flags : Z) : kcall (result errno unit)
  | SysSeek (fd : Z) (w : whence) : kcall (result errno Z)
  | SysRead (fd len : Z) : kcall (result errno string)
  | SysWrite (fd : Z) (data : string) : kcall (result errno Z)
  | SysGetdents (fd buf_len opaque : Z) : kcall (result errno (Z * list RawDirent))
  | SysFmap (fd offset size flags : Z) : kcall (result errno Z)
  | SysFunmap (addr len : Z) : kcall (result errno unit)
  | AnonMap (len : Z) : kcall (result errno Z)
  | AnonUnmap (addr len : Z) : kcall unit
  | SysReadInto (fd addr len : Z) : kcall (result errno Z)
  | ZeroAt (addr len : Z) : kcall unit.

(** Trees of calls; [KOut] is a loop that has not come to its end. *)
Inductive kprog (A : Type) : Type :=
  | KRet (a : A)
  | KCall {X : Set} (c : kcall X) (k : X → kprog A)
  | KOut.
Arguments KRet {A} a.
Arguments KCall {A X} c k.
Arguments KOut {A}.

Fixpoint kbind {A B} (m : kprog A) (f : A → kprog B) : kprog B :=
  match m with
  | KRet a => f a
  | KCall c k => KCall c (λ x, kbind (k x) f)
  | KOut => KOut
  end.

(** A call with its answer *)
Definition event : Type := {X : Set & (kcall X * X)%type}.
Definition ev {X : Set} (c : kcall X) (x : X) : event := existT X (c, x).

Section krun.
Context {K : Type} (kernel : ∀ X : Set, kcall X → K → X * K).

Fixpoint krun {A} (m : kprog A) (k : K) : option (A * K * list event) :=
  match m with
  | KRet a => Some (a, k, [])
  | KCall c f =>
      let '(x, k) := kernel _ c k in
      '(a, k, l) ← krun (f x) k;
      Some (a, k, ev c x :: l)
  | KOut => None
  end.
End krun.

(** Operations that may fail *)
Definition Kr (A : Type) : Type := kprog (result errno A).
#[export] Instance Kr_ret : MRet Kr := λ A a, KRet (Ok a).
#[export] Instance Kr_bind : MBind Kr := λ A B f m,
  kbind m (λ r, match r with Ok a => f a | Err e => KRet (Err e) end).

Definition call_ok {A : Set} (c : kcall (result errno A)) : Kr A := KCall c KRet.
Definition call {X : Set} (c : kcall X) : Kr X := KCall c (λ x, KRet (Ok x)).
Definition kfail {A} (e : errno) : Kr A := KRet (Err e).
Definition kattempt {A} (m : Kr A) : Kr (result errno A) := kbind m (λ r, KRet (Ok r)).
Definition klift {A} (r : result errno A) : Kr A := KRet r.

(** [.map_err(|_| Error::new(e))] *)
Definition or_err {A} (e : errno) (m : Kr A) : Kr A :=
  kbind m (λ r, KRet (match r with Ok a => Ok a | Err _ => Err e end)).

(** ** The worker's own state *)
Record ActiveMap : Type := mkActiveMap {
  am_base_addr : Z;
  am_len : Z;
  am_backing_fd : Z;
  am_anonymous : bool;
}.

Record WorkerState : Type := mkWorker { next_map_token : Z; active_maps : gmap Z ActiveMap }.

Definition worker_start : WorkerState := mkWorker 1 ∅.

(** What it is started with: the roots, the listings made before, and [SNIX_PROFILE_RUSTLIB_ROOT] *)
Record WorkerEnv : Type := mkWorkerEnv {
  root_fd : Z;
  profile_root_fd : option Z;
  store_root_fd : option Z;
  dev_null_fd : option Z;
  dev_urandom_fd : option Z;
  rustlib_dir_cache : gmap path (list (string * DirentKind));
  rustlib_root : option string;
}.

(** [MODE_FILE] of the system *)
Class FileMode : Type := { MODE_FILE : Z }.

#[export] Instance errno_eq_dec : EqDecision errno.
Proof. solve_decision. Defined.

Definition EINTR : errno := EOther 4.

(** [path.to_string_lossy()], without the slashes in front *)
Definition clean_text (p : path) : string := Str.trim_start_matches "/" (Str.from_utf8_lossy (Path.to_string p)).

Section worker.
Context {ABI : SyscallAbi} {FM : FileMode} (env : WorkerEnv) (fuel : nat).

Definition raw_openat (root : Z) (p : string) (flags : Z) : Kr Z :=
  call_ok (SysOpenat root (Str.trim_start_matches "/" p) flags).

Definition raw_close (fd : Z) : Kr unit := call (SysClose fd).
Definition raw_fstat (fd : Z) : Kr Stat := call_ok (SysFstat fd).

(** The path of a descriptor, as the system gives it, without the name of the scheme *)
Definition before_nul (s : string) : string :=
  match Str.split_once "000" s with Some (a, _) => a | None => s end.

Definition scheme_path_of (bytes : string) : option path :=
  let s := before_nul bytes in
  if Str.utf8_valid s then
    let s := default s (Str.strip_prefix "file:" s) in
    let s := default s (Str.strip_prefix "/scheme/file" s) in
    Some (Path.components (if decide (s = "") then "/" else s))
  else None.

Definition raw_fpath (fd : Z) : Kr (option path) :=
  r ← kattempt (call_ok (SysFpath fd 4096));
  mret match r with Ok bytes => scheme_path_of bytes | Err _ => None end.

(** A descriptor that may be missing *)
Definition root_of (fd : option Z) : Kr Z := match fd with Some fd => mret fd | None => kfail EIO end.

Definition map_profile_rustlib_path (rest : string) : option string :=
  (λ root, if decide (rest = "") then root else root +:+ "/" +:+ Str.trim_start_matches "/" rest) <$> rustlib_root env.

Definition open_rustlib (mapped : string) (flags : Z) : Kr Z :=
  match Str.strip_prefix "/nix/store/" mapped with
  | Some rest => root ← root_of (store_root_fd env); raw_openat root rest flags
  | None => raw_openat (root_fd env) mapped flags
  end.

(** The [rustlib] directory of the profile, when it is mapped *)
Definition rustlib_path (clean : string) : option string :=
  if decide (clean = "nix/system/profile/lib/rustlib") then map_profile_rustlib_path ""
  else rest ← Str.strip_prefix "nix/system/profile/lib/rustlib/" clean; map_profile_rustlib_path rest.

(** Where a path that is not mapped is: a root and what is below it *)
Definition place (clean : string) : Kr (Z * string) :=
  if decide (clean = "nix/system/profile") then root ← root_of (profile_root_fd env); mret (root, ".")
  else match Str.strip_prefix "nix/system/profile/" clean with
       | Some rest => root ← root_of (profile_root_fd env); mret (root, rest)
       | None =>
           if decide (clean = "nix/store") then root ← root_of (store_root_fd env); mret (root, ".")
           else match Str.strip_prefix "nix/store/" clean with
                | Some rest => root ← root_of (store_root_fd env); mret (root, rest)
                | None => mret (root_fd env, clean)
                end
       end.

Definition open_fd (p : path) (flags : Z) : Kr Z :=
  let clean := clean_text p in
  if decide (clean = "dev/null") then fd ← root_of (dev_null_fd env); call_ok (SysDup fd)
  else if decide (clean = "dev/urandom" ∨ clean = "dev/random") then
    fd ← root_of (dev_urandom_fd env); call_ok (SysDup fd)
  else match rustlib_path clean with
       | Some mapped => open_rustlib mapped flags
       | None => '(root, rest) ← place clean; raw_openat root rest flags
       end.

(** [File::from_raw_fd]: the descriptor is closed at the end, whatever happens. *)
Definition with_file {A} (fd : Z) (m : Kr A) : Kr A := r ← kattempt m; raw_close fd ;; klift r.

Definition worker_open_path (p : path) (flags : Z) : Kr OpenPathResult :=
  fd ← open_fd p flags;
  stat ← raw_fstat fd;
  raw_path ← raw_fpath fd;
  let clean := clean_text p in
  let resolved_path :=
    if decide (clean ∈ ["dev/null"; "dev/zero"; "dev/urandom"; "dev/random"]) then p
    else if decide (clean = "nix/system/profile" ∨ clean = "nix/store") then p
    else if Str.starts_with "nix/system/profile/" clean || Str.starts_with "nix/store/" clean then p
    else default p raw_path in
  raw_close fd ;;
  mret (mkOpenPathResult stat resolved_path).

(** [mkdir_p_via_root_fd]: every directory on the way, errors ignored *)
Definition raw_mkdir (p : string) : Kr unit :=
  fd ← raw_openat (root_fd env) p (Z.lor O_CREAT (Z.lor O_DIRECTORY 0x1ED)); raw_close fd.

Fixpoint mkdir_along (built : string) (cs : list string) : Kr unit :=
  match cs with
  | [] => mret tt
  | c :: cs' =>
      if decide (c = "") then mkdir_along built cs'
      else
        let built := if decide (built = "") then c else built +:+ "/" +:+ c in
        _ ← kattempt (raw_mkdir built);
        mkdir_along built cs'
  end.

Definition worker_ensure_dir_tree (p : path) : Kr unit := mkdir_along "" (Str.split "/" (clean_text p)).

Definition read_flags (symlink : bool) : Z := if symlink then Z.lor O_RDONLY O_SYMLINK else O_RDONLY.
Definition write_flags (symlink : bool) : Z := if symlink then Z.lor O_WRONLY O_SYMLINK else O_RDWR.
Definition stat_flags (directory : bool) : Z := if directory then Z.lor O_RDONLY O_DIRECTORY else O_RDONLY.

(** Of a regular file nothing beyond its size is read. *)
Definition available (st : result errno Stat) (offset len : Z) : Z :=
  match st with
  | Ok st => if has (st_mode st) MODE_FILE then Z.max 0 (st_size st - offset) else len
  | Err _ => len
  end.

Definition worker_read_at (p : path) (offset len : Z) (symlink : bool) : Kr string :=
  let clean := clean_text p in
  if decide (clean = "dev/null") then mret ""
  else if decide (clean = "dev/zero") then mret (zeros (Z.to_nat len))
  else
    fd ← open_fd p (read_flags symlink);
    st ← kattempt (raw_fstat fd);
    let len := Z.min len (available st offset len) in
    if decide (len = 0) then raw_close fd ;; mret ""
    else with_file fd
           (or_err EIO (call_ok (SysSeek fd (SeekStart offset))) ;; or_err EIO (call_ok (SysRead fd len))).

Definition worker_write_at (p : path) (offset : Z) (append symlink : bool) (data : string) : Kr WriteResult :=
  let clean := clean_text p in
  if decide (clean = "dev/null" ∨ clean = "dev/zero") then mret (mkWriteResult (len data) (wrap64 (offset + len data)))
  else
    fd ← open_fd p (write_flags symlink);
    with_file fd
      (write_offset ← (if append then or_err EIO (call_ok (SysSeek fd SeekEnd))
                       else or_err EIO (call_ok (SysSeek fd (SeekStart offset))) ;; mret offset);
       n ← or_err EIO (call_ok (SysWrite fd data));
       mret (mkWriteResult n (wrap64 (write_offset + n)))).

Definition worker_stat_path (p : path) (directory : bool) : Kr Stat :=
  fd ← open_fd p (stat_flags directory);
  stat ← raw_fstat fd;
  raw_close fd ;;
  mret stat.

(** A call on the path while it is open for reading; the answer of the call after it is closed *)
Definition on_open {A} (p : path) (flags : Z) (f : Z → Kr A) : Kr A :=
  fd ← open_fd p flags;
  r ← kattempt (f fd);
  raw_close fd ;;
  klift r.

Definition worker_chmod_path (p : path) (directory : bool) (new_mode : Z) : Kr unit :=
  on_open p (stat_flags directory) (λ fd, call_ok (SysFchmod fd new_mode)).

Definition worker_truncate_path (p : path) (len : Z) (symlink : bool) : Kr unit :=
  fd ← open_fd p (write_flags symlink);
  with_file fd (or_err EIO (call_ok (SysFtruncate fd len))).

Definition worker_resolve_path (p : path) : Kr path :=
  fd ← open_fd p O_RDONLY;
  resolved ← raw_fpath fd;
  match resolved with
  | Some q => raw_close fd ;; mret q
  | None => kfail EIO
  end.

Definition worker_rename_path (old_path new_path : path) : Kr unit :=
  on_open old_path O_RDONLY (λ fd, call_ok (SysFrename fd (Str.from_utf8_lossy (Path.to_string new_path)))).

Definition worker_link_path (old_path new_path : path) : Kr unit :=
  on_open old_path O_RDONLY (λ fd, call_ok (SysFlink fd (Str.from_utf8_lossy (Path.to_string new_path)))).

Definition worker_unlink_path (p : path) (directory : bool) : Kr unit :=
  '(root, rest) ← place (clean_text p);
  call_ok (SysUnlinkat root rest (if directory then AT_REMOVEDIR else 0)).

(** ** Listings *)
Fixpoint parse_raw_dirents (raw : list RawDirent) : list (string * DirentKind) * option Z :=
  match raw with
  | [] => ([], None)
  | e :: raw' =>
      let '(es, last_opaque) := parse_raw_dirents raw' in
      (if Str.utf8_valid (rd_name e) && negb (bool_decide (rd_name e ∈ ["."; ".."]))
       then (rd_name e, default KindRegular (rd_kind e)) :: es else es,
       Some (default (rd_next e) last_opaque))
  end.

(** A buffer that is too small is doubled. *)
Fixpoint read_entries (fuel : nat) (fd buf_len opaque : Z) (entries : list (string * DirentKind))
    : Kr (list (string * DirentKind)) :=
  match fuel with
  | O => KOut
  | S fuel' =>
      r ← kattempt (call_ok (SysGetdents fd buf_len opaque));
      match r with
      | Ok (n, raw) =>
          if decide (n = 0) then raw_close fd ;; mret entries
          else
            let '(found, last_opaque) := parse_raw_dirents raw in
            read_entries fuel' fd buf_len (default opaque last_opaque) (entries ++ found)
      | Err EINVAL => read_entries fuel' fd (Z.max (Z.min (buf_len * 2) usize_max) 16384) opaque entries
      | Err e => raw_close fd ;; kfail e
      end
  end.

Definition rustlib_cache_key (p : path) : path := Path.components (clean_text p).

Definition worker_read_dir (p : path) : Kr (list (string * DirentKind)) :=
  match rustlib_dir_cache env !! rustlib_cache_key p with
  | Some cached => mret cached
  | None =>
      dir_fd ← open_fd p (Z.lor O_RDONLY O_DIRECTORY);
      read_entries fuel dir_fd 8192 0 []
  end.

(** ** Memory maps *)
Definition add_map (m : ActiveMap) (st : WorkerState) : MmapResult * WorkerState :=
  (mkMmapResult (next_map_token st) (am_base_addr m),
   mkWorker (Z.max (wrap64 (next_map_token st + 1)) 1) (<[next_map_token st := m]> (active_maps st))).

(** The file is read into the memory, until it is full or the file ends: how many bytes *)
Fixpoint fill_memory (fuel : nat) (fd base size filled : Z) : Kr Z :=
  match fuel with
  | O => KOut
  | S fuel' =>
      if decide (filled < size) then
        r ← kattempt (call_ok (SysReadInto fd (base + filled) (size - filled)));
        match r with
        | Ok n => if decide (n = 0) then mret filled else fill_memory fuel' fd base size (filled + n)
        | Err e => if decide (e = EINTR) then fill_memory fuel' fd base size filled else kfail e
        end
      else mret filled
  end.

Definition copy_path_mapping (p : path) (offset size : Z) (st : WorkerState) : Kr (MmapResult * WorkerState) :=
  fd ← open_fd p O_RDONLY;
  base ← kattempt (or_err ENOMEM (call_ok (AnonMap size)));
  match base with
  | Err e => raw_close fd ;; kfail e
  | Ok base =>
      copied ← kattempt (call_ok (SysSeek fd (SeekStart offset)) ;; fill_memory fuel fd base size 0);
      raw_close fd ;;
      match copied with
      | Ok filled =>
          (if decide (filled < size) then call (ZeroAt (base + filled) (size - filled)) else mret tt) ;;
          mret (add_map (mkActiveMap base size usize_max true) st)
      | Err _ => call (AnonUnmap base size) ;; kfail EIO
      end
  end.

Definition whole_pages (size : Z) : Z := wrap64 ((size + PAGE_SIZE - 1) / PAGE_SIZE * PAGE_SIZE).

Definition worker_mmap_path (p : path) (offset size flags : Z) (st : WorkerState) : Kr (MmapResult * WorkerState) :=
  let size := whole_pages size in
  match worker_mmap_plan p flags with
  | PrivateCopy => copy_path_mapping p offset size st
  | FileBacked open_flags =>
      fd ← open_fd p open_flags;
      r ← kattempt (call_ok (SysFmap fd offset size flags));
      match r with
      | Ok base => mret (add_map (mkActiveMap base size fd false) st)
      | Err e => raw_close fd ;; kfail e
      end
  end.

(** The map is forgotten before it is unmapped. *)
Definition worker_munmap_token (token : Z) (st : WorkerState) : kprog (result errno unit * WorkerState) :=
  match active_maps st !! token with
  | None => KRet (Err EBADF, st)
  | Some m =>
      kbind (if am_anonymous m then call (AnonUnmap (am_base_addr m) (am_len m))
             else call_ok (SysFunmap (am_base_addr m) (am_len m)) ;; raw_close (am_backing_fd m))
        (λ r, KRet (r, mkWorker (next_map_token st) (delete token (active_maps st))))
  end.

(** ** The loop *)
Definition reading {A} (m : Kr A) (st : WorkerState) : kprog (result errno A * WorkerState) :=
  kbind m (λ r, KRet (r, st)).

Definition worker_step {X : Set} (r : IoRequest X) (st : WorkerState) : kprog (X * WorkerState) :=
  match r in IoRequest X return kprog (X * WorkerState) with
  | OpenPath p flags => reading (worker_open_path p flags) st
  | EnsureDirTree p => reading (worker_ensure_dir_tree p) st
  | ReadAt p offset len symlink => reading (worker_read_at p offset len symlink) st
  | WriteAt p offset append symlink data => reading (worker_write_at p offset append symlink data) st
  | StatPath p directory => reading (worker_stat_path p directory) st
  | ChmodPath p directory new_mode => reading (worker_chmod_path p directory new_mode) st
  | TruncatePath p len symlink => reading (worker_truncate_path p len symlink) st
  | ReadDir p => reading (worker_read_dir p) st
  | ResolvePath p => reading (worker_resolve_path p) st
  | RenamePath old_path new_path => reading (worker_rename_path old_path new_path) st
  | LinkPath old_path new_path => reading (worker_link_path old_path new_path) st
  | UnlinkPath p directory => reading (worker_unlink_path p directory) st
  | MmapPath p offset size flags =>
      kbind (worker_mmap_path p offset size flags st) (λ r, KRet match r with
        | Ok (m, st') => (Ok m, st')
        | Err e => (Err e, st)
        end)
  | MunmapToken token => worker_munmap_token token st
  end.

(** [Shutdown]: every map is unmapped and its descriptor closed, also the one a copy does not have. *)
Fixpoint unmap_active (ms : list (Z * ActiveMap)) : Kr unit :=
  match ms with
  | [] => mret tt
  | (_, m) :: ms' =>
      _ ← kattempt (call_ok (SysFunmap (am_base_addr m) (am_len m)));
      raw_close (am_backing_fd m) ;;
      unmap_active ms'
  end.

Definition worker_shutdown (st : WorkerState) : kprog (result errno unit) := unmap_active (map_to_list (active_maps st)).

(** A program of the handler on this worker *)
Fixpoint on_worker {A} (m : prog A) (st : WorkerState) : kprog (A * WorkerState) :=
  match m with
  | Ret a => KRet (a, st)
  | Req r k => kbind (worker_step r st) (λ xs, on_worker (k xs.1) xs.2)
  | Hang => KOut
  end.

End worker.
