(* ===== verification/IoWorkerFacts.v ===== *)
(** * The I/O worker of the build sandbox: theorems

    What the worker does with descriptors and memory: each is given back once, but for those of the
    maps that are in use. *)

From S2P Require Import Prelude RustStd Bytes AllowList HandleId ProxyIo ProxyHandler ProxySafety IoWorker.

Open Scope Z_scope.

(** ** The calls of a run *)
(** [a] is a result of the tree for some answers, and [l] are the calls with the answers. *)
Fixpoint runs {A} (m : kprog A) (a : A) (l : list event) : Prop :=
  match m with
  | KRet b => a = b ∧ l = []
  | KCall c k => ∃ x l', l = ev c x :: l' ∧ runs (k x) a l'
  | KOut => False
  end.

Lemma krun_runs {K A} (kernel : ∀ X : Set, kcall X → K → X * K) (m : kprog A) k a k' l :
  krun kernel m k = Some (a, k', l) → runs m a l.
Proof.
  revert k l. induction m as [b|X c f IH|]; intros k l; simpl; [by intros [= -> _ <-]| |done].
  destruct (kernel X c k) as [x k1]. destruct (krun kernel (f x) k1) as [[[b k2] l1]|] eqn:E; [|done].
  simpl. intros [= -> -> <-]. exists x, l1. split; [done|]. by apply (IH x k1).
Qed.

Lemma runs_bind {A B} (m : kprog A) (f : A → kprog B) b l :
  runs (kbind m f) b l → ∃ a l1 l2, l = l1 ++ l2 ∧ runs m a l1 ∧ runs (f a) b l2.
Proof.
  revert l. induction m as [a|X c k IH|]; intros l; simpl; [intros H; by exists a, [], l| |done].
  intros (x & l' & -> & H). apply IH in H as (a & l1 & l2 & -> & H1 & H2). exists a, (ev c x :: l1), l2.
  split; [done|]. split; [|done]. by exists x, l1.
Qed.

(** The same for operations that may fail *)
Lemma runs_kr {A B} (m : Kr A) (f : A → Kr B) r l :
  runs (m ≫= f) r l →
  ∃ l1 l2, l = l1 ++ l2 ∧ ((∃ a, runs m (Ok a) l1 ∧ runs (f a) r l2) ∨ (∃ e, runs m (Err e) l1 ∧ r = Err e ∧ l2 = [])).
Proof.
  intros H. apply runs_bind in H as ([a|e] & l1 & l2 & -> & H1 & H2); exists l1, l2; (split; [done|]).
  - left. by exists a.
  - right. destruct H2 as [-> ->]. by exists e.
Qed.

Lemma runs_attempt {A} (m : Kr A) r l : runs (kattempt m) r l → ∃ a, r = Ok a ∧ runs m a l.
Proof. intros H. apply runs_bind in H as (a & l1 & l2 & -> & H1 & [-> ->]). exists a. by rewrite app_nil_r. Qed.

(** ** What was opened, closed, mapped, unmapped *)
Definition opened1 {X : Set} (c : kcall X) : X → list Z :=
  match c in kcall X return X → list Z with
  | SysOpenat _ _ _ | SysDup _ => λ x, match x with Ok fd => [fd] | Err _ => [] end
  | _ => λ _, []
  end.

Definition closed1 {X : Set} (c : kcall X) : list Z := match c with SysClose fd => [fd] | _ => [] end.

Definition mapped1 {X : Set} (c : kcall X) : X → list (Z * Z) :=
  match c in kcall X return X → list (Z * Z) with
  | SysFmap _ _ len _ | AnonMap len => λ x, match x with Ok addr => [(addr, len)] | Err _ => [] end
  | _ => λ _, []
  end.

Definition unmapped1 {X : Set} (c : kcall X) : X → list (Z * Z) :=
  match c in kcall X return X → list (Z * Z) with
  | SysFunmap addr len => λ x, match x with Ok _ => [(addr, len)] | Err _ => [] end
  | AnonUnmap addr len => λ _, [(addr, len)]
  | _ => λ _, []
  end.

(** The calls about a descriptor or a map the worker has, which a kernel has no reason to refuse *)
Definition answered1 {X : Set} (c : kcall X) : X → bool :=
  match c in kcall X return X → bool with
  | SysFstat _ => λ x, match x with Ok _ => true | Err _ => false end
  | SysFunmap _ _ => λ x, match x with Ok _ => true | Err _ => false end
  | SysFpath _ _ => λ x, match x with Ok bytes => match scheme_path_of bytes with Some _ => true | None => false end | Err _ => false end
  | _ => λ _, true
  end.

Definition opened (l : list event) : list Z := flat_map (λ e, opened1 (projT2 e).1 (projT2 e).2) l.
Definition closed (l : list event) : list Z := flat_map (λ e, closed1 (projT2 e).1) l.
Definition mapped (l : list event) : list (Z * Z) := flat_map (λ e, mapped1 (projT2 e).1 (projT2 e).2) l.
Definition unmapped (l : list event) : list (Z * Z) := flat_map (λ e, unmapped1 (projT2 e).1 (projT2 e).2) l.
Definition answered (l : list event) : bool := forallb (λ e, answered1 (projT2 e).1 (projT2 e).2) l.

Lemma opened_app l1 l2 : opened (l1 ++ l2) = opened l1 ++ opened l2. Proof. apply flat_map_app. Qed.
Lemma closed_app l1 l2 : closed (l1 ++ l2) = closed l1 ++ closed l2. Proof. apply flat_map_app. Qed.
Lemma mapped_app l1 l2 : mapped (l1 ++ l2) = mapped l1 ++ mapped l2. Proof. apply flat_map_app. Qed.
Lemma unmapped_app l1 l2 : unmapped (l1 ++ l2) = unmapped l1 ++ unmapped l2. Proof. apply flat_map_app. Qed.
Lemma answered_app l1 l2 : answered (l1 ++ l2) = answered l1 && answered l2. Proof. apply forallb_app. Qed.

Create Rewrite HintDb tally.
#[export] Hint Rewrite opened_app closed_app mapped_app unmapped_app answered_app : tally.

(** Nothing but calls in between *)
Record silent (l : list event) : Prop := mkSilent {
  si_opened : opened l = []; si_closed : closed l = []; si_mapped : mapped l = []; si_unmapped : unmapped l = [];
}.

(** The memory is left alone, nothing is closed that was not opened, and when the kernel has answered
    everything that was opened is closed. *)
Record even (l : list event) : Prop := mkEven {
  ev_closed : closed l ⊆+ opened l;
  ev_all : answered l = true → closed l ≡ₚ opened l;
  ev_mapped : mapped l = []; ev_unmapped : unmapped l = [];
}.

(** A descriptor that is held is closed, or the kernel has refused to say what it is. *)
Record closes (fd : Z) (l : list event) : Prop := mkCloses {
  cl_opened : opened l = [];
  cl_closed : closed l = [fd] ∨ closed l = [] ∧ answered l = false;
  cl_mapped : mapped l = []; cl_unmapped : unmapped l = [];
}.

Lemma silent_nil : silent []. Proof. done. Qed.
Lemma silent_even l : silent l → even l.
Proof. intros []. constructor; [by rewrite si_closed0, si_opened0|by rewrite si_closed0, si_opened0|done|done]. Qed.

Lemma even_nil : even []. Proof. apply silent_even, silent_nil. Qed.

Lemma even_app l1 l2 : even l1 → even l2 → even (l1 ++ l2).
Proof.
  intros [H1 A1 M1 U1] [H2 A2 M2 U2]. constructor; autorewrite with tally.
  - by apply submseteq_app.
  - intros [Ha Hb]%andb_true_iff. by rewrite A1, A2.
  - by rewrite M1, M2.
  - by rewrite U1, U2.
Qed.

Ltac tally H :=
  simpl in H;
  repeat match type of H with
    | _ ∧ _ => let H' := fresh in destruct H as [H' H]; subst
    | ∃ _, _ => let x := fresh "x" in destruct H as [x H]
    | context [match ?x with _ => _ end] => destruct x eqn:?; simpl in H
    end; subst; simpl in *; try done.

Section worker.
Context {ABI : SyscallAbi} {FM : FileMode} (env : WorkerEnv) (fuel : nat).

(** ** Opening *)
Definition opening (r : result errno Z) (l : list event) : Prop :=
  opened l = match r with Ok fd => [fd] | Err _ => [] end ∧ closed l = [] ∧ mapped l = [] ∧ unmapped l = [].

Lemma opening_call (c : kcall (result errno Z)) r l :
  (∀ x, opened1 c x = match x with Ok fd => [fd] | Err _ => [] end) → closed1 c = [] → (∀ x, mapped1 c x = []) →
  (∀ x, unmapped1 c x = []) → runs (call_ok c) r l → opening r l.
Proof.
  intros Ho Hc Hm Hu (x & l' & -> & -> & ->). unfold opening, opened, closed, mapped, unmapped. simpl.
  by rewrite Ho, Hc, Hm, Hu, !app_nil_r.
Qed.

Lemma opening_at root p flags r l : runs (raw_openat root p flags) r l → opening r l.
Proof. by apply opening_call. Qed.

Lemma opening_after {A} (m : Kr A) (f : A → Kr Z) r l :
  (∀ r1 l1, runs m r1 l1 → l1 = []) → (∀ a r1 l1, runs (f a) r1 l1 → opening r1 l1) → runs (m ≫= f) r l → opening r l.
Proof.
  intros Hm Hf H. apply runs_kr in H as (l1 & l2 & -> & [(a & H1 & H2)|(e & H1 & -> & ->)]).
  - apply Hm in H1 as ->. by eapply Hf.
  - by apply Hm in H1 as ->.
Qed.

Lemma root_of_nil fd r l : runs (root_of fd) r l → l = [].
Proof. destruct fd; by intros [_ ->]. Qed.

Lemma place_nil clean r l : runs (place env clean) r l → l = [].
Proof.
  assert (∀ fd rest r l, runs (root ← root_of fd; mret (root, rest) : Kr (Z * string)) r l → l = []) as Hr.
  { intros fd rest r' l' H. apply runs_kr in H as (l1 & l2 & -> & [(a & H1 & [_ ->])|(e & H1 & _ & ->)]);
      apply root_of_nil in H1 as ->; done. }
  unfold place. repeat case_match; try apply Hr. by intros [_ ->].
Qed.

Lemma open_fd_opening p flags r l : runs (open_fd env p flags) r l → opening r l.
Proof.
  assert (∀ fd r l, runs (fd ← root_of fd; call_ok (SysDup fd)) r l → opening r l) as Hdup.
  { intros fd r' l'. apply opening_after; [apply root_of_nil|]. intros a r1 l1. by apply opening_call. }
  unfold open_fd. repeat case_decide; [apply Hdup|apply Hdup|]. destruct (rustlib_path env (clean_text p)) as [mapped|].
  - unfold open_rustlib. case_match; [|apply opening_at].
    apply opening_after; [apply root_of_nil|]. intros a r1 l1. apply opening_at.
  - apply opening_after; [apply place_nil|]. intros [root rest] r1 l1. apply opening_at.
Qed.

(** What is opened is closed by what follows. *)
Lemma even_open {A} (o : Kr Z) (f : Z → Kr A) r l :
  (∀ r1 l1, runs o r1 l1 → opening r1 l1) → (∀ fd r1 l1, runs (f fd) r1 l1 → closes fd l1) →
  runs (o ≫= f) r l → even l.
Proof.
  intros Ho Hf H. apply runs_kr in H as (l1 & l2 & -> & [(fd & H1 & H2)|(e & H1 & -> & ->)]).
  - apply Ho in H1 as (Ho1 & Hc1 & Hm1 & Hu1). apply Hf in H2 as [Ho2 Hc2 Hm2 Hu2].
    constructor; autorewrite with tally; rewrite ?Ho1, ?Hc1, ?Hm1, ?Hu1, ?Ho2, ?Hm2, ?Hu2; try done.
    + destruct Hc2 as [->|[-> _]]; [done|apply submseteq_nil_l].
    + destruct Hc2 as [->|[_ ->]]; [done|by rewrite andb_false_r].
  - apply Ho in H1 as (Ho1 & Hc1 & Hm1 & Hu1). rewrite app_nil_r.
    constructor; rewrite ?Ho1, ?Hc1; done.
Qed.

Lemma even_fd {A} p flags (f : Z → Kr A) r l :
  (∀ fd r1 l1, runs (f fd) r1 l1 → closes fd l1) → runs (open_fd env p flags ≫= f) r l → even l.
Proof. apply even_open. intros. by eapply open_fd_opening. Qed.

(** ** Each operation on files *)
Lemma closes_file {A} fd (m : Kr A) r l : (∀ r1 l1, runs m r1 l1 → silent l1) → runs (with_file fd m) r l → closes fd l.
Proof.
  intros Hm H. unfold with_file in H. apply runs_kr in H as (l1 & l2 & -> & [(a & H1 & H2)|(e & H1 & _ & _)]).
  - apply runs_attempt in H1 as (b & [= <-] & H1). apply Hm in H1 as [Ho Hc Hmm Hu].
    destruct H2 as (x & l' & -> & _ & ->). constructor; autorewrite with tally; rewrite ?Ho, ?Hc, ?Hmm, ?Hu; simpl; auto.
  - by apply runs_attempt in H1 as (b & ? & _).
Qed.

(** A body that is run while the descriptor is held, step by step *)
Ltac closing :=
  let H := fresh in intros H; tally H; constructor; simpl;
  try match goal with x : result errno string |- _ => destruct x end;
  repeat match goal with E : ?x = _ |- context [match ?x with _ => _ end] => rewrite E end; simpl; auto.

Lemma open_path_even p flags r l : runs (worker_open_path env p flags) r l → even l.
Proof. unfold worker_open_path. apply even_fd. intros fd r1 l1. closing. Qed.

Lemma stat_path_even p directory r l : runs (worker_stat_path env p directory) r l → even l.
Proof. unfold worker_stat_path. apply even_fd. intros fd r1 l1. closing. Qed.

Lemma resolve_path_even p r l : runs (worker_resolve_path env p) r l → even l.
Proof. unfold worker_resolve_path. apply even_fd. intros fd r1 l1. closing. Qed.

Lemma chmod_path_even p directory m r l : runs (worker_chmod_path env p directory m) r l → even l.
Proof. unfold worker_chmod_path, on_open. apply even_fd. intros fd r1 l1. closing. Qed.

Lemma rename_path_even p q r l : runs (worker_rename_path env p q) r l → even l.
Proof. unfold worker_rename_path, on_open. apply even_fd. intros fd r1 l1. closing. Qed.

Lemma link_path_even p q r l : runs (worker_link_path env p q) r l → even l.
Proof. unfold worker_link_path, on_open. apply even_fd. intros fd r1 l1. closing. Qed.

Lemma truncate_path_even p n symlink r l : runs (worker_truncate_path env p n symlink) r l → even l.
Proof. unfold worker_truncate_path, with_file. apply even_fd. intros fd r1 l1. closing. Qed.

Lemma even_ret {A} (a : A) r l : runs (mret a : Kr A) r l → even l.
Proof. intros [_ ->]. apply even_nil. Qed.

Lemma read_at_even p offset n symlink r l : runs (worker_read_at env p offset n symlink) r l → even l.
Proof.
  unfold worker_read_at. cbv zeta. repeat (case_decide; [apply even_ret|]). apply even_fd. intros fd r1 l1 Hr.
  unfold with_file in Hr. tally Hr; constructor; simpl; auto.
Qed.

Lemma write_at_even p offset append symlink data r l : runs (worker_write_at env p offset append symlink data) r l → even l.
Proof.
  unfold worker_write_at. cbv zeta. case_decide; [apply even_ret|]. apply even_fd. intros fd r1 l1.
  unfold with_file. destruct append; closing.
Qed.

Lemma unlink_path_even p directory r l : runs (worker_unlink_path env p directory) r l → even l.
Proof.
  intros H. apply runs_kr in H as (l1 & l2 & -> & [([root rest] & H1 & H2)|(e & H1 & _ & ->)]); apply place_nil in H1 as ->;
    [|apply even_nil]. tally H2; by apply silent_even.
Qed.

Lemma mkdir_even built cs r l : runs (mkdir_along env built cs) r l → even l.
Proof.
  revert built l. induction cs as [|c cs IH]; intros built l; cbn [mkdir_along]; [apply even_ret|]. case_decide as Hk; [apply IH|].
  intros H. apply runs_kr in H as (l1 & l2 & -> & [(a & H1 & H2)|(e & H1 & _ & ->)]).
  - apply even_app; [|by eapply IH]. apply runs_attempt in H1 as (b & _ & H1). revert H1. apply even_open.
    + intros. by eapply opening_at.
    + intros fd r1 l3. closing.
  - apply runs_attempt in H1 as (b & ? & _). done.
Qed.

Lemma read_entries_closes n fd buf_len opaque entries r l :
  runs (read_entries n fd buf_len opaque entries) r l → closes fd l.
Proof.
  revert buf_len opaque entries l. induction n as [|n IH]; intros buf_len opaque entries l; [done|].
  cbn [read_entries]. intros (x & l' & -> & H).
  assert (closes fd l' → closes fd (ev (SysGetdents fd buf_len opaque) x :: l')) as Hc by (by intros []).
  apply Hc. clear Hc. destruct x as [[k raw]|e]; simpl in H.
  - case_decide as Hk; [tally H; constructor; simpl; auto|]. destruct (parse_raw_dirents raw). by eapply IH.
  - destruct e; try (by eapply IH); tally H; constructor; simpl; auto.
Qed.

Lemma read_dir_even p r l : runs (worker_read_dir env fuel p) r l → even l.
Proof.
  unfold worker_read_dir. destruct (rustlib_dir_cache env !! _); [apply even_ret|]. apply even_fd.
  intros fd r1 l1. apply read_entries_closes.
Qed.

(** ** Maps *)
Definition backing1 (m : ActiveMap) : list Z := if am_anonymous m then [] else [am_backing_fd m].
Definition backing (st : WorkerState) : list Z := flat_map (λ e, backing1 e.2) (map_to_list (active_maps st)).
Definition live (st : WorkerState) : list (Z * Z) := (λ e, (am_base_addr e.2, am_len e.2)) <$> map_to_list (active_maps st).

(** A request that maps memory: the map it leaves, if any *)
Definition maps (m : option ActiveMap) (l : list event) : Prop :=
  let kept := option_list ((λ m, (am_base_addr m, am_len m)) <$> m) in
  let fds := match m with Some m => backing1 m | None => [] end in
  closed l ++ fds ⊆+ opened l ∧ (answered l = true → closed l ++ fds ≡ₚ opened l) ∧ mapped l ≡ₚ unmapped l ++ kept.

Definition mapping (st : WorkerState) (r : result errno (MmapResult * WorkerState)) (l : list event) : Prop :=
  match r with
  | Ok (res, st') => ∃ m, maps (Some m) l ∧ (res, st') = add_map m st
  | Err _ => maps None l
  end.

Lemma fill_silent n fd base size filled r l : runs (fill_memory n fd base size filled) r l → silent l.
Proof.
  revert filled l. induction n as [|n IH]; intros filled l; [done|]. cbn [fill_memory].
  case_decide as Hk; [|by intros [_ ->]]. intros (x & l' & -> & H).
  assert (silent l') as [Ho Hc Hm Hu] by (destruct x; simpl in H; case_decide as Hk2; try (by eapply IH); by destruct H as [_ ->]).
  by constructor.
Qed.

Lemma mapping_open p flags (f : Z → Kr (MmapResult * WorkerState)) st r l :
  (∀ fd r1 l1 l0, opening (Ok fd) l0 → runs (f fd) r1 l1 → mapping st r1 (l0 ++ l1)) →
  runs (open_fd env p flags ≫= f) r l → mapping st r l.
Proof.
  intros Hf H. apply runs_kr in H as (l1 & l2 & -> & [(fd & H1 & H2)|(e & H1 & -> & ->)]).
  - apply open_fd_opening in H1. by eapply Hf.
  - apply open_fd_opening in H1 as (Ho & Hc & Hm & Hu). rewrite app_nil_r. unfold mapping, maps.
    by rewrite Ho, Hc, Hm, Hu.
Qed.

Lemma anon_map size base l :
  runs (or_err ENOMEM (call_ok (AnonMap size))) base l →
  opened l = [] ∧ closed l = [] ∧ mapped l = match base with Ok b => [(b, size)] | Err _ => [] end ∧ unmapped l = [].
Proof. intros (x & l' & -> & -> & ->). by destruct x. Qed.

Lemma copied_silent fd base size offset r l :
  runs (call_ok (SysSeek fd (SeekStart offset)) ;; fill_memory fuel fd base size 0 : Kr Z) r l → silent l.
Proof.
  intros (x & l' & -> & H). destruct x; simpl in H; [|by destruct H as [_ ->]]. apply fill_silent in H as [].
  by constructor.
Qed.

Lemma copy_mapping p offset size st r l : runs (copy_path_mapping env fuel p offset size st) r l → mapping st r l.
Proof.
  unfold copy_path_mapping. apply mapping_open. intros fd r1 l1 l0 (Ho & Hc & Hm & Hu) H.
  apply runs_kr in H as (la & lb & -> & [(base & Ha & Hb)|(e & Ha & _ & _)]); [|by apply runs_attempt in Ha as (? & ? & _)].
  apply runs_attempt in Ha as (? & [= <-] & Ha). apply anon_map in Ha as (Hoa & Hca & Hma & Hua). destruct base as [base|e].
  - apply runs_kr in Hb as (lc & ld & -> & [(copied & H1 & H2)|(e & H1 & _ & _)]); [|by apply runs_attempt in H1 as (? & ? & _)].
    apply runs_attempt in H1 as (? & [= <-] & H1). apply copied_silent in H1 as [Ho1 Hc1 Hm1 Hu1].
    destruct copied as [filled|e]; tally H2; [exists (mkActiveMap base size usize_max true); split; [|done]..|];
      unfold maps; autorewrite with tally; rewrite Ho, Hc, Hm, Hu, Hoa, Hca, Hma, Hua, Ho1, Hc1, Hm1, Hu1; done.
  - tally Hb. unfold maps. autorewrite with tally. by rewrite Ho, Hc, Hm, Hu, Hoa, Hca, Hma, Hua.
Qed.

Lemma mmap_mapping p offset size flags st r l : runs (worker_mmap_path env fuel p offset size flags st) r l → mapping st r l.
Proof.
  unfold worker_mmap_path. destruct (worker_mmap_plan p flags) as [|open_flags]; [apply copy_mapping|].
  apply mapping_open. intros fd r1 l1 l0 (Ho & Hc & Hm & Hu) H. tally H;
    [exists (mkActiveMap a (whole_pages size) fd false); split; [|done]|];
    unfold maps; autorewrite with tally; rewrite Ho, Hc, Hm, Hu; simpl; done.
Qed.

(** ** The worker as a whole *)
Record balanced (st : WorkerState) (l : list event) : Prop := mkBalanced {
  ba_closed : closed l ++ backing st ⊆+ opened l;
  ba_unmapped : unmapped l ++ live st ⊆+ mapped l;
  ba_all : answered l = true → closed l ++ backing st ≡ₚ opened l ∧ unmapped l ++ live st ≡ₚ mapped l;
}.

(** Tokens that are in use have been given out. *)
Definition tokens (st : WorkerState) (n : nat) : Prop :=
  1 ≤ next_map_token st ≤ 1 + Z.of_nat n ∧ map_Forall (λ t _, t < next_map_token st) (active_maps st).

Lemma balanced_start : balanced worker_start [].
Proof. by constructor. Qed.

Lemma balanced_even st l l' : balanced st l → even l' → balanced st (l ++ l').
Proof.
  intros [Hc Hu Ha] [Hc' Ha' Hm' Hu']. constructor; autorewrite with tally; rewrite ?Hm', ?Hu', ?app_nil_r; [|done|].
  - rewrite <- (assoc_L (++)), (comm (++) (closed l')), (assoc_L (++)). by apply submseteq_app.
  - intros [H1 H2]%andb_true_iff. apply Ha in H1 as [H1 H3]. split; [|done].
    rewrite <- (assoc_L (++)), (comm (++) (closed l')), (assoc_L (++)). by rewrite H1, Ha'.
Qed.

Lemma active_insert (m : ActiveMap) st :
  active_maps st !! next_map_token st = None → let st' := (add_map m st).2 in
  backing st' ≡ₚ backing1 m ++ backing st ∧ live st' ≡ₚ (am_base_addr m, am_len m) :: live st.
Proof.
  intros Hn st'. unfold st', backing, live. simpl. rewrite map_to_list_insert by done. done.
Qed.

Lemma active_delete t (m : ActiveMap) st next :
  active_maps st !! t = Some m → let st' := mkWorker next (delete t (active_maps st)) in
  backing st ≡ₚ backing1 m ++ backing st' ∧ live st ≡ₚ (am_base_addr m, am_len m) :: live st'.
Proof.
  intros Hm st'. unfold st', backing, live. simpl. rewrite <- (map_to_list_delete _ _ _ Hm). done.
Qed.

Lemma balanced_map st l m l' :
  active_maps st !! next_map_token st = None → balanced st l → maps (Some m) l' → balanced (add_map m st).2 (l ++ l').
Proof.
  intros Hn [Hc Hu Ha] (Hc' & Ha' & Hm'). destruct (active_insert m st Hn) as [Hb Hl]. simpl in *.
  constructor; autorewrite with tally; rewrite ?Hb, ?Hl, ?Hm'.
  - transitivity ((closed l ++ backing st) ++ closed l' ++ backing1 m); [|by apply submseteq_app].
    apply Permutation_submseteq. solve_Permutation.
  - transitivity ((unmapped l ++ live st) ++ unmapped l' ++ [(am_base_addr m, am_len m)]); [|by apply submseteq_app].
    apply Permutation_submseteq. solve_Permutation.
  - intros [H1 H2]%andb_true_iff. apply Ha in H1 as [H1 H3]. apply Ha' in H2. split.
    + rewrite <- H1, <- H2. solve_Permutation.
    + rewrite <- H3. solve_Permutation.
Qed.

Lemma munmap_gives_back t st r st' l :
  runs (worker_munmap_token t st) (r, st') l →
  match active_maps st !! t with
  | None => l = [] ∧ st' = st
  | Some m =>
      st' = mkWorker (next_map_token st) (delete t (active_maps st)) ∧ opened l = [] ∧ mapped l = []
      ∧ (closed l = backing1 m ∧ unmapped l = [(am_base_addr m, am_len m)]
         ∨ closed l = [] ∧ unmapped l = [] ∧ answered l = false)
  end.
Proof.
  unfold worker_munmap_token, backing1. destruct (active_maps st !! t) as [m|]; [|by intros [[= _ ->] ->]].
  destruct (am_anonymous m) eqn:Ea; intros H; tally H; simplify_eq; auto 10.
Qed.

Lemma balanced_unmap st t m l l' next :
  active_maps st !! t = Some m → balanced st l → opened l' = [] → mapped l' = [] →
  (closed l' = backing1 m ∧ unmapped l' = [(am_base_addr m, am_len m)]
   ∨ closed l' = [] ∧ unmapped l' = [] ∧ answered l' = false) →
  balanced (mkWorker next (delete t (active_maps st))) (l ++ l').
Proof.
  intros Hm [Hc Hu Ha] Ho Hmm Hl. destruct (active_delete t m st next Hm) as [Hb Hlv]. simpl in *.
  rewrite Hb in Hc, Ha. rewrite Hlv in Hu, Ha.
  constructor; autorewrite with tally; rewrite ?Ho, ?Hmm, ?app_nil_r.
  - rewrite <- Hc. destruct Hl as [[-> _]|(-> & _ & _)]; [by rewrite <- (assoc_L (++))|].
    simpl. rewrite app_nil_r. apply submseteq_app; [done|]. by apply submseteq_inserts_l.
  - rewrite <- Hu. destruct Hl as [[_ ->]|(_ & -> & _)]; [by rewrite <- (assoc_L (++))|].
    simpl. rewrite app_nil_r. apply submseteq_app; [done|]. by apply submseteq_cons.
  - intros [H1 H2]%andb_true_iff. apply Ha in H1. destruct Hl as [[-> ->]|(_ & _ & He)]; [|by rewrite H2 in He].
    by rewrite <- !(assoc_L (++)).
Qed.

Lemma tokens_mono st n n' : tokens st n → (n ≤ n')%nat → tokens st n'.
Proof. intros [? ?] ?. split; [lia|done]. Qed.

Lemma tokens_fresh st n : tokens st n → active_maps st !! next_map_token st = None.
Proof. intros [_ Ht]. destruct (active_maps st !! next_map_token st) eqn:E; [|done]. apply Ht in E. lia. Qed.

Lemma tokens_add st m n : Z.of_nat n + 1 < 2^64 - 1 → tokens st n → tokens (add_map m st).2 (S n).
Proof.
  intros Hn [Hr Ht]. unfold add_map. simpl.
  assert (Z.max (wrap64 (next_map_token st + 1)) 1 = next_map_token st + 1) as Hx.
  { rewrite wrap64_small; unfold u64, u64_max; lia. }
  split; simpl; rewrite Hx; [lia|]. apply map_Forall_insert_2; [lia|]. eapply map_Forall_impl; [exact Ht|]. simpl. lia.
Qed.

Lemma step_balanced {X : Set} (r : IoRequest X) st x st' l l' :
  balanced st l → tokens st (length (mapped l)) → Z.of_nat (length (mapped (l ++ l'))) < 2^64 - 1 →
  runs (worker_step env fuel r st) (x, st') l' → balanced st' (l ++ l') ∧ tokens st' (length (mapped (l ++ l'))).
Proof.
  intros Hb Ht Hn H.
  assert (length (mapped l) ≤ length (mapped (l ++ l')))%nat as Hle by (autorewrite with tally; rewrite length_app; lia).
  assert (∀ A (m : Kr A) (y : result errno A), (∀ r l, runs m r l → even l) → runs (reading m st) (y, st') l' →
            balanced st' (l ++ l') ∧ tokens st' (length (mapped (l ++ l')))) as Heven.
  { intros A m y Hm Hr. apply runs_bind in Hr as (a & l1 & l2 & -> & H1 & [[= -> ->] ->]). rewrite app_nil_r in *.
    split; [|by eapply tokens_mono]. eapply balanced_even; [done|by eapply Hm]. }
  destruct r; simpl in H; try (eapply Heven; [|exact H]).
  - intros. by eapply open_path_even.
  - intros r0 l0. apply mkdir_even.
  - intros. by eapply read_at_even.
  - intros. by eapply write_at_even.
  - intros. by eapply stat_path_even.
  - intros. by eapply chmod_path_even.
  - intros. by eapply truncate_path_even.
  - intros. by eapply read_dir_even.
  - intros. by eapply resolve_path_even.
  - intros. by eapply rename_path_even.
  - intros. by eapply link_path_even.
  - intros. by eapply unlink_path_even.
  - apply runs_bind in H as (a & l1 & l2 & -> & H1 & H2). apply mmap_mapping in H1.
    destruct a as [[res st1]|e]; destruct H2 as [[= -> ->] ->]; rewrite app_nil_r in *.
    + destruct H1 as (m & Hm & [= _ ->]). split; [|].
      * apply (balanced_map st l m); [by eapply tokens_fresh|done|done].
      * assert (S (length (mapped l)) ≤ length (mapped (l ++ l1)))%nat as Hs.
        { autorewrite with tally. rewrite length_app. destruct Hm as (_ & _ & ->). rewrite length_app. simpl. lia. }
        eapply (tokens_mono _ (S (length (mapped l)))); [|lia]. apply (tokens_add st m); [lia|done].
    + destruct H1 as (Hc & Ha & Hm). simpl in *. rewrite app_nil_r in Hc, Ha. rewrite app_nil_r in Hm.
      split; [|by eapply tokens_mono]. destruct Hb as [Hc0 Hu0 Ha0].
      constructor; autorewrite with tally.
      * rewrite <- (assoc_L (++)), (comm (++) (closed l1)), (assoc_L (++)). by apply submseteq_app.
      * rewrite Hm, <- (assoc_L (++)), (comm (++) (unmapped l1)), (assoc_L (++)). by apply submseteq_app.
      * intros [H1 H2]%andb_true_iff. apply Ha0 in H1 as [H1 H3]. apply Ha in H2. split.
        -- rewrite <- H1, <- H2. solve_Permutation.
        -- rewrite <- H3, Hm. solve_Permutation.
  - apply munmap_gives_back in H. case_match eqn:Em; [rename select ActiveMap into m|].
    + destruct H as (-> & Ho & Hm & Hl). split; [by eapply balanced_unmap|].
      eapply tokens_mono in Ht; [|exact Hle]. destruct Ht as [Hr Hk]. split; [done|].
      simpl. by apply map_Forall_delete.
    + destruct H as [-> ->]. by rewrite app_nil_r in *.
Qed.

Lemma on_worker_balanced {A} (m : prog A) st a st' l l' :
  balanced st l → tokens st (length (mapped l)) → Z.of_nat (length (mapped (l ++ l'))) < 2^64 - 1 →
  runs (on_worker env fuel m st) (a, st') l' → balanced st' (l ++ l').
Proof.
  revert st l l'. induction m as [b|X r k IH|]; intros st l l' Hb Ht Hn; simpl; [|..|done].
  - intros [[= -> ->] ->]. by rewrite app_nil_r.
  - intros H. apply runs_bind in H as ([x st1] & l1 & l2 & -> & H1 & H2). rewrite (assoc_L (++)) in *.
    assert (Z.of_nat (length (mapped (l ++ l1))) < 2^64 - 1) as Hn1.
    { rewrite mapped_app, length_app in Hn. lia. }
    destruct (step_balanced r st x st1 l l1 Hb Ht Hn1 H1) as [Hb1 Ht1]. by eapply IH.
Qed.

(** ** The end of the worker *)
Lemma unmap_active_spec ms r l :
  runs (unmap_active ms) r l →
  r = Ok tt ∧ opened l = [] ∧ mapped l = [] ∧ closed l = (λ e, am_backing_fd e.2) <$> ms
  ∧ (answered l = true → unmapped l = (λ e, (am_base_addr e.2, am_len e.2)) <$> ms).
Proof.
  revert l. induction ms as [|[t m] ms IH]; intros l; [by intros [-> ->]|]. cbn [unmap_active].
  intros (x & l1 & -> & (y & l2 & -> & H)). apply IH in H as (-> & Ho & Hm & Hc & Ha).
  destruct x; simpl; rewrite Ho, Hm, Hc; (split_and!; [done..|]); [|done].
  intros Hl. by rewrite (Ha Hl).
Qed.

Lemma backing_closed st : backing st ⊆+ (λ e, am_backing_fd e.2) <$> map_to_list (active_maps st).
Proof.
  unfold backing. induction (map_to_list (active_maps st)) as [|[t m] ms IH]; [done|]. simpl. unfold backing1 at 1.
  destruct (am_anonymous m); simpl; [by apply submseteq_cons|by apply submseteq_skip].
Qed.

(** ** Every request comes to its end *)
Section ends.
Context {K : Type} (kernel : ∀ X : Set, kcall X → K → X * K).

Definition ends {A} (m : kprog A) : Prop := ∀ k, is_Some (krun kernel m k).

Lemma ends_ret {A} (a : A) : ends (KRet a). Proof. intros k. simpl. eauto. Qed.

Lemma ends_bind {A B} (m : kprog A) (f : A → kprog B) : ends m → (∀ a, ends (f a)) → ends (kbind m f).
Proof.
  intros Hm Hf k. destruct (Hm k) as [[[a k'] l] E]. clear Hm. revert k l E.
  induction m as [b|X c g IH|]; intros k l; simpl; [intros _; apply Hf| |done].
  destruct (kernel X c k) as [x k1]. destruct (krun kernel (g x) k1) as [[[b k2] l1]|] eqn:E; [|done]. simpl.
  intros [= -> -> _]. apply IH in E as [[[b k3] l2] ->]. simpl. eauto.
Qed.

Lemma ends_call {A} (X : Set) (c : kcall X) (f : X → kprog A) : (∀ x, ends (f x)) → ends (KCall c f).
Proof. intros Hf k. simpl. destruct (kernel X c k) as [x k1]. destruct (Hf x k1) as [[[a k2] l] ->]. simpl. eauto. Qed.

Lemma ends_kr {A B} (m : Kr A) (f : A → Kr B) : ends m → (∀ a, ends (f a)) → ends (m ≫= f).
Proof. intros Hm Hf. apply ends_bind; [done|]. intros [a|e]; [done|apply ends_ret]. Qed.

(** A directory that is listed: [left] says how many entries come at and after a position.  A call
    gives some of those at the position it is asked for, of which the last says where the next
    ones are, or says with 0 that there are none; it refuses a buffer the first of them does not
    fit in, and the length of an entry has 16 bits.  Listing changes no directory. *)
Definition lists (left : Z → Z → K → nat) : Prop :=
  ∀ fd buf_len opaque k,
    let '(x, k') := kernel _ (SysGetdents fd buf_len opaque) k in
    (∀ fd' o, left fd' o k' = left fd' o k)
    ∧ match x with
      | Ok (0, _) => True
      | Ok (_, raw) => ∃ e, last raw = Some e ∧ (left fd (rd_next e) k < left fd opaque k)%nat
      | Err EINVAL => buf_len < 2^16
      | Err _ => True
      end.

(** Reads into memory give their number and are not interrupted; directories have some entries
    fewer than [n]. *)
Record patient (n : nat) : Prop := mkPatient {
  pt_read fd addr len k v : (kernel _ (SysReadInto fd addr len) k).1 = Ok v → 0 ≤ v;
  pt_eintr fd addr len k : (kernel _ (SysReadInto fd addr len) k).1 ≠ Err EINTR;
  pt_listing : ∃ left, lists left ∧ ∀ fd k, (left fd 0%Z k + 3 < n)%nat;
}.

Lemma ends_fill n fd base size filled :
  patient fuel → (Z.to_nat (size - filled) < n)%nat → ends (fill_memory n fd base size filled).
Proof.
  intros Hp. revert filled. induction n as [|n IH]; intros filled Hn; [lia|]. cbn [fill_memory].
  case_decide as Hf; [|apply ends_ret]. intros k. simpl.
  pose proof (pt_read _ Hp fd (base + filled) (size - filled) k) as Hr.
  pose proof (pt_eintr _ Hp fd (base + filled) (size - filled) k) as He.
  destruct (kernel _ (SysReadInto fd (base + filled) (size - filled)) k) as [[v|e] k1]; simpl in *.
  - specialize (Hr v eq_refl). case_decide; [simpl; eauto|].
    destruct (IH (filled + v) ltac:(lia) k1) as [[[a k2] l] ->]. simpl. eauto.
  - rewrite decide_False by (intros ->; done). simpl. eauto.
Qed.

Lemma last_opaque raw : (parse_raw_dirents raw).2 = rd_next <$> last raw.
Proof.
  induction raw as [|e raw IH]; [done|]. cbn [parse_raw_dirents]. destruct (parse_raw_dirents raw) as [es o].
  cbn [snd] in *. rewrite last_cons, IH. by destruct (last raw).
Qed.

(** How often a buffer can be refused before it is large enough for any entry *)
Definition doublings (buf_len : Z) : nat :=
  if decide (buf_len < 2^14) then 3 else if decide (buf_len < 2^15) then 2 else if decide (buf_len < 2^16) then 1 else 0.

Lemma doublings_less buf_len : buf_len < 2^16 → (doublings (Z.max (Z.min (buf_len * 2) usize_max) 16384) < doublings buf_len)%nat.
Proof. intros Hb. unfold doublings, usize_max, u64_max. repeat case_decide; lia. Qed.

Lemma ends_listing (left : Z → Z → K → nat) n fd buf_len opaque entries k :
  lists left → (left fd opaque k + doublings buf_len < n)%nat → is_Some (krun kernel (read_entries n fd buf_len opaque entries) k).
Proof.
  intros Hk. revert buf_len opaque entries k. induction n as [|n IH]; intros buf_len opaque entries k Hn; [lia|].
  cbn [read_entries]. simpl. specialize (Hk fd buf_len opaque k).
  destruct (kernel _ (SysGetdents fd buf_len opaque) k) as [[[v raw]|e] k1]; destruct Hk as [Hsame Hx]; simpl in *.
  - case_decide as Hv.
    + simpl. destruct (kernel _ (SysClose fd) k1). simpl. eauto.
    + pose proof (last_opaque raw) as Ho. destruct (parse_raw_dirents raw) as [found o]. cbn [snd] in Ho.
      assert (∃ e, last raw = Some e ∧ (left fd (rd_next e) k < left fd opaque k)%nat) as (e & He & Hlt) by (by destruct v).
      rewrite Ho, He. simpl. destruct (IH buf_len (rd_next e) (entries ++ found) k1) as [[[a k2] l] E]; [rewrite Hsame; lia|].
      rewrite E. simpl. eauto.
  - destruct e; try (simpl; destruct (kernel _ (SysClose fd) k1); simpl; by eauto).
    destruct (IH (Z.max (Z.min (buf_len * 2) usize_max) 16384) opaque entries k1) as [[[a' k2'] l'] E].
    { rewrite Hsame. pose proof (doublings_less buf_len Hx). lia. }
    rewrite E. simpl. eauto.
Qed.

Lemma ends_open p flags : ends (open_fd env p flags).
Proof.
  assert (∀ fd, ends (root_of fd)) as Hr by (intros [fd|]; apply ends_ret).
  assert (∀ c : kcall (result errno Z), ends (call_ok c)) as Hc by (intros c; apply ends_call; intros; apply ends_ret).
  unfold open_fd, open_rustlib, place, raw_openat.
  repeat first [apply Hc | apply Hr | apply ends_ret | apply ends_kr; [|intros] | case_match].
Qed.

Ltac ending :=
  repeat first [ progress intros | apply ends_ret | apply ends_open | apply ends_kr | apply ends_bind | apply ends_call | case_match ].

Lemma ends_mkdir built cs : ends (mkdir_along env built cs).
Proof.
  revert built. induction cs as [|c cs IH]; intros built; cbn [mkdir_along]; [apply ends_ret|].
  case_decide; [apply IH|]. apply ends_kr; [|intros; apply IH]. unfold kattempt, raw_mkdir, raw_openat, call_ok, raw_close, call. ending.
Qed.

Lemma ends_read_dir p : patient fuel → ends (worker_read_dir env fuel p).
Proof.
  intros [_ _ (left & Hk & Hl)]. unfold worker_read_dir. case_match; [apply ends_ret|]. apply ends_kr; [apply ends_open|].
  intros fd k. apply (ends_listing left); [done|]. apply Hl.
Qed.

Lemma ends_mmap p offset size flags st :
  patient fuel → whole_pages size < Z.of_nat fuel → ends (worker_mmap_path env fuel p offset size flags st).
Proof.
  intros Hp Hs. pose proof (wrap64_range ((size + PAGE_SIZE - 1) / PAGE_SIZE * PAGE_SIZE)) as [Hw _].
  fold (whole_pages size) in Hw. unfold worker_mmap_path. cbv zeta. destruct (worker_mmap_plan p flags).
  - unfold copy_path_mapping, kattempt, or_err, call_ok, raw_close, call, kfail. apply ends_kr; [apply ends_open|]. intros fd.
    apply ends_kr; [ending|]. intros [base|e]; [|ending].
    apply ends_kr; [|intros; ending]. apply ends_bind; [|intros; apply ends_ret].
    apply ends_kr; [ending|]. intros _. apply ends_fill; [done|lia].
  - unfold kattempt, call_ok, raw_close, call, kfail. ending.
Qed.

Lemma ends_step {X : Set} (r : IoRequest X) st :
  patient fuel → match r with MmapPath _ _ size _ => whole_pages size < Z.of_nat fuel | _ => True end →
  ends (worker_step env fuel r st).
Proof.
  intros Hp Hs. destruct r; simpl; unfold reading;
    try (apply ends_bind; [|intros; apply ends_ret]).
  - unfold worker_open_path, raw_fstat, raw_fpath, kattempt, call_ok, raw_close, call. ending.
  - apply ends_mkdir.
  - unfold worker_read_at, with_file, kattempt, or_err, raw_fstat, call_ok, raw_close, call, klift. ending.
  - unfold worker_write_at, with_file, kattempt, or_err, call_ok, raw_close, call, klift. ending.
  - unfold worker_stat_path, raw_fstat, call_ok, raw_close, call. ending.
  - unfold worker_chmod_path, on_open, kattempt, call_ok, raw_close, call, klift. ending.
  - unfold worker_truncate_path, with_file, kattempt, or_err, call_ok, raw_close, call, klift. ending.
  - by apply ends_read_dir.
  - unfold worker_resolve_path, raw_fpath, kattempt, call_ok, raw_close, call, kfail. ending.
  - unfold worker_rename_path, on_open, kattempt, call_ok, raw_close, call, klift. ending.
  - unfold worker_link_path, on_open, kattempt, call_ok, raw_close, call, klift. ending.
  - unfold worker_unlink_path, place, root_of, call_ok. ending.
  - by apply ends_mmap.
  - unfold worker_munmap_token, call_ok, raw_close, call. ending.
Qed.

Lemma ends_shutdown st : ends (worker_shutdown st).
Proof.
  unfold worker_shutdown. induction (map_to_list (active_maps st)) as [|[t m] ms IH]; [apply ends_ret|]. cbn [unmap_active].
  unfold kattempt, call_ok, raw_close, call. apply ends_kr; [ending|]. intros _. apply ends_kr; [ending|]. by intros _.
Qed.
End ends.

(** C32. Whatever the handler asks the worker for and whatever the kernel answers: nothing is closed or
    unmapped that the worker does not have, and nothing twice.  As long as the kernel answers about the
    descriptors and maps the worker has, all it has opened and not closed are the files of its maps, and
    all it has mapped and not unmapped are the maps that are in use; when it is shut down everything is
    closed and unmapped.  Every request comes to its end, if reads into memory are not interrupted and
    the kernel lists directories as it should, entry after entry, refusing only buffers that are too
    small for one. *)
Theorem worker_gives_back {K A} (kernel : ∀ X : Set, kcall X → K → X * K) (m : prog A) k a st k' l :
  krun kernel (on_worker env fuel m worker_start) k = Some (a, st, k', l) → Z.of_nat (length (mapped l)) < 2^64 - 1 →
  (closed l ++ backing st ⊆+ opened l ∧ unmapped l ++ live st ⊆+ mapped l)
  ∧ (answered l = true → closed l ++ backing st ≡ₚ opened l ∧ unmapped l ++ live st ≡ₚ mapped l)
  ∧ (∃ r k2 l2, krun kernel (worker_shutdown st) k' = Some (r, k2, l2)
       ∧ (answered (l ++ l2) = true → opened (l ++ l2) ⊆+ closed (l ++ l2) ∧ unmapped (l ++ l2) ≡ₚ mapped (l ++ l2)))
  ∧ (patient kernel fuel → ∀ (X : Set) (r : IoRequest X) k1,
       match r with MmapPath _ _ size _ => whole_pages size < Z.of_nat fuel | _ => True end →
       is_Some (krun kernel (worker_step env fuel r st) k1)).
Proof.
  intros Hr Hn. assert (balanced st l) as [Hc Hu Ha].
  { apply krun_runs in Hr. eapply (on_worker_balanced m worker_start a st [] l); [by constructor| |done|done].
    split; simpl; [lia|apply map_Forall_empty]. }
  split; [done|]. split; [done|]. split; [|intros Hp X r k1 Hs; by apply ends_step].
  destruct (ends_shutdown kernel st k') as [[[r k2] l2] E]. exists r, k2, l2. split; [done|].
  apply krun_runs, unmap_active_spec in E as (_ & Ho2 & Hm2 & Hc2 & Ha2). autorewrite with tally.
  intros [H1 H2]%andb_true_iff. destruct (Ha H1) as [H3 H4]. rewrite Ho2, Hm2, !app_nil_r, Hc2, (Ha2 H2). split; [|done].
  rewrite <- H3. apply submseteq_app; [done|]. apply backing_closed.
Qed.
End worker.

(** ** The handler on the worker, on a concrete kernel *)
Module WorkerDemo.
#[local] Existing Instance redox_abi.
#[local] Instance modes : FileMode := {| MODE_FILE := 0x8000 |}.

Definition env : WorkerEnv := mkWorkerEnv 3 (Some 4) (Some 5) (Some 6) None ∅ None.

(** A directory of three entries, of which one call gives one, if the buffer is large *)
Definition three : list RawDirent :=
  [mkRawDirent "." (Some KindDirectory) 1; mkRawDirent "a" (Some KindRegular) 2; mkRawDirent "b" None 3].

Definition list_three (buf_len opaque : Z) : result errno (Z * list RawDirent) :=
  if decide (buf_len < 40000) then Err EINVAL
  else if decide (0 ≤ opaque) then match three !! Z.to_nat opaque with Some e => Ok (24, [e]) | None => Ok (0, []) end
  else Ok (0, []).

(** The numbers it hands out grow; files are empty for maps. *)
Definition kernel (X : Set) (c : kcall X) (k : Z) : X * Z :=
  match c in kcall X return X * Z with
  | SysOpenat _ _ _ | SysDup _ => (Ok k, k + 1)
  | SysFmap _ _ _ _ | AnonMap _ => (Ok (k * 4096), k + 1)
  | SysFstat _ => (Ok ProxyDemo.file_stat, k)
  | SysFpath _ _ => (Ok "/scheme/file/tmp/b/y", k)
  | SysClose _ | AnonUnmap _ _ | ZeroAt _ _ => (tt, k)
  | SysFchmod _ _ | SysFtruncate _ _ | SysFrename _ _ | SysFlink _ _ | SysUnlinkat _ _ _ | SysFunmap _ _ => (Ok tt, k)
  | SysSeek _ _ | SysReadInto _ _ _ => (Ok 0, k)
  | SysRead _ _ => (Ok "content", k)
  | SysWrite _ data => (Ok (len data), k)
  | SysGetdents _ buf_len opaque => (list_three buf_len opaque, k)
  end.

(** An output and a scratch file are written and mapped; one map is given up. *)
Definition ops : list Op :=
  [OpOpenat 0 "/nix/store/out/bin/x" 0x02020000; OpWrite 1 "data" 0; OpOpenat 0 "/tmp/b/y" 0x02020000;
   OpMmapPrep 1 0 5000 0; OpMmapPrep 2 0 5000 0; OpMunmap 1 0 5000].

Definition session : kprog (BuildFsHandler * WorkerState) := on_worker env 10 (exec_all ops ProxyDemo.start) worker_start.

Definition calls : list event := match krun kernel session 10 with Some (_, _, _, l) => l | None => [] end.
Definition left_over : WorkerState := match krun kernel session 10 with Some (_, st, _, _) => st | None => worker_start end.

Lemma kernel_patient : patient kernel 10.
Proof.
  constructor; [by intros fd addr len k v [= <-]|done|].
  exists (λ _ o _, (3 - Z.to_nat o)%nat). split; [|intros fd k; simpl; lia].
  intros fd buf_len opaque k. simpl. split; [done|]. unfold list_three. case_decide; [lia|]. case_decide; [|done].
  destruct (three !! Z.to_nat opaque) as [e|] eqn:E; [|done]. exists e. split; [done|].
  unfold three in E. destruct (Z.to_nat opaque) as [|[|[|i]]] eqn:Eo; simpl in E; try done; injection E as <-; simpl; lia.
Qed.

Definition listing : kprog (result errno (list (string * DirentKind)) * WorkerState) :=
  worker_step env 10 (ReadDir (Path.components "/tmp/b")) left_over.

Example listed : option_map (λ x, x.1.1.1) (krun kernel listing 20) = Some (Ok [("a", KindRegular); ("b", KindRegular)]).
Proof. vm_compute. reflexivity. Qed.

Lemma worker_gives_back_witness :
  mapped calls = [(81920, 8192); (90112, 8192)] ∧ live left_over = [(90112, 8192)]
  ∧ closed calls ++ backing left_over ≡ₚ opened calls ∧ unmapped calls ++ live left_over ≡ₚ mapped calls
  ∧ is_Some (krun kernel listing 20).
Proof.
  split; [vm_compute; reflexivity|]. split; [vm_compute; reflexivity|].
  destruct (krun kernel session 10) as [[[[h st] k] l]|] eqn:E; [|vm_compute in E; discriminate].
  assert (calls = l) as Hl by (unfold calls; by rewrite E). assert (left_over = st) as Hs by (unfold left_over; by rewrite E).
  rewrite <- Hl, <- Hs in E.
  destruct (worker_gives_back env 10 kernel (exec_all ops ProxyDemo.start) 10 h left_over k calls E) as (_ & H & _ & Hends).
  - vm_compute. reflexivity.
  - destruct H as [H1 H2]; [vm_compute; reflexivity|]. split; [exact H1|]. split; [exact H2|].
    exact (Hends kernel_patient _ (ReadDir (Path.components "/tmp/b")) 20 I).
Defined.

(** A kernel that has no name for a descriptor: it stays open. *)
Definition nameless (X : Set) (c : kcall X) (k : Z) : X * Z :=
  match c in kcall X return X * Z → X * Z with SysFpath _ _ => λ _, (Err ENOENT, k) | _ => id end (kernel X c k).

Example unnamed_stays_open :
  match krun nameless (worker_step env 10 (ResolvePath (Path.components "/tmp/b/y")) worker_start) 10 with
  | Some (r, _, _, l) => r = Err EIO ∧ opened l = [10] ∧ closed l = []
  | None => False
  end.
Proof. vm_compute. done. Qed.

(** The output of a build lies in the store, and is mapped as what does not change. *)
Example output_taken_for_immutable :
  is_mutable_path (Path.components "/nix/store/out/bin/x") = false ∧ is_mutable_path (Path.components "/tmp/b/y") = true.
Proof. vm_compute. done. Qed.
End WorkerDemo.
