(* ===== verification/Fuse.v ===== *)
(** * The FUSE messages of virtio-fsd ([fuse.rs], and the framing of [transport.rs])

    The driver speaks the FUSE protocol of Linux: a header, the structure of the operation, a
    name.  Numbers are little-endian on the targets; the structures have no padding of the
    compiler's, so that their bytes are those of their fields in order. *)

From S2P Require Import Prelude RustStd Bytes.

Open Scope Z_scope.

(** ** Structures

    A [repr(C)] structure is a row of integers of fixed widths. *)
Class Wire (A : Type) : Type := {
  layout : list nat;
  to_words : A → list Z;
  of_words : list Z → option A;
}.
Arguments layout A {_}.

Fixpoint encode_words (ws : list nat) (zs : list Z) : string :=
  match ws, zs with
  | w :: ws', z :: zs' => le_bytes w z +:+ encode_words ws' zs'
  | _, _ => ""
  end.

Fixpoint decode_words (ws : list nat) (s : string) : list Z :=
  match ws with
  | [] => []
  | w :: ws' => le_int (take_bytes w s) :: decode_words ws' (drop_bytes w s)
  end.

(** [size_of::<A>()] *)
Definition struct_size (A : Type) `{Wire A} : nat := sum_list (layout A).
Definition size_of (A : Type) `{Wire A} : Z := Z.of_nat (struct_size A).

(** A structure as bytes, and read from the start of a buffer *)
Definition as_bytes {A : Type} `{Wire A} (a : A) : string := encode_words (layout A) (to_words a).
Definition from_bytes {A : Type} `{Wire A} (s : string) : option A := of_words (decode_words (layout A) s).

(** An [i32] in its 32 bits *)
Definition to_i32 (z : Z) : Z := if decide (z < 2^31) then z else z - 2^32.

Record FuseInHeader : Type := mkFuseInHeader {
  fih_len : Z; fih_opcode : Z; fih_unique : Z; fih_nodeid : Z; fih_uid : Z; fih_gid : Z; fih_pid : Z;
  fih_total_extlen : Z; fih_padding : Z;
}.
#[export] Instance FuseInHeader_wire : Wire FuseInHeader := {
  layout := [4; 4; 8; 8; 4; 4; 4; 2; 2]%nat;
  to_words := λ x, [fih_len x; fih_opcode x; fih_unique x; fih_nodeid x; fih_uid x; fih_gid x; fih_pid x;
      fih_total_extlen x; fih_padding x];
  of_words := λ l, match l with
    | [len_; opcode_; unique_; nodeid_; uid_; gid_; pid_; total_extlen_; padding_] =>
        Some (mkFuseInHeader len_ opcode_ unique_ nodeid_ uid_ gid_ pid_ total_extlen_ padding_)
    | _ => None end;
}.

Record FuseOutHeader : Type := mkFuseOutHeader {
  foh_len : Z; foh_error : Z; foh_unique : Z;
}.
#[export] Instance FuseOutHeader_wire : Wire FuseOutHeader := {
  layout := [4; 4; 8]%nat;
  to_words := λ x, [foh_len x; foh_error x `mod` 2^32; foh_unique x];
  of_words := λ l, match l with
    | [len_; error; unique_] =>
        Some (mkFuseOutHeader len_ (to_i32 error) unique_)
    | _ => None end;
}.

Record FuseInitIn : Type := mkFuseInitIn {
  fii_major : Z; fii_minor : Z; fii_max_readahead : Z; fii_flags : Z; fii_flags2 : Z; fii_unused : list Z;
}.
#[export] Instance FuseInitIn_wire : Wire FuseInitIn := {
  layout := [4; 4; 4; 4; 4]%nat ++ repeat 4%nat 11;
  to_words := λ x, [fii_major x; fii_minor x; fii_max_readahead x; fii_flags x; fii_flags2 x] ++ fii_unused x;
  of_words := λ l, match l with
    | major_ :: minor_ :: max_readahead_ :: flags_ :: flags2_ :: rest =>
        if decide (length rest = 11%nat) then Some (mkFuseInitIn major_ minor_ max_readahead_ flags_
            flags2_ rest) else None
    | _ => None end;
}.

Record FuseInitOut : Type := mkFuseInitOut {
  fio_major : Z; fio_minor : Z; fio_max_readahead : Z; fio_flags : Z; fio_max_background : Z;
  fio_congestion_threshold : Z; fio_max_write : Z; fio_time_gran : Z; fio_max_pages : Z;
  fio_map_alignment : Z; fio_flags2 : Z; fio_max_stack_depth : Z; fio_unused : list Z;
}.
#[export] Instance FuseInitOut_wire : Wire FuseInitOut := {
  layout := [4; 4; 4; 4; 2; 2; 4; 4; 2; 2; 4; 4]%nat ++ repeat 4%nat 6;
  to_words := λ x, [fio_major x; fio_minor x; fio_max_readahead x; fio_flags x; fio_max_background x;
      fio_congestion_threshold x; fio_max_write x; fio_time_gran x; fio_max_pages x; fio_map_alignment x;
      fio_flags2 x; fio_max_stack_depth x] ++ fio_unused x;
  of_words := λ l, match l with
    | major_ :: minor_ :: max_readahead_ :: flags_ :: max_background_ :: congestion_threshold_ ::
        max_write_ :: time_gran_ :: max_pages_ :: map_alignment_ :: flags2_ :: max_stack_depth_ :: rest =>
        if decide (length rest = 6%nat) then Some (mkFuseInitOut major_ minor_ max_readahead_ flags_
            max_background_ congestion_threshold_ max_write_ time_gran_ max_pages_ map_alignment_ flags2_
            max_stack_depth_ rest) else None
    | _ => None end;
}.

Record FuseGetattrIn : Type := mkFuseGetattrIn {
  fgi_getattr_flags : Z; fgi_dummy : Z; fgi_fh : Z;
}.
#[export] Instance FuseGetattrIn_wire : Wire FuseGetattrIn := {
  layout := [4; 4; 8]%nat;
  to_words := λ x, [fgi_getattr_flags x; fgi_dummy x; fgi_fh x];
  of_words := λ l, match l with
    | [getattr_flags_; dummy_; fh_] =>
        Some (mkFuseGetattrIn getattr_flags_ dummy_ fh_)
    | _ => None end;
}.

Record FuseAttr : Type := mkFuseAttr {
  fa_ino : Z; fa_size : Z; fa_blocks : Z; fa_atime : Z; fa_mtime : Z; fa_ctime : Z; fa_atimensec : Z;
  fa_mtimensec : Z; fa_ctimensec : Z; fa_mode : Z; fa_nlink : Z; fa_uid : Z; fa_gid : Z; fa_rdev : Z;
  fa_blksize : Z; fa_flags : Z;
}.
#[export] Instance FuseAttr_wire : Wire FuseAttr := {
  layout := [8; 8; 8; 8; 8; 8; 4; 4; 4; 4; 4; 4; 4; 4; 4; 4]%nat;
  to_words := λ x, [fa_ino x; fa_size x; fa_blocks x; fa_atime x; fa_mtime x; fa_ctime x; fa_atimensec x;
      fa_mtimensec x; fa_ctimensec x; fa_mode x; fa_nlink x; fa_uid x; fa_gid x; fa_rdev x; fa_blksize x;
      fa_flags x];
  of_words := λ l, match l with
    | [ino_; size_; blocks_; atime_; mtime_; ctime_; atimensec_; mtimensec_; ctimensec_; mode_; nlink_;
        uid_; gid_; rdev_; blksize_; flags_] =>
        Some (mkFuseAttr ino_ size_ blocks_ atime_ mtime_ ctime_ atimensec_ mtimensec_ ctimensec_ mode_
            nlink_ uid_ gid_ rdev_ blksize_ flags_)
    | _ => None end;
}.

Record FuseAttrOut : Type := mkFuseAttrOut {
  fao_attr_valid : Z; fao_attr_valid_nsec : Z; fao_dummy : Z; fao_attr : FuseAttr;
}.
#[export] Instance FuseAttrOut_wire : Wire FuseAttrOut := {
  layout := [8; 4; 4]%nat ++ layout FuseAttr;
  to_words := λ x, [fao_attr_valid x; fao_attr_valid_nsec x; fao_dummy x] ++ to_words (fao_attr x);
  of_words := λ l, match l with
    | attr_valid_ :: attr_valid_nsec_ :: dummy_ :: rest =>
        attr ← of_words rest; Some (mkFuseAttrOut attr_valid_ attr_valid_nsec_ dummy_ attr)
    | _ => None end;
}.

Record FuseEntryOut : Type := mkFuseEntryOut {
  feo_nodeid : Z; feo_generation : Z; feo_entry_valid : Z; feo_attr_valid : Z; feo_entry_valid_nsec : Z;
  feo_attr_valid_nsec : Z; feo_attr : FuseAttr;
}.
#[export] Instance FuseEntryOut_wire : Wire FuseEntryOut := {
  layout := [8; 8; 8; 8; 4; 4]%nat ++ layout FuseAttr;
  to_words := λ x, [feo_nodeid x; feo_generation x; feo_entry_valid x; feo_attr_valid x;
      feo_entry_valid_nsec x; feo_attr_valid_nsec x] ++ to_words (feo_attr x);
  of_words := λ l, match l with
    | nodeid_ :: generation_ :: entry_valid_ :: attr_valid_ :: entry_valid_nsec_ :: attr_valid_nsec_ ::
        rest =>
        attr ← of_words rest; Some (mkFuseEntryOut nodeid_ generation_ entry_valid_ attr_valid_
            entry_valid_nsec_ attr_valid_nsec_ attr)
    | _ => None end;
}.

Record FuseOpenIn : Type := mkFuseOpenIn {
  foi_flags : Z; foi_open_flags : Z;
}.
#[export] Instance FuseOpenIn_wire : Wire FuseOpenIn := {
  layout := [4; 4]%nat;
  to_words := λ x, [foi_flags x; foi_open_flags x];
  of_words := λ l, match l with
    | [flags_; open_flags_] =>
        Some (mkFuseOpenIn flags_ open_flags_)
    | _ => None end;
}.

Record FuseOpenOut : Type := mkFuseOpenOut {
  foo_fh : Z; foo_open_flags : Z; foo_backing_id : Z;
}.
#[export] Instance FuseOpenOut_wire : Wire FuseOpenOut := {
  layout := [8; 4; 4]%nat;
  to_words := λ x, [foo_fh x; foo_open_flags x; foo_backing_id x `mod` 2^32];
  of_words := λ l, match l with
    | [fh_; open_flags_; backing_id] =>
        Some (mkFuseOpenOut fh_ open_flags_ (to_i32 backing_id))
    | _ => None end;
}.

Record FuseReadIn : Type := mkFuseReadIn {
  fri_fh : Z; fri_offset : Z; fri_size : Z; fri_read_flags : Z; fri_lock_owner : Z; fri_flags : Z;
  fri_padding : Z;
}.
#[export] Instance FuseReadIn_wire : Wire FuseReadIn := {
  layout := [8; 8; 4; 4; 8; 4; 4]%nat;
  to_words := λ x, [fri_fh x; fri_offset x; fri_size x; fri_read_flags x; fri_lock_owner x; fri_flags x;
      fri_padding x];
  of_words := λ l, match l with
    | [fh_; offset_; size_; read_flags_; lock_owner_; flags_; padding_] =>
        Some (mkFuseReadIn fh_ offset_ size_ read_flags_ lock_owner_ flags_ padding_)
    | _ => None end;
}.

Record FuseReleaseIn : Type := mkFuseReleaseIn {
  frl_fh : Z; frl_flags : Z; frl_release_flags : Z; frl_lock_owner : Z;
}.
#[export] Instance FuseReleaseIn_wire : Wire FuseReleaseIn := {
  layout := [8; 4; 4; 8]%nat;
  to_words := λ x, [frl_fh x; frl_flags x; frl_release_flags x; frl_lock_owner x];
  of_words := λ l, match l with
    | [fh_; flags_; release_flags_; lock_owner_] =>
        Some (mkFuseReleaseIn fh_ flags_ release_flags_ lock_owner_)
    | _ => None end;
}.

Record FuseKstatfs : Type := mkFuseKstatfs {
  fks_blocks : Z; fks_bfree : Z; fks_bavail : Z; fks_files : Z; fks_ffree : Z; fks_bsize : Z;
  fks_namelen : Z; fks_frsize : Z; fks_padding : Z; fks_spare : list Z;
}.
#[export] Instance FuseKstatfs_wire : Wire FuseKstatfs := {
  layout := [8; 8; 8; 8; 8; 4; 4; 4; 4]%nat ++ repeat 4%nat 6;
  to_words := λ x, [fks_blocks x; fks_bfree x; fks_bavail x; fks_files x; fks_ffree x; fks_bsize x;
      fks_namelen x; fks_frsize x; fks_padding x] ++ fks_spare x;
  of_words := λ l, match l with
    | blocks_ :: bfree_ :: bavail_ :: files_ :: ffree_ :: bsize_ :: namelen_ :: frsize_ :: padding_ :: rest =>
        if decide (length rest = 6%nat) then Some (mkFuseKstatfs blocks_ bfree_ bavail_ files_ ffree_
            bsize_ namelen_ frsize_ padding_ rest) else None
    | _ => None end;
}.

Record FuseStatfsOut : Type := mkFuseStatfsOut {
  fso_st : FuseKstatfs;
}.
#[export] Instance FuseStatfsOut_wire : Wire FuseStatfsOut := {
  layout := layout FuseKstatfs;
  to_words := λ x, to_words (fso_st x);
  of_words := λ l, st ← of_words l; Some (mkFuseStatfsOut st);
}.

Record FuseDirent : Type := mkFuseDirent {
  fd_ino : Z; fd_off : Z; fd_namelen : Z; fd_typ : Z;
}.
#[export] Instance FuseDirent_wire : Wire FuseDirent := {
  layout := [8; 8; 4; 4]%nat;
  to_words := λ x, [fd_ino x; fd_off x; fd_namelen x; fd_typ x];
  of_words := λ l, match l with
    | [ino_; off_; namelen_; typ_] =>
        Some (mkFuseDirent ino_ off_ namelen_ typ_)
    | _ => None end;
}.

Record FuseWriteIn : Type := mkFuseWriteIn {
  fwi_fh : Z; fwi_offset : Z; fwi_size : Z; fwi_write_flags : Z; fwi_lock_owner : Z; fwi_flags : Z;
  fwi_padding : Z;
}.
#[export] Instance FuseWriteIn_wire : Wire FuseWriteIn := {
  layout := [8; 8; 4; 4; 8; 4; 4]%nat;
  to_words := λ x, [fwi_fh x; fwi_offset x; fwi_size x; fwi_write_flags x; fwi_lock_owner x; fwi_flags x;
      fwi_padding x];
  of_words := λ l, match l with
    | [fh_; offset_; size_; write_flags_; lock_owner_; flags_; padding_] =>
        Some (mkFuseWriteIn fh_ offset_ size_ write_flags_ lock_owner_ flags_ padding_)
    | _ => None end;
}.

Record FuseWriteOut : Type := mkFuseWriteOut {
  fwo_size : Z; fwo_padding : Z;
}.
#[export] Instance FuseWriteOut_wire : Wire FuseWriteOut := {
  layout := [4; 4]%nat;
  to_words := λ x, [fwo_size x; fwo_padding x];
  of_words := λ l, match l with
    | [size_; padding_] =>
        Some (mkFuseWriteOut size_ padding_)
    | _ => None end;
}.

Record FuseCreateIn : Type := mkFuseCreateIn {
  fci_flags : Z; fci_mode : Z; fci_umask : Z; fci_open_flags : Z;
}.
#[export] Instance FuseCreateIn_wire : Wire FuseCreateIn := {
  layout := [4; 4; 4; 4]%nat;
  to_words := λ x, [fci_flags x; fci_mode x; fci_umask x; fci_open_flags x];
  of_words := λ l, match l with
    | [flags_; mode_; umask_; open_flags_] =>
        Some (mkFuseCreateIn flags_ mode_ umask_ open_flags_)
    | _ => None end;
}.

Record FuseMkdirIn : Type := mkFuseMkdirIn {
  fmi_mode : Z; fmi_umask : Z;
}.
#[export] Instance FuseMkdirIn_wire : Wire FuseMkdirIn := {
  layout := [4; 4]%nat;
  to_words := λ x, [fmi_mode x; fmi_umask x];
  of_words := λ l, match l with
    | [mode_; umask_] =>
        Some (mkFuseMkdirIn mode_ umask_)
    | _ => None end;
}.

Record FuseSetattrIn : Type := mkFuseSetattrIn {
  fsi_valid : Z; fsi_padding : Z; fsi_fh : Z; fsi_size : Z; fsi_lock_owner : Z; fsi_atime : Z;
  fsi_mtime : Z; fsi_ctime : Z; fsi_atimensec : Z; fsi_mtimensec : Z; fsi_ctimensec : Z; fsi_mode : Z;
  fsi_unused4 : Z; fsi_uid : Z; fsi_gid : Z; fsi_unused5 : Z;
}.
#[export] Instance FuseSetattrIn_wire : Wire FuseSetattrIn := {
  layout := [4; 4; 8; 8; 8; 8; 8; 8; 4; 4; 4; 4; 4; 4; 4; 4]%nat;
  to_words := λ x, [fsi_valid x; fsi_padding x; fsi_fh x; fsi_size x; fsi_lock_owner x; fsi_atime x;
      fsi_mtime x; fsi_ctime x; fsi_atimensec x; fsi_mtimensec x; fsi_ctimensec x; fsi_mode x; fsi_unused4
      x; fsi_uid x; fsi_gid x; fsi_unused5 x];
  of_words := λ l, match l with
    | [valid_; padding_; fh_; size_; lock_owner_; atime_; mtime_; ctime_; atimensec_; mtimensec_;
        ctimensec_; mode_; unused4_; uid_; gid_; unused5_] =>
        Some (mkFuseSetattrIn valid_ padding_ fh_ size_ lock_owner_ atime_ mtime_ ctime_ atimensec_
            mtimensec_ ctimensec_ mode_ unused4_ uid_ gid_ unused5_)
    | _ => None end;
}.

Record FuseFlushIn : Type := mkFuseFlushIn {
  ffi_fh : Z; ffi_unused : Z; ffi_padding : Z; ffi_lock_owner : Z;
}.
#[export] Instance FuseFlushIn_wire : Wire FuseFlushIn := {
  layout := [8; 4; 4; 8]%nat;
  to_words := λ x, [ffi_fh x; ffi_unused x; ffi_padding x; ffi_lock_owner x];
  of_words := λ l, match l with
    | [fh_; unused_; padding_; lock_owner_] =>
        Some (mkFuseFlushIn fh_ unused_ padding_ lock_owner_)
    | _ => None end;
}.

(** ** Constants *)
Inductive FuseOpcode : Type :=
  | Lookup | Forget | Getattr | Setattr | Readlink | Symlink | Mkdir | Unlink | Rmdir | Open | Read | Write
  | Statfs | Release | Flush | Init | Opendir | Readdir | Releasedir | Create | Readdirplus.

Definition opcode_number (o : FuseOpcode) : Z :=
  match o with
  | Lookup => 1 | Forget => 2 | Getattr => 3 | Setattr => 4 | Readlink => 5 | Symlink => 6 | Mkdir => 9
  | Unlink => 10 | Rmdir => 11 | Open => 14 | Read => 15 | Write => 16 | Statfs => 17 | Release => 18
  | Flush => 25 | Init => 26 | Opendir => 27 | Readdir => 28 | Releasedir => 29 | Create => 35
  | Readdirplus => 44
  end.

Definition FATTR_SIZE : Z := Z.shiftl 1 3.
Definition FATTR_FH : Z := Z.shiftl 1 6.
Definition FUSE_KERNEL_VERSION : Z := 7.
Definition FUSE_KERNEL_MINOR_VERSION : Z := 39.
Definition S_IFMT : Z := 0xF000.
Definition S_IFDIR : Z := 0x4000.
Definition S_IFREG : Z := 0x8000.
Definition S_IFLNK : Z := 0xA000.

Definition fuse_dirent_align (x : Z) : Z := Z.land (x + 7) (Z.lnot 7).
Definition fuse_dirent_size (namelen : Z) : Z := fuse_dirent_align (size_of FuseDirent + namelen).

(** ** Requests *)
Definition nul : string := String "000" "".

Definition request_header (total_len : Z) (o : FuseOpcode) (nodeid unique : Z) : FuseInHeader :=
  mkFuseInHeader (wrap32 total_len) (opcode_number o) unique nodeid 0 0 0 0 0.

Definition build_request (o : FuseOpcode) (nodeid unique : Z) (args : string) (name : option string) : string :=
  let name_len := match name with Some n => len n + 1 | None => 0 end in
  as_bytes (request_header (size_of FuseInHeader + len args + name_len) o nodeid unique)
  +:+ args +:+ match name with Some n => n +:+ nul | None => "" end.

Definition build_request_with_args {A : Type} `{Wire A} (o : FuseOpcode) (nodeid unique : Z) (args : A)
    (name : option string) : string :=
  build_request o nodeid unique (as_bytes args) name.

Definition build_request_with_data {A : Type} `{Wire A} (o : FuseOpcode) (nodeid unique : Z) (args : A)
    (data : string) : string :=
  as_bytes (request_header (size_of FuseInHeader + size_of A + len data) o nodeid unique) +:+ as_bytes args +:+ data.

(** ** Responses *)
Inductive FuseTransportError : Type :=
  | DmaAlloc
  | ShortResponse (n : Z)
  | FuseError (code : Z)
  | UnexpectedSize
  | RequestTooLarge (n : Z).

Definition parse_response_header (data : string) : result FuseTransportError FuseOutHeader :=
  if decide (len data < size_of FuseOutHeader) then Err (ShortResponse (len data))
  else
    header ← ok_or UnexpectedSize (from_bytes data);
    if decide (foh_error header < 0) then Err (FuseError (foh_error header)) else Ok header.

Definition response_body (data : string) : string := drop_bytes (struct_size FuseOutHeader) data.

(** The structure at the start of a body that must be long enough for it *)
Definition body_struct {A : Type} `{Wire A} (body : string) : result FuseTransportError A :=
  if decide (len body < size_of A) then Err UnexpectedSize else ok_or UnexpectedSize (from_bytes body).

(** ** Directory entries *)
Record DirEntry : Type := mkDirEntry { de_ino : Z; de_off : Z; de_typ : Z; de_name : string }.

(** [parse_dirents] from an offset on; each round goes at least [size_of FuseDirent] on, so that the
    length of the data is fuel enough. *)
Fixpoint parse_dirents_from (fuel : nat) (data : string) : list DirEntry :=
  match fuel with
  | O => []
  | S fuel' =>
      if decide (len data < size_of FuseDirent) then []
      else
        match from_bytes data with
        | None => []
        | Some dirent =>
            let namelen := fd_namelen dirent in
            if decide (len data < size_of FuseDirent + namelen) then []
            else
              let name := take_bytes (Z.to_nat namelen) (drop_bytes (struct_size FuseDirent) data) in
              mkDirEntry (fd_ino dirent) (fd_off dirent) (fd_typ dirent) (Str.from_utf8_lossy name)
              :: parse_dirents_from fuel' (drop_bytes (Z.to_nat (fuse_dirent_size namelen)) data)
        end
  end.

Definition parse_dirents (data : string) : list DirEntry := parse_dirents_from (S (String.length data)) data.

(** ** Lemmas on structures *)
(** A word fits its width. *)
Definition fits (w : nat) (z : Z) : Prop := 0 ≤ z < 256 ^ Z.of_nat w.

Lemma decode_encode ws zs rest :
  Forall2 fits ws zs → decode_words ws (encode_words ws zs +:+ rest) = zs.
Proof.
  induction 1 as [|w z ws zs Hz Hzs IH]; simpl; [done|].
  rewrite Str.app_assoc.
  assert (take_bytes w (le_bytes w z +:+ encode_words ws zs +:+ rest) = le_bytes w z) as ->.
  { rewrite <- (length_le_bytes w z) at 1. apply take_bytes_app. }
  assert (drop_bytes w (le_bytes w z +:+ encode_words ws zs +:+ rest) = encode_words ws zs +:+ rest) as ->.
  { rewrite <- (length_le_bytes w z) at 1. apply drop_bytes_app. }
  rewrite le_int_bytes, Z.mod_small by apply Hz. by rewrite IH.
Qed.

Lemma length_encode ws zs : length ws = length zs → String.length (encode_words ws zs) = sum_list ws.
Proof.
  revert zs. induction ws as [|w ws IH]; intros [|z zs]; simpl; try done.
  intros [= E]. by rewrite length_app_string, length_le_bytes, IH.
Qed.

Lemma length_decode ws s : length (decode_words ws s) = length ws.
Proof. revert s. induction ws as [|w ws IH]; intros s; simpl; [done|]. by rewrite IH. Qed.

(** The header in front of a message is read back. *)
Lemma header_read total o nodeid unique rest :
  0 ≤ nodeid < 2^64 → 0 ≤ unique < 2^64 →
  from_bytes (as_bytes (request_header total o nodeid unique) +:+ rest)
  = Some (request_header total o nodeid unique).
Proof.
  intros Hn Hu. unfold from_bytes, as_bytes. rewrite decode_encode; [done|].
  simpl. repeat constructor; unfold fits, wrap32 in *; simpl; try lia; try (destruct o; simpl; lia);
    pose proof (Z.mod_pos_bound total (2^32)); lia.
Qed.

Lemma length_header total o nodeid unique :
  String.length (as_bytes (request_header total o nodeid unique)) = 40%nat.
Proof. apply length_encode. done. Qed.
