(* ===== verification/FuseSession.v ===== *)
(** * The FUSE session of virtio-fsd ([session.rs], and the exchange of [transport.rs])

    A session numbers its requests, hands each to the device and reads the response.  The device
    and the host behind it are a parameter: any function from a request and the room for the
    response to the bytes it writes.  The exchanges made so far are kept for the theorems. *)

From S2P Require Import Prelude RustStd Bytes Fuse.

Open Scope Z_scope.

(** ** Buffers *)
Definition META_RESPONSE : Z := 4096.
Definition PAGE_SIZE : Z := 4096.
Definition MAX_IO_SIZE : Z := 1024 * 1024.

(** [next_power_of_two] *)
Definition next_power_of_two (n : Z) : Z := 2 ^ Z.log2_up n.
Definition round_to_p2_pages (size : Z) : Z := next_power_of_two ((size + PAGE_SIZE - 1) / PAGE_SIZE) * PAGE_SIZE.

(** The lengths of the two DMA buffers *)
Record FuseTransport : Type := mkFuseTransport { tr_req_buf : Z; tr_resp_buf : Z }.

Record FuseSession : Type := mkFuseSession {
  ss_transport : FuseTransport;
  ss_unique_counter : Z;
  ss_max_readahead : Z;
  ss_max_write : Z;
  ss_effective_max_io : Z;
}.

(** A session with the device's world, and the exchanges so far, the newest first: the message and
    what the session made of the response *)
Record conn (W : Type) : Type := mkConn {
  cn_session : FuseSession;
  cn_world : W;
  cn_log : list (string * result FuseTransportError string);
}.
Arguments mkConn {W}.
Arguments cn_session {W}.
Arguments cn_world {W}.
Arguments cn_log {W}.

(** [None] is an operation that does not return in the rounds it is given. *)
Definition FuseM (W A : Type) : Type := conn W → option (result FuseTransportError A * conn W).

#[export] Instance FuseM_ret W : MRet (FuseM W) := λ A a c, Some (Ok a, c).
#[export] Instance FuseM_bind W : MBind (FuseM W) := λ A B f m c,
  match m c with
  | Some (Ok a, c') => f a c'
  | Some (Err e, c') => Some (Err e, c')
  | None => None
  end.

Definition flift {W A} (r : result FuseTransportError A) : FuseM W A := λ c, Some (r, c).

Section session.
Context {W : Type} (device : string → Z → W → string * W).
Implicit Types (nodeid fh offset : Z) (name : string).

Definition exchange (req : string) (resp_len : Z) : FuseM W string := λ c,
  let tr := ss_transport (cn_session c) in
  if decide (tr_req_buf tr < len req) then Some (Err (RequestTooLarge (len req)), c)
  else if decide (tr_resp_buf tr < resp_len) then Some (Err (RequestTooLarge resp_len), c)
  else
    let '(resp, w) := device req resp_len (cn_world c) in
    let r := if decide (resp_len < len resp) then Err UnexpectedSize
             else if decide (len resp < size_of FuseOutHeader) then Err (ShortResponse (len resp))
             else Ok resp in
    Some (r, mkConn (cn_session c) w ((req, r) :: cn_log c)).

Definition next_unique : FuseM W Z := λ c,
  let s := cn_session c in
  Some (Ok (ss_unique_counter s),
        mkConn (mkFuseSession (ss_transport s) (wrap64 (ss_unique_counter s + 1)) (ss_max_readahead s)
                  (ss_max_write s) (ss_effective_max_io s)) (cn_world c) (cn_log c)).

Definition effective_max_io : FuseM W Z := λ c, Some (Ok (ss_effective_max_io (cn_session c)), c).

Definition meta_exchange (req : string) : FuseM W string := exchange req META_RESPONSE.

Definition data_exchange (req : string) (data_size : Z) : FuseM W string :=
  if decide (usize_max < size_of FuseOutHeader + data_size) then flift (Err (RequestTooLarge data_size))
  else exchange req (size_of FuseOutHeader + data_size).

Definition write_exchange (req : string) : FuseM W string := exchange req META_RESPONSE.

(** The body of a response that has no error in its header *)
Definition checked_body (resp : string) : FuseM W string :=
  _ ← flift (parse_response_header resp); mret (response_body resp).

(** ** Start *)
Definition init (dma_alloc : Z → bool) (w : W) : result FuseTransportError (conn W) :=
  let req_buf := round_to_p2_pages (size_of FuseInHeader + size_of FuseWriteIn + MAX_IO_SIZE) in
  let resp_buf := round_to_p2_pages (size_of FuseOutHeader + MAX_IO_SIZE) in
  if negb (dma_alloc req_buf && dma_alloc resp_buf) then Err DmaAlloc
  else
    let init_in := mkFuseInitIn FUSE_KERNEL_VERSION FUSE_KERNEL_MINOR_VERSION (1024 * 1024) 0 0 (repeat 0 11) in
    let c := mkConn (mkFuseSession (mkFuseTransport req_buf resp_buf) 1 0 0 0) w [] in
    match (unique ← next_unique;
           resp ← exchange (build_request_with_args Init 0 unique init_in None) META_RESPONSE;
           body ← checked_body resp;
           flift (body_struct body)) c with
    | Some (Ok init_out, c') =>
        let s := cn_session c' in
        Ok (mkConn (mkFuseSession (ss_transport s) (ss_unique_counter s) (fio_max_readahead init_out)
                      (fio_max_write init_out) (Z.min (fio_max_write init_out) MAX_IO_SIZE))
              (cn_world c') (cn_log c'))
    | Some (Err e, _) => Err e
    | None => Err UnexpectedSize
    end.

(** ** Operations *)
Definition lookup (parent : Z) name : FuseM W FuseEntryOut :=
  unique ← next_unique;
  resp ← meta_exchange (build_request Lookup parent unique "" (Some name));
  body ← checked_body resp;
  flift (body_struct body).

Definition getattr nodeid : FuseM W FuseAttrOut :=
  unique ← next_unique;
  resp ← meta_exchange (build_request_with_args Getattr nodeid unique (mkFuseGetattrIn 0 0 0) None);
  body ← checked_body resp;
  flift (body_struct body).

Definition open nodeid (flags : Z) : FuseM W FuseOpenOut :=
  unique ← next_unique;
  resp ← meta_exchange (build_request_with_args Open nodeid unique (mkFuseOpenIn flags 0) None);
  body ← checked_body resp;
  flift (body_struct body).

Definition opendir nodeid : FuseM W FuseOpenOut :=
  unique ← next_unique;
  resp ← meta_exchange (build_request_with_args Opendir nodeid unique (mkFuseOpenIn 0 0) None);
  body ← checked_body resp;
  flift (body_struct body).

Definition read_request (o : FuseOpcode) nodeid fh offset (size unique : Z) : string :=
  build_request_with_args o nodeid unique (mkFuseReadIn fh offset size 0 0 0 0) None.

Definition read_single nodeid fh offset (size : Z) : FuseM W string :=
  unique ← next_unique;
  resp ← data_exchange (read_request Read nodeid fh offset size unique) size;
  checked_body resp.

(** The loop of [read]; each full chunk takes one round. *)
Fixpoint read_chunks (fuel : nat) nodeid fh (current_offset remaining : Z) (result : string) : FuseM W string :=
  match fuel with
  | O => λ _, None
  | S fuel' =>
      if decide (remaining ≤ 0) then mret result
      else
        max_io ← effective_max_io;
        let chunk_size := Z.min remaining max_io in
        chunk ← read_single nodeid fh current_offset chunk_size;
        let got := len chunk in
        let result := result +:+ chunk in
        if decide (got < chunk_size) then mret result
        else read_chunks fuel' nodeid fh (wrap64 (current_offset + got)) (remaining - got) result
  end.

Definition read (fuel : nat) nodeid fh offset (size : Z) : FuseM W string :=
  max_io ← effective_max_io;
  if decide (size ≤ max_io) then read_single nodeid fh offset size
  else read_chunks fuel nodeid fh offset size "".

Definition readdir nodeid fh offset (size : Z) : FuseM W (list DirEntry) :=
  unique ← next_unique;
  resp ← data_exchange (read_request Readdir nodeid fh offset size unique) size;
  body ← checked_body resp;
  mret (parse_dirents body).

Definition release nodeid fh : FuseM W unit :=
  unique ← next_unique;
  resp ← meta_exchange (build_request_with_args Release nodeid unique (mkFuseReleaseIn fh 0 0 0) None);
  _ ← flift (parse_response_header resp);
  mret tt.

Definition releasedir nodeid fh : FuseM W unit :=
  unique ← next_unique;
  resp ← meta_exchange (build_request_with_args Releasedir nodeid unique (mkFuseReleaseIn fh 0 0 0) None);
  _ ← flift (parse_response_header resp);
  mret tt.

Definition write_request nodeid fh offset (data : string) (unique : Z) : string :=
  build_request_with_data Write nodeid unique (mkFuseWriteIn fh offset (wrap32 (len data)) 0 0 0 0) data.

Definition write_single nodeid fh offset (data : string) : FuseM W Z :=
  unique ← next_unique;
  resp ← write_exchange (write_request nodeid fh offset data unique);
  body ← checked_body resp;
  write_out ← flift (body_struct body);
  mret (fwo_size write_out).

(** The loop of [write] *)
Fixpoint write_chunks (fuel : nat) nodeid fh (current_offset : Z) (remaining : string) (total_written : Z) : FuseM W Z :=
  match fuel with
  | O => λ _, None
  | S fuel' =>
      if decide (remaining = "") then mret total_written
      else
        max_io ← effective_max_io;
        let chunk_size := Z.min (len remaining) max_io in
        let chunk := take_bytes (Z.to_nat chunk_size) remaining in
        written ← write_single nodeid fh current_offset chunk;
        let total_written := wrap32 (total_written + written) in
        if decide (written < chunk_size) then mret total_written
        else write_chunks fuel' nodeid fh (wrap64 (current_offset + written))
               (drop_bytes (Z.to_nat chunk_size) remaining) total_written
  end.

Definition write (fuel : nat) nodeid fh offset (data : string) : FuseM W Z :=
  max_io ← effective_max_io;
  if decide (len data ≤ max_io) then write_single nodeid fh offset data
  else write_chunks fuel nodeid fh offset data 0.

Definition create (parent : Z) name (flags mode : Z) : FuseM W (FuseEntryOut * FuseOpenOut) :=
  unique ← next_unique;
  resp ← meta_exchange (build_request_with_args Create parent unique (mkFuseCreateIn flags mode 0x12 0) (Some name));
  body ← checked_body resp;
  if decide (len body < size_of FuseEntryOut + size_of FuseOpenOut) then flift (Err UnexpectedSize)
  else
    entry ← flift (body_struct body);
    open ← flift (body_struct (drop_bytes (struct_size FuseEntryOut) body));
    mret (entry, open).

Definition mkdir (parent : Z) name (mode : Z) : FuseM W FuseEntryOut :=
  unique ← next_unique;
  resp ← meta_exchange (build_request_with_args Mkdir parent unique (mkFuseMkdirIn mode 0x12) (Some name));
  body ← checked_body resp;
  flift (body_struct body).

Definition unlink (parent : Z) name : FuseM W unit :=
  unique ← next_unique;
  resp ← meta_exchange (build_request Unlink parent unique "" (Some name));
  _ ← flift (parse_response_header resp);
  mret tt.

Definition rmdir (parent : Z) name : FuseM W unit :=
  unique ← next_unique;
  resp ← meta_exchange (build_request Rmdir parent unique "" (Some name));
  _ ← flift (parse_response_header resp);
  mret tt.

Definition truncate nodeid fh (size : Z) : FuseM W FuseAttrOut :=
  unique ← next_unique;
  let args := mkFuseSetattrIn (Z.lor FATTR_SIZE FATTR_FH) 0 fh size 0 0 0 0 0 0 0 0 0 0 0 0 in
  resp ← meta_exchange (build_request_with_args Setattr nodeid unique args None);
  body ← checked_body resp;
  flift (body_struct body).

Definition readlink nodeid : FuseM W string :=
  unique ← next_unique;
  resp ← data_exchange (build_request Readlink nodeid unique "" None) 4096;
  body ← checked_body resp;
  if Str.utf8_valid body then mret body else flift (Err UnexpectedSize).

Definition symlink (parent : Z) name (target : string) : FuseM W FuseEntryOut :=
  unique ← next_unique;
  resp ← meta_exchange (build_request Symlink parent unique (name +:+ nul +:+ target +:+ nul) None);
  body ← checked_body resp;
  flift (body_struct body).

Definition flush nodeid fh : FuseM W unit :=
  unique ← next_unique;
  resp ← meta_exchange (build_request_with_args Flush nodeid unique (mkFuseFlushIn fh 0 0 0) None);
  _ ← flift (parse_response_header resp);
  mret tt.

Definition statfs : FuseM W FuseStatfsOut :=
  unique ← next_unique;
  resp ← meta_exchange (build_request Statfs 1 unique "" None);
  body ← checked_body resp;
  flift (body_struct body).

End session.
