(* ===== verification/VirtioFs.v ===== *)
(** * The scheme of virtio-fsd ([scheme.rs])

    The driver serves the shared directory of the host as a scheme: each request of a program
    becomes requests of the FUSE session.  The numbering and the table of handles are those of the
    other daemons.  [transfer] is the number of rounds a transfer in chunks is given. *)

From S2P Require Import Prelude RustStd HandleId ProxyIo SchemeHandles Bytes Fuse FuseSession.

Open Scope Z_scope.

(** Open flags of Linux; of those of Redox, the value of [O_STAT] is not documented in the driver. *)
Class StatFlag : Type := { O_STAT : Z }.

Definition LINUX_O_WRONLY : Z := 1.
Definition LINUX_O_RDWR : Z := 2.
Definition LINUX_O_CREAT : Z := 0x40.
Definition LINUX_O_EXCL : Z := 0x80.
Definition LINUX_O_TRUNC : Z := 0x200.

Definition redox_to_fuse_flags (redox_flags : Z) : Z :=
  let fuse := 0 in
  let mode := Z.land redox_flags O_ACCMODE in
  let fuse := if decide (mode = O_WRONLY) then Z.lor fuse LINUX_O_WRONLY
              else if decide (mode = Z.lor O_RDONLY O_WRONLY) then Z.lor fuse LINUX_O_RDWR
              else fuse in
  let fuse := if has redox_flags O_CREAT then Z.lor fuse LINUX_O_CREAT else fuse in
  let fuse := if has redox_flags O_EXCL then Z.lor fuse LINUX_O_EXCL else fuse in
  if has redox_flags O_TRUNC then Z.lor fuse LINUX_O_TRUNC else fuse.

(** ** Errors *)
Definition fuse_error_to_redox (fuse_errno : Z) : errno :=
  match fuse_errno with
  | 1 => EPERM | 2 => ENOENT | 12 => ENOMEM | 13 => EACCES | 16 => EBUSY | 17 => EEXIST | 20 => ENOTDIR
  | 21 => EISDIR | 22 => EINVAL | 28 => ENOSPC | 34 => ERANGE | 36 => ENAMETOOLONG | 38 => ENOSYS
  | 39 => ENOTEMPTY | 40 => ELOOP | _ => EIO
  end.

Definition fuse_err (e : FuseTransportError) : errno :=
  match e with FuseError neg_errno => fuse_error_to_redox (- neg_errno) | _ => EIO end.

(** ** State *)
Record Handle : Type := mkHandle {
  vh_nodeid : Z;
  vh_fh : Z;
  vh_is_dir : bool;
  vh_writable : bool;
  vh_path : string;
  vh_size : Z;
  vh_mode : Z;
  vh_dir_entries : option (list DirEntry);
}.

Definition set_size (n : Z) (h : Handle) : Handle :=
  mkHandle (vh_nodeid h) (vh_fh h) (vh_is_dir h) (vh_writable h) (vh_path h) n (vh_mode h) (vh_dir_entries h).
Definition set_entries (es : list DirEntry) (h : Handle) : Handle :=
  mkHandle (vh_nodeid h) (vh_fh h) (vh_is_dir h) (vh_writable h) (vh_path h) (vh_size h) (vh_mode h) (Some es).

Record VirtioFsScheme (W : Type) : Type := mkVirtioFsScheme {
  vs_conn : conn W;
  vs_scheme_name : string;
  vs_handles : HandleTable Handle;
}.
Arguments mkVirtioFsScheme {W}.
Arguments vs_conn {W}.
Arguments vs_scheme_name {W}.
Arguments vs_handles {W}.

(** The fields of [Stat] that [fstat] sets *)
Record FsStat : Type := mkFsStat {
  fs_mode : Z; fs_size : Z; fs_blksize : Z; fs_blocks : Z; fs_nlink : Z; fs_uid : Z; fs_gid : Z; fs_ino : Z;
  fs_atime : Z; fs_atime_nsec : Z; fs_mtime : Z; fs_mtime_nsec : Z; fs_ctime : Z; fs_ctime_nsec : Z;
}.

Record FsStatVfs : Type := mkFsStatVfs { f_bsize : Z; f_blocks : Z; f_bfree : Z; f_bavail : Z }.

(** [DirentBuf], with the inode number of an entry *)
Class InodeBuffer (Buf : Type) : Type := {
  ib_entry : Buf → Z → Z → string → DirentKind → option Buf;
}.

Definition S_TYPE (attr : FuseAttr) : Z := Z.land (fa_mode attr) S_IFMT.

Definition kind_of (typ : Z) : DirentKind :=
  match typ with 4 => KindDirectory | 8 => KindRegular | 10 => KindSymlink | _ => KindRegular end.

Fixpoint fill_entries {Buf : Type} `{InodeBuffer Buf} (buf : Buf) (i : Z) (es : list DirEntry) : Buf :=
  match es with
  | [] => buf
  | e :: es' =>
      match ib_entry buf (de_ino e) (i + 1) (de_name e) (kind_of (de_typ e)) with
      | Some buf' => fill_entries buf' (i + 1) es'
      | None => buf
      end
  end.

(** The directory and the name in it: [rfind('/')] *)
Definition parent_and_name (full_path : string) : string * string :=
  let pieces := Str.split "/" full_path in
  (Str.join "/" (removelast pieces), default "" (last pieces)).

Module VirtioFs.
Section scheme.
Context {W : Type} (device : string → Z → W → string * W) (transfer : nat).
Context {ABI : SyscallAbi} {SF : StatFlag}.

Definition St : Type := VirtioFsScheme W.
Implicit Types (s : St).

Definition new (session : conn W) (scheme_name : string) : St := mkVirtioFsScheme session scheme_name new_table.

(** An operation of the session, with [map_err(fuse_err)] *)
Definition fuse {A} (m : FuseM W A) : Req St A := λ s,
  match m (vs_conn s) with
  | Some (r, c) => Some (match r with Ok a => Ok a | Err e => Err (fuse_err e) end,
                         mkVirtioFsScheme c (vs_scheme_name s) (vs_handles s))
  | None => None
  end.

Definition attempt {A} (m : Req St A) : Req St (result errno A) := λ s,
  match m s with Some (r, s') => Some (Ok r, s') | None => None end.

Definition set_handles (tb : HandleTable Handle) s : St := mkVirtioFsScheme (vs_conn s) (vs_scheme_name s) tb.

(** [alloc_id] and the insertion of the handle *)
Definition insert_new (h : Handle) : Req St Z := λ s,
  match open_handle h (vs_handles s) with
  | Some (id, tb) => Some (Ok id, set_handles tb s)
  | None => None
  end.

Definition get_handle (id : Z) : Req St Handle := λ s,
  Some (match handles (vs_handles s) !! id with Some h => Ok h | None => Err EBADF end, s).

Definition update_handle (id : Z) (f : Handle → Handle) : Req St unit := λ s,
  Some (Ok tt, match handles (vs_handles s) !! id with
               | Some h => set_handles (insert_handle id (f h) (vs_handles s)) s
               | None => s
               end).

(** ** Paths *)
(** The loop of [resolve_path_hops], on the components from the current one on *)
Fixpoint resolve_from (hops_remaining : nat) (follow_last : bool)
    : Z → list string → Req St (Z * FuseAttr) :=
  fix go (current_nodeid : Z) (components : list string) : Req St (Z * FuseAttr) :=
    match components with
    | [] => attr_out ← fuse (getattr device current_nodeid); mret (current_nodeid, fao_attr attr_out)
    | component :: rest =>
        if decide (component = "") then go current_nodeid rest
        else
          entry ← fuse (FuseSession.lookup device current_nodeid component);
          let is_last := bool_decide (rest = []) in
          if decide (S_TYPE (feo_attr entry) = S_IFLNK) then
            if is_last && negb follow_last then mret (feo_nodeid entry, feo_attr entry)
            else
              match hops_remaining with
              | O => rq_fail ELOOP
              | S hops' =>
                  target ← fuse (readlink device (feo_nodeid entry));
                  resolve_from hops' follow_last (if Str.starts_with "/" target then 1 else current_nodeid)
                    (Str.split "/" target ++ rest)
              end
          else go (feo_nodeid entry) rest
    end.

Definition resolve_path_hops (p : string) (max_hops : nat) (follow_last : bool) : Req St (Z * FuseAttr) :=
  let p := Str.trim_matches "/" p in
  if decide (p = "") then attr_out ← fuse (getattr device 1); mret (1, fao_attr attr_out)
  else resolve_from max_hops follow_last 1 (Str.split "/" p).

Definition resolve_path (p : string) : Req St (Z * FuseAttr) := resolve_path_hops p 40 true.

(** The node of the parent directory *)
Definition resolve_parent (parent_path : string) : Req St (Z * FuseAttr) :=
  if decide (parent_path = "") then attr_out ← fuse (getattr device 1); mret (1, fao_attr attr_out)
  else resolve_path parent_path.

(** ** Opening *)
Definition scheme_root : Req St Z :=
  attr_out ← fuse (getattr device 1);
  dir_handle ← fuse (opendir device 1);
  insert_new (mkHandle 1 (foo_fh dir_handle) true false "" (fa_size (fao_attr attr_out)) (fa_mode (fao_attr attr_out)) None).

Definition base_path_of s (dirfd : Z) (p : string) : string :=
  match handles (vs_handles s) !! dirfd with
  | Some handle => if Str.starts_with "/" p then "" else vh_path handle
  | None => ""
  end.

Definition open_dir_handle (nodeid : Z) (attr : FuseAttr) (full_path : string) : Req St Z :=
  dir_handle ← fuse (opendir device nodeid);
  insert_new (mkHandle nodeid (foo_fh dir_handle) true false full_path (fa_size attr) (fa_mode attr) None).

Definition open_file_handle (nodeid : Z) (attr : FuseAttr) (full_path : string) (flags : Z) (writable : bool) : Req St Z :=
  file_handle ← fuse (open device nodeid (redox_to_fuse_flags flags));
  insert_new (mkHandle nodeid (foo_fh file_handle) false writable full_path (fa_size attr) (fa_mode attr) None).

(** The branch of [openat] with [O_CREAT] *)
Definition open_or_create (full_path : string) (flags : Z) (writable : bool) : Req St Z :=
  let '(parent_path, filename) := parent_and_name full_path in
  '(parent_nodeid, _) ← resolve_parent parent_path;
  existing ← attempt (resolve_path full_path);
  match existing with
  | Ok (nodeid, attr) =>
      if has flags O_EXCL then rq_fail EEXIST
      else if decide (S_TYPE attr = S_IFDIR) then open_dir_handle nodeid attr full_path
      else open_file_handle nodeid attr full_path flags writable
  | Err _ =>
      if has flags O_DIRECTORY then
        entry ← fuse (mkdir device parent_nodeid filename 0x1ED);
        open_dir_handle (feo_nodeid entry) (feo_attr entry) full_path
      else
        '(entry, opened) ← fuse (create device parent_nodeid filename (redox_to_fuse_flags flags) 0x1A4);
        insert_new (mkHandle (feo_nodeid entry) (foo_fh opened) false true full_path (fa_size (feo_attr entry))
                      (fa_mode (feo_attr entry)) None)
  end.

Definition openat (dirfd : Z) (p : string) (flags : Z) : Req St Z :=
  let p := Str.trim_matches "/" p in
  s ← rq_get;
  let base_path := base_path_of s dirfd p in
  let full_path := if decide (base_path = "") then p
                   else if decide (p = "") then base_path
                   else base_path +:+ "/" +:+ p in
  let access_mode := Z.land flags O_ACCMODE in
  let writable := bool_decide (access_mode = O_WRONLY) || bool_decide (access_mode = Z.lor O_RDONLY O_WRONLY) in
  if has flags O_CREAT then open_or_create full_path flags writable
  else
    let follow_last := negb (bool_decide (Z.land flags O_STAT = O_STAT)) in
    '(nodeid, attr) ← resolve_path_hops full_path 40 follow_last;
    let is_dir := bool_decide (S_TYPE attr = S_IFDIR) in
    if decide (Z.land flags O_STAT = O_STAT) then
      insert_new (mkHandle nodeid 0 is_dir false full_path (fa_size attr) (fa_mode attr) None)
    else if is_dir : bool then
      if decide (Z.land flags O_DIRECTORY ≠ O_DIRECTORY ∧ access_mode ≠ O_RDONLY) then rq_fail EISDIR
      else open_dir_handle nodeid attr full_path
    else if decide (Z.land flags O_DIRECTORY = O_DIRECTORY) then rq_fail ENOTDIR
    else open_file_handle nodeid attr full_path flags writable.

(** ** Files *)
Definition read (id buf_len offset : Z) : Req St string :=
  handle ← get_handle id;
  if vh_is_dir handle then rq_fail EISDIR
  else
    data ← fuse (FuseSession.read device transfer (vh_nodeid handle) (vh_fh handle) offset (wrap32 buf_len));
    mret (take_bytes (Z.to_nat (Z.min (len data) buf_len)) data).

Definition write (id : Z) (buf : string) (offset : Z) : Req St Z :=
  handle ← get_handle id;
  if vh_is_dir handle then rq_fail EISDIR
  else if negb (vh_writable handle) then rq_fail EBADF
  else
    written ← fuse (FuseSession.write device transfer (vh_nodeid handle) (vh_fh handle) offset buf);
    let new_end := wrap64 (offset + written) in
    update_handle id (λ h, if decide (vh_size h < new_end) then set_size new_end h else h) ;;
    mret written.

Definition ftruncate (id length : Z) : Req St unit :=
  handle ← get_handle id;
  if negb (vh_writable handle) then rq_fail EBADF
  else
    attr_out ← fuse (truncate device (vh_nodeid handle) (vh_fh handle) length);
    update_handle id (set_size (fa_size (fao_attr attr_out))).

Definition fsize (id : Z) : Req St Z :=
  handle ← get_handle id;
  attr_out ← fuse (getattr device (vh_nodeid handle));
  update_handle id (set_size (fa_size (fao_attr attr_out))) ;;
  mret (fa_size (fao_attr attr_out)).

Definition fpath (id buf_len : Z) : Req St string :=
  handle ← get_handle id;
  s ← rq_get;
  let scheme_path := "/scheme/" +:+ vs_scheme_name s in
  let full := if decide (vh_path handle = "") then scheme_path else scheme_path +:+ "/" +:+ vh_path handle in
  mret (take_bytes (Z.to_nat (Z.min (len full) buf_len)) full).

Definition fstat (id : Z) : Req St FsStat :=
  handle ← get_handle id;
  attr_out ← fuse (getattr device (vh_nodeid handle));
  let a := fao_attr attr_out in
  mret (mkFsStat (fa_mode a `mod` 2^16) (fa_size a) (fa_blksize a) (fa_blocks a) (fa_nlink a) (fa_uid a) (fa_gid a)
          (fa_ino a) (fa_atime a) (fa_atimensec a) (fa_mtime a) (fa_mtimensec a) (fa_ctime a) (fa_ctimensec a)).

Definition fstatvfs (id : Z) : Req St FsStatVfs :=
  _ ← get_handle id;
  fsstat ← fuse (statfs device);
  let st := fso_st fsstat in
  mret (mkFsStatVfs (fks_bsize st) (fks_blocks st) (fks_bfree st) (fks_bavail st)).

(** ** Directories *)
Definition getdents {Buf : Type} `{IB : InodeBuffer Buf} (id : Z) (buf : Buf) (opaque_offset : Z) : Req St Buf :=
  handle ← get_handle id;
  if negb (vh_is_dir handle) then rq_fail ENOTDIR
  else
    entries ←
      match vh_dir_entries handle with
      | Some entries =>
          if decide (opaque_offset = 0) then fuse (readdir device (vh_nodeid handle) (vh_fh handle) 0 32768)
          else mret entries
      | None => fuse (readdir device (vh_nodeid handle) (vh_fh handle) 0 32768)
      end;
    update_handle id (set_entries entries) ;;
    mret (fill_entries buf opaque_offset (drop (Z.to_nat opaque_offset) entries)).

Definition unlinkat (fd : Z) (p : string) : Req St unit :=
  let p := Str.trim_matches "/" p in
  s ← rq_get;
  let base_path := match handles (vs_handles s) !! fd with Some handle => vh_path handle | None => "" end in
  if decide (base_path ≠ "" ∧ p = "") then rq_fail ENOENT
  else
    let full_path := if decide (base_path = "") then p else base_path +:+ "/" +:+ p in
    let '(parent_path, filename) := parent_and_name full_path in
    '(parent_nodeid, _) ← resolve_parent parent_path;
    '(_, attr) ← resolve_path full_path;
    if decide (S_TYPE attr = S_IFDIR) then fuse (rmdir device parent_nodeid filename)
    else fuse (unlink device parent_nodeid filename).

(** ** The rest *)
Definition fevent (id : Z) : Req St Z :=
  handle ← get_handle id;
  mret (if vh_writable handle then Z.lor EVENT_READ EVENT_WRITE else EVENT_READ).

Definition on_close (id : Z) : Req St unit :=
  s ← rq_get;
  let '(removed, tb) := close_handle id (vs_handles s) in
  rq_put (set_handles tb s) ;;
  match removed with
  | None => mret tt
  | Some handle =>
      if decide (vh_fh handle = 0) then mret tt
      else
        (if vh_writable handle && negb (vh_is_dir handle)
         then _ ← attempt (fuse (flush device (vh_nodeid handle) (vh_fh handle))); mret tt
         else mret tt) ;;
        (if vh_is_dir handle
         then _ ← attempt (fuse (releasedir device (vh_nodeid handle) (vh_fh handle))); mret tt
         else _ ← attempt (fuse (release device (vh_nodeid handle) (vh_fh handle))); mret tt)
  end.

End scheme.
End VirtioFs.
