(* ===== verification/VirtioFacts.v ===== *)
(** * Theorems on virtio-fsd

    What the driver sends to the host in any session, and what becomes of the file handles the host
    hands out; transfers in chunks. *)

From S2P Require Import Prelude RustStd HandleId ProxyIo SchemeHandles Bytes Fuse FuseSession VirtioFs.

Open Scope Z_scope.

(** ** Reading the exchanges *)

(** What follows the header of a response without an error *)
Definition body_of (answer : result FuseTransportError string) : option string :=
  match answer with
  | Ok resp => match parse_response_header resp with Ok _ => Some (response_body resp) | Err _ => None end
  | Err _ => None
  end.

Definition as_struct {A : Type} `{Wire A} (body : string) : option A :=
  match body_struct body with Ok a => Some a | Err _ => None end.

Definition exchanged : Type := string * result FuseTransportError string.

(** The node and the file handle the host has opened in an exchange *)
Definition opened (e : exchanged) : option (Z * Z) :=
  h ← from_bytes e.1;
  body ← body_of e.2;
  if decide (fih_opcode h ∈ opcode_number <$> [Open; Opendir]) then
    o ← as_struct body; Some (fih_nodeid h, foo_fh o)
  else if decide (fih_opcode h = opcode_number Create) then
    entry ← as_struct body;
    o ← as_struct (drop_bytes (struct_size FuseEntryOut) body);
    Some (feo_nodeid entry, foo_fh o)
  else None.

(** The node and the file handle the driver gives back in a message *)
Definition released (e : exchanged) : option (Z * Z) :=
  h ← from_bytes e.1;
  if decide (fih_opcode h ∈ opcode_number <$> [Release; Releasedir]) then
    args ← from_bytes (drop_bytes (struct_size FuseInHeader) e.1); Some (fih_nodeid h, frl_fh args)
  else None.

(** The node the host has named in an exchange *)
Definition named (e : exchanged) : option Z :=
  h ← from_bytes e.1;
  body ← body_of e.2;
  if decide (fih_opcode h ∈ opcode_number <$> [Lookup; Create; Mkdir]) then
    entry ← as_struct body; Some (feo_nodeid entry)
  else None.

(** The nodes the driver can know of: the root, and those it was told of *)
Definition known (log : list exchanged) (nodeid : Z) : Prop := nodeid = 1 ∨ nodeid ∈ omap named log.

(** A message that is what its header says, about a node that is known by then; or the one that
    starts the session, before which there is nothing and which is about no node *)
Definition well_formed (older : list exchanged) (req : string) : Prop :=
  ∃ o h, from_bytes req = Some h ∧ fih_len h = len req ∧ fih_opcode h = opcode_number o
    ∧ (known older (fih_nodeid h) ∨ o = Init ∧ older = [] ∧ fih_nodeid h = 0).

Fixpoint well_sent (log : list exchanged) : Prop :=
  match log with
  | [] => True
  | e :: older => well_formed older e.1 ∧ well_sent older
  end.

(** ** Bytes of structures *)
Definition message (o : FuseOpcode) (nodeid unique : Z) (body : string) : string :=
  as_bytes (request_header (size_of FuseInHeader + len body) o nodeid unique) +:+ body.

Lemma build_message o nodeid unique args name :
  build_request o nodeid unique args name
  = message o nodeid unique (args +:+ match name with Some n => n +:+ nul | None => "" end).
Proof.
  unfold build_request, message. f_equal. f_equal. f_equal. rewrite len_app.
  destruct name; [rewrite len_app|]; change (len nul) with 1; change (len "") with 0; lia.
Qed.

Lemma write_message nodeid fh offset data unique :
  write_request nodeid fh offset data unique
  = message Write nodeid unique (as_bytes (mkFuseWriteIn fh offset (wrap32 (len data)) 0 0 0 0) +:+ data).
Proof. unfold write_request, build_request_with_data, message. rewrite len_app, Z.add_assoc. done. Qed.

Lemma message_read o nodeid unique body :
  0 ≤ nodeid < 2^64 → 0 ≤ unique < 2^64 →
  from_bytes (message o nodeid unique body) = Some (request_header (size_of FuseInHeader + len body) o nodeid unique).
Proof. apply header_read. Qed.

Lemma message_body o nodeid unique body : drop_bytes (struct_size FuseInHeader) (message o nodeid unique body) = body.
Proof.
  unfold message. change (struct_size FuseInHeader) with 40%nat.
  rewrite <- (length_header (size_of FuseInHeader + len body) o nodeid unique). apply drop_bytes_app.
Qed.

Lemma message_len o nodeid unique body : len (message o nodeid unique body) = 40 + len body.
Proof. unfold message. rewrite len_app. unfold len at 1. by rewrite length_header. Qed.

Lemma decode_fits ws s : Forall2 fits ws (decode_words ws s).
Proof.
  revert s. induction ws as [|w ws IH]; intros s; simpl; constructor; [|apply IH].
  unfold fits. pose proof (le_int_range (take_bytes w s)) as [H1 H2]. split; [done|].
  eapply Z.lt_le_trans; [exact H2|]. apply Z.pow_le_mono_r; [lia|]. rewrite length_take_bytes. lia.
Qed.

Lemma open_out_fh body o : @as_struct FuseOpenOut _ body = Some o → 0 ≤ foo_fh o < 2^64.
Proof.
  unfold as_struct, body_struct, from_bytes. case_decide; [done|].
  pose proof (decode_fits (layout FuseOpenOut) body) as Hf. revert Hf.
  destruct (decode_words _ body) as [|a [|b [|c [|]]]]; simpl; try done.
  intros Hf [= <-]. simpl. by inversion Hf.
Qed.

Lemma entry_node body e : @as_struct FuseEntryOut _ body = Some e → 0 ≤ feo_nodeid e < 2^64.
Proof.
  unfold as_struct, body_struct, from_bytes. case_decide; [done|].
  pose proof (decode_fits (layout FuseEntryOut) body) as Hf. revert Hf.
  destruct (decode_words _ body) as [|a [|b [|c [|d [|x [|y l]]]]]]; cbn; try done.
  destruct l as [|? [|? [|? [|? [|? [|? [|? [|? [|? [|? [|? [|? [|? [|? [|? [|? [|]]]]]]]]]]]]]]]]]; cbn; try done.
  intros Hf [= <-]. simpl. by inversion Hf.
Qed.

Lemma body_struct_as {A : Type} `{Wire A} body a : @body_struct A _ body = Ok a ↔ as_struct body = Some a.
Proof. unfold as_struct. destruct (body_struct body); naive_solver. Qed.

(** ** One exchange *)
Section exchanges.
Context {W : Type} (device : string → Z → W → string * W).
Implicit Types (c : conn W).

(** The buffers are what [init] has allocated. *)
Definition buffer : Z := 2097152.

Definition conn_ok c : Prop :=
  tr_req_buf (ss_transport (cn_session c)) = buffer ∧ tr_resp_buf (ss_transport (cn_session c)) = buffer
  ∧ u64 (ss_unique_counter (cn_session c)) ∧ ss_effective_max_io (cn_session c) ≤ MAX_IO_SIZE.

(** Every operation is of this form, read and write in chunks apart. *)
Definition ask {A} (o : FuseOpcode) (nodeid : Z) (body : string) (resp_len : Z)
    (k : string → result FuseTransportError A) : FuseM W A :=
  unique ← next_unique;
  resp ← exchange device (message o nodeid unique body) resp_len;
  flift (k resp).

Definition reads {A} (k : string → result FuseTransportError A) (resp : string) : result FuseTransportError A :=
  _ ← parse_response_header resp; k (response_body resp).

(** What an exchange has done: nothing was sent, for want of room, or a message was. *)
Definition asked {A} (o : FuseOpcode) (nodeid : Z) (body : string) (k : string → result FuseTransportError A)
    (r : result FuseTransportError A) (c c' : conn W) : Prop :=
  conn_ok c'
  ∧ ss_effective_max_io (cn_session c') = ss_effective_max_io (cn_session c)
  ∧ (buffer < 40 + len body ∧ cn_log c' = cn_log c ∧ (∃ e, r = Err e)
     ∨ ∃ u answer, u64 u ∧ cn_log c' = (message o nodeid u body, answer) :: cn_log c
         ∧ 40 + len body ≤ buffer ∧ r = (resp ← answer; k resp)).

Lemma ask_run {A} o nodeid body resp_len (k : string → result FuseTransportError A) c :
  conn_ok c → resp_len ≤ buffer →
  ∃ r c', ask o nodeid body resp_len k c = Some (r, c') ∧ asked o nodeid body k r c c'.
Proof.
  intros (Hq & Hp & Hu & Hm) Hl. unfold ask, asked, conn_ok, mbind, FuseM_bind, next_unique, exchange, flift. simpl.
  rewrite Hq, Hp, message_len. pose proof (wrap64_range (ss_unique_counter (cn_session c) + 1)).
  case_decide as Hlen.
  - eexists _, _. split; [done|]. simpl. split; [done|]. split; [done|]. left. split; [lia|]. split; [done|]. eauto.
  - rewrite decide_False by lia. destruct (device _ _ _) as [resp w]. simpl.
    set (a := if decide (resp_len < len resp) then _ else _).
    clearbody a. destruct a as [x|e]; (eexists _, _; split; [reflexivity|]); (split; [done|]); (split; [done|]); right.
    + eexists _, (Ok x). split; [exact Hu|]. split; [done|]. split; [lia|done].
    + eexists _, (Err e). split; [exact Hu|]. split; [done|]. split; [lia|done].
Qed.

Lemma data_exchange_small req n : n ≤ MAX_IO_SIZE → data_exchange device req n = exchange device req (16 + n).
Proof.
  intros Hn. unfold data_exchange. change (size_of FuseOutHeader) with 16. unfold MAX_IO_SIZE, usize_max in *.
  rewrite decide_False by lia. done.
Qed.

Definition read_args fh offset size : string := as_bytes (mkFuseReadIn fh offset size 0 0 0 0).

Definition write_args fh offset (data : string) : string :=
  as_bytes (mkFuseWriteIn fh offset (wrap32 (len data)) 0 0 0 0) +:+ data.

Lemma app_nil_left s : "" +:+ s = s.
Proof. done. Qed.

(** The operations as exchanges *)
Ltac as_ask :=
  unfold ask, reads, read_args, write_args, meta_exchange, write_exchange, checked_body, flift, build_request_with_args;
  unfold mbind, FuseM_bind, result_bind, next_unique, mret, FuseM_ret; cbn beta iota zeta;
  rewrite ?data_exchange_small by (assumption || done); rewrite ?build_message, ?write_message, ?Str.app_nil_r, ?app_nil_left;
  repeat match goal with
  | |- context [exchange ?d ?m ?l ?c] => destruct (exchange d m l c) as [[[?|?] ?]|]; try reflexivity; cbn beta iota
  | |- context [parse_response_header ?r] => destruct (parse_response_header r); try reflexivity; cbn beta iota
  | |- context [body_struct ?b] => destruct (body_struct b); try reflexivity; cbn beta iota
  | |- context [if ?b then _ else _] => destruct b; try reflexivity; cbn beta iota
  end; try reflexivity.

Lemma init_ask (init_in : FuseInitIn) c :
  (unique ← next_unique;
   resp ← exchange device (build_request_with_args Init 0 unique init_in None) META_RESPONSE;
   body ← checked_body resp;
   flift (@body_struct FuseInitOut _ body)) c
  = ask Init 0 (as_bytes init_in) META_RESPONSE (reads body_struct) c.
Proof. as_ask. Qed.

Lemma lookup_ask parent name c :
  FuseSession.lookup device parent name c = ask Lookup parent (name +:+ nul) META_RESPONSE (reads body_struct) c.
Proof. unfold FuseSession.lookup. as_ask. Qed.

Lemma getattr_ask nodeid c :
  getattr device nodeid c = ask Getattr nodeid (as_bytes (mkFuseGetattrIn 0 0 0)) META_RESPONSE (reads body_struct) c.
Proof. unfold getattr. as_ask. Qed.

Lemma open_ask nodeid flags c :
  open device nodeid flags c
  = ask Open nodeid (as_bytes (mkFuseOpenIn flags 0)) META_RESPONSE (reads body_struct) c.
Proof. unfold open. as_ask. Qed.

Lemma opendir_ask nodeid c :
  opendir device nodeid c = ask Opendir nodeid (as_bytes (mkFuseOpenIn 0 0)) META_RESPONSE (reads body_struct) c.
Proof. unfold opendir. as_ask. Qed.

Lemma release_ask nodeid fh c :
  release device nodeid fh c
  = ask Release nodeid (as_bytes (mkFuseReleaseIn fh 0 0 0)) META_RESPONSE (reads (λ _, Ok tt)) c.
Proof. unfold release. as_ask. Qed.

Lemma releasedir_ask nodeid fh c :
  releasedir device nodeid fh c
  = ask Releasedir nodeid (as_bytes (mkFuseReleaseIn fh 0 0 0)) META_RESPONSE (reads (λ _, Ok tt)) c.
Proof. unfold releasedir. as_ask. Qed.

Lemma flush_ask nodeid fh c :
  flush device nodeid fh c
  = ask Flush nodeid (as_bytes (mkFuseFlushIn fh 0 0 0)) META_RESPONSE (reads (λ _, Ok tt)) c.
Proof. unfold flush. as_ask. Qed.

Lemma mkdir_ask parent name mode c :
  mkdir device parent name mode c
  = ask Mkdir parent (as_bytes (mkFuseMkdirIn mode 0x12) +:+ name +:+ nul) META_RESPONSE (reads body_struct) c.
Proof. unfold mkdir. as_ask. Qed.

Definition created (body : string) : result FuseTransportError (FuseEntryOut * FuseOpenOut) :=
  if decide (len body < size_of FuseEntryOut + size_of FuseOpenOut) then Err UnexpectedSize
  else entry ← body_struct body; open ← body_struct (drop_bytes (struct_size FuseEntryOut) body); Ok (entry, open).

Lemma create_ask parent name flags mode c :
  create device parent name flags mode c
  = ask Create parent (as_bytes (mkFuseCreateIn flags mode 0x12 0) +:+ name +:+ nul) META_RESPONSE (reads created) c.
Proof. unfold create, created. as_ask. Qed.

Lemma unlink_ask parent name c :
  unlink device parent name c = ask Unlink parent (name +:+ nul) META_RESPONSE (reads (λ _, Ok tt)) c.
Proof. unfold unlink. as_ask. Qed.

Lemma rmdir_ask parent name c :
  rmdir device parent name c = ask Rmdir parent (name +:+ nul) META_RESPONSE (reads (λ _, Ok tt)) c.
Proof. unfold rmdir. as_ask. Qed.

Lemma statfs_ask c : statfs device c = ask Statfs 1 "" META_RESPONSE (reads body_struct) c.
Proof. unfold statfs. as_ask. Qed.

Lemma truncate_ask nodeid fh size c :
  truncate device nodeid fh size c
  = ask Setattr nodeid (as_bytes (mkFuseSetattrIn (Z.lor FATTR_SIZE FATTR_FH) 0 fh size 0 0 0 0 0 0 0 0 0 0 0 0))
      META_RESPONSE (reads body_struct) c.
Proof. unfold truncate. as_ask. Qed.

Lemma readlink_ask nodeid c :
  readlink device nodeid c
  = ask Readlink nodeid "" (16 + 4096) (reads (λ body, if Str.utf8_valid body then Ok body else Err UnexpectedSize)) c.
Proof. unfold readlink. as_ask. Qed.

Lemma read_ask nodeid fh offset size c :
  size ≤ MAX_IO_SIZE →
  read_single device nodeid fh offset size c
  = ask Read nodeid (read_args fh offset size) (16 + size) (reads Ok) c.
Proof. intros Hs. unfold read_single, read_request. as_ask. Qed.

Lemma readdir_ask nodeid fh offset size c :
  size ≤ MAX_IO_SIZE →
  readdir device nodeid fh offset size c
  = ask Readdir nodeid (read_args fh offset size) (16 + size) (reads (λ body, Ok (parse_dirents body))) c.
Proof. intros Hs. unfold readdir, read_request. as_ask. Qed.

Lemma write_ask nodeid fh offset data c :
  write_single device nodeid fh offset data c
  = ask Write nodeid (write_args fh offset data) META_RESPONSE
      (reads (λ body, out ← body_struct body; Ok (fwo_size out))) c.
Proof. unfold write_single. as_ask. Qed.

End exchanges.

(** ** What an exchange adds to the record *)
Section record.
Context (o : FuseOpcode) (nodeid u : Z) (body : string) (answer : result FuseTransportError string).
Context (Hn : 0 ≤ nodeid < 2^64) (Hu : u64 u).

Lemma sent_read :
  from_bytes (message o nodeid u body) = Some (request_header (size_of FuseInHeader + len body) o nodeid u).
Proof. apply message_read; [exact Hn|]. unfold u64, u64_max in Hu. lia. Qed.

Lemma opened_message :
  opened (message o nodeid u body, answer)
  = b ← body_of answer;
    match o with
    | Open | Opendir => r ← as_struct b; Some (nodeid, foo_fh r)
    | Create =>
        entry ← as_struct b;
        r ← as_struct (drop_bytes (struct_size FuseEntryOut) b); Some (feo_nodeid entry, foo_fh r)
    | _ => None
    end.
Proof.
  unfold opened. cbn [fst snd]. rewrite sent_read. cbn [mbind option_bind].
  destruct (body_of answer) as [b|]; [|done]. cbn [mbind option_bind]. by destruct o.
Qed.

Lemma released_message :
  released (message o nodeid u body, answer)
  = match o with Release | Releasedir => args ← from_bytes body; Some (nodeid, frl_fh args) | _ => None end.
Proof.
  unfold released. cbn [fst snd]. rewrite sent_read, message_body. cbn [mbind option_bind]. by destruct o.
Qed.

Lemma named_message :
  named (message o nodeid u body, answer)
  = b ← body_of answer;
    match o with Lookup | Create | Mkdir => entry ← as_struct b; Some (feo_nodeid entry) | _ => None end.
Proof.
  unfold named. cbn [fst snd]. rewrite sent_read. cbn [mbind option_bind].
  destruct (body_of answer) as [b|]; [|done]. cbn [mbind option_bind]. by destruct o.
Qed.

Lemma message_well_formed older :
  known older nodeid → 40 + len body ≤ buffer → well_formed older (message o nodeid u body).
Proof.
  intros Hk Hl. exists o. eexists. split; [apply sent_read|]. simpl. split_and!; [|done|by left].
  rewrite message_len. change (size_of FuseInHeader) with 40. apply wrap32_small.
  pose proof (len_nonneg body). unfold u32, u32_max, buffer in *. lia.
Qed.
End record.

Lemma known_range log nodeid : known log nodeid → 0 ≤ nodeid < 2^64.
Proof.
  intros [->|Hi]; [lia|]. apply list_elem_of_omap in Hi as (e & _ & He). unfold named in He.
  destruct (from_bytes e.1) as [h|]; [|done]. simpl in He. destruct (body_of e.2) as [b|]; [|done]. simpl in He.
  case_decide; [|done]. destruct (as_struct b) eqn:E; [|done]. simpl in He. injection He as <-. by eapply entry_node.
Qed.

Lemma known_grows log new nodeid : known log nodeid → known (new ++ log) nodeid.
Proof. intros [->|Hi]; [by left|]. right. rewrite omap_app. set_solver. Qed.

Lemma reads_Ok {A} (k : string → result FuseTransportError A) answer a :
  (resp ← answer; reads k resp) = Ok a ↔ ∃ b, body_of answer = Some b ∧ k b = Ok a.
Proof.
  destruct answer as [resp|e]; simpl; [|naive_solver]. unfold reads.
  destruct (parse_response_header resp); simpl; naive_solver.
Qed.

Lemma release_args fh : 0 ≤ fh < 2^64 → from_bytes (as_bytes (mkFuseReleaseIn fh 0 0 0)) = Some (mkFuseReleaseIn fh 0 0 0).
Proof.
  intros Hf. rewrite <- (Str.app_nil_r (as_bytes _)). unfold from_bytes, as_bytes. rewrite decode_encode; [done|].
  repeat constructor; unfold fits; simpl; lia.
Qed.

(** ** The invariant of the scheme *)
Definition pair_of (h : Handle) : Z * Z := (vh_nodeid h, vh_fh h).

(** A handle without a file handle of the host, as one opened for its attributes, has the number 0. *)
Definition tracked (p : Z * Z) : Prop := p.2 ≠ 0.
#[export] Instance tracked_dec p : Decision (tracked p).
Proof. unfold tracked. apply _. Defined.

Definition live (tb : HandleTable Handle) : list (Z * Z) :=
  filter tracked (pair_of <$> (map_to_list (handles tb)).*2).

(** What the host has opened was given back, is open in the scheme, or is about to be. *)
Definition balanced (pending : list (Z * Z)) (log : list exchanged) (tb : HandleTable Handle) : Prop :=
  filter tracked (omap opened log) ≡ₚ omap released log ++ live tb ++ filter tracked pending.

Definition handle_ok (log : list exchanged) (h : Handle) : Prop := known log (vh_nodeid h) ∧ 0 ≤ vh_fh h < 2^64.

Section invariant.
Context {W : Type} (device : string → Z → W → string * W).
Implicit Types (s : VirtioFsScheme W) (log : list exchanged) (ns : list Z) (P : list (Z * Z)).

Definition log_of s : list exchanged := cn_log (vs_conn s).

Record inv P s : Prop := mkInv {
  inv_conn : conn_ok (vs_conn s);
  inv_sent : well_sent (log_of s);
  inv_handles : map_Forall (λ _, handle_ok (log_of s)) (handles (vs_handles s));
  inv_balanced : balanced P (log_of s) (vs_handles s);
}.

Definition grows s s' : Prop := ∃ new, log_of s' = new ++ log_of s.

Lemma grows_refl s : grows s s.
Proof. by exists []. Qed.

Lemma grows_trans s1 s2 s3 : grows s1 s2 → grows s2 s3 → grows s1 s3.
Proof. intros [n1 H1] [n2 H2]. exists (n2 ++ n1). by rewrite H2, H1, app_assoc. Qed.

Lemma grows_known s s' n : grows s s' → known (log_of s) n → known (log_of s') n.
Proof. intros [new ->]. apply known_grows. Qed.

Lemma handle_ok_grows s s' h : grows s s' → handle_ok (log_of s) h → handle_ok (log_of s') h.
Proof. intros Hg [Hk Hf]. split; [by eapply grows_known|done]. Qed.

(** A request that keeps the invariant, whatever is pending, when the nodes [ns] are known; the
    nodes [res] of its result are known then. *)
Definition quiet {A} ns (m : Req (VirtioFsScheme W) A) (res : A → list Z) : Prop :=
  ∀ P s r s', inv P s → Forall (known (log_of s)) ns → m s = Some (r, s') →
    inv P s' ∧ grows s s' ∧ ∀ a, r = Ok a → Forall (known (log_of s')) (res a).

Lemma quiet_ret {A} ns (a : A) res : res a ⊆ ns → quiet ns (mret a) res.
Proof.
  intros Hr P s r s' Hi Hk [= <- <-]. split; [done|]. split; [apply grows_refl|]. intros ? [= <-].
  rewrite Forall_forall in *. auto.
Qed.

Lemma quiet_fail {A} ns e (res : A → list Z) : quiet ns (rq_fail e) res.
Proof. intros P s r s' Hi Hk [= <- <-]. split; [done|]. split; [apply grows_refl|done]. Qed.

Lemma quiet_bind {A B} ns (m : Req _ A) (f : A → Req _ B) res res' :
  quiet ns m res → (∀ a, quiet (res a ++ ns) (f a) res') → quiet ns (m ≫= f) res'.
Proof.
  intros Hm Hf P s r s' Hi Hk. unfold mbind, Req_bind. destruct (m s) as [[[a|e] s1]|] eqn:E; [|intros [= <- <-]|done].
  - intros H. destruct (Hm P s _ _ Hi Hk E) as (Hi1 & Hg1 & Hr1).
    destruct (Hf a P s1 r s' Hi1) as (Hi2 & Hg2 & Hr2); [|done|].
    + apply Forall_app. split; [by apply Hr1|]. eapply Forall_impl; [exact Hk|]. intros n. by apply grows_known.
    + split; [done|]. split; [by eapply grows_trans|done].
  - destruct (Hm P s _ _ Hi Hk E) as (Hi1 & Hg1 & _). done.
Qed.

Lemma quiet_weaken {A} ns ns' (m : Req _ A) res : ns' ⊆ ns → quiet ns' m res → quiet ns m res.
Proof. intros Hs Hm P s r s' Hi Hk. apply Hm; [done|]. rewrite Forall_forall in *. auto. Qed.

Lemma quiet_root {A} ns (m : Req _ A) res : quiet (1 :: ns) m res → quiet ns m res.
Proof. intros Hm P s r s' Hi Hk. apply Hm; [done|]. constructor; [by left|done]. Qed.

Lemma quiet_drop {A} ns (m : Req _ A) res : quiet ns m res → quiet ns m (λ _, []).
Proof. intros Hm P s r s' Hi Hk H. destruct (Hm P s r s' Hi Hk H) as (? & ? & _). done. Qed.

Lemma quiet_get ns : quiet ns rq_get (λ _, []).
Proof. intros P s r s' Hi Hk [= <- <-]. split; [done|]. split; [apply grows_refl|done]. Qed.

Lemma quiet_attempt {A} ns (m : Req _ A) res :
  quiet ns m res → quiet ns (VirtioFs.attempt m) (λ r, match r with Ok a => res a | Err _ => [] end).
Proof.
  intros Hm P s r s' Hi Hk. unfold VirtioFs.attempt. destruct (m s) as [[r1 s1]|] eqn:E; [|done].
  intros [= <- <-]. destruct (Hm P s _ _ Hi Hk E) as (H1 & H2 & H3). split; [done|]. split; [done|].
  intros a [= <-]. destruct r1; [by apply H3|done].
Qed.

Lemma quiet_handle ns id : quiet ns (VirtioFs.get_handle id) (λ h, [vh_nodeid h]).
Proof.
  intros P s r s' Hi Hk. unfold VirtioFs.get_handle. intros [= <- <-]. split; [done|]. split; [apply grows_refl|].
  intros a. destruct (_ !! id) as [h|] eqn:E; intros [= <-]. constructor; [|done].
  by apply (inv_handles _ _ Hi id h E).
Qed.

Lemma live_perm tb tb' : handles tb = handles tb' → live tb = live tb'.
Proof. unfold live. by intros ->. Qed.

Lemma live_insert id h tb :
  handles tb !! id = None → live (insert_handle id h tb) ≡ₚ filter tracked [pair_of h] ++ live tb.
Proof.
  intros Hn. unfold live, insert_handle. simpl. rewrite map_to_list_insert by done. simpl.
  rewrite filter_cons. case_decide; simpl; [rewrite filter_cons_True by done|rewrite filter_cons_False by done]; done.
Qed.

Lemma live_delete id h tb :
  handles tb !! id = Some h → live tb ≡ₚ filter tracked [pair_of h] ++ live (close_handle id tb).2.
Proof.
  intros Hl. unfold close_handle. simpl.
  rewrite <- (live_insert id h (mkHandleTable (next_id tb) (base.delete id (handles tb)))) by (simpl; by rewrite lookup_delete_eq).
  unfold insert_handle. simpl. by rewrite insert_delete_id.
Qed.

Lemma live_update id h h' tb :
  handles tb !! id = Some h → pair_of h' = pair_of h → live (insert_handle id h' tb) ≡ₚ live tb.
Proof.
  intros Hl Hp. rewrite (live_delete id h tb Hl), <- Hp.
  rewrite <- (live_insert id h' (close_handle id tb).2) by (simpl; by rewrite lookup_delete_eq).
  unfold close_handle, insert_handle. simpl. by rewrite insert_delete_eq.
Qed.

Lemma quiet_update ns id f : (∀ h, pair_of (f h) = pair_of h) → quiet ns (VirtioFs.update_handle id f) (λ _, []).
Proof.
  intros Hf P s r s' Hi Hk. unfold VirtioFs.update_handle. intros [= <- <-].
  destruct (_ !! id) as [h|] eqn:E; [|split; [done|]; split; [apply grows_refl|done]].
  split; [|split; [by exists []|done]]. destruct Hi as [Hc Hs Hh Hb].
  pose proof (Hh id h E) as Ho. pose proof (Hf h) as Hp. constructor; simpl; [done|done| |].
  - apply map_Forall_insert_2; [|done]. unfold handle_ok in *. injection Hp as -> ->. done.
  - unfold balanced, log_of in *. simpl. rewrite Hb. by rewrite (live_update id h (f h)).
Qed.
End invariant.

(** ** The operations of the session keep the invariant *)
Section fuse_steps.
Context {W : Type} (device : string → Z → W → string * W).
Implicit Types (s : VirtioFsScheme W) (ns : list Z) (P : list (Z * Z)).

(** The exchange of an operation, seen from the scheme *)
Lemma fuse_step {A} (m : FuseM W A) o nodeid body resp_len (k : string → result FuseTransportError A) P s r s' :
  (∀ c, m c = ask device o nodeid body resp_len k c) → resp_len ≤ buffer →
  inv P s → known (log_of s) nodeid → VirtioFs.fuse m s = Some (r, s') →
  vs_handles s' = vs_handles s
  ∧ (buffer < 40 + len body ∧ inv P s' ∧ log_of s' = log_of s ∧ (∃ e, r = Err e)
     ∨ ∃ u answer, u64 u ∧ log_of s' = (message o nodeid u body, answer) :: log_of s
         ∧ conn_ok (vs_conn s') ∧ well_sent (log_of s')
         ∧ map_Forall (λ _, handle_ok (log_of s')) (handles (vs_handles s'))
         ∧ ∀ a, r = Ok a ↔ (resp ← answer; k resp) = Ok a).
Proof.
  intros Hm Hl Hi Hk. unfold VirtioFs.fuse. rewrite Hm.
  destruct (ask_run device o nodeid body resp_len k (vs_conn s) (inv_conn _ _ Hi) Hl) as (r0 & c' & -> & Hc & _ & Ha).
  intros [= <- <-]. split; [done|]. destruct Hi as [Hi1 Hi2 Hi3 Hi4].
  destruct Ha as [(Hb & Hlog & e & ->)|(u & answer & Hu & Hlog & Hb & ->)].
  - left. split; [done|]. split; [|split; [done|by eexists]].
    constructor; unfold log_of in *; simpl; [done|..]; rewrite Hlog; done.
  - right. exists u, answer. split; [done|]. split; [done|]. split; [done|]. unfold log_of in *. simpl. rewrite Hlog.
    split; [|split].
    + split; [|done]. apply message_well_formed; [by eapply known_range|done|done|done].
    + intros id h Hh. destruct (Hi3 id h Hh). split; [|done]. by apply (known_grows _ [_]).
    + intros a. destruct (resp ← answer; k resp); naive_solver.
Qed.

Definition special (o : FuseOpcode) : bool :=
  match o with Open | Opendir | Create | Release | Releasedir => true | _ => false end.

Lemma fuse_quiet {A} (m : FuseM W A) o nodeid body resp_len (k : string → result FuseTransportError A) ns res :
  (∀ c, m c = ask device o nodeid body resp_len k c) → resp_len ≤ buffer → special o = false →
  (∀ u answer a log, u64 u → 0 ≤ nodeid < 2^64 → (resp ← answer; k resp) = Ok a →
     Forall (known ((message o nodeid u body, answer) :: log)) (res a)) →
  nodeid ∈ ns → quiet ns (VirtioFs.fuse m) res.
Proof.
  intros Hm Hl Ho Hres Hn P s r s' Hi Hk H. assert (known (log_of s) nodeid) as Hkn by (rewrite Forall_forall in Hk; auto).
  pose proof (known_range _ _ Hkn) as Hr.
  destruct (fuse_step m o nodeid body resp_len k P s r s' Hm Hl Hi Hkn H)
    as [Hh [(_ & Hi' & Hlog & e & ->)|(u & answer & Hu & Hlog & Hc & Hs & Hok & Ha)]].
  - split; [done|]. split; [by exists []|done].
  - split; [|split; [by exists [(message o nodeid u body, answer)]|]].
    + constructor; [done|done|done|]. unfold balanced. rewrite Hlog, Hh. simpl.
      rewrite opened_message, released_message by done.
      assert (∀ X (f g h : X), match o with Open | Opendir => f | Create => g | _ => h end = h) as Hx by (by destruct o).
      destruct Hi as [_ _ _ Hb]. unfold balanced in Hb.
      destruct (body_of answer); destruct o; try discriminate Ho; done.
    + intros a Hra. rewrite Hlog. apply Hres; [done|done|by apply Ha].
Qed.

(** The node of an entry is known from the response on. *)
Lemma entry_named o nodeid body u answer e log :
  o ∈ [Lookup; Mkdir] → u64 u → 0 ≤ nodeid < 2^64 → (resp ← answer; reads body_struct resp) = Ok e →
  Forall (known ((message o nodeid u body, answer) :: log)) [feo_nodeid e].
Proof.
  intros Ho Hu Hn (b & Hb & He)%reads_Ok. apply body_struct_as in He. constructor; [|done]. right. simpl.
  rewrite named_message, Hb by done. simpl. rewrite He.
  apply elem_of_cons in Ho as [->|Ho%list_elem_of_singleton]; [|subst]; simpl; left.
Qed.

Ltac quietly L := eapply fuse_quiet; [intros; apply L; done|done|done|done|assumption || set_solver].

Lemma quiet_lookup ns nodeid name :
  nodeid ∈ ns → quiet ns (VirtioFs.fuse (FuseSession.lookup device nodeid name)) (λ e, [feo_nodeid e]).
Proof.
  intros Hn. eapply fuse_quiet; [apply lookup_ask|done|done| |done]. intros. apply entry_named; [set_solver|done..].
Qed.

Lemma quiet_mkdir ns nodeid name mode :
  nodeid ∈ ns → quiet ns (VirtioFs.fuse (mkdir device nodeid name mode)) (λ e, [feo_nodeid e]).
Proof.
  intros Hn. eapply fuse_quiet; [apply mkdir_ask|done|done| |done]. intros. apply entry_named; [set_solver|done..].
Qed.

Lemma quiet_getattr ns nodeid : nodeid ∈ ns → quiet ns (VirtioFs.fuse (getattr device nodeid)) (λ _, []).
Proof. intros. quietly @getattr_ask. Qed.

Lemma quiet_readlink ns nodeid : nodeid ∈ ns → quiet ns (VirtioFs.fuse (readlink device nodeid)) (λ _, []).
Proof. intros. quietly @readlink_ask. Qed.

Lemma quiet_flush ns nodeid fh : nodeid ∈ ns → quiet ns (VirtioFs.fuse (flush device nodeid fh)) (λ _, []).
Proof. intros. quietly @flush_ask. Qed.

Lemma quiet_unlink ns nodeid name : nodeid ∈ ns → quiet ns (VirtioFs.fuse (unlink device nodeid name)) (λ _, []).
Proof. intros. quietly @unlink_ask. Qed.

Lemma quiet_rmdir ns nodeid name : nodeid ∈ ns → quiet ns (VirtioFs.fuse (rmdir device nodeid name)) (λ _, []).
Proof. intros. quietly @rmdir_ask. Qed.

Lemma quiet_truncate ns nodeid fh size :
  nodeid ∈ ns → quiet ns (VirtioFs.fuse (truncate device nodeid fh size)) (λ _, []).
Proof. intros. quietly @truncate_ask. Qed.

Lemma quiet_readdir ns nodeid fh offset :
  nodeid ∈ ns → quiet ns (VirtioFs.fuse (readdir device nodeid fh offset 32768)) (λ _, []).
Proof. intros. quietly @readdir_ask. Qed.

Lemma quiet_read_single ns nodeid fh offset size :
  size ≤ MAX_IO_SIZE → nodeid ∈ ns → quiet ns (VirtioFs.fuse (read_single device nodeid fh offset size)) (λ _, []).
Proof. intros. eapply fuse_quiet; [intros; by apply read_ask| |done|done|done]. unfold buffer, MAX_IO_SIZE in *. lia. Qed.

Lemma quiet_write_single ns nodeid fh offset data :
  nodeid ∈ ns → quiet ns (VirtioFs.fuse (write_single device nodeid fh offset data)) (λ _, []).
Proof. intros. quietly @write_ask. Qed.

(** [statfs] is about the root. *)
Lemma quiet_statfs ns : quiet ns (VirtioFs.fuse (statfs device)) (λ _, []).
Proof.
  apply quiet_root. eapply fuse_quiet; [apply statfs_ask|done|done|done|by left].
Qed.

(** *** Transfers *)
Lemma fuse_bind {A B} (m : FuseM W A) (f : A → FuseM W B) s :
  VirtioFs.fuse (m ≫= f) s = (a ← VirtioFs.fuse m; VirtioFs.fuse (f a)) s.
Proof.
  unfold VirtioFs.fuse, mbind, FuseM_bind, Req_bind. destruct (m (vs_conn s)) as [[[a|e] c]|]; simpl; [|done|done].
  by destruct (f a c) as [[[b|e] c']|].
Qed.

Lemma quiet_ext {A} ns (m m' : Req (VirtioFsScheme W) A) res : (∀ s, m s = m' s) → quiet ns m res → quiet ns m' res.
Proof. intros He Hm P s r s' Hi Hk. rewrite <- He. by apply Hm. Qed.

Lemma quiet_fuse_bind {A B} ns (m : FuseM W A) (f : A → FuseM W B) res res' :
  quiet ns (VirtioFs.fuse m) res → (∀ a, quiet (res a ++ ns) (VirtioFs.fuse (f a)) res') →
  quiet ns (VirtioFs.fuse (m ≫= f)) res'.
Proof. intros Hm Hf. eapply quiet_ext; [intros; symmetry; apply fuse_bind|]. by eapply quiet_bind. Qed.

Lemma quiet_fuse_ret {A} ns (a : A) : quiet (W := W) ns (VirtioFs.fuse (mret a)) (λ _, []).
Proof. intros P s r s' Hi Hk [= <- <-]. destruct s. split; [by destruct Hi|]. split; [by exists []|done]. Qed.

Lemma quiet_max_io {A} ns (f : Z → FuseM W A) res :
  (∀ n, n ≤ MAX_IO_SIZE → quiet ns (VirtioFs.fuse (f n)) res) →
  quiet (W := W) ns (VirtioFs.fuse (effective_max_io ≫= f)) res.
Proof.
  intros Hf P s r s' Hi Hk. destruct (inv_conn _ _ Hi) as (_ & _ & _ & Hm).
  exact (Hf (ss_effective_max_io (cn_session (vs_conn s))) Hm P s r s' Hi Hk).
Qed.

Lemma quiet_fuse_out ns A : quiet (W := W) (A := A) ns (VirtioFs.fuse (λ _, None)) (λ _, []).
Proof. intros P s r s' Hi Hk. done. Qed.

Lemma quiet_read_chunks ns fuel nodeid fh offset remaining acc :
  nodeid ∈ ns → quiet ns (VirtioFs.fuse (read_chunks device fuel nodeid fh offset remaining acc)) (λ _, []).
Proof.
  intros Hn. revert offset remaining acc.
  induction fuel as [|fuel IH]; intros offset remaining acc; simpl; [apply quiet_fuse_out|].
  case_decide; [apply quiet_fuse_ret|]. apply quiet_max_io. intros n Hm.
  eapply quiet_fuse_bind; [apply quiet_read_single; [lia|done]|]. intros chunk. simpl.
  case_decide; [apply quiet_fuse_ret|apply IH].
Qed.

Lemma quiet_write_chunks ns fuel nodeid fh offset data total :
  nodeid ∈ ns → quiet ns (VirtioFs.fuse (write_chunks device fuel nodeid fh offset data total)) (λ _, []).
Proof.
  intros Hn. revert offset data total.
  induction fuel as [|fuel IH]; intros offset data total; simpl; [apply quiet_fuse_out|].
  case_decide; [apply quiet_fuse_ret|]. apply quiet_max_io. intros n Hm.
  eapply quiet_fuse_bind; [by apply quiet_write_single|]. intros written. simpl.
  case_decide; [apply quiet_fuse_ret|apply IH].
Qed.

Lemma quiet_session_read ns fuel nodeid fh offset size :
  nodeid ∈ ns → quiet ns (VirtioFs.fuse (FuseSession.read device fuel nodeid fh offset size)) (λ _, []).
Proof.
  intros Hn. apply quiet_max_io. intros n Hm. case_decide; [apply quiet_read_single; [lia|done]|by apply quiet_read_chunks].
Qed.

Lemma quiet_session_write ns fuel nodeid fh offset data :
  nodeid ∈ ns → quiet ns (VirtioFs.fuse (FuseSession.write device fuel nodeid fh offset data)) (λ _, []).
Proof.
  intros Hn. apply quiet_max_io. intros n Hm. case_decide; [by apply quiet_write_single|by apply quiet_write_chunks].
Qed.

(** *** Paths *)
Lemma quiet_attr ns nodeid :
  nodeid ∈ ns → quiet ns (attr_out ← VirtioFs.fuse (getattr device nodeid); mret (nodeid, fao_attr attr_out)) (λ p, [p.1]).
Proof.
  intros Hn. eapply quiet_bind; [by apply quiet_getattr|]. intros a. apply quiet_ret. simpl. set_solver.
Qed.

Lemma quiet_resolve_from hops follow ns nodeid components :
  nodeid ∈ ns → quiet ns (VirtioFs.resolve_from device hops follow nodeid components) (λ p, [p.1]).
Proof.
  revert ns nodeid components. induction hops as [|hops IH]; intros ns nodeid components.
  all: revert ns nodeid; induction components as [|c rest IHc]; intros ns nodeid Hn; simpl; [by apply quiet_attr|].
  all: case_decide; [by apply IHc|].
  all: eapply quiet_bind; [by apply quiet_lookup|]; intros entry; simpl.
  all: case_decide; [|apply IHc; by left].
  all: destruct (_ && _); [apply quiet_ret; simpl; set_solver|].
  - apply quiet_fail.
  - eapply quiet_bind; [apply quiet_readlink; by left|]. intros target. simpl.
    destruct (Str.starts_with _ _); [apply quiet_root, IH; by left|apply IH; set_solver].
Qed.

Lemma quiet_resolve_hops ns p hops follow : quiet ns (VirtioFs.resolve_path_hops device p hops follow) (λ p, [p.1]).
Proof.
  unfold VirtioFs.resolve_path_hops. apply quiet_root.
  case_decide; [apply quiet_attr|apply quiet_resolve_from]; by left.
Qed.

Lemma quiet_resolve ns p : quiet ns (VirtioFs.resolve_path device p) (λ p, [p.1]).
Proof. apply quiet_resolve_hops. Qed.

Lemma quiet_resolve_parent ns p : quiet ns (VirtioFs.resolve_parent device p) (λ p, [p.1]).
Proof.
  unfold VirtioFs.resolve_parent. case_decide; [|apply quiet_resolve]. apply quiet_root, quiet_attr. by left.
Qed.
(** *** Opening *)
Lemma balanced_put p P log tb tb' :
  live tb' ≡ₚ filter tracked [p] ++ live tb → balanced (p :: P) log tb → balanced P log tb'.
Proof.
  unfold balanced. intros Hl ->. rewrite Hl. rewrite filter_cons. destruct (decide (tracked p)) as [Ht|Ht].
  - rewrite (filter_cons_True _ _ _ Ht). apply Permutation_app_head. simpl. by rewrite <- Permutation_middle.
  - rewrite (filter_cons_False _ _ _ Ht). done.
Qed.

Lemma balanced_untracked n P log tb : balanced P log tb → balanced ((n, 0) :: P) log tb.
Proof. unfold balanced. rewrite filter_cons_False; [done|]. intros Ht. by apply Ht. Qed.

Lemma insert_pending h P s r s' :
  inv (pair_of h :: P) s → handle_ok (log_of s) h → VirtioFs.insert_new h s = Some (r, s') →
  inv P s' ∧ log_of s' = log_of s.
Proof.
  intros [Hc Hs Hh Hb] Ho. unfold VirtioFs.insert_new.
  destruct (open_handle h (vs_handles s)) as [[id tb]|] eqn:E; [|done]. intros [= <- <-].
  apply open_handle_fresh in E as (Hn & _ & Htb). split; [|done]. constructor; simpl; [done|done| |].
  - rewrite Htb. by apply map_Forall_insert_2.
  - eapply balanced_put; [|exact Hb]. rewrite (live_perm tb (insert_handle id h (vs_handles s))) by done.
    by apply live_insert.
Qed.

Lemma inv_untracked n P s : inv P s → inv ((n, 0) :: P) s.
Proof. intros [Hc Hs Hh Hb]. constructor; [done..|]. by apply balanced_untracked. Qed.

(** An operation that opens a file handle, followed by the insertion of the handle *)
Lemma quiet_open_then {A} ns (m : FuseM W A) o nodeid body (k : string → result FuseTransportError A)
    (h : A → Handle) :
  (∀ c, m c = ask device o nodeid body META_RESPONSE k c) →
  (∀ u answer, u64 u → 0 ≤ nodeid < 2^64 → released (message o nodeid u body, answer) = None) →
  (∀ u answer log, u64 u → 0 ≤ nodeid < 2^64 → known log nodeid →
     match (resp ← answer; k resp) with
     | Ok a => opened (message o nodeid u body, answer) = Some (pair_of (h a))
               ∧ handle_ok ((message o nodeid u body, answer) :: log) (h a)
     | Err _ => opened (message o nodeid u body, answer) = None
     end) →
  nodeid ∈ ns → quiet ns (a ← VirtioFs.fuse m; VirtioFs.insert_new (h a)) (λ _, []).
Proof.
  intros Hm Hr Ho Hn P s r s' Hi Hk. assert (known (log_of s) nodeid) as Hkn by (rewrite Forall_forall in Hk; auto).
  pose proof (known_range _ _ Hkn) as Hrange. unfold mbind, Req_bind.
  destruct (VirtioFs.fuse m s) as [[r1 s1]|] eqn:E; [|done].
  destruct (fuse_step m o nodeid body META_RESPONSE k P s r1 s1 Hm ltac:(done) Hi Hkn E)
    as [Hh [(_ & Hi' & Hlog & e & ->)|(u & answer & Hu & Hlog & Hc & Hs & Hok & Ha)]].
  - intros [= <- <-]. split; [done|]. split; [by exists []|done].
  - specialize (Ho u answer (log_of s) Hu Hrange Hkn). specialize (Hr u answer Hu Hrange).
    assert (grows s s1) as Hg by (by exists [(message o nodeid u body, answer)]).
    destruct Hi as [_ _ _ Hb]. destruct (resp ← answer; k resp) as [a|e] eqn:Er.
    + assert (r1 = Ok a) as -> by (by apply Ha). destruct Ho as [Ho Hoka]. intros Hins.
      destruct (insert_pending (h a) P s1 r s') as [Hi' Hl']; [|by rewrite Hlog|done|].
      { constructor; [done|done|done|]. unfold balanced in *. rewrite Hlog, Hh. simpl. rewrite Ho, Hr.
        rewrite !filter_cons. case_decide; rewrite Hb; [|done]. by rewrite !Permutation_middle. }
      split; [done|]. split; [|done]. destruct Hg as [new Hg]. exists new. by rewrite Hl'.
    + destruct r1 as [a|e']; [pose proof (proj1 (Ha a) eq_refl); congruence|]. intros [= <- <-].
      split; [|split; [done|done]]. constructor; [done|done|done|].
      unfold balanced in *. rewrite Hlog, Hh. simpl. by rewrite Ho, Hr.
Qed.

(** What [FUSE_OPEN] and [FUSE_OPENDIR] open *)
Lemma plain_open o nodeid body (h : FuseOpenOut → Handle) u answer log :
  o ∈ [Open; Opendir] → (∀ r, pair_of (h r) = (nodeid, foo_fh r)) → u64 u → 0 ≤ nodeid < 2^64 → known log nodeid →
  match (resp ← answer; reads body_struct resp) with
  | Ok a => opened (message o nodeid u body, answer) = Some (pair_of (h a))
            ∧ handle_ok ((message o nodeid u body, answer) :: log) (h a)
  | Err _ => opened (message o nodeid u body, answer) = None
  end.
Proof.
  intros Ho Hh Hu Hn Hk.
  assert (opened (message o nodeid u body, answer)
          = (b ← body_of answer; r ← as_struct b; Some (nodeid, foo_fh r))) as ->.
  { rewrite opened_message by done. apply elem_of_cons in Ho as [->|Ho%list_elem_of_singleton]; [|subst]; done. }
  destruct (resp ← answer; reads body_struct resp) as [a|e] eqn:E.
  - apply reads_Ok in E as (b & Hb & Ha). apply body_struct_as in Ha. rewrite Hb. simpl. rewrite Ha. simpl.
    pose proof (Hh a) as Hp. rewrite Hp. split; [done|]. injection Hp as H1 H2. split; [|rewrite H2; by eapply open_out_fh].
    rewrite H1. by apply (known_grows _ [_]).
  - destruct (body_of answer) as [b|] eqn:Eb; simpl; [|done]. destruct (as_struct b) as [a|] eqn:Ea; [|done].
    exfalso. assert ((resp ← answer; reads (@body_struct FuseOpenOut _) resp) = Ok a) as Hok; [|congruence].
    apply reads_Ok. exists b. split; [done|]. by apply body_struct_as.
Qed.
(** What [FUSE_CREATE] opens *)
Lemma created_open parent body (h : FuseEntryOut * FuseOpenOut → Handle) u answer log :
  (∀ r, pair_of (h r) = (feo_nodeid r.1, foo_fh r.2)) → u64 u → 0 ≤ parent < 2^64 →
  match (resp ← answer; reads created resp) with
  | Ok a => opened (message Create parent u body, answer) = Some (pair_of (h a))
            ∧ handle_ok ((message Create parent u body, answer) :: log) (h a)
  | Err _ => opened (message Create parent u body, answer) = None
  end.
Proof.
  intros Hh Hu Hn. rewrite opened_message by done.
  destruct (resp ← answer; reads created resp) as [a|e] eqn:E.
  - apply reads_Ok in E as (b & Hb & Ha). rewrite Hb. simpl. unfold created in Ha. case_decide; [done|].
    destruct (body_struct b) as [entry|] eqn:E1; [|done]. simpl in Ha.
    destruct (body_struct (drop_bytes _ b)) as [out|] eqn:E2; [|done]. injection Ha as <-.
    apply body_struct_as in E1, E2. rewrite E1. simpl. rewrite E2. simpl. pose proof (Hh (entry, out)) as Hp.
    rewrite Hp. split; [done|]. injection Hp as H1 H2. split; [|rewrite H2; by eapply open_out_fh].
    rewrite H1. right. simpl. rewrite named_message, Hb by done. simpl. rewrite E1. simpl. left.
  - destruct (body_of answer) as [b|] eqn:Eb; simpl; [|done].
    destruct (as_struct b) as [entry|] eqn:E1; [|done]. destruct (as_struct (drop_bytes _ b)) as [out|] eqn:E2; [|done].
    exfalso. assert ((resp ← answer; reads created resp) = Ok (entry, out)) as Hok; [|congruence].
    apply reads_Ok. exists b. split; [done|]. unfold created. rewrite decide_False.
    + apply body_struct_as in E1, E2. rewrite E1. simpl. by rewrite E2.
    + revert E2. unfold as_struct, body_struct. case_decide as Hl; [done|]. intros _.
      change (size_of FuseEntryOut) with 128. change (size_of FuseOpenOut) with 16 in *.
      unfold len in *. rewrite length_drop_bytes in Hl. change (struct_size FuseEntryOut) with 128%nat in Hl. lia.
Qed.

Lemma not_released o nodeid body u answer :
  o ∈ [Open; Opendir; Create] → u64 u → 0 ≤ nodeid < 2^64 → released (message o nodeid u body, answer) = None.
Proof. intros Ho Hu Hn. rewrite released_message by done. destruct o; set_solver. Qed.

Lemma quiet_open_dir ns nodeid attr p :
  nodeid ∈ ns → quiet ns (VirtioFs.open_dir_handle device nodeid attr p) (λ _, []).
Proof.
  intros Hn. eapply quiet_open_then; [apply opendir_ask| | |done]; [intros; apply not_released; set_solver|].
  intros. apply plain_open; set_solver.
Qed.

Lemma quiet_open_file ns nodeid attr p flags w :
  nodeid ∈ ns → quiet ns (VirtioFs.open_file_handle device nodeid attr p flags w) (λ _, []).
Proof.
  intros Hn. eapply quiet_open_then; [intros; apply open_ask| | |done]; [intros; apply not_released; set_solver|].
  intros. apply plain_open; set_solver.
Qed.

(** A handle with no file handle of the host *)
Lemma quiet_insert_stat ns nodeid d p n m :
  nodeid ∈ ns → quiet ns (VirtioFs.insert_new (W := W) (mkHandle nodeid 0 d false p n m None)) (λ _, []).
Proof.
  intros Hn P s r s' Hi Hk H. destruct (insert_pending (mkHandle nodeid 0 d false p n m None) P s r s') as [Hi' Hl]; [| |done|].
  - by apply inv_untracked.
  - split; simpl; [rewrite Forall_forall in Hk; auto|lia].
  - split; [done|]. split; [by exists []|done].
Qed.

Lemma quiet_root_handle ns : quiet ns (VirtioFs.scheme_root device) (λ _, []).
Proof.
  unfold VirtioFs.scheme_root. eapply quiet_bind; [apply quiet_root, quiet_getattr; by left|]. intros a. simpl.
  apply quiet_root. eapply quiet_open_then; [apply opendir_ask| | |by left]; [intros; apply not_released; set_solver|].
  intros. apply plain_open; set_solver.
Qed.

Lemma quiet_create ns p flags w : quiet ns (VirtioFs.open_or_create device p flags w) (λ _, []).
Proof.
  unfold VirtioFs.open_or_create. destruct (parent_and_name p) as [parent_path filename].
  eapply quiet_bind; [apply quiet_resolve_parent|]. intros [parent attr0]. simpl.
  eapply quiet_bind; [apply quiet_attempt, quiet_resolve|]. intros [[nodeid attr]|e]; simpl.
  - destruct (has flags O_EXCL); [apply quiet_fail|].
    case_decide; [apply quiet_open_dir|apply quiet_open_file]; by left.
  - destruct (has flags O_DIRECTORY).
    + eapply quiet_bind; [apply quiet_mkdir; by left|]. intros entry. apply quiet_open_dir. by left.
    + eapply quiet_ext; [|eapply (quiet_open_then _ (create device parent filename (redox_to_fuse_flags flags) 0x1A4) Create parent _ _
        (λ r, mkHandle (feo_nodeid r.1) (foo_fh r.2) false true p (fa_size (feo_attr r.1)) (fa_mode (feo_attr r.1)) None));
        [intros; apply create_ask|intros; apply not_released; set_solver|intros; by apply created_open|by left]].
      intros s. unfold mbind, Req_bind. by destruct (VirtioFs.fuse _ s) as [[[[entry out]|e'] s1]|].
Qed.

Lemma quiet_openat `{StatFlag} ns dirfd p flags : quiet ns (VirtioFs.openat device dirfd p flags) (λ _, []).
Proof.
  unfold VirtioFs.openat. eapply quiet_bind; [apply quiet_get|]. intros s. simpl.
  destruct (has flags O_CREAT); [apply quiet_create|].
  eapply quiet_bind; [apply quiet_resolve_hops|]. intros [nodeid attr]. simpl.
  case_decide; [apply quiet_insert_stat; by left|].
  destruct (bool_decide (S_TYPE attr = S_IFDIR)); case_decide; try apply quiet_fail;
    [apply quiet_open_dir|apply quiet_open_file]; by left.
Qed.

(** *** Closing *)
Lemma quiet_give_back P s r s' n f (m : FuseM W unit) o :
  o ∈ [Release; Releasedir] → (∀ c, m c = ask device o n (as_bytes (mkFuseReleaseIn f 0 0 0)) META_RESPONSE (reads (λ _, Ok tt)) c) →
  f ≠ 0 → 0 ≤ f < 2^64 → inv ((n, f) :: P) s → known (log_of s) n → VirtioFs.fuse m s = Some (r, s') →
  inv P s' ∧ grows s s'.
Proof.
  intros Ho Hm Hf0 Hf Hi Hk H. pose proof (known_range _ _ Hk) as Hn.
  destruct (fuse_step m o n _ META_RESPONSE _ _ s r s' Hm ltac:(done) Hi Hk H)
    as [Hh [(Hb & _)|(u & answer & Hu & Hlog & Hc & Hs & Hok & _)]].
  - exfalso. revert Hb. unfold len, as_bytes. rewrite length_encode by done. unfold buffer. simpl. lia.
  - split; [|by exists [(message o n u (as_bytes (mkFuseReleaseIn f 0 0 0)), answer)]].
    constructor; [done|done|done|]. destruct Hi as [_ _ _ Hb]. unfold balanced in *. rewrite Hlog, Hh. simpl.
    assert (opened (message o n u (as_bytes (mkFuseReleaseIn f 0 0 0)), answer) = None) as ->.
    { rewrite opened_message by done. destruct (body_of answer); [|done]. destruct o; set_solver. }
    assert (released (message o n u (as_bytes (mkFuseReleaseIn f 0 0 0)), answer) = Some (n, f)) as ->.
    { rewrite released_message by done. rewrite release_args by done.
      apply elem_of_cons in Ho as [->|Ho%list_elem_of_singleton]; [|subst]; done. }
    simpl. rewrite Hb, filter_cons_True by done. by rewrite !Permutation_middle.
Qed.

Lemma quiet_flush_part ns h (b : bool) :
  vh_nodeid h ∈ ns →
  quiet ns (if b then _ ← VirtioFs.attempt (VirtioFs.fuse (flush device (vh_nodeid h) (vh_fh h))); mret tt else mret tt) (λ _, []).
Proof.
  intros Hn. destruct b; [|apply quiet_ret; set_solver]. eapply quiet_bind; [by eapply quiet_attempt, quiet_flush|].
  intros r. apply quiet_ret. set_solver.
Qed.

Lemma close_keeps P id s r s' : inv P s → VirtioFs.on_close device id s = Some (r, s') → inv P s' ∧ grows s s'.
Proof.
  intros Hi. unfold VirtioFs.on_close, close_handle, rq_get, rq_put. unfold mbind at 1 2. unfold Req_bind at 1 2.
  destruct (handles (vs_handles s) !! id) as [h|] eqn:E.
  2: { intros [= <- <-]. unfold VirtioFs.set_handles. rewrite delete_id by done. destruct s as [c name [nx hs]].
       split; [done|by exists []]. }
  set (s0 := VirtioFs.set_handles _ s). destruct (inv_handles _ _ Hi id h E) as [Hk Hf].
  assert (inv (pair_of h :: P) s0) as Hi0.
  { destruct Hi as [Hc Hs Hh Hb]. constructor; simpl; [done|done|by apply map_Forall_delete|].
    unfold balanced, log_of in *. simpl. rewrite Hb, (live_delete id h) by done. unfold close_handle. simpl.
    rewrite !filter_cons. destruct (decide (tracked (pair_of h))); [|done]. apply Permutation_app_head. simpl.
    by rewrite <- Permutation_middle. }
  case_decide as Hz.
  - intros [= <- <-]. split; [|by exists []]. destruct Hi0 as [Hc Hs Hh Hb]. constructor; [done..|].
    unfold balanced in *. rewrite filter_cons_False in Hb; [done|]. intros Ht. by apply Ht.
  - set (part := if vh_writable h && negb (vh_is_dir h) then _ else _).
    unfold mbind at 1. unfold Req_bind at 1. destruct (part s0) as [[[[]|e] s1]|] eqn:Ef; [|intros [= <- <-]|done].
    all: assert (Forall (known (log_of s0)) [vh_nodeid h]) as Hks by (by constructor).
    all: pose proof (quiet_flush_part [vh_nodeid h] h (vh_writable h && negb (vh_is_dir h)) ltac:(by left)
                       _ s0 _ s1 Hi0 Hks Ef) as (Hi1 & Hg1 & _).
    + assert (grows s s1) as Hg by (by eapply grows_trans; [|exact Hg1]; exists []).
      apply (grows_known s s1) in Hk; [|done]. unfold mbind, Req_bind, VirtioFs.attempt.
      destruct (vh_is_dir h).
      * destruct (VirtioFs.fuse (releasedir device (vh_nodeid h) (vh_fh h)) s1) as [[r2 s2]|] eqn:Er; [|done].
        intros [= <- <-].
        destruct (quiet_give_back P s1 r2 s2 (vh_nodeid h) (vh_fh h) _ Releasedir ltac:(right; left)
                    (releasedir_ask _ _ _) Hz Hf Hi1 Hk Er) as [Hi2 Hg2].
        split; [exact Hi2|by eapply grows_trans].
      * destruct (VirtioFs.fuse (release device (vh_nodeid h) (vh_fh h)) s1) as [[r2 s2]|] eqn:Er; [|done].
        intros [= <- <-].
        destruct (quiet_give_back P s1 r2 s2 (vh_nodeid h) (vh_fh h) _ Release ltac:(left)
                    (release_ask _ _ _) Hz Hf Hi1 Hk Er) as [Hi2 Hg2].
        split; [exact Hi2|by eapply grows_trans].
    + exfalso. revert Ef. unfold part. clear.
      destruct (_ && _); [|done]. unfold mbind, Req_bind, VirtioFs.attempt. by destruct (VirtioFs.fuse _ _) as [[]|].
Qed.
End fuse_steps.

(** ** Sessions *)
Inductive request (Buf : Type) : Type :=
  | RqRoot
  | RqOpenat (dirfd : Z) (p : string) (flags : Z)
  | RqRead (id buf_len offset : Z)
  | RqWrite (id : Z) (buf : string) (offset : Z)
  | RqFtruncate (id length : Z)
  | RqFsize (id : Z)
  | RqFpath (id buf_len : Z)
  | RqFstat (id : Z)
  | RqFstatvfs (id : Z)
  | RqGetdents (id : Z) (buf : Buf) (opaque_offset : Z)
  | RqUnlinkat (fd : Z) (p : string)
  | RqFevent (id : Z)
  | RqClose (id : Z).
Arguments RqRoot {Buf}.
Arguments RqOpenat {Buf}.
Arguments RqRead {Buf}.
Arguments RqWrite {Buf}.
Arguments RqFtruncate {Buf}.
Arguments RqFsize {Buf}.
Arguments RqFpath {Buf}.
Arguments RqFstat {Buf}.
Arguments RqFstatvfs {Buf}.
Arguments RqGetdents {Buf}.
Arguments RqUnlinkat {Buf}.
Arguments RqFevent {Buf}.
Arguments RqClose {Buf}.

Section sessions.
Context {W : Type} (device : string → Z → W → string * W) (transfer : nat).
Context {ABI : SyscallAbi} {SF : StatFlag} {Buf : Type} {IB : InodeBuffer Buf}.
Implicit Types (s : VirtioFsScheme W).

Definition after {A} (m : Req (VirtioFsScheme W) A) s : option (VirtioFsScheme W) := snd <$> m s.

(** The event loop of [main.rs]: one request *)
Definition serve (q : request Buf) s : option (VirtioFsScheme W) :=
  match q with
  | RqRoot => after (VirtioFs.scheme_root device) s
  | RqOpenat dirfd p flags => after (VirtioFs.openat device dirfd p flags) s
  | RqRead id n offset => after (VirtioFs.read device transfer id n offset) s
  | RqWrite id buf offset => after (VirtioFs.write device transfer id buf offset) s
  | RqFtruncate id n => after (VirtioFs.ftruncate device id n) s
  | RqFsize id => after (VirtioFs.fsize device id) s
  | RqFpath id n => after (VirtioFs.fpath id n) s
  | RqFstat id => after (VirtioFs.fstat device id) s
  | RqFstatvfs id => after (VirtioFs.fstatvfs device id) s
  | RqGetdents id buf offset => after (VirtioFs.getdents device id buf offset) s
  | RqUnlinkat fd p => after (VirtioFs.unlinkat device fd p) s
  | RqFevent id => after (VirtioFs.fevent id) s
  | RqClose id => after (VirtioFs.on_close device id) s
  end.

Fixpoint serve_all (qs : list (request Buf)) s : option (VirtioFsScheme W) :=
  match qs with
  | [] => Some s
  | q :: qs' => s' ← serve q s; serve_all qs' s'
  end.

Lemma after_quiet {A} (m : Req (VirtioFsScheme W) A) res s s' :
  quiet [] m res → inv [] s → after m s = Some s' → inv [] s'.
Proof.
  intros Hm Hi. unfold after. destruct (m s) as [[r s1]|] eqn:E; [|done]. intros [= <-].
  by destruct (Hm [] s r s1 Hi (Forall_nil_2 _) E).
Qed.

Ltac with_handle := eapply quiet_bind; [apply quiet_handle|]; intros h; simpl.

Lemma quiet_read ns id n offset : quiet ns (VirtioFs.read device transfer id n offset) (λ _, []).
Proof.
  unfold VirtioFs.read. with_handle. destruct (vh_is_dir h); [apply quiet_fail|].
  eapply quiet_bind; [apply quiet_session_read; by left|]. intros data. apply quiet_ret. set_solver.
Qed.

Lemma quiet_write ns id buf offset : quiet ns (VirtioFs.write device transfer id buf offset) (λ _, []).
Proof.
  unfold VirtioFs.write. with_handle. destruct (vh_is_dir h); [apply quiet_fail|].
  destruct (vh_writable h); [|apply quiet_fail]. simpl.
  eapply quiet_bind; [apply quiet_session_write; by left|]. intros written. simpl.
  eapply quiet_bind; [apply quiet_update; intros; by case_decide|]. intros ?. apply quiet_ret. set_solver.
Qed.

Lemma quiet_ftruncate ns id n : quiet ns (VirtioFs.ftruncate device id n) (λ _, []).
Proof.
  unfold VirtioFs.ftruncate. with_handle. destruct (vh_writable h); [|apply quiet_fail]. simpl.
  eapply quiet_bind; [apply quiet_truncate; by left|]. intros a. by apply quiet_update.
Qed.

Lemma quiet_fsize ns id : quiet ns (VirtioFs.fsize device id) (λ _, []).
Proof.
  unfold VirtioFs.fsize. with_handle. eapply quiet_bind; [apply quiet_getattr; by left|]. intros a.
  eapply quiet_bind; [by apply quiet_update|]. intros ?. apply quiet_ret. set_solver.
Qed.

Lemma quiet_fpath ns id n : quiet (W := W) ns (VirtioFs.fpath id n) (λ _, []).
Proof. unfold VirtioFs.fpath. with_handle. eapply quiet_bind; [apply quiet_get|]. intros s. apply quiet_ret. set_solver. Qed.

Lemma quiet_fstat ns id : quiet ns (VirtioFs.fstat device id) (λ _, []).
Proof.
  unfold VirtioFs.fstat. with_handle. eapply quiet_bind; [apply quiet_getattr; by left|]. intros a. apply quiet_ret.
  set_solver.
Qed.

Lemma quiet_fstatvfs ns id : quiet ns (VirtioFs.fstatvfs device id) (λ _, []).
Proof.
  unfold VirtioFs.fstatvfs. with_handle. eapply quiet_bind; [apply quiet_statfs|]. intros a. apply quiet_ret. set_solver.
Qed.

Lemma quiet_getdents ns id buf offset : quiet ns (VirtioFs.getdents device id buf offset) (λ _, []).
Proof.
  unfold VirtioFs.getdents. with_handle. destruct (vh_is_dir h); [|apply quiet_fail]. simpl.
  eapply (quiet_bind _ _ _ (λ _, [])).
  - destruct (vh_dir_entries h); [case_decide|]; try (apply quiet_readdir; by left). apply quiet_ret. set_solver.
  - intros es. eapply quiet_bind; [by apply quiet_update|]. intros ?. apply quiet_ret. set_solver.
Qed.

Lemma quiet_unlinkat ns fd p : quiet ns (VirtioFs.unlinkat device fd p) (λ _, []).
Proof.
  unfold VirtioFs.unlinkat. eapply quiet_bind; [apply quiet_get|]. intros s. cbv beta zeta. case_decide; [apply quiet_fail|].
  match goal with |- context [parent_and_name ?q] => destruct (parent_and_name q) as [parent_path filename] end.
  eapply quiet_bind; [apply quiet_resolve_parent|]. intros [parent a]. simpl.
  eapply quiet_bind; [apply quiet_resolve|]. intros [n attr]. simpl.
  case_decide; [apply quiet_rmdir|apply quiet_unlink]; set_solver.
Qed.

Lemma quiet_fevent ns id : quiet (W := W) ns (VirtioFs.fevent id) (λ _, []).
Proof. unfold VirtioFs.fevent. with_handle. apply quiet_ret. set_solver. Qed.

Lemma serve_keeps q s s' : inv [] s → serve q s = Some s' → inv [] s'.
Proof.
  intros Hi. destruct q; simpl.
  1: apply (after_quiet _ (λ _, [])); [apply quiet_root_handle|done].
  1: apply (after_quiet _ (λ _, [])); [apply quiet_openat|done].
  1: apply (after_quiet _ (λ _, [])); [apply quiet_read|done].
  1: apply (after_quiet _ (λ _, [])); [apply quiet_write|done].
  1: apply (after_quiet _ (λ _, [])); [apply quiet_ftruncate|done].
  1: apply (after_quiet _ (λ _, [])); [apply quiet_fsize|done].
  1: apply (after_quiet _ (λ _, [])); [apply quiet_fpath|done].
  1: apply (after_quiet _ (λ _, [])); [apply quiet_fstat|done].
  1: apply (after_quiet _ (λ _, [])); [apply quiet_fstatvfs|done].
  1: apply (after_quiet _ (λ _, [])); [apply quiet_getdents|done].
  1: apply (after_quiet _ (λ _, [])); [apply quiet_unlinkat|done].
  1: apply (after_quiet _ (λ _, [])); [apply quiet_fevent|done].
  unfold after. destruct (VirtioFs.on_close device id s) as [[r s1]|] eqn:E; [|done]. intros [= <-].
  by destruct (close_keeps device [] id s r s1 Hi E).
Qed.

Lemma serve_all_keeps qs s s' : inv [] s → serve_all qs s = Some s' → inv [] s'.
Proof.
  revert s. induction qs as [|q qs IH]; simpl; intros s Hi; [by intros [= <-]|].
  destruct (serve q s) as [s1|] eqn:E; [|done]. simpl. apply IH. by eapply serve_keeps.
Qed.

Lemma init_inv dma_alloc w c name : init device dma_alloc w = Ok c → inv [] (VirtioFs.new c name).
Proof.
  unfold init. destruct (negb _); [done|].
  set (init_in := mkFuseInitIn _ _ _ _ _ _). set (c0 := mkConn _ w []).
  rewrite init_ask.
  destruct (ask_run device Init 0 (as_bytes init_in) META_RESPONSE (reads (@body_struct FuseInitOut _)) c0)
    as (r & c1 & -> & (Hb1 & Hb2 & Hu & Hm) & _ & Ha); [by repeat split|done|].
  destruct r as [out|e]; [|done]. intros [= <-].
  destruct Ha as [(_ & _ & e & [=])|(u & answer & Hur & Hlog & Hlen & Hr)].
  constructor; unfold log_of; simpl.
  - split; [done|]. split; [done|]. split; [done|]. simpl. lia.
  - rewrite Hlog. split; [|done]. exists Init. eexists. split; [by apply sent_read|]. simpl.
    rewrite message_len. split_and!; [|done|by right; split]. change (size_of FuseInHeader) with 40.
    apply wrap32_small. pose proof (len_nonneg (as_bytes init_in)). unfold u32, u32_max, buffer in *. lia.
  - done.
  - unfold balanced. rewrite Hlog. simpl. rewrite opened_message by done.
    by destruct (body_of answer).
Qed.

(** C28. What the driver sends to the host in any session, whatever the host answers: every message is as
    long as its header says, has the number of an operation, and is about the root or a node
    the host has named before, but for the first, which starts the session and is about no
    node.  No file handle of the host with a number other than 0 is lost or given back twice:
    those it has opened are those that were given back and those of the open handles of the
    scheme, with repetition.  The number 0 counts as no handle: it is never given back. *)
Theorem host_handles_balanced dma_alloc w c name qs s :
  init device dma_alloc w = Ok c → serve_all qs (VirtioFs.new c name) = Some s →
  well_sent (log_of s)
  ∧ filter tracked (omap opened (log_of s)) ≡ₚ omap released (log_of s) ++ live (vs_handles s)
  ∧ (∀ n fh, (n, fh) ∈ omap released (log_of s) → fh ≠ 0)
  ∧ ∀ id h, handles (vs_handles s) !! id = Some h → known (log_of s) (vh_nodeid h).
Proof.
  intros Hi Hs. apply (init_inv _ _ _ name) in Hi. eapply serve_all_keeps in Hs as [Hc Hw Hh Hb]; [|exact Hi].
  unfold balanced in Hb. simpl in Hb. rewrite app_nil_r in Hb. split_and!; [done|done| |].
  - intros n fh Hr. assert (Ht : (n, fh) ∈ filter tracked (omap opened (log_of s))).
    { rewrite Hb. apply elem_of_app. by left. }
    by apply list_elem_of_filter in Ht as [Ht _].
  - intros id h Hl. by destruct (Hh id h Hl).
Qed.
End sessions.
