(* ===== verification/VirtioTransfer.v ===== *)
(** * Transfers of virtio-fsd in chunks

    A read or a write that is larger than what the host has negotiated is cut into requests.  The
    result is that of one request, whatever the size of the chunks. *)

From S2P Require Import Prelude RustStd HandleId ProxyIo SchemeHandles Bytes Fuse FuseSession VirtioFs VirtioFacts.

Open Scope Z_scope.

(** ** Contents *)

(** The bytes of a file from an offset on, [n] of them at most *)
Definition part (content : string) (offset n : Z) : string :=
  take_bytes (Z.to_nat n) (drop_bytes (Z.to_nat offset) content).

(** A file after a write: bytes between its end and the offset read as zero. *)
Definition overlay (content : string) (offset : Z) (data : string) : string :=
  let o := Z.to_nat offset in
  if decide (data = "") then content
  else take_bytes o (content +:+ zeros (o - String.length content)) +:+ data
       +:+ drop_bytes (o + String.length data) content.

Lemma len_part content offset n : 0 ≤ n → len (part content offset n) ≤ n.
Proof. intros Hn. unfold len, part. rewrite length_take_bytes. lia. Qed.

Lemma part_plus content offset n m :
  0 ≤ offset → 0 ≤ n → 0 ≤ m →
  part content offset (n + m) = part content offset n +:+ part content (offset + n) m.
Proof.
  intros Ho Hn Hm. unfold part. rewrite !Z2Nat.inj_add by lia. by rewrite take_plus, drop_drop.
Qed.

(** A part that is shorter than asked for ends with the file. *)
Lemma part_short content offset n m :
  0 ≤ offset → 0 ≤ n ≤ m → len (part content offset n) < n → part content offset m = part content offset n.
Proof.
  intros Ho Hn Hl. replace m with (n + (m - n)) by lia. rewrite part_plus by lia.
  assert (part content (offset + n) (m - n) = "") as ->; [|apply Str.app_nil_r].
  apply len_zero. unfold len, part in *. rewrite length_take_bytes, length_drop_bytes in *. lia.
Qed.

Lemma length_before content o :
  String.length (take_bytes o (content +:+ zeros (o - String.length content))) = o.
Proof. rewrite length_take_bytes, length_app_string, length_zero_bytes. lia. Qed.

Lemma overlay_nil content offset : overlay content offset "" = content.
Proof. done. Qed.

(** Writing on after a write is writing both at once. *)
Lemma overlay_app content offset data data' :
  0 ≤ offset →
  overlay (overlay content offset data) (offset + len data) data' = overlay content offset (data +:+ data').
Proof.
  intros Ho. destruct (decide (data' = "")) as [->|Hd']; [by rewrite Str.app_nil_r|].
  destruct (decide (data = "")) as [->|Hd].
  { change (len "") with 0. by rewrite Z.add_0_r. }
  assert (data +:+ data' ≠ "") as Hdd by (by destruct data).
  unfold overlay at 1 2 3. rewrite !(decide_False (P := _ = "")) by done. cbv zeta.
  unfold len. rewrite Z2Nat.inj_add, Nat2Z.id by lia. set (o := Z.to_nat offset).
  set (before := take_bytes o _). assert (String.length before = o) as Hb by apply length_before.
  set (after := drop_bytes (o + String.length data) content).
  assert (String.length (before +:+ data) = (o + String.length data)%nat) as Hbd.
  { by rewrite length_app_string, Hb. }
  rewrite <- Hbd, <- (Str.app_assoc before data after).
  rewrite (length_app_string (before +:+ data) after).
  replace (String.length (before +:+ data) - _)%nat with 0%nat by lia. cbn [zeros]. rewrite Str.app_nil_r.
  rewrite take_bytes_app, drop_app_more, Str.app_assoc. f_equal. rewrite <- Str.app_assoc. f_equal.
  unfold after. rewrite drop_drop. f_equal. rewrite length_app_string. lia.
Qed.

(** ** Answers *)
(** A response without an error: its length and the number of the request it answers *)
Definition answer_with (u : Z) (body : string) : string := as_bytes (mkFuseOutHeader (16 + len body) 0 u) +:+ body.

Lemma length_out_header (h : FuseOutHeader) : String.length (as_bytes h) = 16%nat.
Proof. by apply length_encode. Qed.

Lemma answer_len u body : len (answer_with u body) = 16 + len body.
Proof. unfold answer_with. rewrite len_app. unfold len at 1. by rewrite length_out_header. Qed.

Lemma answer_body u body : response_body (answer_with u body) = body.
Proof.
  unfold response_body, answer_with. change (struct_size FuseOutHeader) with 16%nat.
  rewrite <- (length_out_header (mkFuseOutHeader (16 + len body) 0 u)) at 1. apply drop_bytes_app.
Qed.

Lemma answer_header u body :
  u64 u → 16 + len body < 2^32 →
  parse_response_header (answer_with u body) = Ok (mkFuseOutHeader (16 + len body) 0 u).
Proof.
  intros [Hu1 Hu2] Hl. pose proof (len_nonneg body). unfold parse_response_header. rewrite answer_len.
  change (size_of FuseOutHeader) with 16. rewrite decide_False by lia.
  unfold answer_with, from_bytes, as_bytes. rewrite decode_encode; [done|].
  simpl. repeat apply Forall2_cons_2; [..|apply Forall2_nil_2]; unfold fits; simpl; unfold u64_max in *; first [lia|done].
Qed.

(** A round of a transfer leaves a round less to do. *)
Lemma rounds_left (fuel : nat) chunk remaining :
  0 < remaining → 0 < chunk → remaining ≤ chunk * (Z.of_nat (S fuel) - 1) →
  remaining - Z.min remaining chunk ≤ chunk * (Z.of_nat fuel - 1).
Proof. intros Hr Hc Hf. assert (0 < Z.of_nat fuel) by nia. nia. Qed.

Lemma length_read_args fh offset n : len (read_args fh offset n) = 40.
Proof. unfold read_args, len, as_bytes. by rewrite length_encode. Qed.

Lemma length_write_args fh offset data : len (write_args fh offset data) = 40 + len data.
Proof. unfold write_args. by rewrite len_app. Qed.

Lemma write_answer k : 0 ≤ k < 2^32 → body_struct (as_bytes (mkFuseWriteOut k 0)) = Ok (mkFuseWriteOut k 0).
Proof.
  intros Hk. unfold body_struct. rewrite decide_False.
  2: { unfold len, as_bytes, size_of, struct_size. rewrite length_encode by done. lia. }
  unfold from_bytes, as_bytes. rewrite <- (Str.app_nil_r (encode_words _ _)), decode_encode; [done|].
  simpl. repeat apply Forall2_cons_2; [..|apply Forall2_nil_2]; unfold fits; simpl; lia.
Qed.

Section transfers.
Context {W : Type} (device : string → Z → W → string * W).
Implicit Types (c : conn W) (nodeid fh offset : Z).

(** An exchange that the host answers without an error *)
Lemma ask_answered {A} o nodeid body resp_len (k : string → result FuseTransportError A) c d w :
  conn_ok c → resp_len ≤ buffer → 40 + len body ≤ buffer → 16 + len d ≤ resp_len →
  device (message o nodeid (ss_unique_counter (cn_session c)) body) resp_len (cn_world c)
    = (answer_with (ss_unique_counter (cn_session c)) d, w) →
  ∃ c', ask device o nodeid body resp_len (reads k) c = Some (k d, c')
    ∧ conn_ok c' ∧ cn_world c' = w
    ∧ ss_effective_max_io (cn_session c') = ss_effective_max_io (cn_session c).
Proof.
  intros (Hq & Hp & Hu & Hm) Hl Hb Hd Hdev.
  unfold ask, conn_ok, mbind, FuseM_bind, next_unique, exchange, flift. simpl.
  rewrite Hq, Hp, message_len, !decide_False by lia. rewrite Hdev. change (size_of FuseOutHeader) with 16.
  pose proof (len_nonneg d). rewrite answer_len, !decide_False by lia.
  unfold reads. rewrite answer_header by (done || unfold buffer in *; lia). rewrite answer_body.
  eexists. split; [reflexivity|]. simpl. pose proof (wrap64_range (ss_unique_counter (cn_session c) + 1)).
  by split_and!.
Qed.

(** ** A file of the host *)
Context (view : W → string) (good : W → Prop) (limit nodeid fh : Z).

(** A host that keeps one file behind a handle and answers each request under its number: as
    long as a transfer stays within the size a file may have, a read returns what there is, a
    write stores the first bytes of its data, as many as the answer says. *)
Record FileHost : Prop := mkFileHost {
  limit_range : limit < 2^63;
  serves_read : ∀ w u offset n, good w → u64 u → 0 ≤ offset → 0 ≤ n ≤ MAX_IO_SIZE → offset + n ≤ limit →
    ∃ w', device (message Read nodeid u (read_args fh offset n)) (16 + n) w = (answer_with u (part (view w) offset n), w')
      ∧ good w' ∧ view w' = view w;
  serves_write : ∀ w u offset data, good w → u64 u → 0 ≤ offset → len data ≤ MAX_IO_SIZE → offset + len data ≤ limit →
    ∃ k w', 0 ≤ k ≤ len data
      ∧ device (message Write nodeid u (write_args fh offset data)) META_RESPONSE w
        = (answer_with u (as_bytes (mkFuseWriteOut k 0)), w')
      ∧ good w' ∧ view w' = overlay (view w) offset (take_bytes (Z.to_nat k) data);
}.

Context (host : FileHost).

Definition ready c : Prop := conn_ok c ∧ good (cn_world c).

Definition chunk c : Z := ss_effective_max_io (cn_session c).

Lemma read_single_served c offset n :
  ready c → 0 ≤ offset → 0 ≤ n ≤ MAX_IO_SIZE → offset + n ≤ limit →
  ∃ c', read_single device nodeid fh offset n c = Some (Ok (part (view (cn_world c)) offset n), c')
    ∧ ready c' ∧ view (cn_world c') = view (cn_world c) ∧ chunk c' = chunk c.
Proof.
  intros [Hc Hg] Ho Hn Hl. rewrite read_ask by lia.
  destruct (serves_read host (cn_world c) (ss_unique_counter (cn_session c)) offset n)
    as (w & Hd & Hg' & Hv); [done|apply Hc|done..|].
  pose proof (len_part (view (cn_world c)) offset n (proj1 Hn)).
  destruct (ask_answered Read nodeid (read_args fh offset n) (16 + n) Ok c (part (view (cn_world c)) offset n) w Hc)
    as (c' & E & Hc' & Hw & Hm); [unfold buffer, MAX_IO_SIZE in *; lia| |lia|exact Hd|].
  - by rewrite length_read_args.
  - exists c'. unfold ready, chunk. rewrite Hw. done.
Qed.

(** What a transfer keeps, and what it has made of the file *)
Definition goes_on c (content : string) c' : Prop :=
  ready c' ∧ view (cn_world c') = content ∧ chunk c' = chunk c.

Lemma read_chunks_served fuel c offset remaining acc :
  ready c → 0 < chunk c → 0 ≤ offset → 0 ≤ remaining → offset + remaining ≤ limit →
  remaining ≤ chunk c * (Z.of_nat fuel - 1) →
  ∃ c', read_chunks device fuel nodeid fh offset remaining acc c
        = Some (Ok (acc +:+ part (view (cn_world c)) offset remaining), c') ∧ goes_on c (view (cn_world c)) c'.
Proof.
  revert c offset remaining acc. induction fuel as [|fuel IH]; intros c offset remaining acc Hr Hp Ho Hn Hs Hf; [lia|].
  cbn [read_chunks]. case_decide as Hz.
  { exists c. replace remaining with 0 by lia. unfold part. rewrite take_zero, Str.app_nil_r.
    by split; [|split_and!]. }
  unfold mbind, FuseM_bind, effective_max_io. fold (chunk c). cbv zeta.
  set (n := Z.min remaining (chunk c)). assert (0 < n ≤ remaining) as Hn1 by lia.
  assert (chunk c ≤ MAX_IO_SIZE) by apply Hr. pose proof (limit_range host) as Hlim.
  destruct (read_single_served c offset n Hr) as (c' & E & Hr' & Hv & Hc); [lia..|].
  rewrite E. pose proof (len_part (view (cn_world c)) offset n ltac:(lia)). case_decide as Hg.
  - rewrite (part_short _ _ n remaining) by lia. exists c'. by split; [|split_and!].
  - replace (len (part _ offset n)) with n by lia. rewrite wrap64_small by (unfold u64, u64_max; lia).
    destruct (IH c' (offset + n) (remaining - n) (acc +:+ part (view (cn_world c)) offset n))
      as (c2 & E2 & Hr2 & Hv2 & Hc2); try done; try lia.
    { rewrite Hc. apply rounds_left; lia. }
    exists c2. rewrite E2, Hv. split; [|unfold goes_on; by rewrite Hc2, <- Hv].
    replace remaining with (n + (remaining - n)) at 2 by lia. by rewrite part_plus, Str.app_assoc by lia.
Qed.

(** A write has stored the first bytes of its data, as many as the result says. *)
Definition stored c offset data (res : option (result FuseTransportError Z * conn W)) (before : Z) : Prop :=
  ∃ n c', res = Some (Ok (before + n), c') ∧ 0 ≤ n ≤ len data
    ∧ goes_on c (overlay (view (cn_world c)) offset (take_bytes (Z.to_nat n) data)) c'.

Lemma write_single_served c offset data :
  ready c → 0 ≤ offset → len data ≤ MAX_IO_SIZE → offset + len data ≤ limit →
  stored c offset data (write_single device nodeid fh offset data c) 0.
Proof.
  intros [Hc Hg] Ho Hn Hl. rewrite write_ask.
  destruct (serves_write host (cn_world c) (ss_unique_counter (cn_session c)) offset data)
    as (k & w & Hk & Hd & Hg' & Hv); [done|apply Hc|done..|].
  destruct (ask_answered Write nodeid (write_args fh offset data) META_RESPONSE
              (λ body, out ← body_struct body; Ok (fwo_size out)) c (as_bytes (mkFuseWriteOut k 0)) w Hc)
    as (c' & E & Hc' & Hw & Hm); [done| | |exact Hd|].
  - rewrite length_write_args. unfold buffer, MAX_IO_SIZE in *. lia.
  - done.
  - exists k, c'. unfold goes_on, ready, chunk. rewrite Hw. split; [|done].
    rewrite E, write_answer by (unfold MAX_IO_SIZE in *; lia). done.
Qed.

Lemma write_chunks_served fuel c offset data before :
  ready c → 0 < chunk c → 0 ≤ offset → offset + len data ≤ limit → 0 ≤ before → before + len data < 2^32 →
  len data ≤ chunk c * (Z.of_nat fuel - 1) →
  stored c offset data (write_chunks device fuel nodeid fh offset data before c) before.
Proof.
  revert c offset data before. induction fuel as [|fuel IH]; intros c offset data before Hr Hp Ho Hs Hb Ht Hf;
    pose proof (len_nonneg data); [lia|].
  cbn [write_chunks]. case_decide as Hz.
  { subst data. exists 0, c. by rewrite Z.add_0_r. }
  rewrite <- len_zero in Hz. unfold mbind, FuseM_bind, effective_max_io. fold (chunk c). cbv zeta.
  set (n := Z.min (len data) (chunk c)). assert (0 < n ≤ len data) as Hn by lia.
  assert (chunk c ≤ MAX_IO_SIZE) by apply Hr. pose proof (limit_range host) as Hlim.
  destruct (write_single_served c offset (take_bytes (Z.to_nat n) data) Hr)
    as (k & c' & E & Hk & Hr' & Hv & Hc); [lia|rewrite len_take; lia..|].
  rewrite len_take in Hk by lia. rewrite take_take in Hv by lia. rewrite E, Z.add_0_l.
  rewrite wrap32_small by (unfold u32, u32_max; lia). case_decide as Hg; [by exists k, c'; split_and!; try lia|].
  assert (k = n) as -> by lia. rewrite wrap64_small by (unfold u64, u64_max; lia).
  pose proof (len_drop n data ltac:(lia)) as Hl.
  destruct (IH c' (offset + n) (drop_bytes (Z.to_nat n) data) (before + n))
    as (m & c2 & E2 & Hm & Hr2 & Hv2 & Hc2); try done; try lia.
  { rewrite Hl, Hc. apply rounds_left; lia. }
  exists (n + m), c2. rewrite E2, Z.add_assoc. split; [done|]. split; [lia|].
  split; [done|]. split; [|by rewrite Hc2].
  rewrite Hv2, Hv, Z2Nat.inj_add, take_plus by lia.
  rewrite <- (len_take n data) at 2 by lia. by apply overlay_app.
Qed.

(** ** Chunks of no bytes *)
Lemma part_zero content offset : part content offset 0 = "".
Proof. done. Qed.

Lemma read_chunks_stuck fuel c offset remaining acc :
  ready c → chunk c = 0 → 0 ≤ offset ≤ limit → 0 < remaining →
  read_chunks device fuel nodeid fh offset remaining acc c = None.
Proof.
  revert c acc. induction fuel as [|fuel IH]; intros c acc Hr Hz Ho Hn; [done|].
  cbn [read_chunks]. rewrite decide_False by lia. unfold mbind, FuseM_bind, effective_max_io. fold (chunk c).
  rewrite Hz, Z.min_r by lia. cbv zeta.
  destruct (read_single_served c offset 0 Hr) as (c' & -> & Hr' & _ & Hc); [lia|done|lia|]. rewrite part_zero.
  pose proof (limit_range host) as Hlim.
  change (len "") with 0. rewrite decide_False, Z.add_0_r, Z.sub_0_r, wrap64_small by (done || unfold u64, u64_max; lia). apply IH; [done|congruence|done..].
Qed.

Lemma write_chunks_stuck fuel c offset data before :
  ready c → chunk c = 0 → 0 ≤ offset ≤ limit → data ≠ "" →
  write_chunks device fuel nodeid fh offset data before c = None.
Proof.
  revert c before. induction fuel as [|fuel IH]; intros c before Hr Hz Ho Hd; [done|].
  cbn [write_chunks]. rewrite decide_False by done. unfold mbind, FuseM_bind, effective_max_io. fold (chunk c).
  rewrite Hz, Z.min_r by apply len_nonneg. cbv zeta. change (Z.to_nat 0) with 0%nat. rewrite take_zero, drop_zero.
  pose proof (limit_range host) as Hlim.
  destruct (write_single_served c offset "" Hr) as (k & c' & -> & Hk & Hr' & _ & Hc); [lia|done|change (len "") with 0; lia|].
  change (len "") with 0 in Hk. replace k with 0 by lia. rewrite !Z.add_0_r, decide_False, wrap64_small by (done || unfold u64, u64_max; lia).
  apply IH; [done|congruence|done..].
Qed.

(** C29. A transfer of any size is one of the file, whatever the size of the chunks the host has
    negotiated: a read returns the bytes the file has from the offset on, as many as were asked
    for or as there are; a write returns how many bytes the host has taken, and these are the
    first bytes of the data, stored at the offset, nothing else of the file being changed.  A
    round per full chunk and one more are enough.  When the host has negotiated chunks of no
    bytes, no number of rounds is: a transfer of a byte or more does not return.  The host is
    any that answers a request under its number, and serves the file as far as a file may
    reach. *)
Theorem transfer_is_file_access transfer c offset :
  ready c → 0 ≤ offset ≤ limit →
  (0 < chunk c → ∀ size, 0 ≤ size → offset + size ≤ limit → size ≤ chunk c * (Z.of_nat transfer - 1) →
     ∃ c', FuseSession.read device transfer nodeid fh offset size c
           = Some (Ok (part (view (cn_world c)) offset size), c') ∧ goes_on c (view (cn_world c)) c')
  ∧ (0 < chunk c → ∀ data, offset + len data ≤ limit → len data < 2^32 → len data ≤ chunk c * (Z.of_nat transfer - 1) →
     ∃ n c', FuseSession.write device transfer nodeid fh offset data c = Some (Ok n, c') ∧ 0 ≤ n ≤ len data
       ∧ goes_on c (overlay (view (cn_world c)) offset (take_bytes (Z.to_nat n) data)) c')
  ∧ (chunk c = 0 →
     (∀ size, 0 < size → FuseSession.read device transfer nodeid fh offset size c = None)
     ∧ ∀ data, data ≠ "" → FuseSession.write device transfer nodeid fh offset data c = None).
Proof.
  intros Hr Ho. assert (chunk c ≤ MAX_IO_SIZE) by apply Hr. 
  unfold FuseSession.read, FuseSession.write, mbind, FuseM_bind, effective_max_io. fold (chunk c). split_and!.
  - intros Hp size Hn Hs Hf. case_decide; [|apply read_chunks_served; (done || lia)]. apply read_single_served; [done|lia..].
  - intros Hp data Hs Ht Hf. pose proof (len_nonneg data). case_decide.
    + apply write_single_served; [done|lia..].
    + apply (write_chunks_served transfer c offset data 0); (done || lia).
  - intros Hz. split.
    + intros size Hn. rewrite decide_False by lia. by apply read_chunks_stuck.
    + intros data Hd. pose proof (len_nonneg data). rewrite decide_False; [by apply write_chunks_stuck|].
      rewrite Hz. intros Hl. apply Hd, len_zero. lia.
Qed.
End transfers.

(** ** Concrete sessions: a host that shares a directory with one file *)
Module VirtioDemo.

(** ** The host *)
(** The root has the node 1; [file] is the node 2, [dir] the node 3 and [gone] a link, the node 4, to
    nothing, and [link] a link, the node 5, to [dir].  A file is opened as 7, a directory as 8. *)
Definition mode_of (node : Z) : Z :=
  match node with 2 => S_IFREG | 4 | 5 => S_IFLNK | _ => S_IFDIR end.
Definition attr_of (node : Z) (content : string) : FuseAttr :=
  mkFuseAttr node (if decide (node = 2) then len content else 0) 0 0 0 0 0 0 0 (mode_of node) 1 0 0 0 4096 0.

Definition node_named (name : string) : option Z :=
  if decide (name = "file" +:+ nul) then Some 2
  else if decide (name = "dir" +:+ nul) then Some 3
  else if decide (name = "gone" +:+ nul) then Some 4
  else if decide (name = "link" +:+ nul) then Some 5
  else None.

Definition failed (u error : Z) : string := as_bytes (mkFuseOutHeader 16 (- error) u).

(** The answer to a message whose header is read, by the number of the operation *)
Definition answer (max_write opcode node u : Z) (args : string) (content : string) : string * string :=
  if decide (opcode = 26) then
    (answer_with u (as_bytes (mkFuseInitOut 7 39 0 0 0 0 max_write 0 0 0 0 0 (repeat 0 6))), content)
  else if decide (opcode = 1) then
    (match node_named args with
     | Some n => answer_with u (as_bytes (mkFuseEntryOut n 0 0 0 0 0 (attr_of n content)))
     | None => failed u 2
     end, content)
  else if decide (opcode = 3) then (answer_with u (as_bytes (mkFuseAttrOut 0 0 0 (attr_of node content))), content)
  else if decide (opcode = 5) then (answer_with u (if decide (node = 4) then "nowhere" else "dir"), content)
  else if decide (opcode = 14) then (answer_with u (as_bytes (mkFuseOpenOut 7 0 0)), content)
  else if decide (opcode = 27) then (answer_with u (as_bytes (mkFuseOpenOut 8 0 0)), content)
  else if decide (opcode = 15) then
    match from_bytes args with
    | Some r => (answer_with u (part content (fri_offset r) (fri_size r)), content)
    | None => (failed u 22, content)
    end
  else if decide (opcode = 16) then
    let data := drop_bytes 40 args in
    match from_bytes args with
    | Some r => (answer_with u (as_bytes (mkFuseWriteOut (len data) 0)), overlay content (fwi_offset r) data)
    | None => (failed u 22, content)
    end
  else if decide (opcode = 35) then
    (answer_with u (as_bytes (mkFuseEntryOut 6 0 0 0 0 0 (attr_of 2 "")) +:+ as_bytes (mkFuseOpenOut 9 0 0)), content)
  else (answer_with u "", content).

(** Nothing is checked of the room for the response: the driver does that. *)
Definition host (max_write : Z) (req : string) (resp_len : Z) (content : string) : string * string :=
  match from_bytes req with
  | Some h => answer max_write (fih_opcode h) (fih_nodeid h) (fih_unique h) (drop_bytes (struct_size FuseInHeader) req) content
  | None => ("", content)
  end.

Lemma host_answers max_write o nodeid u body resp_len content :
  0 ≤ nodeid < 2^64 → u64 u →
  host max_write (message o nodeid u body) resp_len content
  = answer max_write (opcode_number o) nodeid u body content.
Proof. intros Hn Hu. unfold host. rewrite sent_read, message_body by done. done. Qed.

Lemma host_keeps_file max_write : FileHost (host max_write) id (λ _, True) (2^63 - 1) 2 7.
Proof.
  constructor; [done|..].
  - intros w u offset n _ Hu Ho [Hn1 Hn2] Hl. exists w. split; [|done]. rewrite host_answers by done.
    unfold answer. cbn [opcode_number]. rewrite !decide_False by done. rewrite decide_True by done.
    unfold read_args, from_bytes, as_bytes. rewrite <- (Str.app_nil_r (encode_words _ _)), decode_encode; [done|].
    simpl. unfold u64_max, MAX_IO_SIZE in *. repeat apply Forall2_cons_2; [..|apply Forall2_nil_2]; unfold fits; simpl; lia.
  - intros w u offset data _ Hu Ho Hl Hlim. pose proof (len_nonneg data).
    exists (len data), (overlay w offset data). split; [lia|].
    assert (take_bytes (Z.to_nat (len data)) data = data) as ->.
    { apply take_all. unfold len. lia. }
    split; [|done]. rewrite host_answers by done.
    unfold answer. cbn [opcode_number]. rewrite !decide_False by done. rewrite decide_True by done. cbv zeta.
    assert (drop_bytes 40 (write_args 7 offset data) = data) as ->.
    { assert (String.length (as_bytes (mkFuseWriteIn 7 offset (wrap32 (len data)) 0 0 0 0)) = 40%nat) as <-
        by (by apply length_encode).
      apply drop_bytes_app. }
    unfold write_args, from_bytes, as_bytes at 1. rewrite decode_encode; [done|].
    simpl. unfold u64_max, MAX_IO_SIZE in *. rewrite wrap32_small by (unfold u32, u32_max; lia).
    repeat apply Forall2_cons_2; [..|apply Forall2_nil_2]; unfold fits; simpl; lia.
Qed.

(** ** Sessions *)
Definition start (max_write : Z) : option (conn string) :=
  match init (host max_write) (λ _, true) "hello world" with Ok c => Some c | Err _ => None end.

Definition idle : conn string :=
  mkConn (mkFuseSession (mkFuseTransport buffer buffer) 2 0 4 4) "hello world" [].

Example negotiated : cn_session <$> start 4 = Some (cn_session idle).
Proof. vm_compute. reflexivity. Qed.

Lemma idle_ready : ready (λ _, True) idle.
Proof. repeat split; done. Qed.

(** A read of eight bytes in chunks of four, and a write past the end *)
Lemma transfer_is_file_access_witness :
  (∃ c', FuseSession.read (host 4) 4 2 7 3 8 idle = Some (Ok "lo world", c') ∧ cn_world c' = "hello world")
  ∧ ∃ n c', FuseSession.write (host 4) 4 2 7 6 "wonder" idle = Some (Ok n, c') ∧ 0 ≤ n ≤ 6
      ∧ cn_world c' = overlay "hello world" 6 (take_bytes (Z.to_nat n) "wonder").
Proof.
  split.
  - destruct (transfer_is_file_access (host 4) id (λ _, True) (2^63 - 1) 2 7 (host_keeps_file 4) 4 idle 3 idle_ready
                ltac:(done)) as [Hr _].
    destruct (Hr ltac:(done) 8 ltac:(done) ltac:(done) ltac:(done)) as (c' & E & _ & Hv & _).
    exists c'. split; [exact E|exact Hv].
  - destruct (transfer_is_file_access (host 4) id (λ _, True) (2^63 - 1) 2 7 (host_keeps_file 4) 4 idle 6 idle_ready
                ltac:(done)) as [_ [Hw _]].
    destruct (Hw ltac:(done) "wonder" ltac:(done) ltac:(done) ltac:(done)) as (n & c' & E & Hn & _ & Hv & _).
    exists n, c'. split; [exact E|]. split; [exact Hn|exact Hv].
Defined.

(** ** Requests *)
#[local] Existing Instance redox_abi.
#[local] Instance stat_flag : StatFlag := {| O_STAT := 0x20000000 |}.
#[local] Instance names : InodeBuffer (list string) := {|
  ib_entry buf _ _ name _ := Some (buf ++ [name]);
|}.

(** The file is opened and written to, the directory is opened, and the file is closed. *)
Definition requests : list (request (list string)) :=
  [RqOpenat 0 "file" O_RDWR; RqOpenat 0 "dir" O_DIRECTORY; RqWrite 1 "HELLO" 0; RqGetdents 2 [] 0; RqClose 1].

Definition served (qs : list (request (list string))) : option (VirtioFsScheme string) :=
  c ← start 4; serve_all (host 4) 4 qs (VirtioFs.new c "shared").

Example file_written : cn_world ∘ vs_conn <$> served requests = Some "HELLO world".
Proof. vm_compute. reflexivity. Qed.

Lemma host_handles_balanced_witness :
  ∃ c s, init (host 4) (λ _, true) "hello world" = Ok c
    ∧ serve_all (host 4) 4 requests (VirtioFs.new c "shared") = Some s
    ∧ omap opened (log_of s) = [(3, 8); (2, 7)] ∧ omap released (log_of s) = [(2, 7)]
    ∧ filter tracked (omap opened (log_of s)) ≡ₚ omap released (log_of s) ++ live (vs_handles s).
Proof.
  assert (∃ c s, init (host 4) (λ _, true) "hello world" = Ok c
            ∧ serve_all (host 4) 4 requests (VirtioFs.new c "shared") = Some s
            ∧ omap opened (log_of s) = [(3, 8); (2, 7)] ∧ omap released (log_of s) = [(2, 7)]) as (c & s & Hi & Hs & Ho & Hr).
  { eexists _, _. split; [vm_compute; reflexivity|]. split; [vm_compute; reflexivity|]. by vm_compute. }
  exists c, s. split; [exact Hi|]. split; [exact Hs|]. split; [exact Ho|]. split; [exact Hr|].
  apply (host_handles_balanced (host 4) 4 (λ _, true) "hello world" c "shared" requests s Hi Hs).
Defined.

(** ** At the edges *)
Definition result_of {A} (m : Req (VirtioFsScheme string) A) (qs : list (request (list string)))
    : option (result errno A * list Z) :=
  s ← served qs;
  '(r, s') ← m s;
  Some (r, omap (λ e : exchanged, fih_opcode <$> from_bytes e.1)
             (take (length (log_of s') - length (log_of s)) (log_of s'))).

(** A link is followed before it is removed: one to nothing cannot be removed, and for one to a
    directory the host is asked to remove a directory (operation 11), by the name of the link. *)
Example dangling_link_stays : result_of (VirtioFs.unlinkat (host 4) 0 "gone") [] = Some (Err ENOENT, [1; 5; 1; 3]).
Proof. vm_compute. reflexivity. Qed.

Example link_as_directory : result_of (VirtioFs.unlinkat (host 4) 0 "link") [] = Some (Ok tt, [11; 3; 1; 5; 1; 3]).
Proof. vm_compute. reflexivity. Qed.

Example file_unlinked : result_of (VirtioFs.unlinkat (host 4) 0 "file") [] = Some (Ok tt, [10; 3; 1; 3]).
Proof. vm_compute. reflexivity. Qed.

(** A path that starts with a slash is taken from the directory all the same. *)
Example absolute_is_relative :
  result_of (id ← VirtioFs.openat (host 4) 1 "/file" 0; VirtioFs.fpath id 64) [RqOpenat 0 "dir" O_DIRECTORY]
  = Some (Ok "/scheme/shared/dir/file", [14; 3; 1; 1]).
Proof. vm_compute. reflexivity. Qed.

(** A new file is open for writing, whatever it was opened for. *)
Example created_is_writable :
  (λ s, vh_writable <$> handles (vs_handles s) !! 1) <$> served [RqOpenat 0 "new" (Z.lor O_CREAT O_RDONLY)] = Some (Some true).
Proof. vm_compute. reflexivity. Qed.
End VirtioDemo.
