(* ===== verification/Gdb.v ===== *)
(** * The GDB stub ([gdbstub/src/main.rs], [gdbstub/src/regs.rs])

    The stub answers the packets of a debugger by operations on the files of the [proc:] scheme of
    one process.  These files are a parameter; what the stub keeps of its own are the breakpoints it
    has inserted. *)

From S2P Require Import Prelude RustStd Bytes.

Open Scope Z_scope.

(** ** Hexadecimal *)
Definition lower_hex (d : Z) : ascii := byte_of (if decide (d < 10) then 48 + d else 87 + d).

(** [format!("{:02x}", b)] *)
Definition hex2 (b : Z) : string := String (lower_hex (b / 16)) (String (lower_hex (b `mod` 16)) "").

Definition hex_digit (c : ascii) : option Z :=
  let b := Z.of_N (Str.byte c) in
  if decide (48 ≤ b ≤ 57) then Some (b - 48)
  else if decide (97 ≤ b ≤ 102) then Some (b - 87)
  else if decide (65 ≤ b ≤ 70) then Some (b - 55)
  else None.

(** [from_str_radix(s, 16)] of an unsigned type: a sign [+] is allowed. *)
Fixpoint radix_from (max acc : Z) (s : string) : option Z :=
  match s with
  | EmptyString => Some acc
  | String c s' => d ← hex_digit c; if decide (max < acc * 16 + d) then None else radix_from max (acc * 16 + d) s'
  end.

Definition from_str_radix (max : Z) (s : string) : option Z :=
  match s with
  | EmptyString | String "+" EmptyString => None
  | String "+" s' => radix_from max 0 s'
  | _ => radix_from max 0 s
  end.

Fixpoint hex_encode (data : string) : string :=
  match data with
  | EmptyString => ""
  | String b data' => hex2 (Z.of_N (Str.byte b)) +:+ hex_encode data'
  end.

Definition from_utf8 (s : string) : option string := if Str.utf8_valid s then Some s else None.

Fixpoint decode_pairs (hex : string) : option string :=
  match hex with
  | String a (String b hex') =>
      s ← from_utf8 (String a (String b ""));
      v ← from_str_radix 255 s;
      out ← decode_pairs hex';
      Some (String (byte_of v) out)
  | _ => Some ""
  end.

Definition hex_decode (hex : string) : option string :=
  if decide (len hex `mod` 2 ≠ 0) then None else decode_pairs hex.

Definition parse_hex_u64 (hex : string) : option Z := s ← from_utf8 hex; from_str_radix u64_max s.

(** ** Registers *)
(** [IntRegisters] of Redox *)
Record IntRegisters : Type := mkIntRegisters {
  r_r15 : Z; r_r14 : Z; r_r13 : Z; r_r12 : Z; r_rbp : Z; r_rbx : Z; r_r11 : Z; r_r10 : Z; r_r9 : Z; r_r8 : Z;
  r_rax : Z; r_rcx : Z; r_rdx : Z; r_rsi : Z; r_rdi : Z; r_rip : Z; r_cs : Z; r_rflags : Z; r_rsp : Z; r_ss : Z;
}.

Definition reg64_hex (v : Z) : string := hex_encode (le_bytes 8 v).
Definition reg32_hex (v : Z) : string := hex_encode (le_bytes 4 v).

(** The registers in the order of GDB *)
Definition int_regs_to_gdb_hex (r : IntRegisters) : string :=
  reg64_hex (r_rax r) +:+ reg64_hex (r_rbx r) +:+ reg64_hex (r_rcx r) +:+ reg64_hex (r_rdx r) +:+ reg64_hex (r_rsi r)
  +:+ reg64_hex (r_rdi r) +:+ reg64_hex (r_rbp r) +:+ reg64_hex (r_rsp r) +:+ reg64_hex (r_r8 r) +:+ reg64_hex (r_r9 r)
  +:+ reg64_hex (r_r10 r) +:+ reg64_hex (r_r11 r) +:+ reg64_hex (r_r12 r) +:+ reg64_hex (r_r13 r)
  +:+ reg64_hex (r_r14 r) +:+ reg64_hex (r_r15 r) +:+ reg64_hex (r_rip r)
  +:+ reg32_hex (wrap32 (r_rflags r)) +:+ reg32_hex (wrap32 (r_cs r)) +:+ reg32_hex (wrap32 (r_ss r))
  +:+ reg32_hex 0 +:+ reg32_hex 0 +:+ reg32_hex 0 +:+ reg32_hex 0.

(** [read_le64] and [read_le32]: the integer of [w] bytes at the front, and what follows *)
Definition read_le (w : nat) (hex : string) : option (Z * string) :=
  if decide (len hex < 2 * Z.of_nat w) then None
  else bytes ← hex_decode (take_bytes (2 * w) hex); Some (le_int bytes, drop_bytes (2 * w) hex).

Fixpoint read_all (ws : list nat) (hex : string) : option (list Z) :=
  match ws with
  | [] => Some []
  | w :: ws' => '(v, hex') ← read_le w hex; vs ← read_all ws' hex'; Some (v :: vs)
  end.

(** [None] is [false]: the caller then drops what was read. *)
Definition gdb_hex_to_int_regs (hex : string) : option IntRegisters :=
  vs ← read_all (repeat 8%nat 17 ++ repeat 4%nat 7) hex;
  match vs with
  | [rax; rbx; rcx; rdx; rsi; rdi; rbp; rsp; r8; r9; r10; r11; r12; r13; r14; r15; rip; rflags; cs; ss; _; _; _; _] =>
      Some (mkIntRegisters r15 r14 r13 r12 rbp rbx r11 r10 r9 r8 rax rcx rdx rsi rdi rip cs rflags rsp ss)
  | _ => None
  end.

Definition get_rip (r : IntRegisters) : Z := r_rip r.
Definition set_rip (r : IntRegisters) (rip : Z) : IntRegisters :=
  mkIntRegisters (r_r15 r) (r_r14 r) (r_r13 r) (r_r12 r) (r_rbp r) (r_rbx r) (r_r11 r) (r_r10 r) (r_r9 r) (r_r8 r)
    (r_rax r) (r_rcx r) (r_rdx r) (r_rsi r) (r_rdi r) rip (r_cs r) (r_rflags r) (r_rsp r) (r_ss r).

(** ** The process *)
(** The files of the [proc:] scheme; [None] and [false] are errors.  The memory is read and written
    at the address of the seek before; the seek of the registers is one with the call after it.  A read of the events gives the number of bytes read, the cause and the argument. *)
Class ProcScheme (W : Type) : Type := {
  regs_read : W → option IntRegisters * W;
  regs_write : IntRegisters → W → bool * W;
  mem_seek : Z → W → bool * W;
  mem_read : Z → Z → W → option string * W;
  mem_write : Z → string → W → bool * W;
  trace_write : Z → W → bool * W;
  trace_read : W → option (Z * Z * Z) * W;
  kill : Z → W → W;
  (** whether a buffer of this size is to be had; a larger one ends the stub *)
  allocates : Z → bool;
  PTRACE_STOP_PRE_SYSCALL : Z; PTRACE_STOP_POST_SYSCALL : Z; PTRACE_STOP_SINGLESTEP : Z;
  PTRACE_STOP_SIGNAL : Z; PTRACE_STOP_BREAKPOINT : Z; PTRACE_STOP_EXIT : Z;
}.

Inductive StopReason : Type :=
  | Signal (sig : Z)
  | Exited (code : Z).

Definition to_rsp (r : StopReason) : string :=
  match r with Signal sig => "S" +:+ hex2 sig | Exited code => "W" +:+ hex2 code end.

Record Target (W : Type) : Type := mkTarget {
  tg_pid : Z;
  tg_proc : W;
  tg_breakpoints : gmap Z ascii;
  tg_exited : bool;
}.
Arguments mkTarget {W}.
Arguments tg_pid {W}.
Arguments tg_proc {W}.
Arguments tg_breakpoints {W}.
Arguments tg_exited {W}.

Definition int3 : string := String (byte_of 0xCC) "".

(** [usize] and [{:x}] of a process number *)
Fixpoint hex_digits (fuel : nat) (z : Z) (acc : string) : string :=
  match fuel with
  | O => acc
  | S fuel' =>
      let acc := String (lower_hex (z `mod` 16)) acc in
      if decide (z / 16 = 0) then acc else hex_digits fuel' (z / 16) acc
  end.
Definition hex_of (z : Z) : string := hex_digits 16 z "".

Module Gdb.
Section stub.
Context {W : Type} {PS : ProcScheme W}.
Implicit Types (t : Target W) (addr : Z).

(** An operation on the files *)
Definition on_proc {A} (m : W → A * W) t : A * Target W :=
  let '(a, w) := m (tg_proc t) in (a, mkTarget (tg_pid t) w (tg_breakpoints t) (tg_exited t)).

Definition set_breakpoints (b : gmap Z ascii) t : Target W := mkTarget (tg_pid t) (tg_proc t) b (tg_exited t).
Definition set_exited t : Target W := mkTarget (tg_pid t) (tg_proc t) (tg_breakpoints t) true.

Definition read_int_regs t : option IntRegisters * Target W := on_proc regs_read t.
Definition write_int_regs (r : IntRegisters) t : bool * Target W := on_proc (regs_write r) t.
Definition read_memory addr (n : Z) t : outcome (option string * Target W) :=
  match on_proc (mem_seek addr) t with
  | (true, t) => if allocates n then Returns (on_proc (mem_read addr n) t) else Panics
  | (false, t) => Returns (None, t)
  end.
Definition write_memory addr (data : string) t : bool * Target W :=
  match on_proc (mem_seek addr) t with
  | (true, t) => on_proc (mem_write addr data) t
  | (false, t) => (false, t)
  end.

(** [seek] and [read_exact] of one byte *)
Definition read_byte addr t : option string * Target W :=
  match on_proc (mem_seek addr) t with
  | (true, t) => on_proc (mem_read addr 1) t
  | (false, t) => (None, t)
  end.

Definition insert_breakpoint addr t : bool * Target W :=
  match tg_breakpoints t !! addr with
  | Some _ => (true, t)
  | None =>
      match read_byte addr t with
      | (Some (String orig _), t) =>
          match write_memory addr int3 t with
          | (true, t) => (true, set_breakpoints (<[addr := orig]> (tg_breakpoints t)) t)
          | (false, t) => (false, t)
          end
      | (_, t) => (false, t)
      end
  end.

Definition remove_breakpoint addr t : bool * Target W :=
  match tg_breakpoints t !! addr with
  | Some orig => write_memory addr (String orig "") (set_breakpoints (delete addr (tg_breakpoints t)) t)
  | None => (true, t)
  end.

(** ** Running *)
Definition contains (cause flag : Z) : bool := bool_decide (Z.land cause flag = flag).

(** After a breakpoint the process goes on at the instruction it has replaced. *)
Definition rewind t : Target W :=
  match read_int_regs t with
  | (Some regs, t) =>
      let rip := get_rip regs in
      if decide (0 < rip ∧ is_Some (tg_breakpoints t !! (rip - 1)))
      then (write_int_regs (set_rip regs (rip - 1)) t).2
      else t
  | (None, t) => t
  end.

Definition wait_for_event t : option StopReason * Target W :=
  match on_proc trace_read t with
  | (None, t) => (None, t)
  | (Some (n, cause, a), t) =>
      if decide (n = 0) then (Some (Exited 0), set_exited t)
      else if contains cause PTRACE_STOP_BREAKPOINT then (Some (Signal 5), rewind t)
      else if contains cause PTRACE_STOP_SINGLESTEP then (Some (Signal 5), t)
      else if contains cause PTRACE_STOP_EXIT then (Some (Exited (a `mod` 256)), set_exited t)
      else if contains cause PTRACE_STOP_SIGNAL then (Some (Signal (a `mod` 256)), t)
      else (Some (Signal 5), t)
  end.

Definition run_with (flags : Z) t : option StopReason * Target W :=
  match on_proc (trace_write flags) t with
  | (true, t) => wait_for_event t
  | (false, t) => (None, t)
  end.

Definition continue_exec : Target W → option StopReason * Target W :=
  run_with (Z.lor PTRACE_STOP_PRE_SYSCALL (Z.lor PTRACE_STOP_POST_SYSCALL (Z.lor PTRACE_STOP_SINGLESTEP
             (Z.lor PTRACE_STOP_SIGNAL (Z.lor PTRACE_STOP_BREAKPOINT PTRACE_STOP_EXIT))))).

Definition single_step : Target W → option StopReason * Target W := run_with PTRACE_STOP_SINGLESTEP.

(** ** Packets *)
Definition ok_or_e (e : string) (r : bool * Target W) : outcome (string * Target W) :=
  Returns (if r.1 then "OK" else e, r.2).

Definition stopped (r : option StopReason * Target W) : outcome (string * Target W) :=
  Returns (match r.1 with Some reason => to_rsp reason | None => "E01" end, r.2).

Definition read_packet (params : string) t : outcome (string * Target W) :=
  match Str.split_once "," params with
  | Some (a, n) =>
      match parse_hex_u64 a, parse_hex_u64 n with
      | Some addr, Some n =>
          match read_memory addr n t with
          | Returns (Some bytes, t) => Returns (hex_encode bytes, t)
          | Returns (None, t) => Returns ("E14", t)
          | Panics => Panics
          end
      | _, _ => Returns ("E01", t)
      end
  | None => Returns ("E01", t)
  end.

Definition write_packet (params : string) t : outcome (string * Target W) :=
  match Str.split_once ":" params with
  | Some (header, hex_data) =>
      match Str.split_once "," header with
      | Some (a, _) =>
          match parse_hex_u64 a with
          | Some addr =>
              match hex_decode hex_data with
              | Some bytes => ok_or_e "E14" (write_memory addr bytes t)
              | None => Returns ("E01", t)
              end
          | None => Returns ("E01", t)
          end
      | None => Returns ("E01", t)
      end
  | None => Returns ("E01", t)
  end.

(** [Z0] and [z0], on the whole packet: the slice from the third byte on panics when there is none. *)
Definition breakpoint_packet (f : Z → Target W → bool * Target W) (data : string) t : outcome (string * Target W) :=
  if decide (len data < 3) then Panics
  else
    match Str.split_once "," (drop_bytes 3 data) with
    | Some (a, _) =>
        match parse_hex_u64 a with
        | Some addr => ok_or_e "E01" (f addr t)
        | None => Returns ("E01", t)
        end
    | None => Returns ("E01", t)
    end.

Definition query (data : string) t : string :=
  if Str.starts_with "qSupported" data then "PacketSize=4096"
  else if Str.starts_with "qAttached" data then "1"
  else if Str.starts_with "qC" data then "QC" +:+ hex_of (tg_pid t)
  else "".

Definition handle_packet (data : string) t : outcome (string * Target W) :=
  match data with
  | EmptyString => Returns ("", t)
  | String c params =>
      if decide (c = "?"%char) then Returns ("S05", t)
      else if decide (c = "g"%char) then
        let '(r, t) := read_int_regs t in
        Returns (match r with Some regs => int_regs_to_gdb_hex regs | None => "E01" end, t)
      else if decide (c = "G"%char) then
        match read_int_regs t with
        | (Some _, t) =>
            match gdb_hex_to_int_regs params with
            | Some regs => ok_or_e "E01" (write_int_regs regs t)
            | None => Returns ("E01", t)
            end
        | (None, t) => Returns ("E01", t)
        end
      else if decide (c = "m"%char) then read_packet params t
      else if decide (c = "M"%char) then write_packet params t
      else if decide (c = "c"%char) then stopped (continue_exec t)
      else if decide (c = "s"%char) then stopped (single_step t)
      else if decide (c = "Z"%char ∧ Str.starts_with "0" params = true) then breakpoint_packet insert_breakpoint data t
      else if decide (c = "z"%char ∧ Str.starts_with "0" params = true) then breakpoint_packet remove_breakpoint data t
      else if decide (c = "H"%char) then Returns ("OK", t)
      else if decide (c = "q"%char) then Returns (query data t, t)
      else if decide (c = "k"%char) then Returns ("", set_exited (on_proc (λ w, (tt, kill (tg_pid t) w)) t).2)
      else if decide (c = "D"%char) then Returns ("OK", t)
      else Returns ("", t)
  end.

(** The loop of [run_stub] on the packets of a client: what is answered, and the target at the end *)
Fixpoint run_stub (packets : list string) t : outcome (list string * Target W) :=
  match packets with
  | [] => Returns ([], t)
  | data :: packets' =>
      match handle_packet data t with
      | Panics => Panics
      | Returns (response, t) =>
          if decide (Str.starts_with "D" data = true ∨ Str.starts_with "k" data = true) then
            Returns (if decide (response = "") then [] else [response], t)
          else if tg_exited t then Returns ([response], t)
          else
            match run_stub packets' t with
            | Returns (responses, t) => Returns (response :: responses, t)
            | Panics => Panics
            end
      end
  end.

End stub.
End Gdb.
