(* ===== verification/GdbFacts.v ===== *)
(** * Theorems on the GDB stub

    Registers and memory come back as they were sent; breakpoints are invisible in the memory the
    debugger is meant to see. *)

From S2P Require Import Prelude RustStd Bytes Gdb.

Open Scope Z_scope.

(** ** Hexadecimal *)
Lemma byte_of_byte a : byte_of (Z.of_N (Str.byte a)) = a.
Proof.
  unfold byte_of, Str.byte. pose proof (N_ascii_bounded a). rewrite Z.mod_small by lia.
  by rewrite N2Z.id, ascii_N_embedding.
Qed.

(** Two digits are read back, for each of the 256 bytes. *)
Lemma hex2_read a rest :
  decode_pairs (hex2 (Z.of_N (Str.byte a)) +:+ rest) = out ← decode_pairs rest; Some (String a out).
Proof. destruct a as [[] [] [] [] [] [] [] []]; reflexivity. Qed.

Lemma hex_encode_cons a s : hex_encode (String a s) = hex2 (Z.of_N (Str.byte a)) +:+ hex_encode s.
Proof. done. Qed.

Lemma decode_pairs_encode s rest :
  decode_pairs (hex_encode s +:+ rest) = out ← decode_pairs rest; Some (s +:+ out).
Proof.
  induction s as [|a s IH].
  { change (hex_encode "" +:+ rest) with rest. by destruct (decode_pairs rest). }
  rewrite hex_encode_cons, Str.app_assoc, hex2_read, IH. by destruct (decode_pairs rest).
Qed.

Lemma len_hex_encode s : len (hex_encode s) = 2 * len s.
Proof.
  induction s as [|a s IH]; [done|]. rewrite hex_encode_cons, len_app, IH.
  change (len (String a s)) with (Z.of_nat (S (String.length s))). change (len (hex2 _)) with 2. unfold len. lia.
Qed.

Lemma hex_roundtrip s : hex_decode (hex_encode s) = Some s.
Proof.
  unfold hex_decode. rewrite len_hex_encode, Z.mul_comm, Z_mod_mult, decide_False by lia.
  rewrite <- (Str.app_nil_r (hex_encode s)), decode_pairs_encode. simpl. by rewrite Str.app_nil_r.
Qed.

(** ** Registers *)
Lemma read_le_encode w v rest :
  read_le w (hex_encode (le_bytes w v) +:+ rest) = Some (v `mod` 256 ^ Z.of_nat w, rest).
Proof.
  assert (String.length (hex_encode (le_bytes w v)) = (2 * w)%nat) as Hl.
  { pose proof (len_hex_encode (le_bytes w v)) as Hh. unfold len in Hh. rewrite length_le_bytes in Hh. lia. }
  unfold read_le. rewrite decide_False.
  2: { rewrite len_app. unfold len at 1. rewrite Hl. pose proof (len_nonneg rest). lia. }
  rewrite <- Hl, take_bytes_app, drop_bytes_app, hex_roundtrip. simpl. by rewrite le_int_bytes.
Qed.

Definition write_all (wvs : list (nat * Z)) (rest : string) : string :=
  foldr (λ wv s, hex_encode (le_bytes wv.1 wv.2) +:+ s) rest wvs.

Lemma read_all_written wvs rest :
  read_all wvs.*1 (write_all wvs rest) = Some ((λ wv, wv.2 `mod` 256 ^ Z.of_nat wv.1) <$> wvs).
Proof.
  induction wvs as [|[w v] wvs IH]; [done|].
  change (read_all _ _) with
    ('(x, hex') ← read_le w (hex_encode (le_bytes w v) +:+ write_all wvs rest); vs ← read_all wvs.*1 hex'; Some (x :: vs)).
  rewrite read_le_encode. cbn [mbind option_bind]. by rewrite IH.
Qed.

Definition u64_regs (r : IntRegisters) : Prop :=
  Forall u64 [r_r15 r; r_r14 r; r_r13 r; r_r12 r; r_rbp r; r_rbx r; r_r11 r; r_r10 r; r_r9 r; r_r8 r; r_rax r; r_rcx r;
              r_rdx r; r_rsi r; r_rdi r; r_rip r; r_rsp r].

(** The flags and the segments have 32 bits in the protocol. *)
Definition narrow (r : IntRegisters) : IntRegisters :=
  mkIntRegisters (r_r15 r) (r_r14 r) (r_r13 r) (r_r12 r) (r_rbp r) (r_rbx r) (r_r11 r) (r_r10 r) (r_r9 r) (r_r8 r)
    (r_rax r) (r_rcx r) (r_rdx r) (r_rsi r) (r_rdi r) (r_rip r) (wrap32 (r_cs r)) (wrap32 (r_rflags r)) (r_rsp r)
    (wrap32 (r_ss r)).

Definition gdb_words (r : IntRegisters) : list (nat * Z) :=
  (pair 8%nat <$> [r_rax r; r_rbx r; r_rcx r; r_rdx r; r_rsi r; r_rdi r; r_rbp r; r_rsp r; r_r8 r; r_r9 r; r_r10 r;
                   r_r11 r; r_r12 r; r_r13 r; r_r14 r; r_r15 r; r_rip r])
  ++ (pair 4%nat <$> [wrap32 (r_rflags r); wrap32 (r_cs r); wrap32 (r_ss r); 0; 0; 0; 0]).

Lemma gdb_words_written r rest : int_regs_to_gdb_hex r +:+ rest = write_all (gdb_words r) rest.
Proof. unfold int_regs_to_gdb_hex, reg64_hex, reg32_hex. by rewrite !Str.app_assoc. Qed.

Lemma wrap32_again v : wrap32 v `mod` 256 ^ Z.of_nat 4 = wrap32 v.
Proof. unfold wrap32. apply Z.mod_small. apply Z.mod_pos_bound. lia. Qed.

(** The registers that are sent to the debugger are read back from what was sent, the flags and the segments in the 32 bits the protocol has for
    them; what follows the registers is ignored. *)
Theorem registers_roundtrip r rest :
  u64_regs r → gdb_hex_to_int_regs (int_regs_to_gdb_hex r +:+ rest) = Some (narrow r).
Proof.
  intros Hr. unfold gdb_hex_to_int_regs. rewrite gdb_words_written.
  change (repeat 8%nat 17 ++ repeat 4%nat 7) with (gdb_words r).*1. rewrite read_all_written.
  unfold gdb_words, narrow. cbn [fmap list_fmap app fst snd mbind option_bind]. rewrite !wrap32_again.
  unfold u64_regs in Hr. rewrite !Forall_cons in Hr. destruct_and!.
  assert (∀ v, u64 v → v `mod` 256 ^ Z.of_nat 8 = v) as Hm.
  { intros v Hv. apply Z.mod_small. unfold u64, u64_max in Hv. lia. }
  by rewrite !Hm.
Qed.

(** ** Breakpoints *)
(** A memory with bytes written from an address on *)
Definition patch (addr : Z) (data : string) (m : Z → ascii) (x : Z) : ascii :=
  if decide (addr ≤ x) then default (m x) (String.get (Z.to_nat (x - addr)) data) else m x.

(** The packets that neither run the process nor write to its memory *)
Definition inspects (data : string) : Prop :=
  match data with EmptyString => True | String c _ => c ∉ ["c"; "s"; "M"; "k"]%char end.

#[export] Instance inspects_dec data : Decision (inspects data).
Proof. destruct data; unfold inspects; apply _. Defined.

Section breakpoints.
Context {W : Type} {PS : ProcScheme W} (view : W → Z → ascii).
Implicit Types (t : Target W) (addr : Z) (m : Z → ascii).

(** What the files are relied on for: a seek changes no memory, a read gives what the memory holds, a write changes the bytes
    that were to be written only, in order, all of them if it succeeds; registers are not memory. *)
Record ProcMemory : Prop := mkProcMemory {
  pm_seek addr w : ∀ x, view (mem_seek addr w).2 x = view w x;
  pm_read addr n w : ∀ x, view (mem_read addr n w).2 x = view w x;
  pm_bytes addr n w bytes : 0 ≤ n → (mem_read addr n w).1 = Some bytes →
    len bytes = n ∧ ∀ i, (i < String.length bytes)%nat → String.get i bytes = Some (view w (addr + Z.of_nat i));
  pm_write addr data w : ∃ k, (k ≤ String.length data)%nat
    ∧ (∀ x, view (mem_write addr data w).2 x = patch addr (take_bytes k data) (view w) x)
    ∧ ((mem_write addr data w).1 = true ↔ k = String.length data);
  pm_regs_read w : ∀ x, view (regs_read w).2 x = view w x;
  pm_regs_write r w : ∀ x, view (regs_write r w).2 x = view w x;
}.

Context (memory : ProcMemory).

(** The memory as it would be without the breakpoints *)
Definition logical t (x : Z) : ascii := default (view (tg_proc t) x) (tg_breakpoints t !! x).

(** Where a breakpoint is, the process stops. *)
Definition armed t : Prop := ∀ x, is_Some (tg_breakpoints t !! x) → view (tg_proc t) x = byte_of 0xCC.

(** Nothing the debugger should see has changed. *)
Definition same t t' : Prop := (armed t → armed t') ∧ ∀ x, logical t' x = logical t x.

Lemma alike_refl t : same t t.
Proof. done. Qed.

Lemma alike_trans t1 t2 t3 : same t1 t2 → same t2 t3 → same t1 t3.
Proof. intros [H1 E1] [H2 E2]. split; [auto|]. intros x. by rewrite E2. Qed.

(** An operation that leaves the memory as it is *)
Lemma on_proc_same {A} (m : W → A * W) t :
  (∀ x, view (m (tg_proc t)).2 x = view (tg_proc t) x) → same t (Gdb.on_proc m t).2.
Proof.
  intros Hm. unfold Gdb.on_proc. destruct (m (tg_proc t)) as [a w]. simpl in Hm. split.
  - intros Ha x Hx. simpl in *. rewrite Hm. by apply Ha.
  - intros x. unfold logical. simpl. by rewrite Hm.
Qed.

(** A byte that is written, or not *)
Lemma write_byte addr b w :
  ((mem_write addr (String b "") w).1 = true ∧ ∀ x, view (mem_write addr (String b "") w).2 x = if decide (x = addr) then b else view w x)
  ∨ ((mem_write addr (String b "") w).1 = false ∧ ∀ x, view (mem_write addr (String b "") w).2 x = view w x).
Proof.
  destruct (pm_write memory addr (String b "") w) as (k & Hk & Hv & Hok). simpl in Hk.
  destruct (mem_write addr (String b "") w) as [ok w']. simpl in *.
  assert (k = 0 ∨ k = 1)%nat as [->| ->] by lia.
  - right. split; [destruct ok; [|done]; discriminate (proj1 Hok eq_refl)|]. intros x. rewrite Hv. unfold patch.
    case_decide; [|done]. by destruct (Z.to_nat (x - addr)).
  - left. split; [by apply Hok|]. intros x. rewrite Hv. unfold patch. change (take_bytes 1 (String b "")) with (String b "").
    case_decide as Ha; case_decide as Hx; [subst; by rewrite Z.sub_diag| |lia|done].
    destruct (Z.to_nat (x - addr)) eqn:E; [lia|]. done.
Qed.

(** The same for the whole of a write, with its seek *)
Lemma write_one addr b t :
  let '(ok, t') := Gdb.write_memory addr (String b "") t in
  tg_breakpoints t' = tg_breakpoints t
  ∧ ∀ x, view (tg_proc t') x = if decide (ok = true ∧ x = addr) then b else view (tg_proc t) x.
Proof.
  unfold Gdb.write_memory, Gdb.on_proc. pose proof (pm_seek memory addr (tg_proc t)) as Hs.
  destruct (mem_seek addr (tg_proc t)) as [[] w]; cbn [fst snd tg_proc tg_pid tg_breakpoints tg_exited] in *.
  - destruct (write_byte addr b w) as [[Hok Hw]|[Hok Hw]]; destruct (mem_write addr (String b "") w) as [ok w']; simpl in *; subst ok;
      (split; [done|]); intros x; rewrite Hw, Hs; [|by rewrite decide_False by (by intros [])].
    repeat case_decide; naive_solver.
  - split; [done|]. intros x. by rewrite Hs, decide_False by (by intros []).
Qed.

(** What is read of a byte *)
Lemma read_one addr t :
  let '(r, t') := Gdb.read_byte addr t in
  tg_breakpoints t' = tg_breakpoints t ∧ (∀ x, view (tg_proc t') x = view (tg_proc t) x)
  ∧ match r with Some (String b _) => view (tg_proc t) addr = b | _ => True end.
Proof.
  unfold Gdb.read_byte, Gdb.on_proc. pose proof (pm_seek memory addr (tg_proc t)) as Hs.
  destruct (mem_seek addr (tg_proc t)) as [[] w]; cbn [fst snd tg_proc tg_pid tg_breakpoints tg_exited] in *; [|done].
  pose proof (pm_read memory addr 1 w) as Hr. pose proof (pm_bytes memory addr 1 w) as Hbytes.
  destruct (mem_read addr 1 w) as [[[|b more]|] w']; simpl in *; (split; [done|]); (split; [intros x; by rewrite Hr, Hs|]); try done.
  destruct (Hbytes _ ltac:(done) eq_refl) as [_ Ho]. specialize (Ho 0%nat ltac:(simpl; lia)). simpl in Ho. injection Ho as Ho.
  by rewrite Z.add_0_r, Hs in Ho.
Qed.

Lemma insert_same addr t : same t (Gdb.insert_breakpoint addr t).2.
Proof.
  unfold Gdb.insert_breakpoint. destruct (tg_breakpoints t !! addr) as [o|] eqn:Hb; [apply alike_refl|].
  pose proof (read_one addr t) as Hr. destruct (Gdb.read_byte addr t) as [r t1]. destruct Hr as (Hb1 & Hv1 & Hr).
  assert (same t t1) as Hs1.
  { split; [intros Ha x Hx; rewrite Hb1 in Hx; rewrite Hv1; by apply Ha|intros x; unfold logical; by rewrite Hb1, Hv1]. }
  destruct r as [[|orig more]|]; [done| |done].
  pose proof (write_one addr (byte_of 0xCC) t1) as Hw. fold int3 in Hw. destruct (Gdb.write_memory addr int3 t1) as [ok t2].
  destruct Hw as (Hb2 & Hv2). destruct ok; cbn [snd].
  - split.
    + intros Ha x Hx. unfold Gdb.set_breakpoints in *. simpl in *. rewrite Hv2. case_decide as Hd; [done|].
      rewrite Hb2, Hb1, lookup_insert_ne in Hx by naive_solver. rewrite Hv1. by apply Ha.
    + intros x. unfold logical, Gdb.set_breakpoints. simpl. rewrite Hb2, Hb1, Hv2. destruct (decide (x = addr)) as [->|Hx].
      * by rewrite lookup_insert_eq, Hb, Hr.
      * by rewrite lookup_insert_ne, decide_False, Hv1 by naive_solver.
  - eapply alike_trans; [exact Hs1|]. split.
    + intros Ha x Hx. rewrite Hb2 in Hx. rewrite Hv2, decide_False by naive_solver. by apply Ha.
    + intros x. unfold logical. by rewrite Hb2, Hv2, decide_False by naive_solver.
Qed.

Lemma remove_same addr t : (Gdb.remove_breakpoint addr t).1 = true → same t (Gdb.remove_breakpoint addr t).2.
Proof.
  unfold Gdb.remove_breakpoint. destruct (tg_breakpoints t !! addr) as [o|] eqn:Hb; [|intros ?; apply alike_refl].
  set (t1 := Gdb.set_breakpoints (delete addr (tg_breakpoints t)) t). pose proof (write_one addr o t1) as Hw.
  destruct (Gdb.write_memory addr (String o "") t1) as [ok t2]. destruct Hw as (Hb2 & Hv2). cbn [fst snd]. intros ->. split.
  - intros Ha x Hx. rewrite Hb2 in Hx. unfold t1, Gdb.set_breakpoints in Hx. simpl in Hx.
    apply lookup_delete_is_Some in Hx as [Hne Hx]. rewrite Hv2, decide_False by naive_solver.
    by apply Ha.
  - intros x. unfold logical. rewrite Hb2, Hv2. simpl. destruct (decide (x = addr)) as [->|Hx].
    + by rewrite lookup_delete_eq, decide_True, Hb.
    + by rewrite lookup_delete_ne, decide_False by naive_solver.
Qed.

(** ** Packets *)
Lemma read_packet_same params t resp t' :
  Gdb.read_packet params t = Returns (resp, t') → same t t'.
Proof.
  unfold Gdb.read_packet, Gdb.read_memory. destruct (Str.split_once _ _) as [[a n]|]; [|intros [= <- <-]; apply alike_refl].
  destruct (parse_hex_u64 a) as [addr|]; [|intros [= <- <-]; apply alike_refl].
  destruct (parse_hex_u64 n) as [k|]; [|intros [= <- <-]; apply alike_refl].
  pose proof (on_proc_same (mem_seek addr) t (pm_seek memory addr (tg_proc t))) as Hseek.
  destruct (Gdb.on_proc (mem_seek addr) t) as [[] t0]; cbn [snd] in Hseek; [|by intros [= <- <-]].
  destruct (allocates k); [|done]. pose proof (on_proc_same (mem_read addr k) t0 (pm_read memory addr k (tg_proc t0))) as Hs.
  destruct (Gdb.on_proc _ t0) as [[bytes|] t1]; intros [= <- <-]; by eapply alike_trans.
Qed.

Lemma breakpoint_packet_same f data t resp t' :
  (∀ addr t, (f addr t).1 = true → same t (f addr t).2) →
  Gdb.breakpoint_packet f data t = Returns (resp, t') → resp ≠ "E01" → same t t'.
Proof.
  intros Hf. unfold Gdb.breakpoint_packet, Gdb.ok_or_e. case_decide; [done|].
  destruct (Str.split_once _ _) as [[a rest]|]; [|by intros [= <- <-]].
  destruct (parse_hex_u64 a) as [addr|]; [|by intros [= <- <-]].
  specialize (Hf addr t). destruct (f addr t) as [[] t1]; simpl; intros [= <- <-] He; [by apply Hf|done].
Qed.

Lemma packet_same data t resp t' :
  inspects data → Gdb.handle_packet data t = Returns (resp, t') → resp ≠ "E01" → same t t'.
Proof.
  destruct data as [|c params]; [intros _ [= <- <-] _; apply alike_refl|]. intros Hi. unfold inspects in Hi.
  assert (c ≠ "c"%char ∧ c ≠ "s"%char ∧ c ≠ "M"%char ∧ c ≠ "k"%char) as (H1 & H2 & H3 & H4) by set_solver. clear Hi.
  pose proof (on_proc_same regs_read t (pm_regs_read memory (tg_proc t))) as Hg.
  unfold Gdb.handle_packet, Gdb.read_int_regs, Gdb.write_int_regs, Gdb.ok_or_e.
  destruct (Gdb.on_proc regs_read t) as [r t1]. cbn [fst snd] in Hg.
  repeat (case_decide; [try done|]); intros E He; try (injection E as <- <-; done || apply alike_refl).
  - destruct r as [r|]; [|by injection E as <- <-].
    destruct (gdb_hex_to_int_regs params) as [regs|]; [|by injection E as <- <-].
    pose proof (on_proc_same (regs_write regs) t1 (pm_regs_write memory regs (tg_proc t1))) as Hw.
    destruct (Gdb.on_proc _ t1) as [ok t2]. injection E as <- <-. by eapply alike_trans.
  - by eapply read_packet_same.
  - eapply breakpoint_packet_same; [|done..]. intros addr t2 _. apply insert_same.
  - eapply breakpoint_packet_same; [|done..]. intros addr t2. apply remove_same.
Qed.

Lemma run_stub_same packets t responses t' :
  Forall inspects packets → Gdb.run_stub packets t = Returns (responses, t') → "E01" ∉ responses → same t t'.
Proof.
  revert t responses. induction packets as [|data packets IH]; intros t responses Hi; [intros [= <- <-] _; apply alike_refl|].
  apply Forall_cons in Hi as [Hd Hp]. cbn [Gdb.run_stub].
  destruct (Gdb.handle_packet data t) as [[resp t1]|] eqn:E; [|done]. case_decide as Hf.
  - intros [= <- <-] He. eapply packet_same; [done..|]. case_decide; [by subst|set_solver].
  - destruct (tg_exited t1); [intros [= <- <-] He; eapply packet_same; [done..|set_solver]|].
    destruct (Gdb.run_stub packets t1) as [[rs t2]|] eqn:Er; [|done]. intros [= <- <-] He.
    eapply alike_trans; [eapply packet_same; [done..|set_solver]|]. eapply IH; [done..|set_solver].
Qed.

(** C36. Breakpoints are invisible in the memory of the process: after any packets that are not
    refused and neither run the process nor write to its memory, every byte is what it was, but
    for the breakpoints that are then inserted, each of which stops the process; when they are
    all removed again the memory is what it was at the beginning. *)
Theorem breakpoints_transparent packets t responses t' :
  tg_breakpoints t = ∅ → Forall inspects packets →
  Gdb.run_stub packets t = Returns (responses, t') → "E01" ∉ responses →
  (∀ x, view (tg_proc t') x = if decide (is_Some (tg_breakpoints t' !! x)) then byte_of 0xCC else view (tg_proc t) x)
  ∧ ∀ x o, tg_breakpoints t' !! x = Some o → o = view (tg_proc t) x.
Proof.
  intros Hb Hi E He. destruct (run_stub_same packets t responses t' Hi E He) as [Ha Hl].
  assert (armed t') as Ha' by (apply Ha; intros x; rewrite Hb, lookup_empty; by intros [? ?]).
  assert (∀ x, logical t x = view (tg_proc t) x) as Ht by (intros x; unfold logical; by rewrite Hb, lookup_empty).
  split.
  - intros x. case_decide as Hx; [by apply Ha'|]. rewrite <- Ht, <- Hl. unfold logical.
    destruct (tg_breakpoints t' !! x) eqn:E2; [|done]. destruct Hx. eauto.
  - intros x o Ho. rewrite <- Ht, <- Hl. unfold logical. by rewrite Ho.
Qed.
End breakpoints.

(** ** Concrete sessions *)
Module GdbDemo.

(** A process, and whether its memory can be written to *)
Record proc : Type := mkProc { p_regs : IntRegisters; p_bytes : gmap Z ascii; p_writable : bool }.

Definition peek (p : proc) (x : Z) : ascii := default zero (p_bytes p !! x).

Fixpoint peeks (p : proc) (addr : Z) (n : nat) : string :=
  match n with O => "" | S n' => String (peek p addr) (peeks p (addr + 1) n') end.

Fixpoint pokes (m : gmap Z ascii) (addr : Z) (data : string) : gmap Z ascii :=
  match data with EmptyString => m | String b data' => pokes (<[addr := b]> m) (addr + 1) data' end.

(** Whenever it runs the process comes to the breakpoint at 16. *)
#[local] Instance machine : ProcScheme proc := {|
  regs_read p := (Some (p_regs p), p);
  regs_write r p := (true, mkProc r (p_bytes p) (p_writable p));
  mem_seek addr p := (bool_decide (addr < 2^63), p);
  mem_read addr n p := (Some (peeks p addr (Z.to_nat n)), p);
  mem_write addr data p :=
    if decide (data = "") then (true, p)
    else if p_writable p then (true, mkProc (p_regs p) (pokes (p_bytes p) addr data) true) else (false, p);
  trace_write _ p := (true, p);
  trace_read p := (Some (24, 32, 0), mkProc (set_rip (p_regs p) 17) (p_bytes p) (p_writable p));
  kill _ p := p;
  allocates n := bool_decide (0 ≤ n ≤ 4096);
  PTRACE_STOP_PRE_SYSCALL := 1; PTRACE_STOP_POST_SYSCALL := 2; PTRACE_STOP_SINGLESTEP := 4;
  PTRACE_STOP_SIGNAL := 8; PTRACE_STOP_BREAKPOINT := 32; PTRACE_STOP_EXIT := 64;
|}.

Definition registers : IntRegisters := mkIntRegisters 15 14 13 12 6 2 11 10 9 8 1 3 4 5 7 0x1122334455667788 0x33 0x246 9 0x2b.

Definition attached (writable : bool) : Target proc :=
  mkTarget 0x2a (mkProc registers {[16 := "U"%char; 17 := "V"%char]} writable) ∅ false.

Lemma get_peeks p addr n i : (i < n)%nat → String.get i (peeks p addr n) = Some (peek p (addr + Z.of_nat i)).
Proof.
  revert addr i. induction n as [|n IH]; intros addr [|i] Hi; simpl; try lia; [by rewrite Z.add_0_r|].
  rewrite IH by lia. f_equal. f_equal. lia.
Qed.

Lemma length_peeks p addr n : String.length (peeks p addr n) = n.
Proof. revert addr. induction n as [|n IH]; intros addr; simpl; [done|]. by rewrite IH. Qed.

Lemma pokes_lookup m addr data x :
  default zero (pokes m addr data !! x) = patch addr data (λ y, default zero (m !! y)) x.
Proof.
  revert m addr. induction data as [|b data IH]; intros m addr; simpl; unfold patch; [by case_decide; [destruct (Z.to_nat _)|]|].
  rewrite IH. unfold patch. repeat case_decide; try lia.
  - destruct (Z.to_nat (x - addr)) as [|i] eqn:E; [lia|]. simpl. replace (Z.to_nat (x - (addr + 1))) with i by lia.
    destruct (String.get i data); [done|]. simpl. by rewrite lookup_insert_ne by lia.
  - assert (x = addr) as -> by lia. rewrite Z.sub_diag. simpl. by rewrite lookup_insert_eq.
  - by rewrite lookup_insert_ne by lia.
Qed.

(** A read at an address that cannot be sought is refused before its buffer is made. *)
Example refused_before_allocation :
  (λ r, match r with Returns (resp, _) => Some resp | Panics => None end) (Gdb.read_packet "8000000000000000,ffffffffff" (attached true)) = Some "E14"
  ∧ Gdb.read_packet "0,ffffffffff" (attached true) = Panics.
Proof. split; vm_compute; reflexivity. Qed.

Lemma machine_memory : ProcMemory peek.
Proof.
  constructor; try done.
  - intros addr n w bytes Hn [= <-]. unfold len. rewrite length_peeks. split; [lia|].
    intros i Hi. by apply get_peeks.
  - intros addr data w. simpl. case_decide as Hd.
    { exists 0%nat. subst. split; [simpl; lia|]. split; [|done]. intros x. unfold patch. by case_decide; [destruct (Z.to_nat _)|]. }
    destruct (p_writable w).
    + exists (String.length data). split; [done|]. split; [|done]. intros x. rewrite take_all by done.
      unfold peek. simpl. apply pokes_lookup.
    + exists 0%nat. split; [lia|]. split.
      * intros x. unfold patch. rewrite take_zero. by case_decide; [destruct (Z.to_nat _)|].
      * split; [done|]. intros Hl. by destruct data.
Qed.

Lemma registers_roundtrip_witness :
  gdb_hex_to_int_regs (int_regs_to_gdb_hex registers +:+ "") = Some registers.
Proof.
  assert (narrow registers = registers) as Hn by reflexivity.
  rewrite <- Hn at 2. apply (registers_roundtrip registers "").
  unfold u64_regs, u64, u64_max. repeat constructor; simpl; lia.
Defined.

Definition inserted : list string := ["Z0,10,1"; "m10,2"; "Z0,11,1"; "z0,10,1"; "m10,2"].

Example answers :
  match Gdb.run_stub inserted (attached true) with Returns (rs, _) => rs = ["OK"; "cc56"; "OK"; "OK"; "55cc"] | Panics => False end.
Proof. vm_compute. reflexivity. Qed.

Lemma breakpoints_transparent_witness :
  ∃ responses t', Gdb.run_stub inserted (attached true) = Returns (responses, t')
    ∧ tg_breakpoints t' = {[17 := "V"%char]} ∧ peek (tg_proc t') 16 = "U"%char ∧ peek (tg_proc t') 17 = byte_of 0xCC.
Proof.
  assert (∃ responses t', Gdb.run_stub inserted (attached true) = Returns (responses, t')
            ∧ responses = ["OK"; "cc56"; "OK"; "OK"; "55cc"] ∧ tg_breakpoints t' = {[17 := "V"%char]}) as (rs & t' & E & Hr & Hb).
  { eexists _, _. split; [vm_compute; reflexivity|]. by split. }
  exists rs, t'. split; [exact E|]. split; [exact Hb|].
  destruct (breakpoints_transparent peek machine_memory inserted (attached true) rs t') as [Hm _].
  - reflexivity.
  - apply (bool_decide_unpack (Forall inspects inserted)). by vm_compute.
  - exact E.
  - rewrite Hr. apply (bool_decide_unpack ("E01" ∉ _)). by vm_compute.
  - rewrite !Hm, Hb. split; reflexivity.
Defined.

(** What the debugger reads at a breakpoint is the breakpoint ([answers]); the protocol has it read
    the byte of the program.  What it writes there is lost when the breakpoint is removed, and the
    breakpoint is lost meanwhile. *)
Example write_at_breakpoint_lost :
  match Gdb.run_stub ["Z0,10,1"; "M10,1:aa"; "z0,10,1"; "m10,1"] (attached true) with
  | Returns (rs, _) => rs = ["OK"; "OK"; "OK"; "55"] | Panics => False end.
Proof. vm_compute. reflexivity. Qed.

(** A breakpoint that cannot be removed is forgotten: the second removal succeeds and does nothing. *)
Example removal_forgotten :
  match Gdb.run_stub ["z0,10,1"; "z0,10,1"]
          (mkTarget 1 (mkProc registers {[16 := byte_of 0xCC]} false) {[16 := "U"%char]} false) with
  | Returns (rs, t) => rs = ["E01"; "OK"] ∧ peek (tg_proc t) 16 = byte_of 0xCC | Panics => False end.
Proof. vm_compute. done. Qed.

(** After a detachment the breakpoints stay in the process. *)
Example detached_with_breakpoints :
  match Gdb.run_stub ["Z0,10,1"; "D"] (attached true) with
  | Returns (rs, t) => rs = ["OK"; "OK"] ∧ peek (tg_proc t) 16 = byte_of 0xCC | Panics => False end.
Proof. vm_compute. done. Qed.

(** Packets that end the stub *)
Example short_packet_panics : Gdb.run_stub ["Z0"] (attached true) = Panics.
Proof. reflexivity. Qed.

Example large_read_panics : Gdb.run_stub ["m0,ffffffffffffffff"] (attached true) = Panics.
Proof. vm_compute. reflexivity. Qed.

(** The process goes on at the instruction of the breakpoint it has come to. *)
Example rewound :
  match Gdb.run_stub ["Z0,10,1"; "c"] (attached true) with
  | Returns (rs, t) => rs = ["OK"; "S05"] ∧ r_rip (p_regs (tg_proc t)) = 16 | Panics => False end.
Proof. vm_compute. done. Qed.
End GdbDemo.
