(* ===== verification/Igc.v ===== *)
(** * The Ethernet driver igcd ([nix/pkgs/system/igcd/src])

    The driver of the Intel I225/I226 shares two rings of descriptors, with a buffer each, with the
    device, and tells it by registers how far it has got.  The device is a parameter: what its
    registers answer, and what it does to the shared memory while the driver waits. *)

From S2P Require Import Prelude RustStd Bytes.

Open Scope Z_scope.

(** ** Registers and bits ([regs.rs], [defines.rs]), those the driver uses *)
Module Reg.
Definition CTRL : Z := 0x0000.
Definition STATUS : Z := 0x0008.
Definition EERD : Z := 0x0014.
Definition FCAL : Z := 0x0028.
Definition FCAH : Z := 0x002C.
Definition FCT : Z := 0x0030.
Definition FCTTV : Z := 0x0170.
Definition ICR : Z := 0x01500.
Definition IMS : Z := 0x01508.
Definition IMC : Z := 0x0150C.
Definition RCTL : Z := 0x0100.
Definition TCTL : Z := 0x0400.
Definition RDBAL0 : Z := 0xC000.
Definition RDBAH0 : Z := 0xC004.
Definition RDLEN0 : Z := 0xC008.
Definition SRRCTL0 : Z := 0xC00C.
Definition RDH0 : Z := 0xC010.
Definition RDT0 : Z := 0xC018.
Definition RXDCTL0 : Z := 0xC028.
Definition TDBAL0 : Z := 0xE000.
Definition TDBAH0 : Z := 0xE004.
Definition TDLEN0 : Z := 0xE008.
Definition TDH0 : Z := 0xE010.
Definition TDT0 : Z := 0xE018.
Definition TXDCTL0 : Z := 0xE028.
Definition RAL0 : Z := 0x5400.
Definition RAH0 : Z := 0x5404.
Definition MTA : Z := 0x5200.
Definition RXPBS : Z := 0x2404.
Definition TXPBS : Z := 0x3404.
End Reg.

Definition CTRL_LRST : Z := Z.shiftl 1 3.
Definition CTRL_ASDE : Z := Z.shiftl 1 5.
Definition CTRL_SLU : Z := Z.shiftl 1 6.
Definition CTRL_ILOS : Z := Z.shiftl 1 7.
Definition CTRL_RST : Z := Z.shiftl 1 26.
Definition CTRL_PHY_RST : Z := Z.shiftl 1 31.
Definition STATUS_LU : Z := Z.shiftl 1 1.
Definition ICR_TXDW : Z := Z.shiftl 1 0.
Definition ICR_LSC : Z := Z.shiftl 1 2.
Definition ICR_RXDMT0 : Z := Z.shiftl 1 4.
Definition ICR_RXT0 : Z := Z.shiftl 1 7.
Definition RCTL_EN : Z := Z.shiftl 1 1.
Definition RCTL_BAM : Z := Z.shiftl 1 15.
Definition RCTL_BSIZE_2048 : Z := Z.shiftl 0 16.
Definition RCTL_SECRC : Z := Z.shiftl 1 26.
Definition TCTL_EN : Z := Z.shiftl 1 1.
Definition TCTL_PSP : Z := Z.shiftl 1 3.
Definition TCTL_CT_VAL : Z := Z.shiftl 0x0F 4.
Definition TCTL_COLD_FD : Z := Z.shiftl 0x40 12.
Definition NVM_RW_REG_START : Z := 1.
Definition NVM_RW_ADDR_SHIFT : Z := 2.
Definition NVM_RW_REG_DONE : Z := Z.shiftl 1 1.
Definition NVM_RW_REG_DATA : Z := 16.
Definition SRRCTL_BSIZEPKT_SHIFT : Z := 10.
Definition SRRCTL_DESCTYPE_ADV_ONEBUF : Z := 0x02000000.
Definition SRRCTL_DROP_EN : Z := 0x10000000.
Definition RXDCTL_ENABLE : Z := Z.shiftl 1 25.
Definition TXDCTL_ENABLE : Z := Z.shiftl 1 25.
Definition RXDADV_STAT_DD : Z := Z.shiftl 1 0.
Definition ADVTXD_DTYP_DATA : Z := 0x00300000.
Definition ADVTXD_DCMD_DEXT : Z := 0x20000000.
Definition ADVTXD_DCMD_RS : Z := 0x08000000.
Definition ADVTXD_DCMD_IFCS : Z := 0x02000000.
Definition ADVTXD_DCMD_EOP : Z := 0x01000000.
Definition ADVTXD_PAYLEN_SHIFT : Z := 14.
Definition ADVTXD_STAT_DD : Z := Z.shiftl 1 0.
Definition RXPBS_DEFAULT : Z := 0x20.
Definition TXPBS_DEFAULT : Z := 0x14.

(** ** Descriptors ([desc.rs])

    The union of two formats of 16 bytes: two words of 64 bits, or one of 64 and two of 32. *)
Record AdvRxDesc : Type := mkRxDesc { rx_pkt_addr : Z; rx_hdr_addr : Z }.
Definition rx_status_error (d : AdvRxDesc) : Z := rx_hdr_addr d `mod` 2^32.
Definition rx_length (d : AdvRxDesc) : Z := (rx_hdr_addr d / 2^32) `mod` 2^16.

Record AdvTxDesc : Type := mkTxDesc { tx_buffer_addr : Z; tx_cmd_type_len : Z; tx_olinfo_status : Z }.
Definition tx_status (d : AdvTxDesc) : Z := tx_olinfo_status d.

(** ** Memory that is shared with the device *)
Definition RING_SIZE : nat := 256.
Definition BUF_SIZE : Z := 2048.

Record Dma : Type := mkDma {
  rx_ring : list AdvRxDesc;
  rx_bufs : list string;
  tx_ring : list AdvTxDesc;
  tx_bufs : list string;
}.

Definition set_rx (i : nat) (d : AdvRxDesc) (m : Dma) : Dma := mkDma (<[i := d]> (rx_ring m)) (rx_bufs m) (tx_ring m) (tx_bufs m).
Definition set_tx (i : nat) (d : AdvTxDesc) (m : Dma) : Dma := mkDma (rx_ring m) (rx_bufs m) (<[i := d]> (tx_ring m)) (tx_bufs m).
Definition set_tx_buf (i : nat) (b : string) (m : Dma) : Dma := mkDma (rx_ring m) (rx_bufs m) (tx_ring m) (<[i := b]> (tx_bufs m)).

(** Where the memory is for the device *)
Class Physical : Type := {
  rx_buf_addr : nat → Z;
  tx_buf_addr : nat → Z;
  rx_ring_addr : Z;
  tx_ring_addr : Z;
}.

(** The device: its registers, and what it does between two looks at the memory *)
Class Device (H : Type) : Type := {
  mmio_read : Z → H → Z * H;
  mmio_write : Z → Z → H → H;
  elapse : H * Dma → H * Dma;
}.

Record Igc : Type := mkIgc {
  mac_address : list Z;
  receive_index : nat;
  transmit_ring_free : Z;
  transmit_index : nat;
  transmit_clean_index : nat;
}.

Definition wrap_ring (index ring_size : Z) : Z := Z.land (index + 1) (ring_size - 1).
Definition next_index (i : nat) : nat := Z.to_nat (wrap_ring (Z.of_nat i) (Z.of_nat RING_SIZE)).

Section driver.
Context {H : Type} {PH : Physical} {DV : Device H}.

(** ** Register access ([hw.rs]) *)
Definition St (A : Type) : Type := H → A * H.
#[local] Instance St_ret : MRet St := λ A a h, (a, h).
#[local] Instance St_bind : MBind St := λ A B f m h, let '(a, h) := m h in f a h.

Definition read_reg (r : Z) : St Z := mmio_read r.
Definition write_reg (r v : Z) : St Z := λ h, mmio_read r (mmio_write r v h).
Definition set_flag (r flag : Z) : St unit := v ← read_reg r; _ ← write_reg r (Z.lor v flag); mret tt.
Definition clear_flag (r flag : Z) : St unit :=
  v ← read_reg r; _ ← write_reg r (Z.land v (2^32 - 1 - flag)); mret tt.

(** A register is read up to [n] times, until a value will do. *)
Fixpoint poll (n : nat) (r : Z) (will_do : Z → bool) : St (option Z) :=
  match n with
  | O => mret None
  | S n' => v ← read_reg r; if will_do v then mret (Some v) else poll n' r will_do
  end.

Definition bit_set (flag v : Z) : bool := negb (bool_decide (Z.land v flag = 0)).

(** ** The MAC address ([nvm.rs]) *)
Definition read_nvm_word (offset : Z) : St (option Z) :=
  _ ← write_reg Reg.EERD (Z.lor (Z.shiftl offset NVM_RW_ADDR_SHIFT) NVM_RW_REG_START);
  v ← poll 1000 Reg.EERD (bit_set NVM_RW_REG_DONE);
  mret ((λ v, Z.shiftr v NVM_RW_REG_DATA `mod` 2^16) <$> v).

Definition byte_at (v : Z) (k : Z) : Z := Z.shiftr v (8 * k) `mod` 256.

Definition read_mac_address : St (list Z) :=
  w0 ← read_nvm_word 0; w1 ← read_nvm_word 1; w2 ← read_nvm_word 2;
  let fallback :=
    low ← read_reg Reg.RAL0; high ← read_reg Reg.RAH0;
    mret [byte_at low 0; byte_at low 1; byte_at low 2; byte_at low 3; byte_at high 0; byte_at high 1] in
  match w0, w1, w2 with
  | Some w0, Some w1, Some w2 =>
      let mac := [byte_at w0 0; byte_at w0 1; byte_at w1 0; byte_at w1 1; byte_at w2 0; byte_at w2 1] in
      if decide (mac ≠ repeat 0 6 ∧ mac ≠ repeat 0xFF 6) then mret mac else fallback
  | _, _, _ => fallback
  end.

(** ** Start ([device.rs]) *)
Definition reset : St unit :=
  _ ← write_reg Reg.IMC 0xFFFFFFFF;
  set_flag Reg.CTRL CTRL_RST ;;
  _ ← poll 100 Reg.CTRL (λ v, negb (bit_set CTRL_RST v));
  _ ← write_reg Reg.IMC 0xFFFFFFFF;
  _ ← read_reg Reg.ICR;
  mret tt.

Definition init_rx : St unit :=
  _ ← write_reg Reg.SRRCTL0 (Z.lor (Z.lor (Z.shiftl (BUF_SIZE / 1024) SRRCTL_BSIZEPKT_SHIFT) SRRCTL_DESCTYPE_ADV_ONEBUF) SRRCTL_DROP_EN);
  _ ← write_reg Reg.RDBAH0 (wrap32 (Z.shiftr rx_ring_addr 32));
  _ ← write_reg Reg.RDBAL0 (wrap32 rx_ring_addr);
  _ ← write_reg Reg.RDLEN0 (Z.of_nat RING_SIZE * 16);
  _ ← write_reg Reg.RDH0 0;
  set_flag Reg.RXDCTL0 RXDCTL_ENABLE ;;
  _ ← poll 100 Reg.RXDCTL0 (bit_set RXDCTL_ENABLE);
  _ ← write_reg Reg.RCTL (Z.lor (Z.lor (Z.lor RCTL_EN RCTL_BAM) RCTL_SECRC) RCTL_BSIZE_2048);
  _ ← write_reg Reg.RDT0 (Z.of_nat RING_SIZE - 1);
  mret tt.

Definition init_tx : St unit :=
  _ ← write_reg Reg.TDBAH0 (wrap32 (Z.shiftr tx_ring_addr 32));
  _ ← write_reg Reg.TDBAL0 (wrap32 tx_ring_addr);
  _ ← write_reg Reg.TDLEN0 (Z.of_nat RING_SIZE * 16);
  _ ← write_reg Reg.TDH0 0;
  set_flag Reg.TXDCTL0 TXDCTL_ENABLE ;;
  _ ← poll 100 Reg.TXDCTL0 (bit_set TXDCTL_ENABLE);
  _ ← write_reg Reg.TCTL (Z.lor (Z.lor (Z.lor TCTL_EN TCTL_PSP) TCTL_CT_VAL) TCTL_COLD_FD);
  _ ← write_reg Reg.TDT0 0;
  mret tt.

Definition init_interrupts : St unit :=
  _ ← read_reg Reg.ICR;
  _ ← write_reg Reg.IMS (Z.lor (Z.lor (Z.lor ICR_RXT0 ICR_TXDW) ICR_LSC) ICR_RXDMT0);
  mret tt.

Fixpoint clear_mta (n : nat) (i : Z) : St unit :=
  match n with O => mret tt | S n' => _ ← write_reg (Reg.MTA + i * 4) 0; clear_mta n' (i + 1) end.

Definition mac_word (mac : list Z) (ks : list nat) : Z :=
  foldr (λ k acc, Z.lor (default 0 (mac !! k)) (Z.shiftl acc 8)) 0 ks.

(** The registers, in the order of [init]; the last of it only reads for the log. *)
Definition init_registers : St (list Z) :=
  reset ;;
  mac ← read_mac_address;
  _ ← write_reg Reg.RAL0 (mac_word mac [0; 1; 2; 3]%nat);
  _ ← write_reg Reg.RAH0 (Z.lor (mac_word mac [4; 5]%nat) (Z.shiftl 1 31));
  clear_mta 128 0 ;;
  _ ← write_reg Reg.FCAL 0; _ ← write_reg Reg.FCAH 0; _ ← write_reg Reg.FCT 0; _ ← write_reg Reg.FCTTV 0;
  _ ← write_reg Reg.RXPBS RXPBS_DEFAULT; _ ← write_reg Reg.TXPBS TXPBS_DEFAULT;
  init_rx ;; init_tx ;; init_interrupts ;;
  set_flag Reg.CTRL (Z.lor CTRL_SLU CTRL_ASDE) ;;
  clear_flag Reg.CTRL (Z.lor (Z.lor CTRL_LRST CTRL_PHY_RST) CTRL_ILOS) ;;
  _ ← poll 50 Reg.STATUS (bit_set STATUS_LU);
  mret mac.

(** The rings as [init_rx] and [init_tx] set them up in zeroed memory *)
Definition new_dma : Dma :=
  mkDma ((λ i, mkRxDesc (rx_buf_addr i) 0) <$> seq 0 RING_SIZE) (repeat (zeros (Z.to_nat BUF_SIZE)) RING_SIZE)
        ((λ i, mkTxDesc (tx_buf_addr i) 0 0) <$> seq 0 RING_SIZE) (repeat (zeros (Z.to_nat BUF_SIZE)) RING_SIZE).

Definition new (h : H) : Igc * (H * Dma) :=
  let '(mac, h) := init_registers h in (mkIgc mac 0 (Z.of_nat RING_SIZE) 0 0, (h, new_dma)).

(** [irq], without its log *)
Definition irq : St bool := icr ← read_reg Reg.ICR; mret (bool_decide (icr ≠ 0)).

(** ** Receiving *)
Definition available_for_read (g : Igc) (m : Dma) : Z :=
  match rx_ring m !! receive_index g with
  | Some d => if bit_set RXDADV_STAT_DD (rx_status_error d) then rx_length d else 0
  | None => 0
  end.

(** The index of a descriptor is always one of the ring: the other branch is not taken. *)
Definition read_packet (buf_len : Z) (g : Igc) (w : H * Dma) : outcome (option string * (Igc * (H * Dma))) :=
  let '(h, m) := w in
  let i := receive_index g in
  match rx_ring m !! i, rx_bufs m !! i with
  | Some desc, Some buf =>
      if bit_set RXDADV_STAT_DD (rx_status_error desc) then
        if decide (len buf < rx_length desc) then Panics
        else
          let data := take_bytes (Z.to_nat (rx_length desc)) buf in
          let out := take_bytes (Z.to_nat (Z.min buf_len (len data))) data in
          let m := set_rx i (mkRxDesc (rx_buf_addr i) 0) m in
          let h := (write_reg Reg.RDT0 (Z.of_nat i) h).2 in
          Returns (Some out, (mkIgc (mac_address g) (next_index i) (transmit_ring_free g) (transmit_index g)
                                (transmit_clean_index g), (h, m)))
      else Returns (None, (g, w))
  | _, _ => Panics
  end.

(** ** Sending *)
Definition set_clean (g : Igc) : Igc :=
  mkIgc (mac_address g) (receive_index g) (transmit_ring_free g + 1) (transmit_index g) (next_index (transmit_clean_index g)).

(** The loop that takes descriptors back; the device goes on before each look.  [None] when it has not
    come to an end after [fuel] looks. *)
Fixpoint reclaim (fuel : nat) (g : Igc) (w : H * Dma) : option (Igc * (H * Dma)) :=
  match fuel with
  | O => None
  | S fuel' =>
      let w := elapse w in
      match tx_ring w.2 !! transmit_clean_index g with
      | Some desc =>
          if bit_set ADVTXD_STAT_DD (tx_status desc) then
            let g := set_clean g in
            if decide (Z.of_nat RING_SIZE ≤ transmit_ring_free g) then Some (g, w) else reclaim fuel' g w
          else if decide (0 < transmit_ring_free g) then Some (g, w)
          else if decide (Z.of_nat RING_SIZE ≤ transmit_ring_free g) then Some (g, w)
          else reclaim fuel' g w
      | None => None
      end
  end.

Definition write_packet (fuel : nat) (buf : string) (g : Igc) (w : H * Dma) : option (Z * (Igc * (H * Dma))) :=
  '(g, w) ← (if decide (transmit_ring_free g = 0) then reclaim fuel g w else Some (g, w));
  let '(h, m) := w in
  let t := transmit_index g in
  desc ← tx_ring m !! t;
  data ← tx_bufs m !! t;
  let i := Z.min (len buf) (len data) in
  let m := set_tx_buf t (take_bytes (Z.to_nat i) buf +:+ drop_bytes (Z.to_nat i) data) m in
  let cmd := Z.lor (Z.lor (Z.lor (Z.lor (Z.lor ADVTXD_DCMD_EOP ADVTXD_DCMD_RS) ADVTXD_DCMD_IFCS) ADVTXD_DCMD_DEXT) ADVTXD_DTYP_DATA) i in
  let m := set_tx t (mkTxDesc (tx_buffer_addr desc) cmd (wrap32 (Z.shiftl i ADVTXD_PAYLEN_SHIFT))) m in
  let g := mkIgc (mac_address g) (receive_index g) (transmit_ring_free g - 1) (next_index t) (transmit_clean_index g) in
  let h := (write_reg Reg.TDT0 (Z.of_nat (transmit_index g)) h).2 in
  Some (i, (g, (h, m))).

End driver.
