(* ===== verification/IgcFacts.v ===== *)
(** * Theorems on the Ethernet driver

    Both rings are queues between the driver and the device: frames are sent and received in order,
    each once.  A ring that is full of frames of which none was sent is taken for an empty one by
    the device. *)

From S2P Require Import Prelude RustStd Bytes Igc.
From stdpp Require Import relations.

Open Scope Z_scope.

(** ** Slots of a ring *)
(** Frames are counted from the start; the slot of a frame is its number around the ring. *)
Definition slot (j : nat) : nat := (j `mod` RING_SIZE)%nat.

Lemma slot_lt j : (slot j < RING_SIZE)%nat.
Proof. by apply Nat.mod_upper_bound. Qed.

Lemma slot_Z j : Z.of_nat (slot j) = Z.of_nat j `mod` 256.
Proof. unfold slot. rewrite Nat2Z.inj_mod. done. Qed.

Lemma next_slot j : next_index (slot j) = slot (S j).
Proof.
  unfold next_index, wrap_ring. apply Nat2Z.inj. rewrite slot_Z, Z2Nat.id.
  - rewrite slot_Z. change (Z.of_nat RING_SIZE - 1) with (Z.ones 8). rewrite Z.land_ones by lia.
    change (2^8) with 256. rewrite Z.add_mod_idemp_l by lia. f_equal. lia.
  - apply Z.land_nonneg. right. done.
Qed.

Lemma slot_inj i j : slot i = slot j → (i ≤ j < i + RING_SIZE)%nat → i = j.
Proof.
  intros He Hij. apply (f_equal Z.of_nat) in He. rewrite !slot_Z in He. unfold RING_SIZE in Hij.
  pose proof (Z.div_mod (Z.of_nat i) 256 ltac:(lia)). pose proof (Z.div_mod (Z.of_nat j) 256 ltac:(lia)).
  lia.
Qed.

Lemma slot_ne i j : (i < j < i + RING_SIZE)%nat → slot i ≠ slot j.
Proof. intros Hij He. apply slot_inj in He; lia. Qed.

Lemma slot_around j : slot (j + RING_SIZE) = slot j.
Proof.
  apply Nat2Z.inj. rewrite !slot_Z, Nat2Z.inj_add. change (Z.of_nat RING_SIZE) with (1 * 256).
  by rewrite Z.mod_add.
Qed.

(** ** The device *)
(** What can be told of a device: where the rings are and how many bytes they have, where it is
    in them, up to where it may go, and the frames that have left it and come to it *)
Record Seen : Type := mkSeen {
  tdbal : Z; tdbah : Z; tdlen : Z; tdh : nat; tdt : nat;
  rdbal : Z; rdbah : Z; rdlen : Z; rdh : nat; rdt : nat;
  sent : list string; received : list string;
}.

Definition set_tdt (v : nat) (o : Seen) : Seen :=
  mkSeen (tdbal o) (tdbah o) (tdlen o) (tdh o) v (rdbal o) (rdbah o) (rdlen o) (rdh o) (rdt o) (sent o) (received o).
Definition set_rdt (v : nat) (o : Seen) : Seen :=
  mkSeen (tdbal o) (tdbah o) (tdlen o) (tdh o) (tdt o) (rdbal o) (rdbah o) (rdlen o) (rdh o) v (sent o) (received o).

(** The slot after another in a ring of so many bytes, 16 for each descriptor *)
Definition next_of (bytes : Z) (i : nat) : nat := (S i `mod` Z.to_nat (bytes / 16))%nat.

Definition advance_tx (f : string) (o : Seen) : Seen :=
  mkSeen (tdbal o) (tdbah o) (tdlen o) (next_of (tdlen o) (tdh o)) (tdt o)
    (rdbal o) (rdbah o) (rdlen o) (rdh o) (rdt o) (sent o ++ [f]) (received o).
Definition advance_rx (f : string) (o : Seen) : Seen :=
  mkSeen (tdbal o) (tdbah o) (tdlen o) (tdh o) (tdt o)
    (rdbal o) (rdbah o) (rdlen o) (next_of (rdlen o) (rdh o)) (rdt o) (sent o) (received o ++ [f]).

(** After a reset the device has no ring, and nothing has come or gone. *)
Definition reset_seen : Seen := mkSeen 0 0 0 0 0 0 0 0 0 0 [] [].

(** What a write to a register makes of it *)
Definition written_reg (r v : Z) (o : Seen) : Seen :=
  let '(mkSeen tl th tn tb te rl rh rn rb re sn rc) := o in
  if decide (r = Reg.CTRL) then (if bit_set CTRL_RST v then reset_seen else o)
  else if decide (r = Reg.TDBAL0) then mkSeen v th tn tb te rl rh rn rb re sn rc
  else if decide (r = Reg.TDBAH0) then mkSeen tl v tn tb te rl rh rn rb re sn rc
  else if decide (r = Reg.TDLEN0) then mkSeen tl th v tb te rl rh rn rb re sn rc
  else if decide (r = Reg.TDH0) then mkSeen tl th tn (Z.to_nat v) te rl rh rn rb re sn rc
  else if decide (r = Reg.TDT0) then mkSeen tl th tn tb (Z.to_nat v) rl rh rn rb re sn rc
  else if decide (r = Reg.RDBAL0) then mkSeen tl th tn tb te v rh rn rb re sn rc
  else if decide (r = Reg.RDBAH0) then mkSeen tl th tn tb te rl v rn rb re sn rc
  else if decide (r = Reg.RDLEN0) then mkSeen tl th tn tb te rl rh v rb re sn rc
  else if decide (r = Reg.RDH0) then mkSeen tl th tn tb te rl rh rn (Z.to_nat v) re sn rc
  else if decide (r = Reg.RDT0) then mkSeen tl th tn tb te rl rh rn rb (Z.to_nat v) sn rc
  else o.

(** Registers that have nothing to do with the rings *)
Definition ring_regs : list Z :=
  [Reg.CTRL; Reg.TDBAL0; Reg.TDBAH0; Reg.TDLEN0; Reg.TDH0; Reg.TDT0; Reg.RDBAL0; Reg.RDBAH0; Reg.RDLEN0; Reg.RDH0; Reg.RDT0].

Lemma written_other r v o : r ∉ ring_regs → written_reg r v o = o.
Proof.
  intros Hr. unfold ring_regs in Hr. rewrite !not_elem_of_cons in Hr. unfold written_reg. destruct o.
  by rewrite !decide_False by naive_solver.
Qed.

Definition set_rx_buf (i : nat) (b : string) (m : Dma) : Dma := mkDma (rx_ring m) (<[i := b]> (rx_bufs m)) (tx_ring m) (tx_bufs m).

(** The bytes a descriptor has the device send *)
Definition dtalen (d : AdvTxDesc) : Z := Z.land (tx_cmd_type_len d) 0xFFFF.

(** ** The words of a descriptor *)
Definition send_flags : Z :=
  Z.lor (Z.lor (Z.lor (Z.lor ADVTXD_DCMD_EOP ADVTXD_DCMD_RS) ADVTXD_DCMD_IFCS) ADVTXD_DCMD_DEXT) ADVTXD_DTYP_DATA.

Lemma dtalen_flags addr i status : 0 ≤ i ≤ BUF_SIZE → dtalen (mkTxDesc addr (Z.lor send_flags i) status) = i.
Proof.
  intros Hi. unfold dtalen, BUF_SIZE in *. cbn [tx_cmd_type_len]. rewrite Z.land_lor_distr_l.
  change 0xFFFF with (Z.ones 16). rewrite !Z.land_ones by lia. change (send_flags `mod` 2^16) with 0.
  rewrite Z.lor_0_l. apply Z.mod_small. lia.
Qed.

Lemma payload_not_done i : bit_set ADVTXD_STAT_DD (wrap32 (Z.shiftl i ADVTXD_PAYLEN_SHIFT)) = false.
Proof.
  unfold bit_set, ADVTXD_STAT_DD, ADVTXD_PAYLEN_SHIFT, wrap32. change (Z.shiftl 1 0) with (Z.ones 1).
  rewrite bool_decide_eq_true_2; [done|]. rewrite Z.land_ones, Z.shiftl_mul_pow2 by lia.
  rewrite Z.mod_mod_divide by (by exists (2^31)).
  change (2^14) with (2^13 * 2^1). rewrite Z.mul_assoc. apply Z_mod_mult.
Qed.

(** What of a packet goes into a buffer *)
Definition payload (buf : string) : string := take_bytes (Z.to_nat BUF_SIZE) buf.

Lemma buffer_of buf data :
  len data = BUF_SIZE →
  let i := Z.min (len buf) (len data) in
  let b := take_bytes (Z.to_nat i) buf +:+ drop_bytes (Z.to_nat i) data in
  len b = BUF_SIZE ∧ take_bytes (Z.to_nat i) b = payload buf ∧ 0 ≤ i ≤ BUF_SIZE.
Proof.
  intros Hd i b. pose proof (len_nonneg buf). pose proof (eq_refl : BUF_SIZE = 2048). assert (0 ≤ i ≤ len buf ∧ i ≤ BUF_SIZE) as (Hi1 & Hi2) by (unfold i; lia).
  assert (String.length (take_bytes (Z.to_nat i) buf) = Z.to_nat i) as Hl.
  { rewrite length_take_bytes. unfold len in *. lia. }
  split; [|split; [|lia]].
  - unfold b. rewrite len_app, len_drop by lia. unfold len at 1. rewrite Hl. lia.
  - unfold b, payload. rewrite <- Hl at 1. rewrite take_bytes_app. destruct (decide (len buf ≤ BUF_SIZE)) as [Hs|Hs].
    + rewrite !take_all; [done|unfold len in *; lia|]. unfold i, len in *. lia.
    + replace i with BUF_SIZE by lia. done.
Qed.

Section device.
Context {H : Type} {PH : Physical} {DV : Device H} (look : H → Seen) (awake : H → Prop).
Implicit Types (h : H) (m : Dma) (g : Igc) (w : H * Dma).

(** The rings of the driver are those the device was told of. *)
Definition configured (o : Seen) : Prop :=
  tdbah o * 2^32 + tdbal o = tx_ring_addr ∧ tdlen o = 16 * Z.of_nat RING_SIZE
  ∧ rdbah o * 2^32 + rdbal o = rx_ring_addr ∧ rdlen o = 16 * Z.of_nat RING_SIZE.

(** One thing a device does by itself: it sends the frame of the descriptor it has come to, marks it
    as done and goes on; it stores a frame in the buffer of a descriptor and marks it; or nothing
    that can be seen.  It stops where its head meets the tail the driver has written. *)
Inductive device_move : H * Dma → H * Dma → Prop :=
  | move_send h m h' d j b cmd status :
      tdh (look h) ≠ tdt (look h) →
      tx_ring m !! tdh (look h) = Some d → (j < RING_SIZE)%nat → tx_buffer_addr d = tx_buf_addr j → tx_bufs m !! j = Some b →
      bit_set ADVTXD_STAT_DD status = true →
      look h' = advance_tx (take_bytes (Z.to_nat (dtalen d)) b) (look h) →
      device_move (h, m) (h', set_tx (tdh (look h)) (mkTxDesc (tx_buffer_addr d) cmd status) m)
  | move_receive h m h' d j b f d' :
      rdh (look h) ≠ rdt (look h) →
      rx_ring m !! rdh (look h) = Some d → (j < RING_SIZE)%nat → rx_pkt_addr d = rx_buf_addr j → rx_bufs m !! j = Some b →
      len f ≤ len b → rx_length d' = len f → bit_set RXDADV_STAT_DD (rx_status_error d') = true →
      look h' = advance_rx f (look h) →
      device_move (h, m) (h', set_rx (rdh (look h)) d' (set_rx_buf j (f +:+ drop_bytes (String.length f) b) m))
  | move_unseen h m h' : look h' = look h → device_move (h, m) (h', m).

(** What the driver relies on: with the rings where the driver has them, what a device does is
    a number of such moves; registers are what was written to them, a reset clears them, and
    when it is over ([awake]) the control register does not show its bit until it is set
    again.  Memory has addresses of 64 bits, every buffer another one. *)
Record Nic : Prop := mkNic {
  nic_elapse w : configured (look w.1) → rtc device_move w (elapse w);
  nic_read r h : look (mmio_read r h).2 = look h;
  nic_write r v h : look (mmio_write r v h) = written_reg r v (look h);
  nic_ctrl h : awake h → bit_set CTRL_RST (mmio_read Reg.CTRL h).1 = false;
  nic_awake_read r h : awake h → awake (mmio_read r h).2;
  nic_awake_write r v h : awake h → (r = Reg.CTRL → bit_set CTRL_RST v = false) → awake (mmio_write r v h);
  nic_rings : 0 ≤ tx_ring_addr < 2^64 ∧ 0 ≤ rx_ring_addr < 2^64;
  nic_tx_addr i j : (i < RING_SIZE)%nat → (j < RING_SIZE)%nat → tx_buf_addr i = tx_buf_addr j → i = j;
  nic_rx_addr i j : (i < RING_SIZE)%nat → (j < RING_SIZE)%nat → rx_buf_addr i = rx_buf_addr j → i = j;
}.

Context (nic : Nic).

Lemma nic_tdt v h : look (mmio_write Reg.TDT0 (Z.of_nat v) h) = set_tdt v (look h).
Proof using All. rewrite (nic_write nic). destruct (look h). simpl. unfold set_tdt. simpl. by rewrite Nat2Z.id. Qed.

Lemma nic_rdt v h : look (mmio_write Reg.RDT0 (Z.of_nat v) h) = set_rdt v (look h).
Proof using All. rewrite (nic_write nic). destruct (look h). simpl. unfold set_rdt. simpl. by rewrite Nat2Z.id. Qed.

Lemma next_slot_of j : next_of (16 * Z.of_nat RING_SIZE) (slot j) = slot (S j).
Proof using.
  unfold next_of. change (Z.to_nat _) with RING_SIZE. unfold slot. rewrite <- (Nat.add_1_r (j mod _)), <- (Nat.add_1_r j).
  by rewrite Nat.Div0.add_mod_idemp_l.
Qed.

Lemma move_configured w w' : device_move w w' → configured (look w.1) → configured (look w'.1).
Proof using.
  by intros [h m h' d j b cmd status ? ? ? ? ? ? Hl|h m h' d j b f d' ? ? ? ? ? ? ? ? Hl|h m h' Hl]; cbn [fst]; rewrite Hl.
Qed.

(** ** Invariants *)
(** Every slot of the ring, and its buffer of the full size *)
Definition tx_shape m : Prop :=
  length (tx_ring m) = RING_SIZE ∧ length (tx_bufs m) = RING_SIZE
  ∧ (∀ i d, tx_ring m !! i = Some d → tx_buffer_addr d = tx_buf_addr i)
  ∧ ∀ i b, tx_bufs m !! i = Some b → len b = BUF_SIZE.

(** A frame that waits in its slot *)
Definition tx_waits m (j : nat) (f : string) : Prop :=
  ∃ d b, tx_ring m !! slot j = Some d ∧ tx_bufs m !! slot j = Some b
    ∧ bit_set ADVTXD_STAT_DD (tx_status d) = false ∧ take_bytes (Z.to_nat (dtalen d)) b = f.

Definition tx_done m (j : nat) : Prop :=
  ∃ d, tx_ring m !! slot j = Some d ∧ bit_set ADVTXD_STAT_DD (tx_status d) = true.

(** The state of the ring, for the frames the driver has put into it, of which [s] are sent *)
Record tx_ring_ok (written : list string) (s : nat) (o : Seen) m : Prop := mkTxRing {
  tr_conf : configured o;
  tr_shape : tx_shape m;
  tr_sent : sent o = take s written;
  tr_le : (s ≤ length written ≤ s + RING_SIZE)%nat;
  tr_tdt : tdt o = slot (length written);
  tr_tdh : tdh o = slot s;
  tr_waits : ∀ j f, (s ≤ j)%nat → written !! j = Some f → tx_waits m j f;
}.

(** The driver's account of it, with [c] descriptors taken back *)
Record tx_driver_ok (written : list string) (c s : nat) g m : Prop := mkTxDriver {
  td_le : (c ≤ s)%nat;
  td_room : (length written ≤ c + RING_SIZE)%nat;
  td_index : transmit_index g = slot (length written);
  td_clean : transmit_clean_index g = slot c;
  td_free : transmit_ring_free g = Z.of_nat RING_SIZE - Z.of_nat (length written - c);
  td_done : ∀ j, (c ≤ j < s)%nat → tx_done m j;
}.

Definition tx_ok (written : list string) g w : Prop :=
  ∃ c s, tx_ring_ok written s (look w.1) w.2 ∧ tx_driver_ok written c s g w.2.

(** ** Moves of the device *)
Lemma slot_eq_dec_waits (s k : nat) : (s ≤ k ≤ s + RING_SIZE)%nat → slot s ≠ slot k → (s < k < s + RING_SIZE)%nat.
Proof.
  intros Hk Hne. destruct (decide (s = k)) as [->|]; [done|]. destruct (decide (k = s + RING_SIZE)%nat) as [->|]; [|lia].
  by rewrite slot_around in Hne.
Qed.

Lemma move_tx written c s g w w' :
  tx_ring_ok written s (look w.1) w.2 → tx_driver_ok written c s g w.2 → device_move w w' →
  ∃ s', (s ≤ s')%nat ∧ tx_ring_ok written s' (look w'.1) w'.2 ∧ tx_driver_ok written c s' g w'.2
    ∧ (length written = s + RING_SIZE → s' = s)%nat.
Proof.
  intros [Hconf Hshape Hsent Hle Htdt Htdh Hw] [Hcs Hroom Hi Hc Hf Hd] Hm.
  destruct Hm as [h m h' d j b cmd status Hne Hl Hj Ha Hb Hs Hlook|h m h' d j b f d' Hne Hl Hj Ha Hb Hf' Hlen Hs Hlook|h m h' Hlook];
    cbn [fst snd] in *.
  - rewrite Htdh, Htdt in Hne. pose proof (slot_eq_dec_waits _ _ Hle Hne) as Hlt.
    destruct (lookup_lt_is_Some_2 written s ltac:(lia)) as [f Hf'].
    destruct (Hw s f ltac:(done) Hf') as (d2 & b2 & Hd2 & Hb2 & _ & Hframe). rewrite Htdh in *.
    rewrite Hl in Hd2. injection Hd2 as <-.
    destruct Hshape as (Hlr & Hlb & Haddr & Hbuf). pose proof (Haddr _ _ Hl) as Ha2.
    assert (j = slot s) as -> by (apply (nic_tx_addr nic); [done|apply slot_lt|congruence]).
    rewrite Hb in Hb2. injection Hb2 as <-. rewrite Hframe in Hlook.
    exists (S s). split; [lia|]. split; [|split; [|intros; lia]].
    + constructor; rewrite ?Hlook; cbn [sent tdt tdh advance_tx]; try done; try lia.
      * split_and!; cbn [tx_ring tx_bufs set_tx]; [by rewrite length_insert|done| |done].
        intros i d3. rewrite list_lookup_insert_Some. intros [(<- & <- & _)|[_ ?]]; [done|by apply Haddr].
      * rewrite Hsent. symmetry. by apply take_S_r.
      * destruct Hconf as (_ & Hlen & _). rewrite Hlen, Htdh. apply next_slot_of.
      * intros i fi Hi2 Hfi. destruct (Hw i fi ltac:(lia) Hfi) as (d3 & b3 & Hd3 & Hb3 & Hdd & Hfr).
        exists d3, b3. cbn [tx_ring tx_bufs set_tx]. rewrite list_lookup_insert_ne; [done|].
        apply lookup_lt_Some in Hfi. apply slot_ne. lia.
    + constructor; try done; try lia. intros i Hi2. destruct (decide (slot i = slot s)) as [He|He].
      * exists (mkTxDesc (tx_buffer_addr d) cmd status). cbn [tx_ring set_tx]. rewrite He, list_lookup_insert_eq; [done|].
        rewrite Hlr. apply slot_lt.
      * destruct (Hd i) as (d3 & Hd3 & Hdd); [destruct (decide (i = s)); [by subst|lia]|].
        exists d3. cbn [tx_ring set_tx]. by rewrite list_lookup_insert_ne by done.
  - exists s. split; [done|]. split; [|split; [|done]]; constructor; rewrite ?Hlook; done.
  - exists s. split; [done|]. split; [|split; [|done]]; constructor; rewrite ?Hlook; done.
Qed.

Lemma elapse_tx written c s g w :
  tx_ring_ok written s (look w.1) w.2 → tx_driver_ok written c s g w.2 →
  ∃ s', (s ≤ s')%nat ∧ tx_ring_ok written s' (look (elapse w).1) (elapse w).2 ∧ tx_driver_ok written c s' g (elapse w).2
    ∧ (length written = s + RING_SIZE → s' = s)%nat.
Proof.
  intros H1 H2. pose proof (nic_elapse nic w (tr_conf _ _ _ _ H1)) as Hm. revert s H1 H2.
  induction Hm as [w|w w1 w2 Hmv _ IH]; intros s H1 H2; [exists s; by split_and!|].
  destruct (move_tx written c s g w w1 H1 H2 Hmv) as (s1 & Hs1 & H3 & H4 & Hfull).
  destruct (IH s1 H3 H4) as (s2 & Hs2 & H5 & H6 & Hfull2).
  exists s2. split; [lia|]. split; [done|]. split; [done|]. intros Hl. rewrite Hfull2, Hfull; [done|done|].
  by rewrite Hfull.
Qed.

(** ** Taking descriptors back *)
Lemma tx_done_not_waiting m j f : tx_done m j → tx_waits m j f → False.
Proof. intros (d & Hd & H1) (d' & b & Hd' & _ & H2 & _). congruence. Qed.

(** What one look finds at the oldest descriptor that was not taken back *)
Lemma oldest written c s g o m :
  tx_ring_ok written s o m → tx_driver_ok written c s g m → (c < length written)%nat →
  ∃ d, tx_ring m !! transmit_clean_index g = Some d ∧ bit_set ADVTXD_STAT_DD (tx_status d) = bool_decide (c < s)%nat.
Proof.
  intros Hr Hd Hc. rewrite (td_clean _ _ _ _ _ Hd). destruct (decide (c < s)%nat) as [Hs|Hs].
  - destruct (td_done _ _ _ _ _ Hd c) as (d & Hl & Hb); [lia|]. exists d. by rewrite bool_decide_eq_true_2 by done.
  - destruct (lookup_lt_is_Some_2 written c Hc) as [f Hf]. pose proof (td_le _ _ _ _ _ Hd).
    destruct (tr_waits _ _ _ _ Hr c f) as (d & b & Hl & _ & Hb & _); [lia|done|].
    exists d. by rewrite bool_decide_eq_false_2 by done.
Qed.

Lemma set_clean_ok written c s g m :
  tx_driver_ok written c s g m → (c < s)%nat → (s ≤ length written)%nat → tx_driver_ok written (S c) s (set_clean g) m.
Proof.
  intros [Hcs Hroom Hi Hc Hf Hd] Hlt Hsl. constructor; cbn [transmit_index transmit_clean_index transmit_ring_free set_clean];
    [lia|lia|done| | |].
  - rewrite Hc. apply next_slot.
  - rewrite Hf. lia.
  - intros j Hj. apply Hd. lia.
Qed.

Lemma reclaim_ok fuel written c s g w g' w' :
  tx_ring_ok written s (look w.1) w.2 → tx_driver_ok written c s g w.2 → (c < length written)%nat →
  reclaim fuel g w = Some (g', w') →
  ∃ c' s', tx_ring_ok written s' (look w'.1) w'.2 ∧ tx_driver_ok written c' s' g' w'.2 ∧ 0 < transmit_ring_free g'.
Proof.
  revert c s g w. induction fuel as [|fuel IH]; intros c s g w Hr Hd Hc; [done|]. cbn [reclaim].
  destruct (elapse_tx written c s g w Hr Hd) as (s1 & Hs1 & Hr1 & Hd1 & _).
  destruct (oldest written c s1 g _ _ Hr1 Hd1 Hc) as (d & -> & ->).
  destruct (decide (c < s1)%nat) as [Hlt|Hlt].
  - rewrite bool_decide_eq_true_2 by done. pose proof (tr_le _ _ _ _ Hr1).
    pose proof (set_clean_ok _ _ _ _ _ Hd1 Hlt ltac:(lia)) as Hd2.
    pose proof (td_free _ _ _ _ _ Hd2) as Hfree. case_decide as Hfull.
    + intros [= <- <-]. exists (S c), s1. split; [done|]. split; [done|]. unfold RING_SIZE in *. lia.
    + apply IH with (S c) s1; [done..|]. unfold RING_SIZE in *. lia.
  - rewrite bool_decide_eq_false_2 by done. case_decide as Hfree; [|case_decide as Hfull].
    + intros [= <- <-]. by exists c, s1.
    + unfold RING_SIZE in *. lia.
    + by apply IH with c s1.
Qed.

(** It comes to an end when a frame was sent, and cannot when the device takes the ring for empty. *)
Lemma reclaim_ends fuel written c s g w :
  tx_ring_ok written s (look w.1) w.2 → tx_driver_ok written c s g w.2 → (c < length written)%nat →
  0 < transmit_ring_free g ∨ (c < s)%nat → (length written - c < fuel)%nat → is_Some (reclaim fuel g w).
Proof.
  revert c s g w. induction fuel as [|fuel IH]; intros c s g w Hr Hd Hc Hp Hf; [lia|]. cbn [reclaim].
  destruct (elapse_tx written c s g w Hr Hd) as (s1 & Hs1 & Hr1 & Hd1 & _).
  destruct (oldest written c s1 g _ _ Hr1 Hd1 Hc) as (d & -> & ->).
  destruct (decide (c < s1)%nat) as [Hlt|Hlt].
  - rewrite bool_decide_eq_true_2 by done. pose proof (tr_le _ _ _ _ Hr1).
    pose proof (set_clean_ok _ _ _ _ _ Hd1 Hlt ltac:(lia)) as Hd2.
    pose proof (td_free _ _ _ _ _ Hd2) as Hfree. case_decide as Hfull; [by eexists|].
    pose proof (td_room _ _ _ _ _ Hd1).
    apply IH with (S c) s1; [done|done| | |]; unfold RING_SIZE in *; lia.
  - rewrite bool_decide_eq_false_2 by done. rewrite decide_True; [by eexists|]. destruct Hp; [done|lia].
Qed.

Lemma reclaim_stuck fuel written c s g w :
  tx_ring_ok written s (look w.1) w.2 → tx_driver_ok written c s g w.2 →
  length written = (s + RING_SIZE)%nat → reclaim fuel g w = None.
Proof.
  intros Hr Hd Hl. revert w Hr Hd. induction fuel as [|fuel IH]; intros w Hr Hd; [done|]. cbn [reclaim].
  destruct (elapse_tx written c s g w Hr Hd) as (s1 & Hs1 & Hr1 & Hd1 & Hs). specialize (Hs Hl) as ->.
  pose proof (td_room _ _ _ _ _ Hd1). pose proof (td_le _ _ _ _ _ Hd1). assert (c = s) as -> by lia.
  destruct (oldest written s s g _ _ Hr1 Hd1) as (d & -> & ->); [unfold RING_SIZE in *; lia|].
  rewrite bool_decide_eq_false_2 by lia. pose proof (td_free _ _ _ _ _ Hd1) as Hf.
  replace (length written - s)%nat with RING_SIZE in Hf by lia. rewrite !decide_False by (unfold RING_SIZE in *; lia).
  by apply IH.
Qed.

(** ** Sending *)
(** The driver puts a packet into the next slot and moves the tail. *)
Lemma put_ok written c s g h m buf data desc :
  tx_ring_ok written s (look h) m → tx_driver_ok written c s g m → 0 < transmit_ring_free g →
  tx_ring m !! transmit_index g = Some desc → tx_bufs m !! transmit_index g = Some data →
  let t := transmit_index g in
  let i := Z.min (len buf) (len data) in
  let d := mkTxDesc (tx_buffer_addr desc) (Z.lor send_flags i) (wrap32 (Z.shiftl i ADVTXD_PAYLEN_SHIFT)) in
  let m' := set_tx t d (set_tx_buf t (take_bytes (Z.to_nat i) buf +:+ drop_bytes (Z.to_nat i) data) m) in
  let g' := mkIgc (mac_address g) (receive_index g) (transmit_ring_free g - 1) (next_index t) (transmit_clean_index g) in
  let h' := (write_reg Reg.TDT0 (Z.of_nat (next_index t)) h).2 in
  tx_ring_ok (written ++ [payload buf]) s (look h') m' ∧ tx_driver_ok (written ++ [payload buf]) c s g' m'.
Proof.
  intros [Hconf Hshape Hsent Hle Htdt Htdh Hw] [Hcs Hroom Hi Hc Hf Hd] Hfree Hdesc Hdata t i d m' g' h'.
  destruct Hshape as (Hlr & Hlb & Haddr & Hbuf). pose proof (Hbuf _ _ Hdata) as Hdl.
  destruct (buffer_of buf data Hdl) as (Hb1 & Hb2 & Hb3). fold i in Hb1, Hb2, Hb3.
  set (b := take_bytes (Z.to_nat i) buf +:+ drop_bytes (Z.to_nat i) data) in *.
  assert (length written < c + RING_SIZE)%nat as Hlt by (unfold RING_SIZE in *; lia).
  assert (t = slot (length written)) as Ht by done.
  assert (look h' = set_tdt (slot (S (length written))) (look h)) as Hlook.
  { unfold h', write_reg. by rewrite (nic_read nic), nic_tdt, Ht, next_slot. }
  assert (t < length (tx_ring m))%nat as Htl by (rewrite Hlr, Ht; apply slot_lt).
  assert (t < length (tx_bufs m))%nat as Htb by (rewrite Hlb, Ht; apply slot_lt).
  assert (∀ j, (c ≤ j < length written)%nat → slot j ≠ t) as Hother.
  { intros j Hj. rewrite Ht. apply slot_ne. lia. }
  split; constructor; rewrite ?Hlook, ?length_app; cbn [length sent tdt tdh set_tdt tx_ring tx_bufs set_tx set_tx_buf m' g'
      transmit_index transmit_clean_index transmit_ring_free]; try done; try lia.
  - unfold m'. split_and!; cbn [tx_ring tx_bufs set_tx set_tx_buf]; [by rewrite length_insert|by rewrite length_insert| |].
    + intros j d2. rewrite list_lookup_insert_Some. intros [(<- & <- & _)|[_ ?]]; [exact (Haddr _ _ Hdesc)|by apply Haddr].
    + intros j b2. rewrite list_lookup_insert_Some. intros [(<- & <- & _)|[_ ?]]; [done|by eapply Hbuf].
  - rewrite take_app_le by lia. done.
  - rewrite Nat.add_1_r. done.
  - intros j f Hj. rewrite lookup_app_Some. intros [Hj2|[Hj1 Hj2]].
    + destruct (Hw j f Hj Hj2) as (d2 & b2 & Hd2 & Hbb & Hdd & Hfr). apply lookup_lt_Some in Hj2.
      pose proof (Hother j ltac:(lia)). exists d2, b2. unfold m'. cbn [tx_ring tx_bufs set_tx set_tx_buf].
      by rewrite !list_lookup_insert_ne by done.
    + apply list_lookup_singleton_Some in Hj2 as [Hj3 <-]. assert (j = length written) as -> by lia.
      exists d, b. unfold m'. cbn [tx_ring tx_bufs set_tx set_tx_buf]. rewrite <- Ht, !list_lookup_insert_eq by done.
      split_and!; [done|done|apply payload_not_done|]. unfold d. by rewrite dtalen_flags.
  - rewrite Ht, next_slot, Nat.add_1_r. done.
  - intros j Hj. destruct (Hd j Hj) as (d2 & Hd2 & Hdd). pose proof (Hother j ltac:(lia)). exists d2.
    unfold m'. cbn [tx_ring set_tx set_tx_buf]. by rewrite list_lookup_insert_ne by done.
Qed.

Lemma write_packet_ok fuel buf written g w i g' w' :
  tx_ok written g w → write_packet fuel buf g w = Some (i, (g', w')) → tx_ok (written ++ [payload buf]) g' w'.
Proof.
  intros (c & s & Hr & Hd). unfold write_packet.
  destruct (if decide (transmit_ring_free g = 0) then _ else _) as [[g1 w1]|] eqn:E; [|done]. cbn [mbind option_bind].
  assert (∃ c1 s1, tx_ring_ok written s1 (look w1.1) w1.2 ∧ tx_driver_ok written c1 s1 g1 w1.2 ∧ 0 < transmit_ring_free g1)
    as (c1 & s1 & Hr1 & Hd1 & Hfree).
  { pose proof (td_free _ _ _ _ _ Hd) as Hf. pose proof (td_room _ _ _ _ _ Hd).
    case_decide as Hz.
    - eapply reclaim_ok; [exact Hr|exact Hd| |exact E]. unfold RING_SIZE in *. lia.
    - injection E as <- <-. exists c, s. split; [done|]. split; [done|]. unfold RING_SIZE in *. lia. }
  destruct w1 as [h m]. cbn [fst snd] in *.
  destruct (tx_ring m !! transmit_index g1) as [desc|] eqn:Hdesc; [|done]. cbn [mbind option_bind].
  destruct (tx_bufs m !! transmit_index g1) as [data|] eqn:Hdata; [|done]. cbn [mbind option_bind].
  intros [= <- <- <-]. destruct (put_ok written c1 s1 g1 h m buf data desc Hr1 Hd1 Hfree Hdesc Hdata) as [H1 H2].
  exists c1, s1. by split.
Qed.

(** ** Receiving *)
Definition rx_shape m : Prop :=
  length (rx_ring m) = RING_SIZE ∧ length (rx_bufs m) = RING_SIZE ∧ ∀ i b, rx_bufs m !! i = Some b → len b = BUF_SIZE.

(** A frame that waits for the driver, and a slot that waits for a frame *)
Definition rx_holds m (j : nat) (f : string) : Prop :=
  ∃ d b, rx_ring m !! slot j = Some d ∧ rx_bufs m !! slot j = Some b
    ∧ bit_set RXDADV_STAT_DD (rx_status_error d) = true ∧ rx_length d = len f ∧ take_bytes (String.length f) b = f.

Definition rx_free m (j : nat) : Prop :=
  ∃ d, rx_ring m !! slot j = Some d ∧ rx_pkt_addr d = rx_buf_addr (slot j) ∧ bit_set RXDADV_STAT_DD (rx_status_error d) = false.

(** The state of the ring when the driver has taken [r] frames *)
Record rx_ok (r : nat) g (o : Seen) m : Prop := mkRxRing {
  rr_conf : configured o;
  rr_shape : rx_shape m;
  rr_le : (r ≤ length (received o) < r + RING_SIZE)%nat;
  rr_index : receive_index g = slot r;
  rr_rdh : rdh o = slot (length (received o));
  rr_rdt : rdt o = slot (r + (RING_SIZE - 1));
  rr_holds : ∀ j f, (r ≤ j)%nat → received o !! j = Some f → rx_holds m j f;
  rr_free : ∀ j, (length (received o) ≤ j < r + RING_SIZE)%nat → rx_free m j;
}.

Lemma move_rx r g w w' : rx_ok r g (look w.1) w.2 → device_move w w' → rx_ok r g (look w'.1) w'.2.
Proof.
  intros [Hconf Hshape Hle Hi Hh Ht Hholds Hfree] Hm.
  destruct Hm as [h m h' d j b cmd status _ _ _ _ _ _ Hlook|h m h' d j b f d' Hne Hl Hj Ha Hb Hf' Hlen Hs Hlook|h m h' Hlook];
    cbn [fst snd] in *; [by constructor; rewrite ?Hlook| |by constructor; rewrite ?Hlook].
  set (v := length (received (look h))) in *.
  assert (v < r + (RING_SIZE - 1))%nat as Hv.
  { destruct (decide (v = r + (RING_SIZE - 1))%nat) as [He|]; [|unfold RING_SIZE in *; lia]. by rewrite Hh, Ht, He in Hne. }
  destruct (Hfree v) as (d2 & Hd2 & Ha2 & _); [unfold RING_SIZE in *; lia|]. rewrite Hh in *.
  rewrite Hl in Hd2. injection Hd2 as <-.
  assert (j = slot v) as -> by (apply (nic_rx_addr nic); [done|apply slot_lt|congruence]).
  destruct Hshape as (Hlr & Hlb & Hbuf). pose proof (Hbuf _ _ Hb) as Hbl.
  assert (len (f +:+ drop_bytes (String.length f) b) = BUF_SIZE) as Hnew.
  { rewrite len_app. pose proof (len_nonneg f). replace (String.length f) with (Z.to_nat (len f)) by (unfold len; lia).
    rewrite len_drop by lia. lia. }
  constructor; rewrite ?Hlook; cbn [received rdh rdt advance_rx]; rewrite ?length_app; fold v; cbn [length]; try done; try (unfold RING_SIZE in *; lia).
  - split_and!; cbn [rx_ring rx_bufs set_rx set_rx_buf]; [by rewrite length_insert|by rewrite length_insert|].
    intros i b2. rewrite list_lookup_insert_Some. intros [(<- & <- & _)|[_ ?]]; [done|by eapply Hbuf].
  - destruct Hconf as (_ & _ & _ & Hrl). rewrite Nat.add_1_r, Hrl, Hh. apply next_slot_of.
  - intros i fi Hri. rewrite lookup_app_Some. intros [Hi2|[Hi1 Hi2]].
    + destruct (Hholds i fi Hri Hi2) as (d3 & b3 & Hd3 & Hb3 & Hx). apply lookup_lt_Some in Hi2. fold v in Hi2.
      assert (slot i ≠ slot v) by (apply slot_ne; unfold RING_SIZE in *; lia).
      exists d3, b3. cbn [rx_ring rx_bufs set_rx set_rx_buf]. by rewrite !list_lookup_insert_ne by done.
    + apply list_lookup_singleton_Some in Hi2 as [Hi3 <-]. fold v in Hi1, Hi3. assert (i = v) as -> by lia.
      eexists d', _. cbn [rx_ring rx_bufs set_rx set_rx_buf].
      rewrite !list_lookup_insert_eq by (rewrite ?Hlr, ?Hlb; apply slot_lt). split_and!; [done..|].
      apply take_bytes_app.
  - intros i Hi2. destruct (Hfree i) as (d3 & Hd3 & Hx); [lia|]. exists d3.
    cbn [rx_ring set_rx set_rx_buf]. rewrite list_lookup_insert_ne; [done|]. apply slot_ne. unfold RING_SIZE in *. lia.
Qed.

Lemma elapse_rx r g w : rx_ok r g (look w.1) w.2 → rx_ok r g (look (elapse w).1) (elapse w).2.
Proof.
  intros Hr. pose proof (nic_elapse nic w (rr_conf _ _ _ _ Hr)) as Hm.
  induction Hm as [w|w w1 w2 Hmv _ IH]; [done|]. by eapply IH, move_rx.
Qed.

(** The driver takes the oldest frame and gives its slot back, or there is none. *)
Lemma read_packet_ok r g w n :
  rx_ok r g (look w.1) w.2 →
  match received (look w.1) !! r with
  | Some f => ∃ g' w', read_packet n g w = Returns (Some (take_bytes (Z.to_nat (Z.min n (len f))) f), (g', w'))
      ∧ rx_ok (S r) g' (look w'.1) w'.2
      ∧ tx_ring w'.2 = tx_ring w.2 ∧ tx_bufs w'.2 = tx_bufs w.2 ∧ look w'.1 = set_rdt (slot r) (look w.1)
      ∧ transmit_ring_free g' = transmit_ring_free g ∧ transmit_index g' = transmit_index g
      ∧ transmit_clean_index g' = transmit_clean_index g
  | None => read_packet n g w = Returns (None, (g, w))
  end.
Proof.
  intros [Hconf Hshape Hle Hi Hh Ht Hholds Hfree]. destruct Hshape as (Hlr & Hlb & Hbuf). destruct w as [h m].
  cbn [fst snd] in *. unfold read_packet. rewrite Hi.
  destruct (received (look h) !! r) as [f|] eqn:Hf.
  - destruct (Hholds r f ltac:(done) Hf) as (d & b & -> & Hb & -> & Hlen & Htake). rewrite Hb, Hlen.
    assert (len f ≤ len b) as Hfb.
    { rewrite <- Htake. unfold len. rewrite length_take_bytes. lia. }
    rewrite decide_False by lia.
    assert (take_bytes (Z.to_nat (len f)) b = f) as -> by (by unfold len; rewrite Nat2Z.id).
    assert (look (write_reg Reg.RDT0 (Z.of_nat (slot r)) h).2 = set_rdt (slot r) (look h)) as Hlook.
    { unfold write_reg. by rewrite (nic_read nic), nic_rdt. }
    eexists _, _. split; [reflexivity|]. split; [|by split_and!]. cbn [fst snd]. apply lookup_lt_Some in Hf.
    constructor; rewrite ?Hlook; cbn [received rdh rdt set_rdt receive_index]; try done; try (unfold RING_SIZE in *; lia).
    + split_and!; cbn [rx_ring rx_bufs set_rx]; [by rewrite length_insert|done|done].
    + apply next_slot.
    + replace (S r + (RING_SIZE - 1))%nat with (r + RING_SIZE)%nat by (unfold RING_SIZE; lia). by rewrite slot_around.
    + intros j fj Hj Hfj. destruct (Hholds j fj ltac:(lia) Hfj) as (d3 & b3 & Hd3 & Hb3 & Hx). apply lookup_lt_Some in Hfj.
      exists d3, b3. cbn [rx_ring rx_bufs set_rx]. rewrite list_lookup_insert_ne; [done|]. apply slot_ne. lia.
    + intros j Hj. destruct (decide (j = r + RING_SIZE)%nat) as [->|Hne].
      * exists (mkRxDesc (rx_buf_addr (slot r)) 0). cbn [rx_ring set_rx]. rewrite slot_around, list_lookup_insert_eq; [done|].
        rewrite Hlr. apply slot_lt.
      * destruct (Hfree j) as (d3 & Hd3 & Hx); [lia|]. exists d3. cbn [rx_ring set_rx].
        rewrite list_lookup_insert_ne; [done|]. apply slot_ne. lia.
  - apply lookup_ge_None in Hf. destruct (Hfree r) as (d & -> & _ & ->); [unfold RING_SIZE in *; lia|].
    destruct (lookup_lt_is_Some_2 (rx_bufs m) (slot r)) as [b ->]; [rewrite Hlb; apply slot_lt|]. done.
Qed.

(** ** The start *)
Section starting.
#[local] Existing Instances St_ret St_bind.

(** What a sequence of register accesses makes of the rings, while some condition stays *)
Definition does (P : H → Prop) (o : Seen) {A} (m : St (H := H) A) (o' : Seen) : Prop :=
  ∀ h, P h → look h = o → P (m h).2 ∧ look (m h).2 = o'.

(** A register by its number *)
Ltac other_reg := apply (bool_decide_unpack _); vm_compute; exact I.

Section does.
Context (P : H → Prop) (Pread : ∀ r h, P h → P (mmio_read r h).2)
  (Pwrite : ∀ r v h, P h → (r = Reg.CTRL → bit_set CTRL_RST v = false) → P (mmio_write r v h)).

Lemma does_ret {A} (a : A) o : does P o (mret a) o.
Proof using. by intros h. Qed.

Lemma does_bind {A B} (m : St A) (k : A → St B) o1 o2 o3 :
  does P o1 m o2 → (∀ a, does P o2 (k a) o3) → does P o1 (m ≫= k) o3.
Proof using.
  intros Hm Hk h Hh Ho. unfold mbind, St_bind. destruct (Hm h Hh Ho) as [H1 H2]. destruct (m h) as [a h1].
  cbn [snd] in *. by apply Hk.
Qed.

Lemma does_read r o : does P o (read_reg r) o.
Proof using nic Pread. intros h Hh <-. split; [by apply Pread|apply (nic_read nic)]. Qed.

Lemma does_write r v o : (r = Reg.CTRL → bit_set CTRL_RST v = false) → does P o (write_reg r v) (written_reg r v o).
Proof using nic Pread Pwrite.
  intros Hr h Hh <-. unfold write_reg. split; [by apply Pread, Pwrite|]. by rewrite (nic_read nic), (nic_write nic).
Qed.

Lemma does_other r v o : r ∉ ring_regs → does P o (write_reg r v) o.
Proof using nic Pread Pwrite.
  intros Hr h Hh Ho. destruct (does_write r v o) with h as [H1 H2]; [|done|done|].
  - intros ->. destruct Hr. by left.
  - split; [done|]. by rewrite H2, written_other.
Qed.

Lemma does_poll n r p o : does P o (poll n r p) o.
Proof using nic Pread.
  induction n as [|n IH]; [apply does_ret|]. cbn [poll]. apply (does_bind _ _ o o o); [apply does_read|].
  intros v. destruct (p v); [apply does_ret|exact IH].
Qed.

Lemma does_set_flag r flag o : r ∉ ring_regs → does P o (set_flag r flag) o.
Proof using nic Pread Pwrite.
  intros Hr. apply (does_bind _ _ o o o); [apply does_read|]. intros v.
  apply (does_bind _ _ o o o); [by apply does_other|]. intros _. apply does_ret.
Qed.
End does.

Lemma does_reset h : look (reset h).2 = reset_seen.
Proof using nic.
  enough (does (λ _, True) (look h) reset reset_seen) as Hd by by apply Hd.
  assert (∀ n r p o, does (λ _, True) o (poll n r p) o) as Hpoll by (intros; by apply does_poll).
  assert (∀ r v o, r ∉ ring_regs → does (λ _, True) o (write_reg r v) o) as Hw.
  { intros r v o Hr h1 _ <-. unfold write_reg. by rewrite (nic_read nic), (nic_write nic), written_other. }
  assert (∀ o, does (λ _, True) o (set_flag Reg.CTRL CTRL_RST) reset_seen) as Hf.
  { intros o h1 _ _. split; [done|]. unfold set_flag, mbind, St_bind, read_reg, write_reg.
    destruct (mmio_read Reg.CTRL h1) as [v h2].
    set (h3 := mmio_write _ _ h2). pose proof (nic_read nic Reg.CTRL h3) as H3.
    destruct (mmio_read Reg.CTRL h3) as [v3 h4]. cbn [snd] in *. cbn [mret St_ret snd]. rewrite H3. unfold h3.
    rewrite (nic_write nic). unfold written_reg. destruct (look h2). rewrite decide_True by done.
    assert (bit_set CTRL_RST (Z.lor v CTRL_RST) = true) as ->; [|done].
    unfold bit_set. rewrite Z.land_lor_distr_l, Z.land_diag. rewrite bool_decide_eq_false_2; [done|].
    intros [_ He]%Z.lor_eq_0_iff. discriminate. }
  unfold reset. eapply does_bind; [apply Hw; other_reg|intros _].
  eapply does_bind; [apply Hf|intros _]. eapply does_bind; [apply Hpoll|intros _].
  eapply does_bind; [apply Hw; other_reg|intros _]. eapply does_bind; [by apply does_read|intros _]. apply does_ret.
Qed.

(** The control register while the reset is over: its other bits are changed. *)
Lemma does_set_ctrl flag o : Z.land flag CTRL_RST = 0 → does awake o (set_flag Reg.CTRL flag) o.
Proof using nic.
  intros Hf h Hh <-. unfold set_flag, mbind, St_bind, read_reg.
  pose proof (nic_read nic Reg.CTRL h) as H1. pose proof (nic_ctrl nic h Hh) as H2. pose proof (nic_awake_read nic Reg.CTRL h Hh) as H3.
  destruct (mmio_read Reg.CTRL h) as [v h2]. cbn [fst snd] in *.
  assert (bit_set CTRL_RST (Z.lor v flag) = false) as Hb.
  { unfold bit_set in *. rewrite Z.land_lor_distr_l, Hf, Z.lor_0_r. done. }
  destruct (does_write awake (nic_awake_read nic) (nic_awake_write nic) Reg.CTRL (Z.lor v flag) _ (λ _, Hb) h2 H3 eq_refl) as [H4 H5].
  destruct (write_reg Reg.CTRL _ h2) as [v4 h4]. cbn [snd mret St_ret] in *. split; [done|]. rewrite H5, <- H1.
  unfold written_reg. destruct (look h2). by rewrite decide_True, Hb.
Qed.

Lemma does_clear_ctrl flag o : does awake o (clear_flag Reg.CTRL flag) o.
Proof using nic.
  intros h Hh <-. unfold clear_flag, mbind, St_bind, read_reg.
  pose proof (nic_read nic Reg.CTRL h) as H1. pose proof (nic_ctrl nic h Hh) as H2. pose proof (nic_awake_read nic Reg.CTRL h Hh) as H3.
  destruct (mmio_read Reg.CTRL h) as [v h2]. cbn [fst snd] in *.
  assert (bit_set CTRL_RST (Z.land v (2^32 - 1 - flag)) = false) as Hb.
  { unfold bit_set in *. apply negb_false_iff, bool_decide_eq_true in H2. rewrite <- Z.land_assoc, (Z.land_comm _ CTRL_RST), Z.land_assoc, H2.
    done. }
  destruct (does_write awake (nic_awake_read nic) (nic_awake_write nic) Reg.CTRL _ _ (λ _, Hb) h2 H3 eq_refl) as [H4 H5].
  destruct (write_reg Reg.CTRL _ h2) as [v4 h4]. cbn [snd mret St_ret] in *. split; [done|]. rewrite H5, <- H1.
  unfold written_reg. destruct (look h2). by rewrite decide_True, Hb.
Qed.

(** The rest of the start, register by register *)
Ltac laws := first [exact (nic_awake_read nic) | exact (nic_awake_write nic)].
Ltac next := eapply does_bind; [|intros ?].
Ltac quiet_step := next; [apply does_other; [laws|laws|other_reg]|].
Ltac ring_step := next; [apply does_write; [laws|laws|done]|].
Ltac flag_step := next; [apply does_set_flag; [laws|laws|other_reg]|].
Ltac poll_step := next; [apply does_poll; laws|].
Ltac read_step := next; [apply does_read; laws|].

Definition rx_started (o : Seen) : Seen :=
  written_reg Reg.RDT0 (Z.of_nat RING_SIZE - 1) (written_reg Reg.RDH0 0
    (written_reg Reg.RDLEN0 (Z.of_nat RING_SIZE * 16)
      (written_reg Reg.RDBAL0 (wrap32 rx_ring_addr) (written_reg Reg.RDBAH0 (wrap32 (Z.shiftr rx_ring_addr 32)) o)))).
Definition tx_started (o : Seen) : Seen :=
  written_reg Reg.TDT0 0 (written_reg Reg.TDH0 0
    (written_reg Reg.TDLEN0 (Z.of_nat RING_SIZE * 16)
      (written_reg Reg.TDBAL0 (wrap32 tx_ring_addr) (written_reg Reg.TDBAH0 (wrap32 (Z.shiftr tx_ring_addr 32)) o)))).

Lemma does_init_rx o : does awake o init_rx (rx_started o).
Proof using nic.
  unfold init_rx, rx_started. quiet_step. do 4 ring_step. flag_step. poll_step. quiet_step. ring_step. apply does_ret.
Qed.

Lemma does_init_tx o : does awake o init_tx (tx_started o).
Proof using nic.
  unfold init_tx, tx_started. do 4 ring_step. flag_step. poll_step. quiet_step. ring_step. apply does_ret.
Qed.

Lemma does_nvm offset o : does awake o (read_nvm_word offset) o.
Proof using nic. unfold read_nvm_word. quiet_step. poll_step. apply does_ret. Qed.

Lemma does_mac o : does awake o read_mac_address o.
Proof using nic.
  unfold read_mac_address. do 3 (next; [apply does_nvm|]).
  assert (∀ mac : Z → Z → list Z, does awake o (low ← read_reg Reg.RAL0; high ← read_reg Reg.RAH0; mret (mac low high)) o) as Hf.
  { intros mac. do 2 read_step. apply does_ret. }
  destruct a as [w0|]; [|by apply (Hf (λ low high, [_; _; _; _; _; _]))].
  destruct a0 as [w1|]; [|by apply (Hf (λ low high, [_; _; _; _; _; _]))].
  destruct a1 as [w2|]; [|by apply (Hf (λ low high, [_; _; _; _; _; _]))].
  case_decide; [apply does_ret|by apply (Hf (λ low high, [_; _; _; _; _; _]))].
Qed.

Lemma does_mta n i : 0 ≤ i → i + Z.of_nat n ≤ 128 → ∀ o, does awake o (clear_mta n i) o.
Proof using nic.
  revert i. induction n as [|n IH]; intros i Hi Hn o; [apply does_ret|]. cbn [clear_mta].
  next.
  - apply does_other; [laws|laws|].
    unfold ring_regs, Reg.MTA. rewrite !not_elem_of_cons. cbv [Reg.CTRL Reg.TDBAL0 Reg.TDBAH0 Reg.TDLEN0 Reg.TDH0 Reg.TDT0
      Reg.RDBAL0 Reg.RDBAH0 Reg.RDLEN0 Reg.RDH0 Reg.RDT0]. split_and!; try lia. apply not_elem_of_nil.
  - apply IH; lia.
Qed.

(** All of it: the rings are set up, and nothing has come or gone. *)
Lemma does_init h : awake (reset h).2 → look (init_registers h).2 = tx_started (rx_started reset_seen).
Proof using nic.
  intros Hr. unfold init_registers. unfold mbind at 1, St_bind at 1. pose proof (does_reset h) as Hl.
  destruct (reset h) as [u h1]. cbn [snd] in *.
  match goal with |- look (?m h1).2 = _ => enough (does awake reset_seen m (tx_started (rx_started reset_seen))) as Hd by by apply Hd end.
  next; [apply does_mac|]. do 2 quiet_step. next; [by apply does_mta|]. do 6 quiet_step.
  next; [apply does_init_rx|]. next; [apply does_init_tx|].
  next; [unfold init_interrupts; read_step; quiet_step; apply does_ret|].
  next; [by apply does_set_ctrl|]. next; [apply does_clear_ctrl|]. poll_step. apply does_ret.
Qed.
End starting.

(** ** Histories *)
(** The driver and the device after the start: both rings empty, all of the first the device's but
    for one slot *)
Definition started g w : Prop :=
  receive_index g = 0%nat ∧ transmit_index g = 0%nat ∧ transmit_clean_index g = 0%nat
  ∧ transmit_ring_free g = Z.of_nat RING_SIZE ∧ w.2 = new_dma ∧ configured (look w.1)
  ∧ tdh (look w.1) = 0%nat ∧ tdt (look w.1) = 0%nat ∧ rdh (look w.1) = 0%nat ∧ rdt (look w.1) = (RING_SIZE - 1)%nat
  ∧ sent (look w.1) = [] ∧ received (look w.1) = [].

Lemma address_halves a : 0 ≤ a < 2^64 → wrap32 (Z.shiftr a 32) * 2^32 + wrap32 a = a.
Proof using.
  intros Ha. unfold wrap32. rewrite Z.shiftr_div_pow2 by lia. rewrite (Z.mod_small (a / 2^32)).
  - pose proof (Z.div_mod a (2^32)). lia.
  - split; [apply Z.div_pos; lia|]. apply Z.div_lt_upper_bound; lia.
Qed.

(** That is where [new] leaves them, whatever the device was doing before. *)
Lemma new_started h : awake (reset h).2 → started (new h).1 (new h).2.
Proof using nic.
  intros Hr. unfold new. pose proof (does_init h Hr) as Hl. destruct (init_registers h) as [mac h1]. cbn [fst snd] in *.
  destruct (nic_rings nic) as [Ht Hx]. unfold started. cbn [fst snd]. rewrite Hl.
  split_and!; try done. split_and!; [exact (address_halves _ Ht)|done|exact (address_halves _ Hx)|done].
Qed.

(** What the network stack has had sent and has taken, with the room it had, the newest last *)
Inductive history : list string → list (Z * string) → Igc → H * Dma → Prop :=
  | h_start h : awake (reset h).2 → history [] [] (new h).1 (new h).2
  | h_wait written taken g w : history written taken g w → history written taken g (elapse w)
  | h_write written taken g w fuel buf i g' w' :
      history written taken g w → write_packet fuel buf g w = Some (i, (g', w')) → history (written ++ [buf]) taken g' w'
  | h_read written taken g w n out g' w' :
      history written taken g w → read_packet n g w = Returns (Some out, (g', w')) → history written (taken ++ [(n, out)]) g' w'
  | h_no_frame written taken g w n g' w' :
      history written taken g w → read_packet n g w = Returns (None, (g', w')) → history written taken g' w'.

Lemma new_bufs_len i b : repeat (zeros (Z.to_nat BUF_SIZE)) RING_SIZE !! i = Some b → len b = BUF_SIZE.
Proof.
  intros Hb. apply list_elem_of_lookup_2, list_elem_of_In, repeat_spec in Hb as ->. unfold len. by rewrite length_zero_bytes.
Qed.

Lemma new_dma_ring i : (i < RING_SIZE)%nat → rx_ring new_dma !! i = Some (mkRxDesc (rx_buf_addr i) 0).
Proof. intros Hi. unfold new_dma. cbn [rx_ring]. rewrite list_lookup_fmap, lookup_seq_lt by done. done. Qed.

Lemma started_ok g w : started g w → tx_ok [] g w ∧ rx_ok 0 g (look w.1) w.2.
Proof.
  intros (Hr & Ht & Hc & Hf & Hm & Hconf & Hl1 & Hl2 & Hl3 & Hl4 & Hl5 & Hl6). split.
  - exists 0%nat, 0%nat. split; constructor; rewrite ?Hm, ?Hl1, ?Hl2, ?Hl5, ?Ht, ?Hc, ?Hf; try done; try (simpl; lia).
    split_and!; [done|done| |exact new_bufs_len]. intros i d. unfold new_dma. cbn [tx_ring]. rewrite list_lookup_fmap.
    destruct (seq 0 RING_SIZE !! i) as [j|] eqn:E; [|done]. apply lookup_seq in E as [-> _]. by intros [= <-].
  - constructor; rewrite ?Hm, ?Hl3, ?Hl4, ?Hl6, ?Hr; try done; try (simpl; unfold RING_SIZE; lia).
    + split_and!; [done|done|exact new_bufs_len].
    + intros j Hj. exists (mkRxDesc (rx_buf_addr (slot j)) 0). rewrite new_dma_ring by apply slot_lt. done.
Qed.

(** Neither of the two rings is touched by the operations on the other. *)
Lemma reclaim_rx fuel r g w g' w' :
  reclaim fuel g w = Some (g', w') → rx_ok r g (look w.1) w.2 → rx_ok r g' (look w'.1) w'.2.
Proof.
  revert g w. induction fuel as [|fuel IH]; intros g w; [done|]. cbn [reclaim]. intros E Hr. apply elapse_rx in Hr.
  assert (rx_ok r (set_clean g) (look (elapse w).1) (elapse w).2) as Hr2 by (destruct Hr; by constructor).
  destruct (tx_ring _ !! _) as [d|]; [|done]. repeat case_match; try done; try (injection E as <- <-; done); eauto.
Qed.

Lemma write_packet_rx fuel buf r g w i g' w' :
  write_packet fuel buf g w = Some (i, (g', w')) → rx_ok r g (look w.1) w.2 → rx_ok r g' (look w'.1) w'.2.
Proof.
  unfold write_packet. destruct (if decide (transmit_ring_free g = 0) then _ else _) as [[g1 w1]|] eqn:E; [|done].
  cbn [mbind option_bind]. intros Hw Hr. assert (rx_ok r g1 (look w1.1) w1.2) as Hr1.
  { case_decide; [by eapply reclaim_rx|by injection E as <- <-]. }
  destruct w1 as [h m]. destruct (tx_ring m !! _) as [d|]; [|done]. cbn [mbind option_bind] in Hw.
  destruct (tx_bufs m !! _) as [b|]; [|done]. cbn [mbind option_bind] in Hw. injection Hw as <- <- <-.
  cbn [fst snd] in *. destruct Hr1.
  assert (look (write_reg Reg.TDT0 (Z.of_nat (next_index (transmit_index g1))) h).2 = set_tdt (next_index (transmit_index g1)) (look h))
    as Hlook by (unfold write_reg; by rewrite (nic_read nic), nic_tdt).
  by constructor; rewrite ?Hlook.
Qed.

Lemma read_packet_tx written g w g' w' r :
  tx_ok written g w → tx_ring w'.2 = tx_ring w.2 → tx_bufs w'.2 = tx_bufs w.2 → look w'.1 = set_rdt (slot r) (look w.1) →
  transmit_ring_free g' = transmit_ring_free g → transmit_index g' = transmit_index g →
  transmit_clean_index g' = transmit_clean_index g → tx_ok written g' w'.
Proof.
  intros (c & s & [[Hconf Hshape Hsent Hle Htdt Htdh Hw] [Hcs Hroom Hi Hc Hf Hd]]) Hr Hb Hl H1 H2 H3.
  exists c, s. split; constructor; unfold tx_shape, tx_waits, tx_done in *; rewrite ?Hr, ?Hb, ?Hl, ?H1, ?H2, ?H3; done.
Qed.

Lemma received_grows w w' : rtc device_move w w' → received (look w.1) `prefix_of` received (look w'.1).
Proof.
  induction 1 as [w|w w1 w2 Hm _ IH]; [done|]. etrans; [|exact IH].
  destruct Hm as [h m h' d j b cmd status ? ? ? ? ? ? Hl|h m h' d j b f d' ? ? ? ? ? ? ? ? Hl|h m h' Hl]; cbn [fst snd]; rewrite Hl; try done. by eexists.
Qed.

Lemma reclaim_received fuel g w g' w' :
  reclaim fuel g w = Some (g', w') → configured (look w.1) →
  received (look w.1) `prefix_of` received (look w'.1).
Proof.
  revert g w. induction fuel as [|fuel IH]; intros g w; [done|]. cbn [reclaim]. intros E Hc.
  pose proof (nic_elapse nic w Hc) as Hm. pose proof (received_grows _ _ Hm) as Hp.
  assert (configured (look (elapse w).1)) as Hc2.
  { clear -Hm Hc. induction Hm as [w|w w1 w2 Hmv _ IH]; [done|]. by eapply IH, move_configured. }
  destruct (tx_ring _ !! _) as [d|]; [|done].
  repeat case_match; try done; try (by injection E as <- <-); (etrans; [exact Hp|by eapply IH]).
Qed.

Lemma write_packet_received fuel buf g w i g' w' :
  write_packet fuel buf g w = Some (i, (g', w')) → configured (look w.1) →
  received (look w.1) `prefix_of` received (look w'.1).
Proof.
  unfold write_packet. destruct (if decide (transmit_ring_free g = 0) then _ else _) as [[g1 w1]|] eqn:E; [|done].
  cbn [mbind option_bind]. intros Hw Hc. assert (received (look w.1) `prefix_of` received (look w1.1)) as Hp.
  { case_decide; [by eapply reclaim_received|by injection E as <- <-]. }
  etrans; [exact Hp|]. destruct w1 as [h m]. destruct (tx_ring m !! _) as [d|]; [|done]. cbn [mbind option_bind] in Hw.
  destruct (tx_bufs m !! _) as [b|]; [|done]. cbn [mbind option_bind] in Hw. injection Hw as <- <- <-.
  cbn [fst]. unfold write_reg. by rewrite (nic_read nic), nic_tdt.
Qed.

(** The bytes of a frame that a read with so much room returns *)
Definition cut (t : Z * string) (f : string) : Prop := t.2 = take_bytes (Z.to_nat (Z.min t.1 (len f))) f.

Lemma history_ok written taken g w :
  history written taken g w →
  tx_ok (payload <$> written) g w ∧ rx_ok (length taken) g (look w.1) w.2
  ∧ ∃ frames, frames `prefix_of` received (look w.1) ∧ Forall2 cut taken frames.
Proof.
  induction 1 as [h Hs|written taken g w _ IH|written taken g w fuel buf i g' w' _ IH Hw|written taken g w n out g' w' _ IH Hr
                 |written taken g w n g' w' _ IH Hr].
  - destruct (started_ok _ _ (new_started h Hs)) as [H1 H2]. split; [done|]. split; [done|]. exists []. split; [apply prefix_nil|constructor].
  - destruct IH as ((c & s & H1 & H2) & H3 & frames & H4 & H5).
    destruct (elapse_tx _ _ _ _ _ H1 H2) as (s' & _ & H1' & H2' & _). split; [by exists c, s'|].
    split; [by apply elapse_rx|]. exists frames. split; [|done]. etrans; [exact H4|]. apply received_grows, (nic_elapse nic), (tr_conf _ _ _ _ H1).
  - destruct IH as (H1 & H3 & frames & H4 & H5). rewrite fmap_app. split; [by eapply write_packet_ok|].
    split; [by eapply write_packet_rx|]. exists frames. split; [|done]. etrans; [exact H4|].
    eapply write_packet_received; [exact Hw|apply (rr_conf _ _ _ _ H3)].
  - destruct IH as (H1 & H3 & frames & H4 & H5). pose proof (read_packet_ok _ _ _ n H3) as Hok.
    destruct (received (look w.1) !! length taken) as [f|] eqn:Hf; [|congruence].
    destruct Hok as (g2 & w2 & E & Hrx & Hx1 & Hx2 & Hl & Hx3 & Hx4 & Hx5). rewrite E in Hr. injection Hr as <- <- <-.
    split; [by eapply read_packet_tx|]. rewrite length_app, Nat.add_1_r. split; [done|].
    exists (frames ++ [f]). split; [|apply Forall2_app; [done|by repeat constructor]].
    rewrite Hl. cbn [received set_rdt]. pose proof (Forall2_length _ _ _ H5) as Hlen.
    destruct H4 as [rest Hrest]. rewrite Hrest in Hf |- *. rewrite lookup_app_r in Hf by lia.
    rewrite Hlen, Nat.sub_diag in Hf. destruct rest as [|f' rest]; [done|]. injection Hf as ->. exists rest.
    by rewrite <- app_assoc.
  - destruct IH as (H1 & H3 & frames & H4 & H5). pose proof (read_packet_ok _ _ _ n H3) as Hok.
    destruct (received (look w.1) !! length taken); [destruct Hok as (? & ? & E & _); by rewrite E in Hr|].
    rewrite Hok in Hr. injection Hr as <- <-. split; [done|]. split; [done|]. by exists frames.
Qed.

End device.

(** ** A concrete device, with a link that is up or down *)
Module IgcDemo.

(** What is seen of the device, the frames on their way to it, and its link *)
Record nic : Type := mkNicState { n_seen : Seen; n_wire : list string; n_link : bool }.

Definition see (f : Seen → Seen) (h : nic) : nic := mkNicState (f (n_seen h)) (n_wire h) (n_link h).

#[local] Instance memory : Physical := {|
  rx_buf_addr i := Z.of_nat i * BUF_SIZE;
  tx_buf_addr i := Z.of_nat i * BUF_SIZE;
  rx_ring_addr := 0x101000000;
  tx_ring_addr := 0x101001000;
|}.

(** The buffer at an address *)
Definition buf_at (addr : Z) : option nat :=
  let j := Z.to_nat (addr / BUF_SIZE) in
  if decide (Z.of_nat j * BUF_SIZE = addr ∧ (j < RING_SIZE)%nat) then Some j else None.

Definition send_one (w : nic * Dma) : nic * Dma :=
  let '(h, m) := w in
  let o := n_seen h in
  if decide (n_link h = true ∧ tdh o ≠ tdt o) then
    match (d ← tx_ring m !! tdh o; j ← buf_at (tx_buffer_addr d); b ← tx_bufs m !! j; Some (d, b)) with
    | Some (d, b) =>
        (see (advance_tx (take_bytes (Z.to_nat (dtalen d)) b)) h,
         set_tx (tdh o) (mkTxDesc (tx_buffer_addr d) (tx_cmd_type_len d) 1) m)
    | None => w
    end
  else w.

Definition receive_one (w : nic * Dma) : nic * Dma :=
  let '(h, m) := w in
  let o := n_seen h in
  match n_wire h with
  | f :: wire =>
      if decide (rdh o ≠ rdt o) then
        match (d ← rx_ring m !! rdh o; j ← buf_at (rx_pkt_addr d); b ← rx_bufs m !! j; Some (j, b)) with
        | Some (j, b) =>
            if decide (len f ≤ len b ∧ len f < 2^16) then
              (mkNicState (advance_rx f o) wire (n_link h),
               set_rx (rdh o) (mkRxDesc 0 (len f * 2^32 + 1)) (set_rx_buf j (f +:+ drop_bytes (String.length f) b) m))
            else w
        | None => w
        end
      else w
  | [] => w
  end.

(** Its flags are set at once, and a reset is over at once. *)
Definition flag_of (r : Z) : Z :=
  if decide (r = Reg.RXDCTL0) then RXDCTL_ENABLE else if decide (r = Reg.TXDCTL0) then TXDCTL_ENABLE
  else if decide (r = Reg.STATUS) then STATUS_LU else if decide (r = Reg.EERD) then 0x12340002 else 0.

#[local] Instance device : Device nic := {|
  mmio_read r h := (flag_of r, h);
  mmio_write r v h := see (written_reg r v) h;
  elapse w := receive_one (send_one w);
|}.

Lemma buf_at_Some addr j : buf_at addr = Some j → addr = Z.of_nat j * BUF_SIZE ∧ (j < RING_SIZE)%nat.
Proof. unfold buf_at. case_decide as Hd; [|done]. intros [= <-]. by destruct Hd. Qed.

Lemma send_one_moves w : rtc (device_move n_seen) w (send_one w).
Proof.
  destruct w as [h m]. unfold send_one. case_decide as Hd; [|done].
  destruct (tx_ring m !! tdh (n_seen h)) as [d|] eqn:Ed; [|done]. cbn [mbind option_bind].
  destruct (buf_at (tx_buffer_addr d)) as [j|] eqn:Ej; [|done]. cbn [mbind option_bind].
  destruct (tx_bufs m !! j) as [b|] eqn:Eb; [|done]. cbn [mbind option_bind]. apply rtc_once.
  apply buf_at_Some in Ej as [Ha Hj]. eapply (move_send n_seen h m _ d j b); try done. by destruct Hd.
Qed.

Lemma receive_one_moves w : rtc (device_move n_seen) w (receive_one w).
Proof.
  destruct w as [h m]. unfold receive_one. destruct (n_wire h) as [|f wire]; [done|]. case_decide as Hd; [|done].
  destruct (rx_ring m !! rdh (n_seen h)) as [d|] eqn:Ed; [|done]. cbn [mbind option_bind].
  destruct (buf_at (rx_pkt_addr d)) as [j|] eqn:Ej; [|done]. cbn [mbind option_bind].
  destruct (rx_bufs m !! j) as [b|] eqn:Eb; [|done]. cbn [mbind option_bind]. case_decide as Hf; [|done]. apply rtc_once.
  apply buf_at_Some in Ej as [Ha Hj]. destruct Hf as [Hf1 Hf2]. pose proof (len_nonneg f).
  eapply (move_receive n_seen h m _ d j b f); try done.
  - unfold rx_length. cbn [rx_hdr_addr]. rewrite Z.div_add_l by lia. rewrite Z.add_0_r. apply Z.mod_small. lia.
  - unfold rx_status_error. cbn [rx_hdr_addr]. rewrite Z.add_comm, Z.mod_add by lia. done.
Qed.

Lemma device_is_nic : Nic n_seen (λ _, True).
Proof.
  constructor; try done.
  - intros w _. etrans; [apply send_one_moves|apply receive_one_moves].
  - intros i j _ _. simpl. unfold BUF_SIZE. lia.
  - intros i j _ _. simpl. unfold BUF_SIZE. lia.
Qed.

(** ** Histories *)
(** A device as another driver may have left it *)
Definition found (wire : list string) (link : bool) : nic :=
  mkNicState (mkSeen 16 0 64 3 1 32 0 64 2 3 ["before"] ["also before"]) wire link.
Definition start (wire : list string) (link : bool) : Igc * (nic * Dma) := new (found wire link).

Definition put (fuel : nat) (buf : string) (s : option (Igc * (nic * Dma))) : option (Igc * (nic * Dma)) :=
  '(g, w) ← s; '(_, s') ← write_packet fuel buf g w; Some s'.

Definition wait (s : option (Igc * (nic * Dma))) : option (Igc * (nic * Dma)) := '(g, w) ← s; Some (g, elapse w).

Example started_up : mac_address (start [] true).1 = [0x34; 0x12; 0x34; 0x12; 0x34; 0x12]
  ∧ n_seen (start [] true).2.1 = mkSeen 0x1001000 1 4096 0 0 0x1000000 1 4096 0 255 [] [].
Proof. split; vm_compute; reflexivity. Qed.

Example sent_in_order :
  (λ s : Igc * (nic * Dma), sent (n_seen s.2.1)) <$> wait (wait (put 257 "world" (put 257 "hello" (Some (start [] true)))))
  = Some ["hello"; "world"].
Proof. vm_compute. reflexivity. Qed.

Example taken_in_order :
  (let '(g, w) := start ["ping"; "pong"] true in
   match read_packet 3 g (elapse (elapse w)) with
   | Returns (a, (g, w)) => match read_packet 1500 g w with Returns (b, _) => Some (a, b) | Panics => None end
   | Panics => None
   end) = Some (Some "pin", Some "pong").
Proof. vm_compute. reflexivity. Qed.


(** While the link is down the ring fills; the device takes the full ring for an empty one, and the
    driver hangs in the next write, also when the link is up again. *)
Definition filled : option (Igc * (nic * Dma)) := Nat.iter 256 (put 1 "x") (Some (start [] false)).

Definition link_up (s : Igc * (nic * Dma)) : Igc * (nic * Dma) :=
  (s.1, (mkNicState (n_seen s.2.1) (n_wire s.2.1) true, s.2.2)).

Example full_ring_hangs :
  (λ s : Igc * (nic * Dma), (tdh (n_seen s.2.1), tdt (n_seen s.2.1))) <$> filled = Some (0, 0)%nat
  ∧ put 1000 "x" (link_up <$> filled) = None.
Proof. split; vm_compute; reflexivity. Qed.
End IgcDemo.
