(* ===== verification/Iroh.v ===== *)
(** * The iroh daemon ([irohd/src])

    The daemon serves messages of peers as a scheme.  The thread of the scheme asks the thread of
    the iroh runtime for what is of the network; incoming messages are kept per peer in queues the
    two share.  The iroh endpoint and the JSON parser are parameters. *)

From S2P Require Import Prelude RustStd FileSys Bytes HandleId ProxyIo SchemeHandles.

Open Scope Z_scope.

(** ** The other thread ([bridge.rs]) *)
Inductive BridgeRequest : Type :=
  | SendMessage (node_id data : string)
  | FetchBlob (hash : string)
  | FetchTicket (ticket : string)
  | GetNodeId
  | DrainInbox (node_id : string).

(** The text of an error is only logged. *)
Inductive BridgeResponse : Type :=
  | RespOk
  | RespData (data : string)
  | RespNodeId (id : string)
  | RespMessages (msgs : list string)
  | RespError.

(** The endpoint: [None] is an error. *)
Class Endpoint (W Node Conn Stream : Type) : Type := {
  node_from_str : string → option Node;
  endpoint_connect : Node → W → option Conn * W;
  open_bi : Conn → W → option Stream * W;
  write_all : Stream → string → W → bool * W;
  finish : Stream → W → bool * W;
  read_ack : Stream → W → W;
}.

Record Runtime (W : Type) : Type := mkRuntime {
  rt_world : W;
  rt_inbox : gmap string (list string);
}.
Arguments mkRuntime {W}.
Arguments rt_world {W}.
Arguments rt_inbox {W}.

Section runtime.
Context {W Node Conn Stream : Type} {EP : Endpoint W Node Conn Stream}.

Definition send_message (node_id_hex data : string) (w : W) : BridgeResponse * W :=
  match node_from_str node_id_hex with
  | None => (RespError, w)
  | Some node_id =>
      match endpoint_connect node_id w with
      | (None, w) => (RespError, w)
      | (Some conn, w) =>
          match open_bi conn w with
          | (None, w) => (RespError, w)
          | (Some stream, w) =>
              match write_all stream data w with
              | (false, w) => (RespError, w)
              | (true, w) =>
                  match finish stream w with
                  | (false, w) => (RespError, w)
                  | (true, w) => (RespOk, read_ack stream w)
                  end
              end
          end
      end
  end.

Definition set_world (w : W) (rt : Runtime W) : Runtime W := mkRuntime w (rt_inbox rt).
Definition set_inbox (q : gmap string (list string)) (rt : Runtime W) : Runtime W := mkRuntime (rt_world rt) q.

(** The loop of [run_iroh]: one request *)
Definition serve_request (node_id : string) (req : BridgeRequest) (rt : Runtime W) : BridgeResponse * Runtime W :=
  match req with
  | GetNodeId => (RespNodeId node_id, rt)
  | SendMessage to data => let '(resp, w) := send_message to data (rt_world rt) in (resp, set_world w rt)
  | FetchBlob _ => (RespError, rt)
  | FetchTicket _ => (RespError, rt)
  | DrainInbox from =>
      match rt_inbox rt !! from with
      | Some q => (RespMessages q, set_inbox (<[from := []]> (rt_inbox rt)) rt)
      | None => (RespMessages [], rt)
      end
  end.

(** [accept_loop]: a stream of a peer was read to its end, at most [limit] bytes of it *)
Definition limit : Z := 1024 * 1024.

Definition accept (peer_id data : string) (rt : Runtime W) : Runtime W :=
  if decide (limit < len data ∨ data = "") then rt
  else set_inbox (<[peer_id := default [] (rt_inbox rt !! peer_id) ++ [data]]> (rt_inbox rt)) rt.

End runtime.

(** ** Handles ([handles.rs]) *)
Record BlobHandle : Type := mkBlobHandle {
  bh_identifier : string; bh_data : string; bh_fetched : bool; bh_scheme_path : string;
}.

(** The read cursors and the inbox of a handle are never used. *)
Inductive Handle : Type :=
  | HNode (node_id : string)
  | HPeer (peer_name node_id outbox scheme_path : string)
  | HBlob (b : BlobHandle)
  | HTicket (b : BlobHandle)
  | HControl (buffer : string)
  | HDir (scheme_path dir_type : string).

Record IrohTable : Type := mkIrohTable { it_handles : gmap Z Handle; it_next : Z }.

Definition iroh_table : IrohTable := mkIrohTable ∅ 0.
Definition alloc (h : Handle) (tb : IrohTable) : Z * IrohTable :=
  (it_next tb, mkIrohTable (<[it_next tb := h]> (it_handles tb)) (wrap64 (it_next tb + 1))).

Definition open_node (node_id : string) := alloc (HNode node_id).
Definition open_peer (peer_name node_id scheme_path : string) := alloc (HPeer peer_name node_id "" scheme_path).
Definition open_blob (identifier scheme_path : string) := alloc (HBlob (mkBlobHandle identifier "" false scheme_path)).
Definition open_ticket (identifier scheme_path : string) := alloc (HTicket (mkBlobHandle identifier "" false scheme_path)).
Definition open_control := alloc (HControl "").
Definition open_dir (scheme_path dir_type : string) := alloc (HDir scheme_path dir_type).

(** ** The scheme ([scheme.rs]) *)
(** [serde_json::Value], and the order in which a [HashMap] gives its keys *)
Class IrohJson (J : Type) : Type := {
  json_parse : string → option J;
  json_get : J → string → option J;
  json_str : J → option string;
  hash_keys : gmap string string → list string;
}.

Record IrohSchemeHandler (W : Type) : Type := mkIroh {
  ih_table : IrohTable;
  ih_node_id : string;
  ih_peers : gmap string string;
  ih_peers_reverse : gmap string string;
  ih_runtime : Runtime W;
}.
Arguments mkIroh {W}.
Arguments ih_table {W}.
Arguments ih_node_id {W}.
Arguments ih_peers {W}.
Arguments ih_peers_reverse {W}.
Arguments ih_runtime {W}.

Definition ascii_hexdigit (c : ascii) : bool :=
  let b := Z.of_N (Str.byte c) in bool_decide (48 ≤ b ≤ 57 ∨ 65 ≤ b ≤ 70 ∨ 97 ≤ b ≤ 102).

Record IrohStat : Type := mkIrohStat { is_mode : Z; is_size : Z; is_nlink : Z }.

Module Iroh.
Section scheme.
Context {W Node Conn Stream J : Type} {EP : Endpoint W Node Conn Stream} {JS : IrohJson J} {ABI : SyscallAbi}.

Definition St : Type := IrohSchemeHandler W.
Implicit Types (s : St).

(** Later entries of the map win where two peers have one number. *)
Definition new (node_id : string) (peers : gmap string string) (w : W) : St :=
  mkIroh iroh_table node_id peers
    (foldl (λ m name, match peers !! name with Some id => <[id := name]> m | None => m end) ∅ (hash_keys peers))
    (mkRuntime w ∅).

Definition set_table (tb : IrohTable) s : St :=
  mkIroh tb (ih_node_id s) (ih_peers s) (ih_peers_reverse s) (ih_runtime s).
Definition set_runtime (rt : Runtime W) s : St :=
  mkIroh (ih_table s) (ih_node_id s) (ih_peers s) (ih_peers_reverse s) rt.
Definition set_peers (peers reverse : gmap string string) s : St :=
  mkIroh (ih_table s) (ih_node_id s) peers reverse (ih_runtime s).

Definition handle_at (id : Z) s : option Handle := it_handles (ih_table s) !! id.
Definition put_handle (id : Z) (h : Handle) s : St :=
  set_table (mkIrohTable (<[id := h]> (it_handles (ih_table s))) (it_next (ih_table s))) s.

Definition resolve_peer (name_or_id : string) s : option (string * string) :=
  match ih_peers s !! name_or_id with
  | Some node_id => Some (name_or_id, node_id)
  | None =>
      if decide (len name_or_id = 64) then
        if Str.all_chars ascii_hexdigit name_or_id
        then Some (default name_or_id (ih_peers_reverse s !! name_or_id), name_or_id)
        else None
      else None
  end.

(** [get(key).and_then(as_str).unwrap_or("")] *)
Definition str_field (v : J) (key : string) : string := default "" (json_get v key ≫= json_str).

Definition add_peer (val : J) s : St :=
  match json_get val "addPeer" with
  | Some add =>
      let name := str_field add "name" in
      let id := str_field add "id" in
      if decide (name ≠ "" ∧ id ≠ "")
      then set_peers (<[name := id]> (ih_peers s)) (<[id := name]> (ih_peers_reverse s)) s
      else s
  | None => s
  end.

Definition remove_peer (val : J) s : St :=
  match json_get val "removePeer" with
  | Some rm =>
      let name := str_field rm "name" in
      if decide (name ≠ "") then
        match ih_peers s !! name with
        | Some id => set_peers (base.delete name (ih_peers s)) (base.delete id (ih_peers_reverse s)) s
        | None => s
        end
      else s
  | None => s
  end.

Definition process_control (command : string) s : St :=
  match json_parse command with
  | Some val => remove_peer val (add_peer val s)
  | None => s
  end.

(** A request of the scheme answers or fails. *)
Definition opened (open : IrohTable → Z * IrohTable) s : result errno Z * St :=
  let '(id, tb) := open (ih_table s) in (Ok id, set_table tb s).

Definition scheme_root s : result errno Z * St := opened (open_dir "" "root") s.

Definition openat (p : string) (flags : Z) s : result errno Z * St :=
  let p := Str.trim_matches "/" p in
  if decide (p = "") then opened (open_dir "" "root") s
  else if decide (p = "node") then opened (open_node (ih_node_id s)) s
  else if decide (p = ".control") then opened open_control s
  else if decide (p = "peers") then opened (open_dir "peers" "peers") s
  else if decide (p = "blobs") then opened (open_dir "blobs" "blobs") s
  else
    match Str.strip_prefix "peers/" p with
    | Some name_or_id =>
        match resolve_peer name_or_id s with
        | None => (Err ENOENT, s)
        | Some (peer_name, node_id) =>
            if decide (Z.land flags O_DIRECTORY ≠ 0) then (Err ENOTDIR, s) else opened (open_peer peer_name node_id p) s
        end
    | None =>
        match Str.strip_prefix "blobs/" p with
        | Some hash => opened (open_blob hash p) s
        | None =>
            match Str.strip_prefix "tickets/" p with
            | Some ticket => opened (open_ticket ticket p) s
            | None => (Err ENOENT, s)
            end
        end
    end.

(** A request to the other thread, and the wait for its answer *)
Definition ask_runtime (req : BridgeRequest) s : BridgeResponse * St :=
  let '(resp, rt) := serve_request (ih_node_id s) req (ih_runtime s) in (resp, set_runtime rt s).

Definition read_blob (id : Z) (b : BlobHandle) (of_blob : BlobHandle → Handle) (req : BridgeRequest)
    (buf_len offset : Z) s : result errno string * St :=
  if bh_fetched b then (Ok (slice (bh_data b) offset buf_len), s)
  else
    match ask_runtime req s with
    | (RespData data, s) =>
        (Ok (slice data offset buf_len),
         put_handle id (of_blob (mkBlobHandle (bh_identifier b) data true (bh_scheme_path b))) s)
    | (_, s) => (Err EIO, s)
    end.

(** The first message that waits; what of it does not fit the buffer is lost. *)
Definition read_message (node_id : string) (buf_len : Z) s : result errno string * St :=
  match rt_inbox (ih_runtime s) !! node_id with
  | Some (msg :: queue) =>
      (Ok (take_bytes (Z.to_nat (Z.min (len msg) buf_len)) msg),
       set_runtime (set_inbox (<[node_id := queue]> (rt_inbox (ih_runtime s))) (ih_runtime s)) s)
  | _ => (Ok "", s)
  end.

Definition read (id buf_len offset : Z) s : result errno string * St :=
  match handle_at id s with
  | Some (HNode node_id) => (Ok (slice node_id offset buf_len), s)
  | Some (HPeer _ node_id _ _) => read_message node_id buf_len s
  | Some (HBlob b) => read_blob id b HBlob (FetchBlob (bh_identifier b)) buf_len offset s
  | Some (HTicket b) => read_blob id b HTicket (FetchTicket (bh_identifier b)) buf_len offset s
  | Some (HControl _) => (Err EACCES, s)
  | Some (HDir _ _) => (Err EBADF, s)
  | None => (Err EBADF, s)
  end.

Definition write (id : Z) (buf : string) s : result errno Z * St :=
  match handle_at id s with
  | Some (HPeer name node outbox p) => (Ok (len buf), put_handle id (HPeer name node (outbox +:+ buf) p) s)
  | Some (HControl buffer) => (Ok (len buf), put_handle id (HControl (buffer +:+ buf)) s)
  | _ => (Err EACCES, s)
  end.

Definition fsize (id : Z) s : result errno Z * St :=
  (Ok match handle_at id s with
      | Some (HNode node_id) => len node_id
      | Some (HBlob b) | Some (HTicket b) => len (bh_data b)
      | _ => 0
      end, s).

Definition handle_path (h : Handle) : string :=
  match h with
  | HNode _ => "/scheme/iroh/node"
  | HPeer _ _ _ p => "/scheme/iroh/" +:+ p
  | HBlob b | HTicket b => "/scheme/iroh/" +:+ bh_scheme_path b
  | HControl _ => "/scheme/iroh/.control"
  | HDir p _ => if decide (p = "") then "/scheme/iroh" else "/scheme/iroh/" +:+ p
  end.

Definition on_handle {A} (id : Z) (f : Handle → A) s : result errno A * St :=
  (match handle_at id s with Some h => Ok (f h) | None => Err EBADF end, s).

Definition fpath (id buf_len : Z) : St → result errno string * St :=
  on_handle id (λ h, take_bytes (Z.to_nat (Z.min (len (handle_path h)) buf_len)) (handle_path h)).

Definition fevent (id : Z) : St → result errno Z * St :=
  on_handle id (λ h, match h with HControl _ => EVENT_WRITE | _ => EVENT_READ end).

Definition fstat (id : Z) : St → result errno IrohStat * St :=
  on_handle id (λ h, match h with
    | HNode node_id => mkIrohStat 0x8124 (len node_id) 1
    | HPeer _ _ _ _ => mkIrohStat 0x81B6 0 1
    | HBlob b | HTicket b => mkIrohStat 0x8124 (len (bh_data b)) 1
    | HControl _ => mkIrohStat 0x8092 0 1
    | HDir _ _ => mkIrohStat 0x416D 0 2
    end).

Definition root_entries : list (string * DirentKind) :=
  [("node", KindRegular); ("peers", KindDirectory); ("blobs", KindDirectory); (".control", KindRegular)].

Definition getdents {Buf : Type} `{DB : DirentBuffer Buf} (id : Z) (buf : Buf) (start : Z) s : result errno Buf * St :=
  match handle_at id s with
  | Some (HDir _ dir_type) =>
      (Ok (if decide (dir_type = "root") then fill_from buf start root_entries
           else if decide (dir_type = "peers") then fill_from buf start ((λ n, (n, KindRegular)) <$> hash_keys (ih_peers s))
           else buf), s)
  | Some _ => (Err ENOTDIR, s)
  | None => (Err EBADF, s)
  end.

Definition on_close (id : Z) s : St :=
  let closed := set_table (mkIrohTable (base.delete id (it_handles (ih_table s))) (it_next (ih_table s))) s in
  match handle_at id s with
  | Some (HControl buffer) =>
      if decide (buffer = "") then closed else process_control (Str.from_utf8_lossy buffer) closed
  | Some (HPeer _ node_id outbox _) =>
      if decide (outbox = "") then closed else (ask_runtime (SendMessage node_id outbox) closed).2
  | _ => closed
  end.

End scheme.
End Iroh.

(** ** Identity ([config.rs]) *)
Section config.
Context `{FL : FsLimits}.

(** The key of the node: the first 32 bytes of its file, or new ones; [random] is what the device gives. *)
Definition load_or_generate_key (p : path) (random : option string) : F string :=
  t ← get_tree;
  if path_exists t p then
    data ← lift (read_file t p);
    if decide (len data < 32) then fail (OtherError "key file too short") else mret (take_bytes 32 data)
  else
    match random with
    | None => fail (OtherError "rand")
    | Some key =>
        match Path.parent p with Some dir => FileSys.ignore (create_dir_all dir) | None => mret tt end ;;
        write_file p key ;;
        mret key
    end.

(** The two formats of the peers' file *)
Class PeersJson : Type := {
  peers_simple : string → option (gmap string string);
  peers_structured : string → option (list (string * string));
}.

Definition load_peers `{PeersJson} (t : tree) (p : path) : gmap string string :=
  match read_file t p with
  | Err _ => ∅
  | Ok data =>
      if Str.utf8_valid data then
        match peers_simple data with
        | Some map => map
        | None =>
            match peers_structured data with
            | Some entries => foldl (λ m e, <[e.1 := e.2]> m) ∅ entries
            | None => ∅
            end
        end
      else ∅
  end.
End config.
