(* ===== verification/IrohFacts.v ===== *)
(** * Theorems on the iroh daemon

    For its clients the daemon is a queue of messages for each peer, and a draft for each handle,
    which is sent when the handle is closed. *)

From S2P Require Import Prelude RustStd FileSys Bytes HandleId ProxyIo SchemeHandles Iroh.

Open Scope Z_scope.

Section daemon.
Context {W Node Conn Stream J : Type} {EP : Endpoint W Node Conn Stream} {JS : IrohJson J} {ABI : SyscallAbi}.
Context {Buf : Type} {DB : DirentBuffer Buf}.
Implicit Types (s : IrohSchemeHandler W).

(** ** What happens *)
Inductive request : Type :=
  | RqRoot
  | RqOpenat (p : string) (flags : Z)
  | RqRead (id buf_len offset : Z)
  | RqWrite (id : Z) (buf : string)
  | RqFsize (id : Z)
  | RqFpath (id buf_len : Z)
  | RqFevent (id : Z)
  | RqFstat (id : Z)
  | RqGetdents (id : Z) (buf : Buf) (start : Z).

Definition serve (q : request) s : IrohSchemeHandler W :=
  match q with
  | RqRoot => (Iroh.scheme_root s).2
  | RqOpenat p flags => (Iroh.openat p flags s).2
  | RqRead id n offset => (Iroh.read id n offset s).2
  | RqWrite id buf => (Iroh.write id buf s).2
  | RqFsize id => (Iroh.fsize id s).2
  | RqFpath id n => (Iroh.fpath id n s).2
  | RqFevent id => (Iroh.fevent id s).2
  | RqFstat id => (Iroh.fstat id s).2
  | RqGetdents id buf start => (Iroh.getdents id buf start s).2
  end.

(** ** What is seen of it *)
(** The peer a path names: by the name it has, or by its number *)
Definition named (peers : gmap string string) (p : string) : option string :=
  match Str.strip_prefix "peers/" (Str.trim_matches "/" p) with
  | Some n =>
      match peers !! n with
      | Some node => Some node
      | None => if decide (len n = 64 ∧ Str.all_chars ascii_hexdigit n = true) then Some n else None
      end
  | None => None
  end.

(** A message that a peer sends; an open of a path, with the peer it names, if any; a read, with its
    room and its answer; a write; a close *)
Inductive seen : Type :=
  | Came (from data : string)
  | Opened (id : Z) (peer : option string)
  | Read (id room : Z) (out : string)
  | Wrote (id : Z) (data : string)
  | Closed (id : Z).

(** Only what was answered without an error *)
Definition seen_request (q : request) s : list seen :=
  match q with
  | RqRoot => match (Iroh.scheme_root s).1 with Ok id => [Opened id None] | Err _ => [] end
  | RqOpenat p flags => match (Iroh.openat p flags s).1 with Ok id => [Opened id (named (ih_peers s) p)] | Err _ => [] end
  | RqRead id n offset => match (Iroh.read id n offset s).1 with Ok out => [Read id n out] | Err _ => [] end
  | RqWrite id data => match (Iroh.write id data s).1 with Ok _ => [Wrote id data] | Err _ => [] end
  | _ => []
  end.

Context (node_id : string) (peers : gmap string string) (w0 : W).

(** A history of the daemon, by the number of events, the newest last: messages come in, requests
    are served, handles are closed. *)
Inductive history : nat → list seen → IrohSchemeHandler W → Prop :=
  | h_new : history 0 [] (Iroh.new node_id peers w0)
  | h_accept n l s from data :
      history n l s → history (S n) (l ++ [Came from data]) (Iroh.set_runtime (accept from data (ih_runtime s)) s)
  | h_request n l s q : history n l s → history (S n) (l ++ seen_request q s) (serve q s)
  | h_close n l s id : history n l s → history (S n) (l ++ [Closed id]) (Iroh.on_close id s).

(** ** What it should be *)
(** The peer whose handle a number is, after some events *)
Definition peer_after (id : Z) (r : option string) (e : seen) : option string :=
  match e with
  | Opened i peer => if decide (i = id) then peer else r
  | Closed i => if decide (i = id) then None else r
  | _ => r
  end.
Definition peer_of (id : Z) (l : list seen) : option string := foldl (peer_after id) None l.

(** All that was written to a handle *)
Definition written_by (id : Z) (e : seen) : string :=
  match e with Wrote i data => if decide (i = id) then data else "" | _ => "" end.
Definition writes (id : Z) (l : list seen) : string := foldl (λ acc e, acc +:+ written_by id e) "" l.

(** The parts of a history, each made with what was before it *)
Fixpoint scan {A} (f : list seen → seen → list A) (before l : list seen) : list A :=
  match l with [] => [] | e :: l => f before e ++ scan f (before ++ [e]) l end.

(** What is put in and taken from the queue of a peer: the messages that have content and at most a
    mebibyte, and the reads of its handles *)
Inductive move : Type := In (data : string) | Out (room : Z) (out : string).

Definition move_of (node : string) (before : list seen) (e : seen) : list move :=
  match e with
  | Came from data => if decide (from = node ∧ data ≠ "" ∧ len data ≤ 2^20) then [In data] else []
  | Read id room out => if decide (peer_of id before = Some node) then [Out room out] else []
  | _ => []
  end.
Definition moves (node : string) : list seen → list move := scan (move_of node) [].

(** First in, first out; what of a message does not fit the room is lost; nothing comes out of an
    empty queue. *)
Inductive fifo : list string → list move → list string → Prop :=
  | f_end q : fifo q [] q
  | f_in q data t q' : fifo (q ++ [data]) t q' → fifo q (In data :: t) q'
  | f_out data q room t q' :
      fifo q t q' → fifo (data :: q) (Out room (take_bytes (Z.to_nat (Z.min (len data) room)) data) :: t) q'
  | f_none room t q' : fifo [] t q' → fifo [] (Out room "" :: t) q'.

(** What is sent: with the close of a handle of a peer all that was written to it, if anything *)
Definition sent_with (before : list seen) (e : seen) : list (string * string) :=
  match e with
  | Closed id =>
      match peer_of id before with
      | Some node => if decide (writes id before = "") then [] else [(node, writes id before)]
      | None => []
      end
  | _ => []
  end.
Definition sent : list seen → list (string * string) := scan sent_with [].

Definition deliver (ms : list (string * string)) (w : W) : W := foldl (λ w m, (send_message m.1 m.2 w).2) w ms.

Definition waiting (node : string) s : list string := default [] (rt_inbox (ih_runtime s) !! node).

(** ** On these *)
Lemma scan_app {A} (f : list seen → seen → list A) before l1 l2 :
  scan f before (l1 ++ l2) = scan f before l1 ++ scan f (before ++ l1) l2.
Proof using.
  revert before. induction l1 as [|e l1 IH]; intros before; simpl; [by rewrite app_nil_r|].
  by rewrite IH, <- !app_assoc.
Qed.

Lemma scan_snoc {A} (f : list seen → seen → list A) l e : scan f [] (l ++ [e]) = scan f [] l ++ f l e.
Proof using. rewrite scan_app. simpl. by rewrite app_nil_r. Qed.

Lemma fifo_app q t1 q1 t2 q2 : fifo q t1 q1 → fifo q1 t2 q2 → fifo q (t1 ++ t2) q2.
Proof using. induction 1; simpl; try constructor; auto. Qed.

Lemma peer_of_snoc id l e : peer_of id (l ++ [e]) = peer_after id (peer_of id l) e.
Proof using. unfold peer_of. by rewrite foldl_app. Qed.

Lemma writes_snoc id l e : writes id (l ++ [e]) = writes id l +:+ written_by id e.
Proof using. unfold writes. by rewrite foldl_app. Qed.

(** ** The invariant *)
Definition peer_handle (h : Handle) : option string := match h with HPeer _ node _ _ => Some node | _ => None end.
Definition draft (h : Handle) : string := match h with HPeer _ _ outbox _ => outbox | _ => "" end.

Record follows (n : nat) (l : list seen) s : Prop := mkFollows {
  fo_peer id : peer_of id l = Iroh.handle_at id s ≫= peer_handle;
  fo_draft id h node : Iroh.handle_at id s = Some h → peer_handle h = Some node → draft h = writes id l;
  fo_next : 0 ≤ it_next (ih_table s) ≤ Z.of_nat n;
  fo_fresh id : it_next (ih_table s) ≤ id → Iroh.handle_at id s = None ∧ writes id l = "";
  fo_queue node : fifo [] (moves node l) (waiting node s);
  fo_world : rt_world (ih_runtime s) = deliver (sent l) w0;
}.


(** Nothing is seen, and nothing changes. *)
Lemma follows_same n l s s' :
  ih_table s' = ih_table s → ih_runtime s' = ih_runtime s → follows n l s → follows (S n) (l ++ []) s'.
Proof using.
  intros Ht Hr [Hp Hd Hn Hf Hq Hw]. rewrite app_nil_r.
  constructor; unfold Iroh.handle_at, waiting in *; rewrite ?Ht, ?Hr; try done. lia.
Qed.

(** Something comes or is read. *)
Lemma follows_queue n l s s' e :
  match e with Came _ _ | Read _ _ _ => True | _ => False end →
  ih_table s' = ih_table s → rt_world (ih_runtime s') = rt_world (ih_runtime s) →
  (∀ node, fifo (waiting node s) (move_of node l e) (waiting node s')) →
  follows n l s → follows (S n) (l ++ [e]) s'.
Proof using.
  intros He Ht Hr Hmove [Hp Hd Hn Hf Hq Hw]. constructor; unfold Iroh.handle_at in *; rewrite ?Ht.
  - intros id. rewrite peer_of_snoc. by destruct e; try done; apply Hp.
  - intros id h node Hh Hnode. rewrite writes_snoc. destruct e; try done; rewrite Str.app_nil_r; by eapply Hd.
  - lia.
  - intros id Hid. rewrite writes_snoc. destruct (Hf id Hid) as [-> ->]. by destruct e.
  - intros node. unfold moves. rewrite scan_snoc. eapply fifo_app; [apply Hq|apply Hmove].
  - rewrite Hr, Hw. unfold sent. rewrite scan_snoc. destruct e; try done; by rewrite app_nil_r.
Qed.

(** A handle is given out. *)
Lemma follows_open n l s h :
  Z.of_nat (S n) < 2^64 → draft h = "" → follows n l s →
  follows (S n) (l ++ [Opened (it_next (ih_table s)) (peer_handle h)]) (Iroh.opened (alloc h) s).2.
Proof using.
  intros Hb Hh [Hp Hd Hn Hf Hq Hw].
  assert (wrap64 (it_next (ih_table s) + 1) = it_next (ih_table s) + 1) as Hwrap.
  { apply wrap64_small. unfold u64, u64_max. lia. }
  constructor; unfold Iroh.handle_at in *; simpl; rewrite ?Hwrap.
  - intros id. rewrite peer_of_snoc. simpl. case_decide as E; [by rewrite <- E, lookup_insert_eq|].
    by rewrite lookup_insert_ne.
  - intros id h' node. rewrite writes_snoc, Str.app_nil_r. destruct (decide (id = it_next (ih_table s))) as [->|E].
    + rewrite lookup_insert_eq. intros [= <-] _. destruct (Hf (it_next (ih_table s)) ltac:(lia)) as [_ ->]. done.
    + rewrite lookup_insert_ne by done. apply Hd.
  - lia.
  - intros id Hid. rewrite writes_snoc, lookup_insert_ne by lia. destruct (Hf id ltac:(lia)) as [-> ->]. done.
  - intros node. unfold moves. rewrite scan_snoc. cbn [move_of]. rewrite app_nil_r. apply Hq.
  - unfold sent. rewrite scan_snoc. cbn [sent_with]. rewrite app_nil_r. exact Hw.
Qed.

(** A handle keeps what is written to it. *)
Lemma follows_put n l s id h h' data :
  Iroh.handle_at id s = Some h → peer_handle h' = peer_handle h → (is_Some (peer_handle h) → draft h' = draft h +:+ data) →
  follows n l s → follows (S n) (l ++ [Wrote id data]) (Iroh.put_handle id h' s).
Proof using.
  intros Hh Hpeer Hdraft [Hp Hd Hn Hf Hq Hw].
  assert (id < it_next (ih_table s)) as Hid.
  { apply Z.nle_gt. intros Hle. destruct (Hf id Hle) as [E _]. by rewrite Hh in E. }
  constructor; unfold Iroh.handle_at in *; simpl.
  - intros i. rewrite peer_of_snoc. simpl. rewrite Hp. destruct (decide (i = id)) as [->|E].
    + by rewrite lookup_insert_eq, Hh.
    + by rewrite lookup_insert_ne.
  - intros i h0 node. rewrite writes_snoc. simpl. destruct (decide (i = id)) as [->|E].
    + rewrite lookup_insert_eq, decide_True by done. intros [= <-] Hnode. rewrite Hpeer in Hnode.
      rewrite Hdraft by done. by rewrite (Hd id h node).
    + rewrite lookup_insert_ne, decide_False, Str.app_nil_r by done. apply Hd.
  - lia.
  - intros i Hi. rewrite writes_snoc. simpl. rewrite decide_False, Str.app_nil_r, lookup_insert_ne by lia. by apply Hf.
  - intros node. unfold moves. rewrite scan_snoc. cbn [move_of]. rewrite app_nil_r. apply Hq.
  - unfold sent. rewrite scan_snoc. cbn [sent_with]. rewrite app_nil_r. exact Hw.
Qed.

(** ** The steps *)
Lemma follows_accept n l s from data :
  follows n l s → follows (S n) (l ++ [Came from data]) (Iroh.set_runtime (accept from data (ih_runtime s)) s).
Proof using.
  intros Hs. apply (follows_queue n l s); try done.
  - unfold accept. simpl. by case_decide.
  - intros node. unfold accept, waiting. simpl. assert (limit = 2^20) as -> by done.
    destruct (decide (2^20 < len data ∨ data = "")) as [Hbad|Hgood].
    + rewrite decide_False; [constructor|]. intros (_ & ? & ?). destruct Hbad; [lia|done].
    + simpl. destruct (decide (from = node)) as [->|Hn].
      * rewrite decide_True by (split; [done|]; split; [naive_solver|lia]). rewrite lookup_insert_eq. simpl. repeat constructor.
      * rewrite decide_False, lookup_insert_ne by naive_solver. constructor.
Qed.

(** What a path opens *)
Ltac gives_handle := right; eexists; refine (conj _ (conj _ eq_refl)); done.

Lemma opens p flags s :
  (Iroh.openat p flags s).2 = s ∧ (∃ e, (Iroh.openat p flags s).1 = Err e)
    ∧ (Z.land flags O_DIRECTORY = 0 → named (ih_peers s) p = None)
  ∨ ∃ h, draft h = "" ∧ peer_handle h = named (ih_peers s) p ∧ Iroh.openat p flags s = Iroh.opened (alloc h) s.
Proof using.
  unfold Iroh.openat, named. cbv zeta. set (p' := Str.trim_matches "/" p).
  case_decide as E1; [rewrite E1; gives_handle|]. case_decide as E2; [rewrite E2; gives_handle|].
  case_decide as E3; [rewrite E3; gives_handle|]. case_decide as E4; [rewrite E4; gives_handle|].
  case_decide as E5; [rewrite E5; gives_handle|].
  destruct (Str.strip_prefix "peers/" p') as [name|] eqn:Ep.
  - unfold Iroh.resolve_peer. destruct (ih_peers s !! name) as [node|] eqn:En.
    + case_decide as Ed; [left; split_and!; [done|by eexists|done]|]. gives_handle.
    + destruct (decide (len name = 64)) as [Hl|Hl]; [destruct (Str.all_chars ascii_hexdigit name) eqn:Ea|].
      * rewrite (decide_True (P := len name = 64 ∧ true = true)) by done. case_decide as Ed; [left; split_and!; [done|by eexists|done]|]. gives_handle.
      * rewrite decide_False by naive_solver. left. split_and!; [done|by eexists|done].
      * rewrite decide_False by naive_solver. left. split_and!; [done|by eexists|done].
  - destruct (Str.strip_prefix "blobs/" p'); [gives_handle|].
    destruct (Str.strip_prefix "tickets/" p'); [gives_handle|]. left. split_and!; [done|by eexists|done].
Qed.

Lemma peer_of_handle n l s id node :
  follows n l s → peer_of id l = Some node ↔ ∃ name outbox p, Iroh.handle_at id s = Some (HPeer name node outbox p).
Proof using.
  intros Hs. rewrite (fo_peer _ _ _ Hs). destruct (Iroh.handle_at id s) as [h|]; simpl; [|naive_solver].
  destruct h; simpl; naive_solver.
Qed.

(** A read takes from the queue of its peer. *)
Lemma read_moves node id n offset s name outbox p :
  Iroh.handle_at id s = Some (HPeer name node outbox p) →
  ∃ out, (Iroh.read id n offset s).1 = Ok out ∧ fifo (waiting node s) [Out n out] (waiting node (Iroh.read id n offset s).2)
    ∧ (∀ other, other ≠ node → waiting other (Iroh.read id n offset s).2 = waiting other s)
    ∧ ih_table (Iroh.read id n offset s).2 = ih_table s
    ∧ rt_world (ih_runtime (Iroh.read id n offset s).2) = rt_world (ih_runtime s).
Proof using.
  intros Hh. unfold Iroh.read. rewrite Hh. unfold Iroh.read_message, waiting.
  destruct (rt_inbox (ih_runtime s) !! node) as [[|m q]|] eqn:E; simpl.
  - eexists. split_and!; try done. rewrite E. repeat constructor.
  - eexists. split_and!; try done; [rewrite lookup_insert_eq; repeat constructor|].
    intros other Ho. by rewrite lookup_insert_ne.
  - eexists. split_and!; try done. rewrite E. repeat constructor.
Qed.

Lemma read_blob_same id b of_blob req n offset s :
  req = FetchBlob (bh_identifier b) ∨ req = FetchTicket (bh_identifier b) →
  ih_table (Iroh.read_blob id b of_blob req n offset s).2 = ih_table s
  ∧ ih_runtime (Iroh.read_blob id b of_blob req n offset s).2 = ih_runtime s.
Proof using. intros Hr. unfold Iroh.read_blob. destruct (bh_fetched b); [done|]. by destruct Hr as [-> | ->]. Qed.

Lemma follows_read n l s id room offset :
  follows n l s → follows (S n) (l ++ seen_request (RqRead id room offset) s) (Iroh.read id room offset s).2.
Proof using.
  intros Hs. unfold seen_request. destruct (peer_of id l) as [node|] eqn:Hp.
  { pose proof (proj1 (peer_of_handle n l s id node Hs) Hp) as (name & outbox & p & Hh).
    destruct (read_moves node id room offset s _ _ _ Hh) as (out & E & Hq & Hother & Ht & Hw). rewrite E.
    apply (follows_queue n l s); try done. intros other. simpl. rewrite Hp. case_decide as Hd.
    - injection Hd as <-. done.
    - rewrite Hother by congruence. constructor. }
  assert (ih_table (Iroh.read id room offset s).2 = ih_table s ∧ ih_runtime (Iroh.read id room offset s).2 = ih_runtime s) as [Ht Hr].
  { rewrite (fo_peer _ _ _ Hs) in Hp. unfold Iroh.read.
    destruct (Iroh.handle_at id s) as [[]|]; try done; apply read_blob_same; [by left|by right]. }
  destruct (Iroh.read id room offset s).1; [|by apply (follows_same n l s)].
  apply (follows_queue n l s); rewrite ?Hr; try done. intros node. simpl. rewrite Hp, decide_False by done.
  unfold waiting. rewrite Hr. constructor.
Qed.

Lemma follows_request n l s q :
  Z.of_nat (S n) < 2^64 → follows n l s → follows (S n) (l ++ seen_request q s) (serve q s).
Proof using.
  intros Hb Hs. destruct q; try (by apply (follows_same n l s)).
  - exact (follows_open n l s (HDir "" "root") Hb eq_refl Hs).
  - simpl. destruct (opens p flags s) as [(E1 & [e E2] & _)|(h & Hd & Hp & E)].
    + rewrite E1, E2. by apply (follows_same n l s).
    + rewrite E, <- Hp. exact (follows_open n l s h Hb Hd Hs).
  - by apply follows_read.
  - simpl. unfold Iroh.write. destruct (Iroh.handle_at id s) as [[]|] eqn:E; simpl; try (by apply (follows_same n l s)).
    + by eapply follows_put.
    + eapply follows_put; [done|done| |done]. by intros [? ?].
  - simpl. unfold Iroh.getdents. destruct (Iroh.handle_at id s) as [[]|]; by apply (follows_same n l s).
Qed.

(** What a close leaves: the handle is gone, and the draft is sent. *)
Lemma close_effect id s :
  it_handles (ih_table (Iroh.on_close id s)) = base.delete id (it_handles (ih_table s))
  ∧ it_next (ih_table (Iroh.on_close id s)) = it_next (ih_table s)
  ∧ rt_inbox (ih_runtime (Iroh.on_close id s)) = rt_inbox (ih_runtime s)
  ∧ rt_world (ih_runtime (Iroh.on_close id s))
    = match Iroh.handle_at id s with
      | Some (HPeer _ node outbox _) => if decide (outbox = "") then rt_world (ih_runtime s) else (send_message node outbox (rt_world (ih_runtime s))).2
      | _ => rt_world (ih_runtime s)
      end.
Proof using.
  unfold Iroh.on_close. destruct (Iroh.handle_at id s) as [[node|name node outbox p|b|b|buffer|p d]|]; try done.
  - case_decide; [done|]. unfold Iroh.ask_runtime, serve_request. simpl. by destruct (send_message node outbox _).
  - case_decide; [done|]. unfold Iroh.process_control, Iroh.add_peer, Iroh.remove_peer. by repeat case_match.
Qed.

Lemma follows_close n l s id : follows n l s → follows (S n) (l ++ [Closed id]) (Iroh.on_close id s).
Proof using.
  intros Hs. pose proof Hs as [Hp Hd Hn Hf Hq Hw]. destruct (close_effect id s) as (Ht & Hx & Hi & Hr).
  constructor; unfold Iroh.handle_at, waiting in *; rewrite ?Ht, ?Hx, ?Hi.
  - intros i. rewrite peer_of_snoc. simpl. case_decide as E; [by rewrite <- E, lookup_delete_eq|]. by rewrite lookup_delete_ne.
  - intros i h node Hh Hnode. apply lookup_delete_Some in Hh as [_ Hh]. rewrite writes_snoc, Str.app_nil_r. by eapply Hd.
  - lia.
  - intros i Hid. rewrite writes_snoc. destruct (Hf i Hid) as [H1 ->]. split; [|done]. apply lookup_delete_None. by right.
  - intros node. unfold moves. rewrite scan_snoc. cbn [move_of]. rewrite app_nil_r. apply Hq.
  - rewrite Hr. unfold sent. rewrite scan_snoc. simpl. rewrite Hp. unfold deliver. rewrite foldl_app.
    change (foldl _ w0 (scan sent_with [] l)) with (deliver (sent l) w0). rewrite <- Hw.
    destruct (it_handles (ih_table s) !! id) as [h|] eqn:E; simpl; [|done]. pose proof (Hd id h) as Hdraft. rewrite E in Hdraft.
    destruct h as [| name node outbox p| | | |]; simpl; try done. rewrite <- (Hdraft node) by done. simpl. by case_decide.
Qed.

Lemma history_follows n l s : history n l s → Z.of_nat n < 2^64 → follows n l s.
Proof using.
  induction 1 as [|n l s from data _ IH|n l s q _ IH|n l s id _ IH]; intros Hb.
  - constructor; unfold Iroh.handle_at, waiting; simpl; try done.
    + intros node. rewrite lookup_empty. constructor.
  - apply follows_accept, IH. lia.
  - apply follows_request; [done|]. apply IH. lia.
  - apply follows_close, IH. lia.
Qed.

End daemon.

(** ** A concrete daemon *)
Module IrohDemo.
#[local] Existing Instance redox_abi.

(** The endpoint of the example keeps what it was given to send. *)
#[local] Instance endpoint : Endpoint (list (string * string)) string string string := {|
  node_from_str s := Some s;
  endpoint_connect n w := (Some n, w);
  open_bi c w := (Some c, w);
  write_all st data w := (true, w ++ [(st, data)]);
  finish _ w := (true, w);
  read_ack _ w := w;
|}.

Inductive json : Type := JStr (s : string) | JObj (fields : list (string * json)).

Definition field (key : string) (l : list (string * json)) : option json :=
  snd <$> list_find (λ f, f.1 = key) l ≫= λ p, Some p.2.

#[local] Instance parser : IrohJson json := {|
  json_parse s :=
    if decide (s = "add alice 2") then Some (JObj [("addPeer", JObj [("name", JStr "alice"); ("id", JStr (Str.join "" (repeat "2" 64)))])])
    else if decide (s = "remove bob") then Some (JObj [("removePeer", JObj [("name", JStr "bob")])])
    else None;
  json_get j key := match j with JObj l => field key l | JStr _ => None end;
  json_str j := match j with JStr s => Some s | JObj _ => None end;
  hash_keys m := (map_to_list m).*1;
|}.

#[local] Instance listing : DirentBuffer (list string) := {|
  db_entry b _ n _ := Some (b ++ [n]);
  entries_of _ := [];
|}.

Definition bob : string := Str.join "" (repeat "b" 64).
Definition one : string := Str.join "" (repeat "1" 64).

Definition fresh : IrohSchemeHandler (list (string * string)) := Iroh.new "me" {[ "bob" := bob ]} [].

Definition s1 := serve (Buf := list string) (RqOpenat "/peers/bob" 0) fresh.
Definition s2 := serve (Buf := list string) (RqWrite 0 "good ") s1.
Definition s3 := Iroh.set_runtime (accept bob "hello" (ih_runtime s2)) s2.
Definition s4 := serve (Buf := list string) (RqWrite 0 "day") s3.
Definition s5 := Iroh.set_runtime (accept bob "" (ih_runtime s4)) s4.
Definition s6 := Iroh.set_runtime (accept bob "bye" (ih_runtime s5)) s5.
Definition s7 := serve (Buf := list string) (RqRead 0 3 0) s6.
Definition s8 := Iroh.on_close 0 s7.

Example sent_whole : rt_world (ih_runtime s8) = [(bob, "good day")] ∧ waiting bob s8 = ["bye"].
Proof. split; vm_compute; reflexivity. Qed.


(** What of a message does not fit the buffer of a read is lost ([sent_whole]: after a read of three
    bytes of [hello] the next message is [bye]). *)
Example rest_is_lost : (Iroh.read 0 8 0 s7).1 = Ok "bye".
Proof. vm_compute. reflexivity. Qed.

(** The table of names by number keeps the number a peer had before: its old number is shown under the
    name that now has another. *)
Example old_number_keeps_name :
  let s := Iroh.process_control "add alice 2" (Iroh.new "me" {[ "alice" := one ]} ([] : list (string * string))) in
  Iroh.resolve_peer "alice" s = Some ("alice", Str.join "" (repeat "2" 64)) ∧ Iroh.resolve_peer one s = Some ("alice", one).
Proof. split; vm_compute; reflexivity. Qed.

(** Blobs cannot be read: the runtime refuses every fetch. *)
Example blobs_fail : (Iroh.read 0 8 0 (serve (Buf := list string) (RqOpenat "blobs/x" 0) fresh)).1 = Err EIO.
Proof. vm_compute. reflexivity. Qed.
End IrohDemo.
