(* ===== verification/ElfPalign.v ===== *)
(** * The ELF rewrite of the host ([nix/pkgs/host/fix-elf-palign])

    The tool sets the alignment of every program header that has none to one, in place, in the
    shared objects of a tree and in two programs.  The tree is that of [FileSys]; the file is
    rewritten byte by byte. *)

From S2P Require Import Prelude RustStd FileSys Bytes.

Open Scope Z_scope.

Definition ELF_MAGIC : string := String (byte_of 0x7f) "ELF".
Definition ELFCLASS64 : Z := 2.
Definition E_PHOFF_OFFSET : Z := 32.
Definition E_PHENTSIZE_OFFSET : Z := 54.
Definition E_PHNUM_OFFSET : Z := 56.
Definition P_ALIGN_OFFSET : Z := 48.

Definition should_process (name : string) : bool :=
  Str.ends_with ".so" name || Str.ends_with ".so.6" name
  || bool_decide (name = "rustc") || bool_decide (name = "rustdoc").

(** ** One file *)
(** [seek] and [read_exact]: positions beyond [i64] are refused, the end of the file is an error. *)
Definition i64_max : Z := 2^63 - 1.

Definition read_exact (content : string) (offset : Z) (n : nat) : result io_error string :=
  if decide (i64_max < offset) then Err InvalidInput
  else
    let s := take_bytes n (drop_bytes (Z.to_nat offset) content) in
    if decide (String.length s = n) then Ok s else Err (OtherError "unexpected end of file").

(** [write_all] inside of the file *)
Definition write_at (offset : Z) (data content : string) : string :=
  take_bytes (Z.to_nat offset) content +:+ data +:+ drop_bytes (Z.to_nat offset + String.length data) content.

Definition read_le (content : string) (offset : Z) (n : nat) : result io_error Z :=
  s ← read_exact content offset n; Ok (le_int s).

Definition align_offset (e_phoff e_phentsize i : Z) : Z := wrap64 (wrap64 (e_phoff + i * e_phentsize) + P_ALIGN_OFFSET).

(** The loop over [n] headers from the [i]th on: the file as it is left, also by an error *)
Fixpoint fix_headers (n : nat) (e_phoff e_phentsize i fixed : Z) (content : string) : result io_error Z * string :=
  match n with
  | O => (Ok fixed, content)
  | S n' =>
      let at_ := align_offset e_phoff e_phentsize i in
      match read_le content at_ 8 with
      | Err e => (Err e, content)
      | Ok p_align =>
          if decide (p_align = 0)
          then fix_headers n' e_phoff e_phentsize (i + 1) (fixed + 1) (write_at at_ (le_bytes 8 1) content)
          else fix_headers n' e_phoff e_phentsize (i + 1) fixed content
      end
  end.

(** What the header says: [None] is not a file for the tool *)
Definition read_header (content : string) : result io_error (option (Z * Z * Z)) :=
  magic ← read_exact content 0 4;
  if decide (magic ≠ ELF_MAGIC) then Ok None
  else
    ei_class ← read_exact content 4 1;
    if decide (le_int ei_class ≠ ELFCLASS64) then Ok None
    else
      e_phoff ← read_le content E_PHOFF_OFFSET 8;
      e_phentsize ← read_le content E_PHENTSIZE_OFFSET 2;
      e_phnum ← read_le content E_PHNUM_OFFSET 2;
      Ok (Some (e_phoff, e_phentsize, e_phnum)).

Definition fix_content (content : string) : result io_error bool * string :=
  match read_header content with
  | Err e => (Err e, content)
  | Ok None => (Ok false, content)
  | Ok (Some (e_phoff, e_phentsize, e_phnum)) =>
      let '(r, content') := fix_headers (Z.to_nat e_phnum) e_phoff e_phentsize 0 0 content in
      (fixed ← r; Ok (bool_decide (0 < fixed)), content')
  end.

(** ** The tree *)
Section tree.
Context `{FL : FsLimits}.

(** The file is opened for reading and writing and rewritten in place. *)
Definition fix_elf_palign (p : path) : F bool :=
  check_fault OpWrite p ;;
  t ← get_tree;
  q ← lift (resolve t true p);
  match node_at t q with
  | Some (File content mode) =>
      let '(r, content') := fix_content content in
      put_tree (<[q := File content' mode]> t) ;;
      lift r
  | Some (Dir _) => fail IsADirectory
  | Some (Link _) => fail TooManyLinks
  | None => fail NotFound
  end.

(** [walkdir_inner]: what is not a directory, links included.  The depth of a tree is at most the
    number of its nodes. *)
Fixpoint walkdir (fuel : nat) (t : tree) (dir : path) : result io_error (list path) :=
  match fuel with
  | O => Ok []
  | S fuel' =>
      entries ← read_dir t dir;
      foldr (λ e acc,
        found ← (let p := dir ++ [Normal e.1] in
                 match e.2 with Dir _ => walkdir fuel' t p | _ => Ok [p] end);
        rest ← acc;
        Ok (found ++ rest)) (Ok []) entries
  end.

(** One entry: the file is made writable, fixed, and given its mode back; an error of the fixing is
    a warning. *)
Definition fix_entry (p : path) (count : Z) : F Z :=
  t ← get_tree;
  n ← lift (symlink_metadata t p);
  match n, Path.file_name p with
  | Link _, _ => mret count
  | _, None => mret count
  | _, Some name =>
      if should_process name then
        meta ← lift (metadata t p);
        let orig_mode := match meta with File _ m | Dir m => m | Link _ => 0 end in
        set_permissions p (Z.lor orig_mode 0x80) ;;
        r ← attempt (fix_elf_palign p);
        set_permissions p orig_mode ;;
        mret match r with Ok true => wrap32 (count + 1) | _ => count end
      else mret count
  end.

Fixpoint fix_entries (ps : list path) (count : Z) : F Z :=
  match ps with
  | [] => mret count
  | p :: ps' => count ← fix_entry p count; fix_entries ps' count
  end.

Definition fix_dir (count : Z) (search_dir : path) : F Z :=
  t ← get_tree;
  if is_dir t search_dir then
    ps ← lift (walkdir (S (size t)) t search_dir);
    fix_entries ps count
  else mret count.

Definition walk_and_fix (root : path) : F Z :=
  count ← fix_dir 0 (root ++ [Normal "nix"; Normal "store"]);
  fix_dir count (root ++ [Normal "lib"]).
End tree.

(** ** What the rewriting does *)
(** The word of eight bytes at an offset *)
Definition word (content : string) (o : nat) : Z := le_int (take_bytes 8 (drop_bytes o content)).

Definition one : ascii := byte_of 1.

Lemma le_int_one a : le_int (String a "") = Z.of_N (N_of_ascii a).
Proof. simpl. lia. Qed.

(** A byte that was zero is one. *)
Definition bumped (o : nat) (c c' : string) : Prop :=
  ∃ pre post, String.length pre = o ∧ c = pre +:+ String zero post ∧ c' = pre +:+ String one post.

Lemma le_int_zeros s : le_int s = 0 → s = zeros (String.length s).
Proof.
  induction s as [|a s IH]; [done|]. simpl le_int. pose proof (le_int_range s). intros He.
  assert (Z.of_N (N_of_ascii a) = 0 ∧ le_int s = 0) as [Ha Hs] by lia. simpl. rewrite <- IH by done. f_equal.
  rewrite <- (ascii_N_embedding a). by replace (N_of_ascii a) with 0%N by lia.
Qed.

Lemma write_bumps o c :
  (o + 8 ≤ String.length c)%nat → word c o = 0 → bumped o c (write_at (Z.of_nat o) (le_bytes 8 1) c).
Proof.
  intros Hl Hw. assert (take_bytes 8 (drop_bytes o c) = zeros 8) as Hz.
  { rewrite (le_int_zeros _ Hw), length_take_bytes, length_drop_bytes. f_equal. lia. }
  exists (take_bytes o c), (zeros 7 +:+ drop_bytes (o + 8) c). split; [rewrite length_take_bytes; lia|]. split.
  - rewrite <- (take_drop_bytes o c) at 1. f_equal. rewrite <- (take_drop_bytes 8 (drop_bytes o c)) at 1. rewrite Hz, drop_drop. done.
  - unfold write_at. rewrite Nat2Z.id. done.
Qed.

Lemma bumped_length o c c' : bumped o c c' → String.length c' = String.length c.
Proof. intros (pre & post & _ & -> & ->). by rewrite !length_app_string. Qed.

(** ** Windows of a changed file *)
Lemma window_before n o pre x :
  (o + n ≤ String.length pre)%nat → take_bytes n (drop_bytes o (pre +:+ x)) = take_bytes n (drop_bytes o pre).
Proof.
  intros Hl. assert (String.length (take_bytes o pre) = o) as Ho by (rewrite length_take_bytes; lia).
  rewrite <- (take_drop_bytes o pre) at 1. rewrite Str.app_assoc. rewrite <- Ho at 1. rewrite drop_bytes_app.
  assert (String.length (take_bytes n (drop_bytes o pre)) = n) as Hn by (rewrite length_take_bytes, length_drop_bytes; lia).
  rewrite <- (take_drop_bytes n (drop_bytes o pre)) at 1. rewrite Str.app_assoc. rewrite <- Hn at 1. apply take_bytes_app.
Qed.

Lemma word_elsewhere o o' c c' : bumped o c c' → (o < o' ∨ o' + 8 ≤ o)%nat → word c' o' = word c o'.
Proof.
  intros (pre & post & Hl & -> & ->) Ho. unfold word. destruct Ho as [Ho|Ho].
  - replace o' with (String.length pre + S (o' - o - 1))%nat by lia. by rewrite !drop_app_more.
  - by rewrite !window_before by lia.
Qed.

(** Bytes that are at most those at the same places *)
Fixpoint below (s t : string) : Prop :=
  match s, t with
  | EmptyString, EmptyString => True
  | String a s', String b t' => Z.of_N (N_of_ascii a) ≤ Z.of_N (N_of_ascii b) ∧ below s' t'
  | _, _ => False
  end.

Lemma below_refl s : below s s.
Proof. induction s; simpl; [done|]. split; [lia|done]. Qed.

Lemma below_take n s t : below s t → below (take_bytes n s) (take_bytes n t).
Proof.
  revert s t. induction n as [|n IH]; intros [|a s] [|b t]; try done. intros [Hab Hst]. split; [done|]. by apply IH.
Qed.

Lemma below_drop n s t : below s t → below (drop_bytes n s) (drop_bytes n t).
Proof. revert s t. induction n as [|n IH]; intros [|a s] [|b t]; try done. intros [Hab Hst]. by apply IH. Qed.

Lemma below_le_int s t : below s t → le_int s ≤ le_int t.
Proof.
  revert t. induction s as [|a s IH]; intros [|b t]; try done. intros [Hab Hst]. specialize (IH t Hst). simpl le_int. lia.
Qed.

Lemma bumped_below o c c' : bumped o c c' → below c c'.
Proof.
  intros (pre & post & _ & -> & ->). induction pre as [|a pre IH]; simpl; [|split; [lia|done]]. split; [done|apply below_refl].
Qed.

Lemma word_grows o o' c c' : bumped o c c' → word c o' ≤ word c' o'.
Proof. intros Hb. apply below_le_int, below_take, below_drop. by eapply bumped_below. Qed.

Lemma word_bumped o c c' : bumped o c c' → word c o = 0 → word c' o = 1.
Proof.
  intros (pre & post & Hl & -> & ->) Hw. unfold word in *. rewrite <- Hl, drop_bytes_app in *.
  change (take_bytes 8 (String zero post)) with (String zero (take_bytes 7 post)) in Hw.
  change (take_bytes 8 (String one post)) with (String one (take_bytes 7 post)).
  simpl le_int in *. change (Z.of_N (N_of_ascii one)) with 1. change (Z.of_N (N_of_ascii zero)) with 0 in Hw. lia.
Qed.

(** Bytes at some offsets were set, one after the other, each at the front of a word that was zero. *)
Inductive bumps (P : nat → Prop) : string → string → Prop :=
  | bumps_none c : bumps P c c
  | bumps_one o c c1 c2 : P o → word c o = 0 → bumped o c c1 → bumps P c1 c2 → bumps P c c2.

Lemma bumps_weaken (P Q : nat → Prop) c c' : (∀ o, P o → Q o) → bumps P c c' → bumps Q c c'.
Proof. intros HPQ. induction 1; [constructor|]. econstructor; eauto. Qed.

Lemma bumps_length P c c' : bumps P c c' → String.length c' = String.length c.
Proof. induction 1 as [|o c c1 c2 _ _ Hb _ IH]; [done|]. by rewrite IH, (bumped_length _ _ _ Hb). Qed.

Lemma bumps_grow P c c' o : bumps P c c' → word c o ≤ word c' o.
Proof. induction 1 as [|o' c c1 c2 _ _ Hb _ IH]; [done|]. pose proof (word_grows o' o c c1 Hb). lia. Qed.

Lemma bumps_elsewhere P c c' o : (∀ o', P o' → o' < o ∨ o + 8 ≤ o')%nat → bumps P c c' → word c' o = word c o.
Proof.
  intros HP. induction 1 as [|o' c c1 c2 Hp _ Hb _ IH]; [done|]. rewrite IH. eapply word_elsewhere; [exact Hb|by apply HP].
Qed.

Lemma get_app_left s t i : (i < String.length s)%nat → String.get i (s +:+ t) = String.get i s.
Proof. revert i. induction s as [|a s IH]; intros [|i]; simpl; try lia; [done|]. intros Hi. apply IH. lia. Qed.

Lemma get_app_right s t i : (String.length s ≤ i)%nat → String.get i (s +:+ t) = String.get (i - String.length s) t.
Proof.
  revert i. induction s as [|a s IH]; intros i; simpl; [by rewrite Nat.sub_0_r|]. destruct i as [|i]; [lia|]. intros Hi.
  simpl. apply IH. lia.
Qed.

(** What was zero when it was set was zero before. *)
Lemma bumps_zero (P : nat → Prop) c c' : bumps (λ o, P o) c c' → bumps (λ o, P o ∧ word c o = 0) c c'.
Proof.
  induction 1 as [c|o c c1 c2 Hp Hz Hb _ IH]; [constructor|]. econstructor; [by split|done|exact Hb|].
  eapply bumps_weaken; [|exact IH]. intros o' [Hp' Hz']. split; [done|]. pose proof (word_grows o o' c c1 Hb).
  pose proof (le_int_range (take_bytes 8 (drop_bytes o' c))) as [H0 _]. unfold word in *. lia.
Qed.

(** Every other byte is what it was. *)
Definition set_at (P : nat → Prop) (c c' : string) : Prop :=
  String.length c' = String.length c
  ∧ ∀ i, String.get i c' = String.get i c ∨ P i ∧ String.get i c = Some zero ∧ String.get i c' = Some one.

Lemma bumps_set P c c' : bumps P c c' → set_at P c c'.
Proof.
  intros Hb. split; [by eapply bumps_length|]. induction Hb as [|o c c1 c2 Hp _ (pre & post & Hl & -> & ->) _ IH]; [by left|].
  intros i. specialize (IH i). destruct (decide (i < o)%nat) as [Hi|Hi]; [|destruct (decide (i = o)) as [->|Hne]].
  - by rewrite get_app_left in IH |- * by lia.
  - rewrite get_app_right in IH |- * by lia. rewrite Hl, Nat.sub_diag in *. simpl in *. right.
    destruct IH as [->|(_ & He & _)]; done.
  - rewrite get_app_right in IH |- * by lia. destruct (i - String.length pre)%nat eqn:E; [lia|]. done.
Qed.

(** ** The loop *)
Section headers.
Context (e_phoff e_phentsize : Z).

Definition at_header (i : Z) : nat := Z.to_nat (align_offset e_phoff e_phentsize i).

Lemma at_header_Z i : Z.of_nat (at_header i) = align_offset e_phoff e_phentsize i.
Proof. unfold at_header, align_offset. pose proof (wrap64_range (wrap64 (e_phoff + i * e_phentsize) + P_ALIGN_OFFSET)) as [? _]. lia. Qed.

Lemma read_le_word c i v :
  read_le c (align_offset e_phoff e_phentsize i) 8 = Ok v → v = word c (at_header i) ∧ (at_header i + 8 ≤ String.length c)%nat.
Proof.
  unfold read_le, read_exact. case_decide; [done|]. case_decide as Hl; [|done]. simpl. intros [= <-]. split; [done|].
  rewrite length_take_bytes, length_drop_bytes in Hl. unfold at_header. lia.
Qed.

Definition of_headers (i : Z) (n : nat) (o : nat) : Prop := ∃ j, i ≤ j < i + Z.of_nat n ∧ o = at_header j.

(** One header: what it was, and what it is after its round *)
Lemma header_round c i v :
  read_le c (align_offset e_phoff e_phentsize i) 8 = Ok v →
  let c1 := if decide (v = 0) then write_at (align_offset e_phoff e_phentsize i) (le_bytes 8 1) c else c in
  (if decide (v = 0) then bumped (at_header i) c c1 ∧ word c (at_header i) = 0 else c1 = c)
  ∧ word c1 (at_header i) = Z.max 1 (word c (at_header i)).
Proof.
  intros E. apply read_le_word in E as [-> Hl]. intros c1. unfold c1. case_decide as Hz.
  - rewrite <- at_header_Z. pose proof (write_bumps _ _ Hl Hz) as Hb. split; [done|].
    rewrite Hz. change (Z.max 1 0) with 1. by apply (word_bumped _ c).
  - split; [done|]. pose proof (le_int_range (take_bytes 8 (drop_bytes (at_header i) c))) as [H0 _].
    unfold word in *. lia.
Qed.

Lemma fix_headers_bumps n i fixed c r c' :
  fix_headers n e_phoff e_phentsize i fixed c = (r, c') →
  bumps (λ o, of_headers i n o ∧ (o + 8 ≤ String.length c)%nat) c c'.
Proof.
  revert i fixed c. induction n as [|n IH]; intros i fixed c; cbn [fix_headers]; [intros [= _ <-]; constructor|].
  destruct (read_le c _ 8) as [v|e] eqn:E; [|intros [= _ <-]; constructor]. destruct (header_round c i v E) as [Hr _].
  apply read_le_word in E as [_ Hl].
  assert (∀ c1, String.length c1 = String.length c → bumps (λ o, of_headers (i + 1) n o ∧ (o + 8 ≤ String.length c1)%nat) c1 c' →
            bumps (λ o, of_headers i (S n) o ∧ (o + 8 ≤ String.length c)%nat) c1 c') as Hw.
  { intros c1 ->. apply bumps_weaken. intros o [(j & Hj & ->) ?]. split; [|done]. exists j. split; [lia|done]. }
  case_decide as Hz; intros Hf; apply IH in Hf; apply Hw in Hf; try done; [|by destruct Hr as [Hb _]; apply bumped_length in Hb].
  destruct Hr as [Hb H0]. econstructor; [|exact H0|exact Hb|exact Hf]. split; [|done]. exists i. split; [lia|done].
Qed.

Lemma fix_headers_set n i fixed c m c' :
  fix_headers n e_phoff e_phentsize i fixed c = (Ok m, c') →
  (∀ j, i ≤ j < i + Z.of_nat n → (at_header j + 8 ≤ String.length c)%nat ∧ word c' (at_header j) ≠ 0)
  ∧ fixed ≤ m ∧ (m = fixed ↔ c' = c).
Proof.
  revert i fixed c. induction n as [|n IH]; intros i fixed c; cbn [fix_headers].
  { intros [= <- <-]. split; [intros; lia|]. split; [lia|done]. }
  destruct (read_le c _ 8) as [v|e] eqn:E; [|done]. destruct (header_round c i v E) as [Hr Hm]. apply read_le_word in E as [_ Hl].
  case_decide as Hz; intros Hf; pose proof (fix_headers_bumps _ _ _ _ _ _ Hf) as Hb; apply IH in Hf as (Hall & Hle & Heq).
  - pose proof (bumps_grow _ _ _ (at_header i) Hb) as Hg. destruct Hr as [Hbump H0]. split.
    + rewrite <- (bumped_length _ _ _ Hbump) in Hl |- *.
      intros j Hj. destruct (decide (j = i)) as [->|Hne]; [|apply Hall; lia]. split; [done|lia].
    + split; [lia|]. split; [lia|]. intros ->. lia.
  - split; [|done]. intros j Hj. destruct (decide (j = i)) as [->|Hne]; [|apply Hall; lia].
    pose proof (bumps_grow _ _ _ (at_header i) Hb). split; [done|lia].
Qed.

(** It breaks off at a header beyond the end of the file. *)
Lemma fix_headers_err n i fixed c e c' :
  fix_headers n e_phoff e_phentsize i fixed c = (Err e, c') → len c < 2^63 →
  ∃ j, i ≤ j < i + Z.of_nat n ∧ (String.length c < at_header j + 8)%nat.
Proof.
  revert i fixed c. induction n as [|n IH]; intros i fixed c; cbn [fix_headers]; [done|]. intros Hf Hlen.
  destruct (read_le c _ 8) as [v|e0] eqn:E.
  - destruct (header_round c i v E) as [Hr _]. case_decide.
    + destruct Hr as [Hb _]. apply bumped_length in Hb. destruct (IH _ _ _ Hf) as (j & Hj & Hl); [unfold len in *; lia|].
      exists j. split; [lia|lia].
    + destruct (IH _ _ _ Hf Hlen) as (j & Hj & Hl). exists j. split; [lia|done].
  - exists i. split; [lia|]. unfold read_le, read_exact in E. rewrite <- at_header_Z in E. unfold len, i64_max in *.
    case_decide; [lia|]. case_decide as Hw; [done|]. rewrite length_take_bytes, length_drop_bytes, Nat2Z.id in Hw. lia.
Qed.

(** Where the words of the headers do not meet, each is what it was, or one. *)
Definition apart (i : Z) (n : nat) : Prop :=
  ∀ j k, i ≤ j < i + Z.of_nat n → i ≤ k < i + Z.of_nat n → j ≠ k → (at_header k < at_header j ∨ at_header j + 8 ≤ at_header k)%nat.

Lemma fix_headers_exact n i fixed c m c' :
  apart i n → fix_headers n e_phoff e_phentsize i fixed c = (Ok m, c') →
  ∀ j, i ≤ j < i + Z.of_nat n → word c' (at_header j) = Z.max 1 (word c (at_header j)).
Proof.
  revert i fixed c. induction n as [|n IH]; intros i fixed c Ha; cbn [fix_headers]; [intros; lia|].
  destruct (read_le c _ 8) as [v|e] eqn:E; [|done]. destruct (header_round c i v E) as [Hr Hm].
  assert (apart (i + 1) n) as Ha' by (intros j k Hj Hk; apply Ha; lia).
  assert (∀ c1 fixed1, fix_headers n e_phoff e_phentsize (i + 1) fixed1 c1 = (Ok m, c') →
            word c1 (at_header i) = Z.max 1 (word c (at_header i)) →
            (∀ j, i < j < i + Z.of_nat (S n) → word c1 (at_header j) = word c (at_header j)) →
            ∀ j, i ≤ j < i + Z.of_nat (S n) → word c' (at_header j) = Z.max 1 (word c (at_header j))) as Hgo.
  { intros c1 fixed1 Hf H1 H2 j Hj. destruct (decide (j = i)) as [->|Hne].
    - rewrite <- H1. eapply bumps_elsewhere; [|by eapply fix_headers_bumps]. intros o [(k & Hk & ->) _]. apply Ha; lia.
    - rewrite <- H2 by lia. eapply IH; [done|done|lia]. }
  case_decide as Hz; intros Hf; eapply Hgo; try done. destruct Hr as [Hb _]. intros j Hj.
  eapply word_elsewhere; [exact Hb|]. apply Ha; lia.
Qed.

Lemma at_header_align n i :
  0 ≤ e_phoff → 0 ≤ e_phentsize → e_phoff + n * e_phentsize + 48 < 2^64 → 0 ≤ i < n →
  at_header i = Z.to_nat (e_phoff + i * e_phentsize + 48).
Proof.
  intros H0 Hs Hn Hi. unfold at_header, align_offset, P_ALIGN_OFFSET. f_equal.
  assert (0 ≤ i * e_phentsize ≤ n * e_phentsize) by nia.
  rewrite !wrap64_small; unfold u64, u64_max; try rewrite wrap64_small; unfold u64, u64_max; lia.
Qed.

Lemma headers_apart n :
  0 ≤ e_phoff → 8 ≤ e_phentsize → 0 ≤ n → e_phoff + n * e_phentsize + 48 < 2^64 → apart 0 (Z.to_nat n).
Proof.
  intros H0 Hs Hn Hw j k Hj Hk Hne. rewrite !(at_header_align n) by lia.
  destruct (decide (j < k)); [right; nia|left; nia].
Qed.
End headers.

Lemma read_header_range c e_phoff e_phentsize e_phnum :
  read_header c = Ok (Some (e_phoff, e_phentsize, e_phnum)) →
  0 ≤ e_phoff < 2^64 ∧ 0 ≤ e_phentsize < 2^16 ∧ 0 ≤ e_phnum < 2^16.
Proof.
  unfold read_header. destruct (read_exact c 0 4) as [magic|]; [|done]. cbn [mbind result_bind]. case_decide; [done|].
  destruct (read_exact c 4 1) as [cls|]; [|done]. cbn [mbind result_bind]. case_decide; [done|].
  assert (∀ o n v, read_le c o n = Ok v → 0 ≤ v < 256 ^ Z.of_nat n) as Hr.
  { intros o n v. unfold read_le, read_exact. case_decide; [done|]. case_decide as Hl; [|done]. simpl. intros [= <-].
    pose proof (le_int_range (take_bytes n (drop_bytes (Z.to_nat o) c))) as Hr. by rewrite Hl in Hr. }
  destruct (read_le c E_PHOFF_OFFSET 8) as [a|] eqn:E1; [|done]. destruct (read_le c E_PHENTSIZE_OFFSET 2) as [b|] eqn:E2; [|done].
  destruct (read_le c E_PHNUM_OFFSET 2) as [d|] eqn:E3; [|done]. cbn [mbind result_bind]. intros [= <- <- <-].
  apply Hr in E1, E2, E3. done.
Qed.

(** ** The layout of a 64-bit file, as the format has it *)
(** The little-endian number in [n] bytes from [o] on, if the file has them *)
Fixpoint field (c : string) (o n : nat) : option Z :=
  match n with
  | O => Some 0
  | S n' => a ← String.get o c; rest ← field c (S o) n'; Some (Z.of_N (N_of_ascii a) + 256 * rest)
  end.

(** The file begins with 7f, ELF and the class of 64 bits; its table of program headers starts at
    [phoff] and has [phnum] of [phentsize] bytes each. *)
Record elf64 (c : string) (phoff phentsize phnum : Z) : Prop := mkElf64 {
  el_magic : String.get 0 c = Some (ascii_of_N 0x7f) ∧ String.get 1 c = Some "E"%char ∧ String.get 2 c = Some "L"%char
             ∧ String.get 3 c = Some "F"%char;
  el_class : String.get 4 c = Some (ascii_of_N 2);
  el_phoff : field c 32 8 = Some phoff;
  el_phentsize : field c 54 2 = Some phentsize;
  el_phnum : field c 56 2 = Some phnum;
}.

(** A program header has its alignment in eight bytes from the 48th on. *)
Definition p_align (phoff phentsize i : Z) : nat := Z.to_nat (phoff + i * phentsize + 48).

Lemma field_window c o n :
  field c o n = if decide (o + n ≤ String.length c)%nat then Some (le_int (take_bytes n (drop_bytes o c)))
                else if decide (n = 0)%nat then Some 0 else None.
Proof.
  revert o. induction n as [|n IH]; intros o; [by case_decide|]. cbn [field]. rewrite IH. clear IH.
  revert c. induction o as [|o IHo]; intros [|a c]; cbn [String.get drop_bytes].
  - done.
  - cbn [String.length Nat.add]. destruct (decide (S n ≤ S (String.length c))%nat) as [Hl|Hl]; [done|].
    rewrite (decide_False (P := n = 0%nat)) by lia. done.
  - done.
  - specialize (IHo c). cbn [String.length Nat.add]. cbn [Nat.add] in IHo.
    change (drop_bytes (S o) (String a c)) with (drop_bytes o c). change (drop_bytes (S (S o)) (String a c)) with (drop_bytes (S o) c).
    destruct (String.get o c) as [b|]; cbn [mbind option_bind] in IHo |- *; repeat case_decide; try lia; done.
Qed.

Lemma field_Some c o n v :
  field c o n = Some v → (0 < n)%nat → (o + n ≤ String.length c)%nat ∧ v = le_int (take_bytes n (drop_bytes o c)).
Proof. rewrite field_window. intros Hf Hn. repeat case_decide; try done; [|lia]. by injection Hf as <-. Qed.

Lemma field_word c o v : field c o 8 = Some v ↔ (o + 8 ≤ String.length c)%nat ∧ word c o = v.
Proof. rewrite field_window. unfold word. repeat case_decide; naive_solver. Qed.

Lemma read_le_field c o n :
  0 ≤ o ≤ i64_max → (0 < n)%nat →
  read_le c o n = match field c (Z.to_nat o) n with Some v => Ok v | None => Err (OtherError "unexpected end of file") end.
Proof.
  intros Ho Hn. unfold read_le, read_exact. rewrite decide_False, field_window by lia.
  rewrite length_take_bytes, length_drop_bytes. destruct (decide (Z.to_nat o + n ≤ String.length c)%nat).
  - rewrite decide_True by lia. done.
  - rewrite decide_False by lia. by rewrite decide_False by lia.
Qed.

(** What the tool takes for the header of a 64-bit file is one. *)
Lemma read_header_elf c phoff phentsize phnum :
  read_header c = Ok (Some (phoff, phentsize, phnum)) ↔ elf64 c phoff phentsize phnum.
Proof.
  assert (∀ a0 a1 a2 a3 a4 rest, read_header (String a0 (String a1 (String a2 (String a3 (String a4 rest))))) = Ok (Some (phoff, phentsize, phnum))
            ↔ elf64 (String a0 (String a1 (String a2 (String a3 (String a4 rest))))) phoff phentsize phnum) as Hlong.
  { intros a0 a1 a2 a3 a4 rest. clear c. set (c := String a0 _).
    assert (read_exact c 0 4 = Ok (String a0 (String a1 (String a2 (String a3 ""))))) as Hm by done.
    assert (read_exact c 4 1 = Ok (String a4 "")) as Hc by done.
    unfold read_header. rewrite Hm, Hc. cbn [mbind result_bind].
    rewrite !read_le_field by (unfold E_PHOFF_OFFSET, E_PHENTSIZE_OFFSET, E_PHNUM_OFFSET, i64_max; lia).
    change (Z.to_nat E_PHOFF_OFFSET) with 32%nat. change (Z.to_nat E_PHENTSIZE_OFFSET) with 54%nat.
    change (Z.to_nat E_PHNUM_OFFSET) with 56%nat.
    destruct (decide (String a0 (String a1 (String a2 (String a3 ""))) = ELF_MAGIC)) as [Em|Em].
    - rewrite decide_False by naive_solver. injection Em as -> -> -> ->. rewrite le_int_one.
      destruct (decide (a4 = ascii_of_N 2)) as [->|Ha].
      + rewrite decide_False by (by intros []). split.
        * destruct (field c 32 8) eqn:E1; [|done]. destruct (field c 54 2) eqn:E2; [|done]. destruct (field c 56 2) eqn:E3; [|done].
          cbn [mbind result_bind]. intros [= -> -> ->]. by constructor.
        * by intros [_ _ -> -> ->].
      + rewrite decide_True.
        * split; [done|]. by intros [_ [= ?] _ _ _].
        * intros Hb. apply Ha. unfold ELFCLASS64 in Hb. rewrite <- (ascii_N_embedding a4). f_equal. lia.
    - rewrite decide_True by done. split; [done|]. intros [(E0 & E1 & E2 & E3) _ _ _ _]. destruct Em.
      injection E0 as ->. injection E1 as ->. injection E2 as ->. by injection E3 as ->. }
  destruct c as [|a0 [|a1 [|a2 [|a3 [|a4 rest]]]]]; [..|apply Hlong];
    (split; [|by intros [_ ? _ _ _]]); unfold read_header; try done.
  assert (read_exact (String a0 (String a1 (String a2 (String a3 "")))) 0 4 = Ok (String a0 (String a1 (String a2 (String a3 ""))))) as -> by done.
  cbn [mbind result_bind]. by case_decide.
Qed.

(** C37. In a 64-bit ELF file whose table of program headers lies below the end of the address space,
    nothing is changed but the first byte of alignments, of program headers, that were zero, which is
    set to one.  When there is no error no program header is left without an alignment, where headers
    are not shorter than an alignment every other alignment is what it was, and the file is reported
    as changed exactly if it was; an error means that a program header lies beyond the end of the
    file.  Other files are left alone. *)
Theorem headers_aligned content r content' :
  fix_content content = (r, content') → len content < 2^63 →
  ((∀ phoff phentsize phnum, ¬ elf64 content phoff phentsize phnum) → content' = content ∧ r ≠ Ok true)
  ∧ ∀ phoff phentsize phnum,
      elf64 content phoff phentsize phnum → phoff + phnum * phentsize + 48 < 2^64 →
      let align := p_align phoff phentsize in
      set_at (λ o, ∃ i, 0 ≤ i < phnum ∧ o = align i ∧ field content o 8 = Some 0) content content'
      ∧ match r with
        | Ok changed =>
            (changed = false ↔ content' = content)
            ∧ ∀ i, 0 ≤ i < phnum → ∃ v v', field content (align i) 8 = Some v ∧ field content' (align i) 8 = Some v'
                ∧ v' ≠ 0 ∧ (8 ≤ phentsize → v' = Z.max 1 v)
        | Err _ => ∃ i, 0 ≤ i < phnum ∧ field content (align i) 8 = None
        end.
Proof.
  intros Hfix Hlen. split.
  { intros Hno. unfold fix_content in Hfix. destruct (read_header content) as [[[[a b] d]|]|e] eqn:Hh;
      [|by injection Hfix as <- <-|by injection Hfix as <- <-].
    by apply read_header_elf, Hno in Hh. }
  intros phoff phentsize phnum Hh Hwrap align. apply read_header_elf in Hh.
  pose proof (read_header_range _ _ _ _ Hh) as (Ho & Hs & Hn). unfold fix_content in Hfix. rewrite Hh in Hfix.
  assert (∀ i, 0 ≤ i < phnum → at_header phoff phentsize i = align i) as Hat.
  { intros i Hi. apply (at_header_align _ _ phnum); lia. }
  destruct (fix_headers _ _ _ _ _ _) as [res c'] eqn:Hf. pose proof (fix_headers_bumps _ _ _ _ _ _ _ _ Hf) as Hb.
  assert (content' = c') as -> by (by destruct res; injection Hfix as <- <-).
  split.
  - eapply bumps_set, bumps_weaken; [|exact (bumps_zero _ _ _ Hb)]. intros o (((j & Hj & ->) & Hl) & Hz).
    exists j. rewrite Hat by lia. split; [lia|]. split; [done|]. rewrite Hat in Hl, Hz by lia. by apply field_word.
  - destruct res as [m|e]; injection Hfix as <-.
    + destruct (fix_headers_set _ _ _ _ _ _ _ _ Hf) as (Hall & Hle & Heq).
      split; [rewrite bool_decide_eq_false, <- Heq; lia|]. intros i Hi. destruct (Hall i ltac:(lia)) as [Hl Hne].
      exists (word content (align i)), (word c' (align i)). rewrite <- Hat by done.
      split; [by apply field_word|]. split; [apply field_word; split; [by rewrite (bumps_length _ _ _ Hb)|done]|]. split; [done|].
      intros H8. eapply fix_headers_exact; [|exact Hf|lia]. apply (headers_apart _ _ phnum); lia.
    + destruct (fix_headers_err _ _ _ _ _ _ _ _ Hf Hlen) as (j & Hj & Hl). exists j. split; [lia|].
      rewrite <- Hat by lia. rewrite field_window, !decide_False by lia. done.
Qed.

(** ** A small file: one class-64 header at 64 whose alignment is zero, and one that has its own *)
Module ElfDemo.
Definition header : string :=
  ELF_MAGIC +:+ String (byte_of 2) (zeros 27) +:+ le_bytes 8 64 +:+ zeros 14 +:+ le_bytes 2 56 +:+ le_bytes 2 2 +:+ zeros 6.
Definition elf : string := header +:+ zeros 56 +:+ zeros 48 +:+ le_bytes 8 4096.
Definition fixed_elf : string := header +:+ zeros 48 +:+ le_bytes 8 1 +:+ zeros 48 +:+ le_bytes 8 4096.

Example elf_fixed : fix_content elf = (Ok true, fixed_elf).
Proof. vm_compute. reflexivity. Qed.

Example second_run : fix_content fixed_elf = (Ok false, fixed_elf).
Proof. vm_compute. reflexivity. Qed.

(** The table goes beyond the end of the file: the first header stays rewritten. *)
Example cut_short : fix_content (take_bytes 170 elf) = (Err (OtherError "unexpected end of file"), take_bytes 170 fixed_elf).
Proof. vm_compute. reflexivity. Qed.

Example not_for_the_tool : fix_content "plain text" = (Ok false, "plain text") ∧ fix_content "" = (Err (OtherError "unexpected end of file"), "").
Proof. vm_compute. done. Qed.

Lemma elf_is_elf : elf64 elf 64 56 2.
Proof. constructor; vm_compute; try reflexivity. split_and!; reflexivity. Qed.

Lemma headers_aligned_witness :
  field elf 112 8 = Some 0 ∧ field elf 168 8 = Some 4096
  ∧ (∃ v', field fixed_elf 112 8 = Some v' ∧ v' ≠ 0) ∧ ∃ v', field fixed_elf 168 8 = Some v' ∧ v' = Z.max 1 4096.
Proof.
  destruct (headers_aligned elf (Ok true) fixed_elf) as (_ & H); [vm_compute; reflexivity|vm_compute; reflexivity|].
  destruct (H 64 56 2 elf_is_elf ltac:(vm_compute; reflexivity)) as (_ & _ & Hall).
  split; [vm_compute; reflexivity|]. split; [vm_compute; reflexivity|]. split.
  - destruct (Hall 0 ltac:(lia)) as (v & v' & _ & Hv & Hne & _). exists v'. split; [exact Hv|exact Hne].
  - destruct (Hall 1 ltac:(lia)) as (v & v' & Hv & Hv' & _ & Hmax). exists v'. split; [exact Hv'|].
    rewrite (Hmax ltac:(lia)). f_equal. vm_compute in Hv. by injection Hv as <-.
Defined.
End ElfDemo.
