(* ===== verification/NetSetup.v ===== *)
(** * Setting up the network ([netcfg-setup/src/main.rs])

    A command that reads and writes the files of the [netcfg:] scheme and of [/etc/net].  These files
    are a parameter, and change while the command sleeps; what it writes and how long it waits is
    recorded. *)

From S2P Require Import Prelude RustStd.

Open Scope Z_scope.

(** The files, by their paths, and time: a directory that cannot be listed is [None], a name that
    cannot be read is skipped; [exec] comes back only when it fails. *)
Class NetFiles (W : Type) : Type := {
  nf_exists : string → W → bool;
  nf_read_dir : string → W → option (list (option string));
  nf_read : string → W → option string;
  nf_write : string → string → W → bool * W;
  nf_sleep : Z → W → W;
}.

Inductive net_event : Type :=
  | Slept (ms : Z)
  | Wrote (p content : string)
  | Exec (program : string) (args : list string).

Section netcfg.
Context {W : Type} {NF : NetFiles W}.

Definition N (A : Type) : Type := W * list net_event → A * (W * list net_event).
#[local] Instance N_ret : MRet N := λ A a s, (a, s).
#[local] Instance N_bind : MBind N := λ A B f m s, let '(a, s) := m s in f a s.

Definition see {A} (f : W → A) : N A := λ s, (f s.1, s).
Definition sleep (ms : Z) : N unit := λ '(w, l), (tt, (nf_sleep ms w, l ++ [Slept ms])).

Definition exec (program : string) (args : list string) : N unit := λ '(w, l), (tt, (w, l ++ [Exec program args])).

(** [write_scheme]: every caller drops its error. *)
Definition write_scheme (p content : string) : N bool := λ '(w, l),
  let '(ok, w) := nf_write p content w in (ok, (w, l ++ [Wrote p content])).

Definition read_config (p : string) : N (option string) := see (λ w,
  s ← nf_read p w; if Str.utf8_valid s then Some (Str.trim s) else None).

Fixpoint wait_for_interface (attempts : nat) (interval_ms : Z) (iface : string) : N bool :=
  match attempts with
  | O => mret false
  | S attempts' =>
      here ← see (nf_exists ("/scheme/netcfg/ifaces/" +:+ iface +:+ "/mac"));
      if here : bool then mret true
      else sleep interval_ms ;; wait_for_interface attempts' interval_ms iface
  end.

(** The first name that is not the loopback's *)
Fixpoint first_interface (entries : list (option string)) : option string :=
  match entries with
  | [] => None
  | Some name :: entries' =>
      let name := Str.from_utf8_lossy name in
      if decide (name ≠ "lo") then Some name else first_interface entries'
  | None :: entries' => first_interface entries'
  end.

Definition discover_first_interface : N (option string) :=
  entries ← see (nf_read_dir "/scheme/netcfg/ifaces");
  match entries ≫= first_interface with
  | Some name => mret (Some name)
  | None =>
      here ← see (nf_exists "/scheme/netcfg/ifaces/eth0/mac");
      mret (if here : bool then Some "eth0" else None)
  end.

Fixpoint wait_for_any_interface (attempts : nat) (interval_ms : Z) : N (option string) :=
  match attempts with
  | O => mret None
  | S attempts' =>
      found ← discover_first_interface;
      match found with
      | Some name => mret (Some name)
      | None => sleep interval_ms ;; wait_for_any_interface attempts' interval_ms
      end
  end.

(** [lines().next()], of which the caller trims the end: a text that is not empty has a first line. *)
Definition first_line (s : string) : option string :=
  if decide (s = "") then None else Some (match Str.split_once "010" s with Some (l, _) => l | None => s end).

Definition read_dns_config : N string :=
  s ← read_config "/etc/net/dns";
  mret (match Str.trim <$> (s ≫= first_line) with
        | Some dns => if decide (dns = "") then "1.1.1.1" else dns
        | None => "1.1.1.1"
        end).

(** [str::parse::<u8>]: a sign [+] is allowed *)
Fixpoint parse_dec (max acc : Z) (s : string) : option Z :=
  match s with
  | EmptyString => Some acc
  | String c s' =>
      let b := Z.of_N (Str.byte c) in
      if decide (48 ≤ b ≤ 57) then
        let v := acc * 10 + (b - 48) in if decide (max < v) then None else parse_dec max v s'
      else None
  end.

Definition parse_u8 (s : string) : option Z :=
  match s with
  | EmptyString | String "+" EmptyString => None
  | String "+" s' => parse_dec 255 0 s'
  | _ => parse_dec 255 0 s
  end.

(** [u32::count_ones] *)
Fixpoint count_ones (n : nat) (z : Z) : Z :=
  match n with O => 0 | S n' => z `mod` 2 + count_ones n' (z / 2) end.

(** Parts that are no octets are skipped, and the ones are counted wherever they are. *)
Definition dotted_to_cidr (mask : string) : option string :=
  match omap parse_u8 (Str.split "." mask) with
  | [a; b; c; d] =>
      Some (pretty (count_ones 32 (Z.lor (Z.lor (Z.lor (Z.shiftl a 24) (Z.shiftl b 16)) (Z.shiftl c 8)) d)))
  | _ => None
  end.

Definition read_netmask_config (iface : string) : N string :=
  raw ← read_config ("/etc/net/" +:+ iface +:+ "/netmask");
  let raw := match raw with Some s => if decide (s = "") then "24" else s | None => "24" end in
  mret (if Str.contains_char "." raw then default "24" (dotted_to_cidr raw) else raw).

Definition address_with_prefix (iface address : string) : N string :=
  if Str.contains_char "/" address then mret address
  else prefix ← read_netmask_config iface; mret (address +:+ "/" +:+ prefix).

Definition apply_static_config (iface address gateway : string) : N unit :=
  dns ← read_dns_config;
  addr_content ← address_with_prefix iface address;
  _ ← write_scheme ("/scheme/netcfg/ifaces/" +:+ iface +:+ "/addr/set") addr_content;
  _ ← write_scheme "/scheme/netcfg/route/add" ("default via " +:+ gateway);
  _ ← write_scheme "/scheme/netcfg/resolv/nameserver" dns;
  mret tt.

(** DHCP has answered when the list of addresses holds a dot. *)
Definition looks_like_address (content : string) : bool :=
  negb (bool_decide (content = "")) && Str.contains_char "." content.

Fixpoint wait_for_dhcp (attempts : nat) (iface : string) : N bool :=
  match attempts with
  | O => mret false
  | S attempts' =>
      content ← read_config ("/scheme/netcfg/ifaces/" +:+ iface +:+ "/addr/list");
      if match content with Some c => looks_like_address c | None => false end then mret true
      else sleep 500 ;; wait_for_dhcp attempts' iface
  end.

Definition cmd_auto : N Z :=
  found ← wait_for_any_interface 30 200;
  match found with
  | None => mret 0
  | Some iface =>
      done ← wait_for_dhcp 30 iface;
      if done : bool then mret 0
      else
        here ← see (nf_exists "/etc/net/cloud-hypervisor/ip");
        if negb here then mret 0
        else
          ip ← read_config "/etc/net/cloud-hypervisor/ip";
          match ip with
          | None => mret 0
          | Some ip =>
              gateway ← read_config "/etc/net/cloud-hypervisor/gateway";
              match gateway with
              | None => mret 0
              | Some gateway => apply_static_config iface ip gateway ;; mret 0
              end
          end
  end.

Definition cmd_static (iface address gateway : string) : N Z :=
  found ← wait_for_interface 30 200 iface;
  if negb found then mret 1 else apply_static_config iface address gateway ;; mret 0.

Definition cmd_cloud : N Z :=
  found ← discover_first_interface;
  match found with
  | None => mret 1
  | Some iface =>
      ip ← read_config "/etc/net/cloud-hypervisor/ip";
      match ip with
      | None => mret 1
      | Some ip =>
          gateway ← read_config "/etc/net/cloud-hypervisor/gateway";
          match gateway with
          | None => mret 1
          | Some gateway => apply_static_config iface ip gateway ;; mret 0
          end
      end
  end.

Definition cmd_dhcpd : N Z :=
  found ← wait_for_any_interface 30 200;
  match found with
  | None => mret 1
  | Some iface => exec "/bin/dhcpd" ["-v"; iface] ;; mret 1
  end.

Definition cmd_static_auto (address gateway : string) : N Z :=
  found ← wait_for_any_interface 30 200;
  match found with
  | None => mret 1
  | Some iface => apply_static_config iface address gateway ;; mret 0
  end.

(** ** The command line: the last value of an option counts. *)
Record net_options : Type := mkNetOptions { no_interface : option string; no_address : option string; no_gateway : option string }.

(** [None] is an option without a value, or an unknown one: the process exits with 1. *)
Fixpoint parse_options (interface : bool) (args : list string) (o : net_options) : option net_options :=
  match args with
  | [] => Some o
  | [_] => None
  | name :: value :: args' =>
      if decide (name = "--interface" ∧ interface = true) then
        parse_options interface args' (mkNetOptions (Some value) (no_address o) (no_gateway o))
      else if decide (name = "--address") then
        parse_options interface args' (mkNetOptions (no_interface o) (Some value) (no_gateway o))
      else if decide (name = "--gateway") then
        parse_options interface args' (mkNetOptions (no_interface o) (no_address o) (Some value))
      else None
  end.

Definition main (args : list string) : N Z :=
  match args with
  | [] => mret 1
  | command :: rest =>
      if decide (command = "auto") then cmd_auto
      else if decide (command = "static") then
        match parse_options true rest (mkNetOptions None None None) with
        | Some (mkNetOptions (Some i) (Some a) (Some g)) => cmd_static i a g
        | _ => mret 1
        end
      else if decide (command = "static-auto") then
        match parse_options false rest (mkNetOptions None None None) with
        | Some (mkNetOptions _ (Some a) (Some g)) => cmd_static_auto a g
        | _ => mret 1
        end
      else if decide (command = "dhcpd") then cmd_dhcpd
      else if decide (command = "cloud") then cmd_cloud
      else if decide (command = "-h" ∨ command = "--help") then mret 0
      else mret 1
  end.
End netcfg.
Arguments N : clear implicits.

(** ** What a command leaves behind *)
Section facts.
Context {W : Type} {NF : NetFiles W}.
Abbreviation N := (N W).

(** The result and the events a command adds, whatever the files hold *)
Definition adds {A} (m : N A) (P : A → list net_event → Prop) : Prop :=
  ∀ w l, ∃ a w' l', m (w, l) = (a, (w', l ++ l')) ∧ P a l'.

Lemma adds_ret {A} (a : A) (P : A → list net_event → Prop) : P a [] → adds (N_ret A a : N A) P.
Proof. intros H w l. exists a, w, []. by rewrite app_nil_r. Qed.

Lemma adds_see {A} (f : W → A) (P : A → list net_event → Prop) : (∀ w, P (f w) []) → adds (see f) P.
Proof. intros H w l. exists (f w), w, []. by rewrite app_nil_r. Qed.

Lemma adds_bind {A B} (m : N A) (f : A → N B) (P : A → list net_event → Prop) (Q : B → list net_event → Prop) :
  adds m P → (∀ a l, P a l → adds (f a) (λ b l', Q b (l ++ l'))) → adds (N_bind A B f m) Q.
Proof.
  intros Hm Hf w l. destruct (Hm w l) as (a & w1 & l1 & E1 & Ha). destruct (Hf a l1 Ha w1 (l ++ l1)) as (b & w2 & l2 & E2 & Hb).
  exists b, w2, (l1 ++ l2). unfold N_bind. rewrite E1, E2. by rewrite (assoc_L (++)).
Qed.

Lemma adds_mono {A} (m : N A) (P Q : A → list net_event → Prop) : (∀ a l, P a l → Q a l) → adds m P → adds m Q.
Proof. intros HPQ Hm w l. destruct (Hm w l) as (a & w' & l' & E & H). exists a, w', l'. auto. Qed.

(** Sleeping only, for at most so many milliseconds *)
Inductive sleeps : Z → list net_event → Prop :=
  | sleeps_none n : 0 ≤ n → sleeps n []
  | sleeps_more n ms l : 0 ≤ ms ≤ n → sleeps (n - ms) l → sleeps n (Slept ms :: l).

Lemma sleeps_app n m l l' : sleeps n l → sleeps m l' → sleeps (n + m) (l ++ l').
Proof.
  induction 1 as [n Hn|n ms l Hms Hl IH]; intros H'; simpl.
  - destruct H' as [m Hm|m ms l Hms Hl]; constructor; try lia. replace (n + m - ms) with (m - ms + n) by lia.
    clear -Hl Hn. remember (m - ms) as k. clear Heqk. revert n Hn. induction Hl as [k Hk|k ms' l Hms Hl IH]; intros n Hn; constructor; try lia.
    replace (k + n - ms') with (k - ms' + n) by lia. by apply IH.
  - constructor; [inversion H'; lia|]. replace (n + m - ms) with (n - ms + m) by lia. by apply IH.
Qed.

Lemma adds_sleep ms : 0 ≤ ms → adds (sleep ms) (λ _, sleeps ms).
Proof. intros Hm w l. exists tt, (nf_sleep ms w), [Slept ms]. split; [done|]. constructor; [lia|]. constructor. lia. Qed.

(** A loop of attempts: either it is over, or it sleeps and goes on. *)
Lemma sleeps_attempts n ms l : 0 ≤ ms → sleeps (ms + Z.of_nat n * ms) l → sleeps (Z.of_nat (S n) * ms) l.
Proof. intros Hm H. by replace (Z.of_nat (S n) * ms) with (ms + Z.of_nat n * ms) by lia. Qed.

Lemma adds_discover : adds discover_first_interface (λ _ l, l = []).
Proof.
  apply (adds_bind _ _ (λ _ l, l = [])); [by apply adds_see|]. intros entries l ->.
  destruct (entries ≫= first_interface); [by apply adds_ret|].
  apply (adds_bind _ _ (λ _ l, l = [])); [by apply adds_see|]. intros here l ->. by apply adds_ret.
Qed.

Lemma adds_wait_any n ms : 0 ≤ ms → adds (wait_for_any_interface n ms) (λ _, sleeps (Z.of_nat n * ms)).
Proof.
  intros Hm. induction n as [|n IH]; cbn [wait_for_any_interface]; [apply adds_ret; by constructor|].
  apply (adds_bind _ _ (λ _ l, l = [])); [apply adds_discover|]. intros [name|] l ->; [apply adds_ret; constructor; lia|].
  apply (adds_bind _ _ (λ _, sleeps ms)); [by apply adds_sleep|]. intros [] l Hl. eapply adds_mono; [|exact IH].
  intros a l' Hl'. simpl. apply sleeps_attempts; [done|]. by apply sleeps_app.
Qed.

Lemma adds_config p : adds (read_config p) (λ _ l, l = []).
Proof. by apply adds_see. Qed.

Lemma adds_wait_dhcp n iface : adds (wait_for_dhcp n iface) (λ _, sleeps (Z.of_nat n * 500)).
Proof.
  induction n as [|n IH]; cbn [wait_for_dhcp]; [apply adds_ret; by constructor|].
  apply (adds_bind _ _ (λ _ l, l = [])); [apply adds_config|]. intros content l ->.
  destruct (match content with Some c => looks_like_address c | None => false end); [apply adds_ret; constructor; lia|].
  apply (adds_bind _ _ (λ _, sleeps 500)); [by apply adds_sleep|]. intros [] l Hl. eapply adds_mono; [|exact IH].
  intros a l' Hl'. simpl. apply sleeps_attempts; [done|]. by apply sleeps_app.
Qed.

(** The three writes: an address with the length of its prefix, the route, a name server *)
Definition configured (iface gateway : string) (l : list net_event) : Prop :=
  ∃ addr dns, Str.contains_char "/" addr = true ∧ dns ≠ ""
    ∧ l = [Wrote ("/scheme/netcfg/ifaces/" +:+ iface +:+ "/addr/set") addr;
           Wrote "/scheme/netcfg/route/add" ("default via " +:+ gateway);
           Wrote "/scheme/netcfg/resolv/nameserver" dns].

Lemma adds_write p content : adds (write_scheme p content) (λ _ l, l = [Wrote p content]).
Proof. intros w l. unfold write_scheme. destruct (nf_write p content w) as [ok w']. by exists ok, w', [Wrote p content]. Qed.

Lemma adds_dns : adds read_dns_config (λ dns l, l = [] ∧ dns ≠ "").
Proof.
  apply (adds_bind _ _ (λ _ l, l = [])); [apply adds_config|]. intros s l ->. apply adds_ret. split; [done|].
  destruct (Str.trim <$> _) as [dns|]; [|done]. by case_decide.
Qed.

Lemma adds_netmask iface : adds (read_netmask_config iface) (λ _ l, l = []).
Proof. apply (adds_bind _ _ (λ _ l, l = [])); [apply adds_config|]. intros s l ->. by apply adds_ret. Qed.

Lemma adds_address iface address : adds (address_with_prefix iface address) (λ a l, l = [] ∧ Str.contains_char "/" a = true).
Proof.
  unfold address_with_prefix. destruct (Str.contains_char "/" address) eqn:E; [by apply adds_ret|].
  apply (adds_bind _ _ (λ _ l, l = [])); [apply adds_netmask|]. intros prefix l ->. apply adds_ret. split; [done|].
  rewrite Str.contains_char_app. by rewrite E.
Qed.

Lemma adds_apply iface address gateway : adds (apply_static_config iface address gateway) (λ _, configured iface gateway).
Proof.
  apply (adds_bind _ _ (λ dns l, l = [] ∧ dns ≠ "")); [apply adds_dns|]. intros dns l [-> Hd].
  apply (adds_bind _ _ (λ a l, l = [] ∧ Str.contains_char "/" a = true)); [apply adds_address|]. intros addr l [-> Ha].
  eapply adds_bind; [apply adds_write|]. intros _ l ->. eapply adds_bind; [apply adds_write|]. intros _ l ->.
  eapply adds_bind; [apply adds_write|]. intros _ l ->. apply adds_ret. by exists addr, dns.
Qed.

(** [netcfg-setup auto] always ends with 0, after at most 21 seconds of waiting; it then writes nothing,
    or the whole static configuration of one interface. *)
Lemma auto_configures :
  adds cmd_auto (λ r l, r = 0 ∧ ∃ waits rest, l = waits ++ rest ∧ sleeps 21000 waits
    ∧ (rest = [] ∨ ∃ iface gateway, configured iface gateway rest)).
Proof.
  assert (∀ waits, sleeps 21000 waits →
            (λ r l, r = 0 ∧ ∃ waits rest, l = waits ++ rest ∧ sleeps 21000 waits
               ∧ (rest = [] ∨ ∃ iface gateway, configured iface gateway rest)) 0 (waits ++ [])) as Hnone.
  { intros waits Hw. split; [done|]. exists waits, []. auto. }
  eapply adds_bind; [by apply (adds_wait_any 30 200)|]. intros [iface|] l1 H1.
  2:{ apply adds_ret, Hnone. apply (sleeps_app 6000 15000 l1 []) in H1; [by rewrite app_nil_r in H1|by constructor]. }
  eapply adds_bind; [apply (adds_wait_dhcp 30)|]. intros done l2 H2.
  pose proof (sleeps_app _ _ _ _ H1 H2) as Hw. change (Z.of_nat 30 * 200 + Z.of_nat 30 * 500) with 21000 in Hw.
  destruct done; [apply adds_ret; rewrite (assoc_L (++)); by apply Hnone|].
  apply (adds_bind _ _ (λ _ l, l = [])); [by apply adds_see|]. intros here l ->.
  destruct (negb here); [apply adds_ret; rewrite (assoc_L (++)); by apply Hnone|].
  eapply adds_bind; [apply adds_config|]. intros [ip|] l ->; [|apply adds_ret; rewrite (assoc_L (++)); by apply Hnone].
  eapply adds_bind; [apply adds_config|]. intros [gateway|] l ->; [|apply adds_ret; rewrite (assoc_L (++)); by apply Hnone].
  eapply adds_bind; [apply adds_apply|]. intros [] l Hl. apply adds_ret. split; [done|]. exists (l1 ++ l2), l.
  split; [by rewrite app_nil_r, !(assoc_L (++)); simpl; rewrite ?app_nil_r|]. split; [done|]. right. by exists iface, gateway.
Qed.
End facts.

(** ** Netmasks *)
Definition dotted (mask : Z) : string :=
  pretty (mask / 2^24) +:+ "." +:+ pretty ((mask / 2^16) `mod` 256) +:+ "." +:+ pretty ((mask / 2^8) `mod` 256) +:+ "." +:+ pretty (mask `mod` 256).

(** The netmask of a prefix gives back the prefix. *)
Lemma netmask_read p : 0 ≤ p ≤ 32 → dotted_to_cidr (dotted (2^32 - 2^(32 - p))) = Some (pretty p).
Proof.
  assert (Forall (λ p, dotted_to_cidr (dotted (2^32 - 2^(32 - p))) = Some (pretty p)) (seqZ 0 33)) as H.
  { apply (bool_decide_unpack _). vm_compute. done. }
  intros Hp. rewrite Forall_forall in H. apply H, elem_of_seqZ. lia.
Qed.

(** What is no netmask is read as one. *)
Example odd_netmasks : dotted_to_cidr "255.0.255.0" = Some "16" ∧ dotted_to_cidr "255.x.255.255.0" = Some "24".
Proof. vm_compute. done. Qed.
